(* ===== verification/_CoqProject ===== *)
-Q . S2P
Prelude.v
GoStrings.v
Netip.v
Base64.v
Regex.v
PermRef.v
TenantCtx.v
Models.v
Utf8.v
LdapPolicy.v
LdapFilter.v
Password.v
Cache.v
Envelope.v
Token.v
RingSafety.v
TokenSafety.v
TokenRuns.v
AuthClient.v
ClientSafety.v
AuditEvents.v
OAuth.v
OAuthSafety.v
AuditWriter.v
AuditQuery.v
AuditQuerySafety.v
Session.v
MemStore.v
SessionSafety.v
SessionRuns.v
SessionsApi.v
EnrollApi.v
SessionsApiSafety.v
FeedRuns.v
Mfa.v
MfaSafety.v
Outbox.v
OutboxWorker.v
OutboxSafety.v
Tenants.v
Signin.v
MemAccounts.v
WebAuthn.v
WebAuthnSafety.v
Recovery.v
RecoverySafety.v
SigninSafety.v
SigninLockout.v
SigninRuns.v
Fga.v
MemRoles.v
AuthzClient.v
AuthzServices.v
MemModules.v
Modules.v
PermVerify.v
AuthzApi.v
Invite.v
LdapEntry.v
MemDirectory.v
Directory.v
DirectoryImport.v
DirectorySafety.v
ImportSafety.v
DirectoryRuns.v
Admin.v
AdminSafety.v
InviteSafety.v
AuthzFacts.v
Mirror.v
AuthzSafety.v
GroupSafety.v
ModuleSafety.v
AuthzApiSafety.v
PruneSafety.v
AuthzRuns.v
ModuleRuns.v
InviteRuns.v
TenantService.v
TenantSafety.v
