(* ===== verification/Prelude.v ===== *)
(** * go-tangra-auth: a verification development

    go-tangra-auth is a multi-tenant authentication and authorization service
    written in Go.  Browsers sign in with a password and a second factor and
    get a session; applications exchange authorization codes for signed access
    tokens; services verify those tokens with the client SDK and ask the
    service for permission decisions; administrators manage roles and groups,
    which are kept both in the database and as relationship tuples in OpenFGA,
    invite people, and import people from the LDAP directories of the tenant.
    This library models the services that decide those questions as executable
    functions and proves what they promise.

    ** How the program is modelled

    A Go method that may fail and mutate its receiver is a function
    [M S A = S → result A * S] (below): the state changes made before an error
    are kept.  [result] is the Go pair (value, error), [err] the sentinel
    errors.  [x <- m ;; k] and [m ;;; k] chain calls with Go's early return;
    [attempt] keeps the error as a value and [ignore] drops it, as
    [_ = f()] does.  Strings are byte sequences; times and durations are
    nanoseconds in [Z]; maps are [gmap] with the keys of the source.  The
    clock, the random source (a list of draws; running out is the error of the
    reader) and the ids drawn are parts of the state or arguments.

    Code outside the repository is a parameter: a type class of operations and,
    where something is relied on, a class of laws: [KV]/[KVLaws] (the cache
    server), [Crypto] (Ed25519, SHA-256), [JWT] (the token library), [AEAD]
    (AES-GCM), [Argon2], [Totp], [Backend]/[BackendLaws] (OpenFGA), the stores
    ([SessionStore], [MfaStore], [SigninStore], [KeyStore] with their laws),
    [FilterLib]/[FilterLaws] and [DNLib]/[DNLaws] (the LDAP library's filters
    and names), [DirNet] (an LDAP server), [WebAuthnLib]/[WebAuthnLaws] (the
    ceremony library), and functions for url.Parse, the
    public suffix list, PEM and X.509 reading, JSON text and the Unicode case
    maps and PostgreSQL's reading of uuids.  [rollback] says whether a store undoes a failed transaction: the
    database does, memstore does not, and the theorems hold for both.  The
    program's own in-memory implementations (memstore, the memory
    cache, the OpenFGA fake, the in-memory key store) are modelled and shown to
    be instances of those laws; the witnesses run on them.  The laws of the
    cache say that its operations succeed: what the source does when a
    deletion fails (Redeem and the second step of sign-in drop that error) is
    outside the theorems that rest on [KVLaws].  Histories are sequences of
    whole calls unless a theorem says otherwise.

    ** Files

    Shared: Prelude (errors, monad, tactics, hints), GoStrings (package
    strings, strconv), Netip (net/netip addresses and prefixes), Base64, Utf8 (runes), Regex (derivatives; expressions of
    regexp.MustCompile as terms).

    - PermRef: internal/permref: permission references and role slugs.
    - TenantCtx: internal/tenantctx: actors, operator grants, the guard.
    - Models: internal/tenant/policy.go and the records of internal/store.
    - Password: internal/password and internal/crypto/password.go.
    - Tenants: internal/tenant/slug.go.
    - Cache: internal/cache: the KV interface, Memory, counters, locks,
      revocation marks, tenant versions.
    - Envelope: internal/crypto/envelope.go.
    - Token, RingSafety, TokenSafety, TokenRuns: internal/token (key ring,
      rotation, sweep, access and enrollment tokens) and VerifyToken of
      sdk/pkg/authclient.
    - AuthClient, ClientSafety: sdk/pkg/authclient: key sets, the revocation
      feed and Verify.
    - AuditEvents, AuditWriter, AuditQuery, AuditQuerySafety: internal/audit:
      events, rows, the writer goroutine interleaved with Emit, Flush and
      Close, and reading the log page by page (query.go).
    - OAuth, OAuthSafety: internal/oauth: codes and PKCE.
    - Session, SessionSafety, SessionRuns: internal/session.
    - SessionsApi, EnrollApi: internal/grpcapi exchange.go, sessions.go and
      enrollment.go: tokens for sessions, the revocation feed, introspection,
      enrollment tokens and their ledger.  SessionsApiSafety, FeedRuns: their
      theorems.
    - MemStore, MemRoles, MemAccounts, MemDirectory, MemModules:
      internal/memstore.
    - Mfa, MfaSafety: internal/mfa: TOTP, recovery codes, last-factor rules.
    - Signin, SigninSafety, SigninLockout, SigninRuns: internal/user/signin.go.
    - WebAuthn, WebAuthnSafety: internal/webauthn: security keys, their
      ceremonies and clone marks; the ceremony library is a parameter.  The
      witnesses are in SigninRuns.
    - Outbox, OutboxWorker: internal/email: payloads, the queue table of
      internal/store/repos.go, the delivery worker and the notification
      answers.  OutboxSafety: their theorems.
    - Admin, AdminSafety: account administration
      (internal/user/admin.go) and password change
      (internal/password/change.go).
    - TenantService, TenantSafety: internal/tenant: tenants, their
      policies and operator grants.
    - Recovery, RecoverySafety: internal/password/recovery.go.
    - Invite, InviteSafety, InviteRuns: internal/invite.
    - LdapPolicy, LdapFilter, LdapEntry: internal/ldapdir: which addresses may
      be dialled, which filters are sent, and what an entry decodes to.
    - Directory, DirectoryImport: internal/directory: saved connections and
      their tests, search and import.  DirectorySafety, ImportSafety,
      DirectoryRuns: their theorems.
    - Fga: internal/authz objects, tuples, the authorization model and its
      evaluator, chunked writes.
    - AuthzClient: internal/authz client, decision cache, escalation guard,
      decisions.  AuthzServices: assignment, roles, groups.
    - AuthzFacts, Mirror, AuthzSafety, GroupSafety, AuthzRuns: their theorems.
    - Modules: module registration, migration of legacy grants and role
      synchronisation (internal/authz modules.go, registry.go).  PermVerify:
      verification and pruning of legacy permissions (verify.go).
      ModuleSafety, PruneSafety (with the permission catalogue of
      registry.go), ModuleRuns: their theorems.
    - AuthzApi, AuthzApiSafety: internal/grpcapi/authorization.go and
      sdk/pkg/authclient/registration.go: decisions and registrations for
      platform services, and the SDK's own checks.

    A component is one Section over the interfaces it calls; its state is a
    record named as in the source ([Manager], [Ring], [Verifier], [Writer],
    [Store], [Memory], [Fake]) and each method one definition with the name of
    the source where Rocq allows it.  The files named ...Safety hold theorems
    for every implementation that keeps the laws; the concrete histories that
    witness them close those files or are in files named ...Runs.

    ** What the theorems show

    - Sessions, while idle timeouts fit the retention of the revocation
      marks: a revoked session never resolves again, whatever is cached;
      revocation ends every session of its scope; a revoked session gets no
      token.  A client of the SDK that reads the feed afterwards accepts no
      token the revocation ends; introspection is exact while the feed fits in
      a page.
    - Sign-in: who gets a session at either step; a challenge is used once;
      failures up to the threshold, with nothing that resets the counter in
      between, lock the account for both steps.
    - Second factors: until the factor is enrolled anew, a code or recovery
      code is accepted once; in a tenant that requires a factor, disabling the
      app and removing a key leave a usable one; printed recovery codes
      normalize back.
    - Security keys: an assertion completes only for the user, purpose and
      challenge it was started for; clone marks stay; the tables stay
      well-formed and bounded.
    - Passwords and envelopes: what was hashed verifies, what was sealed opens.
    - Invitations and recovery: a token activates one account or resets one
      password, once, before it expires, and nothing else changes.
    - Directories: a bind password goes only to the server it was typed for;
      stored connections keep to the policy; the dial hook is exactly the
      policy, whatever spelling an address has; a search filter cannot escape
      the base filter nor a search base the base of the connection; an import
      accounts for every requested person, asks for the person that was
      previewed and touches imported accounts only.
    - Accounts: an administrator acts on accounts of the own tenant within the
      own rank; a password is changed by who knows it, and its other sessions
      end.
    - Tenants: an operator enters a foreign tenant only under a short grant of
      its own; a suspension ends every session of the tenant; a stored policy
      is valid and reads back.
    - E-mail: a message is handed over a bounded number of times and settled
      and reported once; a run settles or reschedules what it claims; what was
      sealed for a recipient is what is handed over.
    - OAuth: a code is worth what it was issued for, within a minute, once (for
      exchanges that do not overlap).
    - Tokens: an issued token verifies until it expires through any rotation,
      for the ring and end to end for the SDK; the SDK accepts only unrevoked
      tokens of its issuer, audience and tenant and asks for keys at most once
      per interval; token kinds are disjoint; an enrollment token enrolls once.
    - Authorization: the evaluator decides the model; from a state in which
      tuples and rows agree they agree after any sequence of service calls
      (refinement of the relational specification; [service] says which
      deletions are taken in) and no call escalates; whatever other tenants
      call or write, no permission check of a tenant changes; the last account
      bound as owner stays; large writes are split faithfully.
    - Modules: a registration changes nothing but what is the module's own;
      the migration gives each role exactly the scoped forms of its legacy
      grants; module roles match their definitions after a synchronisation;
      pruning is refused unless every holder of a legacy permission keeps it in
      scoped form; the role editor marks as grantable exactly what may be
      granted.  Over the API a service reaches its own module only, and the
      server accepts every registration the SDK accepts.
    - Audit: rows are neither lost, duplicated nor reordered; flush is a
      barrier; close drains; forbidden details are redacted; following the
      cursors of the log ends and shows every event inside the window of each
      call, once.
    - Grammars and policies: parsers accept exactly the printed forms.

    Some theorems on concrete histories and of AuditWriter are runs in
    which the code does not do what it means to: [revoked_session_revives]
    (idle timeouts above the retention of the marks, the side condition of the
    session theorems), [decision_cache_clash], [deleted_role_grants_return],
    [deleted_role_escalates] and [delete_misses_members] (the side conditions
    of [service]), [both_owners_deactivated], [moving_window_drops],
    [close_races], [redeem_race], [password_resets_guesses],
    [digits_taken_for_totp], [accept_keeps_old_grants],
    [reactivation_activates_invited],
    [withdrawn_grant_blocks_prune], [page_border_loses] and
    [introspect_overlooks] (the side conditions of the theorems on the feed),
    [ttl_overflows], [spaced_name_refused] and [update_race] (two
    overlapping updates of a directory connection, where the theorems take
    each update as one step).

    ** Bounds

    The evaluator of tuples recurses to depth [check_depth] = 5, which
    [fake_check_decides_model] proves enough for the model.  Readers of strings
    take their length as fuel ([runes_from], [strip_all]); decimal printing
    takes [dec_fuel], the binary size of the number; an address has at most
    eight groups; a PEM bundle is read with its length as fuel, as every block
    takes a byte; paging through members
    takes the number of rows, and chunks of a list its length.  The limits of the source are kept: 100 tuples
    per write, batches of 200 and a queue of 10000 audit rows, 100 pages per
    revocation sync, ten recovery codes.  Counters of the cache are
    [int64] in the server and unbounded here; they count attempts in a window.

    ** Not modelled

    SQL text and the repositories that run it, the Valkey client, HTTP decoding
    and routing, start-up wiring, configuration, the command line and the LDAP
    client are I/O or calls of third-party code.  Of the repositories the
    statements of the e-mail worker and of the enrollment ledger are modelled.
    Read-only listings, except the audit log, and profiles and avatars change
    nothing the theorems speak about and are left out.  JSON text is
    modelled as its decoded value; timing padding is not modelled. *)
From stdpp Require Export base gmap strings list fin_maps.
From Stdlib Require Export ZArith Lia Ascii Sorted.

(** Sentinel errors of the packages that are modelled.  Two Go errors are the
    same constructor exactly when [errors.Is] identifies them. *)
Inductive err : Type :=
  (* store *)
  | ErrNotFound | ErrConflict
  (* permref, authz/objects.go *)
  | ErrMalformed | ErrAuthzMalformed
  (* tenantctx *)
  | ErrNoActor | ErrCrossTenant | ErrNoOperatorGrant
  (* tenant *)
  | ErrBadSlug | ErrPolicy
  (* crypto, cache, encoding *)
  | ErrEntropy | ErrCorrupt
  (* session *)
  | ErrNoSession
  (* authz *)
  | ErrObjectCrossTenant | ErrSelfEscalation | ErrLastOwner
  | ErrBuiltin | ErrRoleRef | ErrManagedRole | ErrRoleRetired | ErrRoleConflict
  | ErrForbidden | ErrInvalidName | ErrNameTaken | ErrOwnerViaGroup | ErrMemberCountMismatch
  (* token, authclient *)
  | ErrNoActiveKey | ErrBrokenKey | ErrUnknownKid (kid : string)
  | ErrEnrollmentLifetime | ErrEnrollmentExpired | ErrEnrollmentNotYetValid
  | ErrUnauthenticated | ErrTokenRevoked | ErrStale | ErrWrongTenant
  (* ldapdir.DirectoryError *)
  | ErrDirectoryCode (code : Z)
  (* anything the source builds with errors.New/fmt.Errorf at the call site *)
  | ErrText (msg : string).

#[global] Instance err_eq_dec : EqDecision err.
Proof. solve_decision. Defined.

(** A Go [(T, error)] pair where the value is only meaningful when the error
    is nil. *)
Inductive result (A : Type) : Type :=
  | Ok (a : A)
  | Err (e : err).
Arguments Ok {A} a.
Arguments Err {A} e.

#[global] Instance result_eq_dec `{EqDecision A} : EqDecision (result A).
Proof. solve_decision. Defined.

Definition is_ok {A} (r : result A) : bool :=
  match r with Ok _ => true | Err _ => false end.

Definition is_err {A} (r : result A) : bool := negb (is_ok r).

Definition rbind {A B} (r : result A) (f : A → result B) : result B :=
  match r with Ok a => f a | Err e => Err e end.

(** State passing with errors: a Go method that may mutate its receiver and
    return an error.  The state changes made before an error are kept. *)
Definition M (S A : Type) : Type := S → result A * S.

Definition ret {S A} (a : A) : M S A := λ s, (Ok a, s).
Definition throw {S A} (e : err) : M S A := λ s, (Err e, s).
Definition bind {S A B} (m : M S A) (f : A → M S B) : M S B :=
  λ s, match m s with
       | (Ok a, s') => f a s'
       | (Err e, s') => (Err e, s')
       end.

(** [x, err := m] where the caller inspects the error itself. *)
Definition attempt {S A} (m : M S A) : M S (result A) :=
  λ s, let '(r, s') := m s in (Ok r, s').

(** [_ = m]: the error is dropped, the effect stays. *)
Definition ignore {S A} (m : M S A) : M S unit :=
  λ s, let '(_, s') := m s in (Ok tt, s').

Definition gets {S A} (f : S → A) : M S A := λ s, (Ok (f s), s).
Definition modify {S} (f : S → S) : M S unit := λ s, (Ok tt, f s).

(** [if err := ...; err != nil { return err }] over a pure check. *)
Definition lift {S A} (r : result A) : M S A := λ s, (r, s).

Declare Scope go_scope.
Delimit Scope go_scope with go.
Notation "x <- m ;; k" := (bind m (λ x, k))
  (at level 100, m at next level, right associativity) : go_scope.
Notation "m ;;; k" := (bind m (λ _, k))
  (at level 100, right associativity) : go_scope.

(** [for _, x := range l { ... }] with early exit on error. *)
Fixpoint for_each {S A} (l : list A) (f : A → M S unit) : M S unit :=
  match l with
  | [] => ret tt
  | x :: l' => bind (f x) (λ _, for_each l' f)
  end.

(** The same loop with an accumulator. *)
Fixpoint fold_each {S A B} (l : list A) (b : B) (f : B → A → M S B) : M S B :=
  match l with
  | [] => ret b
  | x :: l' => bind (f b x) (λ b', fold_each l' b' f)
  end.

(** ** Inversion of monadic runs *)
(** A run with its result, the final state left unevaluated. *)
Lemma run_ok {S A} (m : M S A) (s : S) (x : A) : (m s).1 = Ok x → m s = (Ok x, (m s).2).
Proof. destruct (m s); simpl. by intros ->. Qed.
Section MonadLemmas.
Context {S : Type}.

Lemma bind_ok_inv {A B} (m : M S A) (f : A → M S B) s b s' :
  bind m f s = (Ok b, s') →
  ∃ a s1, m s = (Ok a, s1) ∧ f a s1 = (Ok b, s').
Proof. unfold bind. destruct (m s) as [[a|e] s1]; [eauto|congruence]. Qed.

Lemma bind_err_inv {A B} (m : M S A) (f : A → M S B) s e s' :
  bind m f s = (Err e, s') →
  m s = (Err e, s') ∨ ∃ a s1, m s = (Ok a, s1) ∧ f a s1 = (Err e, s').
Proof. unfold bind. destruct (m s) as [[a|e'] s1]; [eauto|]. intros [= -> ->]; auto. Qed.

(** Either call may be the one that ends the run. *)
Lemma bind_run {A B} (m : M S A) (f : A → M S B) s r s' : bind m f s = (r, s') →
  (∃ e, m s = (Err e, s') ∧ r = Err e) ∨ ∃ a s1, m s = (Ok a, s1) ∧ f a s1 = (r, s').
Proof. unfold bind. destruct (m s) as [[a|e] s1]; intros E; [right; eauto|left]. injection E as <- <-. eauto. Qed.
Lemma bind_ok {A B} (m : M S A) (f : A → M S B) s a s1 :
  m s = (Ok a, s1) → bind m f s = f a s1.
Proof. unfold bind. by intros ->. Qed.

Lemma bind_err {A B} (m : M S A) (f : A → M S B) s e s1 :
  m s = (Err e, s1) → bind m f s = (Err e, s1).
Proof. unfold bind. by intros ->. Qed.

Lemma bind_assoc {A B C} (m : M S A) (f : A → M S B) (g : B → M S C) s :
  bind (bind m f) g s = bind m (λ a, bind (f a) g) s.
Proof. unfold bind. by destruct (m s) as [[a|e] s1]. Qed.

(** An invariant preserved by every iteration is preserved by the loop,
    whether it completes or returns early. *)
Lemma for_each_inv {A} (P : S → Prop) (l : list A) (f : A → M S unit) :
  (∀ x s, x ∈ l → P s → P (f x s).2) → ∀ s, P s → P (for_each l f s).2.
Proof.
  induction l as [|x l IH]; intros Hf s HP; simpl; [done|].
  unfold bind. pose proof (Hf x s ltac:(set_solver) HP) as H1.
  destruct (f x s) as [[[]|e] s1]; simpl in *; [|done].
  apply IH; [|done]. intros y s2 Hy. apply Hf. set_solver.
Qed.
End MonadLemmas.

(** ** Tactics *)

(** Decompose a hypothesis [run = (Ok _, _)] through binds and guards. *)
Ltac go_inv H :=
  match type of H with
  | bind _ _ _ = (Ok _, _) =>
      let a := fresh "a" in let s := fresh "s" in let H1 := fresh "Hm" in
      apply bind_ok_inv in H; destruct H as (a & s & H1 & H); try go_inv H1; try go_inv H
  | ret _ _ = _ => unfold ret in H; simplify_eq
  | throw _ _ = _ => unfold throw in H; simplify_eq
  | gets _ _ = _ => unfold gets in H; simplify_eq
  | modify _ _ = _ => unfold modify in H; simplify_eq
  | lift _ _ = _ => unfold lift in H; simplify_eq
  end.

(** Case on every [match]/[if] scrutinee of a hypothesis or the goal. *)
Ltac split_match_in H :=
  match type of H with
  | context [match ?x with _ => _ end] => destruct x eqn:?
  end.
Ltac split_match :=
  match goal with
  | |- context [match ?x with _ => _ end] => destruct x eqn:?
  end.

(** Turn boolean tests into propositions. *)
Ltac bool_prop :=
  repeat match goal with
  | H : _ && _ = true |- _ => apply andb_true_iff in H as [? ?]
  | H : _ || _ = false |- _ => apply orb_false_iff in H as [? ?]
  | H : negb _ = true |- _ => apply negb_true_iff in H
  | H : negb _ = false |- _ => apply negb_false_iff in H
  | H : bool_decide _ = true |- _ => apply bool_decide_eq_true in H
  | H : bool_decide _ = false |- _ => apply bool_decide_eq_false in H
  | H : (_ <? _)%Z = true |- _ => apply Z.ltb_lt in H
  | H : (_ <? _)%Z = false |- _ => apply Z.ltb_ge in H
  | H : (_ <=? _)%Z = true |- _ => apply Z.leb_le in H
  | H : (_ <=? _)%Z = false |- _ => apply Z.leb_gt in H
  end.

(** The same with tests on [nat] and equality tests on integers. *)
Ltac nat_prop :=
  bool_prop;
  repeat match goal with
  | H : (_ <=? _)%nat = true |- _ => apply Nat.leb_le in H
  | H : (_ <=? _)%nat = false |- _ => apply Nat.leb_gt in H
  | H : (_ <? _)%nat = true |- _ => apply Nat.ltb_lt in H
  | H : (_ <? _)%nat = false |- _ => apply Nat.ltb_ge in H
  | H : (_ =? _)%nat = true |- _ => apply Nat.eqb_eq in H
  | H : (_ =? _)%nat = false |- _ => apply Nat.eqb_neq in H
  | H : (_ =? _)%Z = true |- _ => apply Z.eqb_eq in H
  | H : (_ =? _)%Z = false |- _ => apply Z.eqb_neq in H
  end.

Create HintDb auth.

(** ** Durations: Go's time.Duration is a count of nanoseconds *)
Module Dur.
Definition nanosecond : Z := 1.
Definition second : Z := 1000000000.
Definition minute : Z := 60 * second.
Definition hour : Z := 60 * minute.
End Dur.

(** ** Generic list helpers *)

(** Order-preserving removal of duplicates, as written with a [seen] map. *)
Fixpoint dedup_from `{EqDecision A} (seen : list A) (l : list A) : list A :=
  match l with
  | [] => []
  | x :: l' => if decide (x ∈ seen) then dedup_from seen l'
               else x :: dedup_from (x :: seen) l'
  end.

Lemma filter_drop {A} (P : A → Prop) `{!∀ x, Decision (P x)} (l : list A) n : (∀ s, s ∈ take n l → ¬ P s) → (∀ s, s ∈ drop n l → P s) → filter P l = drop n l.
Proof.
  revert n. induction l as [|x l IH]; intros n H1 H2; [by destruct n|]. destruct n as [|n]; cbn [take drop] in *.
  - rewrite filter_cons_True by (apply H2; by left). f_equal. apply (IH 0%nat); [intros s Hs; by apply elem_of_nil in Hs|]. intros s Hs. apply H2. by right.
  - rewrite filter_cons_False by (apply H1; by left). apply IH; [|done]. intros s Hs. apply H1. by right.
Qed.
Lemma elem_of_dedup_from `{EqDecision A} (l : list A) : ∀ seen x,
  x ∈ dedup_from seen l ↔ x ∈ l ∧ x ∉ seen.
Proof.
  induction l as [|y l IH]; intros seen x; simpl; [set_solver|].
  case_decide; rewrite ?elem_of_cons, ?IH; [set_solver|].
  destruct (decide (x = y)); set_solver.
Qed.

Lemma NoDup_dedup_from `{EqDecision A} (l : list A) : ∀ seen, NoDup (dedup_from seen l).
Proof.
  induction l as [|y l IH]; intros seen; simpl; [constructor|].
  case_decide; [apply IH|]. constructor; [|apply IH].
  rewrite elem_of_dedup_from. set_solver.
Qed.

#[export] Hint Resolve NoDup_dedup_from : auth.

Lemma Forall2_in_r {A C} (P : A → C → Prop) l k y : Forall2 P l k → y ∈ k → ∃ x, x ∈ l ∧ P x y.
Proof. induction 1; [set_solver|]. intros [->|?]%elem_of_cons; set_solver. Qed.

Lemma existsb_true_iff {A} (f : A → bool) l : existsb f l = true ↔ ∃ x, x ∈ l ∧ f x = true.
Proof. rewrite existsb_exists. by setoid_rewrite list_elem_of_In. Qed.
Lemma existsb_false_iff {A} (f : A → bool) l : existsb f l = false ↔ ∀ x, x ∈ l → f x = false.
Proof.
  rewrite <- not_true_iff_false, existsb_true_iff. split.
  - intros Hn x Hx. destruct (f x) eqn:E; [|done]. exfalso. apply Hn. eauto.
  - intros Ha (x & Hx & E). by rewrite (Ha x Hx) in E.
Qed.

(** ** Triples for monadic runs: [Q] after a result, [E] after an error *)
Section Triples.
Context {S : Type}.
Definition triple {A} (P : S → Prop) (m : M S A) (Q : A → S → Prop) (E : S → Prop) : Prop :=
  ∀ s, P s → match m s with (Ok a, s') => Q a s' | (Err _, s') => E s' end.

Lemma triple_ret {A} (P : S → Prop) (a : A) Q E : (∀ s, P s → Q a s) → triple P (ret a) Q E.
Proof. intros H s Hs. by apply H. Qed.
Lemma triple_throw {A} (P : S → Prop) e (Q : A → S → Prop) E : (∀ s, P s → E s) → triple P (throw e) Q E.
Proof. intros H s Hs. by apply H. Qed.
Lemma triple_bind {A B} P (m : M S A) (f : A → M S B) R Q E :
  triple P m R E → (∀ a, triple (R a) (f a) Q E) → triple P (bind m f) Q E.
Proof.
  intros Hm Hf s Hs. specialize (Hm s Hs). unfold bind. destruct (m s) as [[a|e] s']; [by apply Hf|done].
Qed.
Lemma triple_gets {A} (P : S → Prop) (f : S → A) Q E : (∀ s, P s → Q (f s) s) → triple P (gets f) Q E.
Proof. intros H s Hs. by apply H. Qed.
Lemma triple_lift {A} (P : S → Prop) (r : result A) (Q : A → S → Prop) (E : S → Prop) :
  (∀ s, P s → match r with Ok a => Q a s | Err _ => E s end) → triple P (lift r) Q E.
Proof. intros H s Hs. unfold lift. specialize (H s Hs). by destruct r. Qed.
Lemma triple_modify P (f : S → S) Q E : (∀ s, P s → Q tt (f s)) → triple P (modify f) Q E.
Proof. intros H s Hs. by apply H. Qed.
Lemma triple_attempt {A} P (m : M S A) Q E (T : result A → S → Prop) E' :
  triple P m Q E → (∀ a s, Q a s → T (Ok a) s) → (∀ e s, E s → T (Err e) s) → triple P (attempt m) T E'.
Proof.
  intros Hm HQ HE s Hs. specialize (Hm s Hs). unfold attempt. destruct (m s) as [[a|e] s']; auto.
Qed.
Lemma triple_conseq {A} (P P' : S → Prop) (m : M S A) (Q Q' : A → S → Prop) (E E' : S → Prop) :
  triple P m Q E → (∀ s, P' s → P s) → (∀ a s, Q a s → Q' a s) → (∀ s, E s → E' s) → triple P' m Q' E'.
Proof. intros Hm HP HQ HE s Hs. specialize (Hm s (HP s Hs)). destruct (m s) as [[a|e] s']; auto. Qed.
Lemma triple_pure {A} (P : S → Prop) (F : Prop) (m : M S A) Q E :
  (F → triple P m Q E) → triple (λ s, P s ∧ F) m Q E.
Proof. intros Hm s [Hs HF]. by apply Hm. Qed.
Lemma triple_fold_each {A B} (l : list A) (f : B → A → M S B) (Q : B → S → Prop) E :
  (∀ b x, x ∈ l → triple (Q b) (f b x) Q E) → ∀ b, triple (Q b) (fold_each l b f) Q E.
Proof.
  induction l as [|x l IH]; intros Hf b; [by apply triple_ret|]. cbn [fold_each].
  eapply triple_bind; [apply Hf; set_solver|]. intros b'. apply IH. intros. apply Hf. set_solver.
Qed.
Lemma triple_for_each {A} (l : list A) (f : A → M S unit) (P E : S → Prop) :
  (∀ x, x ∈ l → triple P (f x) (λ _, P) E) → triple P (for_each l f) (λ _, P) E.
Proof.
  induction l as [|x l IH]; intros Hf; [by apply triple_ret|]. cbn [for_each].
  eapply triple_bind; [apply Hf; set_solver|]. intros []. apply IH. intros. apply Hf. set_solver.
Qed.
Lemma triple_out {A} (P : S → Prop) (m : M S A) (Q : S → Prop) s :
  triple P m (λ _, Q) Q → P s → Q (m s).2.
Proof. intros Hm Hs. specialize (Hm s Hs). by destruct (m s) as [[a|e] s']. Qed.
End Triples.
