(* ===== verification/GoStrings.v ===== *)
(** * Strings, regular expressions and decimal numbers of the Go library

    Go strings are byte sequences; they are modelled as [string] (8-bit
    characters).  The functions here are the fragments of packages [strings],
    [regexp] and [strconv] that the modelled code calls, each with the lemmas
    the components use.  Regular expressions are kept as syntax trees and
    matched with derivatives, so a component writes the same expression as the
    source passes to [regexp.MustCompile]. *)
From S2P Require Import Prelude.

Open Scope string_scope.
#[global] Arguments String.append !_ _ / : simpl nomatch.

(** ** Characters *)
Definition code (c : ascii) : nat := nat_of_ascii c.
Definition in_range (lo hi : ascii) (c : ascii) : bool :=
  (code lo <=? code c)%nat && (code c <=? code hi)%nat.
Definition is_lower : ascii → bool := in_range "a" "z".
Definition is_digit : ascii → bool := in_range "0" "9".
#[global] Arguments in_range : simpl never.
#[global] Arguments is_lower : simpl never.
#[global] Arguments is_digit : simpl never.
Definition is_char (d c : ascii) : bool := bool_decide (c = d).

(** Every byte value, for checks decided by enumeration. *)
Definition all_ascii : list ascii := ascii_of_nat <$> seq 0 256.
#[global] Arguments all_ascii : simpl never.

Lemma elem_of_all_ascii c : c ∈ all_ascii.
Proof.
  unfold all_ascii. apply list_elem_of_fmap. exists (nat_of_ascii c).
  split; [by rewrite ascii_nat_embedding|].
  apply elem_of_seq. pose proof (nat_ascii_bounded c). lia.
Qed.

Definition every_byte (f : ascii → bool) : bool := forallb f all_ascii.
#[global] Arguments every_byte : simpl never.

Lemma every_byte_spec f c : every_byte f = true → f c = true.
Proof.
  unfold every_byte. rewrite forallb_forall. intros H. apply H.
  apply list_elem_of_In, elem_of_all_ascii.
Qed.

(** ** Byte predicates over strings *)
Fixpoint str_all (p : ascii → bool) (s : string) : bool :=
  match s with
  | EmptyString => true
  | String c s' => p c && str_all p s'
  end.

Definition lacks (c : ascii) (s : string) : bool := str_all (λ x, negb (is_char c x)) s.
#[global] Arguments lacks : simpl never.

Lemma lacks_cons sep c s : lacks sep (String c s) = true ↔ c ≠ sep ∧ lacks sep s = true.
Proof.
  unfold lacks, is_char. simpl.
  by rewrite andb_true_iff, negb_true_iff, bool_decide_eq_false.
Qed.

Lemma str_all_app p s t : str_all p (s +:+ t) = str_all p s && str_all p t.
Proof. induction s as [|c s IH]; simpl; [done|]. by rewrite IH, andb_assoc. Qed.

Lemma str_all_impl (p q : ascii → bool) s :
  (∀ c, p c = true → q c = true) → str_all p s = true → str_all q s = true.
Proof.
  intros Hpq. induction s as [|c s IH]; simpl; [done|].
  intros [Hc Hs]%andb_true_iff. rewrite (Hpq c Hc). auto.
Qed.

Lemma str_app_assoc (s t u : string) : (s +:+ t) +:+ u = s +:+ (t +:+ u).
Proof. induction s as [|c s IH]; simpl; [done|]. by rewrite IH. Qed.

Lemma str_app_nil_r (s : string) : s +:+ "" = s.
Proof. induction s as [|c s IH]; simpl; [done|]. by rewrite IH. Qed.

Lemma str_app_inj_l (s t u : string) : s +:+ t = s +:+ u → t = u.
Proof. induction s as [|c s IH]; simpl; [done|]. intros [= H]. auto. Qed.

Lemma str_length_app (s t : string) :
  String.length (s +:+ t) = (String.length s + String.length t)%nat.
Proof. induction s as [|c s IH]; simpl; [done|]. by rewrite IH. Qed.

(** ** strings.Split, strings.Cut, strings.CutPrefix with a one-byte separator *)
Fixpoint split (sep : ascii) (s : string) : list string :=
  match s with
  | EmptyString => [""]
  | String c s' =>
      if bool_decide (c = sep) then "" :: split sep s'
      else match split sep s' with
           | h :: t => String c h :: t
           | [] => [String c ""]
           end
  end.

Fixpoint join (sep : ascii) (l : list string) : string :=
  match l with
  | [] => ""
  | [s] => s
  | s :: l' => s +:+ String sep (join sep l')
  end.

Fixpoint cut (sep : ascii) (s : string) : option (string * string) :=
  match s with
  | EmptyString => None
  | String c s' =>
      if bool_decide (c = sep) then Some ("", s')
      else match cut sep s' with
           | Some (a, b) => Some (String c a, b)
           | None => None
           end
  end.

Fixpoint cut_prefix (p s : string) : option string :=
  match p, s with
  | EmptyString, _ => Some s
  | String c p', String d s' => if bool_decide (c = d) then cut_prefix p' s' else None
  | _, _ => None
  end.

(** strings.Count(s, sep) for a one-byte separator. *)
Fixpoint count_byte (sep : ascii) (s : string) : nat :=
  match s with
  | EmptyString => 0
  | String c s' => (if bool_decide (c = sep) then 1 else 0) + count_byte sep s'
  end.

Lemma split_not_nil sep s : split sep s ≠ [].
Proof.
  destruct s as [|c s]; simpl; [done|].
  case_bool_decide; [done|]. by destruct (split sep s).
Qed.

Lemma split_lacks sep s : lacks sep s = true → split sep s = [s].
Proof.
  induction s as [|c s IH]; simpl; [done|].
  intros [Hc Hs]%lacks_cons.
  rewrite bool_decide_eq_false_2 by done. by rewrite IH.
Qed.

Lemma split_app_sep sep s t :
  lacks sep s = true → split sep (s +:+ String sep t) = s :: split sep t.
Proof.
  induction s as [|c s IH]; simpl.
  - by rewrite bool_decide_eq_true_2.
  - intros [Hc Hs]%lacks_cons.
    rewrite bool_decide_eq_false_2 by done. by rewrite IH.
Qed.

(** Splitting inverts joining parts that lack the separator. *)
Lemma split_join sep l :
  l ≠ [] → Forall (λ s, lacks sep s = true) l → split sep (join sep l) = l.
Proof.
  induction l as [|s l IH]; [done|]. intros _ [Hs Hl]%Forall_cons.
  destruct l as [|t l]; [by apply split_lacks|].
  change (join sep (s :: t :: l)) with (s +:+ String sep (join sep (t :: l))).
  rewrite split_app_sep by done. f_equal. by apply IH.
Qed.

Lemma join_split sep s : join sep (split sep s) = s.
Proof.
  induction s as [|c s IH]; simpl; [done|].
  case_bool_decide as Hc.
  - subst. pose proof (split_not_nil sep s). destruct (split sep s) eqn:E; [done|].
    simpl. by rewrite <- IH.
  - destruct (split sep s) as [|h t] eqn:E; [by destruct (split_not_nil sep s)|].
    rewrite <- IH. by destruct t.
Qed.

Lemma split_parts_lack sep s : Forall (λ p, lacks sep p = true) (split sep s).
Proof.
  induction s as [|c s IH]; simpl; [by repeat constructor|].
  case_bool_decide; [by constructor|].
  destruct (split sep s) as [|h t].
  - constructor; [|constructor]. by apply lacks_cons.
  - apply Forall_cons in IH as [Hh Ht]. constructor; [|done].
    by apply lacks_cons.
Qed.

Lemma split_count sep s : length (split sep s) = S (count_byte sep s).
Proof.
  induction s as [|c s IH]; simpl; [done|].
  case_bool_decide; simpl; [by rewrite IH|].
  destruct (split sep s) eqn:E; [by destruct (split_not_nil sep s)|]. done.
Qed.

Lemma cut_app sep a b : lacks sep a = true → cut sep (a +:+ String sep b) = Some (a, b).
Proof.
  induction a as [|c a IH]; simpl.
  - by rewrite bool_decide_eq_true_2.
  - intros [Hc Ha]%lacks_cons.
    rewrite bool_decide_eq_false_2 by done. by rewrite IH.
Qed.

Lemma cut_Some sep s a b :
  cut sep s = Some (a, b) → s = a +:+ String sep b ∧ lacks sep a = true.
Proof.
  revert a. induction s as [|c s IH]; simpl; [done|]. intros a.
  case_bool_decide as Hc; [intros [= <- <-]; by subst|].
  destruct (cut sep s) as [[a' b']|]; [|done]. intros [= <- <-].
  destruct (IH a' eq_refl) as [-> Hl]. split; [done|]. by apply lacks_cons.
Qed.

Lemma cut_prefix_app p s : cut_prefix p (p +:+ s) = Some s.
Proof. induction p as [|c p IH]; simpl; [by destruct s|]. by rewrite bool_decide_eq_true_2. Qed.

Lemma cut_prefix_Some p s r : cut_prefix p s = Some r → s = p +:+ r.
Proof.
  revert s. induction p as [|c p IH]; intros s; simpl; [by destruct s; intros [= <-]|].
  destruct s as [|d s]; [done|]. case_bool_decide; [|done]. subst. intros H. by rewrite (IH s).
Qed.

(** ** strings.TrimSpace

    Unicode white space, as the UTF-8 encodings of its code points.  A lead
    byte never occurs inside another rune, so stripping encodings from either
    end is what decoding runes from that end does. *)
Definition bytes (l : list nat) : string := foldr (λ n s, String (ascii_of_nat n) s) "" l.

Definition space_encodings : list string :=
  (bytes <$> [[9]; [10]; [11]; [12]; [13]; [32]; [194; 133]; [194; 160]; [225; 154; 128];
              [226; 128; 168]; [226; 128; 169]; [226; 128; 175]; [226; 129; 159]; [227; 128; 128]])
  ++ ((λ n, bytes [226; 128; n]) <$> seq 128 11).

Fixpoint rev_string (s : string) : string :=
  match s with
  | EmptyString => ""
  | String c s' => rev_string s' +:+ String c ""
  end.

Fixpoint strip_one (encs : list string) (s : string) : option string :=
  match encs with
  | [] => None
  | e :: encs' => match cut_prefix e s with Some r => Some r | None => strip_one encs' s end
  end.

(** The fuel is the number of bytes: every encoding has at least one. *)
Fixpoint strip_all (fuel : nat) (encs : list string) (s : string) : string :=
  match fuel with
  | O => s
  | S n => match strip_one encs s with Some r => strip_all n encs r | None => s end
  end.

Definition TrimSpace (s : string) : string :=
  let l := strip_all (String.length s) space_encodings s in
  rev_string (strip_all (String.length l) (rev_string <$> space_encodings) (rev_string l)).

Example trim_examples :
  TrimSpace "  a b	" = "a b" ∧ TrimSpace "" = "" ∧ TrimSpace (bytes [194; 160; 120; 226; 128; 131]) = "x".
Proof. vm_compute. done. Qed.

(** ** Byte indexes and suffixes *)
Fixpoint index_byte (c : ascii) (s : string) : option nat :=
  match s with
  | EmptyString => None
  | String d s' => if bool_decide (d = c) then Some 0
                   else match index_byte c s' with Some n => Some (S n) | None => None end
  end.

Fixpoint last_index_byte (c : ascii) (s : string) : option nat :=
  match s with
  | EmptyString => None
  | String d s' =>
      match last_index_byte c s' with
      | Some n => Some (S n)
      | None => if bool_decide (d = c) then Some 0 else None
      end
  end.

(** strings.TrimSuffix for a one-byte suffix, strings.ContainsAny. *)
Fixpoint trim_suffix_byte (c : ascii) (s : string) : string :=
  match s with
  | EmptyString => ""
  | String d EmptyString => if bool_decide (d = c) then "" else s
  | String d s' => String d (trim_suffix_byte c s')
  end.

Definition contains_any (chars : list ascii) (s : string) : bool :=
  negb (str_all (λ x, negb (existsb (λ c, is_char c x) chars)) s).

(** ** Substrings and case *)
(** strings.Contains *)
Fixpoint contains (sub s : string) : bool :=
  String.prefix sub s ||
  match s with
  | EmptyString => false
  | String _ s' => contains sub s'
  end.
Definition lower_byte (c : ascii) : ascii := if in_range "A" "Z" c then ascii_of_nat (code c + 32) else c.
Fixpoint map_bytes (f : ascii → ascii) (s : string) : string :=
  match s with EmptyString => "" | String c s' => String (f c) (map_bytes f s') end.
(** strings.ToLower: byte by byte on ASCII; [unicode_lower] maps the rest. *)
Definition ToLower (unicode_lower : string → string) (s : string) : string :=
  if str_all (λ c, (code c <? 128)%nat) s then map_bytes lower_byte s else unicode_lower s.

(** ** Decimal numbers: strconv.FormatInt/ParseInt in base 10 *)
Definition digit (n : Z) : ascii := ascii_of_nat (48 + Z.to_nat n).
Definition digit_val (c : ascii) : Z := Z.of_nat (code c) - 48.

#[global] Arguments digit : simpl never.
#[global] Arguments digit_val : simpl never.

(** Most significant digit first; [fuel] bounds the number of digits. *)
Fixpoint digits_of (fuel : nat) (n : Z) (acc : string) : string :=
  match fuel with
  | O => acc
  | S f => if (n <=? 0)%Z then acc else digits_of f (n / 10)%Z (String (digit (n mod 10)) acc)
  end.

(** A positive number has at most as many decimal as binary digits. *)
Definition dec_fuel (n : Z) : nat := S (Z.to_nat (Z.log2 n)).

Definition format_nonneg (n : Z) : string :=
  if bool_decide (n = 0%Z) then "0" else digits_of (dec_fuel n) n "".
Definition FormatInt (n : Z) : string :=
  if (n <? 0)%Z then String "-" (format_nonneg (- n)) else format_nonneg n.

(** Accumulation [n = n*10 + int64(ch-'0')]. *)
Fixpoint dec_acc (s : string) (n : Z) : Z :=
  match s with
  | EmptyString => n
  | String c s' => dec_acc s' (n * 10 + digit_val c)%Z
  end.

Definition min_int64 : Z := - 2 ^ 63.
Definition max_int64 : Z := 2 ^ 63 - 1.
Definition in_int64 (n : Z) : bool := (min_int64 <=? n)%Z && (n <=? max_int64)%Z.

(** strconv.ParseInt(s, 10, 64): an optional sign, at least one digit, digits
    only, in range. *)
Definition ParseInt (s : string) : option Z :=
  let body neg t :=
    if bool_decide (t = "") || negb (str_all is_digit t) then None
    else let n := dec_acc t 0 in
         let n := if neg : bool then (- n)%Z else n in
         if in_int64 n then Some n else None in
  match s with
  | String c t => if is_char "-" c then body true t
                  else if is_char "+" c then body false t else body false s
  | EmptyString => None
  end.

Lemma digit_spec n : (0 <= n < 10)%Z → is_digit (digit n) = true ∧ digit_val (digit n) = n.
Proof.
  intros H. unfold digit, digit_val, is_digit, in_range, code.
  rewrite nat_ascii_embedding by lia. split; [|lia].
  apply andb_true_iff. split; apply Nat.leb_le.
  - change (nat_of_ascii "0") with 48%nat. lia.
  - change (nat_of_ascii "9") with 57%nat. lia.
Qed.

Lemma digits_of_spec fuel : ∀ n acc,
  (0 <= n)%Z → (n < 10 ^ Z.of_nat fuel)%Z → str_all is_digit acc = true →
  str_all is_digit (digits_of fuel n acc) = true ∧
  ∀ b, dec_acc (digits_of fuel n acc) b =
       dec_acc acc (b * 10 ^ Z.of_nat (String.length (digits_of fuel n acc) - String.length acc) + n)%Z ∧
       (String.length acc <= String.length (digits_of fuel n acc))%nat.
Proof.
  induction fuel as [|f IH]; intros n acc Hn Hlt Hacc; simpl.
  - split; [done|]. intros b. replace n with 0%Z by lia.
    rewrite Nat.sub_diag. simpl. split; [f_equal; lia|lia].
  - destruct (n <=? 0)%Z eqn:E; bool_prop.
    + split; [done|]. intros b. replace n with 0%Z by lia.
      rewrite Nat.sub_diag. simpl. split; [f_equal; lia|lia].
    + assert (Hd : (0 <= n mod 10 < 10)%Z) by (apply Z.mod_pos_bound; lia).
      destruct (digit_spec _ Hd) as [Hdig Hval].
      assert (Hdiv : (n / 10 < 10 ^ Z.of_nat f)%Z).
      { apply Z.div_lt_upper_bound; [lia|]. rewrite Nat2Z.inj_succ, Z.pow_succ_r in Hlt by lia. lia. }
      assert (Hacc' : str_all is_digit (String (digit (n mod 10)) acc) = true)
        by (cbn [str_all]; by rewrite Hdig, Hacc).
      assert (Hpos : (0 <= n / 10)%Z) by (apply Z.div_pos; [exact Hn|reflexivity]).
      destruct (IH _ _ Hpos Hdiv Hacc') as [H1 H2].
      split; [done|]. intros b. destruct (H2 b) as [H3 H4]. simpl in H4.
      split; [|lia]. rewrite H3. simpl. rewrite Hval. f_equal.
      set (L := String.length (digits_of f (n / 10) (String (digit (n mod 10)) acc))) in *.
      replace (Z.of_nat (L - String.length acc))%Z with (1 + Z.of_nat (L - S (String.length acc)))%Z by lia.
      rewrite Z.pow_add_r by lia. pose proof (Z.div_mod n 10). lia.
Qed.

Lemma dec_fuel_enough n : (0 < n)%Z → (n < 10 ^ Z.of_nat (dec_fuel n))%Z.
Proof.
  intros H. unfold dec_fuel. destruct (Z.log2_spec n H) as [_ Hlt].
  pose proof (Z.log2_nonneg n). rewrite Nat2Z.inj_succ, Z2Nat.id by lia.
  eapply Z.lt_le_trans; [exact Hlt|]. apply Z.pow_le_mono_l. lia.
Qed.

Lemma format_nonneg_spec n :
  (0 <= n)%Z → str_all is_digit (format_nonneg n) = true ∧ format_nonneg n ≠ "" ∧
               dec_acc (format_nonneg n) 0 = n.
Proof.
  intros Hn. unfold format_nonneg. case_bool_decide as E; [by subst|].
  assert (Hp : (0 < n)%Z) by lia.
  destruct (digits_of_spec (dec_fuel n) n "" Hn (dec_fuel_enough n Hp) eq_refl) as [H1 H2].
  destruct (H2 0%Z) as [H3 _]. split; [done|].
  simpl dec_acc in H3 at 2. rewrite Z.mul_0_l, Z.add_0_l in H3.
  split; [|done]. intros E2. rewrite E2 in H3. simpl in H3. lia.
Qed.

Lemma ParseInt_nonneg s :
  s ≠ "" → str_all is_digit s = true → in_int64 (dec_acc s 0) = true →
  ParseInt s = Some (dec_acc s 0).
Proof.
  intros Hne Hd Hr. unfold ParseInt.
  destruct s as [|c s]; [done|].
  assert (is_char "-" c = false ∧ is_char "+" c = false) as [-> ->].
  { unfold is_char. simpl in Hd. apply andb_true_iff in Hd as [Hc _].
    split; apply bool_decide_eq_false_2; intros ->; by vm_compute in Hc. }
  rewrite bool_decide_eq_false_2 by done. by rewrite Hd, Hr.
Qed.

(** strconv.ParseInt reads back what strconv.FormatInt printed. *)
Lemma ParseInt_FormatInt n : in_int64 n = true → ParseInt (FormatInt n) = Some n.
Proof.
  intros Hr. unfold FormatInt. destruct (n <? 0)%Z eqn:E; bool_prop.
  - destruct (format_nonneg_spec (- n)) as (H1 & H2 & H3); [lia|]. unfold ParseInt.
    rewrite bool_decide_eq_false_2 by done. rewrite H1, H3. simpl negb. cbv iota beta.
    rewrite Z.opp_involutive, Hr. done.
  - destruct (format_nonneg_spec n) as (H1 & H2 & H3); [lia|].
    rewrite ParseInt_nonneg; [by rewrite H3|done|done|by rewrite H3].
Qed.

(** ** Slices at an index *)
Lemma substring_all n s : (String.length s <= n)%nat → String.substring 0 n s = s.
Proof. revert n. induction s as [|c s IH]; intros [|n] H; simpl in *; [done..|lia|]. by rewrite IH by lia. Qed.
Lemma substring_prefix s t : String.substring 0 (String.length s) (s +:+ t) = s.
Proof. induction s as [|c s IH]; simpl; [by destruct t|]. by rewrite IH. Qed.
Lemma substring_suffix s t n : (String.length t <= n)%nat → String.substring (String.length s) n (s +:+ t) = t.
Proof. intros H. induction s as [|c s IH]; simpl; [by apply substring_all|done]. Qed.
Lemma lacks_app c s t : lacks c (s +:+ t) = lacks c s && lacks c t.
Proof. apply str_all_app. Qed.
Lemma lacks_impl c p s : str_all p s = true → p c = false → lacks c s = true.
Proof.
  intros Hs Hc. eapply str_all_impl; [|exact Hs]. intros x Hx. unfold is_char. rewrite bool_decide_eq_false_2; [done|].
  intros ->. congruence.
Qed.
Lemma last_index_None c s : lacks c s = true → last_index_byte c s = None.
Proof. induction s as [|d s IH]; simpl; [done|]. intros [Hd Hs]%lacks_cons. rewrite IH by done. by rewrite bool_decide_eq_false_2. Qed.
Lemma last_index_app c s t : lacks c t = true → last_index_byte c (s +:+ String c t) = Some (String.length s).
Proof.
  intros Ht. induction s as [|d s IH]; simpl; [|by rewrite IH].
  rewrite last_index_None by done. by rewrite bool_decide_eq_true_2.
Qed.
Lemma index_byte_app c s t : lacks c s = true → index_byte c (s +:+ String c t) = Some (String.length s).
Proof.
  induction s as [|d s IH]; simpl; [by rewrite bool_decide_eq_true_2|]. intros [Hd Hs]%lacks_cons.
  rewrite bool_decide_eq_false_2 by done. by rewrite IH.
Qed.
Lemma index_byte_Some c s i : index_byte c s = Some i →
  ∃ a b, s = a +:+ String c b ∧ lacks c a = true ∧ i = String.length a.
Proof.
  revert i. induction s as [|d s IH]; intros i; simpl; [done|]. case_bool_decide as E.
  - intros [= <-]. subst. by exists "", s.
  - destruct (index_byte c s) as [n|]; [|done]. intros [= <-]. destruct (IH n eq_refl) as (a & b & -> & Ha & ->).
    exists (String d a), b. split; [done|]. split; [by apply lacks_cons|done].
Qed.
Lemma index_byte_None c s : index_byte c s = None → lacks c s = true.
Proof.
  induction s as [|d s IH]; simpl; [done|]. case_bool_decide; [done|]. destruct (index_byte c s); [done|]. intros _.
  apply lacks_cons. auto.
Qed.
Lemma digits_of_length k : ∀ fuel n acc, (0 <= n < 10 ^ Z.of_nat k)%Z →
  (String.length (digits_of fuel n acc) <= String.length acc + k)%nat.
Proof.
  induction k as [|k IH]; intros fuel n acc Hn; (destruct fuel as [|f]; simpl; [lia|]).
  - simpl in Hn. rewrite (proj2 (Z.leb_le n 0)) by lia. lia.
  - destruct (n <=? 0)%Z eqn:E; [lia|]. rewrite Nat2Z.inj_succ, Z.pow_succ_r in Hn by lia.
    assert (H : (0 <= n / 10 < 10 ^ Z.of_nat k)%Z) by (split; [apply Z.div_pos; lia|apply Z.div_lt_upper_bound; lia]).
    specialize (IH f _ (String (digit (n mod 10)) acc) H). simpl in IH. lia.
Qed.
Lemma format_length n k : (0 < k)%nat → (0 <= n < 10 ^ Z.of_nat k)%Z → (String.length (format_nonneg n) <= k)%nat.
Proof.
  intros Hk Hn. unfold format_nonneg. case_bool_decide; [simpl; lia|]. by apply (digits_of_length k _ _ "").
Qed.
Lemma str_app_inj_r (s t u : string) : s +:+ u = t +:+ u → s = t.
Proof.
  intros H. assert (E : String.length s = String.length t) by (apply (f_equal String.length) in H; rewrite !str_length_app in H; lia).
  revert t E H. induction s as [|c s IH]; intros [|d t] E H; simpl in *; try done. injection H as -> H. f_equal. apply IH; [lia|done].
Qed.
Lemma FormatInt_digits n : (0 <= n)%Z →
  str_all is_digit (FormatInt n) = true ∧ FormatInt n ≠ "" ∧ dec_acc (FormatInt n) 0 = n.
Proof. intros Hn. unfold FormatInt. rewrite (proj2 (Z.ltb_ge n 0)) by done. by apply format_nonneg_spec. Qed.
