(* ===== verification/Netip.v ===== *)
(** * Addresses and prefixes (the part of net and net/netip the dial policy uses)

    [netip.Addr] is an IPv4 address or an IPv6 address with a zone; the bits
    are an integer of 32 or 128 bits.  [ParseAddr], [ParsePrefix],
    [Prefix.Contains], the classification methods and [net.SplitHostPort]
    follow the Go standard library. *)
From S2P Require Import Prelude GoStrings.
#[local] Open Scope list_scope.
#[local] Open Scope Z_scope.

Inductive Addr : Type := Addr4 (a : Z) | Addr6 (a : Z) (zone : string).
#[global] Instance Addr_eq_dec : EqDecision Addr.
Proof. solve_decision. Defined.

Definition wf_addr (ip : Addr) : Prop :=
  match ip with Addr4 a => 0 <= a < 2 ^ 32 | Addr6 a _ => 0 <= a < 2 ^ 128 end.
Definition Is4 (ip : Addr) : bool := match ip with Addr4 _ => true | Addr6 _ _ => false end.
Definition Is6 (ip : Addr) : bool := negb (Is4 ip).
Definition Zone (ip : Addr) : string := match ip with Addr4 _ => "" | Addr6 _ z => z end.
(** The IPv4-mapped form ::ffff:a.b.c.d. *)
Definition map4 (a : Z) : Z := Z.lor (Z.shiftl 65535 32) a.
Definition Is4In6 (ip : Addr) : bool :=
  match ip with Addr4 _ => false | Addr6 a _ => Z.shiftr a 32 =? 65535 end.
Definition Unmap (ip : Addr) : Addr :=
  match ip with
  | Addr6 a _ => if Is4In6 ip then Addr4 (Z.land a (Z.ones 32)) else ip
  | Addr4 _ => ip
  end.
(** [AddrFrom16 (ip.As16())] *)
Definition As6 (ip : Addr) : Addr := match ip with Addr4 a => Addr6 (map4 a) "" | Addr6 a _ => Addr6 a "" end.

Definition IsUnspecified (ip : Addr) : bool := bool_decide (ip = Addr4 0) || bool_decide (ip = Addr6 0 "").
Definition v4 (i : Z) (a : Z) : Z := Z.land (Z.shiftr a ((3 - i) * 8)) 255.
Definition v6 (i : Z) (a : Z) : Z := Z.land (Z.shiftr a ((15 - i) * 8)) 255.
Definition v6u16 (i : Z) (a : Z) : Z := Z.land (Z.shiftr a ((7 - i) * 16)) 65535.
Definition IsLoopback (ip : Addr) : bool :=
  match Unmap ip with Addr4 a => v4 0 a =? 127 | Addr6 a _ => a =? 1 end.
Definition IsMulticast (ip : Addr) : bool :=
  match Unmap ip with Addr4 a => Z.land (v4 0 a) 240 =? 224 | Addr6 a _ => v6 0 a =? 255 end.
Definition IsLinkLocalUnicast (ip : Addr) : bool :=
  match Unmap ip with
  | Addr4 a => (v4 0 a =? 169) && (v4 1 a =? 254)
  | Addr6 a _ => Z.land (v6u16 0 a) 65472 =? 65152
  end.

(** ** Parsing addresses *)
Definition hex_val (c : ascii) : option Z :=
  if is_digit c then Some (Z.of_nat (code c) - 48)
  else if in_range "a" "f" c then Some (Z.of_nat (code c) - 87)
  else if in_range "A" "F" c then Some (Z.of_nat (code c) - 55) else None.

(** A decimal field of an IPv4 address: no leading zero, at most 255. *)
Definition octet (s : string) : option Z :=
  if bool_decide (s = "") || negb (str_all is_digit s) then None
  else if (1 <? String.length s)%nat && bool_decide (String.get 0 s = Some "0"%char) then None
  else let v := dec_acc s 0 in if v <=? 255 then Some v else None.
Definition fields4 (s : string) : option Z :=
  match split "." s with
  | [a; b; c; d] =>
      match octet a, octet b, octet c, octet d with
      | Some a, Some b, Some c, Some d => Some (((a * 256 + b) * 256 + c) * 256 + d)
      | _, _, _, _ => None
      end
  | _ => None
  end.

Fixpoint hex_group (s : string) (off : nat) (acc : Z) : option (nat * Z * string) :=
  match s with
  | "" => Some (off, acc, "")
  | String c s' =>
      match hex_val c with
      | None => Some (off, acc, s)
      | Some d => if (3 <? off)%nat then None else hex_group s' (S off) (acc * 16 + d)
      end
  end.

(** One round per 16-bit group; [n] groups still fit. *)
Fixpoint groups6 (n : nat) (s : string) (gs : list Z) (ell : option nat) : option (list Z * option nat * string) :=
  match n with
  | O => Some (gs, ell, s)
  | S n' =>
      match hex_group s 0 0 with
      | None | Some (O, _, _) => None
      | Some (_, v, r) =>
          match r with
          | "" => Some (gs ++ [v], ell, "")
          | String c r1 =>
              if bool_decide (c = ".")%char then
                if bool_decide (ell = None) && negb (length gs =? 6)%nat then None
                else if (8 <? length gs + 2)%nat then None
                else match fields4 s with
                     | Some q => Some (gs ++ [q / 65536; q mod 65536], ell, "")
                     | None => None
                     end
              else if negb (bool_decide (c = ":")%char) then None
              else match r1 with
                   | "" => None
                   | String c2 r2 =>
                       if bool_decide (c2 = ":")%char then
                         if ell then None
                         else if bool_decide (r2 = "") then Some (gs ++ [v], Some (S (length gs)), "")
                         else groups6 n' r2 (gs ++ [v]) (Some (S (length gs)))
                       else groups6 n' r1 (gs ++ [v]) ell
                   end
          end
      end
  end.
Definition from_groups (gs : list Z) : Z := fold_left (λ a g, a * 65536 + g) gs 0.
Definition expand6 (gs : list Z) (ell : option nat) : option (list Z) :=
  if (length gs <? 8)%nat then
    match ell with
    | None => None
    | Some e => Some (take e gs ++ replicate (8 - length gs) 0 ++ drop e gs)
    end
  else if ell then None else Some gs.
Definition parseIPv6 (s : string) : option Addr :=
  let '(s, zone, ok) := match cut "%" s with
                        | Some (a, z) => (a, z, negb (bool_decide (z = "")))
                        | None => (s, "", true)
                        end in
  if negb ok then None else
  let '(s, ell) := match cut_prefix "::" s with Some r => (r, Some O) | None => (s, None) end in
  if bool_decide (ell = Some O) && bool_decide (s = "") then Some (Addr6 0 zone) else
  match groups6 8 s [] ell with
  | Some (gs, ell, "") =>
      match expand6 gs ell with
      | Some gs => Some (Addr6 (from_groups gs) zone)
      | None => None
      end
  | _ => None
  end.

(** The first of '.', ':' and '%' decides the family. *)
Fixpoint family (s : string) : option ascii :=
  match s with
  | "" => None
  | String c s' => if bool_decide (c = ".")%char || bool_decide (c = ":")%char || bool_decide (c = "%")%char
                   then Some c else family s'
  end.
Definition ParseAddr (s : string) : option Addr :=
  match family s with
  | Some "."%char => Addr4 <$> fields4 s
  | Some ":"%char => parseIPv6 s
  | _ => None
  end.

(** ** Prefixes *)
Record Prefix : Type := mkPrefix { PAddr : Addr; PBits : Z }.
Definition width (ip : Addr) : Z := match ip with Addr4 _ => 32 | Addr6 _ _ => 128 end.
Definition wf_prefix (p : Prefix) : Prop := wf_addr (PAddr p) ∧ Zone (PAddr p) = "" ∧ 0 <= PBits p <= width (PAddr p).

Definition ParsePrefix (s : string) : option Prefix :=
  match last_index_byte "/" s with
  | None => None
  | Some i =>
      match ParseAddr (String.substring 0 i s) with
      | None => None
      | Some ip =>
          let bits := String.substring (S i) (String.length s) s in
          if negb (bool_decide (Zone ip = "")) then None
          else if (1 <? String.length bits)%nat &&
                  match String.get 0 bits with Some c => negb (in_range "1" "9" c) | None => false end then None
          else match ParseInt bits with
               | Some n => if (n <? 0) || (width ip <? n) then None else Some (mkPrefix ip n)
               | None => None
               end
      end
  end.
Definition Masked (p : Prefix) : Prefix :=
  let k := width (PAddr p) - PBits p in
  let m a := Z.shiftl (Z.shiftr a k) k in
  mkPrefix (match PAddr p with Addr4 a => Addr4 (m a) | Addr6 a _ => Addr6 (m a) "" end) (PBits p).
Definition mask6 (n : Z) : Z := Z.shiftl (Z.ones n) (128 - n).
Definition Contains (p : Prefix) (ip : Addr) : bool :=
  match PAddr p, ip with
  | Addr4 n, Addr4 a => Z.shiftr (Z.lxor a n) (32 - PBits p) =? 0
  | Addr6 n _, Addr6 a z => bool_decide (z = "") && (Z.land (Z.lxor a n) (mask6 (PBits p)) =? 0)
  | _, _ => false
  end.

(** ** net.SplitHostPort, net.JoinHostPort *)
Definition SplitHostPort (hp : string) : option (string * string) :=
  match last_index_byte ":" hp with
  | None => None
  | Some i =>
      let port := String.substring (S i) (String.length hp) hp in
      match hp with
      | String "[" r =>
          match index_byte "]" hp with
          | None => None
          | Some e =>
              if negb (S e =? i)%nat then None
              else if negb (lacks "[" r) then None
              else if negb (lacks "]" (String.substring (S e) (String.length hp) hp)) then None
              else Some (String.substring 1 (e - 1) hp, port)
          end
      | _ =>
          let host := String.substring 0 i hp in
          if negb (lacks ":" host) then None
          else if negb (lacks "[" hp) || negb (lacks "]" hp) then None
          else Some (host, port)
      end
  end.
Definition JoinHostPort (host port : string) : string :=
  if negb (lacks ":" host) then "[" +:+ host +:+ "]:" +:+ port else host +:+ ":" +:+ port.

Example ParseAddr_runs :
  ParseAddr "10.0.0.1" = Some (Addr4 167772161) ∧ ParseAddr "010.0.0.1" = None ∧ ParseAddr "1.2.3.4." = None ∧
  ParseAddr "::1" = Some (Addr6 1 "") ∧ ParseAddr "::" = Some (Addr6 0 "") ∧ ParseAddr "1::" = Some (Addr6 (2 ^ 112) "") ∧
  ParseAddr "::ffff:127.0.0.1" = Some (Addr6 (map4 2130706433) "") ∧ ParseAddr "fe80::1%eth0" = Some (Addr6 (65152 * 2 ^ 112 + 1) "eth0") ∧
  ParseAddr "1:2:3:4:5:6:7:8:9" = None ∧ ParseAddr "1:2:3:4:5:6:7::8" = None ∧ ParseAddr "12345::" = None ∧
  ParseAddr "1:2:3:4:5:6:1.2.3.4" = Some (Addr6 (from_groups [1; 2; 3; 4; 5; 6; 258; 772]) "") ∧ ParseAddr "1.2.3.4:1" = None.
Proof. repeat split; vm_compute; reflexivity. Qed.
Example SplitHostPort_runs :
  SplitHostPort "10.0.0.1:389" = Some ("10.0.0.1", "389") ∧ SplitHostPort "[::1]:636" = Some ("::1", "636") ∧
  SplitHostPort "::1:636" = None ∧ SplitHostPort "[::1]" = None ∧ SplitHostPort "a]:1" = None ∧
  SplitHostPort (JoinHostPort "::1" "389") = Some ("::1", "389").
Proof. repeat split; vm_compute; reflexivity. Qed.

(** ** Bits as arithmetic *)
Lemma land_ones_shift x n k : 0 <= n → 0 <= k →
  Z.land x (Z.shiftl (Z.ones n) k) = Z.shiftl (Z.shiftr x k mod 2 ^ n) k.
Proof.
  intros Hn Hk. rewrite <- Z.land_ones by done. apply Z.bits_inj'. intros i Hi.
  rewrite Z.land_spec. destruct (Z.ltb_spec i k).
  - rewrite !Z.shiftl_spec_low, andb_false_r by lia. done.
  - rewrite !Z.shiftl_spec_high, Z.land_spec, Z.shiftr_spec by lia. by replace (i - k + k) with i by lia.
Qed.

Lemma lxor_shiftr_eq a b k : (Z.shiftr (Z.lxor a b) k =? 0) = true ↔ Z.shiftr a k = Z.shiftr b k.
Proof. rewrite Z.eqb_eq, Z.shiftr_lxor. apply Z.lxor_eq_0_iff. Qed.

Lemma shiftr_bound a w k : 0 <= a < 2 ^ w → 0 <= k <= w → 0 <= Z.shiftr a k < 2 ^ (w - k).
Proof.
  intros Ha Hk. rewrite Z.shiftr_div_pow2 by lia. pose proof (Z.pow_pos_nonneg 2 k). split; [apply Z.div_pos; lia|].
  apply Z.div_lt_upper_bound; [lia|]. rewrite <- Z.pow_add_r by lia. replace (k + (w - k)) with w by lia. lia.
Qed.

Lemma log2_lt_pow2_alt x n : 0 <= x < 2 ^ n → 0 < n → Z.log2 x < n.
Proof.
  intros Hx Hn. destruct (Z.eq_dec x 0) as [->|]; [done|]. apply Z.log2_lt_pow2; lia.
Qed.

Lemma lxor_bound x y n : 0 <= n → 0 <= x < 2 ^ n → 0 <= y < 2 ^ n → 0 <= Z.lxor x y < 2 ^ n.
Proof.
  intros Hn Hx Hy. assert (Hp : 0 <= Z.lxor x y) by (apply Z.lxor_nonneg; lia). split; [done|].
  destruct (Z.eq_dec (Z.lxor x y) 0) as [E|E]; [lia|]. destruct (Z.eq_dec n 0) as [->|].
  { rewrite Z.pow_0_r in *. assert (x = 0) as -> by lia. assert (y = 0) as -> by lia. done. }
  apply Z.log2_lt_pow2; [lia|]. eapply Z.le_lt_trans; [apply Z.log2_lxor; lia|].
  apply Z.max_lub_lt; apply log2_lt_pow2_alt; lia.
Qed.

(** The leading bits agree. *)
Definition in_prefix (p : Prefix) (ip : Addr) : Prop :=
  match PAddr p, ip with
  | Addr4 n, Addr4 a => a / 2 ^ (32 - PBits p) = n / 2 ^ (32 - PBits p)
  | Addr6 n _, Addr6 a z => z = "" ∧ a / 2 ^ (128 - PBits p) = n / 2 ^ (128 - PBits p)
  | _, _ => False
  end.
Lemma Contains_iff p ip : wf_prefix p → wf_addr ip → Contains p ip = true ↔ in_prefix p ip.
Proof.
  destruct p as [[n|n zn] b], ip as [a|a z]; unfold wf_prefix, Contains, in_prefix; simpl; try done.
  - intros (Hn & _ & Hb) Ha. rewrite lxor_shiftr_eq, !Z.shiftr_div_pow2 by lia. done.
  - intros (Hn & _ & Hb) Ha. rewrite andb_true_iff, bool_decide_eq_true. apply and_iff_compat_l.
    unfold mask6. rewrite land_ones_shift by lia. rewrite Z.shiftr_lxor.
    pose proof (shiftr_bound a 128 (128 - b) Ha ltac:(lia)) as Hx. pose proof (shiftr_bound n 128 (128 - b) Hn ltac:(lia)) as Hy.
    replace (128 - (128 - b)) with b in Hx, Hy by lia.
    rewrite Z.mod_small by (apply lxor_bound; [lia|done|done]).
    rewrite Z.eqb_eq, Z.shiftl_eq_0_iff, Z.lxor_eq_0_iff by lia. rewrite !Z.shiftr_div_pow2 by lia. done.
Qed.

(** ** What parses *)
Lemma dec_acc_nonneg s : ∀ n, 0 <= n → str_all is_digit s = true → 0 <= dec_acc s n.
Proof.
  induction s as [|c s IH]; intros n Hn; simpl; [done|]. intros [Hc Hs]%andb_true_iff. apply IH; [|done].
  unfold is_digit, in_range in Hc. apply andb_true_iff in Hc as [Hc _]. apply Nat.leb_le in Hc.
  change (code "0") with 48%nat in Hc. unfold digit_val. lia.
Qed.
Lemma octet_bound s v : octet s = Some v → 0 <= v < 256 ∧ s ≠ "" ∧ str_all is_digit s = true.
Proof.
  unfold octet. destruct (bool_decide (s = "")) eqn:E0; [done|]. destruct (str_all is_digit s) eqn:Ed; [|done]. simpl.
  destruct (_ && _); [done|]. destruct (dec_acc s 0 <=? 255) eqn:Ev; [|done]. intros [= <-]. nat_prop.
  pose proof (dec_acc_nonneg s 0 ltac:(lia) Ed). split; [lia|done].
Qed.
Lemma fields4_Some s q : fields4 s = Some q →
  0 <= q < 2 ^ 32 ∧ ∃ a b c d, split "." s = [a; b; c; d] ∧ Forall (λ x, x ≠ "" ∧ str_all is_digit x = true) [a; b; c; d].
Proof.
  unfold fields4. destruct (split "." s) as [|a [|b [|c [|d [|]]]]]; try done.
  destruct (octet a) as [va|] eqn:Ea; [|done]. destruct (octet b) as [vb|] eqn:Eb; [|done].
  destruct (octet c) as [vc|] eqn:Ec; [|done]. destruct (octet d) as [vd|] eqn:Ed; [|done]. intros [= <-].
  apply octet_bound in Ea as [Ha Ha'], Eb as [Hb Hb'], Ec as [Hc Hc'], Ed as [Hd Hd'].
  split; [lia|]. exists a, b, c, d. split; [done|]. by rewrite !Forall_cons.
Qed.

Definition addr_char (c : ascii) : bool := bool_decide (is_Some (hex_val c)) || is_char ":" c || is_char "." c.
Lemma digit_addr_char c : is_digit c = true → addr_char c = true.
Proof. intros H. unfold addr_char, hex_val. by rewrite H. Qed.
Lemma join_addr_chars l : Forall (λ x, str_all is_digit x = true) l → str_all addr_char (join "." l) = true.
Proof.
  induction l as [|x l IH]; [done|]. intros [Hx Hl]%Forall_cons.
  assert (str_all addr_char x = true) by (eapply str_all_impl; [|exact Hx]; apply digit_addr_char).
  destruct l as [|y l]; [done|]. change (join "." (x :: y :: l)) with (x +:+ String "." (join "." (y :: l))).
  rewrite str_all_app. apply andb_true_iff. split; [done|]. by apply IH.
Qed.
Lemma fields4_chars s q : fields4 s = Some q → str_all addr_char s = true.
Proof.
  intros (_ & a & b & c & d & E & F)%fields4_Some. rewrite <- (join_split "." s), E. apply join_addr_chars.
  eapply Forall_impl; [exact F|]. by intros x [].
Qed.

Lemma hex_val_bound c d : hex_val c = Some d → 0 <= d < 16.
Proof.
  unfold hex_val, is_digit, in_range. intros H.
  change (code "0") with 48%nat in H. change (code "9") with 57%nat in H. change (code "a") with 97%nat in H.
  change (code "f") with 102%nat in H. change (code "A") with 65%nat in H. change (code "F") with 70%nat in H.
  repeat match type of H with (if ?b && ?c then _ else _) = _ => destruct b eqn:?; destruct c eqn:?; cbn [andb] in H end;
    simplify_eq; nat_prop; lia.
Qed.

Lemma hex_group_spec s : ∀ off acc n v r, (off <= 4)%nat → 0 <= acc < 16 ^ Z.of_nat off → hex_group s off acc = Some (n, v, r) →
  (n <= 4)%nat ∧ 0 <= v < 16 ^ Z.of_nat n ∧ ∃ d, s = d +:+ r ∧ str_all addr_char d = true.
Proof.
  induction s as [|c s IH]; intros off acc n v r Ho Ha; simpl.
  { intros [= <- <- <-]. split; [done|]. split; [done|]. by exists "". }
  destruct (hex_val c) as [d|] eqn:E.
  - destruct (3 <? off)%nat eqn:E3; [done|]. intros H. nat_prop. pose proof (hex_val_bound c d E).
    apply IH in H as (H1 & H2 & x & -> & Hx); [|lia|rewrite Nat2Z.inj_succ, Z.pow_succ_r by lia; lia].
    split; [done|]. split; [done|]. exists (String c x). split; [done|]. simpl. rewrite Hx, andb_true_r.
    unfold addr_char. by rewrite E.
  - intros [= <- <- <-]. split; [done|]. split; [done|]. by exists "".
Qed.
Lemma hex_group_spec0 s n v r : hex_group s 0 0 = Some (n, v, r) →
  0 <= v < 65536 ∧ ∃ d, s = d +:+ r ∧ str_all addr_char d = true.
Proof.
  intros H. apply hex_group_spec in H as (H1 & H2 & H3); [|lia|simpl; lia]. split; [|done].
  assert (16 ^ Z.of_nat n <= 16 ^ 4) by (apply Z.pow_le_mono_r; lia). lia.
Qed.

Lemma groups6_spec n : ∀ s gs ell gs' ell' r, groups6 n s gs ell = Some (gs', ell', r) →
  (length gs + n = 8)%nat → Forall (λ g, 0 <= g < 65536) gs →
  Forall (λ g, 0 <= g < 65536) gs' ∧ (length gs' <= 8)%nat ∧ (r = "" → str_all addr_char s = true).
Proof.
  induction n as [|n IH]; intros s gs ell gs' ell' r; cbn [groups6].
  { intros [= <- <- <-] Hl Hf. split; [done|]. split; [lia|]. by intros ->. }
  destruct (hex_group s 0 0) as [[[k v] t]|] eqn:E; [|done]. apply hex_group_spec0 in E as (Hv & d & -> & Hd).
  destruct k as [|k]; [done|]. intros H Hl Hf.
  assert (Hgs : Forall (λ g, 0 <= g < 65536) (gs ++ [v])) by (apply Forall_app; split; [done|by constructor]).
  assert (Hlen : (length (gs ++ [v]) + n = 8)%nat) by (rewrite length_app; simpl; lia).
  destruct t as [|c r1].
  { injection H as <- <- <-. split; [done|]. split; [lia|]. by rewrite str_app_nil_r. }
  destruct (bool_decide (c = "."%char)) eqn:Ec; nat_prop.
  { destruct (_ && _); [done|]. destruct (8 <? _)%nat eqn:E8; [done|]. nat_prop.
    destruct (fields4 (d +:+ String c r1)) as [q|] eqn:Eq; [|done]. injection H as <- <- <-.
    pose proof (fields4_chars _ _ Eq). apply fields4_Some in Eq as [Hq _]. split; [|rewrite length_app; simpl; split; [lia|done]].
    apply Forall_app. split; [done|]. repeat constructor; try (apply Z.div_pos; lia); try (apply Z.mod_pos_bound; lia).
    apply Z.div_lt_upper_bound; lia. }
  destruct (bool_decide (c = ":"%char)) eqn:Ec2; [|done]. simpl in H. nat_prop. subst c.
  destruct r1 as [|c2 r2]; [done|].
  assert (Hpre : ∀ t, str_all addr_char t = true → str_all addr_char (d +:+ String ":" t) = true).
  { intros t Ht. rewrite str_all_app, Hd. simpl. by rewrite Ht. }
  destruct (bool_decide (c2 = ":"%char)) eqn:Ec3; nat_prop.
  - subst c2. destruct ell; [done|]. destruct (bool_decide (r2 = "")) eqn:Er; nat_prop.
    + subst r2. injection H as <- <- <-. split; [done|]. split; [lia|]. intros _. by apply Hpre.
    + apply IH in H as (H1 & H2 & H3); [|done|done]. split; [done|]. split; [done|]. intros Hr. apply Hpre. simpl. by apply H3.
  - apply IH in H as (H1 & H2 & H3); [|done|done]. split; [done|]. split; [done|]. intros Hr. apply Hpre. by apply H3.
Qed.

Lemma from_groups_bound gs : ∀ acc k, 0 <= acc < 65536 ^ Z.of_nat k → Forall (λ g, 0 <= g < 65536) gs →
  0 <= fold_left (λ a g, a * 65536 + g) gs acc < 65536 ^ Z.of_nat (k + length gs).
Proof.
  induction gs as [|g gs IH]; intros acc k Ha Hf; simpl; [by rewrite Nat.add_0_r|].
  apply Forall_cons in Hf as [Hg Hf]. replace (k + S (length gs))%nat with (S k + length gs)%nat by lia.
  apply IH; [|done]. rewrite Nat2Z.inj_succ, Z.pow_succ_r by lia. lia.
Qed.

(** A parsed address has the bits of its family; without a zone its text is
    made of hexadecimal digits, colons and dots. *)
Lemma ParseAddr_spec s ip : ParseAddr s = Some ip → wf_addr ip ∧ (Zone ip = "" → str_all addr_char s = true).
Proof.
  unfold ParseAddr. destruct (family s) as [c|]; [|done].
  destruct (decide (c = "."%char)) as [->|]; [|destruct (decide (c = ":"%char)) as [->|];
    [|by destruct c as [[] [] [] [] [] [] [] []]]].
  - destruct (fields4 s) as [q|] eqn:E; [|done]. simpl. intros [= <-]. split; [by apply fields4_Some in E as [? _]|].
    intros _. by eapply fields4_chars.
  - unfold parseIPv6.
    destruct (match cut "%" s with Some (a, z) => (a, z, negb (bool_decide (z = ""))) | None => (s, "", true) end)
      as [[t zone] ok] eqn:Ec.
    destruct ok; [|done]. cbn [negb].
    assert (Ht : zone = "" → t = s).
    { destruct (cut "%" s) as [[a z]|]; simplify_eq/=; [|done]. intros ->. by vm_compute in H0. }
    destruct (match cut_prefix "::" t with Some r => (r, Some 0%nat) | None => (t, None) end) as [u ell] eqn:Ep.
    assert (Hu : str_all addr_char u = true → str_all addr_char t = true).
    { destruct (cut_prefix "::" t) as [r|] eqn:E; simplify_eq; [|done]. apply cut_prefix_Some in E as ->. done. }
    destruct (_ && _) eqn:E0.
    { intros [= <-]. nat_prop. subst u. split; [simpl; lia|]. intros Hz. rewrite <- Ht by exact Hz. auto. }
    destruct (groups6 8 u [] ell) as [[[gs ell'] r]|] eqn:Eg; [|done]. destruct r; [|done].
    apply groups6_spec in Eg as (Hg & Hl & Hr); [|done|done]. destruct (expand6 gs ell') as [gs'|] eqn:Ee; [|done].
    intros [= <-]. split; [|simpl; intros Hz; rewrite <- Ht by exact Hz; auto].
    assert (length gs' = 8%nat ∧ Forall (λ g, 0 <= g < 65536) gs') as [Hl' Hf'].
    { unfold expand6 in Ee. destruct (length gs <? 8)%nat eqn:E8; nat_prop.
      - destruct ell'; [|done]. injection Ee as <-. split.
        + rewrite !length_app, length_replicate. rewrite length_take, length_drop. lia.
        + apply Forall_app. split; [by apply Forall_take|]. apply Forall_app. split; [apply Forall_replicate; lia|by apply Forall_drop].
      - destruct ell'; [done|]. injection Ee as <-. split; [lia|done]. }
    simpl. unfold from_groups. pose proof (from_groups_bound gs' 0 0 ltac:(simpl; lia) Hf') as B.
    rewrite Hl' in B. exact B.
Qed.
