(* ===== verification/Base64.v ===== *)
(** * Base64 without padding (encoding/base64 as the service uses it)

    RawURLEncoding (tokens, key ids, key sets, PKCE) and RawStdEncoding
    (password hashes).  Decoding skips CR and LF and ignores the unused low
    bits of the last character, as the Go decoder does when it is not strict. *)
From S2P Require Import Prelude GoStrings.
#[local] Open Scope Z_scope.

Definition url_alphabet : string := "ABCDEFGHIJKLMNOPQRSTUVWXYZabcdefghijklmnopqrstuvwxyz0123456789-_".
Definition std_alphabet : string := "ABCDEFGHIJKLMNOPQRSTUVWXYZabcdefghijklmnopqrstuvwxyz0123456789+/".

Definition byte_of (n : Z) : ascii := ascii_of_nat (Z.to_nat n).
Definition val_of (c : ascii) : Z := Z.of_nat (code c).
#[global] Arguments byte_of : simpl never.
#[global] Arguments val_of : simpl never.

Ltac euclid := Z.to_euclidean_division_equations; lia.

Section Alphabet.
Context (alpha : string).

(** The character of a 6-bit value and back. *)
Definition b64_char (n : Z) : ascii := default "A"%char (String.get (Z.to_nat n) alpha).
Definition b64_val (c : ascii) : option Z := Z.of_nat <$> index_byte c alpha.

Fixpoint b64_encode (s : string) : string :=
  match s with
  | String a (String b (String c r)) =>
      let v := val_of a * 65536 + val_of b * 256 + val_of c in
      String (b64_char (v / 262144)) (String (b64_char (v / 4096 mod 64))
        (String (b64_char (v / 64 mod 64)) (String (b64_char (v mod 64)) (b64_encode r))))
  | String a (String b EmptyString) =>
      let v := val_of a * 65536 + val_of b * 256 in
      String (b64_char (v / 262144)) (String (b64_char (v / 4096 mod 64)) (String (b64_char (v / 64 mod 64)) ""))
  | String a EmptyString =>
      let v := val_of a * 65536 in
      String (b64_char (v / 262144)) (String (b64_char (v / 4096 mod 64)) "")
  | EmptyString => ""
  end.

Fixpoint b64_digits (s : string) : option (list Z) :=
  match s with
  | EmptyString => Some []
  | String c r =>
      if is_char "010" c || is_char "013" c then b64_digits r
      else match b64_val c, b64_digits r with Some n, Some l => Some (n :: l) | _, _ => None end
  end.
Fixpoint b64_quanta (l : list Z) : option string :=
  match l with
  | [] => Some ""
  | a :: b :: c :: d :: r =>
      let v := a * 262144 + b * 4096 + c * 64 + d in
      (λ s, String (byte_of (v / 65536)) (String (byte_of (v / 256 mod 256)) (String (byte_of (v mod 256)) s)))
        <$> b64_quanta r
  | [a; b; c] =>
      let v := a * 262144 + b * 4096 + c * 64 in
      Some (String (byte_of (v / 65536)) (String (byte_of (v / 256 mod 256)) ""))
  | [a; b] => let v := a * 262144 + b * 4096 in Some (String (byte_of (v / 65536)) "")
  | [_] => None
  end.
Definition b64_decode (s : string) : option string :=
  match b64_digits s with Some l => b64_quanta l | None => None end.

(** What an alphabet must be: 64 distinct characters, none skipped. *)
Definition alphabet_ok : bool :=
  forallb (λ n, bool_decide (b64_val (b64_char (Z.of_nat n)) = Some (Z.of_nat n)) &&
                negb (is_char "010" (b64_char (Z.of_nat n))) && negb (is_char "013" (b64_char (Z.of_nat n)))) (seq 0 64).

Hypothesis Halpha : alphabet_ok = true.

Lemma b64_char_ok n : 0 <= n < 64 →
  b64_val (b64_char n) = Some n ∧ is_char "010" (b64_char n) = false ∧ is_char "013" (b64_char n) = false.
Proof using Halpha.
  intros Hn. unfold alphabet_ok in Halpha. rewrite forallb_forall in Halpha.
  specialize (Halpha (Z.to_nat n)). rewrite Z2Nat.id in Halpha by lia.
  rewrite in_seq in Halpha. specialize (Halpha ltac:(lia)). bool_prop. auto.
Qed.

Lemma b64_digits_cons n s l : 0 <= n < 64 → b64_digits s = Some l →
  b64_digits (String (b64_char n) s) = Some (n :: l).
Proof using Halpha. intros Hn Hs. cbn. destruct (b64_char_ok n Hn) as (-> & -> & ->). cbn. by rewrite Hs. Qed.

Lemma val_of_range c : 0 <= val_of c < 256.
Proof using Type. unfold val_of, code. pose proof (nat_ascii_bounded c). lia. Qed.
Lemma byte_of_val c : byte_of (val_of c) = c.
Proof using Type. unfold byte_of, val_of, code. rewrite Nat2Z.id. apply ascii_nat_embedding. Qed.

(** Three bytes at a time. *)
Lemma string_ind3 (P : string → Prop) :
  P "" → (∀ a, P (String a "")) → (∀ a b, P (String a (String b ""))) →
  (∀ a b c r, P r → P (String a (String b (String c r)))) → ∀ s, P s.
Proof using Type.
  intros H0 H1 H2 H3 s. enough (H : ∀ n s, (String.length s <= n)%nat → P s) by (by eapply H).
  clear s. induction n as [|n IH]; intros [|a [|b [|c r]]] Hl; cbn in Hl; first [exact H0|lia|apply H1|apply H2|apply H3, IH; lia].
Qed.

Lemma b64_decode_encode s : b64_decode (b64_encode s) = Some s.
Proof using Halpha.
  assert (H : ∃ l, b64_digits (b64_encode s) = Some l ∧ b64_quanta l = Some s);
    [|by destruct H as (l & E & Q); unfold b64_decode; rewrite E].
  assert (Hbyte : ∀ x c, x = val_of c → byte_of x = c) by (intros x c ->; apply byte_of_val).
  induction s as [|a|a b|a b c r (l & El & Ql)] using string_ind3; [by exists []| | |];
    pose proof (val_of_range a) as Ha; try (pose proof (val_of_range b) as Hb); try (pose proof (val_of_range c) as Hc);
    cbn [b64_encode]; cbv zeta.
  - eexists. split; [repeat (apply b64_digits_cons; [euclid|]); done|]. cbn. do 2 f_equal. apply Hbyte. euclid.
  - eexists. split; [repeat (apply b64_digits_cons; [euclid|]); done|]. cbn.
    f_equal. f_equal; [apply Hbyte; euclid|]. f_equal. apply Hbyte; euclid.
  - eexists. split; [repeat (apply b64_digits_cons; [euclid|]); exact El|]. cbn. rewrite Ql. cbn.
    f_equal. f_equal; [apply Hbyte; euclid|]. f_equal; [apply Hbyte; euclid|]. f_equal. apply Hbyte; euclid.
Qed.

(** Only characters of the alphabet are written. *)
Lemma b64_encode_alphabet s : str_all (λ c, bool_decide (is_Some (b64_val c))) (b64_encode s) = true.
Proof using Halpha.
  assert (Hc : ∀ n, 0 <= n < 64 → bool_decide (is_Some (b64_val (b64_char n))) = true)
    by (intros n Hn; destruct (b64_char_ok n Hn) as [-> _]; by apply bool_decide_eq_true_2).
  induction s as [|a|a b|a b c r IH] using string_ind3; [done| | |];
    pose proof (val_of_range a); try pose proof (val_of_range b); try pose proof (val_of_range c);
    cbn [b64_encode str_all]; cbv zeta; rewrite !Hc by euclid; done.
Qed.
Lemma b64_encode_lacks c s : b64_val c = None → lacks c (b64_encode s) = true.
Proof using Halpha.
  intros Hc. eapply str_all_impl, b64_encode_alphabet. intros x Hx. unfold is_char.
  case_bool_decide as E; [|done]. subst. rewrite Hc in Hx. by apply bool_decide_eq_true in Hx as [? ?].
Qed.
End Alphabet.

Lemma url_alphabet_ok : alphabet_ok url_alphabet = true.
Proof. vm_compute. reflexivity. Qed.
Lemma std_alphabet_ok : alphabet_ok std_alphabet = true.
Proof. vm_compute. reflexivity. Qed.
