(* ===== verification/Regex.v ===== *)
(** * Regular expressions

    The expressions the source compiles with [regexp.MustCompile] are anchored
    ([^...$]) and built from byte classes, concatenation, bounded repetition
    and an optional group.  They are syntax trees here; [re_match] decides
    membership by derivatives and [re_match_spec] ties it to the language.
    Three measures computed on the tree ([re_within], [re_max], [nullable])
    give the facts clients need about accepted strings: which bytes occur, how
    long they are, that they are not empty. *)
From S2P Require Import Prelude GoStrings.

Inductive re : Type :=
  | Void
  | Eps
  | Cls (p : ascii → bool)
  | Seq (a b : re)
  | Alt (a b : re).

(** [r{0,n}], [r{n}] and [(?:r)?]. *)
Fixpoint upto (n : nat) (r : re) : re :=
  match n with O => Eps | S n' => Alt Eps (Seq r (upto n' r)) end.
Fixpoint exactly (n : nat) (r : re) : re :=
  match n with O => Eps | S n' => Seq r (exactly n' r) end.
Definition opt (r : re) : re := Alt Eps r.
Definition chr (c : ascii) : re := Cls (is_char c).

Inductive lang : re → string → Prop :=
  | lang_eps : lang Eps ""
  | lang_cls p c : p c = true → lang (Cls p) (String c "")
  | lang_seq a b s t : lang a s → lang b t → lang (Seq a b) (s +:+ t)
  | lang_alt_l a b s : lang a s → lang (Alt a b) s
  | lang_alt_r a b s : lang b s → lang (Alt a b) s.
#[export] Hint Constructors lang : auth.

Fixpoint nullable (r : re) : bool :=
  match r with
  | Void | Cls _ => false
  | Eps => true
  | Seq a b => nullable a && nullable b
  | Alt a b => nullable a || nullable b
  end.

(** Simplifying constructors keep derivatives small. *)
Definition mk_seq (a b : re) : re :=
  match a with Void => Void | Eps => b | _ => Seq a b end.
Definition mk_alt (a b : re) : re :=
  match a, b with Void, _ => b | _, Void => a | _, _ => Alt a b end.

Fixpoint der (c : ascii) (r : re) : re :=
  match r with
  | Void | Eps => Void
  | Cls p => if p c then Eps else Void
  | Seq a b => let d := mk_seq (der c a) b in
               if nullable a then mk_alt d (der c b) else d
  | Alt a b => mk_alt (der c a) (der c b)
  end.

Fixpoint re_match (r : re) (s : string) : bool :=
  match s with
  | EmptyString => nullable r
  | String c s' => re_match (der c r) s'
  end.

(** ** Correctness of the matcher *)
Ltac inv_lang :=
  repeat match goal with
  | H : lang Void _ |- _ => inversion H
  | H : lang Eps _ |- _ => inversion H; subst; clear H
  | H : lang (Cls _) _ |- _ => inversion H; subst; clear H
  | H : lang (Seq _ _) _ |- _ => inversion H; subst; clear H
  | H : lang (Alt _ _) _ |- _ => inversion H; subst; clear H
  end.

Lemma lang_mk_seq a b s : lang (mk_seq a b) s ↔ lang (Seq a b) s.
Proof.
  destruct a; simpl; try done; split; intros H; inv_lang; auto.
  change s with ("" +:+ s). auto with auth.
Qed.

Lemma lang_mk_alt a b s : lang (mk_alt a b) s ↔ lang (Alt a b) s.
Proof. destruct a, b; simpl; split; intros H; inv_lang; auto with auth. Qed.

Lemma nullable_spec r : nullable r = true ↔ lang r "".
Proof.
  induction r; simpl; split; intros H; try (by inversion H); auto with auth.
  - apply andb_true_iff in H as [? ?]. change "" with ("" +:+ ""). constructor; tauto.
  - inversion H as [| |? ? s t Hs Ht Heq| |]; subst.
    destruct s, t; simplify_eq/=. apply andb_true_iff. tauto.
  - apply orb_true_iff in H as [?|?]; [apply lang_alt_l|apply lang_alt_r]; tauto.
  - apply orb_true_iff. inversion H; subst; tauto.
Qed.

Lemma der_spec r c s : lang (der c r) s ↔ lang r (String c s).
Proof.
  revert s. induction r as [| |p|a IHa b IHb|a IHa b IHb]; intros s; simpl.
  1,2: split; intros H; inversion H.
  - destruct (p c) eqn:E; split; intros H; inversion H; subst; auto with auth; congruence.
  - assert (Hseq : lang (mk_seq (der c a) b) s ↔
              ∃ s1 s2, s = s1 +:+ s2 ∧ lang a (String c s1) ∧ lang b s2).
    { rewrite lang_mk_seq. split.
      - intros H. inversion H; subst. setoid_rewrite <- IHa. eauto.
      - intros (s1 & s2 & -> & H1 & H2). constructor; [by apply IHa|done]. }
    assert (Hgoal : lang (Seq a b) (String c s) ↔
              (∃ s1 s2, s = s1 +:+ s2 ∧ lang a (String c s1) ∧ lang b s2)
              ∨ (lang a "" ∧ lang b (String c s))).
    { split.
      - intros H. inversion H as [| |? ? s1 s2 H1 H2 Heq| |]; subst.
        destruct s1 as [|d s1]; simplify_eq/=; [by right|]. left; eauto.
      - intros [(s1 & s2 & -> & H1 & H2)|[H1 H2]].
        + change (String c (s1 +:+ s2)) with (String c s1 +:+ s2). by constructor.
        + change (String c s) with ("" +:+ String c s). by constructor. }
    rewrite Hgoal, <- Hseq. destruct (nullable a) eqn:Hn.
    + rewrite lang_mk_alt. apply nullable_spec in Hn.
      split; [intros H; inversion H; subst; [by left|right; by rewrite <- IHb]|].
      intros [H|[_ H]]; [by apply lang_alt_l|apply lang_alt_r; by apply IHb].
    + split; [by left|]. intros [H|[H _]]; [done|]. apply nullable_spec in H. congruence.
  - rewrite lang_mk_alt. split; intros H; inversion H; subst.
    1,3: apply lang_alt_l; by apply IHa.
    all: apply lang_alt_r; by apply IHb.
Qed.

Lemma re_match_spec r s : re_match r s = true ↔ lang r s.
Proof.
  revert r. induction s as [|c s IH]; intros r; simpl.
  - apply nullable_spec.
  - by rewrite IH, der_spec.
Qed.

(** ** Facts about accepted strings *)

(** Every class of the expression is included in [P]. *)
Fixpoint re_within (P : ascii → bool) (r : re) : bool :=
  match r with
  | Void | Eps => true
  | Cls p => every_byte (λ c, implb (p c) (P c))
  | Seq a b | Alt a b => re_within P a && re_within P b
  end.

Fixpoint re_max (r : re) : nat :=
  match r with
  | Void | Eps => 0
  | Cls _ => 1
  | Seq a b => re_max a + re_max b
  | Alt a b => Nat.max (re_max a) (re_max b)
  end.

Lemma lang_within P r s : re_within P r = true → lang r s → str_all P s = true.
Proof.
  intros Hw H. induction H as [|p c Hc|a b s t _ IH1 _ IH2|a b s _ IH|a b s _ IH]; simpl in *.
  - done.
  - apply (every_byte_spec _ c) in Hw. cbv beta in Hw. rewrite Hc in Hw. simpl in Hw. by rewrite Hw.
  - bool_prop. rewrite str_all_app. by rewrite IH1, IH2.
  - bool_prop. auto.
  - bool_prop. auto.
Qed.

Lemma lang_length r s : lang r s → (String.length s <= re_max r)%nat.
Proof. induction 1; simpl; rewrite ?str_length_app; lia. Qed.

Lemma re_match_within P r s :
  re_within P r = true → re_match r s = true → str_all P s = true.
Proof. rewrite re_match_spec. apply lang_within. Qed.

Lemma re_match_length r s : re_match r s = true → (String.length s <= re_max r)%nat.
Proof. rewrite re_match_spec. apply lang_length. Qed.

Lemma re_match_nonempty r s : nullable r = false → re_match r s = true → s ≠ "".
Proof. intros Hn H ->. simpl in H. congruence. Qed.
