(* ===== verification/PermRef.v ===== *)
(** * Module-scoped permission references (internal/permref/permref.go)

    The grammar every layer shares: qualified references
    "module:resource:action", legacy "resource:action", OpenFGA object ids,
    the module named by a SPIFFE identity and the role slug grammars. *)
From S2P Require Import Prelude GoStrings Regex.

(** ** Grammars *)
Definition lower_digit_dash (c : ascii) : bool := is_lower c || is_digit c || is_char "-" c.
Definition lower_digit_dash_us (c : ascii) : bool := lower_digit_dash c || is_char "_" c.
Definition lower_digit (c : ascii) : bool := is_lower c || is_digit c.
Definition is_hex (c : ascii) : bool := is_digit c || in_range "a" "f" c.

Definition moduleRE : re := Seq (Cls is_lower) (upto 31 (Cls lower_digit_dash)).
Definition resourceRE : re := Seq (Cls is_lower) (upto 63 (Cls lower_digit_dash_us)).
Definition actionRE : re := Seq (Cls is_lower) (upto 31 (Cls lower_digit_dash_us)).
Definition defSlugRE : re :=
  Seq (Cls lower_digit) (opt (Seq (upto 30 (Cls lower_digit_dash)) (Cls lower_digit))).
Definition customRE : re :=
  Seq (Cls lower_digit) (opt (Seq (upto 61 (Cls lower_digit_dash)) (Cls lower_digit))).
Definition tenantRE : re :=
  let hex n := exactly n (Cls is_hex) in
  Seq (hex 8) (Seq (chr "-") (Seq (hex 4) (Seq (chr "-") (Seq (hex 4) (Seq (chr "-")
    (Seq (hex 4) (Seq (chr "-") (hex 12)))))))).

Definition ValidModule (s : string) : bool := re_match moduleRE s.
Definition ValidResource (s : string) : bool := re_match resourceRE s.
Definition ValidAction (s : string) : bool := re_match actionRE s.
Definition ValidRoleDefSlug (s : string) : bool := re_match defSlugRE s.

(** ** References *)
Record Ref : Type := mkRef { RModule : string; RResource : string; RAction : string }.

#[global] Instance Ref_eq_dec : EqDecision Ref.
Proof. solve_decision. Defined.
#[global] Instance Ref_countable : Countable Ref.
Proof.
  apply (inj_countable' (λ r, (RModule r, RResource r, RAction r))
                        (λ '(m, r, a), mkRef m r a)). by intros [].
Defined.

Definition IsLegacy (r : Ref) : bool := bool_decide (RModule r = "").
Definition Short (r : Ref) : string := RResource r +:+ ":" +:+ RAction r.
Definition RefString (r : Ref) : string :=
  if IsLegacy r then Short r else RModule r +:+ ":" +:+ Short r.
Definition WithModule (r : Ref) (m : string) : Ref := mkRef m (RResource r) (RAction r).
Definition RefObject (r : Ref) (tid : string) : string :=
  if IsLegacy r
  then "permission:" +:+ tid +:+ "/" +:+ RResource r +:+ "~" +:+ RAction r
  else "permission:" +:+ tid +:+ "/" +:+ RModule r +:+ "~" +:+ RResource r +:+ "~" +:+ RAction r.

Definition build (module res act : string) : result Ref :=
  if (bool_decide (module ≠ "") && negb (ValidModule module))
     || negb (ValidResource res) || negb (ValidAction act)
  then Err ErrMalformed else Ok (mkRef module res act).

Definition Parse (s : string) : result Ref :=
  match split ":" s with
  | [m; r; a] => if bool_decide (m = "") then Err ErrMalformed else build m r a
  | _ => Err ErrMalformed
  end.

Definition ParseLegacy (s : string) : result Ref :=
  match split ":" s with
  | [r; a] => build "" r a
  | _ => Err ErrMalformed
  end.

Definition ParseAny (s : string) : result Ref :=
  if bool_decide (count_byte ":" s = 2) then Parse s else ParseLegacy s.

Definition Qualify (module short : string) : result Ref :=
  match ParseLegacy short with
  | Err _ => Err ErrMalformed
  | Ok r => if negb (ValidModule module) then Err ErrMalformed else Ok (WithModule r module)
  end.

Definition ParseObject (obj : string) : result (string * Ref) :=
  match cut_prefix "permission:" obj with
  | None => Err ErrMalformed
  | Some rest =>
      match cut "/" rest with
      | None => Err ErrMalformed
      | Some (tid, name) =>
          if negb (re_match tenantRE tid) then Err ErrMalformed
          else rbind (match split "~" name with
                      | [r; a] => build "" r a
                      | [m; r; a] => if bool_decide (m = "") then Err ErrMalformed else build m r a
                      | _ => Err ErrMalformed
                      end) (λ r, Ok (tid, r))
      end
  end.

Definition ModuleFromSPIFFE (id : string) : result string :=
  match cut_prefix "spiffe://" id with
  | None => Err ErrMalformed
  | Some rest =>
      match cut "/" rest with
      | None => Err ErrMalformed
      | Some (td, path) =>
          if bool_decide (td = "") then Err ErrMalformed
          else match cut_prefix "svc/" path with
               | None => Err ErrMalformed
               | Some name => if negb (ValidModule name) then Err ErrMalformed else Ok name
               end
      end
  end.

(** ** Role slugs *)
Definition ModuleRoleSlug (module slug : string) : result string :=
  if negb (ValidModule module) || negb (ValidRoleDefSlug slug) then Err ErrMalformed
  else Ok ("m." +:+ module +:+ "." +:+ slug).

Definition ParseModuleRoleSlug (s : string) : option (string * string) :=
  match split "." s with
  | [m; md; sl] =>
      if bool_decide (m ≠ "m") || negb (ValidModule md) || negb (ValidRoleDefSlug sl)
      then None else Some (md, sl)
  | _ => None
  end.

Definition ReservedSlugs : list string := ["owner"; "admin"; "member"; "auditor"; "operator"].
Definition IsReserved (slug : string) : bool := bool_decide (slug ∈ ReservedSlugs).
Definition ParseCustomSlug (s : string) : result string :=
  if negb (re_match customRE s) || IsReserved s then Err ErrMalformed else Ok s.

(** ** Well-formed references: what [build] accepts *)
Definition wf_ref (r : Ref) : bool :=
  (IsLegacy r || ValidModule (RModule r)) && ValidResource (RResource r) && ValidAction (RAction r).

(** A name accepted by a grammar lacks every byte outside its classes; the
    side condition is decided by computation. *)
Lemma re_match_lacks c r s :
  re_within (λ x, negb (is_char c x)) r = true → re_match r s = true → lacks c s = true.
Proof. apply re_match_within. Qed.

Ltac solve_lacks :=
  repeat match goal with H : _ && _ = true |- _ => apply andb_true_iff in H as [? ?] end;
  first [ done
        | match goal with
          | H : ValidModule ?m = true |- lacks _ ?m = true => refine (re_match_lacks _ _ _ _ H)
          | H : ValidResource ?m = true |- lacks _ ?m = true => refine (re_match_lacks _ _ _ _ H)
          | H : ValidAction ?m = true |- lacks _ ?m = true => refine (re_match_lacks _ _ _ _ H)
          | H : ValidRoleDefSlug ?m = true |- lacks _ ?m = true => refine (re_match_lacks _ _ _ _ H)
          | H : re_match _ ?m = true |- lacks _ ?m = true => refine (re_match_lacks _ _ _ _ H)
          end; vm_compute; reflexivity ].

Lemma build_ok_iff m r a x :
  build m r a = Ok x ↔ x = mkRef m r a ∧ wf_ref x = true.
Proof.
  unfold build, wf_ref, IsLegacy.
  assert (Hb : bool_decide (m ≠ "") = negb (bool_decide (m = ""))) by (repeat case_bool_decide; done).
  rewrite Hb. split.
  - destruct (bool_decide (m = "")) eqn:E1, (ValidModule m) eqn:E2, (ValidResource r) eqn:E3,
      (ValidAction a) eqn:E4; simpl; try done; intros [= <-]; simpl; by rewrite E1, ?E2, E3, E4.
  - intros [-> H]. simpl in H.
    destruct (bool_decide (m = "")), (ValidModule m), (ValidResource r), (ValidAction a); simpl in *; done.
Qed.

Lemma ValidModule_nonempty m : ValidModule m = true → m ≠ "".
Proof. by apply re_match_nonempty. Qed.

(** A legacy reference prints with one separator, a qualified one with two. *)
Lemma split_RefString r :
  wf_ref r = true →
  split ":" (RefString r) =
    if IsLegacy r then [RResource r; RAction r] else [RModule r; RResource r; RAction r].
Proof.
  unfold wf_ref, RefString, Short, IsLegacy. intros [[Hm Hr]%andb_true_iff Ha]%andb_true_iff.
  case_bool_decide as E; simpl in Hm.
  - apply (split_join ":" [RResource r; RAction r]); [done|].
    repeat constructor; solve_lacks.
  - apply (split_join ":" [RModule r; RResource r; RAction r]); [done|].
    repeat constructor; solve_lacks.
Qed.

(** [Parse]'s and [ParseLegacy]'s common shape: a list of parts determines
    the reference it denotes. *)
Definition of_parts (l : list string) : result Ref :=
  match l with
  | [r; a] => build "" r a
  | [m; r; a] => if bool_decide (m = "") then Err ErrMalformed else build m r a
  | _ => Err ErrMalformed
  end.

Lemma of_parts_ok l x :
  of_parts l = Ok x ↔
  wf_ref x = true ∧
  l = if IsLegacy x then [RResource x; RAction x] else [RModule x; RResource x; RAction x].
Proof.
  unfold of_parts. split.
  - destruct l as [|a [|b [|c [|d l]]]]; try done.
    + intros [-> H]%build_ok_iff. done.
    + case_bool_decide as E; [done|]. intros [-> H]%build_ok_iff. split; [done|].
      unfold IsLegacy. simpl. by rewrite bool_decide_eq_false_2.
  - unfold IsLegacy. intros [Hw ->]. case_bool_decide as E.
    + apply build_ok_iff. split; [|done]. destruct x; simpl in *; by subst.
    + rewrite bool_decide_eq_false_2 by done. apply build_ok_iff. split; [by destruct x|done].
Qed.

Lemma ParseAny_parts s : ParseAny s = of_parts (split ":" s).
Proof.
  unfold ParseAny, Parse, ParseLegacy, of_parts. pose proof (split_count ":" s) as Hc.
  case_bool_decide as E; destruct (split ":" s) as [|a [|b [|c [|d l]]]]; simpl in *; try done; lia.
Qed.

Lemma RefString_parts r :
  join ":" (if IsLegacy r then [RResource r; RAction r] else [RModule r; RResource r; RAction r])
  = RefString r.
Proof. unfold RefString, Short. by destruct (IsLegacy r). Qed.

(** Parsing and printing permission references are inverse: [ParseAny]
    accepts exactly the printed forms of well-formed references, and returns
    the reference that was printed. *)
Theorem parse_any_iff s r : ParseAny s = Ok r ↔ wf_ref r = true ∧ s = RefString r.
Proof.
  rewrite ParseAny_parts, of_parts_ok. split.
  - intros [Hw Hs]. split; [done|]. by rewrite <- RefString_parts, <- Hs, join_split.
  - intros [Hw ->]. split; [done|]. by apply split_RefString.
Qed.

Lemma ParseObject_parts tid name :
  re_match tenantRE tid = true → lacks "/" tid = true →
  ParseObject ("permission:" +:+ tid +:+ "/" +:+ name) =
    rbind (of_parts (split "~" name)) (λ r, Ok (tid, r)).
Proof.
  intros Ht Hl. unfold ParseObject.
  rewrite cut_prefix_app. change ("/" +:+ name) with (String "/" name).
  rewrite cut_app by done. rewrite Ht. simpl negb. cbv iota.
  unfold of_parts. by destruct (split "~" name) as [|a [|b [|c [|d l]]]].
Qed.

Lemma RefObject_eq r tid :
  RefObject r tid = "permission:" +:+ tid +:+ "/" +:+
    join "~" (if IsLegacy r then [RResource r; RAction r] else [RModule r; RResource r; RAction r]).
Proof. unfold RefObject. by destruct (IsLegacy r). Qed.

Lemma split_object_name r :
  wf_ref r = true →
  let parts := if IsLegacy r then [RResource r; RAction r] else [RModule r; RResource r; RAction r] in
  split "~" (join "~" parts) = parts.
Proof.
  unfold wf_ref. intros [[Hm Hr]%andb_true_iff Ha]%andb_true_iff. simpl.
  apply split_join; [by destruct (IsLegacy r)|].
  destruct (IsLegacy r) eqn:E; simpl in Hm; repeat constructor; solve_lacks.
Qed.

Lemma ParseObject_RefObject tid r :
  re_match tenantRE tid = true → wf_ref r = true → ParseObject (RefObject r tid) = Ok (tid, r).
Proof.
  intros Ht Hw. rewrite RefObject_eq, ParseObject_parts; [|done|solve_lacks].
  rewrite split_object_name by done.
  replace (of_parts _) with (Ok r); [done|].
  symmetry. by apply of_parts_ok.
Qed.

(** OpenFGA object ids determine their tenant and permission: [ParseObject]
    accepts exactly the ids [Object] renders for a tenant id and a well-formed
    reference. *)
Theorem parse_object_iff obj tid r :
  ParseObject obj = Ok (tid, r) ↔
  re_match tenantRE tid = true ∧ wf_ref r = true ∧ obj = RefObject r tid.
Proof.
  split; [|intros (Ht & Hw & ->); by apply ParseObject_RefObject].
  unfold ParseObject. destruct (cut_prefix "permission:" obj) as [rest|] eqn:Ep; [|done].
  apply cut_prefix_Some in Ep as ->.
  destruct (cut "/" rest) as [[t name]|] eqn:Ec; [|done].
  apply cut_Some in Ec as [-> Hl].
  destruct (re_match tenantRE t) eqn:Et; [|done]. simpl negb. cbv iota.
  change (match split "~" name with [r0; a] => _ | _ => _ end) with (of_parts (split "~" name)).
  destruct (of_parts (split "~" name)) as [x|] eqn:Eo; [|done].
  simpl. intros [= <- <-]. apply of_parts_ok in Eo as [Hw Hs].
  split; [done|]. split; [done|]. rewrite RefObject_eq, <- Hs, join_split. done.
Qed.

(** Two permissions of two tenants never share an object id. *)
Lemma RefObject_inj r1 r2 t1 t2 :
  re_match tenantRE t1 = true → wf_ref r1 = true →
  re_match tenantRE t2 = true → wf_ref r2 = true →
  RefObject r1 t1 = RefObject r2 t2 → t1 = t2 ∧ r1 = r2.
Proof.
  intros H1 W1 H2 W2 E.
  pose proof (ParseObject_RefObject t1 r1 H1 W1) as P1.
  rewrite E, ParseObject_RefObject in P1 by done. by injection P1.
Qed.

(** The module of a caller is taken from "spiffe://<domain>/svc/<module>" and
    from no other identity. *)
Theorem module_from_spiffe_iff id name :
  ModuleFromSPIFFE id = Ok name ↔
  ValidModule name = true ∧
  ∃ td, td ≠ "" ∧ lacks "/" td = true ∧ id = "spiffe://" +:+ td +:+ "/svc/" +:+ name.
Proof.
  unfold ModuleFromSPIFFE. split.
  - destruct (cut_prefix "spiffe://" id) as [rest|] eqn:Ep; [|done].
    apply cut_prefix_Some in Ep as ->.
    destruct (cut "/" rest) as [[td path]|] eqn:Ec; [|done].
    apply cut_Some in Ec as [-> Hl]. case_bool_decide as Et; [done|].
    destruct (cut_prefix "svc/" path) as [n|] eqn:En; [|done].
    apply cut_prefix_Some in En as ->. destruct (ValidModule n) eqn:Hv; [|done].
    intros [= <-]. split; [done|]. exists td. done.
  - intros (Hv & td & Hne & Hl & ->). rewrite cut_prefix_app.
    change (td +:+ "/svc/" +:+ name) with (td +:+ String "/" ("svc/" +:+ name)).
    rewrite cut_app by done. rewrite bool_decide_eq_false_2 by done.
    rewrite cut_prefix_app. by rewrite Hv.
Qed.

(** Module role slugs: building and splitting are inverse, and the space
    "m.<module>.<slug>" is disjoint from the slugs an administrator can
    choose. *)
Theorem module_role_slug_iff s m d :
  (ParseModuleRoleSlug s = Some (m, d) ↔ ModuleRoleSlug m d = Ok s) ∧
  (ModuleRoleSlug m d = Ok s → ParseCustomSlug s = Err ErrMalformed).
Proof.
  assert (Hb : ModuleRoleSlug m d = Ok s ↔
    ValidModule m = true ∧ ValidRoleDefSlug d = true ∧ s = join "." ["m"; m; d]).
  { unfold ModuleRoleSlug.
    change (join "." ["m"; m; d]) with ("m." +:+ m +:+ "." +:+ d).
    destruct (ValidModule m), (ValidRoleDefSlug d); simpl; try (split; intros; naive_solver). }
  rewrite Hb. split; [split|].
  - unfold ParseModuleRoleSlug. destruct (split "." s) as [|a [|b [|c [|e l]]]] eqn:E; try done.
    destruct (bool_decide (a ≠ "m")) eqn:Ea; [done|]. simpl.
    destruct (ValidModule b) eqn:Hv; [|done]. destruct (ValidRoleDefSlug c) eqn:Hd; [|done].
    simpl. intros [= -> ->]. apply bool_decide_eq_false, dec_stable in Ea as ->.
    split; [done|]. split; [done|]. rewrite <- (join_split "." s), E. done.
  - intros (Hv & Hd & ->). unfold ParseModuleRoleSlug.
    rewrite split_join; [|done|repeat constructor; solve_lacks].
    rewrite bool_decide_eq_false_2 by auto. by rewrite Hv, Hd.
  - intros (_ & _ & ->). unfold ParseCustomSlug.
    destruct (re_match customRE (join "." ["m"; m; d])) eqn:E; [|done].
    exfalso. apply (re_match_lacks ".") in E; [|vm_compute; reflexivity].
    change (join "." ["m"; m; d]) with (String "m" (String "." (m +:+ "." +:+ d))) in E.
    apply lacks_cons in E as [_ E]. by apply lacks_cons in E as [E _].
Qed.

(** The slug of a custom role has 1 to 63 bytes and is not a built-in role's. *)
Lemma ParseCustomSlug_ok s x :
  ParseCustomSlug s = Ok x →
  x = s ∧ s ∉ ReservedSlugs ∧ s ≠ "" ∧ (String.length s <= 63)%nat.
Proof.
  unfold ParseCustomSlug, IsReserved. destruct (re_match customRE s) eqn:E; [|done]. simpl.
  case_bool_decide; [done|]. intros [= <-]. split_and!; try done.
  - by apply (re_match_nonempty customRE).
  - by apply re_match_length in E.
Qed.

Example parse_examples :
  ParseAny "lcm:certs:read" = Ok (mkRef "lcm" "certs" "read") ∧
  ParseAny "certs:read" = Ok (mkRef "" "certs" "read") ∧
  ParseAny "a:b:c:d" = Err ErrMalformed ∧ Parse ":b:c" = Err ErrMalformed ∧
  ModuleFromSPIFFE "spiffe://acme.org/svc/lcm" = Ok "lcm" ∧
  ModuleRoleSlug "lcm" "issuer" = Ok "m.lcm.issuer" ∧
  ParseCustomSlug "owner" = Err ErrMalformed.
Proof. vm_compute. done. Qed.
