(* ===== verification/TenantCtx.v ===== *)
(** * Actors and the tenant guard (internal/tenantctx/tenantctx.go)

    The verified caller of a request travels in the Go context; [Ctx] holds
    the two values the package stores there.  [Require] is the guard every
    access path runs first; the second component of its result is the refusal
    handed to the [OnRefusal] callback, if any. *)
From S2P Require Import Prelude GoStrings Regex PermRef.

(** [KindNone] is the zero value of the Go string type. *)
Inductive Kind : Type := KindNone | KindUser | KindOperator | KindService | KindSystem.
#[global] Instance Kind_eq_dec : EqDecision Kind.
Proof. solve_decision. Defined.

Record Actor : Type := mkActor {
  AKind : Kind;
  AUserID : string;
  ATenantID : string;
  ASessionID : string;
  ARoles : list string;
  AAMR : list string;
  AServiceID : string;
  ADisplayName : string;
  AAvatarURL : string;
}.
#[global] Instance Actor_eq_dec : EqDecision Actor.
Proof. solve_decision. Defined.

(** The zero Actor, and an actor with only a kind set. *)
Definition actor0 : Actor := mkActor KindNone "" "" "" [] [] "" "" "".
Definition actor_of_kind (k : Kind) : Actor := mkActor k "" "" "" [] [] "" "" "".

Definition AvatarURL (userID : string) (avatarID : option string) : string :=
  match avatarID with
  | None => ""
  | Some a => if bool_decide (a = "") then ""
              else "/api/v1/users/" +:+ userID +:+ "/avatar/" +:+ a
  end.

Definition HasRole (a : Actor) (slug : string) : bool :=
  existsb (λ r, bool_decide (r = slug)) (ARoles a).
Definition IsOwner (a : Actor) : bool := HasRole a "owner".
Definition IsAdmin (a : Actor) : bool := IsOwner a || HasRole a "admin".

Record Grant : Type := mkGrant { GID : string; GTenantID : string }.
#[global] Instance Grant_eq_dec : EqDecision Grant.
Proof. solve_decision. Defined.

Record Ctx : Type := mkCtx { ctx_actor : option Actor; ctx_grant : option Grant }.

Definition WithActor (c : Ctx) (a : Actor) : Ctx := mkCtx (Some a) (ctx_grant c).
Definition WithOperatorGrant (c : Ctx) (id tid : string) : Ctx :=
  mkCtx (ctx_actor c) (Some (mkGrant id tid)).
Definition FromContext (c : Ctx) : option Actor := ctx_actor c.
Definition OperatorGrant (c : Ctx) : option Grant := ctx_grant c.
(** [sys := tenantctx.WithActor(ctx, Actor{Kind: KindSystem})] *)
Definition SystemCtx (c : Ctx) : Ctx := WithActor c (actor_of_kind KindSystem).

Definition ValidTenantID (s : string) : bool := re_match tenantRE s.

Record Refusal : Type := mkRefusal {
  RefActor : Actor; RefActorTenant : string; RefTarget : string; RefReason : string }.

(** [Guard.Require], with the argument of [g.refuse] when it is called. *)
Definition Require (ctx : Ctx) (tenantID : string) : result unit * option Refusal :=
  match FromContext ctx with
  | None => (Err ErrNoActor, None)
  | Some a =>
      let refuse reason := Some (mkRefusal a (ATenantID a) tenantID reason) in
      if bool_decide (tenantID = "") then (Err ErrCrossTenant, refuse "empty_tenant")
      else match AKind a with
           | KindService | KindSystem => (Ok tt, None)
           | KindOperator =>
               if bool_decide (ATenantID a = tenantID) then (Ok tt, None)
               else match OperatorGrant ctx with
                    | Some gr => if bool_decide (GTenantID gr = tenantID) then (Ok tt, None)
                                 else (Err ErrNoOperatorGrant, refuse "no_operator_grant")
                    | None => (Err ErrNoOperatorGrant, refuse "no_operator_grant")
                    end
           | KindUser | KindNone =>
               if bool_decide (ATenantID a = tenantID) then (Ok tt, None)
               else (Err ErrCrossTenant, refuse "cross_tenant")
           end
  end.

(** Who may act inside a tenant: the policy the guard enforces. *)
Definition may_enter (ctx : Ctx) (tid : string) : Prop :=
  ∃ a, ctx_actor ctx = Some a ∧ tid ≠ "" ∧
    (AKind a = KindService ∨ AKind a = KindSystem ∨ ATenantID a = tid ∨
     (AKind a = KindOperator ∧ ∃ g, ctx_grant ctx = Some g ∧ GTenantID g = tid)).

Lemma HasRole_spec a slug : HasRole a slug = true ↔ slug ∈ ARoles a.
Proof.
  unfold HasRole. rewrite existsb_exists. setoid_rewrite bool_decide_eq_true.
  rewrite list_elem_of_In. naive_solver.
Qed.

Lemma Require_system c tid : tid ≠ "" → Require (SystemCtx c) tid = (Ok tt, None).
Proof. intros H. unfold Require, SystemCtx, WithActor. simpl. by rewrite bool_decide_eq_false_2. Qed.

Lemma Require_ok_iff ctx tid : (Require ctx tid).1 = Ok tt ↔ may_enter ctx tid.
Proof.
  unfold Require, may_enter, FromContext, OperatorGrant.
  destruct (ctx_actor ctx) as [a|]; [|naive_solver].
  case_bool_decide; [naive_solver|].
  destruct (AKind a) eqn:Hk; repeat case_bool_decide;
    destruct (ctx_grant ctx) as [g|]; repeat case_bool_decide; simpl;
    (split; [intros E; try done; exists a; eauto 10
            |intros (a' & [= <-] & _ & [?|[?|[?|(? & g' & Hg & ?)]]]); congruence]).
Qed.

Lemma Require_ok_actor ctx tid o :
  Require ctx tid = (Ok tt, o) → ∃ a, ctx_actor ctx = Some a ∧ tid ≠ "" ∧ o = None.
Proof.
  unfold Require, FromContext, OperatorGrant. destruct (ctx_actor ctx) as [a|]; [|done].
  case_bool_decide; [done|]. intros E. exists a. split_and!; try done.
  repeat (first [split_match_in E | case_bool_decide]; try congruence).
Qed.

(** The guard admits exactly the callers the policy names: services and the
    system anywhere, a user or operator in their own tenant, an operator with
    an active grant in the granted tenant; nobody in the empty tenant.  Every
    refusal of a present actor is reported once with the actor and the target,
    and an admission is never reported. *)
Theorem guard_require_sound_complete ctx tid :
  ((Require ctx tid).1 = Ok tt ↔ may_enter ctx tid) ∧
  (∀ o, (Require ctx tid).2 = Some o →
     (Require ctx tid).1 ≠ Ok tt ∧ ctx_actor ctx = Some (RefActor o) ∧
     RefActorTenant o = ATenantID (RefActor o) ∧ RefTarget o = tid) ∧
  ((Require ctx tid).2 = None → (Require ctx tid).1 = Ok tt ∨ ctx_actor ctx = None).
Proof.
  split; [apply Require_ok_iff|].
  unfold Require, FromContext, OperatorGrant. destruct (ctx_actor ctx) as [a|]; [|naive_solver].
  case_bool_decide; [naive_solver|].
  destruct (AKind a) eqn:Hk; repeat case_bool_decide;
    destruct (ctx_grant ctx) as [g|]; repeat case_bool_decide; simpl; naive_solver.
Qed.
