(* ===== verification/Models.v ===== *)
(** * Tenant policies and the rows of the store
      (internal/tenant/policy.go, internal/store/models.go)

    A stored policy is JSON; [RawPolicy] is what decoding it can do to the
    defaults: nothing (no bytes), fail, or override the fields it carries.
    Optional columns ([*T] in the source) are options, times are nanoseconds. *)
From S2P Require Import Prelude GoStrings Regex PermRef TenantCtx.

(** ** SecurityPolicy *)
Record Policy : Type := mkPolicy {
  SessionLifetime : Z;
  IdleTimeout : Z;
  AccessTokenLifetime : Z;
  PasswordMinLength : Z;
  MFARequired : bool;
  LockoutThreshold : Z;
  LockoutDuration : Z;
}.
#[global] Instance Policy_eq_dec : EqDecision Policy.
Proof. solve_decision. Defined.

Definition MaxSessionLifetime : Z := 24 * Dur.hour.
Definition MaxAccessTokenLifetime : Z := 15 * Dur.minute.
Definition MinPasswordLength : Z := 8.

Definition DefaultPolicy : Policy :=
  mkPolicy (8 * Dur.hour) Dur.hour (15 * Dur.minute) 12 false 10 (15 * Dur.minute).

(** The zero value returned with a decoding error. *)
Definition Policy0 : Policy := mkPolicy 0 0 0 0 false 0 0.

(** Fields a JSON document may carry. *)
Record PolicyFields : Type := mkFields {
  fSessionLifetime : option Z;
  fIdleTimeout : option Z;
  fAccessTokenLifetime : option Z;
  fPasswordMinLength : option Z;
  fMFARequired : option bool;
  fLockoutThreshold : option Z;
  fLockoutDuration : option Z;
}.
#[global] Instance PolicyFields_eq_dec : EqDecision PolicyFields.
Proof. solve_decision. Defined.
Inductive RawPolicy : Type := RawEmpty | RawBad | RawFields (f : PolicyFields).
#[global] Instance RawPolicy_eq_dec : EqDecision RawPolicy.
Proof. solve_decision. Defined.

(** json.Unmarshal into a policy: absent fields keep their value. *)
Definition override (f : PolicyFields) (p : Policy) : Policy :=
  mkPolicy (default (SessionLifetime p) (fSessionLifetime f))
           (default (IdleTimeout p) (fIdleTimeout f))
           (default (AccessTokenLifetime p) (fAccessTokenLifetime f))
           (default (PasswordMinLength p) (fPasswordMinLength f))
           (default (MFARequired p) (fMFARequired f))
           (default (LockoutThreshold p) (fLockoutThreshold f))
           (default (LockoutDuration p) (fLockoutDuration f)).

Definition Validate (p : Policy) : option err :=
  if (SessionLifetime p <=? 0)%Z || (MaxSessionLifetime <? SessionLifetime p)%Z then Some ErrPolicy
  else if (IdleTimeout p <=? 0)%Z || (SessionLifetime p <? IdleTimeout p)%Z then Some ErrPolicy
  else if (AccessTokenLifetime p <=? 0)%Z || (MaxAccessTokenLifetime <? AccessTokenLifetime p)%Z
       then Some ErrPolicy
  else if (PasswordMinLength p <? MinPasswordLength)%Z || (256 <? PasswordMinLength p)%Z
       then Some ErrPolicy
  else if (LockoutThreshold p <? 3)%Z || (20 <? LockoutThreshold p)%Z then Some ErrPolicy
  else if (LockoutDuration p <? Dur.minute)%Z || (Dur.hour <? LockoutDuration p)%Z
       then Some ErrPolicy
  else None.

(** Go returns the policy together with the error, and some callers use it
    although the error is set; hence the pair. *)
Definition ParsePolicy (raw : RawPolicy) (platform : bool) : Policy * option err :=
  let finish p := let p := if platform
                           then mkPolicy (SessionLifetime p) (IdleTimeout p) (AccessTokenLifetime p)
                                  (PasswordMinLength p) true (LockoutThreshold p) (LockoutDuration p)
                           else p in (p, Validate p) in
  match raw with
  | RawEmpty => finish DefaultPolicy
  | RawBad => (Policy0, Some ErrPolicy)
  | RawFields f => finish (override f DefaultPolicy)
  end.

Definition policy_in_range (p : Policy) : Prop :=
  (0 < IdleTimeout p <= SessionLifetime p ∧ SessionLifetime p <= 24 * Dur.hour ∧
   0 < AccessTokenLifetime p <= 15 * Dur.minute ∧ 8 <= PasswordMinLength p <= 256 ∧
   3 <= LockoutThreshold p <= 20 ∧ Dur.minute <= LockoutDuration p <= Dur.hour)%Z.

Lemma Validate_spec p : Validate p = None ↔ policy_in_range p.
Proof.
  unfold Validate, policy_in_range, MaxSessionLifetime, MaxAccessTokenLifetime, MinPasswordLength.
  repeat match goal with
  | |- context [if ?b || ?c then _ else _] => destruct b eqn:?; destruct c eqn:?; simpl; bool_prop
  end; split; intros H; first [done | lia].
Qed.

(** A policy that parses is inside the documented ranges, a platform tenant
    always demands MFA, the absent document yields the defaults, and each
    field the document carries is taken from it. *)
Theorem parse_policy_spec raw platform p :
  ParsePolicy raw platform = (p, None) →
  policy_in_range p ∧ (platform = true → MFARequired p = true) ∧
  match raw with
  | RawEmpty => platform = false → p = DefaultPolicy
  | RawBad => False
  | RawFields f =>
      (∀ z, fSessionLifetime f = Some z → SessionLifetime p = z) ∧
      (∀ z, fIdleTimeout f = Some z → IdleTimeout p = z) ∧
      (∀ z, fLockoutThreshold f = Some z → LockoutThreshold p = z) ∧
      (fIdleTimeout f = None → IdleTimeout p = Dur.hour) ∧
      (platform = false → ∀ b, fMFARequired f = Some b → MFARequired p = b)
  end.
Proof.
  unfold ParsePolicy. intros H.
  assert (Hr : policy_in_range p).
  { apply Validate_spec. destruct raw; [|done|]; by injection H as <- ?. }
  split; [done|]. clear Hr.
  destruct raw as [| |f]; [|done|]; injection H as <- _; destruct platform; split; try done.
  all: repeat split; intros; simpl; try done;
       match goal with H : _ = _ |- _ => by rewrite H end.
Qed.

Lemma parse_policy_spec_witness :
  policy_in_range (mkPolicy (8 * Dur.hour) (2 * Dur.hour) (15 * Dur.minute) 12 true 10 (15 * Dur.minute)).
Proof.
  apply (parse_policy_spec (RawFields (mkFields None (Some (2 * Dur.hour)%Z) None None None None None)) true).
  vm_compute. reflexivity.
Defined.

(** ** Rows *)
Record Tenant : Type := mkTenant {
  TID : string; TSlug : string; TDisplayName : string; TStatus : string; TKind : string;
  TPolicy : RawPolicy;
}.
Definition Tenant0 : Tenant := mkTenant "" "" "" "" "" RawEmpty.

Record User : Type := mkUser {
  UID : string; UTenantID : string; UEmail : string; UDisplayName : string; UStatus : string;
  UPasswordHash : option string;
  UMFAEnabled : bool;
  UMFASecretEnc : option string;
  UMFALastCounter : Z;
  UAvatarID : option string;
  ULastSigninAt : option Z;
  UFirstName : string; ULastName : string; UDisplayNameExplicit : bool;
}.
Definition User0 : User := mkUser "" "" "" "" "" None false None 0 None None "" "" false.
#[global] Instance User_eq_dec : EqDecision User.
Proof. solve_decision. Defined.

Record Session : Type := mkSession {
  SID : string; STenantID : string; SUserID : string;
  SSecretHash : string;
  SAMR : list string;
  SCreatedAt : Z; SLastSeen : Z; SExpiresAt : Z;
  SIPHash : string; SUserAgent : string;
  SRevokedAt : option Z; SRevokedReason : option string;
}.
#[global] Instance Session_eq_dec : EqDecision Session.
Proof. solve_decision. Defined.

(** The kinds of feed entries are strings in the source; "session", "user"
    and "tenant" are the only ones with a meaning. *)
Record Revocation : Type := mkRevocation {
  RevTS : Z; RevKind : string; RevSubjectID : string; RevTenantID : string; RevReason : string }.
#[global] Instance Revocation_eq_dec : EqDecision Revocation.
Proof. solve_decision. Defined.

Definition OriginBuiltin := "builtin".
Definition OriginModule := "module".
Definition OriginCustom := "custom".

Record Role : Type := mkRole {
  RoID : string; RoTenantID : string; RoSlug : string; RoDisplayName : string;
  RoBuiltin : bool; RoOrigin : string; RoModule : string; RoModuleSlug : string;
  RoDescription : string; RoRetiredAt : option Z }.
#[global] Instance Role_eq_dec : EqDecision Role.
Proof. solve_decision. Defined.

Definition OriginOf (r : Role) : string :=
  if bool_decide (RoOrigin r ≠ "") then RoOrigin r
  else if RoBuiltin r then OriginBuiltin else OriginCustom.

Record Permission : Type := mkPermission {
  PModule : string; PResource : string; PAction : string; PDescription : string }.
#[global] Instance Permission_eq_dec : EqDecision Permission.
Proof. solve_decision. Defined.
Definition PermissionRefOf (p : Permission) : Ref := mkRef (PModule p) (PResource p) (PAction p).

(** The platform catalogue of modules. *)
Record Module_ : Type := mkModule {
  MdName : string; MdDisplayName : string; MdRegisteredAt : Z; MdUpdatedAt : Z; MdRetiredAt : option Z }.
Record ModulePermission : Type := mkModulePermission {
  MpModule : string; MpResource : string; MpAction : string; MpDescription : string; MpRetiredAt : option Z }.
Record ModuleRoleDef : Type := mkRoleDef {
  RdModule : string; RdSlug : string; RdDisplayName : string; RdDescription : string; RdPermissions : list string;
  RdUpdatedAt : Z; RdRetiredAt : option Z }.
Record TenantModule : Type := mkTenantModule {
  TmTenantID : string; TmModule : string; TmFirstRegisteredAt : Z; TmLegacyMigratedAt : option Z }.

Record Group : Type := mkGroup {
  GrID : string; GrTenantID : string; GrName : string; GrDescription : string;
  GrCreatedBy : option string }.
#[global] Instance Group_eq_dec : EqDecision Group.
Proof. solve_decision. Defined.

Record EffectiveRoleRow : Type := mkERR {
  ERoleID : string; ESlug : string; ESource : string; EGroupID : string; EGroupName : string }.
#[global] Instance EffectiveRoleRow_eq_dec : EqDecision EffectiveRoleRow.
Proof. solve_decision. Defined.

Record WebAuthnCredential : Type := mkCredential {
  WcID : string; WcTenantID : string; WcUserID : string; WcCredentialID : string;
  WcSignCount : Z; WcName : string; WcCreatedAt : Z; WcLastUsedAt : option Z; WcCloneFlaggedAt : option Z;
  WcPublicKey : string; WcAAGUID : string; WcTransports : list string; WcBackupEligible : bool; WcBackupState : bool }.
#[global] Instance WebAuthnCredential_eq_dec : EqDecision WebAuthnCredential.
Proof. solve_decision. Defined.

Record Invitation : Type := mkInvitation {
  IvID : string; IvTenantID : string; IvEmail : string; IvRoleIDs : list string; IvGroupIDs : list string;
  IvFirstName : string; IvLastName : string; IvTokenHash : string; IvInvitedBy : option string;
  IvExpiresAt : Z; IvAcceptedAt : option Z; IvRevokedAt : option Z }.
#[global] Instance Invitation_eq_dec : EqDecision Invitation.
Proof. solve_decision. Defined.

Record RecoveryRequest : Type := mkRecovery {
  RcID : string; RcTenantID : string; RcUserID : string; RcTokenHash : string; RcExpiresAt : Z; RcUsedAt : option Z }.
#[global] Instance RecoveryRequest_eq_dec : EqDecision RecoveryRequest.
Proof. solve_decision. Defined.

Record OutboxItem : Type := mkOutbox {
  ObID : string; ObTenantID : string; ObKind : string; ObToEmail : string; ObPayloadEnc : string;
  ObAttempts : Z; ObNextAttemptAt : Z }.
#[global] Instance OutboxItem_eq_dec : EqDecision OutboxItem.
Proof. solve_decision. Defined.

Record ClientApplication : Type := mkClient {
  CaClientID : string; CaTenantID : string; CaDisplayName : string; CaRedirectURIs : list string;
  CaPublic : bool; CaSecretHash : option string }.
#[global] Instance ClientApplication_eq_dec : EqDecision ClientApplication.
Proof. solve_decision. Defined.

Record DirectoryConnection : Type := mkConnection {
  DcID : string; DcTenantID : string; DcName : string; DcKind : string; DcURL : string; DcTLSMode : string;
  DcAllowTLS12 : bool; DcCAPEM : string; DcBindDN : string; DcBindPasswordEnc : string; DcBaseDN : string; DcBaseFilter : string;
  DcAttrUID : string; DcAttrEmail : string; DcAttrDisplayName : string; DcAttrFirstName : string; DcAttrLastName : string;
  DcSizeLimit : Z; DcTimeLimitSeconds : Z; DcLastTestAt : option Z; DcLastTestOutcome : option string;
  DcCreatedBy : option string; DcUpdatedBy : option string; DcCreatedAt : Z; DcUpdatedAt : Z }.
#[global] Instance DirectoryConnection_eq_dec : EqDecision DirectoryConnection.
Proof. solve_decision. Defined.

Record DirectoryLink : Type := mkLink {
  DlUserID : string; DlTenantID : string; DlConnectionID : option string; DlConnectionName : string;
  DlDirectoryUID : string; DlDirectoryDN : string; DlFirstImportedAt : Z; DlLastImportedAt : Z; DlImportedBy : option string }.
#[global] Instance DirectoryLink_eq_dec : EqDecision DirectoryLink.
Proof. solve_decision. Defined.

Record ImportedProfile : Type := mkProfile {
  IpfEmail : string; IpfDisplayName : string; IpfFirstName : string; IpfLastName : string; IpfDisplayNameExplicit : bool }.
