(* ===== verification/Utf8.v ===== *)
(** * Runes (unicode/utf8)

    The code points a [range] over a string yields: an invalid byte is the
    rune U+FFFD of width one. *)
From S2P Require Import Prelude GoStrings.
#[local] Open Scope Z_scope.

Definition RuneError : Z := 65533.

Definition byteZ (c : ascii) : Z := Z.of_nat (code c).
Definition cont_in (lo hi : Z) (c : ascii) : bool := (lo <=? byteZ c) && (byteZ c <=? hi).
Definition low6 (c : ascii) : Z := byteZ c mod 64.

(** utf8.DecodeRuneInString of [String c r]: the rune and the rest. *)
Definition decode_rune (c : ascii) (r : string) : Z * string :=
  let b := byteZ c in
  let bad := (RuneError, r) in
  let three lo hi :=
    match r with
    | String c1 (String c2 r') =>
        if cont_in lo hi c1 && cont_in 128 191 c2
        then ((b mod 16) * 4096 + low6 c1 * 64 + low6 c2, r') else bad
    | _ => bad
    end in
  let four lo hi :=
    match r with
    | String c1 (String c2 (String c3 r')) =>
        if cont_in lo hi c1 && cont_in 128 191 c2 && cont_in 128 191 c3
        then ((b mod 8) * 262144 + low6 c1 * 4096 + low6 c2 * 64 + low6 c3, r') else bad
    | _ => bad
    end in
  if b <? 128 then (b, r)
  else if (194 <=? b) && (b <=? 223) then
    match r with
    | String c1 r' => if cont_in 128 191 c1 then ((b mod 32) * 64 + low6 c1, r') else bad
    | _ => bad
    end
  else if b =? 224 then three 160 191
  else if b =? 237 then three 128 159
  else if (225 <=? b) && (b <=? 239) then three 128 191
  else if b =? 240 then four 144 191
  else if (241 <=? b) && (b <=? 243) then four 128 191
  else if b =? 244 then four 128 143
  else bad.

Lemma decode_rune_shorter c r : (String.length (decode_rune c r).2 <= String.length r)%nat.
Proof.
  unfold decode_rune. repeat case_match; cbn [String.length snd]; try lia.
Qed.

(** Each rune takes at least one byte, so the length is enough fuel. *)
Fixpoint runes_from (fuel : nat) (s : string) : list Z :=
  match fuel, s with
  | O, _ | _, EmptyString => []
  | S n, String c r => let '(x, r') := decode_rune c r in x :: runes_from n r'
  end.
Definition runes (s : string) : list Z := runes_from (String.length s) s.
Definition RuneCount (s : string) : nat := length (runes s).

Lemma runes_from_enough n m s : (String.length s <= n)%nat → (n <= m)%nat → runes_from m s = runes_from n s.
Proof.
  revert m s. induction n as [|n IH]; intros m [|c s] Hl Hm; cbn in Hl; [by destruct m|lia|by destruct m|].
  destruct m as [|m]; [lia|]. cbn. pose proof (decode_rune_shorter c s). destruct (decode_rune c s) as [x r].
  f_equal. apply IH; cbn in *; lia.
Qed.
Lemma runes_cons c s : runes (String c s) = (decode_rune c s).1 :: runes (decode_rune c s).2.
Proof.
  unfold runes at 1. cbn. pose proof (decode_rune_shorter c s). destruct (decode_rune c s) as [x r]. cbn in *.
  f_equal. by apply runes_from_enough.
Qed.
Lemma RuneCount_le s : (RuneCount s <= String.length s)%nat.
Proof.
  unfold RuneCount, runes. assert (H : ∀ n s, (length (runes_from n s) <= n)%nat); [|apply H].
  induction n as [|n IH]; intros t; [done|]. destruct t as [|c t]; cbn; [lia|]. destruct (decode_rune c t) as [x r].
  cbn. specialize (IH r). lia.
Qed.

(** Plain ASCII has one rune per byte. *)
Example runes_examples :
  runes "aZ~" = [97; 90; 126] ∧ runes (bytes [195; 169; 226; 130; 172]%nat) = [233; 8364] ∧
  runes (bytes [240; 159; 152; 128; 255]%nat) = [128512; RuneError] ∧ RuneCount (bytes [237; 160; 128]%nat) = 3%nat.
Proof. vm_compute. done. Qed.

(** ** Validity and encoding *)
(** utf8.ValidString: an undecodable byte has width one. *)
Fixpoint valid_from (fuel : nat) (s : string) : bool :=
  match fuel, s with
  | O, _ | _, EmptyString => true
  | S n, String c r =>
      let r' := (decode_rune c r).2 in
      if (128 <=? byteZ c) && (String.length r' =? String.length r)%nat then false else valid_from n r'
  end.
Definition ValidString (s : string) : bool := valid_from (String.length s) s.
Definition chr (z : Z) : ascii := ascii_of_nat (Z.to_nat z).
(** utf8.AppendRune *)
Definition encode_rune (r : Z) : string :=
  if r <? 128 then String (chr r) ""
  else if r <? 2048 then String (chr (192 + r / 64)) (String (chr (128 + r mod 64)) "")
  else if r <? 65536 then String (chr (224 + r / 4096)) (String (chr (128 + r / 64 mod 64)) (String (chr (128 + r mod 64)) ""))
  else String (chr (240 + r / 262144)) (String (chr (128 + r / 4096 mod 64)) (String (chr (128 + r / 64 mod 64)) (String (chr (128 + r mod 64)) ""))).
(** The runes of strings.ToValidUTF8(s, "\uFFFD"): a run of undecodable bytes
    is one replacement rune. *)
Fixpoint valid_runes (fuel : nat) (bad : bool) (s : string) : list Z :=
  match fuel, s with
  | O, _ | _, EmptyString => []
  | S n, String c r =>
      let '(x, r') := decode_rune c r in
      if (128 <=? byteZ c) && (String.length r' =? String.length r)%nat
      then (if bad then [] else [RuneError]) ++ valid_runes n true r'
      else x :: valid_runes n false r'
  end.
(** unicode.IsControl *)
Definition IsControl (r : Z) : bool := ((0 <=? r) && (r <? 32)) || ((127 <=? r) && (r <? 160)).
(** utf8.RuneStart *)
Definition RuneStart (c : ascii) : bool := negb ((128 <=? byteZ c) && (byteZ c <? 192)).

Example valid_examples :
  ValidString (bytes [195; 169; 226; 130; 172]%nat) = true ∧ ValidString (bytes [255]%nat) = false ∧ ValidString (bytes [195]%nat) = false ∧
  ValidString (bytes [239; 191; 189]%nat) = true ∧
  foldr (λ r s, encode_rune r +:+ s) "" (valid_runes 9 false (bytes [97; 255; 254; 195; 169; 240; 159; 146; 169]%nat))
    = bytes [97; 239; 191; 189; 195; 169; 240; 159; 146; 169]%nat.
Proof. vm_compute. repeat split; reflexivity. Qed.
