(* ===== verification/LdapPolicy.v ===== *)
(** * The dial policy of directory connections (internal/ldapdir/policy.go)

    A target is checked twice: when its URL is saved ([CheckURL]) and, on the
    resolved address, whenever a connection is dialled ([Control]).  url.Parse
    is a parameter. *)
From S2P Require Import Prelude GoStrings Netip.
#[local] Open Scope list_scope.

Definition ErrTargetRefused : err := ErrText "ldapdir: target refused".
Definition ErrInvalidURL : err := ErrText "ldapdir: invalid directory URL".
Definition defaultLDAPPort : Z := 389.
Definition defaultLDAPSPort : Z := 636.
Definition thisNetwork : Prefix := mkPrefix (Addr4 0) 8.

Record Endpoint : Type := mkEndpoint { EpScheme : string; EpHost : string; EpPort : Z }.
Definition EndpointAddr (e : Endpoint) : string := JoinHostPort (EpHost e) (FormatInt (EpPort e)).

Record DirectoryTargets : Type := mkTargets { DenyCIDRs : list string; AllowCIDRs : list string; AllowedPorts : list Z }.
Record TargetPolicy : Type := mkTargetPolicy { tp_deny : list Prefix; tp_allow : list Prefix; tp_ports : list Z }.

Fixpoint parsePrefixes (field : string) (l : list string) : result (list Prefix) :=
  match l with
  | [] => Ok []
  | s :: l' =>
      match ParsePrefix s with
      | None => Err (ErrText ("ldapdir: " +:+ field +:+ ": not a CIDR"))
      | Some p => rbind (parsePrefixes field l') (λ ps, Ok (Masked p :: ps))
      end
  end.

Definition NewTargetPolicy (cfg : DirectoryTargets) : result TargetPolicy :=
  rbind (parsePrefixes "deny_cidrs" (DenyCIDRs cfg)) (λ deny,
  rbind (parsePrefixes "allow_cidrs" (AllowCIDRs cfg)) (λ allow,
  if bool_decide (AllowedPorts cfg = []) then Err (ErrText "ldapdir: allowed_ports must list at least one port")
  else if negb (forallb (λ p, (1 <=? p)%Z && (p <=? 65535)%Z) (AllowedPorts cfg))
  then Err (ErrText "ldapdir: allowed_ports")
  else Ok (mkTargetPolicy deny allow (AllowedPorts cfg)))).

Definition allDigits (s : string) : bool := str_all is_digit s.
Definition parsePort (s : string) : option Z :=
  if bool_decide (s = "") || (5 <? String.length s)%nat || negb (allDigits s) then None
  else match ParseInt s with
       | Some n => if (1 <=? n)%Z && (n <=? 65535)%Z then Some n else None
       | None => None
       end.

Definition notHostnameChar (c : ascii) : bool :=
  negb (in_range "a" "z" c || in_range "A" "Z" c || is_digit c || is_char "-" c || is_char "_" c).
Definition ends_with (c : ascii) (s : string) : bool := bool_decide (last_index_byte c s = Some (Nat.pred (String.length s))).
Definition validLabel (l : string) : bool :=
  negb (bool_decide (l = "") || (63 <? String.length l)%nat || bool_decide (String.get 0 l = Some "-"%char) || ends_with "-" l)
  && str_all (λ c, negb (notHostnameChar c)) l.
Definition validHostname (h : string) : bool :=
  let h := trim_suffix_byte "." h in
  if bool_decide (h = "") || (253 <? String.length h)%nat then false
  else forallb validLabel (split "." h) && negb (allDigits (default "" (last (split "." h)))).

Definition inAny (ps : list Prefix) (ip : Addr) : bool :=
  existsb (λ pf, Contains pf ip || (Is4 ip && Contains pf (As6 ip))) ps.

Definition checkPort (p : TargetPolicy) (port : Z) : result unit :=
  if bool_decide (port ∈ tp_ports p) then Ok tt else Err ErrTargetRefused.

Definition checkIP (p : TargetPolicy) (ip : Addr) : result unit :=
  let ip := Unmap ip in
  if IsUnspecified ip || IsLoopback ip || IsLinkLocalUnicast ip || IsMulticast ip || Contains thisNetwork ip
  then Err ErrTargetRefused
  else if inAny (tp_deny p) ip && negb (inAny (tp_allow p) ip) then Err ErrTargetRefused
  else Ok tt.

Definition Control (p : TargetPolicy) (network address : string) : result unit :=
  if negb (bool_decide (network ∈ ["tcp"; "tcp4"; "tcp6"])) then Err ErrTargetRefused else
  match SplitHostPort address with
  | None => Err ErrTargetRefused
  | Some (host, port) =>
      match parsePort port with
      | None => Err ErrTargetRefused
      | Some n =>
          match ParseAddr host with
          | None => Err ErrTargetRefused
          | Some ip =>
              if negb (bool_decide (Zone ip = "")) then Err ErrTargetRefused
              else rbind (checkPort p n) (λ _, checkIP p ip)
          end
      end
  end.

(** host, port text and whether the host is an address literal; [after] is the
    common end of the function, on the text after the host. *)
Definition after (rest host : string) (isIP : bool) : result (string * string * bool) :=
  match rest with
  | "" => Ok (host, "", isIP)
  | String c port => if negb (is_char ":" c) || bool_decide (port = "") then Err ErrInvalidURL else Ok (host, port, isIP)
  end.
Definition splitURLHost (h : string) : result (string * string * bool) :=
  if bool_decide (String.get 0 h = Some "["%char) then
    match index_byte "]" h with
    | None => Err ErrInvalidURL
    | Some e =>
        let host := String.substring 1 (e - 1) h in
        let rest := String.substring (S e) (String.length h) h in
        match ParseAddr host with
        | Some ip => if negb (Is6 ip) || negb (bool_decide (Zone ip = "")) then Err ErrInvalidURL else after rest host true
        | None => Err ErrInvalidURL
        end
    end
  else
    let '(host, rest) := match index_byte ":" h with
                         | Some i => (String.substring 0 i h, String.substring i (String.length h) h)
                         | None => (h, "")
                         end in
    match ParseAddr host with
    | Some (Addr4 _) => after rest host true
    | _ => if validHostname host then after rest host false else Err ErrInvalidURL
    end.

(** The parts of url.URL that are read. *)
Record URL : Type := mkURL {
  UrlScheme : string; UrlOpaque : string; UrlUser : bool; UrlHost : string; UrlPath : string; UrlRawPath : string }.

Section CheckURL.
Context (url_Parse : string → option URL).
Definition CheckURL (p : TargetPolicy) (raw : string) : result Endpoint :=
  if bool_decide (raw = "") || negb (str_all (λ c, (32 <? code c)%nat && negb (code c =? 127)%nat) raw) then Err ErrInvalidURL
  else if contains_any ["?"; "#"]%char raw then Err ErrInvalidURL
  else match url_Parse raw with
  | None => Err ErrInvalidURL
  | Some u =>
      if negb (bool_decide (UrlScheme u ∈ ["ldap"; "ldaps"])) then Err ErrInvalidURL else
      let defPort := if bool_decide (UrlScheme u = "ldap") then defaultLDAPPort else defaultLDAPSPort in
      if negb (bool_decide (UrlOpaque u = "")) || UrlUser u || negb (bool_decide (UrlPath u = "")) || negb (bool_decide (UrlRawPath u = ""))
      then Err ErrInvalidURL else
      rbind (splitURLHost (UrlHost u)) (λ '(host, portStr, isIP),
      rbind (if bool_decide (portStr = "") then Ok defPort
             else match parsePort portStr with Some n => Ok n | None => Err ErrInvalidURL end) (λ port,
      rbind (checkPort p port) (λ _,
      rbind (if isIP then match ParseAddr host with Some ip => checkIP p ip | None => Err ErrInvalidURL end else Ok tt) (λ _,
      Ok (mkEndpoint (UrlScheme u) host port)))))
  end.
End CheckURL.

(** ** The policy as ranges of integers *)
#[local] Open Scope Z_scope.

(** The address a packet to [ip] goes to: IPv4-mapped IPv6 is IPv4. *)
Definition canonical (ip : Addr) : Addr :=
  match ip with
  | Addr6 a _ => if decide (65535 * 2 ^ 32 <= a < 65536 * 2 ^ 32) then Addr4 (a - 65535 * 2 ^ 32) else ip
  | Addr4 _ => ip
  end.

(** 0.0.0.0/8, 127.0.0.0/8, 169.254.0.0/16 and 224.0.0.0/4; ::, ::1,
    fe80::/10 and ff00::/8. *)
Definition never_dialled (ip : Addr) : Prop :=
  match ip with
  | Addr4 a => a < 2 ^ 24 ∨ 127 * 2 ^ 24 <= a < 128 * 2 ^ 24 ∨
               43518 * 2 ^ 16 <= a < 43519 * 2 ^ 16 ∨ 224 * 2 ^ 24 <= a < 240 * 2 ^ 24
  | Addr6 a _ => a = 0 ∨ a = 1 ∨ 65152 * 2 ^ 112 <= a < 65216 * 2 ^ 112 ∨ 255 * 2 ^ 120 <= a
  end.

(** Some prefix has the leading bits of the address, an IPv4 address also
    counting as its IPv4-mapped form. *)
Definition covers (p : Prefix) (ip : Addr) : Prop :=
  in_prefix p ip ∨ ∃ a, ip = Addr4 a ∧ in_prefix p (Addr6 (65535 * 2 ^ 32 + a) "").
Definition covered (cidrs : list string) (ip : Addr) : Prop :=
  ∃ s p, s ∈ cidrs ∧ ParsePrefix s = Some p ∧ covers p ip.

Lemma map4_add a : 0 <= a < 2 ^ 32 → map4 a = 65535 * 2 ^ 32 + a.
Proof.
  intros Ha. unfold map4. pose proof (Z.add_lor_land (Z.shiftl 65535 32) a) as E.
  assert (L : Z.land (Z.shiftl 65535 32) a = 0); [|rewrite L, Z.shiftl_mul_pow2 in E by lia; rewrite Z.shiftl_mul_pow2 by lia; lia].
  apply Z.bits_inj'. intros i Hi. rewrite Z.land_spec, Z.bits_0.
  destruct (Z.ltb_spec i 32); [by rewrite Z.shiftl_spec_low|].
  rewrite <- (Z.mod_small a (2 ^ 32)), Z.mod_pow2_bits_high, andb_false_r by lia. done.
Qed.
Lemma Unmap_canonical ip : wf_addr ip → Unmap ip = canonical ip.
Proof.
  destruct ip as [a|a z]; [done|]. unfold wf_addr, Unmap, Is4In6, canonical. intros Ha.
  rewrite Z.shiftr_div_pow2 by lia. rewrite Z.land_ones by lia.
  destruct (Z.eqb_spec (a / 2 ^ 32) 65535) as [E|E], (decide _) as [D|D]; try done.
  - f_equal. pose proof (Z.div_mod a (2 ^ 32) ltac:(lia)). rewrite E in H. lia.
  - exfalso. apply D. pose proof (Z.div_mod a (2 ^ 32) ltac:(lia)). pose proof (Z.mod_pos_bound a (2 ^ 32) ltac:(lia)). lia.
  - exfalso. apply E. symmetry. apply (Z.div_unique _ _ _ (a - 65535 * 2 ^ 32)); lia.
Qed.
Lemma canonical_wf ip : wf_addr ip → wf_addr (canonical ip).
Proof. destruct ip as [a|a z]; [done|]. unfold wf_addr, canonical. intros Ha. destruct (decide _); [lia|done]. Qed.

Lemma byte_of a k w : 0 <= a < 2 ^ (k + w) → 0 <= k → 0 <= w → Z.land (Z.shiftr a k) (Z.ones w) = a / 2 ^ k.
Proof.
  intros Ha Hk Hw. rewrite Z.land_ones, Z.shiftr_div_pow2 by lia. apply Z.mod_small.
  pose proof (Z.pow_pos_nonneg 2 k). split; [apply Z.div_pos; lia|]. apply Z.div_lt_upper_bound; [lia|].
  rewrite <- Z.pow_add_r by lia. lia.
Qed.
Lemma land_high x n k c : 0 <= n → 0 <= k → 0 <= x < 2 ^ (k + n) →
  Z.land x (Z.shiftl (Z.ones n) k) = c * 2 ^ k ↔ c * 2 ^ k <= x < (c + 1) * 2 ^ k.
Proof.
  intros Hn Hk Hx. rewrite land_ones_shift, Z.shiftr_div_pow2, Z.shiftl_mul_pow2 by lia.
  pose proof (Z.pow_pos_nonneg 2 k ltac:(lia) Hk) as Hp.
  rewrite Z.mod_small; cycle 1.
  { split; [apply Z.div_pos; lia|]. apply Z.div_lt_upper_bound; [lia|]. rewrite <- Z.pow_add_r by lia. lia. }
  pose proof (Z.div_mod x (2 ^ k) ltac:(lia)) as D. pose proof (Z.mod_pos_bound x (2 ^ k) Hp) as B.
  split; [nia|]. intros H. assert (x / 2 ^ k = c) as -> by (symmetry; apply (Z.div_unique _ _ _ (x - c * 2 ^ k)); lia). done.
Qed.

Lemma div_range a d c : 0 < d → a / d = c ↔ c * d <= a < (c + 1) * d.
Proof.
  intros Hd. pose proof (Z.div_mod a d ltac:(lia)) as D. pose proof (Z.mod_pos_bound a d Hd) as B.
  split; [nia|]. intros H. symmetry. apply (Z.div_unique _ _ _ (a - c * d)); nia.
Qed.
Lemma byte_is a k w c : 0 <= a < 2 ^ (k + w) → 0 <= k → 0 <= w →
  (Z.land (Z.shiftr a k) (Z.ones w) =? c) = true ↔ c * 2 ^ k <= a < (c + 1) * 2 ^ k.
Proof.
  intros Ha Hk Hw. rewrite byte_of by done. rewrite Z.eqb_eq. apply div_range. apply Z.pow_pos_nonneg; lia.
Qed.

Lemma thisNetwork_wf : wf_prefix thisNetwork.
Proof. repeat split; unfold thisNetwork, PAddr, PBits, width; lia. Qed.
Lemma denied4_iff a : 0 <= a < 2 ^ 32 →
  IsUnspecified (Addr4 a) || IsLoopback (Addr4 a) || IsLinkLocalUnicast (Addr4 a) || IsMulticast (Addr4 a)
    || Contains thisNetwork (Addr4 a) = true ↔ never_dialled (Addr4 a).
Proof.
  intros Ha. unfold IsUnspecified, IsLoopback, IsLinkLocalUnicast, IsMulticast, Unmap, never_dialled. rewrite !orb_true_iff.
  rewrite (Contains_iff thisNetwork (Addr4 a)) by (exact thisNetwork_wf || exact Ha). unfold in_prefix, thisNetwork. cbn [PAddr PBits].
  assert (V0 : v4 0 a = a / 2 ^ 24) by (apply (byte_of a 24 8); lia).
  assert (H0 : (v4 0 a =? 127) = true ↔ 127 * 2 ^ 24 <= a < 128 * 2 ^ 24) by (rewrite V0, Z.eqb_eq; apply div_range; lia).
  assert (H1 : (v4 0 a =? 169) && (v4 1 a =? 254) = true ↔ 43518 * 2 ^ 16 <= a < 43519 * 2 ^ 16).
  { assert (E : v4 1 a = a / 2 ^ 16 mod 2 ^ 8).
    { unfold v4. rewrite Z.shiftr_div_pow2 by lia. change 255 with (Z.ones 8). rewrite Z.land_ones by lia. done. }
    rewrite andb_true_iff, V0, E, !Z.eqb_eq. rewrite <- (div_range a (2 ^ 16) 43518) by lia.
    pose proof (Z.div_mod (a / 2 ^ 16) (2 ^ 8) ltac:(lia)) as D. pose proof (Z.mod_pos_bound (a / 2 ^ 16) (2 ^ 8) ltac:(lia)) as B.
    rewrite Z.div_div in D by lia. change (2 ^ 16 * 2 ^ 8) with (2 ^ 24) in D. lia. }
  assert (H2 : (Z.land (v4 0 a) 240 =? 224) = true ↔ 224 * 2 ^ 24 <= a < 240 * 2 ^ 24).
  { rewrite Z.eqb_eq. rewrite V0.
    change 240 with (Z.shiftl (Z.ones 4) 4) at 1. change 224 with (14 * 2 ^ 4) at 1. rewrite land_high; [|lia|lia|].
    - pose proof (Z.div_mod a (2 ^ 24) ltac:(lia)). pose proof (Z.mod_pos_bound a (2 ^ 24) ltac:(lia)). lia.
    - split; [apply Z.div_pos; lia|apply Z.div_lt_upper_bound; lia]. }
  rewrite H0, H1, H2, !bool_decide_eq_true. change (0 / 2 ^ (32 - 8)) with 0. rewrite (div_range a (2 ^ (32 - 8)) 0) by lia.
  change (2 ^ (32 - 8)) with (2 ^ 24).
  split; [intros [[[[[E|E]|E]|E]|E]|E]; try done; [injection E as ->; lia|tauto..|lia]|].
  intros [E|[E|[E|E]]]; [right; lia|tauto..].
Qed.

Lemma denied6_iff a z : 0 <= a < 2 ^ 128 → z = "" → canonical (Addr6 a z) = Addr6 a z →
  IsUnspecified (Addr6 a z) || IsLoopback (Addr6 a z) || IsLinkLocalUnicast (Addr6 a z) || IsMulticast (Addr6 a z)
    || Contains thisNetwork (Addr6 a z) = true ↔ never_dialled (Addr6 a z).
Proof.
  intros Ha -> Hc. assert (Hu : Unmap (Addr6 a "") = Addr6 a "") by (rewrite Unmap_canonical by done; exact Hc).
  unfold IsUnspecified, IsLoopback, IsLinkLocalUnicast, IsMulticast. rewrite Hu, !orb_true_iff. unfold never_dialled.
  assert (H1 : (Z.land (v6u16 0 a) 65472 =? 65152) = true ↔ 65152 * 2 ^ 112 <= a < 65216 * 2 ^ 112).
  { rewrite Z.eqb_eq. rewrite (byte_of a 112 16 Ha ltac:(lia) ltac:(lia) : v6u16 0 a = _).
    change 65472 with (Z.shiftl (Z.ones 10) 6) at 1. change 65152 with (1018 * 2 ^ 6) at 1. rewrite land_high; [|lia|lia|].
    - pose proof (Z.div_mod a (2 ^ 112) ltac:(lia)). pose proof (Z.mod_pos_bound a (2 ^ 112) ltac:(lia)). lia.
    - split; [apply Z.div_pos; lia|apply Z.div_lt_upper_bound; lia]. }
  assert (H2 : (v6 0 a =? 255) = true ↔ 255 * 2 ^ 120 <= a).
  { rewrite (byte_is a 120 8 255 Ha ltac:(lia) ltac:(lia) : (v6 0 a =? 255) = true ↔ _). lia. }
  rewrite H1, H2, Z.eqb_eq, !bool_decide_eq_true. unfold Contains, thisNetwork. cbn [PAddr].
  split; [intros [[[[[E|E]|E]|E]|E]|E]; try done; [injection E as ->; tauto|tauto..]|].
  intros [->|[E|[E|E]]]; tauto.
Qed.

(** ** The configured prefixes *)
Lemma ParsePrefix_wf s p : ParsePrefix s = Some p → wf_prefix p.
Proof.
  unfold ParsePrefix. destruct (last_index_byte "/" s) as [i|]; [|done].
  destruct (ParseAddr _) as [ip|] eqn:Ea; [|done]. apply ParseAddr_spec in Ea as [Ha _].
  destruct (bool_decide (Zone ip = "")) eqn:Ez; [|done]. cbn [negb]. destruct (_ && _); [done|].
  destruct (ParseInt _) as [n|]; [|done]. destruct ((n <? 0) || (width ip <? n)) eqn:En; [done|]. intros [= <-]. nat_prop.
  repeat split; cbn [PAddr PBits]; [done..|lia|lia].
Qed.
Lemma mask_div a k : 0 <= k → Z.shiftl (Z.shiftr a k) k / 2 ^ k = a / 2 ^ k.
Proof. intros Hk. rewrite Z.shiftl_mul_pow2, Z.shiftr_div_pow2 by lia. apply Z.div_mul. pose proof (Z.pow_pos_nonneg 2 k); lia. Qed.
Lemma mask_bound a k w : 0 <= k → 0 <= a < w → 0 <= Z.shiftl (Z.shiftr a k) k < w.
Proof.
  intros Hk Ha. rewrite Z.shiftl_mul_pow2, Z.shiftr_div_pow2 by lia. pose proof (Z.pow_pos_nonneg 2 k ltac:(lia) Hk) as Hp.
  pose proof (Z.div_mod a (2 ^ k) ltac:(lia)). pose proof (Z.mod_pos_bound a (2 ^ k) Hp). pose proof (Z.div_pos a (2 ^ k)). nia.
Qed.
Lemma Masked_wf p : wf_prefix p → wf_prefix (Masked p).
Proof.
  destruct p as [[a|a z] b]; intros (Ha & Hz & Hb); unfold Masked, wf_prefix, wf_addr, width, Zone in *; cbn [PAddr PBits] in *;
    (split; [apply mask_bound; lia|done]).
Qed.
Lemma Masked_covers p ip : wf_prefix p → covers (Masked p) ip ↔ covers p ip.
Proof.
  intros (_ & _ & Hb). assert (E : ∀ ip, in_prefix (Masked p) ip ↔ in_prefix p ip); [|unfold covers; by setoid_rewrite E].
  destruct p as [[a|a z] b]; intros [x|x y]; unfold Masked, in_prefix, width in *; cbn [PAddr PBits] in *; try done;
    rewrite mask_div by lia; done.
Qed.
Lemma parsePrefixes_Ok f l ps : parsePrefixes f l = Ok ps →
  Forall2 (λ s q, ∃ p, ParsePrefix s = Some p ∧ q = Masked p ∧ wf_prefix p) l ps.
Proof.
  revert ps. induction l as [|s l IH]; intros ps; simpl; [intros [= <-]; constructor|].
  destruct (ParsePrefix s) as [p|] eqn:E; [|done]. destruct (parsePrefixes f l) as [qs|]; [|done]. intros [= <-].
  constructor; [|by apply IH]. exists p. eauto using ParsePrefix_wf.
Qed.

Lemma inAny_iff f l ps ip : parsePrefixes f l = Ok ps → wf_addr ip → inAny ps ip = true ↔ covered l ip.
Proof.
  intros Hl%parsePrefixes_Ok Hip. unfold inAny. rewrite existsb_true_iff.
  assert (C : ∀ q, wf_prefix q → Contains q ip || (Is4 ip && Contains q (As6 ip)) = true ↔ covers q ip).
  { intros q Hq. rewrite orb_true_iff, (Contains_iff q ip) by done. apply or_iff_compat_l. destruct ip as [a|a z].
    - unfold Is4, As6. unfold wf_addr in Hip. rewrite andb_true_l, map4_add by done.
      rewrite Contains_iff; [|done|unfold wf_addr; lia].
      split; [eauto|]. by intros (a' & [= <-] & ?).
    - simpl. split; [done|]. by intros (a' & ? & _). }
  split.
  - intros (q & Hq & H). destruct (Forall2_in_r _ _ _ _ Hl Hq) as (s & Hs & p & Hp & -> & Hw).
    exists s, p. split; [done|]. split; [done|]. apply Masked_covers; [done|]. apply C; [by apply Masked_wf|done].
  - intros (s & p & Hs & Hp & H). apply list_elem_of_lookup in Hs as [i Hi].
    destruct (Forall2_lookup_l _ _ _ _ _ Hl Hi) as (q & Hq & p' & Hp' & -> & Hw). simplify_eq.
    exists (Masked p). split; [by eapply list_elem_of_lookup_2|]. apply C; [by apply Masked_wf|]. by apply Masked_covers.
Qed.

Lemma NewTargetPolicy_Ok cfg p : NewTargetPolicy cfg = Ok p →
  (∃ f, parsePrefixes f (DenyCIDRs cfg) = Ok (tp_deny p)) ∧ (∃ f, parsePrefixes f (AllowCIDRs cfg) = Ok (tp_allow p)) ∧
  tp_ports p = AllowedPorts cfg ∧ ∀ n, n ∈ tp_ports p → 1 <= n <= 65535.
Proof.
  unfold NewTargetPolicy. destruct (parsePrefixes _ (DenyCIDRs cfg)) as [d|] eqn:Ed; [|done].
  destruct (parsePrefixes _ (AllowCIDRs cfg)) as [a|] eqn:Ea; [|done]. simpl. destruct (bool_decide _); [done|].
  destruct (forallb _ _) eqn:Ef; [|done]. intros [= <-]. simpl. split; [eauto|]. split; [eauto|]. split; [done|].
  rewrite forallb_forall in Ef. intros n Hn%list_elem_of_In. apply Ef in Hn. bool_prop. lia.
Qed.

Lemma checkIP_iff cfg p ip : NewTargetPolicy cfg = Ok p → wf_addr ip → Zone ip = "" →
  checkIP p ip = Ok tt ↔ ¬ never_dialled (canonical ip) ∧ (covered (DenyCIDRs cfg) (canonical ip) → covered (AllowCIDRs cfg) (canonical ip)).
Proof.
  intros ([f Hd] & [g Ha] & _)%NewTargetPolicy_Ok Hip Hz. unfold checkIP. rewrite Unmap_canonical by done.
  pose proof (canonical_wf ip Hip) as Hc. rewrite <- (inAny_iff f _ _ _ Hd Hc), <- (inAny_iff g _ _ _ Ha Hc).
  assert (D : IsUnspecified (canonical ip) || IsLoopback (canonical ip) || IsLinkLocalUnicast (canonical ip) ||
              IsMulticast (canonical ip) || Contains thisNetwork (canonical ip) = true ↔ never_dialled (canonical ip)).
  { destruct ip as [a|a z]; [by apply denied4_iff|]. cbn [Zone] in Hz. subst z. unfold canonical in *.
    destruct (decide _) eqn:E; [by apply denied4_iff|]. apply denied6_iff; [done|done|]. unfold canonical. by rewrite E. }
  cbv zeta. rewrite <- D. destruct (_ || _); [split; [done|by intros [[] _]]|].
  destruct (inAny (tp_deny p) _), (inAny (tp_allow p) _); simpl; split; intros H; try done.
  destruct H as [_ H]. by discriminate H.
Qed.

(** C32. The hook on every dialled address is exactly the policy: TCP, an allowed
    port, an unzoned address whose canonical form is outside the loopback,
    link-local, multicast and unspecified ranges (an IPv4-mapped IPv6 spelling
    included) and, when a denied CIDR covers it, inside an allowed one. *)
Theorem dial_policy cfg p network address :
  NewTargetPolicy cfg = Ok p →
  Control p network address = Ok tt ↔
  network ∈ ["tcp"; "tcp4"; "tcp6"] ∧
  ∃ host port n ip, SplitHostPort address = Some (host, port) ∧ parsePort port = Some n ∧ ParseAddr host = Some ip ∧
    Zone ip = "" ∧ n ∈ AllowedPorts cfg ∧ ¬ never_dialled (canonical ip) ∧
    (covered (DenyCIDRs cfg) (canonical ip) → covered (AllowCIDRs cfg) (canonical ip)).
Proof.
  intros Hp. pose proof (NewTargetPolicy_Ok _ _ Hp) as (_ & _ & Hports & _). unfold Control.
  destruct (bool_decide (network ∈ _)) eqn:En; bool_prop; cbn [negb]; [|split; [done|by intros [? _]]].
  destruct (SplitHostPort address) as [[host port]|]; [|split; [done|by intros (_ & ? & ? & ? & ? & ? & _)]].
  destruct (parsePort port) as [n|] eqn:Epo; [|split; [done|intros (_ & ? & ? & ? & ? & [= <- <-] & ? & _); congruence]].
  destruct (ParseAddr host) as [ip|] eqn:Eip;
    [|split; [done|intros (_ & ? & ? & ? & ? & [= <- <-] & _ & ? & _); congruence]].
  pose proof (ParseAddr_spec _ _ Eip) as [Hip _].
  destruct (bool_decide (Zone ip = "")) eqn:Ez; bool_prop; cbn [negb];
    [|split; [done|intros (_ & ? & ? & ? & ? & [= <- <-] & ? & ? & ? & _); congruence]].
  unfold checkPort. rewrite Hports. destruct (bool_decide (n ∈ _)) eqn:Ep; bool_prop; cbn [rbind];
    [|split; [done|intros (_ & ? & ? & ? & ? & [= <- <-] & ? & ? & ? & ? & _); congruence]].
  rewrite (checkIP_iff cfg) by done. split.
  - intros [H1 H2]. split; [done|]. by exists host, port, n, ip.
  - intros (_ & ? & ? & ? & ? & [= <- <-] & ? & ? & ? & ? & H1 & H2). by simplify_eq.
Qed.
Definition demo_targets : DirectoryTargets := mkTargets ["10.0.0.0/8"; "fd00::/8"] ["10.7.0.0/16"] [389; 636].
Lemma dial_policy_witness :
  NewTargetPolicy demo_targets ≠ Err ErrTargetRefused ∧
  match NewTargetPolicy demo_targets with
  | Ok p => Control p "tcp" "[::ffff:127.0.0.1]:389" ≠ Ok tt ∧ Control p "tcp" "10.8.0.1:389" ≠ Ok tt ∧
            Control p "tcp" "10.7.0.1:389" = Ok tt ∧
            ∃ n ip, parsePort "389" = Some n ∧ ParseAddr "10.7.0.1" = Some ip ∧ covered (AllowCIDRs demo_targets) (canonical ip)
  | Err _ => False
  end.
Proof.
  split; [by vm_compute|]. destruct (NewTargetPolicy demo_targets) as [p|] eqn:E; [|by vm_compute in E].
  assert (C : Control p "tcp" "10.7.0.1:389" = Ok tt) by (vm_compute in E; simplify_eq; by vm_compute).
  split; [vm_compute in E; simplify_eq; by vm_compute|]. split; [vm_compute in E; simplify_eq; by vm_compute|]. split; [done|].
  pose proof C as (_ & host & port & n & ip & H1 & H2 & H3 & _ & _ & _ & H4)%(dial_policy demo_targets p "tcp" "10.7.0.1:389" E).
  vm_compute in H1. injection H1 as <- <-. exists n, ip. split; [done|]. split; [done|]. apply H4.
  vm_compute in H3. injection H3 as <-. exists "10.0.0.0/8", (mkPrefix (Addr4 167772160) 8).
  split; [set_solver|]. split; [by vm_compute|]. left. by vm_compute.
Defined.

(** ** Saving and dialling agree *)
Lemma parsePort_FormatInt n : 1 <= n <= 65535 → parsePort (FormatInt n) = Some n.
Proof.
  intros Hn. assert (Hi : in_int64 n = true) by (unfold in_int64, min_int64, max_int64; lia || (apply andb_true_iff; split; apply Z.leb_le; lia)).
  unfold parsePort. rewrite (ParseInt_FormatInt n Hi). unfold FormatInt. rewrite (proj2 (Z.ltb_ge n 0)) by lia.
  destruct (format_nonneg_spec n) as (Hd & Hne & Hv); [lia|].
  rewrite bool_decide_eq_false_2 by done. unfold allDigits. rewrite Hd.
  assert (Hl : (5 <? String.length (format_nonneg n))%nat = false).
  { apply Nat.ltb_ge. apply format_length; lia. }
  rewrite Hl. cbn [orb negb]. rewrite (proj2 (andb_true_iff _ _)); [done|]. split; apply Z.leb_le; lia.
Qed.

Lemma str_app_cons_snoc (s t : string) c : (s +:+ String c "") +:+ t = s +:+ String c t.
Proof. induction s as [|d s IH]; simpl; [done|]. by rewrite IH. Qed.
Lemma str_length_snoc s c : String.length (s +:+ String c "") = S (String.length s).
Proof. rewrite str_length_app. simpl. lia. Qed.
(** The pieces of [host]:port in brackets. *)
Section Bracket.
Context (host port : string).
Notation hp := (String "[" (host +:+ String "]" (String ":" port))).
Lemma bracket_snoc : hp = (String "[" host +:+ "]:") +:+ port.
Proof. rewrite (str_app_assoc (String "[" host)). done. Qed.
Lemma last_index_split : lacks ":" port = true → last_index_byte ":" hp = Some (S (S (String.length host))).
Proof.
  intros H. replace hp with ((String "[" host +:+ "]") +:+ String ":" port) by (by rewrite (str_app_assoc (String "[" host))).
  rewrite last_index_app by done. rewrite str_length_app. simpl. f_equal. lia.
Qed.
Lemma index_byte_bracket : lacks "]" host = true → index_byte "]" hp = Some (S (String.length host)).
Proof. intros H. apply (index_byte_app "]" (String "[" host)). by apply lacks_cons. Qed.
Lemma bracket_rest : String.substring (S (S (String.length host))) (String.length hp) hp = String ":" port.
Proof.
  replace hp with ((String "[" host +:+ "]") +:+ String ":" port) at 2 by (by rewrite (str_app_assoc (String "[" host))).
  replace (S (S (String.length host))) with (String.length (String "[" host +:+ "]")) by (rewrite str_length_app; simpl; lia).
  apply substring_suffix. simpl. rewrite str_length_app. simpl. lia.
Qed.
Lemma bracket_port : String.substring (S (S (S (String.length host)))) (String.length hp) hp = port.
Proof.
  rewrite bracket_snoc at 2. replace (S (S (S (String.length host)))) with (String.length (String "[" host +:+ "]:")) by (rewrite str_length_app; simpl; lia).
  apply substring_suffix. simpl. rewrite str_length_app. simpl. lia.
Qed.
Lemma bracket_host : String.substring 1 (S (String.length host) - 1) hp = host.
Proof. simpl. rewrite Nat.sub_0_r. apply substring_prefix. Qed.
End Bracket.


Lemma SplitHostPort_Join host port : host ≠ "" → lacks "[" host = true → lacks "]" host = true → str_all is_digit port = true →
  SplitHostPort (JoinHostPort host port) = Some (host, port).
Proof.
  intros Hne Ho Hc Hd.
  assert (Hp : ∀ c, is_digit c = false → lacks c port = true) by (intros c Hc'; by eapply lacks_impl).
  unfold SplitHostPort, JoinHostPort. destruct (lacks ":" host) eqn:El; cbn [negb].
  - change (":" +:+ port) with (String ":" port). rewrite last_index_app by (by apply Hp).
    rewrite (substring_prefix host).
    replace (String.substring (S (String.length host)) (String.length (host +:+ String ":" port)) (host +:+ String ":" port)) with port; cycle 1.
    { rewrite <- (str_app_cons_snoc host). rewrite <- (str_length_snoc host ":"), substring_suffix; [done|rewrite str_length_app; lia]. }
    rewrite El, !lacks_app, Ho, Hc. destruct host as [|c host]; [done|].
    assert (Hc0 : c ≠ "["%char) by (by apply lacks_cons in Ho as [? _]).
    assert (Hb : lacks "[" (String ":" port) = true ∧ lacks "]" (String ":" port) = true)
      by (split; apply lacks_cons; split; try done; by apply Hp).
    destruct Hb as [-> ->]. cbn [andb orb negb String.app].
    destruct c as [[] [] [] [] [] [] [] []]; try reflexivity. done.
  - replace ("[" +:+ host +:+ "]:" +:+ port) with (String "[" (host +:+ String "]" (String ":" port))) by done.
    rewrite (last_index_split host port) by (by apply Hp). cbv beta iota.
    rewrite (index_byte_bracket host) by done. rewrite Nat.eqb_refl. cbn [negb].
    rewrite lacks_app, Ho. assert (lacks "[" (String "]" (String ":" port)) = true) as ->
      by (do 2 (apply lacks_cons; split; [done|]); by apply Hp). cbn [andb negb].
    rewrite (bracket_rest host port). assert (lacks "]" (String ":" port) = true) as ->
      by (apply lacks_cons; split; [done|]; by apply Hp). cbn [negb].
    rewrite (bracket_host host port), (bracket_port host port). done.
Qed.

Lemma trim_suffix_cases c s : trim_suffix_byte c s = s ∨ s = trim_suffix_byte c s +:+ String c "".
Proof.
  induction s as [|d s IH]; [by left|]. destruct s as [|e s].
  - cbn [trim_suffix_byte]. case_bool_decide; [right; by subst|by left].
  - cbn [trim_suffix_byte] in *. destruct IH as [->|E]; [by left|]. right. cbn [String.app]. by rewrite <- E.
Qed.
Lemma split_snoc_sep sep s : split sep (s +:+ String sep "") = split sep s ++ [""].
Proof.
  induction s as [|c s IH]; simpl; [by rewrite bool_decide_eq_true_2|]. case_bool_decide; [by rewrite IH|].
  rewrite IH. destruct (split sep s) eqn:E; [by apply split_not_nil in E|done].
Qed.
Lemma family_lacks s c : lacks ":" s = true → lacks "%" s = true → family s = Some c → c = "."%char.
Proof.
  induction s as [|d s IH]; simpl; [done|]. intros [H1 H2]%lacks_cons [H3 H4]%lacks_cons. case_bool_decide; [by intros [= <-]|].
  rewrite !bool_decide_eq_false_2 by done. simpl. auto.
Qed.

(** No name is an address in another spelling. *)
Lemma hostname_not_addr h : validHostname h = true → ParseAddr h = None.
Proof.
  unfold validHostname. set (t := trim_suffix_byte "." h). destruct (_ || _) eqn:Et; [done|]. intros [Hl Hd]%andb_true_iff. bool_prop.
  assert (Hc : Forall (λ l, str_all (λ c, negb (notHostnameChar c)) l = true) (split "." t)).
  { apply Forall_forall. intros l Hin. rewrite forallb_forall in Hl. apply list_elem_of_In, Hl in Hin.
    unfold validLabel in Hin. by apply andb_true_iff in Hin as [_ ?]. }
  assert (L : ∀ c, notHostnameChar c = true → c ≠ "."%char → lacks c t = true).
  { intros c H1 H2. rewrite <- (join_split "." t). revert Hc. generalize (split "." t). clear -H1 H2.
    induction l as [|x l IH]; intros F; [done|]. apply Forall_cons in F as [Hx F].
    assert (lacks c x = true) by (eapply lacks_impl; [exact Hx|cbv beta; by rewrite H1]).
    destruct l as [|y l]; [done|]. change (join "." (x :: y :: l)) with (x +:+ String "." (join "." (y :: l))).
    rewrite lacks_app. apply andb_true_iff. split; [done|]. apply lacks_cons. split; [done|auto]. }
  assert (L' : ∀ c, notHostnameChar c = true → c ≠ "."%char → lacks c h = true).
  { intros c H1 H2. destruct (trim_suffix_cases "." h) as [E|E]; fold t in E; rewrite <- E || rewrite E; [by apply L|].
    rewrite lacks_app, L by done. apply andb_true_iff. split; [done|]. by apply lacks_cons. }
  unfold ParseAddr. destruct (family h) as [c|] eqn:Ef; [|done].
  rewrite (family_lacks h c (L' ":"%char eq_refl ltac:(done)) (L' "%"%char eq_refl ltac:(done)) Ef).
  destruct (fields4 h) as [q|] eqn:E4; [|done]. exfalso. apply fields4_Some in E4 as (_ & a & b & c' & d & E & F).
  destruct (trim_suffix_cases "." h) as [E'|E']; fold t in E'.
  - rewrite E', E in Hd. simpl in Hd. rewrite !Forall_cons in F. destruct F as (_ & _ & _ & [_ F] & _).
    unfold allDigits in Hd. by rewrite F in Hd.
  - rewrite E', split_snoc_sep in E. apply (f_equal last) in E. rewrite last_snoc in E. simpl in E. injection E as <-.
    rewrite !Forall_cons in F. by destruct F as (_ & _ & _ & [? _] & _).
Qed.

Lemma splitURLHost_Ok h host port isIP : splitURLHost h = Ok (host, port, isIP) →
  if isIP then ∃ ip, ParseAddr host = Some ip ∧ Zone ip = "" else validHostname host = true ∧ ParseAddr host = None.
Proof.
  unfold splitURLHost.
  assert (Ha : ∀ rest host' isIP', after rest host' isIP' = Ok (host, port, isIP) → host' = host ∧ isIP' = isIP).
  { intros rest host' isIP'. unfold after. destruct rest; [by intros [= -> _ ->]|]. destruct (_ || _); [done|]. by intros [= -> _ ->]. }
  assert (Hname : ∀ host' rest, match ParseAddr host' with
     | Some (Addr4 _) => after rest host' true
     | _ => if validHostname host' then after rest host' false else Err ErrInvalidURL end = Ok (host, port, isIP) →
     if isIP then ∃ ip, ParseAddr host = Some ip ∧ Zone ip = "" else validHostname host = true ∧ ParseAddr host = None).
  { intros host' rest. destruct (validHostname host') eqn:Ev.
    - rewrite (hostname_not_addr _ Ev). intros [<- <-]%Ha. by rewrite Ev, hostname_not_addr.
    - destruct (ParseAddr host') as [[a|a z]|] eqn:E; [|done..]. intros [<- <-]%Ha. by exists (Addr4 a). }
  case_bool_decide.
  - destruct (index_byte "]" _) as [e|]; [|done]. cbv zeta. set (host' := String.substring _ _ _). set (rest := String.substring _ _ _).
    destruct (ParseAddr host') as [ip|] eqn:E; [|done]. destruct (negb (Is6 ip) || _) eqn:Ez; [done|]. bool_prop.
    intros [<- <-]%Ha. by exists ip.
  - destruct (match index_byte ":" h with Some _ => _ | None => _ end) as [host' rest]. apply Hname.
Qed.

(** What was saved can be dialled: an accepted URL has scheme ldap or ldaps, an
    allowed port, and a host that is either an address the dial hook accepts
    too or a host name that no spelling of an address can pass for. *)
Theorem saved_target url_Parse cfg p raw ep :
  NewTargetPolicy cfg = Ok p → CheckURL url_Parse p raw = Ok ep →
  EpScheme ep ∈ ["ldap"; "ldaps"] ∧ EpPort ep ∈ AllowedPorts cfg ∧
  match ParseAddr (EpHost ep) with
  | Some _ => Control p "tcp" (EndpointAddr ep) = Ok tt
  | None => validHostname (EpHost ep) = true
  end.
Proof.
  intros Hp. pose proof (NewTargetPolicy_Ok _ _ Hp) as (_ & _ & Hports & Hrange). unfold CheckURL.
  destruct (_ || _); [done|]. destruct (contains_any _ _); [done|]. destruct (url_Parse raw) as [u|]; [|done].
  destruct (bool_decide (UrlScheme u ∈ _)) eqn:Es; bool_prop; [|done]. cbn [negb]. destruct (_ || _); [done|].
  destruct (splitURLHost (UrlHost u)) as [[[host portStr] isIP]|] eqn:Eh; [|done]. cbn [rbind].
  destruct (if bool_decide (portStr = "") then _ else _) as [port|]; [|done]. cbn [rbind].
  unfold checkPort. destruct (bool_decide (port ∈ _)) eqn:Ep; [|done]. bool_prop. cbn [rbind]. apply splitURLHost_Ok in Eh.
  intros H. destruct isIP; cbn [rbind] in H.
  - destruct Eh as (ip & Eip & Hz). rewrite Eip in H. destruct (checkIP p ip) as [[]|] eqn:Ec; [|done]. injection H as <-.
    cbn [EpScheme EpHost EpPort]. split; [done|]. split; [by rewrite <- Hports|]. rewrite Eip.
    pose proof (ParseAddr_spec _ _ Eip) as [_ Hch]. specialize (Hch Hz). pose proof (Hrange _ Ep).
    unfold Control, EndpointAddr. cbn [EpHost EpPort]. rewrite SplitHostPort_Join; cycle 1.
    { by intros ->. } { by eapply lacks_impl. } { by eapply lacks_impl. } { apply FormatInt_digits. lia. }
    rewrite parsePort_FormatInt by lia. rewrite Eip. rewrite (bool_decide_eq_true_2 (Zone ip = "")) by done.
    unfold checkPort. rewrite (bool_decide_eq_true_2 (port ∈ _)) by done. rewrite bool_decide_eq_true_2 by set_solver. exact Ec.
  - injection H as <-. cbn [EpScheme EpHost EpPort]. destruct Eh as [Hv Hn]. rewrite Hn. split; [done|]. by rewrite <- Hports.
Qed.
Definition demo_parse (raw : string) : option URL :=
  (λ h, mkURL "ldaps" "" false h "" "") <$> cut_prefix "ldaps://" raw.
Lemma saved_target_witness :
  NewTargetPolicy demo_targets ≠ Err ErrTargetRefused ∧
  match NewTargetPolicy demo_targets with
  | Ok p => is_ok (CheckURL demo_parse p "ldaps://[2001:db8::7]") = true ∧ is_ok (CheckURL demo_parse p "ldaps://2130706433:636") = false ∧
            Control p "tcp" "[2001:db8::7]:636" = Ok tt
  | Err _ => False
  end.
Proof.
  split; [by vm_compute|]. destruct (NewTargetPolicy demo_targets) as [p|] eqn:E; [|by vm_compute in E].
  assert (C : CheckURL demo_parse p "ldaps://[2001:db8::7]" = Ok (mkEndpoint "ldaps" "2001:db8::7" 636))
    by (vm_compute in E; simplify_eq; by vm_compute).
  split; [by rewrite C|]. split; [injection E as <-; vm_compute; reflexivity|].
  apply (saved_target demo_parse demo_targets p _ _ E C).
Defined.
