(* ===== verification/LdapFilter.v ===== *)
(** * Search filters (internal/ldapdir/filter.go)

    go-ldap's filter compiler and decompiler are parameters ([FilterLib]); a
    compiled filter is a BER packet.  The policy on packets is an executable
    walk with a shared element counter, as in the source. *)
From S2P Require Import Prelude GoStrings Utf8.
#[local] Open Scope list_scope.
#[local] Open Scope Z_scope.

Definition MaxFilterBytes : nat := 4096.
Definition maxFilterDepth : Z := 16.
Definition maxFilterComponents : Z := 64.
Definition maxFilterDetail : nat := 256.
Definition matchAll : string := "(objectClass=*)".

(** ber.Packet: class, tag, octets of a primitive and children. *)
Inductive packet : Type := Packet (ClassType Tag : Z) (Data : option string) (Children : list packet).
Definition pTag (p : packet) : Z := let 'Packet _ t _ _ := p in t.
Definition pClass (p : packet) : Z := let 'Packet c _ _ _ := p in c.
Definition pChildren (p : packet) : list packet := let 'Packet _ _ _ cs := p in cs.

(** Tags of RFC 4511, as go-ldap names them. *)
Definition ClassContext : Z := 128.
Definition FilterAnd : Z := 0.
Definition FilterOr : Z := 1.
Definition FilterNot : Z := 2.
Definition FilterEqualityMatch : Z := 3.
Definition FilterSubstrings : Z := 4.
Definition FilterGreaterOrEqual : Z := 5.
Definition FilterLessOrEqual : Z := 6.
Definition FilterPresent : Z := 7.
Definition FilterApproxMatch : Z := 8.
Definition FilterExtensibleMatch : Z := 9.
Definition RuleMatchingRule : Z := 1.
Definition RuleType : Z := 2.
Definition RuleMatchValue : Z := 3.
Definition RuleDNAttributes : Z := 4.

(** A compiled filter, or the refusal text of [FilterError]. *)
Inductive outcome : Type := Refused (detail : string) | Compiled (canon : string).

Definition packetString (p : packet) : string := let 'Packet _ _ d _ := p in default "" d.

(** ** Attribute descriptions and values *)
Definition isAlpha (c : ascii) : bool := in_range "a" "z" c || in_range "A" "Z" c.
Definition isKeychar (c : ascii) : bool := isAlpha c || is_digit c || is_char "-" c.
Definition isDescriptor (s : string) : bool :=
  match s with
  | "" => false
  | String c _ => isAlpha c && str_all isKeychar s
  end.
Definition isOIDNumber (n : string) : bool :=
  negb (bool_decide (n = "") || ((1 <? String.length n)%nat && bool_decide (String.get 0 n = Some "0"%char))) && str_all is_digit n.
Definition isOID (s : string) : bool :=
  if (length (split "." s) <? 2)%nat then false else forallb isOIDNumber (split "." s).

Definition checkValue (v : string) : string :=
  if lacks "000" v then "" else "filter contains a NUL character".
Definition checkAttr (a : string) : string :=
  let bad := "filter attribute description is not allowed" in
  let '(typ, opts) := match cut ";" a with Some (t, o) => (t, Some o) | None => (a, None) end in
  if negb (isDescriptor typ) && negb (isOID typ) then bad
  else match opts with
       | None => ""
       | Some o => if forallb (λ x, negb (bool_decide (x = "")) && str_all isKeychar x) (split ";" o) then "" else bad
       end.

(** strings.EqualFold against lower-case ASCII without k and s. *)
Definition fold_eq (s lower : string) : bool := bool_decide (map_bytes lower_byte s = lower).

Fixpoint checkExtensible (cs : list packet) : string :=
  match cs with
  | [] => ""
  | c :: cs' =>
      let s := packetString c in
      let d := if pTag c =? RuleMatchingRule then
                 if fold_eq s "dn" then "write the :dn: flag in lower case"
                 else if negb (isDescriptor s) && negb (isOID s) then "filter matching rule is not allowed" else ""
               else if pTag c =? RuleType then checkAttr s
               else if pTag c =? RuleMatchValue then checkValue s
               else if pTag c =? RuleDNAttributes then ""
               else "filter is not valid" in
      if bool_decide (d = "") then checkExtensible cs' else d
  end.
Fixpoint first_refusal (l : list string) : string :=
  match l with [] => "" | d :: l' => if bool_decide (d = "") then first_refusal l' else d end.
(** The cases of the walk that do not recurse. *)
Definition checkLeaf (tag : Z) (p : packet) (cs : list packet) : string :=
  if tag =? FilterPresent then checkAttr (packetString p)
  else if bool_decide (tag ∈ [FilterEqualityMatch; FilterGreaterOrEqual; FilterLessOrEqual; FilterApproxMatch]) then
    match cs with
    | [a; v] => first_refusal [checkAttr (packetString a); checkValue (packetString v)]
    | _ => "filter is not valid"
    end
  else if tag =? FilterSubstrings then
    match cs with
    | [a; parts] => first_refusal (checkAttr (packetString a) :: ((λ x, checkValue (packetString x)) <$> pChildren parts))
    | _ => "filter is not valid"
    end
  else if tag =? FilterExtensibleMatch then checkExtensible cs
  else "filter is not valid".

(** The closure [walk]: the counter [components] is threaded through. *)
Fixpoint walk (p : packet) (depth components : Z) : string * Z :=
  let 'Packet class tag data cs := p in
  let components := components + 1 in
  if maxFilterDepth <? depth then ("filter nests deeper than 16 levels", components)
  else if maxFilterComponents <? components then ("filter has more than 64 components", components)
  else if negb (class =? ClassContext) then ("filter is not valid", components)
  else if bool_decide (tag ∈ [FilterAnd; FilterOr; FilterNot]) then
    (fix each (cs : list packet) (n : Z) : string * Z :=
       match cs with
       | [] => ("", n)
       | c :: cs' => let '(d, n) := walk c (depth + 1) n in
                     if bool_decide (d = "") then each cs' n else (d, n)
       end) cs components
  else (checkLeaf tag p cs, components).
Definition checkFilter (p : packet) : string := (walk p 1 0).1.

(** ** go-ldap *)
(** [CompileFilter]: the packet, or the text of the error inside an
    [*ldap.Error] (nothing for any other error).  [DecompileFilter] may fail. *)
Class FilterLib : Type := {
  CompileFilter : string → packet + option string;
  DecompileFilter : packet → option string;
}.

Definition clean_rune (r : Z) : Z := if IsControl r then RuneError else r.
Fixpoint back_to_start (d : string) (cut : nat) : nat :=
  match cut with
  | O => O
  | S n => match String.get cut d with
           | Some c => if RuneStart c then cut else back_to_start d n
           | None => cut
           end
  end.
Definition filterParseDetail (e : option string) : string :=
  match e with
  | None => "filter is not valid"
  | Some msg =>
      let d := default msg (cut_prefix "ldap: " msg) in
      let d := foldr (λ r s, encode_rune (clean_rune r) +:+ s) "" (valid_runes (String.length d) false d) in
      let d := if (maxFilterDetail <? String.length d)%nat
               then String.substring 0 (back_to_start d maxFilterDetail) d +:+ bytes [226; 128; 166]%nat else d in
      if bool_decide (d = "") then "filter is not valid" else d
  end.

Section Filters.
Context {FL : FilterLib}.

(** The canonical text, or a refusal text. *)
Definition canonicalise (p : packet) : outcome :=
  let unstable := Refused "filter cannot be re-serialised" in
  match DecompileFilter p with
  | None => unstable
  | Some canon =>
      if (MaxFilterBytes <? String.length canon)%nat then Refused "filter is longer than 4096 bytes once canonicalised"
      else match CompileFilter canon with
           | inr _ => if bool_decide (canon = "") then Compiled canon else unstable
           | inl p2 =>
               let detail := checkFilter p2 in
               if bool_decide (detail ≠ "") then Refused detail
               else if bool_decide (default "" (DecompileFilter p2) = canon) then Compiled canon else unstable
           end
  end.

Definition CompileUserFilter (s : string) : outcome :=
  if (MaxFilterBytes <? String.length s)%nat then Refused "filter is longer than 4096 bytes"
  else if negb (ValidString s) then Refused "filter is not valid UTF-8"
  else if negb (lacks "000" s) then Refused "filter contains a NUL character"
  else if bool_decide (TrimSpace s = "") then Compiled matchAll
  else match CompileFilter s with
       | inr e => Refused (filterParseDetail e)
       | inl p =>
           let detail := checkFilter p in
           if bool_decide (detail ≠ "") then Refused detail else canonicalise p
       end.

Definition Combine (base user : string) : outcome :=
  if bool_decide (base = "") || bool_decide (user = "") then Refused "filter is missing" else
  let s := "(&" +:+ base +:+ user +:+ ")" in
  let no := Refused "filters cannot be combined" in
  match CompileFilter s with
  | inr _ => no
  | inl p =>
      if negb (pClass p =? ClassContext) || negb (pTag p =? FilterAnd) || negb (length (pChildren p) =? 2)%nat then no
      else if bool_decide (DecompileFilter p = Some s) then Compiled s else no
  end.
End Filters.

(** ** The policy as a specification *)
Section packet_ind.
Context (P : packet → Prop) (step : ∀ c t d cs, Forall P cs → P (Packet c t d cs)).
Fixpoint packet_rect' (p : packet) : P p :=
  let 'Packet c t d cs := p in
  step c t d cs ((fix go (l : list packet) : Forall P l :=
    match l with [] => Forall_nil_2 _ | x :: l' => Forall_cons_2 _ _ _ (packet_rect' x) (go l') end) cs).
End packet_ind.

Definition composite (t : Z) : bool := bool_decide (t ∈ [FilterAnd; FilterOr; FilterNot]).
(** Filter elements on the longest path, leaf included, and in all. *)
Fixpoint filter_depth (p : packet) : Z :=
  let 'Packet _ t _ cs := p in
  1 + (if composite t then foldr Z.max 0 (map filter_depth cs) else 0).
Fixpoint filter_size (p : packet) : Z :=
  let 'Packet _ t _ cs := p in
  1 + (if composite t then foldr Z.add 0 (map filter_size cs) else 0).
(** Every element is of a known kind with admissible attributes and values. *)
Fixpoint elements_ok (p : packet) : bool :=
  let 'Packet c t d cs := p in
  (c =? ClassContext) && (if composite t then forallb elements_ok cs else bool_decide (checkLeaf t p cs = "")).

Lemma filter_depth_pos p : 1 <= filter_depth p.
Proof.
  destruct p as [c t d cs]. simpl. destruct (composite t); [|lia].
  assert (0 <= foldr Z.max 0 (map filter_depth cs)) by (induction cs; simpl; lia). lia.
Qed.
Lemma filter_size_pos p : 1 <= filter_size p.
Proof.
  induction p as [c t d cs IH] using packet_rect'. simpl. destruct (composite t); [|lia].
  assert (0 <= foldr Z.add 0 (map filter_size cs)); [|lia]. induction IH; simpl; lia.
Qed.

(** The walk accepts exactly what the specification accepts from the depth and
    the count it starts with, and then has counted every element. *)
Lemma walk_spec p : ∀ depth n,
  (walk p depth n).1 = "" ↔ elements_ok p = true ∧ depth + filter_depth p - 1 <= maxFilterDepth ∧ n + filter_size p <= maxFilterComponents.
Proof.
  enough (G : ∀ depth n, ((walk p depth n).1 = "" → (walk p depth n).2 = n + filter_size p) ∧
    ((walk p depth n).1 = "" ↔ elements_ok p = true ∧ depth + filter_depth p - 1 <= maxFilterDepth ∧ n + filter_size p <= maxFilterComponents))
    by (intros; apply G).
  induction p as [c t d cs IH] using packet_rect'. intros depth n.
  pose proof (filter_depth_pos (Packet c t d cs)) as Hd. pose proof (filter_size_pos (Packet c t d cs)) as Hs.
  cbn [walk]. destruct (maxFilterDepth <? depth) eqn:E1; nat_prop; [split; [done|]; split; [done|lia]|].
  destruct (maxFilterComponents <? n + 1) eqn:E2; nat_prop; [split; [done|]; split; [done|lia]|].
  cbn [elements_ok]. destruct (c =? ClassContext) eqn:E3; cbn [negb andb]; [|split; [done|]; by split; [|intros [? _]]].
  cbn [filter_depth filter_size]. fold (composite t). destruct (composite t) eqn:Et.
  2:{ cbn [fst snd]. rewrite bool_decide_eq_true. split; [intros; lia|]. split; [intros; split; [done|lia]|by intros [? _]]. }
  clear Hd Hs.
  assert (H0 : n + 1 <= maxFilterComponents) by lia. replace (n + (1 + foldr Z.add 0 (map filter_size cs))) with (n + 1 + foldr Z.add 0 (map filter_size cs)) by lia.
  revert H0. generalize (n + 1). clear E2. induction IH as [|p cs Hp _ IHcs]; intros m Hm; cbn [map foldr forallb].
  { simpl. split; [intros; lia|]. split; [intros; split; [done|lia]|done]. }
  destruct (Hp (depth + 1) m) as [A B]. destruct (walk p (depth + 1) m) as [r k]. cbn [fst snd] in A, B.
  pose proof (filter_depth_pos p) as Hdp. assert (Hpos : 0 <= foldr Z.max 0 (map filter_depth cs)) by (clear; induction cs; simpl; lia).
  assert (Hpos' : 0 <= foldr Z.add 0 (map filter_size cs)).
  { clear. induction cs as [|q cs IH]; simpl; [lia|]. pose proof (filter_size_pos q). lia. }
  case_bool_decide as Er.
  - specialize (A Er). destruct B as [B _]. specialize (B Er) as (B1 & B2 & B3). rewrite B1, andb_true_l.
    destruct (IHcs k) as [IA IB]; [lia|]. split; [intros X; specialize (IA X); lia|]. rewrite IB, A. split; intros (? & ? & ?); (split; [done|lia]).
  - split; [done|]. split; [done|]. intros ([H1 H2]%andb_true_iff & H3 & H4). exfalso. apply Er, B. split; [done|lia].
Qed.

Definition within_policy (p : packet) : Prop :=
  elements_ok p = true ∧ filter_depth p <= maxFilterDepth ∧ filter_size p <= maxFilterComponents.
Lemma checkFilter_iff p : checkFilter p = "" ↔ within_policy p.
Proof. unfold checkFilter, within_policy. rewrite walk_spec. split; intros (? & ? & ?); (split; [done|lia]). Qed.

(** ** Parenthesised words *)
(** The text after the parenthesis that closes the [d]-th open one. *)
Fixpoint close (d : nat) (s : string) : option string :=
  match s with
  | "" => None
  | String c r =>
      if is_char "(" c then close (S d) r
      else if is_char ")" c then match d with O => None | S O => Some r | S d' => close d' r end
      else close d r
  end.
Definition paren_word (s : string) : Prop := ∃ t, s = String "(" t ∧ close 1 t = Some "".

Lemma close_app d s r t : close d s = Some r → close d (s +:+ t) = Some (r +:+ t).
Proof.
  revert d. induction s as [|c s IH]; intros d; simpl; [done|]. destruct (is_char "(" c); [apply IH|].
  destruct (is_char ")" c); [|apply IH]. destruct d as [|[|d]]; [done|by intros [= <-]|apply IH].
Qed.
(** A word is no proper prefix of another. *)
Lemma paren_word_unique a b c d : paren_word a → paren_word c → a +:+ b = c +:+ d → a = c ∧ b = d.
Proof.
  intros (ta & -> & Ha) (tc & -> & Hc) E. injection E as E.
  apply (close_app _ _ _ b) in Ha. apply (close_app _ _ _ d) in Hc. rewrite E, Hc in Ha. simpl in Ha. injection Ha as <-.
  split; [|done]. f_equal. by eapply str_app_inj_r.
Qed.

(** What is relied on of the decompiler: it prints an element inside one pair
    of parentheses, escaping those of values, and an AND as its parts. *)
Class FilterLaws {FL : FilterLib} : Prop := {
  decompile_word p s : within_policy p → DecompileFilter p = Some s → paren_word s;
  decompile_and d c1 c2 s : DecompileFilter (Packet ClassContext FilterAnd d [c1; c2]) = Some s →
    ∃ s1 s2, DecompileFilter c1 = Some s1 ∧ DecompileFilter c2 = Some s2 ∧ s = "(&" +:+ s1 +:+ s2 +:+ ")";
}.

Section Compiled.
Context {FL : FilterLib}.

(** The canonical text is the match-all filter or prints a filter inside the
    policy from which it compiles again (the empty text is no filter). *)
Definition canonical_filter (canon : string) : Prop :=
  canon ≠ "" → ∃ p, CompileFilter canon = inl p ∧ DecompileFilter p = Some canon ∧ within_policy p.

Lemma CompileUserFilter_Compiled s canon : CompileUserFilter s = Compiled canon →
  (String.length canon <= MaxFilterBytes)%nat ∧ (TrimSpace s = "" → canon = matchAll) ∧ (TrimSpace s ≠ "" → canonical_filter canon).
Proof.
  unfold CompileUserFilter. destruct (_ <? _)%nat; [done|]. do 2 (destruct (negb _); [done|]).
  destruct (decide (TrimSpace s = "")) as [Et|Et].
  { rewrite bool_decide_eq_true_2 by done. intros [= <-]. split; [apply Nat.leb_le; vm_compute; reflexivity|]. by split; intros. }
  rewrite bool_decide_eq_false_2 by done. intros H. cut ((String.length canon <= MaxFilterBytes)%nat ∧ canonical_filter canon); [tauto|]. revert H.
  destruct (CompileFilter s) as [p|e]; [|done]. case_bool_decide; [done|]. unfold canonicalise.
  destruct (DecompileFilter p) as [c|]; [|done]. destruct (MaxFilterBytes <? String.length c)%nat eqn:El; [done|]. nat_prop.
  destruct (CompileFilter c) as [p2|] eqn:Ec.
  - case_bool_decide as Hp; [done|]. case_bool_decide as Hd; [|done]. intros [= <-]. split; [done|]. intros Hne.
    destruct (DecompileFilter p2) as [x|] eqn:Ex; simpl in Hd; subst; [|done].
    exists p2. rewrite <- checkFilter_iff. split; [done|]. split; [done|]. destruct (decide (checkFilter p2 = "")); [done|by destruct Hp].
  - case_bool_decide; [|done]. intros [= <-]. split; [done|]. by intros ?.
Qed.

(** A filter that is sent is a fixed point of compiling and printing, at most
    4096 bytes, and the filter it compiles to has at most 16 levels and 64
    elements, each of a known kind with admissible attribute descriptions,
    matching rules and values. *)
Theorem compiled_filter s canon :
  CompileUserFilter s = Compiled canon → TrimSpace s ≠ "" → canon ≠ "" →
  (String.length canon <= 4096)%nat ∧
  ∃ p, CompileFilter canon = inl p ∧ DecompileFilter p = Some canon ∧
       elements_ok p = true ∧ filter_depth p <= 16 ∧ filter_size p <= 64.
Proof. intros (Hl & _ & Hk)%CompileUserFilter_Compiled Ht Hne. split; [exact Hl|]. by apply Hk. Qed.

Context {FLL : FilterLaws}.
Lemma compiled_word s canon : CompileUserFilter s = Compiled canon → canon ≠ "" → paren_word canon.
Proof.
  intros (_ & H1 & H2)%CompileUserFilter_Compiled Hne. destruct (decide (TrimSpace s = "")) as [E|E].
  - rewrite H1 by done. by exists "objectClass=*)".
  - destruct (H2 E Hne) as (p & _ & Hd & Hw). by eapply decompile_word.
Qed.

(** C34. The filter of a search is the AND of exactly the base and the user filter:
    it compiles to an AND of two elements that prints back as it is, and as
    soon as the first element is inside the policy the elements print as the
    base filter and the user filter, so no filter text can close the AND
    early. *)
Theorem combined_filter sb su base user f :
  CompileUserFilter sb = Compiled base → CompileUserFilter su = Compiled user → Combine base user = Compiled f →
  f = "(&" +:+ base +:+ user +:+ ")" ∧
  ∃ d c1 c2, CompileFilter f = inl (Packet ClassContext FilterAnd d [c1; c2]) ∧
    DecompileFilter (Packet ClassContext FilterAnd d [c1; c2]) = Some f ∧
    (within_policy c1 → DecompileFilter c1 = Some base ∧ DecompileFilter c2 = Some user).
Proof.
  intros Hb Hu. unfold Combine. destruct (bool_decide (base = "")) eqn:E1; [done|]. destruct (bool_decide (user = "")) eqn:E2; [done|].
  bool_prop. cbn [orb]. destruct (CompileFilter _) as [[c t d cs]|] eqn:Ec; [|done]. cbn [pClass pTag pChildren].
  destruct (c =? ClassContext) eqn:E3; [|done]. destruct (t =? FilterAnd) eqn:E4; [|done].
  destruct cs as [|c1 [|c2 [|]]]; try done. nat_prop. subst. cbn [negb orb length Nat.eqb].
  case_bool_decide as Hd; [|done]. intros [= <-]. split; [done|]. exists d, c1, c2. split; [done|]. split; [done|]. intros Hw.
  apply decompile_and in Hd as (s1 & s2 & H1 & H2 & E). injection E as E. rewrite <- !str_app_assoc in E. apply str_app_inj_r in E.
  destruct (paren_word_unique base user s1 s2) as [<- <-]; [by eapply compiled_word|by eapply decompile_word|done|done].
Qed.
End Compiled.

(** ** A small filter language, for which the laws hold *)
Definition present (attr : string) : packet := Packet ClassContext FilterPresent (Some attr) [].
Definition show_present (p : packet) : option string :=
  let 'Packet _ t d _ := p in
  if (t =? FilterPresent) && bool_decide (checkAttr (default "" d) = "") && lacks "(" (default "" d) && lacks ")" (default "" d)
  then Some ("(" +:+ default "" d +:+ "=*)") else None.
Definition toy_decompile (p : packet) : option string :=
  match p with
  | Packet _ 0 _ [c1; c2] =>
      match show_present c1, show_present c2 with
      | Some s1, Some s2 => Some ("(&" +:+ s1 +:+ s2 +:+ ")")
      | _, _ => None
      end
  | _ => show_present p
  end.
Definition toy_compile (s : string) : packet + option string :=
  if bool_decide (s = "( mail=*)") || bool_decide (s = "(mail=*)") then inl (present "mail")
  else if bool_decide (s = "(&(objectClass=*)(mail=*))")
  then inl (Packet ClassContext FilterAnd None [present "objectClass"; present "mail"])
  else inr (Some "ldap: unexpected end of filter").
#[local] Instance toy_filters : FilterLib := {| CompileFilter := toy_compile; DecompileFilter := toy_decompile |}.

Lemma close_skip d s t : lacks "(" s = true → lacks ")" s = true → close d (s +:+ t) = close d t.
Proof.
  induction s as [|c s IH]; [done|]. intros [H1 H2]%lacks_cons [H3 H4]%lacks_cons. simpl. unfold is_char.
  rewrite !bool_decide_eq_false_2 by done. auto.
Qed.
Lemma show_present_close p s d t : show_present p = Some s → (1 <= d)%nat → close d (s +:+ t) = close d t.
Proof.
  destruct p as [c tg o cs]. unfold show_present. destruct (_ && _) eqn:E; [|done]. intros [= <-] Hd. bool_prop.
  cbn [String.app close]. rewrite str_app_assoc. cbn. rewrite close_skip by done. cbn. destruct d; [lia|done].
Qed.
Lemma show_present_word p s : show_present p = Some s → paren_word s.
Proof.
  destruct p as [c tg o cs]. unfold show_present. destruct (_ && _) eqn:E; [|done]. intros [= <-]. bool_prop.
  exists (default "" o +:+ "=*)"). split; [done|]. by rewrite close_skip.
Qed.
#[local] Instance toy_laws : FilterLaws.
Proof.
  split.
  - intros p s _. unfold DecompileFilter. simpl. unfold toy_decompile.
    destruct p as [c [|t|t] o [|c1 [|c2 [|]]]]; try apply show_present_word.
    destruct (show_present c1) as [s1|] eqn:E1; [|done]. destruct (show_present c2) as [s2|] eqn:E2; [|done]. intros [= <-].
    exists ("&" +:+ (s1 +:+ s2 +:+ ")")). split; [done|]. rewrite close_skip by done.
    rewrite (show_present_close _ _ _ _ E1), (show_present_close _ _ _ _ E2) by lia. done.
  - intros d c1 c2 s. unfold DecompileFilter. simpl.
    assert (S : ∀ p x, show_present p = Some x → toy_decompile p = Some x).
    { intros [c [|t|t] o [|x1 [|x2 [|]]]] x; simpl; done. }
    destruct (show_present c1) as [s1|] eqn:E1; [|done]. destruct (show_present c2) as [s2|] eqn:E2; [|done]. intros [= <-].
    exists s1, s2. auto.
Qed.

Lemma compiled_filter_witness :
  CompileUserFilter "( mail=*)" = Compiled "(mail=*)" ∧
  ∃ p, CompileFilter "(mail=*)" = inl p ∧ DecompileFilter p = Some "(mail=*)".
Proof.
  assert (E : CompileUserFilter "( mail=*)" = Compiled "(mail=*)") by (vm_compute; reflexivity). split; [exact E|].
  destruct (compiled_filter _ _ E) as (_ & p & H1 & H2 & _); [by vm_compute|done|]. by exists p.
Defined.
Lemma combined_filter_witness :
  Combine matchAll "(mail=*)" = Compiled "(&(objectClass=*)(mail=*))" ∧
  DecompileFilter (present "objectClass") = Some matchAll ∧ DecompileFilter (present "mail") = Some "(mail=*)".
Proof.
  assert (E : Combine matchAll "(mail=*)" = Compiled "(&(objectClass=*)(mail=*))") by (vm_compute; reflexivity). split; [exact E|].
  destruct (combined_filter "" "( mail=*)" matchAll "(mail=*)" "(&(objectClass=*)(mail=*))") as (_ & d & c1 & c2 & H1 & _ & H3);
    [vm_compute; reflexivity..|exact E|].
  vm_compute in H1. injection H1 as <- <- <-. apply H3. apply checkFilter_iff. vm_compute. reflexivity.
Defined.

(** A refusal text built from the parser's message keeps within its cap. *)
Lemma back_to_start_le d n : (back_to_start d n <= n)%nat.
Proof. induction n as [|n IH]; cbn [back_to_start]; [lia|]. destruct (String.get _ _); [|lia]. destruct (RuneStart _); lia. Qed.
Lemma filterParseDetail_bounded e : (0 < String.length (filterParseDetail e) <= maxFilterDetail + 3)%nat.
Proof.
  unfold filterParseDetail. destruct e as [msg|]; [|unfold maxFilterDetail; simpl; lia].
  set (d := foldr _ _ _). assert (H : ∀ s n, (String.length (String.substring 0 n s) <= n)%nat).
  { intros s. induction s as [|c s IH]; intros [|n]; simpl; try lia. specialize (IH n). lia. }
  destruct (maxFilterDetail <? String.length d)%nat eqn:El; nat_prop; (case_bool_decide as Hd; [unfold maxFilterDetail; simpl; lia|]).
  - rewrite str_length_app. pose proof (H d (back_to_start d maxFilterDetail)). pose proof (back_to_start_le d maxFilterDetail).
    change (String.length (bytes [226; 128; 166]%nat)) with 3%nat. lia.
  - destruct d; [done|]. cbn [String.length] in *. lia.
Qed.
