(* ===== verification/Password.v ===== *)
(** * Passwords (internal/crypto/password.go, internal/password/password.go)

    Argon2id is a parameter ([argon2]); the PHC text that stores its output,
    the tenant's rules for a new password and the check at sign-in are the
    code's. *)
From S2P Require Import Prelude GoStrings Base64 Utf8 Regex PermRef TenantCtx Models.
#[local] Open Scope Z_scope.

(** ** PHC strings *)
Record Params : Type := mkParams { PMemory : Z; PTime : Z; PThreads : Z; PSaltLen : nat; PKeyLen : nat }.
Definition DefaultParams : Params := mkParams (19 * 1024) 2 1 16 32.

(** argon2.IDKey(password, salt, time, memory, threads, keyLen). *)
Class Argon2 : Type := { argon2 : string → string → Z → Z → Z → nat → string }.
Class Argon2Laws `{Argon2} : Prop :=
  { argon2_length pw salt t m p n : String.length (argon2 pw salt t m p n) = n }.

Definition std_encode : string → string := b64_encode std_alphabet.
Definition std_decode : string → option string := b64_decode std_alphabet.
#[global] Arguments std_encode : simpl never.
#[global] Arguments std_decode : simpl never.

(** fmt.Sscanf with "m=%d,t=%d,p=%d" into uint32, uint32 and uint8: a number
    may be preceded by blanks, must not overflow its type, and what follows
    the last one is not looked at. *)
Fixpoint skip_blanks (s : string) : string :=
  match s with
  | String c r => if is_char " " c || is_char "009" c then skip_blanks r else s
  | EmptyString => ""
  end.
Fixpoint take_digits (s : string) : string * string :=
  match s with
  | String c r => if is_digit c then let '(d, r') := take_digits r in (String c d, r') else ("", s)
  | EmptyString => ("", "")
  end.
Definition scan_uint (max : Z) (s : string) : option (Z * string) :=
  let '(d, r) := take_digits (skip_blanks s) in
  if bool_decide (d = "") then None
  else let n := dec_acc d 0 in if max <? n then None else Some (n, r).
Definition scan_lit (p s : string) : option string := cut_prefix p s.

Definition scan_params (s : string) : option (Z * Z * Z) :=
  s ← scan_lit "m=" s; '(m, s) ← scan_uint (2 ^ 32 - 1) s;
  s ← scan_lit ",t=" s; '(t, s) ← scan_uint (2 ^ 32 - 1) s;
  s ← scan_lit ",p=" s; '(p, s) ← scan_uint 255 s;
  Some (m, t, p).

Section Phc.
Context `{Argon2}.

(** fmt.Sprintf("$argon2id$v=19$m=%d,t=%d,p=%d$%s$%s", ...) *)
Definition phc_text (p : Params) (salt key : string) : string :=
  "$argon2id$v=19$m=" +:+ FormatInt (PMemory p) +:+ ",t=" +:+ FormatInt (PTime p) +:+ ",p=" +:+
  FormatInt (PThreads p) +:+ "$" +:+ std_encode salt +:+ "$" +:+ std_encode key.
#[local] Arguments phc_text : simpl never.

(** [rand n]: what reading n bytes of the random source gives. *)
Definition HashPassword (rand : nat → option string) (password : string) (p : Params) : result string :=
  if bool_decide (password = "") then Err (ErrText "crypto: empty password") else
  match rand (PSaltLen p) with
  | None => Err ErrEntropy
  | Some salt =>
      let key := argon2 password salt (PTime p) (PMemory p) (PThreads p) (PKeyLen p) in
      Ok (phc_text p salt key)
  end.

(** (ok, rehash) *)
Definition VerifyPassword (password encoded : string) : result (bool * bool) :=
  match split "$" encoded with
  | [_; a; v; ps; sl; h] =>
      if bool_decide (a ≠ "argon2id") || bool_decide (v ≠ "v=19") then Err (ErrText "crypto: unsupported hash format") else
      match scan_params ps with
      | None => Err (ErrText "crypto: malformed parameters")
      | Some (m, t, p) =>
          match std_decode sl with
          | None => Err (ErrText "crypto: malformed salt")
          | Some salt =>
              match std_decode h with
              | None => Err (ErrText "crypto: malformed hash")
              | Some want =>
                  if bool_decide (want = "") then Err (ErrText "crypto: malformed hash") else
                  let got := argon2 password salt t m p (String.length want) in
                  Ok (bool_decide (got = want), (m <? PMemory DefaultParams) || (t <? PTime DefaultParams))
              end
          end
      end
  | _ => Err (ErrText "crypto: unsupported hash format")
  end.

(** ** The password package *)
Definition MaxLength : Z := 1024.
Definition ErrTooShort : err := ErrText "password: shorter than the tenant minimum".
Definition ErrTooLong : err := ErrText "password: longer than 1024 characters".
Definition ErrWeak : err := ErrText "password: must not be blank or a single repeated character".

Record PwRequirements : Type := mkRequirements { RqMinLength : Z; RqMaxLength : Z; RqRejectTrivial : bool }.
Definition RequirementsFor (p : Policy) : PwRequirements := mkRequirements (PasswordMinLength p) MaxLength true.

Definition Rule (e : err) : string :=
  if bool_decide (e = ErrTooShort) then "min_length"
  else if bool_decide (e = ErrTooLong) then "max_length"
  else if bool_decide (e = ErrWeak) then "reject_trivial"
  else "".

Definition singleRune (pw : string) : bool :=
  let first := hd RuneError (runes pw) in forallb (λ r, bool_decide (r = first)) (runes pw).

Definition Check (p : Policy) (pw : string) : result unit :=
  let n := Z.of_nat (RuneCount pw) in
  if MaxLength <? n then Err ErrTooLong
  else if n <? PasswordMinLength p then Err ErrTooShort
  else if bool_decide (TrimSpace pw = "") || singleRune pw then Err ErrWeak
  else Ok tt.

Definition Hash (rand : nat → option string) (pw : string) : result string := HashPassword rand pw DefaultParams.

(** (ok, rehash); the dummy hash of the empty case only costs time. *)
Definition PasswordVerify (pw encoded : string) : bool * bool :=
  let pw := if MaxLength <? Z.of_nat (RuneCount pw) then String.substring 0 1024 pw else pw in
  if bool_decide (encoded = "") then (false, false)
  else match VerifyPassword pw encoded with
       | Err _ => (false, false)
       | Ok r => r
       end.
End Phc.

(** ** What is stored verifies *)
Section PhcFacts.
Context {A : Argon2} {AL : Argon2Laws}.


Lemma digits_lack c s : is_digit c = false → str_all is_digit s = true → lacks c s = true.
Proof using Type.
  intros Hc. apply str_all_impl. intros x Hx. unfold is_char. case_bool_decide; [congruence|done].
Qed.

Lemma take_digits_app d r : str_all is_digit d = true →
  (match r with String c _ => is_digit c | EmptyString => false end) = false → take_digits (d +:+ r) = (d, r).
Proof using Type.
  intros Hd Hr. induction d as [|c d IH]; cbn in *.
  - destruct r as [|c r]; [done|]. cbn. by rewrite Hr.
  - apply andb_true_iff in Hd as [-> Hd]. by rewrite IH.
Qed.
Lemma skip_blanks_digits d r : d ≠ "" → str_all is_digit d = true → skip_blanks (d +:+ r) = d +:+ r.
Proof using Type.
  intros Hne Hd. destruct d as [|c d]; [done|]. cbn in *. apply andb_true_iff in Hd as [Hc _].
  assert (Hb : is_char " " c || is_char "009" c = false).
  { unfold is_char. apply orb_false_iff. split; apply bool_decide_eq_false; intros ->; vm_compute in Hc; done. }
  by rewrite Hb.
Qed.
Lemma scan_uint_FormatInt max n r : 0 <= n <= max →
  (match r with String c _ => is_digit c | EmptyString => false end) = false →
  scan_uint max (FormatInt n +:+ r) = Some (n, r).
Proof using Type.
  intros Hn Hr. destruct (FormatInt_digits n) as (Hd & Hne & Hv); [lia|]. unfold scan_uint.
  rewrite skip_blanks_digits, take_digits_app, bool_decide_eq_false_2, Hv, (proj2 (Z.ltb_ge max n)) by (done || lia). done.
Qed.

Definition params_text (p : Params) : string :=
  "m=" +:+ FormatInt (PMemory p) +:+ ",t=" +:+ FormatInt (PTime p) +:+ ",p=" +:+ FormatInt (PThreads p).
(** The parameters fit the types they are declared with. *)
Definition params_fit (p : Params) : Prop :=
  0 <= PMemory p <= 2 ^ 32 - 1 ∧ 0 <= PTime p <= 2 ^ 32 - 1 ∧ 0 <= PThreads p <= 255 ∧ PKeyLen p ≠ O.

Lemma scan_params_text p : params_fit p → scan_params (params_text p) = Some (PMemory p, PTime p, PThreads p).
Proof using Type.
  intros (Hm & Ht & Hp & _). unfold scan_params, params_text, scan_lit. rewrite cut_prefix_app. cbn [mbind option_bind].
  rewrite scan_uint_FormatInt by done. cbn [mbind option_bind]. rewrite cut_prefix_app. cbn [mbind option_bind].
  rewrite scan_uint_FormatInt by done. cbn [mbind option_bind]. rewrite cut_prefix_app. cbn [mbind option_bind].
  rewrite <- (str_app_nil_r (FormatInt (PThreads p))). by rewrite scan_uint_FormatInt.
Qed.

Lemma std_decode_encode s : std_decode (std_encode s) = Some s.
Proof using Type. apply b64_decode_encode, std_alphabet_ok. Qed.

Lemma HashPassword_split salt p key : params_fit p →
  split "$" (phc_text p salt key) =
  [""; "argon2id"; "v=19"; params_text p; std_encode salt; std_encode key].
Proof using Type.
  intros (Hm & Ht & Hp & _). rewrite <- (split_join "$" [""; "argon2id"; "v=19"; params_text p; std_encode salt; std_encode key]).
  - f_equal. unfold params_text, phc_text. cbn. rewrite !str_app_assoc. cbn. rewrite !str_app_assoc. done.
  - done.
  - assert (Hd : ∀ n, 0 <= n → lacks "$" (FormatInt n) = true).
    { intros n Hn. apply digits_lack; [done|]. by apply FormatInt_digits. }
    rewrite !Forall_cons. split_and!; try done.
    + unfold params_text. rewrite !lacks_app, !Hd by lia. done.
    + apply b64_encode_lacks; [apply std_alphabet_ok|done].
    + apply b64_encode_lacks; [apply std_alphabet_ok|done].
Qed.

(** Verifying any password against a stored hash compares the argon2 outputs
    under the salt and parameters of the hash. *)
Lemma VerifyPassword_hash rand pw p h pw' salt :
  params_fit p → rand (PSaltLen p) = Some salt → HashPassword rand pw p = Ok h →
  VerifyPassword pw' h =
    Ok (bool_decide (argon2 pw' salt (PTime p) (PMemory p) (PThreads p) (PKeyLen p) =
                     argon2 pw salt (PTime p) (PMemory p) (PThreads p) (PKeyLen p)),
        (PMemory p <? PMemory DefaultParams) || (PTime p <? PTime DefaultParams)).
Proof using AL.
  intros Hf Hr. unfold HashPassword. case_bool_decide; [done|]. rewrite Hr. intros [= <-].
  unfold VerifyPassword. rewrite HashPassword_split by done. cbn [bool_decide].
  rewrite !(bool_decide_eq_false_2 (_ ≠ _)) by (intros Hn; by apply Hn). cbn [orb].
  rewrite scan_params_text, !std_decode_encode by done. rewrite argon2_length.
  rewrite bool_decide_eq_false_2; [done|]. intros E. apply (f_equal String.length) in E. rewrite argon2_length in E.
  by destruct Hf as (_ & _ & _ & ?).
Qed.

(** ** Rules and check agree *)
Lemma singleRune_false pw : singleRune pw = false → ∃ r1 r2, r1 ∈ runes pw ∧ r2 ∈ runes pw ∧ r1 ≠ r2.
Proof using Type.
  unfold singleRune. intros Hf. destruct (runes pw) as [|r l] eqn:E; [done|]. cbn [hd] in Hf.
  exists r. destruct (decide (Forall (λ x, x = r) (r :: l))) as [Ha|Ha].
  - exfalso. apply not_true_iff_false in Hf. apply Hf. apply forallb_forall. intros x Hx%list_elem_of_In.
    apply bool_decide_eq_true. by eapply Forall_forall in Ha.
  - apply not_Forall_Exists in Ha; [|apply _]. apply Exists_exists in Ha as (x & Hx & Hn).
    exists x. split_and!; [by apply elem_of_cons; left|done|congruence].
Qed.

Lemma Hash_total rand salt pw : rand 16%nat = Some salt → pw ≠ "" → ∃ h, Hash rand pw = Ok h.
Proof using Type. intros Hr Hp. unfold Hash, HashPassword. rewrite bool_decide_eq_false_2 by done. cbn [PSaltLen DefaultParams]. rewrite Hr. eauto. Qed.
(** A stored hash verifies exactly what argon2 cannot tell from the password. *)
Lemma Hash_verify rand salt pw h : rand 16%nat = Some salt → Hash rand pw = Ok h →
  ∀ pw', Z.of_nat (RuneCount pw') <= MaxLength → PasswordVerify pw' h =
    (bool_decide (argon2 pw' salt 2 (19 * 1024) 1 32%nat = argon2 pw salt 2 (19 * 1024) 1 32%nat), false).
Proof using AL.
  intros Hr Eh pw' Hl. unfold PasswordVerify. rewrite (proj2 (Z.ltb_ge _ _)) by done.
  rewrite (VerifyPassword_hash rand pw DefaultParams h pw' salt); [|by vm_compute|done|done].
  rewrite bool_decide_eq_false_2; [done|]. intros ->. unfold Hash, HashPassword in Eh.
  case_bool_decide; [done|]. cbn [PSaltLen DefaultParams] in Eh. by rewrite Hr in Eh.
Qed.
Lemma Check_ok pol pw : Check pol pw = Ok tt →
  (PasswordMinLength pol <= Z.of_nat (RuneCount pw) <= MaxLength) ∧ pw ≠ "" ∧ singleRune pw = false.
Proof using Type.
  unfold Check. intros Hc. destruct (MaxLength <? _) eqn:E1; [done|]. destruct (_ <? PasswordMinLength pol) eqn:E2; [done|].
  destruct (bool_decide (TrimSpace pw = "")) eqn:E3; [done|]. destruct (singleRune pw) eqn:E4; [done|]. bool_prop.
  split_and!; [lia|lia| |done]. by intros ->.
Qed.

(** A password that passes the tenant's rules: its length is inside the
    bounds, it has two different characters, and once hashed it verifies
    without a rehash; a password of legal length verifies against the stored
    hash only if argon2 cannot tell the two apart. *)
Theorem checked_password_verifies rand salt pol pw :
  Check pol pw = Ok tt → rand 16%nat = Some salt →
  (PasswordMinLength pol <= Z.of_nat (RuneCount pw) <= MaxLength) ∧
  (∃ r1 r2, r1 ∈ runes pw ∧ r2 ∈ runes pw ∧ r1 ≠ r2) ∧
  ∃ h, Hash rand pw = Ok h ∧ PasswordVerify pw h = (true, false) ∧
    ∀ pw' rh, Z.of_nat (RuneCount pw') <= MaxLength → PasswordVerify pw' h = (true, rh) →
      argon2 pw' salt 2 (19 * 1024) 1 32%nat = argon2 pw salt 2 (19 * 1024) 1 32%nat.
Proof using AL.
  intros Hc Hr. destruct (Check_ok pol pw Hc) as (Hlen & Hne & Hs).
  split; [lia|]. split; [by apply singleRune_false|].
  destruct (Hash_total rand salt pw Hr Hne) as [h Eh].
  exists h. split; [done|].
  pose proof (Hash_verify rand salt pw h Hr Eh) as Hv.
  split; [rewrite Hv by lia; by rewrite bool_decide_eq_true_2|].
  intros pw' rh Hl. rewrite Hv by done. intros [= E _]. by apply bool_decide_eq_true in E.
Qed.
End PhcFacts.

(** A stand-in for argon2 that returns the password and salt, cut or filled
    to length. *)
Fixpoint fill (n : nat) (s : string) : string :=
  match n, s with
  | O, _ => ""
  | S n', String c r => String c (fill n' r)
  | S n', EmptyString => String "." (fill n' "")
  end.
Lemma fill_length n s : String.length (fill n s) = n.
Proof. revert s. induction n as [|n IH]; intros [|c s]; cbn; congruence. Qed.
#[local] Instance toyArgon2 : Argon2 := {| argon2 pw salt _ _ _ n := fill n (pw +:+ salt) |}.
#[local] Instance toyArgon2_laws : Argon2Laws.
Proof.
  split. intros pw salt t m p n. apply fill_length.
Qed.

Lemma checked_password_verifies_witness :
  Check DefaultPolicy "correct horse" = Ok tt ∧
  ∃ h, Hash (λ n, Some (fill n "salt")) "correct horse" = Ok h ∧ PasswordVerify "correct horse" h = (true, false).
Proof.
  split; [vm_compute; reflexivity|].
  destruct (checked_password_verifies (λ n, Some (fill n "salt")) (fill 16 "salt") DefaultPolicy "correct horse")
    as (_ & _ & h & Hh & Hv & _); [vm_compute; reflexivity|reflexivity|]. exists h. split; [exact Hh|exact Hv].
Defined.
