(* ===== verification/Cache.v ===== *)
(** * The key-value cache (internal/cache/cache.go, internal/cache/memory.go)

    [KV] is the Go interface of the same name; [KVLaws] is what its users rely
    on, stated through one observation, [kv_at w t k]: what a read of [k]
    answers at time [t] when nothing else happens in between.  [Memory] is the
    in-process implementation and is proved to satisfy the laws; the service
    operations of [Cache] (revocation marks, counters, lockouts, versions) are
    written against the interface.

    A value is text.  JSON documents the service stores are kept as trees
    ([json]); their text is what encoding/json prints. *)
From S2P Require Import Prelude GoStrings.
#[local] Open Scope go_scope.

(** ** Values *)
Inductive json : Type :=
  | JStr (s : string)
  | JInt (n : Z)
  | JBool (b : bool)
  | JTime (t : option Z)          (* RFC 3339 text; [None] is the zero Time *)
  | JList (l : list string)
  | JObj (fields : list (string * json)).

Inductive value : Type := Raw (s : string) | Json (j : json).

(** json.Unmarshal into a struct: an absent field is the zero value, a field of
    another type is an error. *)
Fixpoint field (n : string) (l : list (string * json)) : option json :=
  match l with
  | [] => None
  | (k, j) :: l' => if bool_decide (k = n) then Some j else field n l'
  end.
Definition f_str (n : string) l : option string :=
  match field n l with None => Some "" | Some (JStr s) => Some s | _ => None end.
Definition f_int (n : string) l : option Z :=
  match field n l with None => Some 0%Z | Some (JInt z) => Some z | _ => None end.
Definition f_bool (n : string) l : option bool :=
  match field n l with None => Some false | Some (JBool b) => Some b | _ => None end.
Definition f_list (n : string) l : option (list string) :=
  match field n l with None => Some [] | Some (JList x) => Some x | _ => None end.
Definition f_time (n : string) l : option (option Z) :=
  match field n l with None => Some None | Some (JTime t) => Some t | _ => None end.

(** ** Keys *)
Definition SessionKey (sid : string) : string := "sess:" +:+ sid.
Definition RevokedSessionKey (sid : string) : string := "rev:sid:" +:+ sid.
Definition RevokedUserKey (uid : string) : string := "rev:user:" +:+ uid.
Definition RevokedTenantKey (tid : string) : string := "rev:tenant:" +:+ tid.
Definition LockKey (uid : string) : string := "lock:" +:+ uid.
Definition RateKey (kind subject : string) : string := "rl:" +:+ kind +:+ ":" +:+ subject.
Definition DecisionKey (tid uid perm : string) : string :=
  "dec:" +:+ tid +:+ ":" +:+ uid +:+ ":" +:+ perm.
Definition TenantVersionKey (tid : string) : string := "tenantver:" +:+ tid.
Definition CodeKey (hash : string) : string := "code:" +:+ hash.
Definition ChallengeKey (id : string) : string := "mfa:" +:+ id.
Definition WebAuthnKey (purpose subject : string) : string :=
  "challenge:webauthn:" +:+ purpose +:+ ":" +:+ subject.
Definition RevokedChannel : string := "auth:revoked".

(** ** The interface

    The first argument of each operation is the clock of the store. *)
Class KV (K : Type) : Type := {
  kv_get : Z → string → M K (option value);
  kv_getdel : Z → string → M K (option value);
  kv_set : Z → string → value → Z → M K unit;
  kv_del : Z → list string → M K unit;
  kv_incr : Z → string → Z → M K Z;
  kv_publish : string → string → M K unit;
}.

(** The count a stored counter stands for. *)
Definition counter_of (v : option value) : Z :=
  match v with Some (Raw s) => dec_acc s 0 | _ => 0 end.

(** Whether a value written at [now] with [ttl] (0 or less: none) is live at [t]. *)
Definition ttl_live (now ttl t : Z) : bool := (ttl <=? 0)%Z || (t <? now + ttl)%Z.

(** What the cache server promises when it is reachable: every operation
    succeeds and does what its name says.  The in-process cache always does;
    failures of a remote one, deletions whose error the source drops among
    them, are outside the theorems that assume these laws. *)
Class KVLaws (K : Type) `{KV K} : Type := {
  kv_at : K → Z → string → option value;
  kv_at_mono : ∀ w t t' k v, (t <= t')%Z → kv_at w t' k = Some v → kv_at w t k = Some v;
  kv_get_law : ∀ now k w, ∃ w',
    kv_get now k w = (Ok (kv_at w now k), w') ∧
    ∀ t k', (now <= t)%Z → kv_at w' t k' = kv_at w t k';
  kv_getdel_law : ∀ now k w, ∃ w',
    kv_getdel now k w = (Ok (kv_at w now k), w') ∧
    ∀ t k', (now <= t)%Z → kv_at w' t k' = if decide (k' = k) then None else kv_at w t k';
  kv_set_law : ∀ now k v ttl w, ∃ w',
    kv_set now k v ttl w = (Ok tt, w') ∧
    ∀ t k', (now <= t)%Z → kv_at w' t k' =
      if decide (k' = k) then (if ttl_live now ttl t then Some v else None) else kv_at w t k';
  kv_del_law : ∀ now ks w, ∃ w',
    kv_del now ks w = (Ok tt, w') ∧
    ∀ t k', (now <= t)%Z → kv_at w' t k' = if decide (k' ∈ ks) then None else kv_at w t k';
  kv_incr_law : ∀ now k ttl w, (0 <= counter_of (kv_at w now k))%Z → ∃ w',
    let n := (counter_of (kv_at w now k) + 1)%Z in
    kv_incr now k ttl w = (Ok n, w') ∧
    ∀ t k', (now <= t)%Z → kv_at w' t k' =
      if decide (k' = k)
      then match kv_at w now k with
           | Some _ => if kv_at w t k then Some (Raw (FormatInt n)) else None
           | None => if ttl_live now ttl t then Some (Raw (FormatInt n)) else None
           end
      else kv_at w t k';
  kv_incr_frame : ∀ now k ttl w, ∃ r w',
    kv_incr now k ttl w = (r, w') ∧ ∀ t k', (now <= t)%Z → k' ≠ k → kv_at w' t k' = kv_at w t k';
  kv_publish_law : ∀ c m w, ∃ w',
    kv_publish c m w = (Ok tt, w') ∧ ∀ t k, kv_at w' t k = kv_at w t k;
}.

(** ** Memory: the in-process implementation *)
Record entry : Type := mkEntry { e_v : value; e_exp : option Z }.
Record Memory : Type := mkMemory {
  data : gmap string entry;
  published : list (string * string);   (* messages handed to subscribers *)
}.
Definition NewMemory : Memory := mkMemory ∅ [].

Definition set_data (m : Memory) (d : gmap string entry) : Memory := mkMemory d (published m).

Definition expired (e : entry) (now : Z) : bool :=
  match e_exp e with Some x => negb (now <? x)%Z | None => false end.

(** [live] drops the entry it finds expired. *)
Definition live (now : Z) (k : string) (m : Memory) : option entry * Memory :=
  match data m !! k with
  | None => (None, m)
  | Some e => if expired e now then (None, set_data m (delete k (data m))) else (Some e, m)
  end.

Definition mem_get (now : Z) (k : string) : M Memory (option value) := λ m,
  let '(e, m) := live now k m in (Ok (e_v <$> e), m).

Definition mem_getdel (now : Z) (k : string) : M Memory (option value) := λ m,
  let '(e, m) := live now k m in (Ok (e_v <$> e), set_data m (delete k (data m))).

Definition exp_of (now ttl : Z) : option Z := if (0 <? ttl)%Z then Some (now + ttl)%Z else None.

Definition mem_set (now : Z) (k : string) (v : value) (ttl : Z) : M Memory unit := λ m,
  (Ok tt, set_data m (<[k := mkEntry v (exp_of now ttl)]> (data m))).

Definition mem_del (now : Z) (ks : list string) : M Memory unit := λ m,
  (Ok tt, set_data m (foldl (λ d k, delete k d) (data m) ks)).

(** [itoa] of memory.go: digits of a non-negative number. *)
Definition itoa (n : Z) : string := format_nonneg n.

Definition mem_incr (now : Z) (k : string) (ttl : Z) : M Memory Z := λ m,
  let '(e, m) := live now k m in
  let n := (counter_of (e_v <$> e) + 1)%Z in
  let exp := match e with Some e => e_exp e | None => exp_of now ttl end in
  (Ok n, set_data m (<[k := mkEntry (Raw (itoa n)) exp]> (data m))).

Definition mem_publish (channel msg : string) : M Memory unit := λ m,
  (Ok tt, mkMemory (data m) (published m ++ [(channel, msg)])).

#[export] Instance Memory_KV : KV Memory := {|
  kv_get := mem_get; kv_getdel := mem_getdel; kv_set := mem_set;
  kv_del := mem_del; kv_incr := mem_incr; kv_publish := mem_publish |}.

Definition mem_at (m : Memory) (t : Z) (k : string) : option value :=
  match data m !! k with
  | Some e => if expired e t then None else Some (e_v e)
  | None => None
  end.

Section MemoryLaws.
Lemma expired_mono e t t' : (t <= t')%Z → expired e t = true → expired e t' = true.
Proof. unfold expired. destruct (e_exp e); [|done]. intros. bool_prop. apply negb_true_iff, Z.ltb_ge. lia. Qed.

Lemma live_spec now k m : ∃ m',
  live now k m = (if mem_at m now k then data m !! k else None, m') ∧
  (e_v <$> (live now k m).1) = mem_at m now k ∧
  (∀ k', k' ≠ k → data m' !! k' = data m !! k') ∧
  (∀ t k', (now <= t)%Z → mem_at m' t k' = mem_at m t k').
Proof.
  unfold live, mem_at. destruct (data m !! k) as [e|] eqn:E; [|by exists m].
  destruct (expired e now) eqn:X; [|by exists m].
  eexists. split; [done|]. split; [done|]. split.
  - intros k' Hk. simpl. by rewrite lookup_delete_ne.
  - intros t k' Ht. simpl. destruct (decide (k' = k)) as [->|Hk].
    + rewrite lookup_delete_eq, E. by rewrite (expired_mono e now t).
    + by rewrite lookup_delete_ne.
Qed.

Lemma mem_at_set_data_insert m t k k' e :
  mem_at (set_data m (<[k:=e]> (data m))) t k' =
  if decide (k' = k) then (if expired e t then None else Some (e_v e)) else mem_at m t k'.
Proof.
  unfold mem_at. simpl. destruct (decide (k' = k)) as [->|Hk].
  - by rewrite lookup_insert_eq.
  - by rewrite lookup_insert_ne.
Qed.

Lemma mem_at_delete m t k k' :
  mem_at (set_data m (delete k (data m))) t k' = if decide (k' = k) then None else mem_at m t k'.
Proof.
  unfold mem_at. simpl. destruct (decide (k' = k)) as [->|Hk].
  - by rewrite lookup_delete_eq.
  - by rewrite lookup_delete_ne.
Qed.

Lemma expired_exp_of v now ttl t : expired (mkEntry v (exp_of now ttl)) t = negb (ttl_live now ttl t).
Proof.
  unfold expired, exp_of, ttl_live. simpl.
  destruct (0 <? ttl)%Z eqn:E, (ttl <=? 0)%Z eqn:E2; bool_prop; try lia; done.
Qed.

Lemma itoa_FormatInt n : (0 <= n)%Z → itoa n = FormatInt n.
Proof. intros H. unfold itoa, FormatInt. by rewrite (proj2 (Z.ltb_ge n 0)). Qed.

Lemma foldl_delete_lookup (ks : list string) : ∀ (d : gmap string entry) k,
  foldl (λ d k, delete k d) d ks !! k = if decide (k ∈ ks) then None else d !! k.
Proof.
  induction ks as [|x ks IH]; intros d k; cbn [foldl].
  - case_decide; [set_solver|done].
  - rewrite IH. destruct (decide (k ∈ ks)) as [H1|H1], (decide (k ∈ x :: ks)) as [H2|H2];
      rewrite ?elem_of_cons in H2; try tauto.
    + destruct H2 as [->|?]; [|done]. by rewrite lookup_delete_eq.
    + rewrite lookup_delete_ne; [done|]. intros ->. tauto.
Qed.
End MemoryLaws.

#[export] Program Instance Memory_KVLaws : KVLaws Memory := {| kv_at := mem_at |}.
Next Obligation.
  intros m t t' k v Ht. unfold mem_at. destruct (data m !! k) as [e|]; [|done].
  destruct (expired e t') eqn:E'; [done|]. destruct (expired e t) eqn:E; [|done].
  by rewrite (expired_mono e t t') in E'.
Qed.
Next Obligation.
  intros now k m. destruct (live_spec now k m) as (m' & E & Ev & _ & Hm).
  exists m'. simpl. unfold mem_get. rewrite E in Ev |- *. simpl in Ev. rewrite Ev. done.
Qed.
Next Obligation.
  intros now k m. destruct (live_spec now k m) as (m' & E & Ev & _ & Hm).
  eexists. simpl. unfold mem_getdel. rewrite E in Ev |- *. simpl in Ev. rewrite Ev. split; [done|].
  intros t k' Ht. rewrite mem_at_delete. case_decide; [done|]. by apply Hm.
Qed.
Next Obligation.
  intros now k v ttl m. eexists. split; [done|]. intros t k' Ht. simpl.
  rewrite mem_at_set_data_insert. case_decide; [|done]. rewrite expired_exp_of.
  by destruct (ttl_live now ttl t).
Qed.
Next Obligation.
  intros now ks m. eexists. split; [done|]. intros t k' Ht. unfold mem_at. simpl.
  rewrite foldl_delete_lookup. by case_decide.
Qed.
Next Obligation.
  intros now k ttl m Hn. destruct (live_spec now k m) as (m' & E & Ev & _ & Hm).
  eexists. simpl. unfold mem_incr. rewrite E in Ev |- *. simpl in Ev. rewrite Ev. split; [done|].
  intros t k' Ht. rewrite mem_at_set_data_insert. case_decide; [|by apply Hm]. subst k'.
  rewrite <- itoa_FormatInt by lia.
  destruct (mem_at m now k) as [v|] eqn:Em.
  - unfold mem_at in Em |- *. destruct (data m !! k) as [e|]; [|done]. unfold expired at 1. simpl.
    unfold expired. destruct (e_exp e); [|done]. by destruct (negb (t <? z)%Z).
  - rewrite expired_exp_of. by destruct (ttl_live now ttl t).
Qed.
Next Obligation.
  intros now k ttl m. destruct (live_spec now k m) as (m' & E & _ & _ & Hm). do 2 eexists. simpl. unfold mem_incr.
  rewrite E. split; [done|]. intros t k' Ht Hk. rewrite mem_at_set_data_insert, decide_False by done. by apply Hm.
Qed.
Next Obligation. intros c m w. by eexists. Qed.

(** ** Cache: the service's operations over a KV *)
Section CacheOps.
Context {K : Type} `{KV K}.

Definition MarkRevoked (now : Z) (key : string) (at_ ttl : Z) : M K unit :=
  kv_set now key (Raw (FormatInt at_)) ttl ;;;
  kv_publish RevokedChannel (key +:+ "|" +:+ FormatInt at_).

Definition RevokedAt (now : Z) (key : string) : M K (option Z) :=
  v <- kv_get now key ;;
  match v with
  | None => ret None
  | Some (Raw s) => match ParseInt s with Some n => ret (Some n) | None => throw ErrCorrupt end
  | Some (Json _) => throw ErrCorrupt
  end.

Definition Count (now : Z) (key : string) (window : Z) : M K Z := kv_incr now key window.

Definition Locked (now : Z) (uid : string) : M K bool :=
  v <- kv_get now (LockKey uid) ;; ret (if v then true else false).
Definition Lock (now : Z) (uid : string) (d : Z) : M K unit :=
  kv_set now (LockKey uid) (Raw "1") d.
Definition Unlock (now : Z) (uid : string) : M K unit := kv_del now [LockKey uid].

Definition TenantVersion (now : Z) (tid : string) : M K Z :=
  v <- kv_get now (TenantVersionKey tid) ;;
  match v with
  | None => ret 0%Z
  | Some (Raw s) => match ParseInt s with Some n => ret n | None => throw ErrCorrupt end
  | Some (Json _) => throw ErrCorrupt
  end.
Definition BumpTenantVersion (now : Z) (tid : string) : M K Z := kv_incr now (TenantVersionKey tid) 0.
End CacheOps.

Section CacheFacts.
Context {K : Type} `{KVLaws K}.

Lemma counter_of_Raw n : (0 <= n)%Z → counter_of (Some (Raw (FormatInt n))) = n.
Proof.
  intros Hn. unfold counter_of, FormatInt. rewrite (proj2 (Z.ltb_ge n 0)) by done.
  by apply format_nonneg_spec.
Qed.

(** A read leaves every later observation unchanged. *)
Lemma kv_get_run now k (w : K) r w' :
  kv_get now k w = (r, w') →
  r = Ok (kv_at w now k) ∧ ∀ t k', (now <= t)%Z → kv_at w' t k' = kv_at w t k'.
Proof. destruct (kv_get_law now k w) as (w1 & E & Hw). rewrite E. by intros [= <- <-]. Qed.

Lemma MarkRevoked_run now key at_ ttl (w : K) r w' :
  MarkRevoked now key at_ ttl w = (r, w') →
  r = Ok tt ∧ ∀ t k, (now <= t)%Z → kv_at w' t k =
    if decide (k = key) then (if ttl_live now ttl t then Some (Raw (FormatInt at_)) else None)
    else kv_at w t k.
Proof.
  unfold MarkRevoked, bind. destruct (kv_set_law now key (Raw (FormatInt at_)) ttl w) as (w1 & E & Hw).
  rewrite E. destruct (kv_publish_law RevokedChannel (key +:+ "|" +:+ FormatInt at_) w1) as (w2 & E2 & Hw2).
  rewrite E2. intros [= <- <-]. split; [done|]. intros t k Ht. by rewrite Hw2, Hw.
Qed.

Lemma RevokedAt_run now key (w : K) r w' :
  RevokedAt now key w = (r, w') →
  (∀ t k, (now <= t)%Z → kv_at w' t k = kv_at w t k) ∧
  match kv_at w now key with
  | None => r = Ok None
  | Some (Raw s) => r = match ParseInt s with Some n => Ok (Some n) | None => Err ErrCorrupt end
  | Some (Json _) => r = Err ErrCorrupt
  end.
Proof.
  unfold RevokedAt, bind. destruct (kv_get_law now key w) as (w1 & E & Hw). rewrite E.
  destruct (kv_at w now key) as [[s|j]|]; [destruct (ParseInt s)|..];
    unfold ret, throw; by intros [= <- <-].
Qed.

Lemma TenantVersion_run now tid (w : K) r w' :
  TenantVersion now tid w = (r, w') → ∀ t k, (now <= t)%Z → kv_at w' t k = kv_at w t k.
Proof.
  unfold TenantVersion, bind. destruct (kv_get_law now (TenantVersionKey tid) w) as (w1 & E & Hw).
  rewrite E. destruct (kv_at w now (TenantVersionKey tid)) as [[s|j]|]; [destruct (ParseInt s)|..];
    unfold ret, throw; by intros [= <- <-].
Qed.

(** *** Fixed-window counters *)
Fixpoint count_run (key : string) (window : Z) (ts : list Z) (w : K) : list (result Z) * K :=
  match ts with
  | [] => ([], w)
  | t :: ts' => let '(r, w1) := Count t key window w in
                let '(rs, w2) := count_run key window ts' w1 in (r :: rs, w2)
  end.

(** From [now] on the counter stands at [n] until [exp], then is gone. *)
Definition counting (key : string) (now n exp : Z) (w : K) : Prop :=
  ∀ t, (now <= t)%Z → kv_at w t key = if (t <? exp)%Z then Some (Raw (FormatInt n)) else None.

Lemma counting_step key window now t n exp (w : K) :
  (0 <= n)%Z → (now <= t < exp)%Z → counting key now n exp w →
  ∃ w', Count t key window w = (Ok (n + 1)%Z, w') ∧ counting key t (n + 1) exp w'.
Proof.
  intros Hn Ht Hc. pose proof (Hc t ltac:(lia)) as Hnow. rewrite (proj2 (Z.ltb_lt t exp)) in Hnow by lia.
  unfold Count. destruct (kv_incr_law t key window w) as (w' & E & Hw);
    [by rewrite Hnow, counter_of_Raw|].
  rewrite Hnow, counter_of_Raw in E, Hw by done. exists w'. split; [done|].
  intros u Hu. rewrite Hw by done. rewrite decide_True by done. rewrite (Hc u) by lia.
  by destruct (u <? exp)%Z.
Qed.

Lemma counting_run key window exp ts : ∀ now n (w : K),
  (0 <= n)%Z → counting key now n exp w → Sorted Z.le (now :: ts) → Forall (λ t, (t < exp)%Z) ts →
  (count_run key window ts w).1 = (λ i, Ok (n + 1 + Z.of_nat i)%Z) <$> seq 0 (length ts) ∧
  ∃ last, (now <= last)%Z ∧ (last = now ∨ last ∈ ts) ∧
    counting key last (n + Z.of_nat (length ts)) exp (count_run key window ts w).2.
Proof.
  induction ts as [|t ts IH]; intros now n w Hn Hc Hs Hb; simpl.
  - split; [done|]. exists now. rewrite Z.add_0_r. split_and!; [lia|by left|done].
  - apply Forall_cons in Hb as [Htb Hb]. apply Sorted_inv in Hs as [Hs Hh]. apply HdRel_inv in Hh.
    destruct (counting_step key window now t n exp w) as (w1 & E & Hc1); [done|lia|done|].
    rewrite E. destruct (IH t (n + 1)%Z w1 ltac:(lia) Hc1 Hs Hb) as [I1 (last & I2 & I3 & I4)].
    destruct (count_run key window ts w1) as [rs w2] eqn:Er. simpl in *. split.
    + f_equal; [f_equal; lia|]. rewrite I1, <- fmap_S_seq, <- list_fmap_compose.
      apply list_fmap_ext. intros i x _. simpl. f_equal. lia.
    + exists last. split; [lia|]. split; [destruct I3 as [->|?]; right; set_solver|].
      by replace (n + Z.of_nat (S (length ts)))%Z with (n + 1 + Z.of_nat (length ts))%Z by lia.
Qed.

Lemma counting_first key window t (w : K) :
  (0 < window)%Z → kv_at w t key = None →
  ∃ w', Count t key window w = (Ok 1%Z, w') ∧ counting key t 1 (t + window) w'.
Proof.
  intros Hw Hnone. unfold Count. destruct (kv_incr_law t key window w) as (w' & E & Hl);
    [by rewrite Hnone|]. rewrite Hnone in E, Hl. exists w'. split; [done|].
  intros u Hu. rewrite Hl by done. rewrite decide_True by done. unfold ttl_live.
  by rewrite (proj2 (Z.leb_gt window 0)).
Qed.
End CacheFacts.

(** A windowed counter over any lawful KV counts the calls of one window and
    restarts after it: starting from no counter, the calls at [t0] and at the
    sorted times [ts] inside [t0 + window) answer 1, 2, 3, ...; the window is
    not extended by them, and the first call at or after its end answers 1. *)
Theorem count_window `{KVLaws K} key window t0 ts (w : K) :
  (0 < window)%Z → kv_at w t0 key = None →
  Sorted Z.le (t0 :: ts) → Forall (λ t, (t < t0 + window)%Z) ts →
  (count_run key window (t0 :: ts) w).1 = (λ i, Ok (1 + Z.of_nat i)%Z) <$> seq 0 (S (length ts)) ∧
  ∀ t, (t0 + window <= t)%Z → (Count t key window (count_run key window (t0 :: ts) w).2).1 = Ok 1%Z.
Proof.
  intros Hw Hnone Hs Hb. destruct (counting_first key window t0 w Hw Hnone) as (w1 & E & Hc).
  destruct (counting_run key window (t0 + window) ts t0 1 w1 ltac:(lia) Hc Hs Hb)
    as [H1 (last & H2 & H3 & H4)].
  cbn [count_run]. rewrite E. destruct (count_run key window ts w1) as [rs w2] eqn:Er. simpl in *.
  split.
  - f_equal. rewrite H1, <- fmap_S_seq, <- list_fmap_compose.
    apply list_fmap_ext. intros i x _. simpl. f_equal. lia.
  - intros t Ht. assert (Hl : (last < t0 + window)%Z).
    { destruct H3 as [->|Hin]; [lia|]. rewrite Forall_forall in Hb. by apply Hb. }
    destruct (counting_first key window t w2) as (w3 & E3 & _); [done| |by rewrite E3].
    rewrite H4 by lia. by rewrite (proj2 (Z.ltb_ge t (t0 + window))).
Qed.

Lemma count_window_witness :
  (count_run (K:=Memory) "rl:x" 10 [0; 3; 9]%Z NewMemory).1 = [Ok 1%Z; Ok 2%Z; Ok 3%Z] ∧
  (Count 10 "rl:x" 10 (count_run (K:=Memory) "rl:x" 10 [0; 3; 9]%Z NewMemory).2).1 = Ok 1%Z.
Proof.
  destruct (count_window "rl:x" 10 0 [3; 9]%Z NewMemory) as [H1 H2].
  - lia.
  - reflexivity.
  - repeat constructor; lia.
  - repeat constructor; lia.
  - split; [exact H1|apply H2; lia].
Defined.
