(* ===== verification/Envelope.v ===== *)
(** * Envelope encryption (internal/crypto/envelope.go)

    AES-GCM and the random source are parameters; the layout
    nonce | wrapped data key | nonce | ciphertext and its checks are the
    code's.  Byte slices are strings. *)
From S2P Require Import Prelude GoStrings.
#[local] Open Scope go_scope.

(** Slices [s[:n]] and [s[n:]] of a string at least [n] long. *)
Fixpoint str_take (n : nat) (s : string) : string :=
  match n, s with
  | S n', String c s' => String c (str_take n' s')
  | _, _ => ""
  end.
Fixpoint str_drop (n : nat) (s : string) : string :=
  match n, s with
  | S n', String _ s' => str_drop n' s'
  | _, _ => s
  end.

Lemma str_take_app (s t : string) : str_take (String.length s) (s +:+ t) = s.
Proof. induction s as [|c s IH]; cbn; [by destruct t|]. by rewrite IH. Qed.
Lemma str_drop_app (s t : string) : str_drop (String.length s) (s +:+ t) = t.
Proof. induction s as [|c s IH]; cbn; [by destruct t|]. apply IH. Qed.

(** AES-256-GCM: [Seal key nonce plaintext ad], [Open key nonce ciphertext ad]. *)
Class AEAD : Type := {
  gcm_seal : string → string → string → string → string;
  gcm_open : string → string → string → string → option string;
}.
Class AEADLaws `{AEAD} : Prop := {
  gcm_open_seal key nonce pt ad : gcm_open key nonce (gcm_seal key nonce pt ad) ad = Some pt;
  gcm_overhead key nonce pt ad : String.length (gcm_seal key nonce pt ad) = (String.length pt + 16)%nat;
}.

Definition nonceSize : nat := 12.
Definition wrapLen : nat := 32 + 16.

Section Envelope.
Context `{AEAD}.

Definition NewEnvelope (kek : string) : result string :=
  if (String.length kek =? 32)%nat then Ok kek else Err (ErrText "crypto: KEK must be 32 bytes").

(** [dek], [n1], [n2]: what the random source yields, [None] when it fails. *)
Definition Encrypt (kek : string) (dek n1 n2 : option string) (plaintext ad : string) : result string :=
  match dek, n1, n2 with
  | Some dek, Some n1, Some n2 =>
      Ok (n1 +:+ gcm_seal kek n1 dek ad +:+ n2 +:+ gcm_seal dek n2 plaintext ad)
  | _, _, _ => Err ErrEntropy
  end.

Definition Decrypt (kek blob ad : string) : result string :=
  if (String.length blob <? nonceSize + wrapLen + nonceSize + 16)%nat
  then Err (ErrText "crypto: ciphertext too short")
  else
    let n1 := str_take nonceSize blob in
    let wrapped := str_take wrapLen (str_drop nonceSize blob) in
    match gcm_open kek n1 wrapped ad with
    | None => Err (ErrText "crypto: unwrap failed")
    | Some dek =>
        let rest := str_drop (nonceSize + wrapLen) blob in
        match gcm_open dek (str_take nonceSize rest) (str_drop nonceSize rest) ad with
        | None => Err (ErrText "crypto: open failed")
        | Some pt => Ok pt
        end
    end.
End Envelope.

Section EnvelopeFacts.
Context `{AEADLaws}.

Lemma Decrypt_sealed kek dek n1 n2 pt ad ad' :
  String.length dek = 32%nat → String.length n1 = nonceSize → String.length n2 = nonceSize →
  Decrypt kek (n1 +:+ gcm_seal kek n1 dek ad +:+ n2 +:+ gcm_seal dek n2 pt ad) ad' =
  match gcm_open kek n1 (gcm_seal kek n1 dek ad) ad' with
  | None => Err (ErrText "crypto: unwrap failed")
  | Some dek' => match gcm_open dek' n2 (gcm_seal dek n2 pt ad) ad' with
                 | None => Err (ErrText "crypto: open failed")
                 | Some x => Ok x
                 end
  end.
Proof.
  intros Hd H1 H2. set (w := gcm_seal kek n1 dek ad). set (c := gcm_seal dek n2 pt ad).
  assert (Hw : String.length w = wrapLen) by (unfold w; rewrite gcm_overhead, Hd; done).
  assert (Hc : String.length c = (String.length pt + 16)%nat) by apply gcm_overhead.
  unfold Decrypt. rewrite !str_length_app, H1, H2, Hw, Hc.
  rewrite (proj2 (Nat.ltb_ge _ _)) by lia.
  rewrite <- H1 at 1 2. rewrite str_take_app, str_drop_app. rewrite <- Hw at 1. rewrite str_take_app.
  destruct (gcm_open kek n1 w ad') as [dek'|]; [|done].
  assert (Hdrop : str_drop (nonceSize + wrapLen) (n1 +:+ w +:+ n2 +:+ c) = n2 +:+ c).
  { rewrite <- str_app_assoc. rewrite <- H1, <- Hw, <- str_length_app. apply str_drop_app. }
  rewrite Hdrop. rewrite <- H2 at 1 2. by rewrite str_take_app, str_drop_app.
Qed.

(** Sealing and opening are inverse for the same key and associated data;
    when GCM refuses the wrapped key under other associated data the value
    copied to another row is refused; anything shorter than the layout is
    refused before it is sliced; without randomness nothing is sealed. *)
Theorem envelope_roundtrip kek dek n1 n2 pt ad :
  String.length dek = 32%nat → String.length n1 = nonceSize → String.length n2 = nonceSize →
  ∃ blob, Encrypt kek (Some dek) (Some n1) (Some n2) pt ad = Ok blob ∧
    Decrypt kek blob ad = Ok pt ∧
    (∀ ad', gcm_open kek n1 (gcm_seal kek n1 dek ad) ad' = None →
       Decrypt kek blob ad' = Err (ErrText "crypto: unwrap failed")) ∧
    (∀ short, (String.length short < 88)%nat → Decrypt kek short ad = Err (ErrText "crypto: ciphertext too short")) ∧
    Encrypt kek None (Some n1) (Some n2) pt ad = Err ErrEntropy.
Proof.
  intros Hd H1 H2. eexists. split; [done|]. split_and!; [| | |done].
  - rewrite Decrypt_sealed by done. by rewrite !gcm_open_seal.
  - intros ad' Hn. rewrite Decrypt_sealed by done. by rewrite Hn.
  - intros short Hs. unfold Decrypt. by rewrite (proj2 (Nat.ltb_lt _ _)).
Qed.
End EnvelopeFacts.

(** A concrete AEAD: the plaintext followed by a tag that counts the
    associated data. *)
Fixpoint repeat_byte (c : ascii) (n : nat) : string :=
  match n with O => "" | S n' => String c (repeat_byte c n') end.
Definition toy_tag (ad : string) : string := str_take 16 (ad +:+ repeat_byte "0" 16).
#[local] Instance toyAEAD : AEAD := {|
  gcm_seal _ _ pt ad := pt +:+ toy_tag ad;
  gcm_open _ _ ct ad :=
    let n := (String.length ct - 16)%nat in
    if bool_decide (str_drop n ct = toy_tag ad) then Some (str_take n ct) else None |}.
Lemma repeat_byte_length c n : String.length (repeat_byte c n) = n.
Proof. induction n; cbn; congruence. Qed.
Lemma str_take_length n s : (n <= String.length s)%nat → String.length (str_take n s) = n.
Proof. revert s. induction n as [|n IH]; intros [|c s]; cbn; try lia. intros. f_equal. apply IH. lia. Qed.
Lemma toy_tag_length ad : String.length (toy_tag ad) = 16%nat.
Proof. apply str_take_length. rewrite str_length_app, repeat_byte_length. lia. Qed.
#[local] Instance toyAEAD_laws : AEADLaws.
Proof.
  split.
  - intros key nonce pt ad. unfold gcm_open, gcm_seal, toyAEAD. cbv zeta. rewrite str_length_app, toy_tag_length.
    replace (String.length pt + 16 - 16)%nat with (String.length pt) by lia.
    by rewrite str_drop_app, bool_decide_eq_true_2, str_take_app.
  - intros key nonce pt ad. unfold gcm_seal, toyAEAD. by rewrite str_length_app, toy_tag_length.
Qed.

Lemma envelope_roundtrip_witness :
  ∃ blob, Encrypt "K" (Some (repeat_byte "d" 32)) (Some (repeat_byte "n" 12)) (Some (repeat_byte "m" 12))
            "seed" "user:1" = Ok blob ∧
    Decrypt "K" blob "user:1" = Ok "seed" ∧
    (∀ ad', gcm_open "K" (repeat_byte "n" 12) (gcm_seal "K" (repeat_byte "n" 12) (repeat_byte "d" 32) "user:1") ad' = None →
       Decrypt "K" blob ad' = Err (ErrText "crypto: unwrap failed")) ∧
    (∀ short, (String.length short < 88)%nat → Decrypt "K" short "user:1" = Err (ErrText "crypto: ciphertext too short")) ∧
    Encrypt "K" None (Some (repeat_byte "n" 12)) (Some (repeat_byte "m" 12)) "seed" "user:1" = Err ErrEntropy.
Proof. apply envelope_roundtrip; vm_compute; reflexivity. Defined.
