(* ===== verification/Token.v ===== *)
(** * Signing keys and tokens (internal/token, sdk/pkg/authclient/token.go)

    The ring of signing keys with its rotation, and the issue and verification
    of access and enrollment tokens.  Ed25519, SHA-256 and the JWT
    library are parameters ([Crypto], [JWT]) with their documented behaviour as
    laws; keys and sealed keys are byte strings.  Go ranges over the key map in
    no fixed order: each range takes the order as an argument. *)
From S2P Require Import Prelude GoStrings Base64 Envelope.
#[local] Open Scope list_scope.
#[local] Open Scope go_scope.

(** ** Parameters *)
Class Crypto : Type := {
  ed_generate : nat → result (string * string);      (* public, private *)
  ed_public : string → string;                        (* priv.Public() *)
  sha256 : string → string;                           (* sha256.Sum256 *)
  env_seal : nat → string → string → result string;   (* Envelope.Encrypt with the n-th randomness *)
  env_open : string → string → result string;         (* Envelope.Decrypt *)
}.
Class CryptoLaws `{Crypto} : Prop := {
  ed_pair n pub priv : ed_generate n = Ok (pub, priv) → ed_public priv = pub ∧ String.length priv = 64%nat;
  sha256_length s : String.length (sha256 s) = 32%nat;
  env_open_seal n pt ad blob : env_seal n pt ad = Ok blob → env_open blob ad = Ok pt;
}.

(** The payload of a token: the registered claims, those of an access token
    and those of an enrollment token; an absent field is empty. *)
Record Payload : Type := mkPayload {
  pIss : string; pSub : string; pAud : list string; pIat : option Z; pNbf : option Z; pExp : option Z; pID : string;
  pTID : string; pSID : string; pRoles : list string; pAMR : list string; pPaths : list string }.
#[global] Instance Payload_eq_dec : EqDecision Payload.
Proof. solve_decision. Defined.

(** jwt.NewParser(WithValidMethods(EdDSA), WithIssuer, WithAudience,
    WithLeeway, WithIssuedAt, WithExpirationRequired, WithTimeFunc). *)
Record ParserOpts : Type := mkOpts { oIss : string; oAud : option string; oLeeway : Z }.
(** What [errors.Is]/[errors.As] find in an error of the parser. *)
Record JWTError : Type := mkJWTError {
  jeKey : option err; jeExpired : bool; jeNotYet : bool; jeEarly : bool; jeIssuer : bool; jeAudience : bool }.

Class JWT : Type := {
  SignedString : string → string → Payload → result string;    (* private key, kid, claims *)
  ParseWithClaims : ParserOpts → Z → (string → result string) → string → Payload + JWTError;
}.

(** The claim checks the library documents for these options. *)
Definition claims_ok (o : ParserOpts) (now : Z) (p : Payload) : Prop :=
  (∃ e, pExp p = Some e ∧ (now < e + oLeeway o)%Z) ∧
  (∀ i, pIat p = Some i → (i - oLeeway o <= now)%Z) ∧
  (∀ n, pNbf p = Some n → (n - oLeeway o <= now)%Z) ∧
  (oIss o ≠ "" → pIss p = oIss o) ∧
  (∀ a, oAud o = Some a → a ∈ pAud p).

(** [signed pub kid p s]: the text [s] is a token with this header and payload
    whose EdDSA signature [pub] verifies. *)
Class JWTLaws `{Crypto} `{JWT} (signed : string → string → Payload → string → Prop) : Prop := {
  sign_signed priv kid p s : SignedString priv kid p = Ok s → signed (ed_public priv) kid p s;
  signed_payload pub kid p s pub' kid' p' : signed pub kid p s → signed pub' kid' p' s → kid = kid' ∧ p = p';
  parse_ok o now kf s p : ParseWithClaims o now kf s = inl p →
    ∃ kid pub, kf kid = Ok pub ∧ signed pub kid p s ∧ claims_ok o now p;
  parse_signed o now kf s pub kid p :
    signed pub kid p s → kf kid = Ok pub → claims_ok o now p → ParseWithClaims o now kf s = inl p;
  parse_key o now kf s pub kid p e :
    signed pub kid p s → kf kid = Err e → ∃ je, ParseWithClaims o now kf s = inr je ∧ jeKey je = Some e;
}.

(** ** Keys *)
Definition StateActive := "active".
Definition StateRetiring := "retiring".
Definition StateRetired := "retired".

Record SigningKey : Type := mkSigningKey {
  KID : string; KPublic : string; KPrivateEnc : string; KState : string; KCreatedAt : Z;
  KRetiringAt : option Z; KRetiredAt : option Z }.

Definition keyAD (kid : string) : string := "signing_key:" +:+ kid.

Section Keys.
Context `{Crypto}.

(** The kid of a public key: [RawURLEncoding.EncodeToString(sum[:12])]. *)
Definition key_id (pub : string) : string := b64_encode url_alphabet (str_take 12 (sha256 pub)).

Definition GenerateKey (n : nat) (now : Z) : result SigningKey :=
  match ed_generate n with
  | Err e => Err e
  | Ok (pub, priv) =>
      let kid := key_id pub in
      match env_seal n priv (keyAD kid) with
      | Err e => Err e
      | Ok enc => Ok (mkSigningKey kid pub enc StateActive now None None)
      end
  end.

Definition OpenKey (k : SigningKey) : result string :=
  match env_open (KPrivateEnc k) (keyAD (KID k)) with
  | Err e => Err e
  | Ok raw =>
      if negb (String.length raw =? 64)%nat then Err (ErrText "token: sealed key has wrong size")
      else if negb (bool_decide (KPublic k = ed_public raw)) then Err (ErrText "token: sealed key does not match public key")
      else Ok raw
  end.
End Keys.

Lemma key_id_nonempty `{CryptoLaws} pub : key_id pub ≠ "".
Proof.
  unfold key_id. pose proof (sha256_length pub) as Hl. destruct (sha256 pub) as [|a [|b [|c r]]]; by cbn in *.
Qed.

(** The stored keys: an interface with the rows as its abstract state. *)
Class KeyStore (K : Type) : Type := {
  ks_list : M K (list SigningKey);
  ks_insert : SigningKey → M K unit;
  ks_set_state : string → string → Z → M K unit;
  ks_remove : string → M K unit;
}.

Definition with_state (k : SigningKey) (state : string) (at_ : Z) : SigningKey :=
  mkSigningKey (KID k) (KPublic k) (KPrivateEnc k) state (KCreatedAt k)
    (if bool_decide (state = StateRetiring) then Some at_ else KRetiringAt k)
    (if bool_decide (state = StateRetired) then Some at_ else KRetiredAt k).

(** What a key store promises: a failed call changes nothing. *)
Class KeyStoreLaws (K : Type) `{KeyStore K} : Type := {
  ks_rows : K → gmap string SigningKey;
  ks_list_law k r k' : ks_list k = (r, k') → ks_rows k' = ks_rows k ∧
    ∀ l, r = Ok l → ∀ row, row ∈ l ↔ ∃ kid, ks_rows k !! kid = Some row;
  ks_insert_law row k r k' : ks_insert row k = (r, k') →
    ks_rows k' = match r with Ok _ => <[KID row := row]> (ks_rows k) | Err _ => ks_rows k end;
  ks_set_state_law kid state at_ k r k' : ks_set_state kid state at_ k = (r, k') →
    ks_rows k' = match r with
                 | Ok _ => alter (λ row, with_state row state at_) kid (ks_rows k)
                 | Err _ => ks_rows k
                 end;
  ks_remove_law kid k r k' : ks_remove kid k = (r, k') →
    ks_rows k' = match r with Ok _ => delete kid (ks_rows k) | Err _ => ks_rows k end;
}.

(** *** MemKeys *)
Definition MemKeys : Type := gmap string SigningKey.
Definition MemKeysList : M MemKeys (list SigningKey) := λ m, (Ok (snd <$> map_to_list m), m).
Definition MemKeysInsert (k : SigningKey) : M MemKeys unit := λ m, (Ok tt, <[KID k := k]> m).
Definition MemKeysSetState (kid state : string) (at_ : Z) : M MemKeys unit := λ m,
  match m !! kid with
  | None => (Err ErrNotFound, m)
  | Some k => (Ok tt, <[kid := with_state k state at_]> m)
  end.
Definition MemKeysRemove (kid : string) : M MemKeys unit := λ m,
  (Ok tt, filter (λ p, p.1 ≠ kid) m).
#[export] Instance MemKeys_store : KeyStore MemKeys :=
  {| ks_list := MemKeysList; ks_insert := MemKeysInsert; ks_set_state := MemKeysSetState; ks_remove := MemKeysRemove |}.

(** ** The ring *)
Record RingConfig : Type := mkRingConfig {
  AccessLifetime : Z; RotationInterval : Z; RetiringPeriod : Z; ClockSkew : Z }.
Definition ringConfig (c : RingConfig) : RingConfig :=
  mkRingConfig
    (if (AccessLifetime c <=? 0)%Z || (15 * Dur.minute <? AccessLifetime c)%Z then 15 * Dur.minute else AccessLifetime c)%Z
    (if (RotationInterval c <=? 0)%Z then 24 * Dur.hour else RotationInterval c)%Z
    (if (RetiringPeriod c <=? 0)%Z then 30 * Dur.minute else RetiringPeriod c)%Z
    (if (ClockSkew c <=? 0)%Z || (60 * Dur.second <? ClockSkew c)%Z then 60 * Dur.second else ClockSkew c)%Z.

Record ringKey : Type := mkRingKey { rkKey : SigningKey; rkPriv : option string }.

(** The ring, its store, the clock and the position in the random source. *)
Record Ring (K : Type) : Type := mkRing {
  rgStore : K; rgKeys : gmap string ringKey; rgCfg : RingConfig; rgNow : Z; rgRand : nat }.
Arguments mkRing {K}. Arguments rgStore {K}. Arguments rgKeys {K}. Arguments rgCfg {K}.
Arguments rgNow {K}. Arguments rgRand {K}.

Definition maxEnrollLifetime : Z := 24 * Dur.hour.
Definition defaultEnrollLifetime : Z := 10 * Dur.minute.
Definition keepRetired (c : RingConfig) : Z := Z.max (AccessLifetime c) maxEnrollLifetime + ClockSkew c.

Section RingOps.
Context {K : Type} `{Crypto} `{KeyStore K}.
Notation R := (Ring K).

Definition NewRing (ks : K) (cfg : RingConfig) (now : Z) (rand : nat) : R := mkRing ks ∅ (ringConfig cfg) now rand.

Definition ksM {A} (m : M K A) : M R A := λ r,
  let '(x, k) := m (rgStore r) in (x, mkRing k (rgKeys r) (rgCfg r) (rgNow r) (rgRand r)).
Definition set_keys (f : gmap string ringKey → gmap string ringKey) : M R unit :=
  modify (λ r, mkRing (rgStore r) (f (rgKeys r)) (rgCfg r) (rgNow r) (rgRand r)).
Definition draw : M R nat := λ r,
  (Ok (rgRand r), mkRing (rgStore r) (rgKeys r) (rgCfg r) (rgNow r) (S (rgRand r))).

(** Field writes through the pointer [*ringKey]. *)
Definition retire_begin (now : Z) (k : ringKey) : ringKey :=
  let s := rkKey k in
  mkRingKey (mkSigningKey (KID s) (KPublic s) (KPrivateEnc s) StateRetiring (KCreatedAt s) (Some now) (KRetiredAt s)) (rkPriv k).
Definition retire_undo (k : ringKey) : ringKey :=
  let s := rkKey k in
  mkRingKey (mkSigningKey (KID s) (KPublic s) (KPrivateEnc s) StateActive (KCreatedAt s) None (KRetiredAt s)) (rkPriv k).
Definition retire_end (now : Z) (k : ringKey) : ringKey :=
  let s := rkKey k in
  mkRingKey (mkSigningKey (KID s) (KPublic s) (KPrivateEnc s) StateRetired (KCreatedAt s) (KRetiringAt s) (Some now)) None.

Definition rotate_one (now : Z) (retired : list string) (kid : string) : M R (list string) :=
  keys <- gets rgKeys ;;
  match keys !! kid with
  | Some old =>
      if bool_decide (KState (rkKey old) = StateActive)
      then ksM (ks_set_state (KID (rkKey old)) StateRetiring now) ;;;
           set_keys (alter (retire_begin now) kid) ;;;
           ret (retired ++ [kid])
      else ret retired
  | None => ret retired
  end.

Definition restore_one (now : Z) (kid : string) : M R unit :=
  keys <- gets rgKeys ;;
  match keys !! kid with
  | Some old =>
      x <- attempt (ksM (ks_set_state (KID (rkKey old)) StateActive now)) ;;
      match x with
      | Ok _ => set_keys (alter retire_undo kid)
      | Err _ => ret tt
      end
  | None => ret tt
  end.

Definition Rotate (ord : list string) : M R unit :=
  now <- gets rgNow ;;
  n <- draw ;;
  k <- lift (GenerateKey n now) ;;
  let priv := match OpenKey k with Ok p => Some p | Err _ => None end in
  retired <- fold_each ord [] (rotate_one now) ;;
  x <- attempt (ksM (ks_insert k)) ;;
  match x with
  | Err e => for_each retired (restore_one now) ;;; throw e
  | Ok _ => set_keys <[KID k := mkRingKey k priv]>
  end.

Fixpoint load_keys (l : list SigningKey) (fresh : gmap string ringKey) (active : bool)
    : result (gmap string ringKey * bool) :=
  match l with
  | [] => Ok (fresh, active)
  | k :: l' =>
      let add p := load_keys l' (<[KID k := mkRingKey k p]> fresh) (active || bool_decide (KState k = StateActive)) in
      if bool_decide (KState k = StateRetired) then add None
      else match OpenKey k with Err e => Err e | Ok p => add (Some p) end
  end.
Definition Load (ord : list string) : M R unit :=
  keys <- ksM ks_list ;;
  fa <- lift (load_keys keys ∅ false) ;;
  set_keys (λ _, fa.1) ;;;
  if fa.2 then ret tt else Rotate ord.

(** One iteration of Sweep: whether to rotate, and the removed kids. *)
Definition sweep_one (now : Z) (acc : bool * list string) (kid : string) : M R (bool * list string) :=
  cfg <- gets rgCfg ;;
  keys <- gets rgKeys ;;
  match keys !! kid with
  | None => ret acc
  | Some k =>
      let s := rkKey k in
      if bool_decide (KState s = StateActive)
      then ret (acc.1 || (RotationInterval cfg <=? now - KCreatedAt s)%Z, acc.2)
      else if bool_decide (KState s = StateRetiring)
      then match KRetiringAt s with
           | Some t => if (RetiringPeriod cfg <=? now - t)%Z
                       then ksM (ks_set_state kid StateRetired now) ;;;
                            set_keys (alter (retire_end now) kid) ;;; ret acc
                       else ret acc
           | None => ret acc
           end
      else if bool_decide (KState s = StateRetired)
      then match KRetiredAt s with
           | Some t => if (keepRetired cfg <=? now - t)%Z
                       then ksM (ks_remove kid) ;;; ret (acc.1, acc.2 ++ [kid])
                       else ret acc
           | None => ret acc
           end
      else ret acc
  end.
Definition Sweep (ord ord' : list string) : M R unit :=
  now <- gets rgNow ;;
  acc <- fold_each ord (false, []) (sweep_one now) ;;
  set_keys (filter (λ p, p.1 ∉ acc.2)) ;;;
  if acc.1 then Rotate ord' else ret tt.

(** The newest active key; of two created at the same instant the first met. *)
Definition newer (best : option ringKey) (k : ringKey) : option ringKey :=
  if negb (bool_decide (KState (rkKey k) = StateActive)) then best
  else match best with
       | None => Some k
       | Some b => if (KCreatedAt (rkKey b) <? KCreatedAt (rkKey k))%Z then Some k else Some b
       end.
Definition active (ord : list string) (r : R) : result ringKey :=
  match foldl newer None (omap (λ kid, rgKeys r !! kid) ord) with
  | Some k => Ok k
  | None => Err ErrNoActiveKey
  end.

Definition PublicKey (r : R) (kid : string) : option string := KPublic ∘ rkKey <$> rgKeys r !! kid.

(** ** Issuing and verifying *)
Definition numericDate (t : Z) : Z := t / Dur.second * Dur.second.

Record Request : Type := mkRequest {
  RqUserID : string; RqTenantID : string; RqSessionID : string; RqRoles : list string; RqAMR : list string;
  RqAudience : string; RqLifetime : Z }.

Context `{JWT}.

Definition Issue (iss jti : string) (ord : list string) (r : R) (req : Request) : result (string * Payload) :=
  match active ord r with
  | Err e => Err e
  | Ok k =>
      let life := if (RqLifetime req <=? 0)%Z || (AccessLifetime (rgCfg r) <? RqLifetime req)%Z
                  then AccessLifetime (rgCfg r) else RqLifetime req in
      if bool_decide (RqUserID req = "") || bool_decide (RqTenantID req = "") || bool_decide (RqSessionID req = "")
      then Err (ErrText "token: user, tenant and session are required")
      else
        let now := rgNow r in
        let c := mkPayload iss (RqUserID req) (if bool_decide (RqAudience req = "") then [] else [RqAudience req])
                   (Some (numericDate now)) (Some (numericDate now)) (Some (numericDate (now + life)%Z)) jti
                   (RqTenantID req) (RqSessionID req) (RqRoles req) (RqAMR req) [] in
        match rkPriv k with
        | None => Err ErrBrokenKey
        | Some priv => rbind (SignedString priv (KID (rkKey k)) c) (λ s, Ok (s, c))
        end
  end.

Definition MaxTokenLifetime : Z := 15 * Dur.minute.
Definition maxTokenBytes : nat := 8192.

(** authclient.VerifyToken; [now == nil] never happens here. *)
Definition VerifyToken (s iss : string) (skew maxLife now : Z) (lookup : string → option string) : result Payload :=
  if (maxTokenBytes <? String.length s)%nat then Err (ErrText "token: too long") else
  let skew := if (skew <? 0)%Z || (60 * Dur.second <? skew)%Z then (60 * Dur.second)%Z else skew in
  let maxLife := if (maxLife <=? 0)%Z || (MaxTokenLifetime <? maxLife)%Z then MaxTokenLifetime else maxLife in
  let keyfunc kid :=
    if bool_decide (kid = "") then Err (ErrText "kid required")
    else match lookup kid with Some pub => Ok pub | None => Err (ErrUnknownKid kid) end in
  match ParseWithClaims (mkOpts iss None skew) now keyfunc s with
  | inr je => match jeKey je with
              | Some (ErrUnknownKid kid) => Err (ErrUnknownKid kid)
              | _ => Err (ErrText "token: invalid")
              end
  | inl c =>
      match pIat c, pExp c, pNbf c with
      | Some iat, Some exp, Some _ =>
          if (maxLife <? exp - iat)%Z then Err (ErrText "token: lifetime exceeds the maximum")
          else if bool_decide (pSub c = "") || bool_decide (pTID c = "") || bool_decide (pSID c = "") || bool_decide (pID c = "")
          then Err (ErrText "token: required claims missing")
          else Ok c
      | _, _, _ => Err (ErrText "token: lifetime exceeds the maximum")
      end
  end.
Definition IssuerVerify (iss : string) (r : R) (s : string) : result Payload :=
  VerifyToken s iss (ClockSkew (rgCfg r)) (AccessLifetime (rgCfg r)) (rgNow r) (PublicKey r).

(** *** Enrollment tokens *)
Definition EnrollAudience := "lcm".
Record EnrollGrant : Type := mkEnrollGrant { EgJTI : string; EgTenantID : string; EgPaths : list string; EgExpiresAt : Z }.

Definition IssueEnrollment (iss jti : string) (ord : list string) (r : R) (tid : string) (paths : list string) (ttl : Z)
    : result (string * EnrollGrant) :=
  if bool_decide (tid = "") || bool_decide (paths = []) then Err (ErrText "token: tenant and spiffe paths are required") else
  if (maxEnrollLifetime <? ttl)%Z then Err ErrEnrollmentLifetime else
  let ttl := if (ttl <=? 0)%Z then defaultEnrollLifetime else ttl in
  match active ord r with
  | Err e => Err e
  | Ok k =>
      match rkPriv k with
      | None => Err ErrBrokenKey
      | Some priv =>
          let now := rgNow r in
          let exp := (now + ttl)%Z in
          let c := mkPayload iss tid [EnrollAudience] (Some (numericDate now)) (Some (numericDate now))
                     (Some (numericDate exp)) jti tid "" [] [] paths in
          rbind (SignedString priv (KID (rkKey k)) c) (λ s, Ok (s, mkEnrollGrant jti tid paths exp))
      end
  end.

Definition enrollParseError (je : JWTError) : err :=
  if negb (jeIssuer je) && negb (jeAudience je)
  then if jeExpired je then ErrEnrollmentExpired
       else if jeNotYet je || jeEarly je then ErrEnrollmentNotYetValid
       else ErrText "token: invalid"
  else ErrText "token: invalid".

Definition VerifyEnrollment (iss : string) (r : R) (s : string) : result EnrollGrant :=
  if (maxTokenBytes <? String.length s)%nat then Err (ErrText "token: too long") else
  let skew := ClockSkew (rgCfg r) in
  let skew := if (skew <? 0)%Z || (60 * Dur.second <? skew)%Z then (60 * Dur.second)%Z else skew in
  let keyfunc kid :=
    if bool_decide (kid = "") then Err (ErrText "kid required")
    else match PublicKey r kid with Some pub => Ok pub | None => Err (ErrText "unknown kid") end in
  match ParseWithClaims (mkOpts iss (Some EnrollAudience) skew) (rgNow r) keyfunc s with
  | inr je => Err (enrollParseError je)
  | inl c =>
      match pExp c, pIat c with
      | Some exp, Some iat =>
          if (maxEnrollLifetime <? exp - iat)%Z then Err (ErrText "token: lifetime exceeds the maximum")
          else if bool_decide (pTID c = "") || bool_decide (pID c = "") || bool_decide (pPaths c = [])
          then Err (ErrText "token: required claims missing")
          else Ok (mkEnrollGrant (pID c) (pTID c) (pPaths c) exp)
      | _, _ => Err (ErrText "token: lifetime exceeds the maximum")
      end
  end.
End RingOps.
