(* ===== verification/RingSafety.v ===== *)
(** * Key rotation never strands a token

    A key that could sign at some moment stays published, through every
    rotation, sweep and reload, for as long as a token it signed then can be
    valid; so what is issued verifies until it expires. *)
From S2P Require Import Prelude GoStrings Base64 Envelope Token.
#[local] Open Scope list_scope.
#[local] Open Scope go_scope.

#[export] Program Instance MemKeys_laws : KeyStoreLaws MemKeys := {| ks_rows := λ m, m |}.
Next Obligation.
  intros k r k' [= <- <-]. split; [done|]. intros l [= <-] row. rewrite list_elem_of_fmap. split.
  - intros ([kid x] & -> & Hin%elem_of_map_to_list). eauto.
  - intros [kid Hk%elem_of_map_to_list]. by exists (kid, row).
Qed.
Next Obligation. by intros row k r k' [= <- <-]. Qed.
Next Obligation.
  intros kid state at_ k r k'. cbn. unfold MemKeysSetState. destruct (k !! kid) as [x|] eqn:E; intros [= <- <-]; [|done].
  unfold MemKeys in *. apply map_eq. intros i. destruct (decide (kid = i)) as [<-|Hne].
  - by rewrite lookup_insert_eq, lookup_alter_eq, E.
  - by rewrite lookup_insert_ne, lookup_alter_ne by done.
Qed.
Next Obligation.
  intros kid k r k' [= <- <-]. unfold MemKeys in *. apply map_eq. intros i. apply option_eq. intros x.
  rewrite map_lookup_filter_Some, lookup_delete_Some. naive_solver.
Qed.

Section RingSafety.
Context {K : Type} {Cr : Crypto} {CrL : CryptoLaws} {KS : KeyStore K} {KSL : KeyStoreLaws K}.
Notation R := (Ring K).
Implicit Types (r : R) (kid pub : string) (t now : Z).

(** A stored key that could sign at [t]: still active, retiring, or retired at
    some later instant. *)
Definition phase kid pub t (k : SigningKey) : Prop :=
  KID k = kid ∧ KPublic k = pub ∧
  (KState k = StateActive ∨ KState k = StateRetiring ∨
   (KState k = StateRetired ∧ ∃ d, KRetiredAt k = Some d ∧ (t <= d)%Z)).

Record Kept kid pub t now cfg rand r : Prop := mkKept {
  kp_ring : ∃ k, rgKeys r !! kid = Some k ∧ phase kid pub t (rkKey k);
  kp_keyed : ∀ i k, ks_rows (rgStore r) !! i = Some k → KID k = i;
  kp_row : ∃ k, ks_rows (rgStore r) !! kid = Some k ∧ phase kid pub t k;
  kp_now : rgNow r = now;
  kp_cfg : rgCfg r = cfg;
  kp_rand : rgRand r = rand;
}.

Lemma phase_with_state kid pub t k state at_ :
  phase kid pub t k → (t <= at_)%Z → state ∈ [StateActive; StateRetiring; StateRetired] →
  phase kid pub t (with_state k state at_).
Proof.
  intros (H1 & H2 & _) Hle Hs. split_and!; [done..|]. unfold with_state. cbn.
  repeat (apply elem_of_cons in Hs as [->|Hs]); [auto|auto| |set_solver].
  right. right. split; [done|]. exists at_. done.
Qed.

Definition rotate_with (n : nat) (now : Z) (ord : list string) : M R unit :=
  k <- lift (GenerateKey n now) ;;
  let priv := match OpenKey k with Ok p => Some p | Err _ => None end in
  retired <- fold_each ord [] (rotate_one now) ;;
  x <- attempt (ksM (ks_insert k)) ;;
  match x with
  | Err e => for_each retired (restore_one now) ;;; throw e
  | Ok _ => set_keys <[KID k := mkRingKey k priv]>
  end.
Lemma Rotate_eq ord r :
  Rotate ord r = rotate_with (rgRand r) (rgNow r) ord (mkRing (rgStore r) (rgKeys r) (rgCfg r) (rgNow r) (S (rgRand r))).
Proof. reflexivity. Qed.

(** A reload finds the key in the store. *)
Lemma load_keys_kept kid l fresh act f b k0 :
  load_keys l fresh act = Ok (f, b) → (∀ k, k ∈ l → KID k = kid → k = k0) → KID k0 = kid →
  k0 ∈ l ∨ (∃ p, fresh !! kid = Some (mkRingKey k0 p)) → ∃ p, f !! kid = Some (mkRingKey k0 p).
Proof.
  revert fresh act. induction l as [|k l IH]; intros fresh act E Hu Hk0 Hor.
  { cbn in E. injection E as <- <-. destruct Hor as [?|?]; [set_solver|done]. }
  assert (Hstep : ∀ p, load_keys l (<[KID k := mkRingKey k p]> fresh) (act || bool_decide (KState k = StateActive)) = Ok (f, b) →
    ∃ p, f !! kid = Some (mkRingKey k0 p)).
  { intros p Ep. eapply IH; [exact Ep|set_solver|done|].
    destruct (decide (KID k = kid)) as [Hk|Hk].
    - right. exists p. rewrite Hk, lookup_insert_eq. by rewrite (Hu k ltac:(set_solver) Hk).
    - rewrite lookup_insert_ne by done. destruct Hor as [Hin|?]; [|by right]. left. set_solver. }
  cbn [load_keys] in E. destruct (bool_decide (KState k = StateRetired)); [by eapply Hstep|]. destruct (OpenKey k); [by eapply Hstep|done].
Qed.

Section Window.
Context (kid pub : string) (t now : Z) (cfg : RingConfig).
Context (Hpast : (t <= now)%Z) (Hlive : (now < t + keepRetired cfg)%Z).
Notation I rand := (Kept kid pub t now cfg rand).

Lemma triple_ks {A} (m : M K A) n (Q : A → R → Prop) :
  (∀ r x k, m (rgStore r) = (x, k) → I n r →
     ((∃ row, ks_rows k !! kid = Some row ∧ phase kid pub t row) ∧ ∀ i row, ks_rows k !! i = Some row → KID row = i) ∧
     (∀ a, x = Ok a → I n (mkRing k (rgKeys r) (rgCfg r) (rgNow r) (rgRand r)) → Q a (mkRing k (rgKeys r) (rgCfg r) (rgNow r) (rgRand r)))) →
  triple (I n) (ksM m) Q (I n).
Proof.
  intros Hm r HI. unfold ksM. destruct (m (rgStore r)) as [x k] eqn:E.
  destruct (Hm r x k E HI) as [[Hrow Hkd] HQ]. destruct HI as [H1 _ H2 H3 H4 H5].
  assert (HI' : I n (mkRing k (rgKeys r) (rgCfg r) (rgNow r) (rgRand r))) by by split.
  destruct x as [a|e]; [by apply HQ|done].
Qed.

Lemma triple_set_state k' state n : state ∈ [StateActive; StateRetiring; StateRetired] →
  triple (I n) (ksM (ks_set_state k' state now)) (λ _, I n) (I n).
Proof.
  intros Hs. apply triple_ks. intros r x k E HI. split; [|done]. apply ks_set_state_law in E as ->.
  destruct HI as [_ Hkd (row & Hrow & Hp) _ _ _]. destruct x as [[]|]; [|eauto]. split.
  - destruct (decide (k' = kid)) as [->|Hne].
    + rewrite lookup_alter_eq, Hrow. cbn. eexists. split; [done|]. by apply phase_with_state.
    + rewrite lookup_alter_ne by done. eauto.
  - intros i y. destruct (decide (k' = i)) as [->|Hne]; [|rewrite lookup_alter_ne by done; auto].
    rewrite lookup_alter_eq. destruct (ks_rows (rgStore r) !! i) eqn:Ei; [|done]. cbn. intros [= <-]. by apply Hkd in Ei.
Qed.

Lemma triple_alter k' f n :
  (∀ k, phase kid pub t (rkKey k) → phase kid pub t (rkKey (f k))) →
  triple (I n) (set_keys (alter f k')) (λ _, I n) (I n).
Proof.
  intros Hf. apply triple_modify. intros r [(k & Hk & Hp) Hkd H2 H3 H4 H5]. split; auto. cbn.
  destruct (decide (k' = kid)) as [->|Hne].
  - rewrite lookup_alter_eq, Hk. cbn. eauto.
  - rewrite lookup_alter_ne by done. eauto.
Qed.

Lemma triple_rotate_one acc k' n : triple (I n) (rotate_one now acc k') (λ _, I n) (I n).
Proof.
  unfold rotate_one. eapply (triple_bind _ _ _ (λ _, I n)); [by apply triple_gets|]. intros keys.
  destruct (keys !! k') as [old|]; [|by apply triple_ret]. case_bool_decide; [|by apply triple_ret].
  eapply (triple_bind _ _ _ (λ _, I n)); [apply triple_set_state; set_solver|]. intros [].
  eapply (triple_bind _ _ _ (λ _, I n)); [apply triple_alter|intros []; by apply triple_ret].
  intros k (? & ? & _). split_and!; cbn; auto.
Qed.

Lemma triple_restore_one k' n : triple (I n) (restore_one now k') (λ _, I n) (I n).
Proof.
  unfold restore_one. eapply (triple_bind _ _ _ (λ _, I n)); [by apply triple_gets|]. intros keys.
  destruct (keys !! k') as [old|]; [|by apply triple_ret].
  eapply (triple_bind _ _ _ (λ _, I n)); [eapply triple_attempt; [apply triple_set_state; set_solver|done|done]|].
  intros [[]|e]; [|by apply triple_ret]. apply triple_alter. intros k (? & ? & _). split_and!; cbn; auto.
Qed.

Lemma triple_insert k n : KID k ≠ kid → triple (I n) (ksM (ks_insert k)) (λ _, I n) (I n).
Proof.
  intros Hne. apply triple_ks. intros r x s E HI. split; [|done]. apply ks_insert_law in E as ->.
  destruct HI as [_ Hkd (row & Hrow & Hp) _ _ _]. destruct x as [[]|]; [|eauto]. split; [rewrite lookup_insert_ne by done; eauto|].
  intros i y. destruct (decide (KID k = i)) as [<-|Hi]; [by rewrite lookup_insert_eq; intros [= <-]|rewrite lookup_insert_ne by done; auto].
Qed.

Lemma triple_rotate_with ord n m :
  (∀ k, GenerateKey n now = Ok k → KID k ≠ kid) → triple (I m) (rotate_with n now ord) (λ _, I m) (I m).
Proof.
  intros Hfresh. unfold rotate_with. eapply (triple_bind _ _ _ (λ k s, I m s ∧ KID k ≠ kid)).
  { apply triple_lift. intros s Hs. destruct (GenerateKey n now) as [k|]; [|done]. split; [done|]. by apply Hfresh. }
  intros k. apply triple_pure. intros Hk. cbv zeta. eapply (triple_bind _ _ _ (λ _, I m)).
  { apply (triple_fold_each ord (rotate_one now) (λ _, I m)). intros. apply triple_rotate_one. }
  intros retired. eapply (triple_bind _ _ _ (λ _, I m)); [eapply triple_attempt; [by apply triple_insert|done|done]|].
  intros [[]|e].
  - apply triple_modify. intros s [(k0 & Hk0 & Hp) Hkd H2 H3 H4 H5]. split; auto. cbn. rewrite lookup_insert_ne by done. eauto.
  - eapply (triple_bind _ _ _ (λ _, I m)); [apply triple_for_each; intros; apply triple_restore_one|].
    intros []. by apply triple_throw.
Qed.

Notation J := (λ r, ∃ m, I m r).
Lemma triple_Rotate ord n :
  (∀ k, GenerateKey n now = Ok k → KID k ≠ kid) → triple (I n) (Rotate ord) (λ _, J) J.
Proof.
  intros Hfresh r HI. rewrite Rotate_eq, (kp_now _ _ _ _ _ _ _ HI), (kp_rand _ _ _ _ _ _ _ HI).
  pose proof (triple_rotate_with ord n (S n) Hfresh (mkRing (rgStore r) (rgKeys r) (rgCfg r) now (S n))) as Hw.
  destruct (rotate_with n now ord _) as [[[]|e] s]; exists (S n); apply Hw; by destruct HI as [H1 Hkd H2 H3 H4 H5].
Qed.

(** A sweep inside the window does not remove the key. *)
Lemma triple_sweep_one acc k' n :
  triple (λ r, I n r ∧ kid ∉ acc.2) (sweep_one now acc k') (λ acc' r, I n r ∧ kid ∉ acc'.2) (I n).
Proof.
  unfold sweep_one. eapply (triple_bind _ _ _ (λ c r, I n r ∧ kid ∉ acc.2 ∧ c = cfg)).
  { apply triple_gets. intros r [HI Hn]. split_and!; [done..|]. apply HI. }
  intros c. eapply (triple_bind _ _ _ (λ keys r, I n r ∧ (kid ∉ acc.2 ∧ c = cfg ∧
    ∀ k, k' = kid → keys !! k' = Some k → phase kid pub t (rkKey k)))).
  { apply triple_gets. intros r (HI & Hn & Hc). split_and!; [done..|]. intros k -> Hk.
    destruct (kp_ring _ _ _ _ _ _ _ HI) as (k0 & Hk0 & Hp). by simplify_eq. }
  intros keys. apply triple_pure. intros (Hn & -> & Hph).
  destruct (keys !! k') as [k|]; [|by apply triple_ret]. cbv zeta.
  destruct (decide (KState (rkKey k) = StateActive)) as [Ea|Ea];
    [rewrite bool_decide_eq_true_2 by done; by apply triple_ret|rewrite bool_decide_eq_false_2 by done].
  destruct (decide (KState (rkKey k) = StateRetiring)) as [Er|Er].
  { rewrite bool_decide_eq_true_2 by done. destruct (KRetiringAt (rkKey k)); [|by apply triple_ret].
    destruct (_ <=? _)%Z; [|by apply triple_ret].
    eapply (triple_bind _ _ _ (λ _, I n)); [apply triple_set_state; set_solver|]. intros [].
    eapply (triple_bind _ _ _ (λ _, I n)); [apply triple_alter|intros []; by apply triple_ret].
    intros k0 (? & ? & _). split_and!; cbn; auto. right. right. eauto. }
  rewrite (bool_decide_eq_false_2 (_ = StateRetiring)) by done.
  case_bool_decide as Ed; [|by apply triple_ret]. destruct (KRetiredAt (rkKey k)) as [d|] eqn:Ek; [|by apply triple_ret].
  destruct (keepRetired cfg <=? now - d)%Z eqn:El; [|by apply triple_ret].
  assert (Hne : k' ≠ kid).
  { intros ->. destruct (Hph k eq_refl eq_refl) as (_ & _ & [?|[?|(_ & d' & Hd & Hle)]]); [done..|]. bool_prop. simplify_eq. lia. }
  eapply (triple_bind _ _ _ (λ _, I n)); [|intros []; apply triple_ret; intros r Hr; cbn; set_solver].
  apply triple_ks. intros r x s E HI. split; [|done]. apply ks_remove_law in E as ->.
  destruct HI as [_ Hkd (row & Hrow & Hp) _ _ _]. destruct x as [[]|]; [|eauto].
  split; [rewrite lookup_delete_ne by done; eauto|]. intros i y [_ Hy]%lookup_delete_Some. auto.
Qed.

Lemma triple_Sweep ord ord' n :
  (∀ k, GenerateKey n now = Ok k → KID k ≠ kid) → triple (I n) (Sweep ord ord') (λ _, J) J.
Proof.
  intros Hfresh. unfold Sweep. eapply (triple_bind _ _ _ (λ x r, I n r ∧ x = now)).
  { apply triple_gets. intros r HI. split; [done|apply HI]. }
  intros x. apply triple_pure. intros ->.
  eapply (triple_bind _ _ _ (λ acc r, I n r ∧ kid ∉ acc.2)).
  { eapply (triple_conseq (λ r, I n r ∧ kid ∉ (false, [] : list string).2) _ _ (λ acc r, I n r ∧ kid ∉ acc.2) _ (I n));
      [apply (triple_fold_each ord (sweep_one now) (λ acc r, I n r ∧ kid ∉ acc.2)); intros; apply triple_sweep_one| |done|eauto].
    intros s Hs. cbn. set_solver. }
  intros acc. eapply (triple_bind _ _ _ (λ _, I n)).
  { apply triple_modify. intros r [[(k & Hk & Hp) Hkd H2 H3 H4 H5] Hn]. split; auto. cbn. exists k. split; [|done].
    by apply map_lookup_filter_Some. }
  intros []. destruct acc.1; [by apply triple_Rotate|apply triple_ret; eauto].
Qed.

Lemma triple_Load ord n :
  (∀ k, GenerateKey n now = Ok k → KID k ≠ kid) → triple (I n) (Load ord) (λ _, J) J.
Proof.
  intros Hfresh. unfold Load.
  eapply (triple_bind _ _ _ (λ l r, I n r ∧ ∃ k0, phase kid pub t k0 ∧ k0 ∈ l ∧ ∀ k, k ∈ l → KID k = kid → k = k0)).
  { eapply triple_conseq; [apply (triple_ks ks_list n)|done|intros a s Hs; exact Hs|eauto].
    intros r x k E HI. apply ks_list_law in E as [Hrows Hl].
    pose proof HI as [_ Hkd (k0 & Hk0 & Hp) _ _ _]. split; [rewrite Hrows; eauto|].
    intros l -> HI'. split; [done|]. exists k0. specialize (Hl l eq_refl). split_and!; [done|apply Hl; eauto|].
    intros y [i Hy]%Hl Hky. apply Hkd in Hy as Hi. subst i. rewrite Hky in Hy. congruence. }
  intros l. eapply (triple_bind _ _ _ (λ fa r, I n r ∧ ∃ k0 p, phase kid pub t k0 ∧ fa.1 !! kid = Some (mkRingKey k0 p))).
  { apply triple_lift. intros r (HI & k0 & Hp & Hin & Hu). destruct (load_keys l ∅ false) as [[f b]|] eqn:E; [|eauto].
    split; [done|]. destruct (load_keys_kept _ _ _ _ _ _ k0 E Hu) as [p Hf]; [apply Hp|by left|]. exists k0, p. done. }
  intros [f b]. eapply (triple_bind _ _ _ (λ _, I n)).
  { apply triple_modify. intros r ([H1 Hkd H2 H3 H4 H5] & k0 & p & Hp & Hf). split; auto. cbn. eauto. }
  intros []. cbn. destruct b; [apply triple_ret; eauto|by apply triple_Rotate].
Qed.
End Window.

(** ** Histories of a ring *)
Definition at_time now r : R := mkRing (rgStore r) (rgKeys r) (rgCfg r) now (rgRand r).
(** The next generated key has a new id. *)
Definition kid_fresh r : Prop := ∀ k, GenerateKey (rgRand r) (rgNow r) = Ok k → rgKeys r !! KID k = None.

Inductive ring_step : R → R → Prop :=
  | rs_rotate ord r : kid_fresh r → ring_step r (Rotate ord r).2
  | rs_sweep ord ord' r : kid_fresh r → ring_step r (Sweep ord ord' r).2
  | rs_load ord r : kid_fresh r → ring_step r (Load ord r).2
  | rs_tick d r : (0 <= d)%Z → ring_step r (at_time (rgNow r + d) r).

(** ** The ring and the store agree *)
Record RInv now cfg r : Prop := mkRInv {
  rv_now : rgNow r = now;
  rv_cfg : rgCfg r = cfg;
  rv_keyed : ∀ i k, ks_rows (rgStore r) !! i = Some k → KID k = i ∧ i ≠ "";
  rv_kid : ∀ i k, rgKeys r !! i = Some k → KID (rkKey k) = i ∧ i ≠ "";
  rv_row : ∀ i k, rgKeys r !! i = Some k → KState (rkKey k) ≠ StateRetired →
    ∃ row, ks_rows (rgStore r) !! i = Some row ∧ KState row = KState (rkKey k) ∧ KPublic row = KPublic (rkKey k);
  rv_open : ∀ i k, rgKeys r !! i = Some k → KState (rkKey k) ≠ StateRetired → is_Some (rkPriv k);
  rv_priv : ∀ i k p, rgKeys r !! i = Some k → rkPriv k = Some p → ed_public p = KPublic (rkKey k);
}.

(** A failed store call leaves the agreement as it was. *)
Lemma RInv_rows now cfg r k : RInv now cfg r → ks_rows k = ks_rows (rgStore r) →
  RInv now cfg (mkRing k (rgKeys r) (rgCfg r) (rgNow r) (rgRand r)).
Proof. intros [H1 H2 H3 H4 H5 H7 H6] E. split; cbn; rewrite ?E; auto. Qed.

(** A state written to the row and, through the pointer, to the key. *)
Lemma set_both now cfg r i k0 state (f : ringKey → ringKey) :
  RInv now cfg r → rgKeys r !! i = Some k0 → KState (rkKey k0) ≠ StateRetired →
  (∀ k, KID (rkKey (f k)) = KID (rkKey k) ∧ KPublic (rkKey (f k)) = KPublic (rkKey k) ∧ KState (rkKey (f k)) = state ∧
        (rkPriv (f k) = rkPriv k ∨ (rkPriv (f k) = None ∧ state = StateRetired))) →
  match (ksM (ks_set_state i state now) ;;; set_keys (alter f i)) r with
  | (Ok _, r') => RInv now cfg r' | (Err _, r') => RInv now cfg r' end.
Proof.
  intros HI Hk0 Hs0 Hf. unfold bind, ksM. destruct (ks_set_state i state now (rgStore r)) as [x k] eqn:E.
  apply ks_set_state_law in E. destruct x as [[]|e]; [|by apply RInv_rows]. cbn.
  destruct HI as [H1 H2 H3 H4 H5 H7 H6]. split; cbn; rewrite ?E; auto.
  - intros j row. destruct (decide (i = j)) as [<-|Hne]; [rewrite lookup_alter_eq|rewrite lookup_alter_ne by done; auto].
    destruct (ks_rows (rgStore r) !! i) as [y|] eqn:Ey; [|done]. cbn. intros [= <-]. by apply H3 in Ey.
  - intros j y. destruct (decide (i = j)) as [<-|Hne]; [rewrite lookup_alter_eq, Hk0|rewrite lookup_alter_ne by done; auto].
    cbn. intros [= <-]. destruct (Hf k0) as (-> & _). auto.
  - intros j y. destruct (decide (i = j)) as [<-|Hne]; [rewrite !lookup_alter_eq, Hk0|rewrite !lookup_alter_ne by done; auto].
    cbn. intros [= <-] _. destruct (H5 _ _ Hk0 Hs0) as (row & -> & _ & Hp). cbn. eexists. split; [done|].
    destruct (Hf k0) as (_ & -> & -> & _). done.
  - intros j y. destruct (decide (i = j)) as [<-|Hne]; [rewrite lookup_alter_eq, Hk0|rewrite lookup_alter_ne by done; eauto].
    cbn. intros [= <-]. destruct (Hf k0) as (_ & _ & -> & [->|[_ ->]]); [eauto|done].
  - intros j y p. destruct (decide (i = j)) as [<-|Hne]; [rewrite lookup_alter_eq, Hk0|rewrite lookup_alter_ne by done; eauto].
    cbn. intros [= <-] Hp. destruct (Hf k0) as (_ & -> & _ & [Hq|[Hq _]]); [|congruence]. rewrite Hq in Hp. eauto.
Qed.

Section Agree.
Context (now : Z) (cfg : RingConfig).
Notation I := (RInv now cfg).

(** The keys that were moved to retiring can be moved back. *)
Definition movable (l : list string) r : Prop :=
  ∀ i, i ∈ l → ∃ k, rgKeys r !! i = Some k ∧ KState (rkKey k) ≠ StateRetired.
Lemma movable_alter l r i f r' :
  movable l r → rgKeys r' = alter f i (rgKeys r) → (∀ k, KState (rkKey (f k)) ≠ StateRetired) → movable l r'.
Proof.
  intros Hm E Hf j Hj. destruct (Hm j Hj) as (k & Hk & Hs). rewrite E.
  destruct (decide (i = j)) as [<-|Hne]; [rewrite lookup_alter_eq, Hk|rewrite lookup_alter_ne by done]; cbn; eauto.
Qed.
Lemma set_both_keys i state f r r' x :
  (ksM (ks_set_state i state now) ;;; set_keys (alter f i)) r = (x, r') →
  rgKeys r' = match x with Ok _ => alter f i (rgKeys r) | Err _ => rgKeys r end.
Proof. unfold bind, ksM. destruct (ks_set_state i state now (rgStore r)) as [[[]|e] k]; by intros [= <- <-]. Qed.

Lemma agree_rotate_one acc i :
  triple (λ r, I r ∧ movable acc r) (rotate_one now acc i) (λ acc' r, I r ∧ movable acc' r) I.
Proof.
  intros r [HI Hm]. unfold rotate_one, bind at 1, gets. destruct (rgKeys r !! i) as [k|] eqn:Ek; [|done].
  case_bool_decide as Ea; [|done]. destruct (rv_kid _ _ _ HI _ _ Ek) as [-> _].
  rewrite <- bind_assoc. unfold bind at 1.
  pose proof (set_both now cfg r i k StateRetiring (retire_begin now) HI Ek) as Hb.
  specialize (Hb ltac:(by rewrite Ea) ltac:(intros; cbn; auto)).
  destruct ((ksM (ks_set_state i StateRetiring now) ;;; set_keys (alter (retire_begin now) i)) r) as [[[]|e] r'] eqn:E; [|done].
  split; [done|]. apply set_both_keys in E. intros j [Hj|Hj%list_elem_of_singleton]%elem_of_app.
  - by eapply (movable_alter acc r).
  - subst j. rewrite E, lookup_alter_eq, Ek. cbn. eexists. split; [done|]. done.
Qed.

Lemma agree_restore_one l i : i ∈ l → triple (λ r, I r ∧ movable l r) (restore_one now i) (λ _ r, I r ∧ movable l r) I.
Proof.
  intros Hi r [HI Hm]. unfold restore_one, bind at 1, gets. destruct (Hm i Hi) as (k & Ek & Hs). rewrite Ek.
  destruct (rv_kid _ _ _ HI _ _ Ek) as [-> _].
  pose proof (set_both now cfg r i k StateActive retire_undo HI Ek Hs ltac:(intros; cbn; auto)) as Hb.
  destruct ((ksM (ks_set_state i StateActive now) ;;; set_keys (alter retire_undo i)) r) as [x r'] eqn:E.
  pose proof (set_both_keys _ _ _ _ _ _ E) as Hk. revert E. unfold bind, attempt.
  destruct (ksM (ks_set_state i StateActive now) r) as [[[]|e] r1]; cbn; intros [= <- <-].
  - split; [done|]. by eapply (movable_alter l r).
  - split; [done|]. intros j Hj. rewrite Hk. by apply Hm.
Qed.

Lemma OpenKey_public k p : OpenKey k = Ok p → ed_public p = KPublic k.
Proof.
  unfold OpenKey. destruct (env_open _ _) as [raw|]; [|done]. destruct (negb _); [done|].
  case_bool_decide; cbn; [|done]. by intros [= <-].
Qed.
Lemma GenerateKey_ok n k : GenerateKey n now = Ok k →
  KID k ≠ "" ∧ KState k = StateActive ∧ ∃ p, OpenKey k = Ok p.
Proof.
  unfold GenerateKey. destruct (ed_generate n) as [[pub priv]|] eqn:Eg; [|done].
  destruct (env_seal n priv (keyAD (key_id pub))) as [enc|] eqn:Es; [|done]. intros [= <-].
  apply ed_pair in Eg as [Hp Hl]. split_and!; [apply key_id_nonempty|done|]. exists priv. unfold OpenKey. cbn [KPrivateEnc KID KPublic].
  rewrite (env_open_seal _ _ _ _ Es), Hl, Hp. cbn. by rewrite bool_decide_eq_true_2.
Qed.

(** A ring that can sign has an active key. *)
Definition signer r : Prop := ∃ i k, rgKeys r !! i = Some k ∧ KState (rkKey k) = StateActive.

Lemma agree_insert k p r : I r → KID k ≠ "" → OpenKey k = Ok p → KState k = StateActive →
  match (ksM (ks_insert k) ;;; set_keys <[KID k := mkRingKey k (Some p)]>) r with
  | (Ok _, r') => I r' ∧ signer r' | (Err _, r') => I r' ∧ rgKeys r' = rgKeys r end.
Proof.
  intros HI Hne Hp Hst. unfold bind, ksM. destruct (ks_insert k (rgStore r)) as [x s] eqn:E. apply ks_insert_law in E.
  destruct x as [[]|e]; [|split; [by apply RInv_rows|done]]. cbn.
  split; [|exists (KID k); eexists; cbn; by rewrite lookup_insert_eq].
  destruct HI as [H1 H2 H3 H4 H5 H7 H6]. split; cbn; rewrite ?E; auto.
  - intros i row [[<- <-]|[_ Hr]]%lookup_insert_Some; auto.
  - intros i y [[<- <-]|[_ Hr]]%lookup_insert_Some; auto.
  - intros i y [[<- <-]|[Hi Hr]]%lookup_insert_Some Hs; [rewrite lookup_insert_eq; eauto|].
    rewrite lookup_insert_ne by done. eauto.
  - intros i y [[<- <-]|[_ Hr]]%lookup_insert_Some; [|eauto]. cbn. eauto.
  - intros i y q [[<- <-]|[_ Hr]]%lookup_insert_Some; [|eauto]. cbn. intros [= <-]. by apply OpenKey_public.
Qed.

Lemma agree_Rotate ord : triple I (Rotate ord) (λ _ r, I r ∧ signer r) I.
Proof.
  intros r HI. rewrite Rotate_eq, (rv_now _ _ _ HI).
  assert (HI' : I (mkRing (rgStore r) (rgKeys r) (rgCfg r) now (S (rgRand r)))).
  { destruct HI as [H1 H2 H3 H4 H5 H7 H6]. by split. }
  revert HI'. generalize (mkRing (rgStore r) (rgKeys r) (rgCfg r) now (S (rgRand r))). generalize (rgRand r). clear r HI.
  intros n. change (triple I (rotate_with n now ord) (λ _ r, I r ∧ signer r) I). unfold rotate_with.
  eapply (triple_bind _ _ _ (λ k r, I r ∧ GenerateKey n now = Ok k)).
  { apply triple_lift. intros r Hr. destruct (GenerateKey n now); done. }
  intros k. apply triple_pure. intros (Hne & Hst & p & Hp)%GenerateKey_ok. cbv zeta. rewrite Hp.
  eapply (triple_bind _ _ _ (λ acc r, I r ∧ movable acc r)).
  { eapply (triple_conseq (λ r, I r ∧ movable [] r)); [|intros s Hs; split; [done|]; intros j; set_solver|intros a s Hs; exact Hs|done].
    apply (triple_fold_each ord (rotate_one now) (λ acc r, I r ∧ movable acc r)). intros. apply agree_rotate_one. }
  intros retired r [HI Hm]. pose proof (agree_insert k p r HI Hne Hp Hst) as Hi. revert Hi. unfold bind, attempt.
  destruct (ksM (ks_insert k) r) as [[[]|e] r1]; [done|]. intros [HI1 Hk1].
  assert (Hm1 : movable retired r1) by (intros j Hj; rewrite Hk1; by apply Hm).
  pose proof (triple_for_each retired (restore_one now) (λ r, I r ∧ movable retired r) I
    (λ j Hj, agree_restore_one retired j Hj) r1 (conj HI1 Hm1)) as Hf.
  destruct (for_each retired (restore_one now) r1) as [[[]|e'] r2]; [|done]. apply Hf.
Qed.

(** What is to be removed is retired; a signer stays. *)
Definition sweeping (F : Prop) (acc : bool * list string) r : Prop :=
  I r ∧ (∀ j, j ∈ acc.2 → ∃ k, rgKeys r !! j = Some k ∧ KState (rkKey k) = StateRetired) ∧ (F → signer r).

Lemma agree_sweep_one (F : Prop) acc i : triple (sweeping F acc) (sweep_one now acc i) (sweeping F) I.
Proof.
  intros r (HI & Hrem & HF). unfold sweep_one, bind at 1 2, gets.
  destruct (rgKeys r !! i) as [k|] eqn:Ek; [|done]. cbv zeta.
  destruct (decide (KState (rkKey k) = StateActive)) as [Ea|Ea];
    [rewrite bool_decide_eq_true_2 by done; done|rewrite bool_decide_eq_false_2 by done].
  destruct (decide (KState (rkKey k) = StateRetiring)) as [Er|Er].
  { rewrite bool_decide_eq_true_2 by done. destruct (KRetiringAt (rkKey k)); [|done]. destruct (_ <=? _)%Z; [|done].
    rewrite <- bind_assoc. unfold bind at 1.
    pose proof (set_both now cfg r i k StateRetired (retire_end now) HI Ek ltac:(by rewrite Er) ltac:(intros; cbn; tauto)) as Hb.
    destruct ((ksM (ks_set_state i StateRetired now) ;;; set_keys (alter (retire_end now) i)) r) as [[[]|e] r'] eqn:E; [|done].
    apply set_both_keys in E. split_and!; [done| |].
    - intros j Hj. destruct (Hrem j Hj) as (y & Hy & Hys). rewrite E.
      destruct (decide (i = j)) as [<-|Hne]; [rewrite lookup_alter_eq, Ek|rewrite lookup_alter_ne by done]; cbn; eauto.
    - intros (j & y & Hy & Hys)%HF. exists j, y. rewrite E.
      rewrite lookup_alter_ne by (intros ->; congruence). done. }
  rewrite (bool_decide_eq_false_2 (_ = StateRetiring)) by done.
  case_bool_decide as Ed; [|done]. destruct (KRetiredAt (rkKey k)); [|done]. destruct (_ <=? _)%Z; [|done].
  unfold bind, ksM. destruct (ks_remove i (rgStore r)) as [x st] eqn:E. apply ks_remove_law in E.
  destruct x as [[]|e]; [|by apply RInv_rows]. split_and!; [|intros j [?|Hj%list_elem_of_singleton]%elem_of_app; [auto|subst; cbn; eauto]|exact HF].
  destruct HI as [H1 H2 H3 H4 H5 H7 H6]. split; cbn; rewrite ?E; auto.
  - intros j y [_ Hy]%lookup_delete_Some. auto.
  - intros j y Hy Hs. rewrite lookup_delete_ne by (intros ->; congruence). auto.
Qed.

Lemma agree_Sweep (F : Prop) ord ord' : triple (λ r, I r ∧ (F → signer r)) (Sweep ord ord') (λ _ r, I r ∧ (F → signer r)) I.
Proof.
  unfold Sweep. eapply (triple_bind _ _ _ (λ x r, (I r ∧ (F → signer r)) ∧ x = now)).
  { apply triple_gets. intros r [HI HF]. split_and!; [done..|apply HI]. }
  intros x. apply triple_pure. intros ->. eapply (triple_bind _ _ _ (sweeping F)).
  { eapply (triple_conseq (sweeping F (false, []))); [|intros r [HI HF]; split_and!; [done|set_solver|done]|intros a s Hs; exact Hs|done].
    apply (triple_fold_each ord (sweep_one now) (sweeping F)). intros. apply agree_sweep_one. }
  intros acc. eapply (triple_bind _ _ _ (λ _ r, I r ∧ (F → signer r))).
  { apply triple_modify. intros r ([H1 H2 H3 H4 H5 H7 H6] & Hrem & HF). split.
    - split; cbn [rgNow rgCfg rgKeys rgStore]; auto.
      + intros i k [? _]%map_lookup_filter_Some; auto.
      + intros i k [? _]%map_lookup_filter_Some; auto.
      + intros i k [? _]%map_lookup_filter_Some; eauto.
      + intros i k p [? _]%map_lookup_filter_Some; eauto.
    - intros (i & k & Hk & Hs)%HF. exists i, k. cbn. split; [|done].
      apply map_lookup_filter_Some. split; [done|]. intros Hi. destruct (Hrem i Hi) as (y & Hy & Hys). simplify_eq. by rewrite Hs in Hys. }
  intros []. destruct acc.1; [|by apply triple_ret].
  eapply triple_conseq; [apply agree_Rotate|by intros s [? _]|intros a s [? ?]; eauto|done].
Qed.

Lemma load_keys_entries l fresh act f b (P : ringKey → Prop) :
  load_keys l fresh act = Ok (f, b) →
  (∀ k, k ∈ l → KState k = StateRetired → P (mkRingKey k None)) →
  (∀ k p, k ∈ l → KState k ≠ StateRetired → OpenKey k = Ok p → P (mkRingKey k (Some p))) →
  (∀ i k, fresh !! i = Some k → KID (rkKey k) = i ∧ P k) → ∀ i k, f !! i = Some k → KID (rkKey k) = i ∧ P k.
Proof.
  revert fresh act. induction l as [|k l IH]; intros fresh act E H1 H2 Hf; [by injection E as <- <-|].
  assert (Hins : ∀ p, P (mkRingKey k p) → ∀ i y, <[KID k:=mkRingKey k p]> fresh !! i = Some y → KID (rkKey y) = i ∧ P y).
  { intros p Hp i y [[<- <-]|[_ Hy]]%lookup_insert_Some; auto. }
  cbn [load_keys] in E. destruct (bool_decide (KState k = StateRetired)) eqn:Eb; bool_prop.
  - eapply IH; [exact E|set_solver|set_solver|]. apply Hins. apply H1; [set_solver|done].
  - destruct (OpenKey k) as [p|] eqn:Eo; [|done]. eapply IH; [exact E|set_solver|set_solver|].
    apply Hins. apply H2; [set_solver|done|done].
Qed.

(** When the loop reports an active key, the loaded ring has one that opened. *)
Lemma load_keys_active l fresh act f b :
  load_keys l fresh act = Ok (f, b) → (∀ k k', k ∈ l → k' ∈ l → KID k = KID k' → k = k') → b = true →
  act = true ∨ ∃ k, k ∈ l ∧ KState k = StateActive.
Proof.
  revert fresh act. induction l as [|k l IH]; intros fresh act E Hu ->; [injection E as _ ->; by left|].
  assert (Hstep : ∀ p, load_keys l (<[KID k := mkRingKey k p]> fresh) (act || bool_decide (KState k = StateActive)) = Ok (f, true) →
    act = true ∨ ∃ y, y ∈ k :: l ∧ KState y = StateActive).
  { intros p Ep. destruct (IH _ _ Ep ltac:(set_solver) eq_refl) as [[?|Hb]%orb_true_iff|(y & Hy & Hs)]; [by left| |].
    - bool_prop. right. exists k. split; [set_solver|done].
    - right. exists y. split; [set_solver|done]. }
  cbn [load_keys] in E. destruct (bool_decide (KState k = StateRetired)); [by eapply Hstep|].
  destruct (OpenKey k); [by eapply Hstep|done].
Qed.

Lemma agree_Load ord : triple I (Load ord) (λ _ r, I r ∧ signer r) I.
Proof.
  unfold Load. eapply (triple_bind _ _ _ (λ l r, I r ∧ ∀ k, k ∈ l ↔ ks_rows (rgStore r) !! KID k = Some k)).
  { intros r HI. unfold ksM. destruct (ks_list (rgStore r)) as [x k] eqn:E. apply ks_list_law in E as [Hrows Hl].
    destruct x as [l|e]; [|by apply RInv_rows]. split; [by apply RInv_rows|]. cbn. rewrite Hrows. intros y.
    rewrite (Hl l eq_refl). split; [|eauto]. intros [i Hi]. by destruct (rv_keyed _ _ _ HI _ _ Hi) as [-> _]. }
  intros l. eapply (triple_bind _ _ _ (λ fa r, (I r ∧ ∀ k, k ∈ l ↔ ks_rows (rgStore r) !! KID k = Some k) ∧ load_keys l ∅ false = Ok fa)).
  { apply triple_lift. intros r Hr. destruct (load_keys l ∅ false); [done|apply Hr]. }
  intros [f b]. apply triple_pure. intros E. eapply (triple_bind _ _ _ (λ _ r, I r ∧ (b = true → signer r))).
  - apply triple_modify. intros r [HI Hl].
    pose proof (load_keys_entries l ∅ false f b (λ k, rkKey k ∈ l ∧
      (KState (rkKey k) ≠ StateRetired → is_Some (rkPriv k)) ∧
      ∀ p, rkPriv k = Some p → ed_public p = KPublic (rkKey k)) E) as He.
    specialize (He ltac:(intros k Hk Hr; split_and!; [done|by intros Hn; destruct Hn|by intros])
      ltac:(intros k p Hk _ Ho; split_and!; [done|cbn; eauto|intros q [= <-]; by apply OpenKey_public])
      ltac:(intros i k Hk; by rewrite lookup_empty in Hk)).
    split.
    + destruct HI as [H1 H2 H3 H4 H5 H7 H6]. split; cbn; auto.
      * intros i k Hk. destruct (He i k Hk) as (Hi & Hin & _). split; [done|]. apply Hl in Hin. rewrite Hi in Hin. by eapply H3.
      * intros i k Hk _. destruct (He i k Hk) as (Hi & Hin & _). apply Hl in Hin. rewrite Hi in Hin. eauto.
      * intros i k Hk. by apply (He i k Hk).
      * intros i k p Hk. by apply (He i k Hk).
    + intros ->. destruct (load_keys_active _ _ _ _ _ E) as [?|(k & Hk & Hs)]; [|done|done|].
      { intros k k' Hk%Hl Hk'%Hl Heq. congruence. }
      destruct (load_keys_kept (KID k) l ∅ false f true k E) as [p Hf]; [|done|by left|].
      { intros y Hy%Hl Hky. apply Hl in Hk. congruence. }
      exists (KID k). eexists. cbn. eauto.
  - intros []. cbn. destruct b; [apply triple_ret; intros r [? Hs]; split; auto|].
    eapply triple_conseq; [apply agree_Rotate|by intros s [? _]|done|done].
Qed.
End Agree.

(** ** Reachable rings *)
Definition store_ok (ks : K) : Prop := ∀ i k, ks_rows ks !! i = Some k → KID k = i ∧ i ≠ "".
Definition reachable (ks : K) (c : RingConfig) r : Prop := ∃ t n, rtc ring_step (NewRing ks c t n) r.

Lemma RInv_step r r' cfg : ring_step r r' → RInv (rgNow r) cfg r →
  RInv (rgNow r') cfg r' ∧ (rgNow r <= rgNow r')%Z.
Proof.
  intros Hs HI.
  assert (Hsame : ∀ s, RInv (rgNow r) cfg s → RInv (rgNow s) cfg s ∧ (rgNow r <= rgNow s)%Z).
  { intros s Hs'. pose proof (rv_now _ _ _ Hs') as E. rewrite E. split; [done|lia]. }
  destruct Hs as [ord r|ord ord' r|ord r|d r Hd].
  - apply Hsame. apply (triple_out (RInv (rgNow r) cfg)); [|done].
    eapply triple_conseq; [apply agree_Rotate|done|by intros ? ? [? _]|done].
  - apply Hsame. apply (triple_out (λ r', RInv (rgNow r) cfg r' ∧ (False → signer r'))); [|done].
    eapply triple_conseq; [apply (agree_Sweep (rgNow r) cfg False)|done|by intros ? ? [? _]|done].
  - apply Hsame. apply (triple_out (RInv (rgNow r) cfg)); [|done].
    eapply triple_conseq; [apply agree_Load|done|by intros ? ? [? _]|done].
  - destruct HI as [H1 H2 H3 H4 H5 H7 H6]. split; [by split|cbn; lia].
Qed.
Lemma RInv_reachable ks c r : store_ok ks → reachable ks c r → RInv (rgNow r) (ringConfig c) r.
Proof.
  intros Hks (t & n & Hr).
  assert (HI0 : RInv (rgNow (NewRing ks c t n)) (ringConfig c) (NewRing ks c t n)) by by split.
  revert HI0. generalize dependent (NewRing ks c t n). intros r0 Hr.
  induction Hr as [|x y z Hs _ IH]; [done|]. intros HI. apply IH. by eapply RInv_step.
Qed.
Lemma steps_time r r' cfg : rtc ring_step r r' → RInv (rgNow r) cfg r → RInv (rgNow r') cfg r' ∧ (rgNow r <= rgNow r')%Z.
Proof.
  induction 1 as [|x y z Hs _ IH]; [intros; split; [done|lia]|]. intros HI.
  destruct (RInv_step _ _ _ Hs HI) as [HI' Hle]. destruct (IH HI') as [HI'' Hle']. split; [done|lia].
Qed.

Lemma Kept_step i pub t cfg r r' :
  ring_step r r' → (t <= rgNow r)%Z → (rgNow r < t + keepRetired cfg)%Z →
  (∃ n, Kept i pub t (rgNow r) cfg n r) → ∃ n, Kept i pub t (rgNow r') cfg n r'.
Proof.
  intros Hs Hp Hl [n HK].
  assert (Hfr : ∀ k, kid_fresh r → GenerateKey n (rgNow r) = Ok k → KID k ≠ i).
  { intros k Hf Hg Hi. destruct (kp_ring _ _ _ _ _ _ _ HK) as (y & Hy & _). rewrite <- (kp_rand _ _ _ _ _ _ _ HK) in Hg.
    apply Hf in Hg. rewrite Hi in Hg. congruence. }
  assert (Hsame : ∀ s, (∃ m, Kept i pub t (rgNow r) cfg m s) → ∃ m, Kept i pub t (rgNow s) cfg m s).
  { intros s [m Hm]. exists m. by rewrite (kp_now _ _ _ _ _ _ _ Hm). }
  destruct Hs as [ord r Hf|ord ord' r Hf|ord r Hf|d r Hd].
  - apply Hsame. apply (triple_out (Kept i pub t (rgNow r) cfg n)); [|done]. apply triple_Rotate; eauto.
  - apply Hsame. apply (triple_out (Kept i pub t (rgNow r) cfg n)); [|done]. apply triple_Sweep; eauto.
  - apply Hsame. apply (triple_out (Kept i pub t (rgNow r) cfg n)); [|done]. apply triple_Load; eauto.
  - exists n. destruct HK as [H1 Hkd H2 H3 H4 H5]. by split.
Qed.

(** A published key that was active stays published while a token it signed
    can live. *)
Lemma key_kept r r' cfg i k :
  RInv (rgNow r) cfg r → rgKeys r !! i = Some k → KState (rkKey k) = StateActive →
  rtc ring_step r r' → (rgNow r' < rgNow r + keepRetired cfg)%Z → PublicKey r' i = Some (KPublic (rkKey k)).
Proof.
  intros HI Hk Ha Hst Hw.
  assert (Hbase : ∃ n, Kept i (KPublic (rkKey k)) (rgNow r) (rgNow r) cfg n r).
  { destruct HI as [H1 H2 H3 H4 H5 H7 H6]. exists (rgRand r). split; [| | |done|done|done].
    - exists k. split; [done|]. split_and!; [by apply H4|done|by left].
    - intros j y Hy. by apply H3 in Hy as [? _].
    - destruct (H5 i k Hk) as (row & Hrow & Hs & Hp); [by rewrite Ha|]. exists row. split; [done|].
      split_and!; [by apply H3 in Hrow as [? _]|done|left; congruence]. }
  assert (Hall : ∀ t x y, rtc ring_step x y → RInv (rgNow x) cfg x → (t <= rgNow x)%Z → (rgNow y < t + keepRetired cfg)%Z →
    (∃ n, Kept i (KPublic (rkKey k)) t (rgNow x) cfg n x) → ∃ n, Kept i (KPublic (rkKey k)) t (rgNow y) cfg n y).
  { clear Hbase Hst Hw HI Hk Ha r r'. intros t x y Hst. induction Hst as [|x y z Hs Hr IH]; [done|]. intros HI Hp Hw HK.
    destruct (RInv_step _ _ _ Hs HI) as [HI' Hle]. destruct (steps_time _ _ _ Hr HI') as [_ Hle'].
    apply IH; [done|lia|done|]. eapply Kept_step; [done|done|lia|done]. }
  destruct (Hall (rgNow r) r r' Hst HI ltac:(lia) Hw Hbase) as [n HK].
  destruct (kp_ring _ _ _ _ _ _ _ HK) as (y & Hy & _ & Hp & _). unfold PublicKey. rewrite Hy. cbn. by rewrite Hp.
Qed.

Lemma foldl_newer l b k : foldl newer b l = Some k → (b = Some k ∨ k ∈ l) ∧ (b = Some k ∨ KState (rkKey k) = StateActive).
Proof.
  revert b. induction l as [|x l IH]; intros b; cbn; [auto|]. intros E. destruct (IH _ E) as [H1 H2]. revert H1 H2.
  unfold newer. case_bool_decide; cbn; [|naive_solver set_solver]. destruct b as [b|]; [destruct (_ <? _)%Z|]; naive_solver set_solver.
Qed.
Lemma active_ok ord r k cfg : active ord r = Ok k → RInv (rgNow r) cfg r →
  rgKeys r !! KID (rkKey k) = Some k ∧ KState (rkKey k) = StateActive ∧ KID (rkKey k) ≠ "".
Proof.
  unfold active. destruct (foldl newer None _) as [y|] eqn:E; [|done]. intros [= ->] HI.
  apply foldl_newer in E as [[?|Hin] [?|Hs]]; try done. apply list_elem_of_omap in Hin as (i & _ & Hi).
  destruct (rv_kid _ _ _ HI _ _ Hi) as [-> Hne]. done.
Qed.
End RingSafety.
