(* ===== verification/TokenSafety.v ===== *)
(** * Tokens: what is issued verifies until it expires *)
From S2P Require Import Prelude GoStrings Base64 Envelope Token RingSafety.
#[local] Open Scope list_scope.
#[local] Open Scope go_scope.

(** ** Whole seconds *)
Lemma second_pos : (0 < Dur.second)%Z.
Proof. done. Qed.
Lemma numericDate_le t : (numericDate t <= t < numericDate t + Dur.second)%Z.
Proof.
  unfold numericDate. pose proof (Z.div_mod t Dur.second ltac:(done)) as E.
  pose proof (Z.mod_pos_bound t Dur.second second_pos). lia.
Qed.
Lemma numericDate_mono t u : (t <= u)%Z → (numericDate t <= numericDate u)%Z.
Proof. intros H. unfold numericDate. apply Z.mul_le_mono_nonneg_r; [done|]. by apply Z.div_le_mono. Qed.
Lemma numericDate_add t l : (Dur.second | l)%Z → numericDate (t + l) = (numericDate t + l)%Z.
Proof. intros [n ->]. unfold numericDate. rewrite Z.div_add by done. lia. Qed.

Section TokenSafety.
Context {K : Type} {Cr : Crypto} {CrL : CryptoLaws} {KS : KeyStore K} {KSL : KeyStoreLaws K}.
Context {J : JWT} (signed : string → string → Payload → string → Prop) {JL : JWTLaws signed}.
Notation R := (Ring K).
Implicit Types (r : R) (iss jti s : string) (p : Payload).

Lemma ringConfig_ok c :
  (0 < AccessLifetime (ringConfig c) <= 15 * Dur.minute ∧ 0 < ClockSkew (ringConfig c) <= 60 * Dur.second)%Z.
Proof.
  unfold ringConfig. cbn [AccessLifetime ClockSkew].
  destruct (AccessLifetime c <=? 0)%Z eqn:E1; destruct (15 * Dur.minute <? AccessLifetime c)%Z eqn:E2;
  destruct (ClockSkew c <=? 0)%Z eqn:E3; destruct (60 * Dur.second <? ClockSkew c)%Z eqn:E4; cbn [orb];
  bool_prop; unfold Dur.minute, Dur.second in *; lia.
Qed.

(** What a verified access token proves. *)
Definition access_ok iss skew maxLife now p : Prop :=
  (iss ≠ "" → pIss p = iss) ∧ pSub p ≠ "" ∧ pTID p ≠ "" ∧ pSID p ≠ "" ∧ pID p ≠ "" ∧
  ∃ iat exp, pIat p = Some iat ∧ pExp p = Some exp ∧ is_Some (pNbf p) ∧ (exp - iat <= maxLife)%Z ∧
    (iat - skew <= now < exp + skew)%Z.

Lemma VerifyToken_ok s iss skew maxLife now lookup p :
  (0 <= skew <= 60 * Dur.second)%Z → (0 < maxLife <= MaxTokenLifetime)%Z →
  VerifyToken s iss skew maxLife now lookup = Ok p →
  ∃ kid pub, lookup kid = Some pub ∧ signed pub kid p s ∧ access_ok iss skew maxLife now p.
Proof.
  intros Hs Hm. unfold VerifyToken. destruct (_ <? _)%nat; [done|].
  rewrite (proj2 (Z.ltb_ge skew 0)), (proj2 (Z.ltb_ge (60 * Dur.second) skew)) by lia.
  rewrite (proj2 (Z.leb_gt maxLife 0)), (proj2 (Z.ltb_ge MaxTokenLifetime maxLife)) by lia. cbn [orb].
  destruct (ParseWithClaims _ now _ s) as [c|je] eqn:E; [|destruct (jeKey je) as [[]|]; done].
  apply parse_ok in E as (kid & pub & Hk & Hsg & (e & He & Hexp) & Hi & Hn & Hiss & _).
  cbn [oLeeway oIss] in *.
  destruct (pIat c) as [iat|] eqn:Ei; [|done]. rewrite He. destruct (pNbf c) eqn:En; [|done].
  destruct (maxLife <? e - iat)%Z eqn:El; [done|]. bool_prop.
  destruct (bool_decide (pSub c = "") || _ || _ || _) eqn:Eb; [done|]. bool_prop. intros [= <-].
  case_bool_decide; [done|]. destruct (lookup kid) as [pub'|] eqn:Elk; [|done]. injection Hk as ->.
  exists kid, pub. split_and!; [done|done|]. specialize (Hi _ eq_refl). split_and!; auto.
  exists iat, e. rewrite En. split_and!; eauto; lia.
Qed.

Lemma VerifyToken_complete s iss skew maxLife now lookup kid pub p :
  (0 <= skew <= 60 * Dur.second)%Z → (0 < maxLife <= MaxTokenLifetime)%Z → (String.length s <= maxTokenBytes)%nat →
  lookup kid = Some pub → kid ≠ "" → signed pub kid p s → pIss p = iss →
  (∀ n, pNbf p = Some n → (n - skew <= now)%Z) →
  access_ok iss skew maxLife now p → VerifyToken s iss skew maxLife now lookup = Ok p.
Proof.
  intros Hs Hm Hlen Hlk Hkid Hsg Hiss Hnbf (_ & H1 & H2 & H3 & H4 & iat & exp & Hi & He & [n Hn] & Hl & Hw).
  unfold VerifyToken. rewrite (proj2 (Nat.ltb_ge _ _)) by done.
  rewrite (proj2 (Z.ltb_ge skew 0)), (proj2 (Z.ltb_ge (60 * Dur.second) skew)) by lia.
  rewrite (proj2 (Z.leb_gt maxLife 0)), (proj2 (Z.ltb_ge MaxTokenLifetime maxLife)) by lia. cbn [orb].
  rewrite (parse_signed _ _ _ _ pub kid p Hsg).
  - rewrite Hi, He, Hn, (proj2 (Z.ltb_ge _ _)) by lia. by rewrite !bool_decide_eq_false_2.
  - rewrite bool_decide_eq_false_2 by done. by rewrite Hlk.
  - split_and!; cbn [oLeeway oIss oAud]; [exists exp; split; [done|lia]| |done|done|done].
    intros x Hx. simplify_eq. lia.
Qed.

(** Issue returns a token signed by a published, active key. *)
Lemma Issue_ok iss jti ord r req s p cfg :
  Issue iss jti ord r req = Ok (s, p) → RInv (rgNow r) cfg r →
  ∃ k life, rgKeys r !! KID (rkKey k) = Some k ∧ KState (rkKey k) = StateActive ∧ KID (rkKey k) ≠ "" ∧
    signed (KPublic (rkKey k)) (KID (rkKey k)) p s ∧ (life <= AccessLifetime cfg)%Z ∧
    pIss p = iss ∧ pSub p ≠ "" ∧ pTID p ≠ "" ∧ pSID p ≠ "" ∧ pID p = jti ∧ pPaths p = [] ∧
    pIat p = Some (numericDate (rgNow r)) ∧ pNbf p = Some (numericDate (rgNow r)) ∧
    pExp p = Some (numericDate (rgNow r + life)).
Proof.
  unfold Issue. destruct (active ord r) as [k|] eqn:Ea; [|done]. intros E HI.
  destruct (active_ok _ _ _ _ Ea HI) as (Hk & Hs & Hne).
  destruct (bool_decide (RqUserID req = "") || _ || _) eqn:Eb; [done|]. bool_prop.
  destruct (rkPriv k) as [priv|] eqn:Ep; [|done].
  destruct (SignedString priv (KID (rkKey k)) _) as [s'|] eqn:Es; [|done]. cbn [rbind] in E. injection E as <- <-.
  apply sign_signed in Es. rewrite (rv_priv _ _ _ HI _ _ _ Hk Ep) in Es.
  eexists k, _. split_and!; [done|done|done|exact Es| |done..].
  rewrite (rv_cfg _ _ _ HI). destruct (RqLifetime req <=? 0)%Z eqn:E1; cbn [orb]; [lia|].
  destruct (AccessLifetime cfg <? RqLifetime req)%Z eqn:E2; bool_prop; lia.
Qed.

(** [s] verifies as [p] in every later state of the ring until [p] expires. *)
Definition verifies_until_expiry iss cfg r s p : Prop :=
  ∀ r', rtc ring_step r r' → (∀ e, pExp p = Some e → rgNow r' < e + ClockSkew cfg)%Z → IssuerVerify iss r' s = Ok p.
Definition enrolls_until_expiry iss cfg r s (g : EnrollGrant) : Prop :=
  ∀ r', rtc ring_step r r' → (rgNow r' < EgExpiresAt g + ClockSkew cfg)%Z → VerifyEnrollment iss r' s = Ok g.
(** No ring accepts [s] as an enrollment token; no key set accepts it as an
    access token. *)
Definition never_enrolls s : Prop := ∀ iss r g, VerifyEnrollment iss r s ≠ Ok g.
Definition never_access s : Prop := ∀ iss skew maxLife now lookup p, VerifyToken s iss skew maxLife now lookup ≠ Ok p.
(** Whatever order the map is ranged in, there is a key to sign with. *)
Definition can_issue r : Prop :=
  ∀ ord, (∀ i, is_Some (rgKeys r !! i) → i ∈ ord) → ∃ k, active ord r = Ok k ∧ is_Some (rkPriv k).

(** What is issued verifies until it expires: from the moment an access token
    is issued until its expiry (plus the accepted skew), whatever rotations,
    sweeps and reloads happen in between, verification against the ring
    returns exactly the issued claims. *)
Theorem issued_token_verifies ks c r iss jti ord req s p :
  store_ok ks → reachable ks c r → (Dur.second | AccessLifetime (ringConfig c))%Z →
  Issue iss jti ord r req = Ok (s, p) → jti ≠ "" → (String.length s <= maxTokenBytes)%nat →
  verifies_until_expiry iss (ringConfig c) r s p.
Proof.
  intros Hks Hre Hsec E Hjti Hlen r' Hst Hexp. apply (RInv_reachable _ _ _ Hks) in Hre as HI.
  destruct (Issue_ok _ _ _ _ _ _ _ _ E HI) as (k & life & Hk & Ha & Hne & Hsg & Hlife & Hiss & Hsub & Htid & Hsid & Hid & _ & Hiat & Hnbf & Hex).
  destruct (steps_time _ _ _ Hst HI) as [HI' Hle]. destruct (ringConfig_ok c) as [HA HS].
  specialize (Hexp _ Hex). pose proof (numericDate_le (rgNow r + life)). pose proof (numericDate_le (rgNow r)).
  assert (Hkey : PublicKey r' (KID (rkKey k)) = Some (KPublic (rkKey k))).
  { eapply key_kept; [exact HI|done|done|done|]. unfold keepRetired. lia. }
  assert (Hmono : (numericDate (rgNow r + life) <= numericDate (rgNow r) + AccessLifetime (ringConfig c))%Z).
  { rewrite <- numericDate_add by done. apply numericDate_mono. lia. }
  unfold IssuerVerify. rewrite (rv_cfg _ _ _ HI').
  eapply VerifyToken_complete; [lia|unfold MaxTokenLifetime; lia|done|exact Hkey|done|exact Hsg|done| |].
  - rewrite Hnbf. intros n [= <-]. lia.
  - split_and!; [done..|congruence|]. exists (numericDate (rgNow r)), (numericDate (rgNow r + life)).
    rewrite Hnbf. split_and!; [done|done|eauto|lia|lia|lia].
Qed.

Lemma IssueEnrollment_ok iss jti ord r tid paths ttl s g cfg :
  IssueEnrollment iss jti ord r tid paths ttl = Ok (s, g) → RInv (rgNow r) cfg r →
  ∃ k life, rgKeys r !! KID (rkKey k) = Some k ∧ KState (rkKey k) = StateActive ∧ KID (rkKey k) ≠ "" ∧
    (0 < life <= maxEnrollLifetime)%Z ∧ g = mkEnrollGrant jti tid paths (rgNow r + life) ∧ tid ≠ "" ∧ paths ≠ [] ∧
    signed (KPublic (rkKey k)) (KID (rkKey k))
      (mkPayload iss tid [EnrollAudience] (Some (numericDate (rgNow r))) (Some (numericDate (rgNow r)))
         (Some (numericDate (rgNow r + life))) jti tid "" [] [] paths) s.
Proof.
  unfold IssueEnrollment. destruct (bool_decide (tid = "") || _) eqn:Eb; [done|]. bool_prop.
  destruct (maxEnrollLifetime <? ttl)%Z eqn:El; [done|]. bool_prop.
  destruct (active ord r) as [k|] eqn:Ea; [|done]. intros E HI. destruct (active_ok _ _ _ _ Ea HI) as (Hk & Hs & Hne).
  destruct (rkPriv k) as [priv|] eqn:Ep; [|done].
  destruct (SignedString priv (KID (rkKey k)) _) as [s'|] eqn:Es; [|done]. cbn [rbind] in E. injection E as <- <-.
  apply sign_signed in Es. rewrite (rv_priv _ _ _ HI _ _ _ Hk Ep) in Es.
  eexists k, _. split_and!; [done|done|done| | |done|done|done|exact Es].
  - destruct (ttl <=? 0)%Z eqn:E1; bool_prop; [done|lia].
  - destruct (ttl <=? 0)%Z eqn:E1; bool_prop; [done|lia].
Qed.

(** The same for an enrollment token (up to 24 hours): it verifies until it
    expires and gives back the tenant, the paths and the single-use id. *)
Theorem issued_enrollment_verifies ks c r iss jti ord tid paths ttl s g :
  store_ok ks → reachable ks c r → IssueEnrollment iss jti ord r tid paths ttl = Ok (s, g) →
  jti ≠ "" → (String.length s <= maxTokenBytes)%nat →
  enrolls_until_expiry iss (ringConfig c) r s (mkEnrollGrant jti tid paths (numericDate (EgExpiresAt g))).
Proof.
  intros Hks Hre E Hjti Hlen r' Hst Hexp. apply (RInv_reachable _ _ _ Hks) in Hre as HI.
  destruct (IssueEnrollment_ok _ _ _ _ _ _ _ _ _ _ E HI) as (k & life & Hk & Ha & Hne & Hlife & -> & Htid & Hpaths & Hsg).
  cbn [EgExpiresAt] in *. destruct (steps_time _ _ _ Hst HI) as [HI' Hle]. destruct (ringConfig_ok c) as [HA HS].
  pose proof (numericDate_le (rgNow r + life)). pose proof (numericDate_le (rgNow r)).
  assert (Hkey : PublicKey r' (KID (rkKey k)) = Some (KPublic (rkKey k))).
  { eapply key_kept; [exact HI|done|done|done|]. unfold keepRetired. lia. }
  assert (Hmono : (numericDate (rgNow r + life) <= numericDate (rgNow r) + maxEnrollLifetime)%Z).
  { rewrite <- numericDate_add by (exists 86400%Z; done). apply numericDate_mono. lia. }
  unfold VerifyEnrollment. rewrite (rv_cfg _ _ _ HI'), (proj2 (Nat.ltb_ge _ _)) by done.
  rewrite (proj2 (Z.ltb_ge _ 0)), (proj2 (Z.ltb_ge (60 * Dur.second) _)) by lia. cbn [orb].
  rewrite (parse_signed _ _ _ _ _ _ _ Hsg); cbn [pExp pIat pTID pID pPaths].
  - rewrite (proj2 (Z.ltb_ge _ _)) by lia. by rewrite !bool_decide_eq_false_2.
  - rewrite bool_decide_eq_false_2 by done. by rewrite Hkey.
  - split_and!; cbn [oLeeway oIss oAud pExp pIat pNbf pIss pAud].
    + eexists. split; [done|lia].
    + intros i [= <-]. lia.
    + intros i [= <-]. lia.
    + done.
    + intros a [= <-]. set_solver.
Qed.

(** C13. The two kinds of token cannot be confused: no access token passes the
    enrollment check and no enrollment token passes the access check, whatever
    ring, issuer and audience are used. *)
Theorem token_kinds_disjoint ks c r iss jti ord :
  store_ok ks → reachable ks c r →
  (∀ req s p, Issue iss jti ord r req = Ok (s, p) → never_enrolls s) ∧
  (∀ tid paths ttl s g, IssueEnrollment iss jti ord r tid paths ttl = Ok (s, g) → never_access s).
Proof.
  intros Hks Hre. apply (RInv_reachable _ _ _ Hks) in Hre as HI. split.
  - intros req s p E iss' r' g Hv. destruct (Issue_ok _ _ _ _ _ _ _ _ E HI) as (k & life & _ & _ & _ & Hsg & _ & _ & _ & _ & _ & _ & Hpaths & _).
    revert Hv. unfold VerifyEnrollment. destruct (_ <? _)%nat; [done|].
    destruct (ParseWithClaims _ _ _ s) as [c'|je] eqn:Ep; [|done].
    apply parse_ok in Ep as (kid & pub & _ & Hsg' & _). destruct (signed_payload _ _ _ _ _ _ _ Hsg Hsg') as [_ <-].
    destruct (pExp p), (pIat p); try done. destruct (_ <? _)%Z; [done|]. rewrite Hpaths, (bool_decide_eq_true_2 ([] = [])) by done.
    by rewrite orb_true_r.
  - intros tid paths ttl s g E iss' skew maxLife now lookup p Hv.
    destruct (IssueEnrollment_ok _ _ _ _ _ _ _ _ _ _ E HI) as (k & life & _ & _ & _ & _ & _ & _ & _ & Hsg).
    revert Hv. unfold VerifyToken. destruct (_ <? _)%nat; [done|].
    destruct (ParseWithClaims _ _ _ s) as [c'|je] eqn:Ep; [|destruct (jeKey je) as [[]|]; done].
    apply parse_ok in Ep as (kid & pub & _ & Hsg' & _). destruct (signed_payload _ _ _ _ _ _ _ Hsg Hsg') as [_ <-].
    cbn. destruct (_ <? _)%Z; [done|]. by rewrite !orb_true_r.
Qed.

Lemma newer_some l b : foldl newer (Some b) l ≠ None.
Proof using Type.
  revert b. induction l as [|x l IH]; intros b; cbn; [done|]. unfold newer. destruct (negb _); [apply IH|].
  destruct (_ <? _)%Z; apply IH.
Qed.
Lemma newer_none l k : foldl newer None l = None → k ∈ l → KState (rkKey k) ≠ StateActive.
Proof using Type.
  induction l as [|x l IH]; [by intros _ ?%not_elem_of_nil|]. cbn. unfold newer at 2. intros E [<-|Hin]%elem_of_cons Hs.
  - rewrite bool_decide_eq_true_2 in E by done. by apply newer_some in E.
  - destruct (negb _); [by apply IH|by apply newer_some in E].
Qed.
Lemma signer_can_issue now cfg r : RInv now cfg r → signer r → can_issue r.
Proof using CrL KSL.
  intros HI (i & k & Hk & Hs) ord Hord. unfold active.
  destruct (foldl newer None (omap (λ kid, rgKeys r !! kid) ord)) as [y|] eqn:E.
  - exists y. split; [done|]. apply foldl_newer in E as [[?|Hin] [?|Hy]]; try done.
    apply list_elem_of_omap in Hin as (j & _ & Hj). eapply rv_open; [exact HI|exact Hj|by rewrite Hy].
  - destruct (newer_none _ k E); [|done]. apply list_elem_of_omap. eauto.
Qed.

(** Signing stays possible: a successful load or rotation leaves a ring that
    issues tokens, and a successful sweep of a ring with an active key does
    too, whatever the store did before. *)
Theorem ring_keeps_signing ks c r :
  store_ok ks → reachable ks c r →
  (∀ ord r', Load ord r = (Ok tt, r') → can_issue r') ∧
  (∀ ord r', Rotate ord r = (Ok tt, r') → can_issue r') ∧
  (∀ ord ord' r', signer r → Sweep ord ord' r = (Ok tt, r') → can_issue r').
Proof using CrL KSL.
  intros Hks Hre. apply (RInv_reachable _ _ _ Hks) in Hre as HI. split_and!.
  - intros ord r' E. pose proof (agree_Load _ _ ord r HI) as Ht. rewrite E in Ht. destruct Ht. eauto using signer_can_issue.
  - intros ord r' E. pose proof (agree_Rotate _ _ ord r HI) as Ht. rewrite E in Ht. destruct Ht. eauto using signer_can_issue.
  - intros ord ord' r' Hsg E. pose proof (agree_Sweep _ _ True ord ord' r (conj HI (λ _, Hsg))) as Ht. rewrite E in Ht. destruct Ht. eauto using signer_can_issue.
Qed.
End TokenSafety.
