(* ===== verification/TokenRuns.v ===== *)
(** * Concrete rings and tokens: witnesses of the theorems of TokenSafety *)
From S2P Require Import Prelude GoStrings Base64 Envelope Token RingSafety TokenSafety.
#[local] Open Scope list_scope.
#[local] Open Scope Z_scope.
#[local] Open Scope go_scope.

(** Private keys are 64-byte strings whose first half is the public key;
    nothing is hidden by this envelope. *)
Definition toy_priv (n : nat) : string := repeat_byte "a" n +:+ repeat_byte "b" (64 - n)%nat.
Definition toy_key (n : nat) : string := String.substring 0 32 (toy_priv n).
Definition toy_sha (s : string) : string := str_take 32 (s +:+ repeat_byte "z" 32).
#[local] Arguments toy_sha : simpl never.
#[export] Instance toyCrypto : Crypto := {|
  ed_generate n := if (n <=? 64)%nat then Ok (toy_key n, toy_priv n) else Err ErrEntropy;
  ed_public s := String.substring 0 32 s;
  sha256 := toy_sha;
  env_seal _ pt _ := Ok pt;
  env_open blob _ := Ok blob |}.
#[export] Instance toyCrypto_laws : CryptoLaws.
Proof.
  split; cbn.
  - intros n pub priv. destruct (n <=? 64)%nat eqn:E; [|done]. intros [= <- <-]. split; [done|].
    unfold toy_priv. rewrite str_length_app, !repeat_byte_length. apply Nat.leb_le in E. lia.
  - intros s. unfold toy_sha. apply str_take_length. rewrite str_length_app, repeat_byte_length. lia.
  - congruence.
Qed.

(** A JWT library that knows one token, "tok". *)
Definition claims_okb (o : ParserOpts) (now : Z) (p : Payload) : bool :=
  (match pExp p with Some e => now <? e + oLeeway o | None => false end)%Z &&
  (match pIat p with Some i => i - oLeeway o <=? now | None => true end)%Z &&
  (match pNbf p with Some n => n - oLeeway o <=? now | None => true end)%Z &&
  (bool_decide (oIss o = "") || bool_decide (pIss p = oIss o)) &&
  (match oAud o with Some a => bool_decide (a ∈ pAud p) | None => true end).
Lemma claims_okb_iff o now p : claims_okb o now p = true ↔ claims_ok o now p.
Proof.
  unfold claims_okb, claims_ok. rewrite !andb_true_iff, orb_true_iff, !bool_decide_eq_true. split.
  - intros ((((H1 & H2) & H3) & H4) & H5). split_and!.
    + destruct (pExp p) as [e|]; [|done]. exists e. split; [done|]. by apply Z.ltb_lt.
    + intros i Ei. rewrite Ei in H2. by apply Z.leb_le.
    + intros i Ei. rewrite Ei in H3. by apply Z.leb_le.
    + naive_solver.
    + intros a Ea. rewrite Ea in H5. by apply bool_decide_eq_true in H5.
  - intros ((e & He & H1) & H2 & H3 & H4 & H5). rewrite He. split_and!.
    + by apply Z.ltb_lt.
    + destruct (pIat p); [apply Z.leb_le; auto|done].
    + destruct (pNbf p); [apply Z.leb_le; auto|done].
    + destruct (decide (oIss o = "")); auto.
    + destruct (oAud o); [apply bool_decide_eq_true; auto|done].
Qed.

Section OneToken.
Context (kid0 pub0 : string) (p0 : Payload).
Definition oneJWT : JWT := {|
  SignedString priv kid p :=
    if bool_decide (String.substring 0 32 priv = pub0 ∧ kid = kid0 ∧ p = p0) then Ok "tok" else Err ErrBrokenKey;
  ParseWithClaims o now kf s :=
    if bool_decide (s = "tok")
    then match kf kid0 with
         | Ok pub => if bool_decide (pub = pub0) && claims_okb o now p0 then inl p0
                     else inr (mkJWTError None true false false false false)
         | Err e => inr (mkJWTError (Some e) false false false false false)
         end
    else inr (mkJWTError None false false false false false) |}.
Definition oneSigned (pub kid : string) (p : Payload) (s : string) : Prop :=
  s = "tok" ∧ pub = pub0 ∧ kid = kid0 ∧ p = p0.
Lemma oneJWT_laws : @JWTLaws toyCrypto oneJWT oneSigned.
Proof.
  split; cbn.
  - intros priv kid p s. case_bool_decide as E; [|done]. intros [= <-]. by destruct E as (<- & -> & ->).
  - intros pub kid p s pub' kid' p' (_ & _ & -> & ->) (_ & _ & -> & ->). done.
  - intros o now kf s p. case_bool_decide as Es; [|done]. destruct (kf kid0) as [pub|] eqn:Ek; [|done].
    destruct (bool_decide (pub = pub0)) eqn:Ep; [|done]. destruct (claims_okb o now p0) eqn:Ec; [|done].
    intros [= <-]. bool_prop. subst. exists kid0, pub0. split_and!; [done|done|]. by apply claims_okb_iff.
  - intros o now kf s pub kid p (-> & -> & -> & ->) Hk Hc%claims_okb_iff.
    rewrite bool_decide_eq_true_2, Hk, bool_decide_eq_true_2, Hc by done. done.
  - intros o now kf s pub kid p e (-> & -> & -> & ->) Hk. rewrite bool_decide_eq_true_2, Hk by done. eauto.
Qed.
End OneToken.

(** A ring loaded from an empty store; it signs, rotates, and five minutes
    later the token still verifies. *)
Definition cfg0 : RingConfig := mkRingConfig 0 0 0 0.
Definition T0 : Z := 1700000000 * Dur.second + 7.
Definition ring0 : Ring MemKeys := NewRing ∅ cfg0 T0 0%nat.
Definition kid1 : string := key_id (toy_key 0%nat).
Definition ring1 : Ring MemKeys := (Load [] ring0).2.
Definition ring2 : Ring MemKeys := (Rotate [kid1] ring1).2.
Definition ring3 : Ring MemKeys := at_time (T0 + 300 * Dur.second) ring2.

Definition req1 : Request := mkRequest "u1" "t1" "s1" ["viewer"] ["pwd"] "" 0.
Definition pay1 : Payload :=
  mkPayload "https://auth" "u1" [] (Some (1700000000 * Dur.second)) (Some (1700000000 * Dur.second))
    (Some (1700000900 * Dur.second)) "j1" "t1" "s1" ["viewer"] ["pwd"] [].
Definition pay2 : Payload :=
  mkPayload "https://auth" "t1" ["lcm"] (Some (1700000000 * Dur.second)) (Some (1700000000 * Dur.second))
    (Some (1700000600 * Dur.second)) "j1" "t1" "" [] [] ["/svc/mail"].

Lemma store_empty_ok : store_ok (∅ : MemKeys).
Proof. intros i k Hk. cbn in Hk. unfold MemKeys in *. by rewrite lookup_empty in Hk. Qed.
Lemma fresh0 : kid_fresh ring0.
Proof. intros k _. apply lookup_empty. Qed.
Lemma fresh1 : kid_fresh ring1.
Proof. intros k Hk. vm_compute in Hk. injection Hk as <-. vm_compute. reflexivity. Qed.
Lemma ring1_reached : reachable (∅ : MemKeys) cfg0 ring1.
Proof. exists T0, 0%nat. apply rtc_once. apply rs_load. exact fresh0. Qed.
Lemma ring13 : rtc ring_step ring1 ring3.
Proof.
  eapply rtc_l; [apply (rs_rotate [kid1] ring1), fresh1|]. apply rtc_once.
  replace ring3 with (at_time (rgNow ring2 + 300 * Dur.second) ring2) by (vm_compute; reflexivity).
  apply rs_tick. done.
Qed.

Lemma issued_token_verifies_witness :
  @IssuerVerify MemKeys (oneJWT kid1 (toy_key 0%nat) pay1) "https://auth" ring3 "tok" = Ok pay1.
Proof.
  refine (@issued_token_verifies _ _ _ _ _ (oneJWT kid1 (toy_key 0%nat) pay1) _ (oneJWT_laws kid1 (toy_key 0%nat) pay1)
           ∅ cfg0 ring1 "https://auth" "j1" [kid1] req1 "tok" pay1 _ _ _ _ _ _ ring3 _ _).
  - apply store_empty_ok.
  - apply ring1_reached.
  - exists 900%Z. reflexivity.
  - vm_compute. reflexivity.
  - discriminate.
  - vm_compute. lia.
  - apply ring13.
  - intros e [= <-]. vm_compute. reflexivity.
Defined.

Lemma issued_enrollment_verifies_witness :
  @VerifyEnrollment MemKeys (oneJWT kid1 (toy_key 0%nat) pay2) "https://auth" ring3 "tok" =
  Ok (mkEnrollGrant "j1" "t1" ["/svc/mail"] (numericDate (T0 + 600 * Dur.second))).
Proof.
  refine (@issued_enrollment_verifies _ _ _ _ _ (oneJWT kid1 (toy_key 0%nat) pay2) _ (oneJWT_laws kid1 (toy_key 0%nat) pay2)
           ∅ cfg0 ring1 "https://auth" "j1" [kid1] "t1" ["/svc/mail"] 0 "tok"
           (mkEnrollGrant "j1" "t1" ["/svc/mail"] (T0 + 600 * Dur.second)) _ _ _ _ _ ring3 _ _).
  - apply store_empty_ok.
  - apply ring1_reached.
  - vm_compute. reflexivity.
  - discriminate.
  - vm_compute. lia.
  - apply ring13.
  - vm_compute. reflexivity.
Defined.

Lemma token_kinds_disjoint_witness :
  @VerifyEnrollment MemKeys (oneJWT kid1 (toy_key 0%nat) pay1) "https://auth" ring3 "tok" ≠
  Ok (mkEnrollGrant "j1" "t1" [] 0).
Proof.
  refine (proj1 (@token_kinds_disjoint _ _ _ _ _ (oneJWT kid1 (toy_key 0%nat) pay1) _ (oneJWT_laws kid1 (toy_key 0%nat) pay1)
    ∅ cfg0 ring1 "https://auth" "j1" [kid1] store_empty_ok ring1_reached) req1 "tok" pay1 _ "https://auth" ring3 _).
  vm_compute. reflexivity.
Defined.

Lemma ring_keeps_signing_witness : (Rotate [kid1] ring1).1 = Ok tt ∧ can_issue (Rotate [kid1] ring1).2.
Proof.
  split; [vm_compute; reflexivity|].
  refine (proj1 (proj2 (ring_keeps_signing ∅ cfg0 ring1 store_empty_ok ring1_reached)) [kid1] _ _).
  vm_compute. reflexivity.
Defined.
