(* ===== verification/AuthClient.v ===== *)
(** * The client SDK verifier (sdk/pkg/authclient/verify.go, jwks.go)

    Key source and revocation feed are the answers of remote calls, given to
    the operations that make them.  JSON decoding and the JWT library are
    parameters. *)
From S2P Require Import Prelude GoStrings Base64 Envelope Token RingSafety TokenSafety.
#[local] Open Scope list_scope.
#[local] Open Scope Z_scope.
#[local] Open Scope go_scope.

(** ** Key sets *)
Record JWK : Type := mkJWK { Kty : string; Crv : string; Kid : string; X : string; Use : string; Alg : string; JState : string }.

(** base64.RawURLEncoding *)
Definition b64 : string → string := b64_encode url_alphabet.
Definition unb64 : string → option string := b64_decode url_alphabet.
#[global] Arguments b64 : simpl never.
#[global] Arguments unb64 : simpl never.

Definition NewJWK (kid pub state : string) : JWK := mkJWK "OKP" "Ed25519" kid (b64 pub) "sig" "EdDSA" state.

Definition JWKPublicKey (k : JWK) : result string :=
  if bool_decide (Kty k ≠ "OKP") || bool_decide (Crv k ≠ "Ed25519") ||
     (bool_decide (Alg k ≠ "") && bool_decide (Alg k ≠ "EdDSA")) || bool_decide (Kid k = "")
  then Err (ErrText "authclient: unsupported key")
  else match unb64 (X k) with
       | Some raw => if (String.length raw =? 32)%nat then Ok raw else Err (ErrText "authclient: malformed key")
       | None => Err (ErrText "authclient: malformed key")
       end.

Fixpoint parse_keys (l : list JWK) (out : gmap string string) : result (gmap string string) :=
  match l with
  | [] => Ok out
  | k :: l' =>
      match JWKPublicKey k with
      | Err e => Err e
      | Ok pub => if bool_decide (is_Some (out !! Kid k)) then Err (ErrText "authclient: duplicate kid")
                  else parse_keys l' (<[Kid k := pub]> out)
      end
  end.
(** [data] as its length and, when it is JSON of a key set, the keys. *)
Definition ParseJWKS (len : nat) (decoded : option (list JWK)) : result (gmap string string) :=
  if (65536 <? len)%nat then Err (ErrText "authclient: jwks too large")
  else match decoded with
       | None => Err (ErrText "authclient: jwks")
       | Some l => parse_keys l ∅
       end.

(** Ring.JWKS; the map range order is [ord]. *)
Definition RingJWKS {K} (ord : list string) (r : Ring K) : list JWK :=
  omap (λ kid, (λ k, NewJWK (KID (rkKey k)) (KPublic (rkKey k)) (KState (rkKey k))) <$> rgKeys r !! kid) ord.

(** ** The verifier *)
Record RevEntry : Type := mkRevEntry { RTS : Z; RKind : string; RSubject : string; RTenant : string; RReason : string }.
Record ClientConfig : Type := mkClientConfig {
  cIssuer : string; cAudience : string; cTenantID : string; cSkew : Z; cKeyRefresh : Z; cUnknownKidCap : Z;
  cRevocationPoll : Z; cMaxStale : Z; cRetention : Z }.
Record Identity : Type := mkIdentity {
  iUserID : string; iTenantID : string; iSessionID : string; iRoles : list string; iAMR : list string;
  iAudience : string; iIssuedAt : Z; iExpiresAt : Z; iJTI : string }.

(** [vReceived] is history: every entry the feed ever returned. *)
Record Verifier : Type := mkVerifier {
  vCfg : ClientConfig; vHasRevs : bool; vNow : Z;
  vKeySet : gmap string string; vKeysAt : Z; vLastUnknown : Z;
  vEntries : list RevEntry; vCursor : string; vSyncedAt : Z; vSynced : bool; vReceived : list RevEntry }.

Definition clientConfig (c : ClientConfig) : ClientConfig :=
  let or_default z d := if (z <=? 0)%Z then d else z in
  mkClientConfig (cIssuer c) (cAudience c) (cTenantID c)
    (if (cSkew c <=? 0) || (60 * Dur.second <? cSkew c) then 60 * Dur.second else cSkew c)
    (or_default (cKeyRefresh c) (5 * Dur.minute)) (or_default (cUnknownKidCap c) Dur.minute)
    (or_default (cRevocationPoll c) (5 * Dur.second)) (or_default (cMaxStale c) (60 * Dur.minute))
    (or_default (cRetention c) (60 * Dur.minute)).
#[global] Arguments clientConfig : simpl never.
(** The zero time is far in the past. *)
Definition zeroTime : Z := - (2000 * 366 * 24 * Dur.hour).
Definition NewVerifier (c : ClientConfig) (hasRevs : bool) (now : Z) : Verifier :=
  mkVerifier (clientConfig c) hasRevs now ∅ zeroTime zeroTime [] "" zeroTime false [].

Definition RefreshKeys (keys : result (gmap string string)) : M Verifier unit := λ v,
  match keys with
  | Err e => (Err e, v)
  | Ok set => (Ok tt, mkVerifier (vCfg v) (vHasRevs v) (vNow v) set (vNow v) (vLastUnknown v) (vEntries v) (vCursor v)
                        (vSyncedAt v) (vSynced v) (vReceived v))
  end.

Definition forgetExpired (cfg : ClientConfig) (now : Z) (entries : list RevEntry) : list RevEntry :=
  filter (λ e, now - cRetention cfg < RTS e) entries.

Definition Feed : Type := string → result (list RevEntry * string).

Fixpoint sync_loop (n : nat) (feed : Feed) (cursor : string) : M Verifier unit :=
  match n with
  | O => ret tt
  | S n' => λ v,
      match feed cursor with
      | Err e => (Err e, v)
      | Ok (entries, next) =>
          let v' := mkVerifier (vCfg v) (vHasRevs v) (vNow v) (vKeySet v) (vKeysAt v) (vLastUnknown v)
                      (forgetExpired (vCfg v) (vNow v) (vEntries v ++ entries)) next (vSyncedAt v) (vSynced v)
                      (vReceived v ++ entries) in
          if bool_decide (next = cursor) || bool_decide (entries = []) then (Ok tt, v')
          else sync_loop n' feed next v'
      end
  end.
Definition SyncRevocations (feed : Feed) : M Verifier unit :=
  v0 <- gets id ;;
  if negb (vHasRevs v0) then ret tt else
  sync_loop 100 feed (vCursor v0) ;;;
  modify (λ v, mkVerifier (vCfg v) (vHasRevs v) (vNow v) (vKeySet v) (vKeysAt v) (vLastUnknown v) (vEntries v)
                 (vCursor v) (vNow v) true (vReceived v)).

Definition unix (t : Z) : Z := t / Dur.second.
Definition entry_hits (e : RevEntry) (iat : Z) (sid sub tid : string) : bool :=
  negb (unix (RTS e) <? unix iat) &&
  (if bool_decide (RKind e = "session") then bool_decide (RSubject e = sid)
   else if bool_decide (RKind e = "user")
   then bool_decide (RSubject e = sub) && (bool_decide (RTenant e = "") || bool_decide (RTenant e = tid))
   else if bool_decide (RKind e = "tenant") then bool_decide (RSubject e = tid)
   else false).
Definition client_revoked (entries : list RevEntry) (iat : Z) (c : Payload) : bool :=
  existsb (λ e, entry_hits e iat (pSID c) (pSub c) (pTID c)) entries.

Section Verify.
Context {J : JWT}.

Definition verify_with (v : Verifier) (tok : string) : result Payload :=
  VerifyToken tok (cIssuer (vCfg v)) (cSkew (vCfg v)) MaxTokenLifetime (vNow v) (λ kid, vKeySet v !! kid).

(** [keys]: what the key source answers if it is asked. *)
Definition Verify (keys : result (gmap string string)) (tok : string) : M Verifier Identity :=
  v <- gets id ;;
  cr <- (match verify_with v tok with
         | Err (ErrUnknownKid kid) =>
             if (cUnknownKidCap (vCfg v) <=? vNow v - vLastUnknown v)
             then modify (λ v, mkVerifier (vCfg v) (vHasRevs v) (vNow v) (vKeySet v) (vKeysAt v) (vNow v)
                                 (vEntries v) (vCursor v) (vSyncedAt v) (vSynced v) (vReceived v)) ;;;
                  rr <- attempt (RefreshKeys keys) ;;
                  v' <- gets id ;;
                  ret (match rr with Ok _ => verify_with v' tok | Err _ => Err (ErrUnknownKid kid) end)
             else ret (Err (ErrUnknownKid kid))
         | r => ret r
         end) ;;
  match cr with
  | Err _ => throw ErrUnauthenticated
  | Ok c =>
      let cfg := vCfg v in
      if bool_decide (cAudience cfg ≠ "") && negb (bool_decide (cAudience cfg ∈ pAud c)) then throw ErrUnauthenticated
      else if bool_decide (cTenantID cfg ≠ "") && bool_decide (pTID c ≠ cTenantID cfg) then throw ErrWrongTenant
      else
        match pIat c, pExp c with
        | Some iat, Some exp =>
            let id := mkIdentity (pSub c) (pTID c) (pSID c) (pRoles c) (pAMR c) (hd "" (pAud c)) iat exp (pID c) in
            if vHasRevs v
            then if negb (vSynced v) || (cMaxStale cfg <? vNow v - vSyncedAt v) then throw ErrStale
                 else if client_revoked (vEntries v) iat c then throw ErrTokenRevoked
                 else ret id
            else ret id
        | _, _ => throw (ErrText "nil pointer dereference")
        end
  end.
End Verify.
