(* ===== verification/ClientSafety.v ===== *)
(** * What the client SDK guarantees *)
From S2P Require Import Prelude GoStrings Base64 Envelope Token RingSafety TokenSafety TokenRuns AuthClient.
#[local] Open Scope list_scope.
#[local] Open Scope Z_scope.
#[local] Open Scope go_scope.

(** ** Histories of a verifier *)
Section Histories.
Context {J : JWT}.

Definition tick_client (d : Z) (v : Verifier) : Verifier :=
  mkVerifier (vCfg v) (vHasRevs v) (vNow v + d) (vKeySet v) (vKeysAt v) (vLastUnknown v) (vEntries v) (vCursor v)
    (vSyncedAt v) (vSynced v) (vReceived v).
Inductive client_step : Verifier → Verifier → Prop :=
  | cs_refresh keys v : client_step v (RefreshKeys keys v).2
  | cs_sync feed v : client_step v (SyncRevocations feed v).2
  | cs_verify keys tok v : client_step v (Verify keys tok v).2
  | cs_tick d v : 0 <= d → client_step v (tick_client d v).
Definition client_reach (c : ClientConfig) (hasRevs : bool) (v : Verifier) : Prop :=
  ∃ t, rtc client_step (NewVerifier c hasRevs t) v.

(** Every received entry is remembered until it leaves the retention window. *)
Record VInv c hasRevs (v : Verifier) : Prop := mkVInv {
  vi_cfg : vCfg v = clientConfig c;
  vi_revs : vHasRevs v = hasRevs;
  vi_kept : ∀ e, e ∈ vReceived v → e ∈ vEntries v ∨ RTS e <= vNow v - cRetention (clientConfig c);
}.

Lemma VInv_sync_loop c h n feed cursor : triple (VInv c h) (sync_loop n feed cursor) (λ _, VInv c h) (VInv c h).
Proof.
  revert cursor. induction n as [|n IH]; intros cursor; [by apply triple_ret|]. intros v HI. cbn [sync_loop].
  destruct (feed cursor) as [[entries next]|]; [|done].
  match goal with |- context [sync_loop n feed next ?x] => set (v' := x) end.
  assert (HI' : VInv c h v').
  { destruct HI as [H1 H2 H3]. split; [done|done|]. cbn. intros e He. rewrite H1.
    destruct (decide (vNow v - cRetention (clientConfig c) < RTS e)) as [Hl|Hl]; [|right; lia].
    left. apply list_elem_of_filter. split; [done|]. apply elem_of_app.
    apply elem_of_app in He as [He|He]; [|by right]. destruct (H3 e He); [by left|lia]. }
  destruct (_ || _); [done|]. by apply IH.
Qed.

Lemma VInv_Verify c h keys tok v : VInv c h v → VInv c h (Verify keys tok v).2.
Proof.
  intros HI. apply (triple_out (VInv c h)); [|done]. unfold Verify.
  eapply (triple_bind _ _ _ (λ _, VInv c h)); [by apply triple_gets|]. intros v0.
  eapply (triple_bind _ _ _ (λ _, VInv c h)).
  { destruct (verify_with v0 tok) as [p|[]]; try by apply triple_ret.
    destruct (_ <=? _); [|by apply triple_ret].
    eapply (triple_bind _ _ _ (λ _, VInv c h)); [by apply triple_modify; intros s [? ? ?]|]. intros [].
    eapply (triple_bind _ _ _ (λ _, VInv c h)).
    { eapply (triple_attempt _ _ (λ _, VInv c h) (VInv c h)); [|done|done]. intros s [? ? ?]. unfold RefreshKeys. by destruct keys. }
    intros rr. eapply (triple_bind _ _ _ (λ _, VInv c h)); [by apply triple_gets|]. intros. by apply triple_ret. }
  intros [p|e]; [|by apply triple_throw]. cbv zeta.
  repeat first [apply triple_ret; done|apply triple_throw; done|case_match]; done.
Qed.

Lemma VInv_step c h v v' : client_step v v' → VInv c h v → VInv c h v'.
Proof.
  intros Hs HI. destruct Hs as [keys v|feed v|keys tok v|d v Hd].
  - unfold RefreshKeys. destruct keys; [|done]. by destruct HI as [? ? ?].
  - apply (triple_out (VInv c h)); [|done]. unfold SyncRevocations.
    eapply (triple_bind _ _ _ (λ _, VInv c h)); [by apply triple_gets|]. intros v0. destruct (negb _); [by apply triple_ret|].
    eapply (triple_bind _ _ _ (λ _, VInv c h)); [apply VInv_sync_loop|]. intros []. by apply triple_modify; intros s [? ? ?].
  - by apply VInv_Verify.
  - destruct HI as [H1 H2 H3]. split; [done|done|]. intros e He. cbn in *. destruct (H3 e He); [by left|right; lia].
Qed.
Lemma VInv_reach c h v : client_reach c h v → VInv c h v.
Proof.
  intros [t Hr]. assert (HI : VInv c h (NewVerifier c h t)) by (split; cbn; [done|done|set_solver]).
  induction Hr as [|x y z Hs _ IH]; [done|]. apply IH. by eapply VInv_step.
Qed.

Lemma clientConfig_skew c : 0 <= cSkew (clientConfig c) <= 60 * Dur.second.
Proof.
  unfold clientConfig. cbn [cSkew]. destruct (cSkew c <=? 0) eqn:E1; cbn [orb]; [done|].
  destruct (60 * Dur.second <? cSkew c) eqn:E2; bool_prop; unfold Dur.second in *; lia.
Qed.

(** The payload a successful [Verify] accepted, and the key set it used. *)
Lemma Verify_ok keys tok v id v' : Verify keys tok v = (Ok id, v') →
  vEntries v' = vEntries v ∧ vNow v' = vNow v ∧ vCfg v' = vCfg v ∧
  ∃ p, verify_with v' tok = Ok p ∧ pIat p = Some (iIssuedAt id) ∧ pExp p = Some (iExpiresAt id) ∧
    iUserID id = pSub p ∧ iTenantID id = pTID p ∧ iSessionID id = pSID p ∧ iRoles id = pRoles p ∧ iJTI id = pID p ∧
    (cAudience (vCfg v) ≠ "" → cAudience (vCfg v) ∈ pAud p) ∧ (cTenantID (vCfg v) ≠ "" → pTID p = cTenantID (vCfg v)) ∧
    (vHasRevs v = true → vSynced v = true ∧ vNow v - vSyncedAt v <= cMaxStale (vCfg v) ∧
       client_revoked (vEntries v) (iIssuedAt id) p = false).
Proof.
  unfold Verify. intros E. apply bind_ok_inv in E as (v0 & w0 & E0 & E). injection E0 as <- <-. rename v into v0.
  apply bind_ok_inv in E as (cr & w & E1 & E).
  assert (Hw : vEntries w = vEntries v0 ∧ vNow w = vNow v0 ∧ vCfg w = vCfg v0 ∧ ∀ p, cr = Ok p → verify_with w tok = Ok p).
  { destruct (verify_with v0 tok) as [p|e] eqn:Ev.
    { unfold ret in E1. simplify_eq. split_and!; try done. congruence. }
    assert (Hret : ∀ x, ret (Err x) v0 = (Ok cr, w) → w = v0 ∧ ∀ p, cr ≠ Ok p).
    { intros x Hx. unfold ret in Hx. by simplify_eq. }
    destruct e; try (apply Hret in E1 as [-> Hn]; split_and!; try done; intros p Hp; by apply Hn in Hp).
    destruct (_ <=? _) eqn:El; [|apply Hret in E1 as [-> Hn]; split_and!; try done; intros p Hp; by apply Hn in Hp].
    bool_prop. unfold bind, modify, attempt, RefreshKeys, gets, ret in E1. destruct keys as [set|e]; simplify_eq; cbn; split_and!; done || lia. }
  clear E1. destruct cr as [p|e]; [|done]. cbv zeta in E.
  destruct (bool_decide (cAudience (vCfg v0) ≠ "") && _) eqn:Ea; [done|].
  destruct (bool_decide (cTenantID (vCfg v0) ≠ "") && _) eqn:Et; [done|].
  destruct (pIat p) as [iat|] eqn:Ei; [|done]. destruct (pExp p) as [ex|] eqn:Ee; [|done].
  assert (HA : cAudience (vCfg v0) ≠ "" → cAudience (vCfg v0) ∈ pAud p).
  { intros Hn. rewrite bool_decide_eq_true_2 in Ea by done. cbn in Ea. by bool_prop. }
  assert (HT : cTenantID (vCfg v0) ≠ "" → pTID p = cTenantID (vCfg v0)).
  { intros Hn. rewrite bool_decide_eq_true_2 in Et by done. cbn in Et. bool_prop.
    destruct (decide (pTID p = cTenantID (vCfg v0))); done. }
  destruct Hw as (W1 & W2 & W3 & W4).
  destruct (vHasRevs v0) eqn:Eh.
  - destruct (negb (vSynced v0)) eqn:Es; [done|]. destruct (_ <? _) eqn:El; [done|]. cbn [orb] in E.
    destruct (client_revoked _ _ _) eqn:Er; [done|]. unfold ret in E. simplify_eq. bool_prop. split_and!; auto.
    exists p. split_and!; auto.
  - unfold ret in E. simplify_eq. split_and!; auto. exists p. split_and!; auto; done.
Qed.

(** ** How often the key source is asked

    A call asks the key source when what it does depends on the answer. *)
Definition asks (v : Verifier) (tok : string) : Prop := ∃ keys keys', Verify keys tok v ≠ Verify keys' tok v.

(** Time, configuration and the instant of the last refresh along a history. *)
Record later v v' : Prop := mkLater {
  la_cfg : vCfg v' = vCfg v;
  la_now : vNow v <= vNow v';
  la_unknown : vLastUnknown v <= vNow v → vLastUnknown v <= vLastUnknown v' <= vNow v';
}.
Lemma later_refl v : later v v.
Proof. split; lia || done. Qed.
Lemma later_trans v1 v2 v3 : later v1 v2 → later v2 v3 → later v1 v3.
Proof. intros [A1 A2 A3] [B1 B2 B3]. split; [congruence|lia|lia]. Qed.

Lemma sync_loop_later n feed : ∀ cursor v, later v (sync_loop n feed cursor v).2.
Proof.
  induction n as [|n IH]; intros cursor v; [apply later_refl|]. cbn [sync_loop]. destruct (feed cursor) as [[entries next]|]; [|apply later_refl].
  match goal with |- context [sync_loop n feed next ?x] => set (v' := x) end. assert (Hv : later v v') by (split; cbn; lia || done).
  destruct (_ || _); [done|]. by eapply later_trans; [exact Hv|apply IH].
Qed.

Lemma Verify_cases keys tok v :
  ((∃ kid, verify_with v tok = Err (ErrUnknownKid kid)) ∧ cUnknownKidCap (vCfg v) <= vNow v - vLastUnknown v ∧
   vCfg (Verify keys tok v).2 = vCfg v ∧ vNow (Verify keys tok v).2 = vNow v ∧ vLastUnknown (Verify keys tok v).2 = vNow v) ∨
  ((Verify keys tok v).2 = v ∧ ∀ keys', Verify keys' tok v = Verify keys tok v).
Proof.
  unfold Verify, bind, gets, id, ret, throw. cbv zeta. cbn iota beta.
  destruct (verify_with v tok) as [p|e] eqn:Ev; [right; split; [repeat case_match; by simplify_eq|done]|].
  destruct e; try (right; done). destruct (_ <=? _) eqn:El; [|right; done].
  left. bool_prop. split_and!; [eauto|lia|..];
    unfold modify, attempt, RefreshKeys; destruct keys; cbn; repeat case_match; by simplify_eq.
Qed.

Lemma Verify_later keys tok v : later v (Verify keys tok v).2.
Proof.
  destruct (Verify_cases keys tok v) as [(_ & _ & E1 & E2 & E3)|[-> _]]; [|apply later_refl].
  split; rewrite ?E1, ?E2, ?E3; [done|lia|lia].
Qed.

Lemma step_later v v' : client_step v v' → later v v'.
Proof.
  destruct 1 as [keys v|feed v|keys tok v|d v Hd]; [destruct keys; split; cbn; lia || done| |apply Verify_later|split; cbn; lia || done].
  unfold SyncRevocations, bind, gets, id, modify. destruct (negb _); [apply later_refl|].
  pose proof (sync_loop_later 100 feed (vCursor v) v) as Hl. destruct (sync_loop _ _ _ v) as [[]w]; cbn in *; [|done].
  eapply later_trans; [exact Hl|]. split; cbn; lia || done.
Qed.

Lemma asks_apart v tok keys v2 tok2 : asks v tok → rtc client_step (Verify keys tok v).2 v2 → asks v2 tok2 →
  cUnknownKidCap (vCfg v) <= vNow v2 - vNow v.
Proof.
  intros (k1 & k2 & Hne) Hr (k3 & k4 & Hne2).
  destruct (Verify_cases keys tok v) as [(_ & _ & E1 & E2 & E3)|[_ Hsame]]; [|by rewrite !(Hsame k1), !(Hsame k2) in Hne].
  assert (Hl : later (Verify keys tok v).2 v2).
  { clear -Hr. induction Hr as [x|x y z Hs _ IH]; [apply later_refl|]. by eapply later_trans; [apply step_later|]. }
  destruct (Verify_cases k3 tok2 v2) as [(_ & Hcap & _)|[_ Hsame]]; [|by rewrite (Hsame k4) in Hne2].
  destruct Hl as [L1 L2 L3]. rewrite E1, E2, E3 in *. rewrite L1 in Hcap. lia.
Qed.

Context {Cr : Crypto} (signed : string → string → Payload → string → Prop) {JL : JWTLaws signed}.

(** No entry the feed ever delivered hits an accepted token, even one already
    forgotten, when entries are kept as long as a token can live. *)
Lemma received_not_hit c h v keys tok id v' :
  client_reach c h v → h = true → Verify keys tok v = (Ok id, v') →
  ∀ e, e ∈ vReceived v → 961 * Dur.second <= cRetention (clientConfig c) ∨ vNow v - cRetention (clientConfig c) < RTS e →
  entry_hits e (iIssuedAt id) (iSessionID id) (iUserID id) (iTenantID id) = false.
Proof.
  intros Hr -> E e He Hret. apply VInv_reach in Hr as [Hc Hh Hkept].
  apply Verify_ok in E as (E1 & E2 & E3 & p & Hv & Hiat & Hexp & Hsub & Htid & Hsid & _ & _ & _ & _ & Hrev).
  rewrite Hc in *. unfold verify_with in Hv. rewrite E2, E3 in Hv. apply (VerifyToken_ok signed) in Hv as (kid & pub & Hk & Hsg & Hok); [|apply clientConfig_skew|done].
  destruct (Hrev Hh) as (_ & _ & R3). rewrite Hsid, Hsub, Htid. destruct (Hkept e He) as [Hin|Hold].
  - unfold client_revoked in R3. rewrite existsb_false_iff in R3. by apply R3.
  - destruct Hret as [Hret|?]; [|lia]. destruct Hok as (_ & _ & _ & _ & _ & iat & ex & Hi & He' & _ & Hl & Hw). simplify_eq.
    pose proof (clientConfig_skew c). unfold entry_hits. assert (unix (RTS e) < unix (iIssuedAt id)) as Hlt.
    { unfold unix. apply Z.div_lt_upper_bound; [done|].
      pose proof (Z.div_mod (iIssuedAt id) Dur.second ltac:(done)). pose proof (Z.mod_pos_bound (iIssuedAt id) Dur.second ltac:(done)).
      unfold MaxTokenLifetime, Dur.minute, Dur.second in *. lia. }
    apply Z.ltb_lt in Hlt. by rewrite Hlt.
Qed.

End Histories.

(** ** Published key sets *)
Section KeySets.

Lemma ParseJWKS_ok len l m :
  ParseJWKS len (Some l) = Ok m ↔
  (len <= 65536)%nat ∧ NoDup (Kid <$> l) ∧ Forall (λ k, is_ok (JWKPublicKey k) = true) l ∧
  m = list_to_map ((λ k, (Kid k, match JWKPublicKey k with Ok p => p | Err _ => "" end)) <$> l).
Proof.
  assert (Hgen : ∀ l out, parse_keys l out = Ok m ↔
    NoDup (Kid <$> l) ∧ (∀ k, k ∈ l → out !! Kid k = None) ∧ Forall (λ k, is_ok (JWKPublicKey k) = true) l ∧
    m = list_to_map ((λ k, (Kid k, match JWKPublicKey k with Ok p => p | Err _ => "" end)) <$> l) ∪ out).
  { clear l len. induction l as [|k l IH]; intros out; cbn [parse_keys].
    - cbn. rewrite map_empty_union. split; [intros [= ->]; split_and!; [constructor|set_solver|constructor|done]|by intros (_ & _ & _ & ->)].
    - destruct (JWKPublicKey k) as [pub|] eqn:Ep.
      + case_bool_decide as Hs.
        { split; [done|]. intros (_ & Hn & _). specialize (Hn k ltac:(set_solver)). rewrite Hn in Hs. by destruct Hs. }
        apply eq_None_not_Some in Hs. rewrite IH. rewrite !fmap_cons, NoDup_cons, Forall_cons, Ep. cbn.
        assert (Hu : list_to_map ((λ k, (Kid k, match JWKPublicKey k with Ok p => p | Err _ => "" end)) <$> l) ∪ <[Kid k := pub]> out =
          <[Kid k := pub]> (list_to_map ((λ k, (Kid k, match JWKPublicKey k with Ok p => p | Err _ => "" end)) <$> l) : gmap string string) ∪ out ∨
          Kid k ∈ Kid <$> l).
        { destruct (decide (Kid k ∈ Kid <$> l)); [by right|]. left. rewrite <- insert_union_l, insert_union_r; [done|].
          apply not_elem_of_list_to_map_1. rewrite <- list_fmap_compose. done. }
        split.
        * intros (Hnd & Hout & Hf & ->).
          assert (Hni : Kid k ∉ Kid <$> l).
          { intros (y & Hy & Hin)%list_elem_of_fmap. specialize (Hout y Hin). rewrite <- Hy, lookup_insert_eq in Hout. done. }
          destruct Hu as [->|?]; [|done]. split_and!; [done|done| |done|done|done].
          intros y [->|Hy]%elem_of_cons; [done|]. specialize (Hout y Hy). by apply lookup_insert_None in Hout as [? _].
        * intros ((Hni & Hnd) & Hout & (_ & Hf) & ->). destruct Hu as [->|?]; [|done]. split_and!; [done| |done|done].
          intros y Hy. apply lookup_insert_None. split; [apply Hout; set_solver|]. intros Heq. apply Hni. rewrite Heq.
          by apply list_elem_of_fmap_2.
      + split; [done|]. intros (_ & _ & Hf & _). rewrite Forall_cons, Ep in Hf. by destruct Hf. }
  unfold ParseJWKS. destruct (65536 <? len)%nat eqn:El.
  - apply Nat.ltb_lt in El. split; [done|]. intros [? _]. lia.
  - apply Nat.ltb_ge in El. rewrite Hgen, map_union_empty. split; [naive_solver|]. intros (_ & H1 & H2 & H3). split_and!; auto.
Qed.

(** What a key set must be to be trusted, and the keys it then gives. *)
Definition trusted_set (len : nat) (l : list JWK) (m : gmap string string) : Prop :=
  (len <= 65536)%nat ∧ NoDup (Kid <$> l) ∧ Forall (λ k, is_ok (JWKPublicKey k) = true) l ∧
  m = list_to_map ((λ k, (Kid k, match JWKPublicKey k with Ok p => p | Err _ => "" end)) <$> l).
(** A key set is trusted as a whole or not at all: it parses exactly when it
    fits the size limit, every key is an Ed25519 signing key and no kid occurs
    twice, and then it maps each kid to its key. *)
Theorem parse_jwks_spec len l m :
  ParseJWKS len (Some l) = Ok m ↔ trusted_set len l m.
Proof. apply ParseJWKS_ok. Qed.

Lemma unb64_b64 s : unb64 (b64 s) = Some s.
Proof. apply b64_decode_encode, url_alphabet_ok. Qed.

Definition covers {K} (ord : list string) (r : Ring K) : Prop :=
  NoDup ord ∧ ∀ i, i ∈ ord ↔ is_Some (rgKeys r !! i).
Definition published {K} (r : Ring K) : Prop :=
  ∀ i k, rgKeys r !! i = Some k → KID (rkKey k) = i ∧ i ≠ "" ∧ String.length (KPublic (rkKey k)) = 32%nat.

Lemma JWKPublicKey_new kid pub state : kid ≠ "" → String.length pub = 32%nat →
  JWKPublicKey (NewJWK kid pub state) = Ok pub.
Proof.
  intros Hk Hl. unfold JWKPublicKey, NewJWK. cbn [Kty Crv Alg Kid X].
  rewrite (bool_decide_eq_false_2 (kid = "")) by done. rewrite unb64_b64, Hl. reflexivity.
Qed.

(** What the ring publishes is what a client learns: parsing the published set
    succeeds and maps every kid to the ring's key. *)
Lemma ring_jwks {K} (r : Ring K) ord len :
  published r → covers ord r → (len <= 65536)%nat →
  ∃ m, ParseJWKS len (Some (RingJWKS ord r)) = Ok m ∧ ∀ kid, m !! kid = PublicKey r kid.
Proof.
  intros Hp [Hnd Hcov] Hlen.
  assert (Hjw : RingJWKS ord r = (λ i, match rgKeys r !! i with
      | Some k => NewJWK i (KPublic (rkKey k)) (KState (rkKey k)) | None => NewJWK i "" "" end) <$> ord).
  { unfold RingJWKS. clear Hnd. assert (Hs : ∀ i, i ∈ ord → is_Some (rgKeys r !! i)) by (intros; by apply Hcov). clear Hcov.
    induction ord as [|i ord IH]; [done|]. cbn. destruct (Hs i ltac:(set_solver)) as [k Hk]. rewrite Hk. cbn.
    destruct (Hp i k Hk) as (-> & _). f_equal. apply IH. set_solver. }
  eexists. split.
  - apply ParseJWKS_ok. split_and!; [done| | |done].
    + rewrite Hjw, <- list_fmap_compose. rewrite (list_fmap_ext _ id); [by rewrite list_fmap_id|].
      intros _ i _. cbn. by destruct (rgKeys r !! i).
    + rewrite Hjw, Forall_fmap, Forall_forall. intros i Hi. apply Hcov in Hi as [k Hk]. cbn. rewrite Hk.
      destruct (Hp i k Hk) as (_ & Hne & Hl). by rewrite JWKPublicKey_new.
  - intros kid. rewrite Hjw, <- list_fmap_compose. unfold PublicKey. destruct (rgKeys r !! kid) as [k|] eqn:Ek.
    + cbn. destruct (Hp kid k Ek) as (_ & Hne & Hl). apply elem_of_list_to_map_1.
      * rewrite <- list_fmap_compose. rewrite (list_fmap_ext _ id); [by rewrite list_fmap_id|].
        intros _ i _. cbn. by destruct (rgKeys r !! i).
      * apply list_elem_of_fmap. exists kid. split; [|by apply Hcov]. cbn. rewrite Ek. cbn.
        by rewrite JWKPublicKey_new.
    + cbn. apply not_elem_of_list_to_map_1. rewrite <- list_fmap_compose. intros (i & Hi & Hin)%list_elem_of_fmap.
      apply Hcov in Hin as [k Hk]. cbn in Hi. rewrite Hk in Hi. cbn in Hi. congruence.
Qed.

Context {K : Type} {Cr : Crypto} {CrL : CryptoLaws} {KS : KeyStore K} {KSL : KeyStoreLaws K}.
Context {J : JWT} (signed : string → string → Payload → string → Prop) {JL : JWTLaws signed}.

(** A revocation entry that is about the session, user or tenant of a request. *)
Definition concerns (e : RevEntry) (req : Request) : Prop :=
  (RKind e = "session" ∧ RSubject e = RqSessionID req) ∨
  (RKind e = "user" ∧ RSubject e = RqUserID req ∧ (RTenant e = "" ∨ RTenant e = RqTenantID req)) ∨
  (RKind e = "tenant" ∧ RSubject e = RqTenantID req).

Lemma not_concerned e req iat : (concerns e req → unix (RTS e) < unix iat) →
  entry_hits e iat (RqSessionID req) (RqUserID req) (RqTenantID req) = false.
Proof.
  intros Hc. unfold entry_hits. destruct (unix (RTS e) <? unix iat) eqn:El; [done|]. apply Z.ltb_ge in El.
  apply not_true_iff_false. intros Hh. cbn [negb andb] in Hh. enough (concerns e req) as Hy by (specialize (Hc Hy); lia).
  unfold concerns. repeat case_bool_decide; cbn in Hh; try done; bool_prop; naive_solver.
Qed.

(** C12. End to end: a client that read the published key set of the ring, at any
    later moment and however often the ring rotated in between, accepts a token
    the service issued, inside its lifetime, and learns exactly the user,
    tenant, session and roles it was issued for.  The client is configured
    for the issuer, for no audience or the token's, and for no tenant or the
    token's; when it reads a revocation feed, that was read recently enough
    and no entry it holds ends the session, the user or the tenant in or
    after the second of the issue.  The access lifetime of the ring is a
    whole number of seconds, and token and key set respect the size limits. *)
Theorem sdk_accepts_issued ks c (r r' : Ring K) iss jti ord ord' req s p len m v keys :
  store_ok ks → reachable ks c r → (Dur.second | AccessLifetime (ringConfig c))%Z →
  Issue iss jti ord r req = Ok (s, p) → jti ≠ "" → (String.length s <= maxTokenBytes)%nat →
  rtc ring_step r r' → (∀ e, pExp p = Some e → rgNow r' < e + ClockSkew (ringConfig c)) →
  published r' → covers ord' r' → ParseJWKS len (Some (RingJWKS ord' r')) = Ok m →
  (∃ c', vCfg v = clientConfig c' ∧ cIssuer c' = iss ∧ (cAudience c' = "" ∨ cAudience c' = RqAudience req) ∧
     (cTenantID c' = "" ∨ cTenantID c' = RqTenantID req)) →
  (vHasRevs v = true → vSynced v = true ∧ vNow v - vSyncedAt v <= cMaxStale (vCfg v) ∧
     ∀ e, e ∈ vEntries v → concerns e req → unix (RTS e) < unix (rgNow r)) →
  vKeySet v = m →
  rgNow r <= vNow v → (∀ e, pExp p = Some e → vNow v < e + cSkew (vCfg v)) →
  ∃ id, Verify keys s v = (Ok id, v) ∧
    iUserID id = RqUserID req ∧ iTenantID id = RqTenantID req ∧ iSessionID id = RqSessionID req ∧ iRoles id = RqRoles req.
Proof.
  intros Hks Hre Hsec E Hjti Hlen Hst Hexp Hpub Hcov Hm (c' & Hc & Hiss' & Haud & Hten) Hrv Hset Hnow Hlive.
  apply (RInv_reachable _ _ _ Hks) in Hre as HI.
  destruct (Issue_ok signed _ _ _ _ _ _ _ _ E HI) as (k & life & Hk & Ha & Hne & Hsg & Hlife & Hiss & Hsub & Htid & Hsid & Hid & _ & Hiat & Hnbf & Hex).
  destruct (ringConfig_ok c) as [HA HS]. specialize (Hexp _ Hex). specialize (Hlive _ Hex).
  pose proof (numericDate_le (rgNow r + life)). pose proof (numericDate_le (rgNow r)).
  assert (Hkey : PublicKey r' (KID (rkKey k)) = Some (KPublic (rkKey k))).
  { eapply key_kept; [exact HI|done|done|done|]. unfold keepRetired. lia. }
  destruct (ring_jwks r' ord' len Hpub Hcov) as (m' & Hm' & Hml).
  { by apply ParseJWKS_ok in Hm as (? & _). }
  assert (m' = m) as -> by congruence.
  assert (Hmono : (numericDate (rgNow r + life) <= numericDate (rgNow r) + MaxTokenLifetime)%Z).
  { assert (Hle : (numericDate (rgNow r + life) <= numericDate (rgNow r + AccessLifetime (ringConfig c)))%Z) by (apply numericDate_mono; lia).
    rewrite (numericDate_add _ _ Hsec) in Hle. unfold MaxTokenLifetime. lia. }
  assert (Hv : verify_with v s = Ok p).
  { unfold verify_with. rewrite Hset. pose proof (clientConfig_skew c') as Hsk. rewrite Hc in Hlive |- *.
    eapply (VerifyToken_complete signed); [done|done|done|rewrite Hml; exact Hkey|done|exact Hsg|unfold clientConfig; cbn [cIssuer]; congruence| |].
    - rewrite Hnbf. intros n [= <-]. lia.
    - split_and!; [intros _; unfold clientConfig; cbn [cIssuer]; congruence|done|done|done|congruence|].
      exists (numericDate (rgNow r)), (numericDate (rgNow r + life)). rewrite Hnbf. split_and!; [done|done|eauto|lia|lia|lia]. }
  assert (Hreq : pSub p = RqUserID req ∧ pTID p = RqTenantID req ∧ pSID p = RqSessionID req ∧ pRoles p = RqRoles req ∧
    pAud p = if bool_decide (RqAudience req = "") then [] else [RqAudience req]).
  { revert E. unfold Issue. destruct (active ord r) as [k'|]; [|done]. destruct (_ || _ || _); [done|].
    destruct (rkPriv k') as [priv|]; [|done]. destruct (SignedString _ _ _); [|done]. cbn [rbind]. by intros [= _ <-]. }
  destruct Hreq as (R1 & R2 & R3 & R4 & R5).
  unfold Verify, bind at 1, gets, id. rewrite Hv. unfold bind, ret. cbn iota beta.
  rewrite Hc, Hiat, Hex. unfold clientConfig. cbn [cAudience cTenantID cMaxStale].
  assert (Ha1 : bool_decide (cAudience c' ≠ "") && negb (bool_decide (cAudience c' ∈ pAud p)) = false).
  { destruct (decide (cAudience c' = "")) as [->|Hn]; [done|]. destruct Haud as [?|Haud]; [done|].
    rewrite R5, (bool_decide_eq_false_2 (RqAudience req = "")), Haud by congruence. by rewrite (bool_decide_eq_true_2 (_ ∈ _)) by set_solver; rewrite andb_false_r. }
  assert (Ht1 : bool_decide (cTenantID c' ≠ "") && bool_decide (pTID p ≠ cTenantID c') = false).
  { destruct (decide (cTenantID c' = "")) as [->|Hn]; [done|]. destruct Hten as [?|Hten]; [done|].
    rewrite R2, Hten. apply andb_false_iff. right. apply bool_decide_eq_false. naive_solver. }
  rewrite Ha1, Ht1.
  exists (mkIdentity (pSub p) (pTID p) (pSID p) (pRoles p) (pAMR p) (hd "" (pAud p)) (numericDate (rgNow r)) (numericDate (rgNow r + life)) (pID p)).
  split; [|done]. destruct (vHasRevs v) eqn:Eh; [|done].
  destruct (Hrv eq_refl) as (-> & Hst' & Hno). rewrite Hc in Hst'. unfold clientConfig in Hst'. cbn [cMaxStale] in Hst'.
  rewrite (proj2 (Z.ltb_ge _ _) Hst'). cbn [negb orb].
  replace (client_revoked (vEntries v) (numericDate (rgNow r)) p) with false; [done|]. symmetry.
  unfold client_revoked. apply existsb_false_iff. intros e He. rewrite R1, R2, R3. apply not_concerned.
  intros Hcn. specialize (Hno e He Hcn). unfold unix, numericDate in *. by rewrite Z.div_mul.
Qed.
End KeySets.

(** ** A concrete client: witnesses of the theorems of ClientSafety *)
From S2P Require Import Prelude GoStrings Base64 Envelope Token RingSafety TokenSafety TokenRuns AuthClient.
#[local] Open Scope list_scope.
#[local] Open Scope Z_scope.
#[local] Open Scope go_scope.

(** The token of TokenRuns is read by a client that fetched the key set after
    the rotation. *)
Definition kid2 : string := key_id (toy_key 1%nat).
Definition keyset : gmap string string := list_to_map [(kid1, toy_key 0%nat); (kid2, toy_key 1%nat)].
Definition ccfg : ClientConfig := mkClientConfig "https://auth" "" "" 0 0 0 0 0 0.
Definition TC : Z := T0 + 300 * Dur.second.
Definition client0 : Verifier := NewVerifier ccfg false TC.
Definition jwt1 : JWT := oneJWT kid1 (toy_key 0%nat) pay1.

(** A client that has no keys yet asks the key source, and within the interval
    does not ask again when the source gave it nothing. *)
Example client0_asks : @asks jwt1 client0 "tok" ∧
  let v := (@Verify jwt1 (Err ErrUnauthenticated) "tok" client0).2 in
  ∀ keys keys', @Verify jwt1 keys "tok" v = @Verify jwt1 keys' "tok" v.
Proof.
  split; [|intros v keys keys'; by vm_compute].
  exists (Ok keyset), (Err ErrUnauthenticated). intros E. apply (f_equal (is_ok ∘ fst)) in E. by vm_compute in E.
Qed.

(** A client with a revocation feed that delivered one entry of another user. *)
Definition entry0 : RevEntry := mkRevEntry TC "user" "u2" "t1" "admin".
Definition feed0 : Feed := λ cursor, Ok (if bool_decide (cursor = "") then [entry0] else [], "c1").
Definition client2 : Verifier := (SyncRevocations feed0 (RefreshKeys (Ok keyset) (NewVerifier ccfg true TC)).2).2.
Definition ident1 : Identity :=
  mkIdentity "u1" "t1" "s1" ["viewer"] ["pwd"] "" (1700000000 * Dur.second) (1700000900 * Dur.second) "j1".

Lemma client2_reached : @client_reach jwt1 ccfg true client2.
Proof.
  exists TC. eapply rtc_l; [apply (cs_refresh (Ok keyset))|]. apply rtc_once. apply (cs_sync feed0).
Qed.


Lemma ring3_published : published ring3.
Proof.
  assert (H : bool_decide (map_Forall (λ i k, KID (rkKey k) = i ∧ i ≠ "" ∧ String.length (KPublic (rkKey k)) = 32%nat) (rgKeys ring3)) = true)
    by (vm_compute; reflexivity).
  by apply bool_decide_eq_true in H.
Qed.
Lemma ring3_covers : covers [kid1; kid2] ring3.
Proof.
  assert (H : bool_decide (NoDup [kid1; kid2] ∧ dom (rgKeys ring3) = list_to_set [kid1; kid2]) = true) by (vm_compute; reflexivity).
  apply bool_decide_eq_true in H as [Hnd Hd]. split; [done|]. intros i.
  rewrite <- elem_of_dom, Hd. by rewrite elem_of_list_to_set.
Qed.

(** The accepting client reads the feed (one entry, of another user) and is
    bound to the token's tenant. *)
Definition ccfg3 : ClientConfig := mkClientConfig "https://auth" "" "t1" 0 0 0 0 0 0.
Definition client3 : Verifier := (SyncRevocations feed0 (RefreshKeys (Ok keyset) (NewVerifier ccfg3 true TC)).2).2.
Lemma client3_unconcerned e : e ∈ vEntries client3 → concerns e req1 → unix (RTS e) < unix (rgNow ring1).
Proof.
  assert (E : vEntries client3 = [entry0]) by (vm_compute; reflexivity). rewrite E. intros ->%list_elem_of_singleton.
  intros [[? _]|[(_ & Hs & _)|[? _]]]; [done| |done]. by vm_compute in Hs.
Qed.

Lemma sdk_accepts_issued_witness :
  published ring3 ∧ covers [kid1; kid2] ring3 ∧
  ∃ id, @Verify jwt1 (Err ErrUnauthenticated) "tok" client3 = (Ok id, client3) ∧
    iUserID id = "u1" ∧ iTenantID id = "t1" ∧ iSessionID id = "s1" ∧ iRoles id = ["viewer"].
Proof.
  split; [exact ring3_published|]. split; [exact ring3_covers|].
  refine (@sdk_accepts_issued _ _ _ _ _ jwt1 _ (oneJWT_laws kid1 (toy_key 0%nat) pay1)
    ∅ cfg0 ring1 ring3 "https://auth" "j1" [kid1] [kid1; kid2] req1 "tok" pay1 300%nat keyset client3 (Err ErrUnauthenticated)
    store_empty_ok ring1_reached _ _ _ _ ring13 _ ring3_published ring3_covers _ _ _ _ _ _).
  - exists 900%Z. reflexivity.
  - vm_compute. reflexivity.
  - discriminate.
  - vm_compute. lia.
  - intros e [= <-]. vm_compute. reflexivity.
  - vm_compute. reflexivity.
  - exists ccfg3. vm_compute. split_and!; auto.
  - intros _. split; [vm_compute; reflexivity|]. split; [vm_compute; discriminate|exact client3_unconcerned].
  - vm_compute. reflexivity.
  - vm_compute. discriminate.
  - intros e [= <-]. vm_compute. reflexivity.
Defined.
