(* ===== verification/AuditEvents.v ===== *)
(** * Application audit events (internal/audit/audit.go)

    The event vocabulary, validation and the conversion of an event to a row
    with forbidden detail keys redacted.  Services hand events to
    [audit.Writer.Emit] and drop its error, so in their models an event is
    recorded by appending it to a log; the writer itself is AuditWriter.v. *)
From S2P Require Import Prelude GoStrings TenantCtx.
#[local] Open Scope list_scope.
#[local] Open Scope go_scope.

(** The values callers put in [Details map[string]any]; a time is its RFC 3339
    text, kept as the instant.  A map is a list of entries with distinct keys,
    in no significant order. *)
Inductive detail : Type :=
  | DStr (s : string) | DInt (n : Z) | DBool (b : bool) | DList (l : list string) | DTime (t : Z).
Coercion DStr : string >-> detail.
#[global] Instance detail_eq_dec : EqDecision detail.
Proof. solve_decision. Defined.
Definition Details : Type := list (string * detail).

Record Event : Type := mkEventFull {
  EType : string;
  ETenantID : string;
  EActorUserID : string;
  EActorKind : string;
  EActorService : string;
  ESubjectKind : string;
  ESubjectID : string;
  EOutcome : string;
  EReason : string;
  EOriginIPHash : string;
  EUserAgent : string;
  ECorrelationID : string;
  ETraceID : string;
  EDetails : Details;
}.
#[global] Instance Event_eq_dec : EqDecision Event.
Proof. solve_decision. Defined.

(** The literal most services write: the fields left out are empty. *)
Definition mkEvent (typ tid actorKind actorUser subjectKind subjectID outcome reason : string)
    (details : Details) : Event :=
  mkEventFull typ tid actorUser actorKind "" subjectKind subjectID outcome reason "" "" "" "" details.

Definition SigninOK := "signin_ok".
Definition SigninFailed := "signin_failed".
Definition Lockout := "lockout".
Definition Signout := "signout".
Definition MFAEnrolled := "mfa_enrolled".
Definition MFARemoved := "mfa_removed".
Definition RecoveryCodesRegen := "recovery_codes_regenerated".
Definition PasswordChanged := "password_changed".
Definition RecoveryRequested := "recovery_requested".
Definition RecoveryCompleted := "recovery_completed".
Definition InviteCreated := "invite_created".
Definition InviteAccepted := "invite_accepted".
Definition InviteRevoked := "invite_revoked".
Definition RoleCreated := "role_created".
Definition RoleUpdated := "role_updated".
Definition RoleDeleted := "role_deleted".
Definition RoleAssigned := "role_assigned".
Definition RoleRevoked := "role_revoked".
Definition PermissionRegistered := "permission_registered".
Definition UserDeactivated := "user_deactivated".
Definition UserReactivated := "user_reactivated".
Definition SessionRevoked := "session_revoked".
Definition SessionRenewed := "session_renewed".
Definition TenantCreated := "tenant_created".
Definition TenantSuspended := "tenant_suspended".
Definition TenantReactivated := "tenant_reactivated".
Definition OperatorGrantCreated := "operator_grant_created".
Definition OperatorGrantUsed := "operator_grant_used".
Definition ClientRegistered := "client_registered".
Definition PolicyUpdated := "policy_updated".
Definition CrossTenantRefused := "cross_tenant_refused".
Definition AuthzDenied := "authz_denied".
Definition TokenExchanged := "token_exchanged".
Definition GroupCreated := "group_created".
Definition GroupUpdated := "group_updated".
Definition GroupDeleted := "group_deleted".
Definition GroupMemberAdded := "group_member_added".
Definition GroupMemberRemoved := "group_member_removed".
Definition GroupRoleGranted := "group_role_granted".
Definition GroupRoleRevoked := "group_role_revoked".
Definition ProfileUpdated := "profile_updated".
Definition AvatarUpdated := "avatar_updated".
Definition AvatarRemoved := "avatar_removed".
Definition DirectoryConnectionCreated := "directory_connection_created".
Definition DirectoryConnectionUpdated := "directory_connection_updated".
Definition DirectoryConnectionDeleted := "directory_connection_deleted".
Definition DirectoryConnectionTested := "directory_connection_tested".
Definition DirectorySearched := "directory_searched".
Definition DirectoryImported := "directory_imported".
Definition ImportedUserDeleted := "imported_user_deleted".
Definition EmailGivenUp := "email_given_up".
Definition MFAReset := "mfa_reset".
Definition MFACloneSuspected := "mfa_clone_suspected".
Definition ModuleRegistered := "module_registered".
Definition ModuleRoleUpserted := "module_role_upserted".
Definition ModuleRoleRetired := "module_role_retired".
Definition RoleCloned := "role_cloned".
Definition PermissionMigrated := "permission_migrated".
Definition PermissionPruned := "permission_pruned".
Definition ContactsLookedUp := "contacts_looked_up".

Definition knownTypes : list string :=
  [SigninOK; SigninFailed; Lockout; Signout; MFAEnrolled; MFARemoved; RecoveryCodesRegen;
   PasswordChanged; RecoveryRequested; RecoveryCompleted; InviteCreated; InviteAccepted;
   InviteRevoked; RoleCreated; RoleUpdated; RoleDeleted; RoleAssigned; RoleRevoked;
   PermissionRegistered; UserDeactivated; UserReactivated; SessionRevoked; SessionRenewed;
   TenantCreated; TenantSuspended; TenantReactivated; OperatorGrantCreated; OperatorGrantUsed;
   ClientRegistered; PolicyUpdated; CrossTenantRefused; AuthzDenied; TokenExchanged; GroupCreated;
   GroupUpdated; GroupDeleted; GroupMemberAdded; GroupMemberRemoved; GroupRoleGranted;
   GroupRoleRevoked; ProfileUpdated; AvatarUpdated; AvatarRemoved; DirectoryConnectionCreated;
   DirectoryConnectionUpdated; DirectoryConnectionDeleted; DirectoryConnectionTested;
   DirectorySearched; DirectoryImported; ImportedUserDeleted; EmailGivenUp; MFAReset;
   MFACloneSuspected; ModuleRegistered; ModuleRoleUpserted; ModuleRoleRetired; RoleCloned;
   PermissionMigrated; PermissionPruned; ContactsLookedUp].

(** [string(a.Kind)] *)
Definition kind_string (k : Kind) : string :=
  match k with
  | KindNone => "" | KindUser => "user" | KindOperator => "operator"
  | KindService => "service" | KindSystem => "system"
  end.

Definition forbidden : list string :=
  ["password"; "secret"; "token"; "key"; "code"; "cookie"; "authorization"; "phone"; "first_name"; "last_name"; "display_name"; "email_address"].

Definition ValidateEvent (e : Event) : result unit :=
  if negb (bool_decide (EType e ∈ knownTypes)) then Err (ErrText "audit: unknown event type")
  else if bool_decide (ETenantID e = "") then Err (ErrText "audit: tenant_id is required")
  else if negb (bool_decide (EOutcome e ∈ ["ok"; "refused"; "failed"])) then Err (ErrText "audit: outcome")
  else if negb (bool_decide (EActorKind e ∈ ["user"; "operator"; "service"; "system"]))
  then Err (ErrText "audit: actor_kind")
  else Ok tt.

Record AuditRow : Type := mkAuditRow {
  ArTS : Z; ArTenantID : string; ArEventType : string; ArActorUserID : option string;
  ArActorKind : string; ArActorService : string; ArSubjectKind : string; ArSubjectID : option string;
  ArOutcome : string; ArReason : string; ArOriginIPHash : string; ArUserAgent : string;
  ArCorrelationID : string; ArTraceID : string; ArDetails : Details;
}.
#[global] Instance AuditRow_eq_dec : EqDecision AuditRow.
Proof. solve_decision. Defined.

Definition opt_str (s : string) : option string := if bool_decide (s = "") then None else Some s.

Section Row.
(** unicode case mapping of strings that are not ASCII *)
Context (unicode_lower : string → string).

Definition redacted (k : string) : bool := existsb (λ f, contains f (ToLower unicode_lower k)) forbidden.
Definition Row (e : Event) (now : Z) : result AuditRow :=
  match ValidateEvent e with
  | Err x => Err x
  | Ok _ =>
      Ok (mkAuditRow now (ETenantID e) (EType e) (opt_str (EActorUserID e)) (EActorKind e) (EActorService e)
            (ESubjectKind e) (opt_str (ESubjectID e)) (EOutcome e) (EReason e) (EOriginIPHash e) (EUserAgent e)
            (ECorrelationID e) (ETraceID e)
            ((λ '(k, v), (k, if redacted k then DStr "[REDACTED]" else v)) <$> EDetails e))
  end.
End Row.

(** ** Redaction *)
Section Redaction.
Context (unicode_lower : string → string).

(** A row keeps every entry of the event's details; an entry whose key
    contains a forbidden word carries no value, the others are unchanged. *)
Theorem row_redacts e now row :
  Row unicode_lower e now = Ok row →
  fst <$> ArDetails row = fst <$> EDetails e ∧
  ∀ k v, (k, v) ∈ ArDetails row →
    (∀ f, f ∈ forbidden → contains f (ToLower unicode_lower k) = true → v = DStr "[REDACTED]") ∧
    ((∀ f, f ∈ forbidden → contains f (ToLower unicode_lower k) = false) → (k, v) ∈ EDetails e).
Proof.
  unfold Row. destruct (ValidateEvent e) as [[]|]; [|done]. intros [= <-]. cbn [ArDetails]. split.
  - rewrite <- list_fmap_compose. apply list_fmap_ext. by intros i [k v] _.
  - intros k v Hin. apply list_elem_of_fmap in Hin as ([k' v'] & [= -> ->] & Hin). split.
    + intros f Hf Hc. assert (redacted unicode_lower k' = true) as ->; [|done].
      unfold redacted. apply existsb_true_iff. eauto.
    + intros Hn. assert (redacted unicode_lower k' = false) as ->; [|done].
      unfold redacted. apply existsb_false_iff. intros f Hf. by apply Hn.
Qed.
End Redaction.

Definition asIs (s : string) : string := s.
Definition someEvent : Event :=
  mkEvent SigninOK "t1" "user" "u1" "session" "s1" "ok" ""
    [("role", DStr "viewer"); ("Password_Hint", DStr "hunter2")].
Definition someRow : AuditRow :=
  mkAuditRow 5 "t1" SigninOK (Some "u1") "user" "" "session" (Some "s1") "ok" "" "" "" "" ""
    [("role", DStr "viewer"); ("Password_Hint", DStr "[REDACTED]")].

Lemma row_redacts_witness :
  fst <$> ArDetails someRow = ["role"; "Password_Hint"] ∧
  ∀ k v, (k, v) ∈ ArDetails someRow →
    (∀ f, f ∈ forbidden → contains f (ToLower asIs k) = true → v = DStr "[REDACTED]") ∧
    ((∀ f, f ∈ forbidden → contains f (ToLower asIs k) = false) → (k, v) ∈ EDetails someEvent).
Proof. apply (row_redacts asIs someEvent 5 someRow). vm_compute. reflexivity. Defined.
