(* ===== verification/OAuth.v ===== *)
(** * Authorization codes and PKCE (internal/oauth/oauth.go, internal/oauth/pkce.go)

    A code is drawn at random, stored under its hash for a minute with what it
    was issued for, and exchanged once for an access token of the key ring.
    Registered applications are read through [Client] (the interface
    ClientSource); url.Parse is [url_parse] (scheme, host, fragment). *)
From S2P Require Import Prelude GoStrings Base64 Utf8 Regex PermRef TenantCtx Models Password Cache Envelope Token AuditEvents.
#[local] Open Scope list_scope.
#[local] Open Scope go_scope.

Definition CodeTTL : Z := 60 * Dur.second.
Definition ErrInvalidRequest : err := ErrText "invalid_request".
Definition ErrInvalidGrant : err := ErrText "invalid_grant".
Definition ErrInvalidClient : err := ErrText "invalid_client".
Definition ErrPKCE : err := ErrText "oauth: pkce verification failed".

(** ** PKCE *)
Definition verifier_char (c : ascii) : bool :=
  in_range "A" "Z" c || in_range "a" "z" c || in_range "0" "9" c ||
  is_char "-" c || is_char "." c || is_char "_" c || is_char "~" c.
Definition validVerifier (v : string) : bool :=
  negb ((String.length v <? 43)%nat || (128 <? String.length v)%nat) && str_all verifier_char v.

Section OAuth.
Context {K KS : Type} {KVK : KV K} {Cr : Crypto} {KSI : KeyStore KS} {J : JWT} {A2 : Argon2}.

Definition Challenge (verifier : string) : string := b64_encode url_alphabet (sha256 verifier).
Definition VerifyPKCE (verifier challenge : string) : result unit :=
  if negb (validVerifier verifier) || bool_decide (challenge = "") then Err ErrPKCE
  else if bool_decide (Challenge verifier = challenge) then Ok tt else Err ErrPKCE.

(** ** Requests *)
Record AuthorizeRequest : Type := mkAuthorize {
  ArResponseType : string; ArClientID : string; ArRedirectURI : string; ArState : string;
  ArCodeChallenge : string; ArCodeChallengeMethod : string }.
Record TokenRequest : Type := mkTokenRequest {
  TrGrantType : string; TrCode : string; TrRedirectURI : string; TrClientID : string;
  TrCodeVerifier : string; TrClientSecret : string }.
Record TokenResponse : Type := mkTokenResponse { TsAccessToken : string; TsTokenType : string; TsExpiresIn : Z }.

Context (url_parse : string → option (string * string * string)).

Definition ParseAuthorize (q : gmap string (list string)) : result AuthorizeRequest :=
  let get k := hd "" (default [] (q !! k)) in
  let r := mkAuthorize (get "response_type") (get "client_id") (get "redirect_uri") (get "state")
             (get "code_challenge") (get "code_challenge_method") in
  if bool_decide (ArResponseType r ≠ "code") || bool_decide (ArClientID r = "") || bool_decide (ArRedirectURI r = "") ||
     bool_decide (ArState r = "") || bool_decide (ArCodeChallengeMethod r ≠ "S256") ||
     negb (String.length (ArCodeChallenge r) =? 43)%nat || (512 <? String.length (ArState r))%nat ||
     (128 <? String.length (ArClientID r))%nat
  then Err ErrInvalidRequest
  else match url_parse (ArRedirectURI r) with
       | Some (scheme, host, fragment) =>
           if bool_decide (scheme = "") || bool_decide (host = "") || bool_decide (fragment ≠ "")
           then Err ErrInvalidRequest else Ok r
       | None => Err ErrInvalidRequest
       end.

(** ** What a code stands for *)
Record pending : Type := mkPending {
  PnClientID : string; PnRedirectURI : string; PnChallenge : string;
  PnTenantID : string; PnUserID : string; PnSessionID : string; PnRoles : list string; PnAMR : list string }.
Definition pending_json (p : pending) : json := JObj [
  ("ClientID", JStr (PnClientID p)); ("RedirectURI", JStr (PnRedirectURI p)); ("Challenge", JStr (PnChallenge p));
  ("TenantID", JStr (PnTenantID p)); ("UserID", JStr (PnUserID p)); ("SessionID", JStr (PnSessionID p));
  ("Roles", JList (PnRoles p)); ("AMR", JList (PnAMR p))].
Definition pending_of_json (j : json) : option pending :=
  match j with
  | JObj l =>
      cid ← f_str "ClientID" l; ru ← f_str "RedirectURI" l; ch ← f_str "Challenge" l;
      tid ← f_str "TenantID" l; uid ← f_str "UserID" l; sid ← f_str "SessionID" l;
      roles ← f_list "Roles" l; amr ← f_list "AMR" l;
      Some (mkPending cid ru ch tid uid sid roles amr)
  | _ => None
  end.
Lemma pending_of_pending_json p : pending_of_json (pending_json p) = Some p.
Proof using Type. by destruct p. Qed.

(** ** The service; its clock is the ring's *)
Record OAW : Type := mkOA {
  oaCache : K; oaRing : Ring KS; oaAudit : list Event;
  oaEntropy : list string;    (* tokens crypto.RandomToken will draw *)
  oaIds : nat }.
Definition oaNow (w : OAW) : Z := rgNow (oaRing w).

(** crypto.HashToken, store.NewID, the issuer name. *)
Context (HashToken : string → string) (newID : nat → string) (iss : string).
Context (Client : string → result ClientApplication).

Definition oaKV {B} (m : Z → M K B) : M OAW B := λ w,
  let '(r, k) := m (oaNow w) (oaCache w) in (r, mkOA k (oaRing w) (oaAudit w) (oaEntropy w) (oaIds w)).
Definition oaEmit (e : Event) : M OAW unit :=
  modify (λ w, mkOA (oaCache w) (oaRing w) (oaAudit w ++ [e]) (oaEntropy w) (oaIds w)).
Definition oaRandomToken : M OAW string := λ w,
  match oaEntropy w with
  | [] => (Err ErrEntropy, w)
  | x :: l => (Ok x, mkOA (oaCache w) (oaRing w) (oaAudit w) l (oaIds w))
  end.
(** Issuer.Issue with the next identifier; [ord] is the range order of the
    key map. *)
Definition oaIssue (ord : list string) (req : Request) : M OAW (string * Payload) := λ w,
  (Issue iss (newID (oaIds w)) ord (oaRing w) req,
   mkOA (oaCache w) (oaRing w) (oaAudit w) (oaEntropy w) (S (oaIds w))).

Definition ValidateClient (r : AuthorizeRequest) : result ClientApplication :=
  match Client (ArClientID r) with
  | Err _ => Err ErrInvalidRequest
  | Ok c => if bool_decide (ArRedirectURI r ∈ CaRedirectURIs c) then Ok c else Err ErrInvalidRequest
  end.

Definition IssueCode (actor : Actor) (c : ClientApplication) (r : AuthorizeRequest) : M OAW string :=
  if bool_decide (ATenantID actor ≠ CaTenantID c)
  then oaEmit (mkEvent CrossTenantRefused (CaTenantID c) (kind_string (AKind actor)) (AUserID actor) "" "" "refused"
                 "oauth_client_tenant" [("actor_tenant", ATenantID actor : detail); ("client_id", CaClientID c : detail)]) ;;;
       throw ErrInvalidRequest
  else
    code <- oaRandomToken ;;
    let p := mkPending (CaClientID c) (ArRedirectURI r) (ArCodeChallenge r) (ATenantID actor) (AUserID actor)
               (ASessionID actor) (ARoles actor) (AAMR actor) in
    oaKV (λ now, kv_set now (CodeKey (HashToken code)) (Json (pending_json p)) CodeTTL) ;;;
    ret code.

(** Redeem in its three accesses: the read of the code, its deletion, and the
    checks that follow. *)
Definition redeem_read (r : TokenRequest) : M OAW value :=
  if bool_decide (TrGrantType r ≠ "authorization_code") || bool_decide (TrCode r = "") ||
     bool_decide (TrClientID r = "") || bool_decide (TrRedirectURI r = "")
  then throw ErrInvalidRequest
  else
    raw <- attempt (oaKV (λ now, kv_get now (CodeKey (HashToken (TrCode r))))) ;;
    match raw with
    | Ok (Some v) => ret v
    | _ => throw ErrInvalidGrant
    end.
Definition redeem_delete (r : TokenRequest) : M OAW unit :=
  ignore (oaKV (λ now, kv_del now [CodeKey (HashToken (TrCode r))])).
Definition redeem_finish (ord : list string) (r : TokenRequest) (raw : value) : M OAW TokenResponse :=
  match (match raw with Json j => pending_of_json j | Raw _ => None end) with
  | None => throw ErrInvalidGrant
  | Some p =>
      match Client (TrClientID r) with
      | Err _ => throw ErrInvalidGrant
      | Ok c =>
          if bool_decide (PnClientID p ≠ TrClientID r) || bool_decide (PnRedirectURI p ≠ TrRedirectURI r)
          then throw ErrInvalidGrant
          else
            lift (if CaPublic c then Ok tt
                  else match CaSecretHash c with
                       | None => Err ErrInvalidClient
                       | Some h => if bool_decide (TrClientSecret r = "") then Err ErrInvalidClient
                                   else match VerifyPassword (TrClientSecret r) h with
                                        | Ok (true, _) => Ok tt
                                        | _ => Err ErrInvalidClient
                                        end
                       end) ;;;
            lift (match VerifyPKCE (TrCodeVerifier r) (PnChallenge p) with Ok _ => Ok tt | Err _ => Err ErrInvalidGrant end) ;;;
            tc <- oaIssue ord (mkRequest (PnUserID p) (PnTenantID p) (PnSessionID p) (PnRoles p) (PnAMR p) (CaClientID c) 0) ;;
            ret (mkTokenResponse tc.1 "Bearer"
                   (match pExp tc.2, pIat tc.2 with Some e, Some i => (e - i) / Dur.second | _, _ => 0 end)%Z)
      end
  end.
Definition Redeem (ord : list string) (r : TokenRequest) : M OAW TokenResponse :=
  raw <- redeem_read r ;;
  redeem_delete r ;;;
  redeem_finish ord r raw.
End OAuth.
