(* ===== verification/OAuthSafety.v ===== *)
(** * A code is exchanged once, by whom and for what it was issued

    Histories of the service interleave whole calls; other users of the cache
    may do anything to keys that are not codes.  The last section lets two
    exchanges of one code overlap. *)
From S2P Require Import Prelude GoStrings Base64 Utf8 Regex PermRef TenantCtx Models Password Cache Envelope Token RingSafety TokenSafety TokenRuns AuditEvents OAuth.
#[local] Open Scope list_scope.
#[local] Open Scope go_scope.

Section OAuthSafety.
Context {K KS : Type} {KVK : KV K} {KVL : KVLaws K} {Cr : Crypto} {KSI : KeyStore KS} {J : JWT} {A2 : Argon2}.
Context (HashToken : string → string) {Hinj : Inj (=) (=) HashToken} (newID : nat → string) (iss : string).
Context (Client : string → result ClientApplication).
Notation W := (@OAW K KS).
Implicit Types (w : W).

Definition with_ring w (r : Ring KS) : W := mkOA (oaCache w) r (oaAudit w) (oaEntropy w) (oaIds w).
Definition with_cache w (k : K) : W := mkOA k (oaRing w) (oaAudit w) (oaEntropy w) (oaIds w).

(** What can happen: a code is issued, an exchange is tried, the ring changes
    and time passes, somebody else uses the cache. *)
Inductive oa_step : W → W → Prop :=
  | os_issue actor c r w : oa_step w (IssueCode HashToken actor c r w).2
  | os_redeem ord r w : oa_step w (Redeem HashToken newID iss Client ord r w).2
  | os_ring r w : (oaNow w <= rgNow r)%Z → oa_step w (with_ring w r)
  | os_cache k w : (∀ t h, (oaNow w <= t)%Z → kv_at k t (CodeKey h) = kv_at (oaCache w) t (CodeKey h)) →
      oa_step w (with_cache w k).

(** The entry of a code from now on. *)
Definition stored w (code : string) (p : pending) (deadline : Z) : Prop :=
  ∀ t, (oaNow w <= t)%Z → kv_at (oaCache w) t (CodeKey (HashToken code)) =
    if (t <? deadline)%Z then Some (Json (pending_json p)) else None.
Definition spent w (code : string) : Prop :=
  ∀ t, (oaNow w <= t)%Z → kv_at (oaCache w) t (CodeKey (HashToken code)) = None.

Lemma CodeKey_inj a b : CodeKey a = CodeKey b → a = b.
Proof using Type. unfold CodeKey. cbn. by intros [= E]. Qed.

(** What a call did to the entry of [code]: nothing, or it deleted it. *)
Definition kept w w' (code : string) : Prop :=
  (oaNow w <= oaNow w')%Z ∧
  ((∀ t, (oaNow w' <= t)%Z → kv_at (oaCache w') t (CodeKey (HashToken code)) = kv_at (oaCache w) t (CodeKey (HashToken code)))
   ∨ spent w' code).

Lemma IssueCode_run actor c r w :
  match IssueCode HashToken actor c r w with
  | (Ok code, w') => oaEntropy w = code :: oaEntropy w' ∧ oaNow w' = oaNow w ∧
      ATenantID actor = CaTenantID c ∧
      ∀ t k, (oaNow w <= t)%Z → kv_at (oaCache w') t k =
        if decide (k = CodeKey (HashToken code))
        then if (t <? oaNow w + CodeTTL)%Z
             then Some (Json (pending_json (mkPending (CaClientID c) (ArRedirectURI r) (ArCodeChallenge r) (ATenantID actor)
                    (AUserID actor) (ASessionID actor) (ARoles actor) (AAMR actor)))) else None
        else kv_at (oaCache w) t k
  | (Err _, w') => oaEntropy w' = oaEntropy w ∧ oaNow w' = oaNow w ∧ oaCache w' = oaCache w
  end.
Proof using KVL.
  unfold IssueCode. case_bool_decide as Ht; [done|]. unfold bind, oaRandomToken. destruct (oaEntropy w) as [|code l] eqn:E; [done|].
  unfold oaKV, oaNow in *. cbn beta zeta iota. cbn [oaRing oaCache oaAudit oaEntropy oaIds].
  match goal with |- context [kv_set ?n ?k ?v ?ttl ?m] => destruct (kv_set_law n k v ttl m) as (m' & Em & Hm) end.
  rewrite Em. unfold ret. cbn [oaRing oaCache oaEntropy].
  split_and!; [done|done|by destruct (decide (ATenantID actor = CaTenantID c))|].
  intros t k Hk. rewrite Hm by done. unfold ttl_live. by destruct (decide _).
Qed.

Lemma redeem_read_run r w v w1 :
  redeem_read HashToken r w = (Ok v, w1) →
  kv_at (oaCache w) (oaNow w) (CodeKey (HashToken (TrCode r))) = Some v ∧
  oaRing w1 = oaRing w ∧ oaEntropy w1 = oaEntropy w ∧
  ∀ t k, (oaNow w <= t)%Z → kv_at (oaCache w1) t k = kv_at (oaCache w) t k.
Proof using KVL.
  unfold redeem_read. destruct (_ || _ || _ || _); [done|]. unfold bind, attempt, oaKV.
  destruct (kv_get_law (oaNow w) (CodeKey (HashToken (TrCode r))) (oaCache w)) as (k' & Ek & Hk). rewrite Ek.
  destruct (kv_at (oaCache w) (oaNow w) _) as [v'|]; [|done]. intros [= <- <-]. done.
Qed.
Lemma redeem_read_err r w e w1 : redeem_read HashToken r w = (Err e, w1) →
  oaRing w1 = oaRing w ∧ oaEntropy w1 = oaEntropy w ∧
  ∀ t k, (oaNow w <= t)%Z → kv_at (oaCache w1) t k = kv_at (oaCache w) t k.
Proof using KVL.
  unfold redeem_read. destruct (_ || _ || _ || _); [by intros [= _ <-]|]. unfold bind, attempt, oaKV.
  destruct (kv_get_law (oaNow w) (CodeKey (HashToken (TrCode r))) (oaCache w)) as (k' & Ek & Hk). rewrite Ek.
  destruct (kv_at (oaCache w) (oaNow w) _) as [v'|]; [done|]. by intros [= _ <-].
Qed.

Lemma redeem_delete_run r w : ∃ w1, redeem_delete HashToken r w = (Ok tt, w1) ∧
  oaRing w1 = oaRing w ∧ oaEntropy w1 = oaEntropy w ∧ oaIds w1 = oaIds w ∧
  ∀ t k, (oaNow w <= t)%Z → kv_at (oaCache w1) t k =
    if decide (k = CodeKey (HashToken (TrCode r))) then None else kv_at (oaCache w) t k.
Proof using KVL.
  unfold redeem_delete, ignore, oaKV.
  destruct (kv_del_law (oaNow w) [CodeKey (HashToken (TrCode r))] (oaCache w)) as (k' & Ek & Hk). rewrite Ek.
  eexists. split_and!; [done|done|done|done|]. intros t k Ht. cbn [oaCache]. rewrite Hk by done.
  assert (Hk1 : ∀ x, k ∈ [x] ↔ k = x) by (intros x; by rewrite list_elem_of_singleton).
  repeat case_decide; try done; by rewrite Hk1 in *.
Qed.

Lemma redeem_finish_same ord r v w : ∃ n,
  (redeem_finish newID iss Client ord r v w).2 = mkOA (oaCache w) (oaRing w) (oaAudit w) (oaEntropy w) n.
Proof using Type.
  unfold redeem_finish, bind, lift, throw, ret, oaIssue.
  repeat case_match; simplify_eq/=; first [by exists (oaIds w); destruct w|by exists (S (oaIds w))].
Qed.

(** *** One exchange *)
Lemma Redeem_kept ord r w code : kept w (Redeem HashToken newID iss Client ord r w).2 code ∧
  oaEntropy (Redeem HashToken newID iss Client ord r w).2 = oaEntropy w.
Proof using KVL.
  unfold Redeem, bind. destruct (redeem_read HashToken r w) as [[v|e] w1] eqn:Er.
  2: { apply redeem_read_err in Er as (E1 & E2 & Hk). unfold kept, oaNow in *. cbn [snd]. rewrite E1, E2.
       split; [|done]. split; [lia|]. left. intros t Ht. by apply Hk. }
  apply redeem_read_run in Er as (_ & E1 & E2 & Hk).
  destruct (redeem_delete_run r w1) as (w2 & Ed & F1 & F2 & _ & Hd). rewrite Ed.
  destruct (redeem_finish_same ord r v w2) as [n ->]. cbn [oaEntropy]. rewrite F2, E2. split; [|done].
  unfold kept, spent, oaNow in *. cbn [oaRing oaCache]. rewrite F1, E1 in *. split; [lia|].
  destruct (decide (TrCode r = code)) as [<-|Hne].
  - right. intros t Ht. rewrite Hd by done. by rewrite decide_True.
  - destruct (decide (HashToken code = HashToken (TrCode r))) as [Eh|Hh].
    + right. intros t Ht. rewrite Hd, Eh by done. by rewrite decide_True.
    + left. intros t Ht. rewrite Hd by done. rewrite decide_False by (by intros ?%CodeKey_inj). by apply Hk.
Qed.

(** A public client needs no secret; another shows the one registered. *)
Definition authenticated (c : ClientApplication) (secret : string) : Prop :=
  CaPublic c = true ∨ ∃ h b, CaSecretHash c = Some h ∧ secret ≠ "" ∧ VerifyPassword secret h = Ok (true, b).

Lemma redeem_finish_ok ord r v w resp w' :
  redeem_finish newID iss Client ord r v w = (Ok resp, w') →
  ∃ j p c n pl, v = Json j ∧ pending_of_json j = Some p ∧ Client (TrClientID r) = Ok c ∧
    PnClientID p = TrClientID r ∧ PnRedirectURI p = TrRedirectURI r ∧ authenticated c (TrClientSecret r) ∧
    VerifyPKCE (TrCodeVerifier r) (PnChallenge p) = Ok tt ∧
    Issue iss (newID n) ord (oaRing w) (mkRequest (PnUserID p) (PnTenantID p) (PnSessionID p) (PnRoles p) (PnAMR p) (CaClientID c) 0)
      = Ok (TsAccessToken resp, pl).
Proof using Type.
  unfold redeem_finish. destruct v as [s|j]; [done|]. destruct (pending_of_json j) as [p|] eqn:Ep; [|done].
  destruct (Client (TrClientID r)) as [c|e] eqn:Ec; [|done]. destruct (_ || _) eqn:Eb; [done|]. bool_prop.
  intros E. apply bind_ok_inv in E as ([] & w1 & Hs & E). apply bind_ok_inv in E as ([] & w2 & Hp & E).
  apply bind_ok_inv in E as ([tok pl] & w3 & Hi & E). unfold ret in E. simplify_eq/=.
  unfold lift in Hs, Hp. injection Hs as Hs <-. injection Hp as Hp <-.
  unfold oaIssue in Hi. injection Hi as Hi <-.
  exists j, p, c, (oaIds w), pl. split_and!; [done|done|done| | | | |exact Hi].
  - by destruct (decide (PnClientID p = TrClientID r)).
  - by destruct (decide (PnRedirectURI p = TrRedirectURI r)).
  - unfold authenticated. destruct (CaPublic c); [by left|right]. destruct (CaSecretHash c) as [h|]; [|done].
    case_bool_decide; [done|]. destruct (VerifyPassword (TrClientSecret r) h) as [[[] b]|] eqn:Ev; try done. eauto.
  - by destruct (VerifyPKCE (TrCodeVerifier r) (PnChallenge p)) as [[]|].
Qed.

Lemma Redeem_ok ord r w resp w' :
  Redeem HashToken newID iss Client ord r w = (Ok resp, w') →
  ∃ j p c n pl, kv_at (oaCache w) (oaNow w) (CodeKey (HashToken (TrCode r))) = Some (Json j) ∧
    pending_of_json j = Some p ∧ Client (TrClientID r) = Ok c ∧
    PnClientID p = TrClientID r ∧ PnRedirectURI p = TrRedirectURI r ∧ authenticated c (TrClientSecret r) ∧
    VerifyPKCE (TrCodeVerifier r) (PnChallenge p) = Ok tt ∧
    Issue iss (newID n) ord (oaRing w) (mkRequest (PnUserID p) (PnTenantID p) (PnSessionID p) (PnRoles p) (PnAMR p) (CaClientID c) 0)
      = Ok (TsAccessToken resp, pl) ∧ spent w' (TrCode r).
Proof using KVL.
  unfold Redeem. intros E. apply bind_ok_inv in E as (v & w1 & Er & E). apply bind_ok_inv in E as ([] & w2 & Ed & E).
  apply redeem_read_run in Er as (Hv & E1 & E2 & Hk).
  destruct (redeem_delete_run r w1) as (w2' & Ed' & F1 & F2 & _ & Hd). rewrite Ed' in Ed. injection Ed as <-.
  pose proof (redeem_finish_same ord r v w2') as [n Hn]. rewrite E in Hn. cbn [snd] in Hn.
  apply redeem_finish_ok in E as (j & p & c & m & pl & -> & Hp & Hc & H1 & H2 & H3 & H4 & H5).
  exists j, p, c, m, pl. rewrite F1, E1 in H5. split_and!; try done.
  subst w'. intros t Ht. unfold oaNow in *. cbn [oaRing oaCache] in *. rewrite F1, E1 in *. rewrite Hd by done. by rewrite decide_True.
Qed.

(** *** Histories *)
Lemma step_kept w w' code : oa_step w w' → code ∉ oaEntropy w → kept w w' code ∧ code ∉ oaEntropy w'.
Proof using KVL Hinj.
  intros Hs Hc. destruct Hs as [actor c r w|ord r w|r w Hr|k w Hk].
  - pose proof (IssueCode_run actor c r w) as Hi. destruct (IssueCode HashToken actor c r w) as [[x|e] w']; cbn [snd].
    + destruct Hi as (He & Hn & _ & Hk). rewrite He in Hc. apply not_elem_of_cons in Hc as [Hx Hc]. split; [|done].
      unfold kept. rewrite Hn. split; [lia|]. left. intros t Ht. rewrite Hk by done.
      rewrite decide_False; [done|]. intros E%CodeKey_inj. by apply Hinj in E.
    + destruct Hi as (He & Hn & Hk). rewrite He. split; [|done]. unfold kept. rewrite Hn, Hk. split; [lia|]. by left.
  - destruct (Redeem_kept ord r w code) as [H1 H2]. by rewrite H2.
  - split; [|done]. split; [done|]. by left.
  - split; [|done]. split; [unfold oaNow; cbn; lia|]. left. intros t Ht. by apply Hk.
Qed.

Lemma kept_stored w w' code p d : stored w code p d → kept w w' code → stored w' code p d ∨ spent w' code.
Proof using Type.
  intros Hst [Hn [Hk|Hs]]; [left|by right]. intros t Ht. rewrite Hk by done. apply Hst. lia.
Qed.
Lemma kept_spent w w' code : spent w code → kept w w' code → spent w' code.
Proof using Type. intros Hst [Hn [Hk|Hs]]; [|done]. intros t Ht. rewrite Hk by done. apply Hst. lia. Qed.

Lemma steps_stored w w' code p d : rtc oa_step w w' → code ∉ oaEntropy w →
  stored w code p d ∨ spent w code → (stored w' code p d ∨ spent w' code) ∧ code ∉ oaEntropy w' ∧ (spent w code → spent w' code).
Proof using KVL Hinj.
  induction 1 as [|w1 w2 w3 Hs _ IH]; [done|]. intros Hc Hw. destruct (step_kept _ _ _ Hs Hc) as [Hk Hc'].
  assert (Hw2 : stored w2 code p d ∨ spent w2 code).
  { destruct Hw as [Hw|Hw]; [by eapply kept_stored|right; by eapply kept_spent]. }
  destruct (IH Hc' Hw2) as (H1 & H2 & H3). split_and!; [done|done|]. intros Hsp. apply H3. by eapply kept_spent.
Qed.

(** C30. An authorization code is worth what it was issued for, once, as long as
    exchanges do not overlap ([redeem_race] shows two that do) and the cache
    carries out the deletion of the code (the laws of the cache; the source
    does not look at the error).  In any history of whole calls after [IssueCode] gave out a code, a successful exchange of it
    names the same application and redirect URI, shows the verifier of the
    challenge and, for a confidential application, its secret; it happens
    within a minute; the token is issued for the user, tenant and session that
    authorized; and every later exchange of the code fails. *)
Theorem code_bound_and_single_use actor c areq w0 code w1 w2 ord req resp w3 :
  NoDup (oaEntropy w0) → IssueCode HashToken actor c areq w0 = (Ok code, w1) → rtc oa_step w1 w2 →
  Redeem HashToken newID iss Client ord req w2 = (Ok resp, w3) → TrCode req = code →
  ATenantID actor = CaTenantID c ∧ TrClientID req = CaClientID c ∧ TrRedirectURI req = ArRedirectURI areq ∧
  (validVerifier (TrCodeVerifier req) = true ∧ Challenge (TrCodeVerifier req) = ArCodeChallenge areq) ∧
  (oaNow w2 < oaNow w0 + CodeTTL)%Z ∧
  (∃ cl n pl, Client (CaClientID c) = Ok cl ∧ authenticated cl (TrClientSecret req) ∧
     Issue iss (newID n) ord (oaRing w2) (mkRequest (AUserID actor) (ATenantID actor) (ASessionID actor) (ARoles actor)
       (AAMR actor) (CaClientID cl) 0) = Ok (TsAccessToken resp, pl)) ∧
  (∀ w4 ord' req', rtc oa_step w3 w4 → TrCode req' = code →
     is_err (Redeem HashToken newID iss Client ord' req' w4).1 = true).
Proof using KVL Hinj.
  intros Hnd Hi Hst Hr Hcode. pose proof (IssueCode_run actor c areq w0) as Hrun. rewrite Hi in Hrun.
  destruct Hrun as (He & Hn & Hten & Hk). rewrite He in Hnd. apply NoDup_cons in Hnd as [Hc _].
  set (p := mkPending (CaClientID c) (ArRedirectURI areq) (ArCodeChallenge areq) (ATenantID actor)
              (AUserID actor) (ASessionID actor) (ARoles actor) (AAMR actor)) in *.
  assert (Hs1 : stored w1 code p (oaNow w0 + CodeTTL)).
  { intros t Ht. rewrite Hn in Ht. rewrite Hk by done. by rewrite decide_True. }
  destruct (steps_stored _ _ _ p (oaNow w0 + CodeTTL)%Z Hst Hc (or_introl Hs1)) as (Hw2 & Hc2 & _).
  apply Redeem_ok in Hr as Hok. rewrite Hcode in Hok.
  destruct Hok as (j & p' & cl & n & pl & Hj & Hp & Hcl & H1 & H2 & H3 & H4 & H5 & Hsp).
  destruct Hw2 as [Hw2|Hw2]; [|rewrite Hw2 in Hj by lia; done].
  rewrite Hw2 in Hj by lia. destruct (oaNow w2 <? _)%Z eqn:Et; [|done]. injection Hj as <-.
  rewrite pending_of_pending_json in Hp. injection Hp as <-. bool_prop. cbn [PnClientID PnRedirectURI PnChallenge] in *.
  unfold VerifyPKCE in H4. destruct (validVerifier _) eqn:Ev; cbn [negb orb] in H4; [|done].
  case_bool_decide; [done|]. case_bool_decide as Hch; [|done]. subst p.
  cbn [PnClientID PnRedirectURI PnChallenge PnUserID PnTenantID PnSessionID PnRoles PnAMR] in *.
  split_and!; try done. { exists cl, n, pl. rewrite <- H1 in Hcl. done. }
  intros w4 ord' req' Hst' Hc'.
  destruct (step_kept _ _ code (os_redeem ord req w2) Hc2) as [_ Hc3]. rewrite Hr in Hc3.
  destruct (steps_stored _ _ _ (mkPending "" "" "" "" "" "" [] []) 0 Hst' Hc3 (or_intror Hsp)) as (_ & _ & Hsp').
  destruct (Redeem HashToken newID iss Client ord' req' w4) as [[resp'|e] w5] eqn:Er'; [|done].
  apply Redeem_ok in Er' as (j' & p' & cl' & n' & pl' & Hj' & _). rewrite Hc', (Hsp' Hsp) in Hj' by lia. done.
Qed.
End OAuthSafety.

(** ** A concrete exchange of an authorization code

    The witness of OAuthSafety, and two overlapping exchanges of one code. *)
From S2P Require Import Prelude GoStrings Base64 Utf8 Regex PermRef TenantCtx Models Password Cache Envelope Token RingSafety TokenSafety TokenRuns AuditEvents OAuth.
#[local] Open Scope list_scope.
#[local] Open Scope Z_scope.
#[local] Open Scope go_scope.

Definition tagHash (s : string) : string := String "#" s.
#[export] Instance tagHash_inj : Inj (=) (=) tagHash.
Proof. intros a b [= ->]. done. Qed.
#[local] Instance fillArgon2 : Argon2 := {| argon2 pw salt _ _ _ n := fill n (pw +:+ salt) |}.
Definition oneID (n : nat) : string := "j1".

Definition spa : ClientApplication := mkClient "spa" "t1" "App" ["https://app/cb"] true None.
Definition clients (id : string) : result ClientApplication := if bool_decide (id = "spa") then Ok spa else Err ErrNotFound.
Definition u1 : Actor := mkActor KindUser "u1" "t1" "s1" ["viewer"] ["pwd"] "" "" "".
Definition verifier : string := repeat_byte "v" 50.
Definition areq : AuthorizeRequest := mkAuthorize "code" "spa" "https://app/cb" "xyz" (Challenge verifier) "S256".
Definition treq : TokenRequest := mkTokenRequest "authorization_code" "code1" "https://app/cb" "spa" verifier "".
Definition payC : Payload :=
  mkPayload "https://auth" "u1" ["spa"] (Some (1700000000 * Dur.second)) (Some (1700000000 * Dur.second))
    (Some (1700000900 * Dur.second)) "j1" "t1" "s1" ["viewer"] ["pwd"] [].
Definition jwtC : JWT := oneJWT kid1 (toy_key 0%nat) payC.

Definition oa0 : OAW := @mkOA Memory MemKeys NewMemory ring1 [] ["code1"; "code2"] 0.
Definition oa1 : OAW := (IssueCode tagHash u1 spa areq oa0).2.
Notation redeem := (@Redeem Memory MemKeys _ _ jwtC _ tagHash oneID "https://auth" clients).
Definition oa2 : OAW := (redeem [kid1] treq oa1).2.

Lemma code_bound_and_single_use_witness :
  (redeem [kid1] treq oa1).1 = Ok (mkTokenResponse "tok" "Bearer" 900) ∧
  is_err (redeem [kid1] treq oa2).1 = true.
Proof.
  split; [vm_compute; reflexivity|].
  refine (proj2 (proj2 (proj2 (proj2 (proj2 (proj2 (@code_bound_and_single_use Memory MemKeys _ _ _ jwtC _ tagHash _ oneID
    "https://auth" clients u1 spa areq oa0 "code1" oa1 oa1 [kid1] treq (mkTokenResponse "tok" "Bearer" 900) oa2 _ _ _ _ _))))))
    oa2 [kid1] treq _ _).
  - vm_compute. apply NoDup_cons_2; [|apply NoDup_singleton]. intros H. by apply list_elem_of_singleton in H.
  - vm_compute. reflexivity.
  - apply rtc_refl.
  - vm_compute. reflexivity.
  - reflexivity.
  - apply rtc_refl.
  - reflexivity.
Defined.

(** Two requests with the same code whose reads both come before either
    deletion: both obtain a token. *)
Theorem redeem_race :
  match redeem_read tagHash treq oa1 with
  | (Ok v1, a) =>
      match redeem_read tagHash treq a with
      | (Ok v2, b) =>
          let c := (redeem_delete tagHash treq b).2 in
          let d := (redeem_delete tagHash treq c).2 in
          let '(first, e) := @redeem_finish Memory MemKeys _ jwtC _ oneID "https://auth" clients [kid1] treq v1 d in
          let '(second, _) := @redeem_finish Memory MemKeys _ jwtC _ oneID "https://auth" clients [kid1] treq v2 e in
          is_ok first = true ∧ is_ok second = true
      | _ => False
      end
  | _ => False
  end.
Proof. vm_compute. done. Qed.
