(* ===== verification/AuditWriter.v ===== *)
(** * The audit writer (internal/audit/audit.go: Writer)

    [Emit], [Flush] and [Close] run in any number of goroutines beside the
    one that runs [run].  The state is what they share, plus the events that
    are between the two halves of [Emit] (the closed flag is read under the
    lock, the send happens after it is released).  An [Action] is one atomic
    step of one goroutine; [step] is executable. *)
From S2P Require Import Prelude GoStrings TenantCtx AuditEvents.
#[local] Open Scope list_scope.
#[local] Open Scope go_scope.

Definition queueCap : nat := 10000.
Definition batchSize : nat := 200.
#[global] Arguments queueCap : simpl never.
#[global] Arguments batchSize : simpl never.

(** [WBatches] are the calls of InsertAuditRows with their success, in order;
    [WAccepted] (what was ever sent on the channel) and [WEmits] (how many
    valid events [Emit] was given) are history. *)
Record Writer : Type := mkWriter {
  WQueue : list AuditRow;
  WClosed : bool;
  WDropped : nat;
  WBuf : list AuditRow;
  WReturned : bool;              (* run has returned *)
  WDraining : option nat;        (* the flush request run is serving *)
  WWaiting : list nat;           (* flush calls blocked on flushCh *)
  WFlushed : list nat;           (* flush calls that returned *)
  WPending : list AuditRow;      (* emits past the closed check *)
  WPanicked : bool;
  WErrors : nat;                 (* calls of onError *)
  WBatches : list (bool * list AuditRow);
  WAccepted : list AuditRow;
  WEmits : nat;
  WNextFlush : nat;
}.
Definition NewWriter : Writer := mkWriter [] false 0 [] false None [] [] [] false 0 [] [] 0 0.

Inductive Action : Type :=
  | AEmit (e : Event) (now : Z)   (* Row and the closed check *)
  | ASend (i : nat)               (* the select of Emit, for a pending event *)
  | AFlush                        (* the closed check of Flush *)
  | AClose
  | ARecv (ok : bool)             (* case r, ok := <-w.ch; ok: the insert, if there is one, succeeds *)
  | ATick (ok : bool)
  | ATake (i : nat)               (* case done := <-w.flushCh *)
  | ADrain
  | ADrained (ok : bool).

Definition set_buf (w : Writer) (q b : list AuditRow) : Writer :=
  mkWriter q (WClosed w) (WDropped w) b (WReturned w) (WDraining w) (WWaiting w) (WFlushed w) (WPending w)
    (WPanicked w) (WErrors w) (WBatches w) (WAccepted w) (WEmits w) (WNextFlush w).
(** The closure [flush] of [run]. *)
Definition flush (ok : bool) (w : Writer) : Writer :=
  if bool_decide (WBuf w = []) then w
  else mkWriter (WQueue w) (WClosed w) (WDropped w) [] (WReturned w) (WDraining w) (WWaiting w) (WFlushed w)
         (WPending w) (WPanicked w) (if ok then WErrors w else S (WErrors w))
         (WBatches w ++ [(ok, WBuf w)]) (WAccepted w) (WEmits w) (WNextFlush w).
Definition set_run (w : Writer) (returned : bool) (draining : option nat) (waiting flushed : list nat) : Writer :=
  mkWriter (WQueue w) (WClosed w) (WDropped w) (WBuf w) returned draining waiting flushed (WPending w)
    (WPanicked w) (WErrors w) (WBatches w) (WAccepted w) (WEmits w) (WNextFlush w).

Section Steps.
Context (unicode_lower : string → string).

(** [None]: the action cannot happen in this state. *)
Definition step (a : Action) (w : Writer) : option Writer :=
  if WPanicked w then None else
  match a with
  | AEmit e now =>
      match Row unicode_lower e now with
      | Err _ => Some w
      | Ok row =>
          Some (if WClosed w
                then mkWriter (WQueue w) (WClosed w) (S (WDropped w)) (WBuf w) (WReturned w) (WDraining w)
                       (WWaiting w) (WFlushed w) (WPending w) (WPanicked w) (WErrors w) (WBatches w)
                       (WAccepted w) (S (WEmits w)) (WNextFlush w)
                else mkWriter (WQueue w) (WClosed w) (WDropped w) (WBuf w) (WReturned w) (WDraining w)
                       (WWaiting w) (WFlushed w) (WPending w ++ [row]) (WPanicked w) (WErrors w) (WBatches w)
                       (WAccepted w) (S (WEmits w)) (WNextFlush w))
      end
  | ASend i =>
      match WPending w !! i with
      | None => None
      | Some row =>
          let rest := take i (WPending w) ++ drop (S i) (WPending w) in
          Some (if WClosed w
                then (* send on a closed channel *)
                     mkWriter (WQueue w) (WClosed w) (WDropped w) (WBuf w) (WReturned w) (WDraining w)
                       (WWaiting w) (WFlushed w) rest true (WErrors w) (WBatches w)
                       (WAccepted w) (WEmits w) (WNextFlush w)
                else if (length (WQueue w) <? queueCap)%nat
                then mkWriter (WQueue w ++ [row]) (WClosed w) (WDropped w) (WBuf w) (WReturned w) (WDraining w)
                       (WWaiting w) (WFlushed w) rest (WPanicked w) (WErrors w) (WBatches w)
                       (WAccepted w ++ [row]) (WEmits w) (WNextFlush w)
                else mkWriter (WQueue w) (WClosed w) (S (WDropped w)) (WBuf w) (WReturned w) (WDraining w)
                       (WWaiting w) (WFlushed w) rest (WPanicked w) (S (WErrors w)) (WBatches w)
                       (WAccepted w) (WEmits w) (WNextFlush w))
      end
  | AFlush =>
      Some (let n := WNextFlush w in
            mkWriter (WQueue w) (WClosed w) (WDropped w) (WBuf w) (WReturned w) (WDraining w)
              (if WClosed w then WWaiting w else WWaiting w ++ [n])
              (if WClosed w then WFlushed w ++ [n] else WFlushed w)
              (WPending w) (WPanicked w) (WErrors w) (WBatches w) (WAccepted w) (WEmits w) (S n))
  | AClose =>
      Some (mkWriter (WQueue w) true (WDropped w) (WBuf w) (WReturned w) (WDraining w) (WWaiting w) (WFlushed w)
              (WPending w) (WPanicked w) (WErrors w) (WBatches w) (WAccepted w) (WEmits w) (WNextFlush w))
  | ARecv ok =>
      if WReturned w || (if WDraining w then true else false) then None else
      match WQueue w with
      | r :: q =>
          let w' := set_buf w q (WBuf w ++ [r]) in
          Some (if (batchSize <=? length (WBuf w'))%nat then flush ok w' else w')
      | [] => if WClosed w then Some (set_run (flush ok w) true None (WWaiting w) (WFlushed w)) else None
      end
  | ATick ok => if WReturned w || (if WDraining w then true else false) then None else Some (flush ok w)
  | ATake i =>
      if WReturned w || (if WDraining w then true else false) then None else
      match WWaiting w !! i with
      | None => None
      | Some n => Some (set_run w false (Some n) (take i (WWaiting w) ++ drop (S i) (WWaiting w)) (WFlushed w))
      end
  | ADrain =>
      match WDraining w, WQueue w with
      | Some _, r :: q => Some (set_buf w q (WBuf w ++ [r]))
      | _, _ => None
      end
  | ADrained ok =>
      match WDraining w, WQueue w with
      | Some n, [] => Some (set_run (flush ok w) (WReturned w) None (WWaiting w) (WFlushed w ++ [n]))
      | _, _ => None
      end
  end.

Fixpoint run_actions (l : list Action) (w : Writer) : option Writer :=
  match l with
  | [] => Some w
  | a :: l' => match step a w with Some w' => run_actions l' w' | None => None end
  end.
Definition steps (w w' : Writer) : Prop := rtc (λ x y, ∃ a, step a x = Some y) w w'.
End Steps.

(** ** The writer *)
Definition handed (w : Writer) : list AuditRow := concat (snd <$> WBatches w).

Record WInv (w : Writer) : Prop := mkWInv {
  wi_fifo : WAccepted w = handed w ++ WBuf w ++ WQueue w;
  wi_cap : (length (WQueue w) <= queueCap)%nat;
  wi_buf : WDraining w = None → (length (WBuf w) < batchSize)%nat;
  wi_ret : WReturned w = true → WQueue w = [] ∧ WBuf w = [] ∧ WClosed w = true ∧ WDraining w = None;
  wi_batches : Forall (λ b, b.2 ≠ []) (WBatches w);
  wi_count : WEmits w = (length (WAccepted w) + WDropped w + length (WPending w) + (if WPanicked w then 1 else 0))%nat;
}.

Section WriterFacts.
Context (unicode_lower : string → string).
Notation step := (step unicode_lower).
Notation steps := (steps unicode_lower).

Lemma handed_snoc w b : concat (snd <$> (WBatches w ++ [b])) = handed w ++ b.2.
Proof. by rewrite fmap_app, concat_app; cbn; rewrite app_nil_r. Qed.

Lemma pending_split (l : list AuditRow) i x : l !! i = Some x → length l = S (length (take i l) + length (drop (S i) l)).
Proof.
  intros E. pose proof (lookup_lt_Some _ _ _ E). rewrite length_take, length_drop. lia.
Qed.

Lemma flush_spec ok w :
  WBuf (flush ok w) = [] ∧ handed (flush ok w) = handed w ++ WBuf w ∧ WQueue (flush ok w) = WQueue w ∧
  WAccepted (flush ok w) = WAccepted w ∧ WClosed (flush ok w) = WClosed w ∧ WDropped (flush ok w) = WDropped w ∧
  WPending (flush ok w) = WPending w ∧ WPanicked (flush ok w) = WPanicked w ∧ WEmits (flush ok w) = WEmits w ∧
  WReturned (flush ok w) = WReturned w ∧ WDraining (flush ok w) = WDraining w ∧
  WNextFlush (flush ok w) = WNextFlush w ∧ WFlushed (flush ok w) = WFlushed w ∧ WWaiting (flush ok w) = WWaiting w ∧
  (Forall (λ b, b.2 ≠ []) (WBatches w) → Forall (λ b, b.2 ≠ []) (WBatches (flush ok w))).
Proof.
  unfold flush. destruct (bool_decide (WBuf w = [])) eqn:E; bool_prop.
  - rewrite E, app_nil_r. done.
  - cbn. unfold handed at 1. cbn. rewrite handed_snoc. split_and!; try done.
    intros Hb. apply Forall_app. split; [done|]. by constructor.
Qed.

Lemma flush_inv ok w :
  WAccepted w = handed w ++ WBuf w ++ WQueue w → (length (WQueue w) <= queueCap)%nat →
  (WReturned w = true → WQueue w = [] ∧ WClosed w = true ∧ WDraining w = None) →
  Forall (λ b, b.2 ≠ []) (WBatches w) →
  WEmits w = (length (WAccepted w) + WDropped w + length (WPending w) + (if WPanicked w then 1 else 0))%nat →
  WInv (flush ok w).
Proof.
  intros H1 H2 H3 H4 H5.
  destruct (flush_spec ok w) as (F1 & F2 & F3 & F4 & F5 & F6 & F7 & F8 & F9 & F10 & F11 & _ & _ & _ & F15).
  split; rewrite ?F1, ?F2, ?F3, ?F4, ?F5, ?F6, ?F7, ?F8, ?F9, ?F10, ?F11; auto.
  - by rewrite H1, <- app_assoc.
  - cbn. unfold batchSize. lia.
  - intros Hr. destruct (H3 Hr) as (? & ? & ?). done.
Qed.

Lemma recv_inv w r q : WInv w → WQueue w = r :: q → WReturned w = false →
  WAccepted (set_buf w q (WBuf w ++ [r])) = handed w ++ (WBuf w ++ [r]) ++ q.
Proof. intros [H1 _ _ _ _ _] Hq _. cbn. by rewrite H1, Hq, <- (app_assoc (WBuf w)). Qed.

Lemma set_run_inv w r d x y : WInv w →
  (d = None → (length (WBuf w) < batchSize)%nat) →
  (r = true → WQueue w = [] ∧ WBuf w = [] ∧ WClosed w = true ∧ d = None) →
  WInv (set_run w r d x y).
Proof. intros [H1 H2 H3 H4 H5 H6] Hd Hr. by split. Qed.

Lemma step_inv a w w' : step a w = Some w' → WInv w → WInv w'.
Proof.
  intros E HI. pose proof HI as [H1 H2 H3 H4 H5 H6]. unfold AuditWriter.step in E.
  destruct (WPanicked w) eqn:Ep; [done|].
  destruct a as [e now|i| | |ok|ok|i| |ok].
  - destruct (Row unicode_lower e now) as [row|]; [|by simplify_eq]. injection E as <-.
    destruct (WClosed w) eqn:Ec; split; cbn; rewrite ?length_app, ?Ep, ?Ec in *; cbn; auto; lia.
  - destruct (WPending w !! i) as [row|] eqn:Ei; [|done]. injection E as <-. apply pending_split in Ei.
    destruct (WClosed w) eqn:Ec; [split; cbn; rewrite ?length_app, ?Ec; auto; lia|].
    assert (Hr : WReturned w ≠ true) by (intros Hr; destruct (H4 Hr) as (_ & _ & Hc & _); congruence).
    destruct (length (WQueue w) <? queueCap)%nat eqn:El; split; cbn; rewrite ?length_app, ?Ep; cbn; auto; try (done || lia).
    + unfold handed in *. cbn. by rewrite H1, <- !app_assoc.
    + apply Nat.ltb_lt in El. lia.
  - injection E as <-. by split.
  - injection E as <-. split; cbn; auto. intros Hr. destruct (H4 Hr) as (? & ? & ? & ?). done.
  - destruct (WReturned w) eqn:Er; [done|]. destruct (WDraining w) eqn:Ed; [done|]. cbn [orb] in E.
    destruct (WQueue w) as [|r q] eqn:Eq.
    + destruct (WClosed w) eqn:Ec; [|done]. injection E as <-.
      destruct (flush_spec ok w) as (F1 & _ & F3 & _ & F5 & _).
      apply set_run_inv; [|rewrite F1; unfold batchSize; cbn; lia|rewrite F1, F3, F5; by rewrite Eq].
      apply flush_inv; rewrite ?Eq, ?Er, ?Ep; auto; try done.
    + apply (inj Some) in E. subst w'. pose proof (recv_inv w r q HI Eq Er) as Hf. cbn in H2.
      destruct (batchSize <=? length (WBuf (set_buf w q (WBuf w ++ [r]))))%nat eqn:El.
      * apply flush_inv; cbn; rewrite ?Er, ?Ep; auto; try done. lia.
      * apply Nat.leb_gt in El. split; cbn; rewrite ?Er, ?Ep; auto; try done. lia.
  - destruct (WReturned w) eqn:Er; [done|]. destruct (WDraining w) eqn:Ed; [done|]. injection E as <-.
    apply flush_inv; rewrite ?Er, ?Ep; auto; done.
  - destruct (WReturned w) eqn:Er; [done|]. destruct (WDraining w) eqn:Ed; [done|]. cbn [orb] in E.
    destruct (WWaiting w !! i); [|done]. injection E as <-. by apply set_run_inv.
  - destruct (WDraining w) eqn:Ed; [|done]. destruct (WQueue w) as [|r q] eqn:Eq; [done|]. injection E as <-.
    assert (Er : WReturned w = false) by (destruct (WReturned w); [destruct (H4 eq_refl) as (_ & _ & _ & ?); done|done]).
    pose proof (recv_inv w r q HI Eq Er) as Hf. cbn in H2. split; cbn; rewrite ?Er, ?Ed, ?Ep; auto; try done. lia.
  - destruct (WDraining w) eqn:Ed; [|done]. destruct (WQueue w) as [|r q] eqn:Eq; [|done]. injection E as <-.
    assert (Er : WReturned w = false) by (destruct (WReturned w); [destruct (H4 eq_refl) as (_ & _ & _ & ?); done|done]).
    destruct (flush_spec ok w) as (F1 & _ & F3 & _ & F5 & _).
    apply set_run_inv; [|rewrite F1; unfold batchSize; cbn; lia|by rewrite Er].
    apply flush_inv; rewrite ?Eq, ?Er, ?Ep; auto; done.
Qed.

Lemma WInv_new : WInv NewWriter.
Proof. split; cbn; auto; unfold batchSize, queueCap; try lia; done. Qed.
Lemma steps_inv w w' : steps w w' → WInv w → WInv w'.
Proof. induction 1 as [|x y z (a & E) _ IH]; [done|]. intros HI. apply IH. by eapply step_inv. Qed.

(** Nothing handed over or accepted is taken back. *)
Lemma step_grows a w w' : step a w = Some w' →
  WAccepted w `prefix_of` WAccepted w' ∧ handed w `prefix_of` handed w' ∧ (WNextFlush w <= WNextFlush w')%nat ∧
  (WClosed w = true → WAccepted w' = WAccepted w ∧ WClosed w' = true).
Proof.
  unfold AuditWriter.step. destruct (WPanicked w); [done|].
  destruct (flush_spec true w) as (_ & T2 & _ & T4 & T5 & _ & _ & _ & _ & _ & _ & T12 & _).
  destruct (flush_spec false w) as (_ & U2 & _ & U4 & U5 & _ & _ & _ & _ & _ & _ & U12 & _).
  destruct a as [e now|i| | |ok|ok|i| |ok]; intros E.
  - destruct (Row unicode_lower e now); [|by simplify_eq]. injection E as <-. by destruct (WClosed w) eqn:Ec; cbn; rewrite ?Ec.
  - destruct (WPending w !! i); [|done]. injection E as <-. destruct (WClosed w) eqn:Ec; [by cbn; rewrite ?Ec|].
    destruct (length (WQueue w) <? queueCap)%nat; cbn; split_and!; try done. by apply prefix_app_r.
  - injection E as <-. cbn. split_and!; auto.
  - injection E as <-. cbn. done.
  - destruct (WReturned w || _); [done|]. destruct (WQueue w) as [|r q].
    + destruct (WClosed w) eqn:Ec; [|done]. injection E as <-. unfold handed in *. cbn.
      destruct ok; rewrite ?T2, ?T4, ?T5, ?T12, ?U2, ?U4, ?U5, ?U12; split_and!; auto; by apply prefix_app_r.
    + apply (inj Some) in E. subst w'. destruct (_ <=? _)%nat; [|done].
      set (v := set_buf w q (WBuf w ++ [r])).
      destruct (flush_spec ok v) as (_ & F2 & _ & F4 & F5 & _ & _ & _ & _ & _ & _ & F12 & _).
      rewrite F2, F4, F5, F12. cbn. split_and!; auto. by apply prefix_app_r.
  - destruct (WReturned w || _); [done|]. injection E as <-.
    destruct ok; rewrite ?T2, ?T4, ?T5, ?T12, ?U2, ?U4, ?U5, ?U12; split_and!; auto; by apply prefix_app_r.
  - destruct (WReturned w || _); [done|]. destruct (WWaiting w !! i); [|done]. by injection E as <-.
  - destruct (WDraining w); [|done]. destruct (WQueue w); [done|]. by injection E as <-.
  - destruct (WDraining w); [|done]. destruct (WQueue w); [|done]. injection E as <-. unfold handed in *. cbn.
    destruct ok; rewrite ?T2, ?T4, ?T5, ?T12, ?U2, ?U4, ?U5, ?U12; split_and!; auto; by apply prefix_app_r.
Qed.

(** A flush call is marked as returned by the drain that ends it, or at once
    when the writer is closed. *)
Lemma step_flushed a w w' n : step a w = Some w' → n ∈ WFlushed w' →
  n ∈ WFlushed w ∨ n = WNextFlush w ∨ (∃ ok, a = ADrained ok ∧ WQueue w = [] ∧ WReturned w' = WReturned w ∧
    handed w' = handed w ++ WBuf w).
Proof.
  unfold AuditWriter.step. destruct (WPanicked w); [done|].
  assert (Ff : ∀ ok v, WFlushed (flush ok v) = WFlushed v) by (intros; apply flush_spec).
  destruct a as [e now|i| | |ok|ok|i| |ok]; intros E Hn.
  - destruct (Row unicode_lower e now); [|by simplify_eq; left]. injection E as <-. destruct (WClosed w); by left.
  - destruct (WPending w !! i); [|done]. injection E as <-. destruct (WClosed w); [by left|].
    destruct (_ <? _)%nat; by left.
  - injection E as <-. cbn in Hn. destruct (WClosed w); [|by left]. apply elem_of_app in Hn as [?|Hn]; [by left|].
    apply list_elem_of_singleton in Hn. auto.
  - injection E as <-. by left.
  - destruct (WReturned w || _); [done|]. destruct (WQueue w) as [|r q].
    + destruct (WClosed w); [|done]. injection E as <-. by left.
    + apply (inj Some) in E. subst w'. left. destruct (_ <=? _)%nat; [by rewrite Ff in Hn|done].
  - destruct (WReturned w || _); [done|]. injection E as <-. rewrite Ff in Hn. by left.
  - destruct (WReturned w || _); [done|]. destruct (WWaiting w !! i); [|done]. injection E as <-. by left.
  - destruct (WDraining w); [|done]. destruct (WQueue w); [done|]. injection E as <-. by left.
  - destruct (WDraining w); [|done]. destruct (WQueue w) as [|r q] eqn:Eq; [|done]. injection E as <-.
    destruct (flush_spec ok w) as (_ & F2 & _ & _ & _ & _ & _ & _ & _ & F10 & _).
    right. right. exists ok. unfold handed in *. cbn. by rewrite F2.
Qed.

(** Ids of flush calls are handed out in order. *)
Definition ids_ok (w : Writer) : Prop :=
  ∀ n, n ∈ WFlushed w ++ WWaiting w ++ option_list (WDraining w) → (n < WNextFlush w)%nat.
Lemma ids_step a w w' : step a w = Some w' → ids_ok w → ids_ok w'.
Proof.
  unfold AuditWriter.step, ids_ok. destruct (WPanicked w); [done|].
  assert (Ff : ∀ ok v, WFlushed (flush ok v) = WFlushed v ∧ WWaiting (flush ok v) = WWaiting v ∧
    WDraining (flush ok v) = WDraining v ∧ WNextFlush (flush ok v) = WNextFlush v) by (intros; split_and!; apply flush_spec).
  destruct a as [e now|i| | |ok|ok|i| |ok]; intros E Hn.
  - destruct (Row unicode_lower e now); [|by simplify_eq]. injection E as <-. by destruct (WClosed w).
  - destruct (WPending w !! i); [|done]. injection E as <-. destruct (WClosed w); [done|]. by destruct (_ <? _)%nat.
  - injection E as <-. cbn. intros n Hin.
    assert (Hc : n ∈ WFlushed w ++ WWaiting w ++ option_list (WDraining w) ∨ n = WNextFlush w)
      by (destruct (WClosed w); set_solver).
    destruct Hc as [Hc| ->]; [|lia]. specialize (Hn n Hc). lia.
  - by injection E as <-.
  - destruct (WReturned w || _); [done|]. destruct (WQueue w) as [|r q].
    + destruct (WClosed w); [|done]. injection E as <-. cbn. destruct (Ff ok w) as (_ & _ & _ & ->). set_solver.
    + apply (inj Some) in E. subst w'. destruct (_ <=? _)%nat; [|done].
      destruct (Ff ok (set_buf w q (WBuf w ++ [r]))) as (-> & -> & -> & ->). done.
  - destruct (WReturned w || _); [done|]. injection E as <-. destruct (Ff ok w) as (-> & -> & -> & ->). done.
  - destruct (WReturned w || _); [done|]. destruct (WWaiting w !! i) as [m|] eqn:Ei; [|done]. injection E as <-. cbn.
    intros n Hin. apply Hn. pose proof (list_elem_of_lookup_2 _ _ _ Ei) as Hm.
    assert (Hs : n ∈ take i (WWaiting w) ++ drop (S i) (WWaiting w) → n ∈ WWaiting w).
    { intros [Ht|Hd]%elem_of_app.
      - apply elem_of_take in Ht as (j & Hj & _). by eapply list_elem_of_lookup_2.
      - apply list_elem_of_lookup_1 in Hd as [j Hj]. rewrite lookup_drop in Hj. by eapply list_elem_of_lookup_2. }
    set_solver.
  - destruct (WDraining w) eqn:Ed; [|done]. destruct (WQueue w); [done|]. injection E as <-. cbn. by rewrite Ed.
  - destruct (WDraining w); [|done]. destruct (WQueue w); [|done]. injection E as <-. cbn.
    destruct (Ff ok w) as (_ & _ & _ & ->). set_solver.
Qed.
Lemma steps_ids w : steps NewWriter w → ids_ok w.
Proof.
  assert (HJ : ∀ x y, steps x y → ids_ok x → ids_ok y); [|intros Hs; apply (HJ _ _ Hs); unfold ids_ok; cbn; set_solver].
  induction 1 as [|x y z (a & E) _ IH]; [done|]. intros Hi. apply IH. by eapply ids_step.
Qed.

(** First in, first out, nothing lost or duplicated: in every interleaving
    of emitters, flushes, ticks and a close, the rows accepted so far are the
    batches given to the inserter, in order, followed by the buffer and the
    queue; batches are never empty, the queue is bounded, and outside a
    flush the buffer holds less than a batch.  Every valid event is
    accepted, counted as dropped or still on its way. *)
Theorem writer_fifo w :
  steps NewWriter w →
  WAccepted w = concat (snd <$> WBatches w) ++ WBuf w ++ WQueue w ∧
  Forall (λ b, b.2 ≠ []) (WBatches w) ∧ (length (WQueue w) <= 10000)%nat ∧
  (WDraining w = None → (length (WBuf w) < 200)%nat) ∧
  (WPanicked w = false → WEmits w = (length (WAccepted w) + WDropped w + length (WPending w))%nat).
Proof.
  intros Hs. apply steps_inv in Hs as [H1 H2 H3 H4 H5 H6]; [|apply WInv_new]. split_and!; auto.
  intros Hp. rewrite Hp in H6. lia.
Qed.

(** A flush is a barrier: when a [Flush] call returns, every row accepted
    before the call has been given to the inserter. *)
Theorem flush_is_barrier w w1 w2 :
  steps NewWriter w → WClosed w = false → step AFlush w = Some w1 → steps w1 w2 →
  WNextFlush w ∈ WFlushed w2 → WAccepted w `prefix_of` concat (snd <$> WBatches w2).
Proof.
  intros Hs Hc E H12 Hin. assert (Hnin : WNextFlush w ∉ WFlushed w).
  { intros Hx. enough (WNextFlush w < WNextFlush w)%nat by lia. apply (steps_ids w Hs). set_solver. }
  apply steps_inv in Hs; [|apply WInv_new].
  assert (HI1 : WInv w1) by by eapply step_inv.
  destruct (step_grows _ _ _ E) as (Hp & _ & _ & _).
  assert (HJ : ∀ x y, steps x y → WInv x → WAccepted w `prefix_of` WAccepted x → (WNextFlush w < WNextFlush x)%nat →
            (WNextFlush w ∈ WFlushed x → WAccepted w `prefix_of` handed x) →
            WNextFlush w ∈ WFlushed y → WAccepted w `prefix_of` handed y).
  { clear. intros x y Hxy. induction Hxy as [x|x y z (a & E) _ IH]; [auto|]. intros HI Ha Hn Hf.
    destruct (step_grows _ _ _ E) as (G1 & G2 & G3 & _). apply IH; [by eapply step_inv|by etrans|lia|].
    intros Hin. destruct (step_flushed _ _ _ _ E Hin) as [Hin'|[Heq|(ok & -> & Hq & _ & Hh)]]; [|lia|].
    - etrans; [by apply Hf|done].
    - rewrite Hh. destruct HI as [H1 _ _ _ _ _]. by rewrite H1, Hq, app_nil_r in Ha. }
  apply (HJ w1 w2); auto.
  - unfold AuditWriter.step in E. destruct (WPanicked w); [done|]. injection E as <-. cbn. lia.
  - intros Hin1. destruct (step_flushed _ _ _ _ E Hin1) as [?|[_|(? & ? & _)]]; [done| |done].
    unfold AuditWriter.step in E. destruct (WPanicked w); [done|]. injection E as <-. cbn in Hin1. by rewrite Hc in Hin1.
Qed.

(** A close loses nothing: when [run] has returned, every accepted row was
    given to the inserter, and nothing is accepted or handed over later. *)
Theorem close_drains w w' :
  steps NewWriter w → WReturned w = true → steps w w' →
  concat (snd <$> WBatches w) = WAccepted w ∧ WAccepted w' = WAccepted w ∧ handed w' = handed w.
Proof.
  intros Hs Hr H12. apply steps_inv in Hs; [|apply WInv_new].
  assert (Heq : handed w = WAccepted w).
  { destruct Hs as [H1 _ _ H4 _ _]. destruct (H4 Hr) as (Hq & Hb & _). by rewrite H1, Hq, Hb, !app_nil_r. }
  assert (Hc : WClosed w = true) by (apply (wi_ret w); done).
  assert (HJ : WAccepted w' = WAccepted w ∧ WClosed w' = true ∧ WInv w' ∧ handed w `prefix_of` handed w').
  { clear Hr Heq. induction H12 as [x|x y z (a & E) _ IH]; [done|].
    destruct (step_grows _ _ _ E) as (G1 & G2 & G3 & G4). destruct (G4 Hc) as [Ga Gc].
    destruct IH as (I1 & I2 & I3 & I4); [by eapply step_inv|done|]. split_and!; [congruence|done..|]. by etrans. }
  destruct HJ as (J1 & J2 & J3 & J4). split_and!; [done..|].
  destruct J3 as [K1 _ _ _ _ _]. destruct J4 as [k Hk]. rewrite Hk in K1 |- *. rewrite J1, <- Heq in K1.
  assert (length (handed w) = length ((handed w ++ k) ++ WBuf w' ++ WQueue w')) as Hl by by rewrite <- K1.
  rewrite !length_app in Hl. destruct k; [by rewrite app_nil_r|cbn in Hl; lia].
Qed.

(** Serving a flush ends: draining takes one step per queued row. *)
Theorem drain_terminates w n ok :
  WDraining w = Some n → WPanicked w = false →
  ∃ w', run_actions unicode_lower (replicate (length (WQueue w)) ADrain ++ [ADrained ok]) w = Some w' ∧
    n ∈ WFlushed w' ∧ WDraining w' = None ∧ WBuf w' = [] ∧ WQueue w' = [].
Proof.
  remember (length (WQueue w)) as k eqn:Hk. revert w Hk. induction k as [|k IH]; intros w Hk Hd Hp.
  - assert (Hq : WQueue w = []) by (destruct (WQueue w); [done|discriminate]).
    cbn [replicate app run_actions]. unfold AuditWriter.step. rewrite Hp, Hd, Hq. eexists. split; [done|].
    destruct (flush_spec ok w) as (F1 & _ & F3 & _). cbn. rewrite F1, F3. split_and!; [|done..]. set_solver.
  - destruct (WQueue w) as [|r q] eqn:Hq; [done|]. cbn [replicate app run_actions].
    assert (step ADrain w = Some (set_buf w q (WBuf w ++ [r]))) as ->.
    { unfold AuditWriter.step. by rewrite Hp, Hd, Hq. }
    apply IH; cbn in *; auto; lia.
Qed.

Lemma run_steps l w w' : run_actions unicode_lower l w = Some w' → steps w w'.
Proof.
  revert w. induction l as [|a l IH]; intros w; cbn; [by intros [= ->]; apply rtc_refl|].
  destruct (AuditWriter.step unicode_lower a w) as [v|] eqn:E; [|done]. intros Hr. eapply rtc_l; [by exists a|by apply IH].
Qed.

(** Once [run] has returned, a flush call that still waits waits forever. *)
Definition stuck (n : nat) (w : Writer) : Prop :=
  WInv w ∧ WReturned w = true ∧ n ∈ WWaiting w ∧ n ∉ WFlushed w ∧ (n < WNextFlush w)%nat.
Lemma stuck_step n a w w' : stuck n w → step a w = Some w' → stuck n w'.
Proof.
  intros (HI & Hr & Hw & Hf & Hn) E. destruct (wi_ret w HI Hr) as (Hq & _ & _ & Hd).
  destruct (step_grows _ _ _ E) as (_ & _ & Hg & _).
  assert (Hwr : WReturned w' = true ∧ n ∈ WWaiting w').
  { unfold AuditWriter.step in E. rewrite Hr, Hd in E. destruct (WPanicked w); [done|].
    destruct a as [e now|i| | |ok|ok|i| |ok]; cbn [orb] in E; try done.
    - destruct (Row unicode_lower e now); [|by simplify_eq]. injection E as <-. by destruct (WClosed w).
    - destruct (WPending w !! i); [|done]. injection E as <-. destruct (WClosed w); [done|]. by destruct (_ <? _)%nat.
    - injection E as <-. cbn. split; [done|]. destruct (WClosed w); set_solver.
    - by injection E as <-. }
  split_and!; [by eapply step_inv|apply Hwr..| |lia]. intros Hin.
  destruct (step_flushed _ _ _ _ E Hin) as [?|[?|(ok & -> & _)]]; [done|lia|].
  unfold AuditWriter.step in E. rewrite Hd in E. by destruct (WPanicked w).
Qed.
Lemma stuck_steps n w w' : stuck n w → steps w w' → stuck n w'.
Proof. intros Hs. induction 1 as [|x y z (a & E) _ IH]; [done|]. apply IH. by eapply stuck_step. Qed.
End WriterFacts.

(** ** Concrete runs *)
Section Runs.
Definition oneQueued : Writer := default NewWriter (run_actions asIs [AEmit someEvent 5; ASend 0] NewWriter).
Definition flushing : Writer := default NewWriter (step asIs AFlush oneQueued).
Definition flushedW : Writer :=
  default NewWriter (run_actions asIs [ATake 0; AEmit someEvent 6; ADrain; ADrained true] flushing).
Definition closedW : Writer := default NewWriter (run_actions asIs [AClose; ARecv true; ARecv false] oneQueued).

Lemma writer_fifo_witness :
  WAccepted flushedW = concat (snd <$> WBatches flushedW) ++ WBuf flushedW ++ WQueue flushedW ∧
  Forall (λ b, b.2 ≠ []) (WBatches flushedW) ∧ (length (WQueue flushedW) <= 10000)%nat ∧
  (WDraining flushedW = None → (length (WBuf flushedW) < 200)%nat) ∧
  (WPanicked flushedW = false →
   WEmits flushedW = (length (WAccepted flushedW) + WDropped flushedW + length (WPending flushedW))%nat).
Proof.
  apply (writer_fifo asIs flushedW).
  apply (run_steps _ [AEmit someEvent 5; ASend 0; AFlush; ATake 0; AEmit someEvent 6; ADrain; ADrained true]).
  vm_compute. reflexivity.
Defined.

Lemma flush_is_barrier_witness :
  WAccepted oneQueued = [someRow] ∧ WAccepted oneQueued `prefix_of` concat (snd <$> WBatches flushedW).
Proof.
  split; [vm_compute; reflexivity|]. apply (flush_is_barrier asIs oneQueued flushing flushedW).
  - apply (run_steps _ [AEmit someEvent 5; ASend 0]). vm_compute. reflexivity.
  - vm_compute. reflexivity.
  - vm_compute. reflexivity.
  - apply (run_steps _ [ATake 0; AEmit someEvent 6; ADrain; ADrained true]). vm_compute. reflexivity.
  - vm_compute. left.
Defined.

Lemma close_drains_witness :
  concat (snd <$> WBatches closedW) = WAccepted closedW ∧ WAccepted closedW = WAccepted closedW ∧
  handed closedW = handed closedW.
Proof.
  apply (close_drains asIs closedW closedW).
  - apply (run_steps _ [AEmit someEvent 5; ASend 0; AClose; ARecv true; ARecv false]). vm_compute. reflexivity.
  - vm_compute. reflexivity.
  - apply rtc_refl.
Defined.

Definition draining : Writer := default NewWriter (run_actions asIs [ATake 0] flushing).
Lemma drain_terminates_witness :
  ∃ w', run_actions asIs (replicate 1 ADrain ++ [ADrained true]) draining = Some w' ∧
    0%nat ∈ WFlushed w' ∧ WDraining w' = None ∧ WBuf w' = [] ∧ WQueue w' = [].
Proof. apply (drain_terminates asIs draining 0 true); vm_compute; reflexivity. Defined.

(** Two races with [Close].  [Emit] reads the closed flag and sends after
    releasing the lock, so a close in between makes the send panic; and a
    [Flush] that passed the same check and was not served before [run]
    returned blocks for good. *)
Theorem close_races :
  (∃ w, run_actions asIs [AEmit someEvent 5; AClose; ASend 0] NewWriter = Some w ∧ WPanicked w = true) ∧
  (∃ w, run_actions asIs [AFlush; AClose; ARecv true] NewWriter = Some w ∧ WReturned w = true ∧
     ∀ w', steps asIs w w' → 0%nat ∈ WWaiting w' ∧ 0%nat ∉ WFlushed w').
Proof.
  split; [eexists; split; vm_compute; reflexivity|].
  set (w := default NewWriter (run_actions asIs [AFlush; AClose; ARecv true] NewWriter)).
  assert (E : run_actions asIs [AFlush; AClose; ARecv true] NewWriter = Some w) by (vm_compute; reflexivity).
  exists w. split; [exact E|]. split; [vm_compute; reflexivity|]. intros w' Hs.
  apply (stuck_steps asIs 0) in Hs; [by destruct Hs as (_ & _ & ? & ? & _)|].
  split; [|split_and!; [vm_compute; reflexivity|vm_compute; left|vm_compute; by inversion 1|vm_compute; lia]].
  eapply (steps_inv asIs NewWriter); [by apply (run_steps _ _ _ _ E)|apply WInv_new].
Qed.
End Runs.
