(* ===== verification/AuditQuery.v ===== *)
(** * Reading the audit log (internal/audit/query.go; the audit rows of
      internal/memstore/memstore.go)

    The cursor path administrators page through: filters, windows, the query
    with its tie-breaking cursor.  A zero time is [None].  The windowing of the
    list contract (go-tangra's listquery) is a parameter. *)
From stdpp Require Import sorting.
From S2P Require Import Prelude GoStrings Regex PermRef TenantCtx Models Cache AuditEvents.
#[local] Open Scope list_scope.
#[local] Open Scope go_scope.

Definition AuditWindow : Z := 7 * 24 * Dur.hour.
Definition MaxAuditSpan : Z := 90 * 24 * Dur.hour.
Definition ErrFilter : err := ErrText "audit: invalid filter".
Definition ErrSpan : err := ErrText "validation_failed from".

(** ** Rows *)
(** A stored row: [AuditRow] with the id the store gave it. *)
Record Stored : Type := mkStored { SdID : Z; SdRow : AuditRow }.
#[global] Instance Stored_eq_dec : EqDecision Stored.
Proof. solve_decision. Defined.
Record AuditLog : Type := mkLog { al_seq : Z; al_rows : list Stored }.
Fixpoint InsertAuditRows (rows : list AuditRow) (m : AuditLog) : AuditLog :=
  match rows with
  | [] => m
  | r :: rows' => let n := (al_seq m + 1)%Z in InsertAuditRows rows' (mkLog n (al_rows m ++ [mkStored n r]))
  end.
Record AuditPageFilter : Type := mkPageFilter { PfUserID : string; PfEventType : string; PfFrom : option Z; PfTo : option Z }.
Definition rowTS (r : Stored) : Z := ArTS (SdRow r).
Definition matches (tid : string) (f : AuditPageFilter) (s : Stored) : bool :=
  let r := SdRow s in
  negb (negb (bool_decide (ArTenantID r = tid)) || (negb (bool_decide (PfEventType f = "")) && negb (bool_decide (ArEventType r = PfEventType f)))) &&
  negb (negb (bool_decide (PfUserID f = "")) && negb (bool_decide (ArActorUserID r = Some (PfUserID f))) && negb (bool_decide (ArSubjectID r = Some (PfUserID f)))) &&
  negb (match PfFrom f with Some t => (ArTS r <? t)%Z | None => false end || match PfTo f with Some t => (t <? ArTS r)%Z | None => false end).
(** Newest first, the id breaking ties; [not_older] is what the stable sort
    orders by. *)
Definition newer (a b : Stored) : Prop := (rowTS b < rowTS a ∨ rowTS a = rowTS b ∧ SdID b < SdID a)%Z.
Definition not_older (a b : Stored) : Prop := (rowTS b < rowTS a ∨ rowTS a = rowTS b ∧ SdID b <= SdID a)%Z.
#[export] Instance not_older_dec : RelDecision not_older.
Proof. intros a b. unfold not_older. apply _. Defined.
Definition auditMatch (tid : string) (f : AuditPageFilter) (m : AuditLog) : list Stored :=
  merge_sort not_older (filter (λ s, matches tid f s = true) (al_rows m)).
(** The rows after the cursor: older, or as old with a smaller id when the
    cursor carries one. *)
Definition after_cursor (cursor : option Z) (cursorID : Z) (s : Stored) : bool :=
  match cursor with
  | None => true
  | Some c => negb (negb (rowTS s <? c)%Z && ((cursorID <=? 0)%Z || negb (rowTS s =? c)%Z || (cursorID <=? SdID s)%Z))
  end.
Definition QueryAudit (tid userID eventType : string) (from to cursor : option Z) (cursorID : Z) (limit : Z) (m : AuditLog) : list Stored :=
  let rows := filter (λ s, after_cursor cursor cursorID s = true) (auditMatch tid (mkPageFilter userID eventType from to) m) in
  if (0 <? limit)%Z then take (Z.to_nat limit) rows else rows.

(** ** Queries *)
Record Filter_ : Type := mkFilter { FiUserID : string; FiEventType : string; FiFrom : option Z; FiTo : option Z; FiCursor : string; FiLimit : Z }.
Record AuditItem : Type := mkAuditItem {
  AiID : string; AiTS : Z; AiEventType : string; AiActorUserID : option string; AiActorKind : string; AiSubjectKind : string; AiSubjectID : option string;
  AiOutcome : string; AiReason : string; AiCorrelationID : string; AiDetails : Details }.
Record AuditPage : Type := mkAuditPage { ApItems : list AuditItem; ApNextCursor : string; ApTotal : Z }.

Definition checkSpan (from to : option Z) (now : Z) : option err :=
  let to := default now to in
  match from with Some f => if (MaxAuditSpan <? to - f)%Z then Some ErrSpan else None | None => None end.
Definition validate_filter (f : Filter_) : option err :=
  if negb (bool_decide (FiEventType f = "")) && negb (bool_decide (FiEventType f ∈ knownTypes)) then Some ErrFilter
  else match FiFrom f, FiTo f with Some a, Some b => if (b <? a)%Z then Some ErrFilter else None | _, _ => None end.
Definition parseCursor (c : string) : result (Z * Z) :=
  let '(tsPart, idPart) := match cut "." c with Some (a, b) => (a, Some b) | None => (c, None) end in
  match ParseInt tsPart with
  | None => Err ErrFilter
  | Some n =>
      match idPart with
      | None => Ok (n, 0%Z)
      | Some b => match ParseInt b with
                  | Some i => if (i <? 1)%Z then Err ErrFilter else Ok (n, i)
                  | None => Err ErrFilter
                  end
      end
  end.
Definition item (s : Stored) : AuditItem :=
  let r := SdRow s in
  mkAuditItem (FormatInt (SdID s)) (ArTS r) (ArEventType r) (ArActorUserID r) (ArActorKind r) (ArSubjectKind r) (ArSubjectID r)
    (ArOutcome r) (ArReason r) (ArCorrelationID r) (ArDetails r).
Definition cursor_text (s : Stored) : string := FormatInt (rowTS s) +:+ "." +:+ FormatInt (SdID s).
Definition page_limit (n : Z) : Z := if (n <=? 0)%Z || (200 <? n)%Z then 50%Z else n.

Section Query.
(** listquery.Window: the rows of a page, the total and the request applied. *)
Context {Req : Type} (Window : list Stored → Req → list Stored * Z * Req) (ListRequest : Req → Req) (ascending : Req → bool) (first_page : Req).
Definition PageAudit (tid : string) (f : AuditPageFilter) (req : Req) (m : AuditLog) : list Stored * Z * Req :=
  let rows := auditMatch tid f m in
  let req := ListRequest req in
  Window (if ascending req then rev rows else rows) req.

(** [now] is the clock of the call. *)
Definition Query (tid : string) (f : Filter_) (now : Z) (m : AuditLog) : result AuditPage :=
  let limit := page_limit (FiLimit f) in
  match validate_filter f with
  | Some e => Err e
  | None =>
      match checkSpan (FiFrom f) (FiTo f) now with
      | Some e => Err e
      | None =>
          rbind (if bool_decide (FiCursor f = "") then Ok (None, 0%Z) else rbind (parseCursor (FiCursor f)) (λ c, Ok (Some c.1, c.2))) (λ c,
            let to := default (now + Dur.minute)%Z (FiTo f) in
            let from := default (to - AuditWindow)%Z (FiFrom f) in
            let rows := QueryAudit tid (FiUserID f) (FiEventType f) (Some from) (Some to) c.1 c.2 (limit + 1) m in
            let '(_, total, _) := PageAudit tid (mkPageFilter (FiUserID f) (FiEventType f) (Some from) (Some to)) first_page m in
            let n := Z.to_nat limit in
            Ok (mkAuditPage (item <$> take n rows)
                  (if (n <? length rows)%nat then match rows !! (n - 1)%nat with Some last => cursor_text last | None => "" end else "") total))
      end
  end.
Definition List_ (tid : string) (f : Filter_) (req : Req) (now : Z) (m : AuditLog) : result (list AuditItem * Z * Req) :=
  match checkSpan (FiFrom f) (FiTo f) now with
  | Some e => Err e
  | None =>
      let to := default now (FiTo f) in
      let from := default (to - AuditWindow)%Z (FiFrom f) in
      match validate_filter (mkFilter (FiUserID f) (FiEventType f) (Some from) (Some to) (FiCursor f) (FiLimit f)) with
      | Some e => Err e
      | None => let '(rows, total, applied) := PageAudit tid (mkPageFilter (FiUserID f) (FiEventType f) (Some from) (Some to)) req m in
                Ok (item <$> rows, total, applied)
      end
  end.
End Query.
