(* ===== verification/AuditQuerySafety.v ===== *)
(** * Paging through the audit log skips and repeats nothing *)
From stdpp Require Import sorting.
From S2P Require Import Prelude GoStrings Regex PermRef TenantCtx Models Cache AuditEvents AuditQuery.
#[local] Open Scope list_scope.
#[local] Open Scope go_scope.

(** ** The order *)
#[export] Instance not_older_trans : Transitive not_older.
Proof. intros a b c. unfold not_older. lia. Qed.
#[export] Instance not_older_total : Total not_older.
Proof. intros a b. unfold not_older. lia. Qed.
#[export] Instance newer_trans : Transitive newer.
Proof. intros a b c. unfold newer. lia. Qed.
Lemma newer_irrefl s : ¬ newer s s.
Proof. unfold newer. lia. Qed.

Lemma sorted_strict (l : list Stored) : StronglySorted not_older l → NoDup (SdID <$> l) → StronglySorted newer l.
Proof.
  induction 1 as [|x l Hs IH Hx]; [constructor|]. rewrite fmap_cons. intros [Hn Hd]%NoDup_cons. constructor; [by apply IH|].
  rewrite Forall_forall in Hx |- *. intros y Hy. destruct (Hx y Hy) as [H|[E H]]; [by left|right]. split; [done|].
  assert (SdID y ≠ SdID x) by (intros E'; apply Hn; rewrite <- E'; by apply list_elem_of_fmap_2). lia.
Qed.

(** ** The log *)
Definition log_ok (m : AuditLog) : Prop := NoDup (SdID <$> al_rows m) ∧
  ∀ s, s ∈ al_rows m → (1 <= SdID s <= al_seq m)%Z ∧ in_int64 (SdID s) = true ∧ in_int64 (rowTS s) = true.
Definition stamps_ok (rows : list AuditRow) : Prop := ∀ r, r ∈ rows → in_int64 (ArTS r) = true.

Lemma insert_seq rows : ∀ m, al_seq (InsertAuditRows rows m) = (al_seq m + Z.of_nat (length rows))%Z.
Proof. induction rows as [|r rows IH]; intros m; cbn [InsertAuditRows length]; [lia|]. rewrite IH. cbn. lia. Qed.
Lemma insert_keeps rows : ∀ m s, s ∈ al_rows m → s ∈ al_rows (InsertAuditRows rows m).
Proof. induction rows as [|r rows IH]; intros m s Hs; [done|]. cbn. apply IH. cbn. apply elem_of_app. by left. Qed.
Lemma insert_ok rows : ∀ m, log_ok m → (0 <= al_seq m)%Z → (al_seq (InsertAuditRows rows m) <= max_int64)%Z → stamps_ok rows → log_ok (InsertAuditRows rows m).
Proof.
  induction rows as [|r rows IH]; intros m [Hn Hr] H0 Hmax Ht; [done|]. rewrite insert_seq in Hmax. cbn [length] in Hmax. cbn [InsertAuditRows]. apply IH.
  - split; cbn [al_rows al_seq].
    + rewrite fmap_app. apply NoDup_app. split_and!; [done| |apply NoDup_singleton]. intros x (s & -> & Hs)%list_elem_of_fmap Hx. apply list_elem_of_singleton in Hx. cbn in Hx.
      destruct (Hr s Hs) as [? _]. lia.
    + intros s [Hs| ->%list_elem_of_singleton]%elem_of_app.
      * destruct (Hr s Hs) as (? & ? & ?). split_and!; try done; lia.
      * cbn. split_and!; [lia|lia| |apply Ht; by left]. unfold in_int64. apply andb_true_iff. split; apply Z.leb_le; [unfold min_int64|]; lia.
  - cbn. lia.
  - rewrite insert_seq. cbn. lia.
  - intros x Hx. apply Ht. by right.
Qed.

Section Match.
Context (tid : string) (pf : AuditPageFilter).
Notation found := (auditMatch tid pf).
Lemma elem_of_match m s : s ∈ found m ↔ s ∈ al_rows m ∧ matches tid pf s = true.
Proof. unfold auditMatch. rewrite merge_sort_Permutation, list_elem_of_filter. tauto. Qed.
Lemma match_sorted m : log_ok m → StronglySorted newer (found m).
Proof.
  intros [Hn _]. apply sorted_strict; [apply StronglySorted_merge_sort; apply _|]. unfold auditMatch. rewrite merge_sort_Permutation.
  eapply sublist_NoDup; [exact Hn|]. apply fmap_sublist, sublist_filter.
Qed.
End Match.

(** ** Sorted lists *)
Lemma sorted_filter (P : Stored → Prop) `{!∀ x, Decision (P x)} (l : list Stored) : StronglySorted newer l → StronglySorted newer (filter P l).
Proof.
  induction 1 as [|x l Hs IH Hx]; [constructor|]. rewrite filter_cons. case_decide; [|done]. constructor; [done|].
  rewrite Forall_forall in Hx |- *. intros y [_ Hy]%list_elem_of_filter. by apply Hx.
Qed.
(** The cut of a sorted list after its entry [n]. *)
Lemma sorted_cut (l : list Stored) n x : StronglySorted newer l → l !! n = Some x →
  (∀ s, s ∈ take (S n) l → s = x ∨ newer s x) ∧ (∀ s, s ∈ drop (S n) l → newer x s).
Proof.
  intros Hs Hx. rewrite <- (take_drop (S n) l) in Hs. rewrite (take_S_r _ _ _ Hx) in *. split.
  - intros s [Hin|Hin%list_elem_of_singleton]%elem_of_app; [right|by left]. apply StronglySorted_app_1_l in Hs. eapply StronglySorted_app_1_elem_of; [exact Hs|done|by left].
  - intros s Hin. eapply StronglySorted_app_1_elem_of; [exact Hs| |done]. apply elem_of_app. right. by left.
Qed.

(** ** Cursors *)
Lemma format_lacks n : lacks "." (FormatInt n) = true.
Proof.
  assert (Hd : ∀ s, str_all is_digit s = true → lacks "." s = true).
  { intros s. apply str_all_impl. intros c Hc. apply negb_true_iff. unfold is_char. apply bool_decide_eq_false. intros ->. by vm_compute in Hc. }
  unfold FormatInt. destruct (n <? 0)%Z eqn:E.
  - apply lacks_cons. split; [done|]. apply Hd, format_nonneg_spec. apply Z.ltb_lt in E. lia.
  - apply Hd, format_nonneg_spec. apply Z.ltb_ge in E. lia.
Qed.
Lemma parse_cursor_text x : (1 <= SdID x)%Z → in_int64 (SdID x) = true → in_int64 (rowTS x) = true → parseCursor (cursor_text x) = Ok (rowTS x, SdID x).
Proof.
  intros H1 Hi Ht. unfold parseCursor, cursor_text. change ("." +:+ FormatInt (SdID x)) with (String "." (FormatInt (SdID x))). rewrite cut_app by apply format_lacks.
  rewrite !ParseInt_FormatInt by done. by rewrite (proj2 (Z.ltb_ge _ _)) by lia.
Qed.
Lemma cursor_text_nonempty x : cursor_text x ≠ "".
Proof. unfold cursor_text. by destruct (FormatInt (rowTS x)). Qed.

(** The rows after row [p], from the start when there is none. *)
Definition after_row (p : option Stored) (s : Stored) : bool := match p with None => true | Some x => after_cursor (Some (rowTS x)) (SdID x) s end.
Definition cursor_of (p : option Stored) : string := from_option cursor_text "" p.
Definition row_fine (x : Stored) : Prop := (1 <= SdID x)%Z ∧ in_int64 (SdID x) = true ∧ in_int64 (rowTS x) = true.
Lemma after_row_iff x s : (1 <= SdID x)%Z → after_row (Some x) s = true ↔ newer x s.
Proof.
  intros H1. unfold after_row, after_cursor, newer. destruct (rowTS s <? rowTS x)%Z eqn:E1; cbn [negb andb].
  - apply Z.ltb_lt in E1. split; [by left|done].
  - apply Z.ltb_ge in E1. rewrite (proj2 (Z.leb_gt _ _)) by lia. cbn [orb]. destruct (rowTS s =? rowTS x)%Z eqn:E2; cbn [negb orb].
    + apply Z.eqb_eq in E2. rewrite negb_true_iff, Z.leb_gt. lia.
    + apply Z.eqb_neq in E2. split; [done|]. lia.
Qed.

(** A strictly sorted list is determined by its elements. *)
Lemma sorted_same (l l' : list Stored) : StronglySorted newer l → StronglySorted newer l' → (∀ s, s ∈ l ↔ s ∈ l') → l = l'.
Proof.
  intros Hl. revert l'. induction Hl as [|a l Hl IH Ha]; intros l' Hl' He.
  - destruct l' as [|b l']; [done|]. exfalso. apply (not_elem_of_nil b), He. by left.
  - destruct Hl' as [|b l' Hl' Hb]; [exfalso; apply (not_elem_of_nil a), He; by left|]. rewrite Forall_forall in Ha, Hb.
    assert (a = b) as ->.
    { destruct (proj1 (elem_of_cons _ _ _) (proj1 (He a) ltac:(by left))) as [?|Hab]; [done|].
      destruct (proj1 (elem_of_cons _ _ _) (proj2 (He b) ltac:(by left))) as [?|Hba]; [done|].
      destruct (newer_irrefl a). transitivity b; [by apply Ha|by apply Hb]. }
    f_equal. apply IH; [done|]. intros s. specialize (He s). rewrite !elem_of_cons in He.
    split; intros Hs; [destruct (proj1 He ltac:(by right)) as [->|?]|destruct (proj2 He ltac:(by right)) as [->|?]]; try done; exfalso;
      [by apply (newer_irrefl b), Ha|by apply (newer_irrefl b), Hb].
Qed.

Section Paging.
Context {Req : Type} (Window : list Stored → Req → list Stored * Z * Req) (ListRequest : Req → Req) (ascending : Req → bool) (first_page : Req).
Context (tid : string) (f : Filter_).
Notation QueryM := (Query Window ListRequest ascending first_page tid).
Definition with_cursor (c : string) : Filter_ := mkFilter (FiUserID f) (FiEventType f) (FiFrom f) (FiTo f) c (FiLimit f).
(** The window of a call at [now]. *)
Definition window_of (now : Z) : AuditPageFilter :=
  let to := default (now + Dur.minute)%Z (FiTo f) in mkPageFilter (FiUserID f) (FiEventType f) (Some (default (to - AuditWindow)%Z (FiFrom f))) (Some to).
Definition accepted (now : Z) : Prop := validate_filter f = None ∧ checkSpan (FiFrom f) (FiTo f) now = None.
Definition remaining (now : Z) (p : option Stored) (m : AuditLog) : list Stored := filter (λ s, after_row p s = true) (auditMatch tid (window_of now) m).
Definition size : nat := Z.to_nat (page_limit (FiLimit f)).
Lemma size_pos : (0 < size)%nat.
Proof. unfold size, page_limit. destruct (_ || _) eqn:E; [lia|]. apply orb_false_iff in E as [E%Z.leb_gt _]. lia. Qed.

(** One call returns the next rows and, when more are left, the cursor of the
    last one. *)
Lemma Query_page now p m page : (∀ x, p = Some x → row_fine x) → QueryM (with_cursor (cursor_of p)) now m = Ok page →
  ApItems page = item <$> take size (remaining now p m) ∧
  (ApNextCursor page = "" ∧ (length (remaining now p m) <= size)%nat ∨
   ∃ x, remaining now p m !! (size - 1)%nat = Some x ∧ ApNextCursor page = cursor_text x ∧ (size < length (remaining now p m))%nat).
Proof.
  intros Hp E. unfold Query in E. cbn [with_cursor FiFrom FiTo FiCursor FiLimit FiUserID FiEventType] in E. destruct (validate_filter _); [done|]. destruct (checkSpan _ _ _); [done|].
  assert (Hc : (if bool_decide (cursor_of p = "") then Ok (None, 0%Z) else rbind (parseCursor (cursor_of p)) (λ c, Ok (Some c.1, c.2))) =
    Ok (rowTS <$> p, from_option SdID 0%Z p)).
  { destruct p as [x|]; [|done]. cbn [cursor_of from_option]. rewrite bool_decide_eq_false_2 by apply cursor_text_nonempty. destruct (Hp x eq_refl) as (H1 & H2 & H3). by rewrite parse_cursor_text. }
  rewrite Hc in E. cbn [rbind fst snd] in E. clear Hc. destruct (PageAudit _ _ _ _ _ _ _) as [[x1 total] x2]. injection E as <-. cbn [ApItems ApNextCursor].
  assert (Hrows : QueryAudit tid (FiUserID f) (FiEventType f) (PfFrom (window_of now)) (PfTo (window_of now)) (rowTS <$> p) (from_option SdID 0%Z p) (page_limit (FiLimit f) + 1) m = take (S size) (remaining now p m)).
  { unfold QueryAudit, remaining. pose proof size_pos as Hs. unfold size in *. rewrite (proj2 (Z.ltb_lt _ _)) by lia. replace (Z.to_nat (page_limit (FiLimit f) + 1)) with (S (Z.to_nat (page_limit (FiLimit f)))) by lia.
    f_equal. by destruct p as [x|]. }
  cbn [window_of PfFrom PfTo] in Hrows. rewrite Hrows. fold size. rewrite take_take, Nat.min_l by lia. split; [done|].
  rewrite length_take. pose proof size_pos. destruct (size <? _)%nat eqn:El; [right|left].
  - apply Nat.ltb_lt in El. rewrite lookup_take_lt by lia. destruct (lookup_lt_is_Some_2 (remaining now p m) (size - 1)) as [x Hx]; [lia|]. exists x. rewrite Hx. split_and!; [done|done|lia].
  - apply Nat.ltb_ge in El. split; [done|lia].
Qed.

Lemma fine_of now p m x : log_ok m → x ∈ remaining now p m → row_fine x.
Proof. intros [_ Hr] [_ [Hx _]%elem_of_match]%list_elem_of_filter. destruct (Hr x Hx) as ([? _] & ? & ?). done. Qed.
Lemma remaining_sorted now p m : log_ok m → StronglySorted newer (remaining now p m).
Proof. intros Hm. apply sorted_filter. by apply match_sorted. Qed.
(** What is left after the last row of a page. *)
Lemma remaining_next now p m x : log_ok m → (∀ y, p = Some y → row_fine y) → remaining now p m !! (size - 1)%nat = Some x → remaining now (Some x) m = drop size (remaining now p m).
Proof.
  intros Hm Hp Hx. pose proof size_pos as Hs. assert (Hin : x ∈ remaining now p m) by (by apply list_elem_of_lookup_2 in Hx). destruct (fine_of now p m x Hm Hin) as [H1 _].
  destruct (sorted_cut _ _ _ (remaining_sorted now p m Hm) Hx) as [C1 C2]. replace (S (size - 1)) with size in * by lia.
  rewrite <- (filter_drop (λ s, after_row (Some x) s = true) (remaining now p m) size).
  - unfold remaining at 2. rewrite list_filter_filter_l; [done|]. intros s. rewrite after_row_iff by done. intros Hn. destruct p as [y|]; [|done]. destruct (Hp y eq_refl) as [Hy _].
    apply list_elem_of_filter in Hin as [Hin _]. rewrite after_row_iff in Hin |- * by done. by transitivity x.
  - intros s Hs'. rewrite after_row_iff by done. intros Hn. destruct (C1 s Hs') as [->|Hn']; [by apply (newer_irrefl x)|]. apply (newer_irrefl x). by transitivity s.
  - intros s Hs'. rewrite after_row_iff by done. by apply C2.
Qed.

Lemma remaining_mono now p m m' s : (∀ x, x ∈ al_rows m → x ∈ al_rows m') → s ∈ remaining now p m → s ∈ remaining now p m'.
Proof. intros Hm. unfold remaining. rewrite !list_elem_of_filter, !elem_of_match. intros (? & ? & ?). auto. Qed.
Lemma remaining_from now p x m s : (1 <= SdID x)%Z → s ∈ remaining now p m → newer x s → s ∈ remaining now (Some x) m.
Proof. intros H1 [_ Hs]%list_elem_of_filter Hn. apply list_elem_of_filter. split; [by apply after_row_iff|done]. Qed.
Lemma remaining_back now now' p x m m' s : (∀ y, p = Some y → row_fine y) → row_fine x → x ∈ remaining now p m → s ∈ remaining now' (Some x) m' →
  s ∈ remaining now' p m' ∧ newer x s.
Proof.
  intros Hp [Hx _] Hin [Ha Hmt]%list_elem_of_filter. apply after_row_iff in Ha; [|done]. split; [|done]. apply list_elem_of_filter. split; [|done].
  destruct p as [y|]; [|done]. destruct (Hp y eq_refl) as [Hy _]. apply list_elem_of_filter in Hin as [Hin _]. rewrite after_row_iff in Hin |- * by done. by transitivity x.
Qed.
(** A page put in front of what the following calls show. *)
Lemma page_then now p m x rows : log_ok m → (∀ y, p = Some y → row_fine y) → remaining now p m !! (size - 1)%nat = Some x →
  StronglySorted newer rows → (∀ s, s ∈ rows → newer x s) →
  StronglySorted newer (take size (remaining now p m) ++ rows) ∧
  ∀ s, s ∈ remaining now p m → newer x s ∨ s ∈ take size (remaining now p m) ++ rows.
Proof.
  intros Hm Hp Hx Hs Hlater. pose proof size_pos as Hsz. destruct (sorted_cut _ _ _ (remaining_sorted now p m Hm) Hx) as [C1 C2].
  replace (S (size - 1)) with size in * by lia. split.
  - apply StronglySorted_app. split_and!; [|eapply StronglySorted_app_1_l; rewrite take_drop; by apply remaining_sorted|done].
    intros a b Ha Hb. destruct (C1 a Ha) as [->|Hax]; [by apply Hlater|]. transitivity x; [done|by apply Hlater].
  - intros s Hs'. rewrite <- (take_drop size (remaining now p m)) in Hs'. apply elem_of_app in Hs' as [Hs'|Hs']; [right; apply elem_of_app; by left|left; by apply C2].
Qed.

(** An administrator follows the cursors to the end while time passes and
    events are written in between: the times of the calls, the log at the
    start and at the end, and what was shown. *)
Inductive paging : list Z → AuditLog → string → AuditLog → list AuditItem → Prop :=
  | pg_last now m c page : QueryM (with_cursor c) now m = Ok page → ApNextCursor page = "" → paging [now] m c m (ApItems page)
  | pg_more now times m c page rows m' items : QueryM (with_cursor c) now m = Ok page → ApNextCursor page ≠ "" → stamps_ok rows → (al_seq (InsertAuditRows rows m) <= max_int64)%Z →
      paging times (InsertAuditRows rows m) (ApNextCursor page) m' items → paging (now :: times) m c m' (ApItems page ++ items).
Lemma paging_grows times m c m' items : paging times m c m' items → ∀ s, s ∈ al_rows m → s ∈ al_rows m'.
Proof. induction 1 as [|now times m c page new m' items _ _ _ _ _ IH]; [done|]. intros s Hs. by apply IH, insert_keeps. Qed.
Lemma paging_rows times m c m' items : paging times m c m' items → ∀ p, c = cursor_of p → (∀ x, p = Some x → row_fine x) → log_ok m → (0 <= al_seq m)%Z →
  ∃ rows, items = item <$> rows ∧ StronglySorted newer rows ∧
    (∀ s, (∀ now, now ∈ times → s ∈ remaining now p m) → s ∈ rows) ∧ (∀ s, s ∈ rows → ∃ now, now ∈ times ∧ s ∈ remaining now p m').
Proof.
  induction 1 as [now m c page Hq Hn|now times m c page new m' items Hq Hn Hst Hmax Hpg IH]; intros p -> Hp Hm H0; apply Query_page in Hq as [Ei Hc]; try done.
  - destruct Hc as [[_ Hl]|(x & _ & Ex & _)]; [|rewrite Ex in Hn; by apply cursor_text_nonempty in Hn]. rewrite take_ge in Ei by done.
    exists (remaining now p m). split_and!; [done|by apply remaining_sorted| |].
    + intros s Hs. apply Hs. by left.
    + intros s Hs. exists now. split; [by left|done].
  - destruct Hc as [[Ex _]|(x & Hx & Ex & _)]; [congruence|]. assert (Hin : x ∈ remaining now p m) by (by apply list_elem_of_lookup_2 in Hx). pose proof (fine_of _ _ _ _ Hm Hin) as Hfx.
    destruct (IH (Some x) Ex ltac:(by intros ? [= <-]) (insert_ok _ _ Hm H0 Hmax Hst)) as (rows & -> & Hs & Hall & Hsub); [rewrite insert_seq; lia|].
    assert (Hback : ∀ s, s ∈ rows → (∃ now', now' ∈ times ∧ s ∈ remaining now' p m') ∧ newer x s).
    { intros s Hs'. apply Hsub in Hs' as (now' & Hn' & Hs'). destruct (remaining_back now now' p x m m' s Hp Hfx Hin Hs'). eauto. }
    destruct (page_then now p m x rows Hm Hp Hx Hs ltac:(intros s Hs'; by apply Hback)) as [P1 P2].
    exists (take size (remaining now p m) ++ rows). split_and!; [by rewrite fmap_app, Ei|done| |].
    + intros s Hs'. destruct (P2 s ltac:(apply Hs'; by left)) as [Hxs|?]; [|done]. apply elem_of_app. right. apply Hall. intros now' Hn'.
      eapply remaining_mono; [apply insert_keeps|]. eapply remaining_from; [apply Hfx| |done]. apply Hs'. by right.
    + intros s [Hs'|Hs']%elem_of_app.
      * exists now. split; [by left|]. apply elem_of_take in Hs' as (i & Hi & _). apply list_elem_of_lookup_2 in Hi. eapply remaining_mono; [|exact Hi]. intros y Hy. by apply (paging_grows _ _ _ _ _ Hpg), insert_keeps.
      * destruct (Hback s Hs') as [(now' & Hn' & ?) _]. exists now'. split; [by right|done].
Qed.

(** C39. Nobody can slip an event past an administrator who pages through the log:
    whatever is written in between and however long the calls are apart, the
    pages put together are strictly newest first, so nothing is shown twice;
    they show every event that matched when the reading began and is inside
    the window of each call (every matching event, when the filter gives From
    and To; the default window of seven days ends a minute after the call and
    moves with it), and only events inside the window of one of the calls. *)
Theorem audit_pages_complete times m m' items : log_ok m → (0 <= al_seq m)%Z → paging times m "" m' items →
  ∃ rows, items = item <$> rows ∧ StronglySorted newer rows ∧
    (∀ s, (∀ now, now ∈ times → s ∈ auditMatch tid (window_of now) m) → s ∈ rows) ∧
    (∀ s, s ∈ rows → ∃ now, now ∈ times ∧ s ∈ auditMatch tid (window_of now) m').
Proof.
  intros Hm H0 Hp. destruct (paging_rows times m "" m' items Hp None eq_refl ltac:(done) Hm H0) as (rows & H1 & H2 & H3 & H4). exists rows. split_and!; try done.
  - intros s Hs. apply H3. intros now Hn. apply list_elem_of_filter. auto.
  - intros s Hs. destruct (H4 s Hs) as (now & Hn & [_ ?]%list_elem_of_filter). eauto.
Qed.

(** The reader's loop over a log that does not change; [clock] gives the time
    of each call. *)
Fixpoint read_all (fuel : nat) (clock : nat → Z) (c : string) (m : AuditLog) : option (list AuditItem) :=
  match fuel with
  | O => None
  | S k => match QueryM (with_cursor c) (clock 0%nat) m with
           | Err _ => None
           | Ok page => if bool_decide (ApNextCursor page = "") then Some (ApItems page)
                        else (λ l, ApItems page ++ l) <$> read_all k (λ i, clock (S i)) (ApNextCursor page) m
           end
  end.
Lemma Query_answers now c m : accepted now → (∃ p, c = cursor_of p ∧ ∀ x, p = Some x → row_fine x) → ∃ page, QueryM (with_cursor c) now m = Ok page.
Proof.
  intros [Hv Hs] (p & -> & Hp). unfold Query. cbn [with_cursor FiFrom FiTo FiCursor FiLimit FiUserID FiEventType]. 
  change (validate_filter (with_cursor (cursor_of p))) with (validate_filter f). rewrite Hv, Hs.
  case_bool_decide as E; cbn [rbind].
  - destruct (PageAudit _ _ _ _ _ _ _) as [[x1 x2] x3]. by eexists.
  - destruct p as [x|]; [|done]. destruct (Hp x eq_refl) as (H1 & H2 & H3). cbn [cursor_of from_option]. rewrite parse_cursor_text by done. cbn [rbind fst snd]. destruct (PageAudit _ _ _ _ _ _ _) as [[x1 x2] x3]. by eexists.
Qed.

(** The rows a cursor still leaves; every page moves it. *)
Definition ahead (p : option Stored) (m : AuditLog) : nat := length (filter (λ s, after_row p s = true) (al_rows m)).
Lemma ahead_moves now p m x : log_ok m → (∀ y, p = Some y → row_fine y) → x ∈ remaining now p m → (ahead (Some x) m < ahead p m)%nat.
Proof.
  intros Hm Hp Hx. pose proof (fine_of _ _ _ _ Hm Hx) as Hfx. destruct Hfx as [H1 _].
  apply list_elem_of_filter in Hx as [Hx [Hrow _]%elem_of_match]. unfold ahead.
  assert (Hsub : ∀ s, after_row (Some x) s = true → after_row p s = true).
  { intros s. rewrite after_row_iff by done. intros Hn. destruct p as [y|]; [|done]. destruct (Hp y eq_refl) as [Hy _]. rewrite after_row_iff in Hx |- * by done. by transitivity x. }
  assert (Hnot : after_row (Some x) x ≠ true) by (rewrite after_row_iff by done; apply newer_irrefl).
  clear Hm Hp H1. induction (al_rows m) as [|y l IH]; [by apply elem_of_nil in Hrow|]. rewrite !filter_cons.
  assert (Hle : (length (filter (λ s, after_row (Some x) s = true) l) <= length (filter (λ s, after_row p s = true) l))%nat).
  { clear -Hsub. induction l as [|z l IH]; [done|]. rewrite !filter_cons. repeat case_decide; cbn [length]; try lia. naive_solver. }
  apply elem_of_cons in Hrow as [<-|Hrow].
  - rewrite decide_False, decide_True by done. cbn [length]. lia.
  - specialize (IH Hrow). repeat case_decide; cbn [length]; try lia. naive_solver.
Qed.

Lemma read_all_rows m : log_ok m → ∀ fuel clock p, (∀ k, accepted (clock k)) → (∀ x, p = Some x → row_fine x) → (ahead p m < fuel)%nat →
  ∃ rows, read_all fuel clock (cursor_of p) m = Some (item <$> rows) ∧ StronglySorted newer rows ∧
    (∀ s, (∀ k, s ∈ remaining (clock k) p m) → s ∈ rows) ∧ (∀ s, s ∈ rows → ∃ k, s ∈ remaining (clock k) p m).
Proof.
  intros Hm. induction fuel as [|n IH]; intros clock p Ha Hp Hl; [lia|]. cbn [read_all].
  destruct (Query_answers (clock 0%nat) (cursor_of p) m (Ha 0%nat)) as [page Hq]; [by exists p|]. rewrite Hq.
  apply Query_page in Hq as [Ei Hc]; [|done]. destruct Hc as [[-> Hle]|(x & Hx & Ex & _)].
  - rewrite bool_decide_eq_true_2 by done. rewrite Ei, take_ge by done. exists (remaining (clock 0%nat) p m). split_and!; [done|by apply remaining_sorted|done|eauto].
  - rewrite Ex, bool_decide_eq_false_2 by apply cursor_text_nonempty. assert (Hin : x ∈ remaining (clock 0%nat) p m) by (by apply list_elem_of_lookup_2 in Hx). pose proof (fine_of _ _ _ _ Hm Hin) as Hfx.
    pose proof (ahead_moves _ _ _ _ Hm Hp Hin). change (cursor_text x) with (cursor_of (Some x)).
    destruct (IH (λ i, clock (S i)) (Some x)) as (rows & -> & Hs & Hall & Hsub); [by intros k|by intros ? [= <-]|lia|].
    assert (Hback : ∀ s, s ∈ rows → (∃ k, s ∈ remaining (clock k) p m) ∧ newer x s).
    { intros s Hs'. apply Hsub in Hs' as (k & Hs'). destruct (remaining_back (clock 0%nat) (clock (S k)) p x m m s Hp Hfx Hin Hs'). eauto. }
    destruct (page_then (clock 0%nat) p m x rows Hm Hp Hx Hs ltac:(intros s Hs'; by apply Hback)) as [P1 P2].
    exists (take size (remaining (clock 0%nat) p m) ++ rows). cbn [fmap option_fmap option_map]. split_and!; [by rewrite Ei, <- fmap_app|done| |].
    + intros s Hs'. destruct (P2 s (Hs' 0%nat)) as [Hxs|?]; [|done]. apply elem_of_app. right. apply Hall. intros k.
      eapply remaining_from; [apply Hfx|apply Hs'|done].
    + intros s [Hs'|Hs']%elem_of_app; [|by apply Hback]. exists 0%nat. apply elem_of_take in Hs' as (i & Hi & _). by apply list_elem_of_lookup_2 in Hi.
Qed.

(** C40. Reading ends: whatever the times of the calls (each accepting the filter),
    following the cursors over a log that does not change takes at most one
    call more than the log has rows.  The pages are strictly newest first, show
    every event that is in the window of each call and only events in the
    window of one; so when the window does not move (From and To are given, or
    no time passes) they show exactly the matching events. *)
Theorem audit_reading_ends clock m fuel : log_ok m → (∀ k, accepted (clock k)) → (length (al_rows m) < fuel)%nat →
  ∃ rows, read_all fuel clock "" m = Some (item <$> rows) ∧ StronglySorted newer rows ∧
    (∀ s, (∀ k, s ∈ auditMatch tid (window_of (clock k)) m) → s ∈ rows) ∧
    (∀ s, s ∈ rows → ∃ k, s ∈ auditMatch tid (window_of (clock k)) m) ∧
    ((FiFrom f ≠ None ∧ FiTo f ≠ None) ∨ (∀ k, clock k = clock 0%nat) → rows = auditMatch tid (window_of (clock 0%nat)) m).
Proof.
  intros Hm Ha Hl. destruct (read_all_rows m Hm fuel clock None Ha ltac:(done)) as (rows & H1 & H2 & H3 & H4).
  { unfold ahead. eapply Nat.le_lt_trans; [apply length_filter|done]. }
  exists rows. split_and!; [done..| | |].
  - intros s Hs. apply H3. intros k. apply list_elem_of_filter. auto.
  - intros s Hs. destruct (H4 s Hs) as (k & [_ ?]%list_elem_of_filter). eauto.
  - intros Hfix. assert (Hw : ∀ k, window_of (clock k) = window_of (clock 0%nat)).
    { intros k. destruct Hfix as [[F1 F2]|Hs]; [|by rewrite (Hs k)]. unfold window_of. by destruct (FiFrom f), (FiTo f). }
    apply sorted_same; [done|by apply match_sorted|]. intros s. split.
    + intros Hs. destruct (H4 s Hs) as (k & [_ Hk]%list_elem_of_filter). by rewrite Hw in Hk.
    + intros Hs. apply H3. intros k. apply list_elem_of_filter. by rewrite Hw.
Qed.
End Paging.

(** ** A concrete reading: three events of one instant, pages of one event *)
Definition ev (ts : Z) (typ : string) : AuditRow := mkAuditRow ts "t1" typ (Some "u1") "user" "" "" None "ok" "" "" "" "" "" [].
Definition log0 : AuditLog := mkLog 0 [].
Definition log1 : AuditLog := InsertAuditRows [ev 7 SigninOK; ev 7 Signout; ev 5 SigninOK] log0.
Definition filter1 : Filter_ := mkFilter "" "" (Some 0%Z) (Some 100%Z) "" 1.
Definition window1 (l : list Stored) (r : unit) : list Stored * Z * unit := (l, Z.of_nat (length l), r).
Notation queryE c m := (Query window1 (λ r, r) (λ _, false) tt "t1" (with_cursor filter1 c) 50 m).
Lemma log0_ok : log_ok log0.
Proof. split; [constructor|]. intros s Hs. by apply elem_of_nil in Hs. Qed.
Lemma ev_stamps ts l : in_int64 ts = true → (∀ r, r ∈ l → ArTS r = ts) → stamps_ok l.
Proof. intros Ht Hl r Hr. by rewrite (Hl r Hr). Qed.
Lemma log1_ok : log_ok log1.
Proof.
  apply insert_ok; [apply log0_ok|done|vm_compute; discriminate|]. intros r Hr. repeat (apply elem_of_cons in Hr as [->|Hr]; [reflexivity|]). by apply elem_of_nil in Hr.
Qed.

(** A second passes between the calls. *)
Definition ticking (k : nat) : Z := (50 + Z.of_nat k * Dur.second)%Z.
Lemma audit_reading_ends_witness :
  read_all window1 (λ r, r) (λ _, false) tt "t1" filter1 4 ticking "" log1 = Some (item <$> auditMatch "t1" (window_of filter1 50) log1) ∧ length (auditMatch "t1" (window_of filter1 50) log1) = 3%nat.
Proof.
  split; [|vm_compute; reflexivity].
  destruct (audit_reading_ends window1 (λ r, r) (λ _, false) tt "t1" filter1 ticking log1 4 log1_ok) as (rows & E & _ & _ & _ & Hr).
  - intros k. split; vm_compute; reflexivity.
  - vm_compute. lia.
  - rewrite E, Hr; [reflexivity|]. left. split; discriminate.
Defined.

(** Without From and To the window moves with the calls: of two events at its
    old end the second page, a second later, no longer shows the other one. *)
Definition filter0 : Filter_ := mkFilter "" "" None None "" 1.
Definition oldEnd : Z := (Dur.minute - AuditWindow)%Z.
Definition log3 : AuditLog := InsertAuditRows [ev oldEnd SigninOK; ev oldEnd Signout] log0.
Example moving_window_drops :
  length (auditMatch "t1" (window_of filter0 0) log3) = 2%nat ∧
  length <$> read_all window1 (λ r, r) (λ _, false) tt "t1" filter0 4 (λ _, 0%Z) "" log3 = Some 2%nat ∧
  length <$> read_all window1 (λ r, r) (λ _, false) tt "t1" filter0 4 (λ k, (Z.of_nat k * Dur.second)%Z) "" log3 = Some 1%nat.
Proof. vm_compute. split_and!; reflexivity. Qed.
(** An event written after the first page. *)
Definition page1 : AuditPage := match queryE "" log1 with Ok p => p | Err _ => mkAuditPage [] "" 0 end.
Definition log2 : AuditLog := InsertAuditRows [ev 6 SigninOK] log1.
Lemma audit_pages_complete_witness : ∃ m' items, paging window1 (λ r, r) (λ _, false) tt "t1" filter1 [50; 51; 52; 53]%Z log1 "" m' items ∧
  length items = 4%nat ∧ ∃ rows, items = item <$> rows ∧ ∀ s, s ∈ auditMatch "t1" (window_of filter1 0) log1 → s ∈ rows.
Proof.
  assert (Hp : ∃ items, length items = 4%nat ∧ paging window1 (λ r, r) (λ _, false) tt "t1" filter1 [50; 51; 52; 53]%Z log1 "" log2 items).
  { eexists. split; [|eapply (pg_more window1 (λ r, r) (λ _, false) tt "t1" filter1 50 [51; 52; 53]%Z log1 "" page1 [ev 6 SigninOK]); [vm_compute; reflexivity|vm_compute; discriminate| |vm_compute; discriminate|]].
    3: { eapply (pg_more window1 (λ r, r) (λ _, false) tt "t1" filter1 51 [52; 53]%Z log2 _ _ []); [vm_compute; reflexivity|vm_compute; discriminate|by intros r Hr%elem_of_nil|vm_compute; discriminate|].
         eapply (pg_more window1 (λ r, r) (λ _, false) tt "t1" filter1 52 [53]%Z log2 _ _ []); [vm_compute; reflexivity|vm_compute; discriminate|by intros r Hr%elem_of_nil|vm_compute; discriminate|].
         eapply (pg_last window1 (λ r, r) (λ _, false) tt "t1" filter1 53 log2); vm_compute; reflexivity. }
    - vm_compute. reflexivity.
    - apply (ev_stamps 6); [done|]. by intros r ->%list_elem_of_singleton. }
  destruct Hp as (items & Hl & Hp). exists log2, items. split; [exact Hp|]. split; [exact Hl|].
  destruct (audit_pages_complete window1 (λ r, r) (λ _, false) tt "t1" filter1 [50; 51; 52; 53]%Z log1 log2 items log1_ok ltac:(vm_compute; discriminate) Hp) as (rows & H1 & _ & H3 & _).
  exists rows. split; [exact H1|]. intros s Hs. apply H3. intros now _. exact Hs.
Defined.
