(* ===== verification/Session.v ===== *)
(** * Browser sessions (internal/session/session.go)

    The manager resolves a cookie secret through a cached view (sess:<hash>)
    with a database fallback, enforces absolute and idle expiry and the
    revocation marks, rotates secrets, and fans revocations out to the rows,
    the feed and the marks.  [SessionStore] is the Go interface [Store];
    [SessionStoreLaws] states what its operations do to the session rows. *)
From S2P Require Import Prelude GoStrings Regex PermRef TenantCtx Models Cache AuditEvents.
#[local] Open Scope go_scope.

Definition ReasonSignout := "signout".
Definition ReasonUserRevoked := "user_revoked".
Definition ReasonAdmin := "admin_revoked".
Definition ReasonPassword := "password_changed".
Definition ReasonDeactivated := "user_deactivated".
Definition ReasonSuspended := "tenant_suspended".
Definition ReasonIdle := "idle_timeout".
Definition ReasonExpired := "expired".

Definition RevocationRetention : Z := 60 * Dur.minute.
Definition RenewGrace : Z := Dur.minute.
Definition RenewMinInterval : Z := 30 * Dur.second.

(** ** The persistence interface; the clock argument is the database's now() *)
Class SessionStore (S : Type) : Type := {
  ss_insert : Session → M S unit;
  ss_get_by_hash : string → M S Session;
  ss_get : string → string → M S Session;
  ss_list_user : Z → string → string → M S (list Session);
  ss_touch : Z → string → string → M S unit;
  ss_renew : Z → string → string → string → Z → M S unit;
  ss_revoke : Z → string → string → string → M S unit;
  ss_revoke_user : Z → string → string → string → string → M S unit;
  ss_revoke_tenant : Z → string → string → M S unit;
  ss_insert_revocation : Revocation → M S unit;
  ss_revocations_since : Z → Z → M S (list Revocation);
  ss_tenant : string → M S Tenant;
  ss_roles : string → string → M S (list string);
  ss_user : string → string → M S User;
}.

(** ** The cached projection of a session *)
Record view : Type := mkView {
  vID : string; vTenantID : string; vUserID : string;
  vRoles : list string; vAMR : list string;
  vOperator : bool;
  vCreatedAt : Z; vLastSeen : Z; vExpiresAt : Z;
  vIdle : Z;
  vPolicyVersion : Z;
  vDisplayName : string; vAvatarURL : string;
  vRenewedAt : option Z;
  vGraceUntil : option Z;
}.
#[global] Instance view_eq_dec : EqDecision view.
Proof. solve_decision. Defined.

(** json.Marshal / json.Unmarshal of a view. *)
Definition view_json (v : view) : json := JObj [
  ("ID", JStr (vID v)); ("TenantID", JStr (vTenantID v)); ("UserID", JStr (vUserID v));
  ("Roles", JList (vRoles v)); ("AMR", JList (vAMR v)); ("Operator", JBool (vOperator v));
  ("CreatedAt", JTime (Some (vCreatedAt v))); ("LastSeen", JTime (Some (vLastSeen v)));
  ("ExpiresAt", JTime (Some (vExpiresAt v))); ("Idle", JInt (vIdle v));
  ("PolicyVersion", JInt (vPolicyVersion v)); ("DisplayName", JStr (vDisplayName v));
  ("AvatarURL", JStr (vAvatarURL v)); ("RenewedAt", JTime (vRenewedAt v));
  ("GraceUntil", JTime (vGraceUntil v))].

(** The zero time.Time, 1 January of year 1. *)
Definition zero_time : Z := -62135596800000000000.

Definition f_time0 (n : string) l : option Z :=
  match f_time n l with Some t => Some (default zero_time t) | None => None end.

Definition view_of_json (j : json) : option view :=
  match j with
  | JObj l =>
      id ← f_str "ID" l; tid ← f_str "TenantID" l; uid ← f_str "UserID" l;
      roles ← f_list "Roles" l; amr ← f_list "AMR" l; op ← f_bool "Operator" l;
      ca ← f_time0 "CreatedAt" l; ls ← f_time0 "LastSeen" l; ex ← f_time0 "ExpiresAt" l;
      idle ← f_int "Idle" l; pv ← f_int "PolicyVersion" l; dn ← f_str "DisplayName" l;
      av ← f_str "AvatarURL" l; rn ← f_time "RenewedAt" l; gr ← f_time "GraceUntil" l;
      Some (mkView id tid uid roles amr op ca ls ex idle pv dn av rn gr)
  | _ => None
  end.

Lemma view_of_view_json v : view_of_json (view_json v) = Some v.
Proof. by destruct v. Qed.

(** ** The manager *)
Record Manager (S K : Type) : Type := mkManager {
  m_st : S;
  m_cache : option K;          (* nil in deployments without Valkey *)
  m_audit : list Event;
  m_now : Z;
  m_entropy : list string;     (* tokens crypto.RandomToken will draw *)
  m_ids : nat;                 (* number of identifiers drawn so far *)
}.
Arguments mkManager {S K}.
Arguments m_st {S K}. Arguments m_cache {S K}. Arguments m_audit {S K}.
Arguments m_now {S K}. Arguments m_entropy {S K}. Arguments m_ids {S K}.

Record CreateParams : Type := mkCreateParams {
  cpTenantID : string; cpUserID : string;
  cpRoles : list string; cpAMR : list string;
  cpOperator : bool;
  cpIPHash : string; cpUserAgent : string;
  cpPolicy : Policy;
}.

Record Renewal : Type := mkRenewal {
  rnSecret : string; rnSessionID : string; rnExpiresAt : Z; rnIdle : Z }.

Record View : Type := mkViewRow {
  ViewID : string; ViewCreatedAt : Z; ViewLastSeenAt : Z; ViewExpiresAt : Z;
  ViewCurrent : bool; ViewUserAgent : string }.

Definition clip (s : string) (n : nat) : string :=
  if (n <? String.length s)%nat then String.substring 0 n s else s.

Definition kindOrSystem (a : Actor) : string :=
  if decide (AKind a = KindNone) then kind_string KindSystem else kind_string (AKind a).

Definition actor (v : view) : Actor :=
  mkActor (if vOperator v then KindOperator else KindUser) (vUserID v) (vTenantID v) (vID v)
          (vRoles v) (vAMR v) "" (vDisplayName v) (vAvatarURL v).

Definition set_LastSeen (v : view) (t : Z) : view :=
  mkView (vID v) (vTenantID v) (vUserID v) (vRoles v) (vAMR v) (vOperator v) (vCreatedAt v) t
         (vExpiresAt v) (vIdle v) (vPolicyVersion v) (vDisplayName v) (vAvatarURL v) (vRenewedAt v) (vGraceUntil v).
Definition set_profile (v : view) (dn av : string) : view :=
  mkView (vID v) (vTenantID v) (vUserID v) (vRoles v) (vAMR v) (vOperator v) (vCreatedAt v) (vLastSeen v)
         (vExpiresAt v) (vIdle v) (vPolicyVersion v) dn av (vRenewedAt v) (vGraceUntil v).
Definition set_roles (v : view) (roles : list string) (pv : Z) : view :=
  mkView (vID v) (vTenantID v) (vUserID v) roles (vAMR v) (vOperator v) (vCreatedAt v) (vLastSeen v)
         (vExpiresAt v) (vIdle v) pv (vDisplayName v) (vAvatarURL v) (vRenewedAt v) (vGraceUntil v).
Definition set_Idle (v : view) (d : Z) : view :=
  mkView (vID v) (vTenantID v) (vUserID v) (vRoles v) (vAMR v) (vOperator v) (vCreatedAt v) (vLastSeen v)
         (vExpiresAt v) d (vPolicyVersion v) (vDisplayName v) (vAvatarURL v) (vRenewedAt v) (vGraceUntil v).
(** [grace.GraceUntil, grace.RenewedAt, grace.ExpiresAt = ...] *)
Definition set_grace (v : view) (grace renewed : option Z) (ex : Z) : view :=
  mkView (vID v) (vTenantID v) (vUserID v) (vRoles v) (vAMR v) (vOperator v) (vCreatedAt v) (vLastSeen v)
         ex (vIdle v) (vPolicyVersion v) (vDisplayName v) (vAvatarURL v) renewed grace.

Section Manager.
Context {S K : Type} `{SessionStore S} `{KV K}.
(** crypto.HashToken (SHA-256 of the token) and store.NewID (the n-th
    identifier the process draws). *)
Context (HashToken : string → string) (newID : nat → string).
Notation W := (Manager S K).

Definition storeM {A} (m : M S A) : M W A := λ w,
  let '(r, s) := m (m_st w) in
  (r, mkManager s (m_cache w) (m_audit w) (m_now w) (m_entropy w) (m_ids w)).

(** [d] is the answer when the cache is nil. *)
Definition cacheM {A} (d : A) (m : M K A) : M W A := λ w,
  match m_cache w with
  | None => (Ok d, w)
  | Some k => let '(r, k') := m k in
              (r, mkManager (m_st w) (Some k') (m_audit w) (m_now w) (m_entropy w) (m_ids w))
  end.

Definition emit (e : Event) : M W unit :=
  modify (λ w, mkManager (m_st w) (m_cache w) (m_audit w ++ [e]) (m_now w) (m_entropy w) (m_ids w)).

Definition RandomToken : M W string := λ w,
  match m_entropy w with
  | [] => (Err ErrEntropy, w)
  | x :: l => (Ok x, mkManager (m_st w) (m_cache w) (m_audit w) (m_now w) l (m_ids w))
  end.

Definition NewID : M W string := λ w,
  (Ok (newID (m_ids w)),
   mkManager (m_st w) (m_cache w) (m_audit w) (m_now w) (m_entropy w) (Datatypes.S (m_ids w))).

Definition nowM : M W Z := gets m_now.

Definition tenantVersion (tid : string) : M W Z :=
  now <- nowM ;;
  r <- attempt (cacheM 0%Z (TenantVersion now tid)) ;;
  ret (match r with Ok v => v | Err _ => 0%Z end).

Definition loadProfile (v : view) : M W view :=
  r <- attempt (storeM (ss_user (vTenantID v) (vUserID v))) ;;
  ret (match r with
       | Ok u => set_profile v (UDisplayName u) (AvatarURL (UID u) (UAvatarID u))
       | Err _ => v
       end).

Definition refreshIfStale (v : view) : M W view :=
  cur <- tenantVersion (vTenantID v) ;;
  if bool_decide (cur = vPolicyVersion v) then ret v
  else
    r <- attempt (storeM (ss_roles (vTenantID v) (vUserID v))) ;;
    match r with
    | Err _ => ret v
    | Ok roles => loadProfile (set_roles v roles cur)
    end.

Definition view_ttl (now : Z) (v : view) : Z :=
  let ttl := vIdle v in
  let rem := (vExpiresAt v - now)%Z in
  let ttl := if (rem <? ttl)%Z then rem else ttl in
  match vGraceUntil v with
  | None => ttl
  | Some g => let rem := (g - now)%Z in if (rem <? ttl)%Z then rem else ttl
  end.

Definition putView (hash : string) (v : view) : M W unit :=
  now <- nowM ;;
  if (0 <? view_ttl now v)%Z
  then ignore (cacheM tt (kv_set now (SessionKey hash) (Json (view_json v)) (view_ttl now v)))
  else ret tt.

Definition getView (hash : string) : M W (option view) :=
  now <- nowM ;;
  r <- attempt (cacheM None (kv_get now (SessionKey hash))) ;;
  ret (match r with
       | Ok (Some (Json j)) => view_of_json j
       | _ => None
       end).

Definition evictView (hash : string) : M W unit :=
  now <- nowM ;; ignore (cacheM tt (kv_del now [SessionKey hash])).

(** [at, ok, _ := m.cache.RevokedAt(ctx, key)] *)
Definition mark_at (key : string) : M W (option Z) :=
  now <- nowM ;;
  r <- attempt (cacheM None (RevokedAt now key)) ;;
  ret (match r with Ok o => o | Err _ => None end).

Definition revoked (v : view) : M W bool :=
  a <- mark_at (RevokedSessionKey (vID v)) ;;
  if a then ret true else
  u <- mark_at (RevokedUserKey (vUserID v)) ;;
  if (match u with Some t => negb (t <? vCreatedAt v)%Z | None => false end) then ret true else
  t <- mark_at (RevokedTenantKey (vTenantID v)) ;;
  ret (match t with Some t => negb (t <? vCreatedAt v)%Z | None => false end).

(** publish writes the feed row and the cache mark, then fans out. *)
Definition publish (r : Revocation) : M W unit :=
  storeM (ss_insert_revocation r) ;;;
  now <- nowM ;;
  c <- gets m_cache ;;
  match c with
  | None => ret tt
  | Some _ =>
      key <- lift (if decide (RevKind r = "session") then Ok (RevokedSessionKey (RevSubjectID r))
                   else if decide (RevKind r = "user") then Ok (RevokedUserKey (RevSubjectID r))
                   else if decide (RevKind r = "tenant") then Ok (RevokedTenantKey (RevSubjectID r))
                   else Err (ErrText "session: unknown revocation kind")) ;;
      cacheM tt (MarkRevoked now key (RevTS r) RevocationRetention)
  end.

Definition revokeOne (tenantID id userID reason : string) (a : Actor) : M W unit :=
  now <- nowM ;;
  storeM (ss_revoke now tenantID id reason) ;;;
  publish (mkRevocation now "session" id tenantID reason) ;;;
  emit (mkEvent (if decide (reason = ReasonSignout) then Signout else SessionRevoked)
          tenantID (kindOrSystem a) (AUserID a) "session" id "ok" reason [("user_id", userID : detail)]).

Definition expire (v : view) (hash reason : string) : M W unit :=
  evictView hash ;;;
  revokeOne (vTenantID v) (vID v) (vUserID v) reason (actor_of_kind KindSystem).

Definition Create (p : CreateParams) : M W (Session * string) :=
  secret <- RandomToken ;;
  now <- nowM ;;
  id <- NewID ;;
  let s := mkSession id (cpTenantID p) (cpUserID p) (HashToken secret) (cpAMR p) now now
             (now + SessionLifetime (cpPolicy p)) (cpIPHash p) (clip (cpUserAgent p) 256) None None in
  storeM (ss_insert s) ;;;
  pv <- tenantVersion (STenantID s) ;;
  v <- loadProfile (mkView (SID s) (STenantID s) (SUserID s) (cpRoles p) (SAMR s) (cpOperator p) now now
                      (SExpiresAt s) (IdleTimeout (cpPolicy p)) pv "" "" None None) ;;
  putView (SSecretHash s) v ;;;
  ret (s, secret).

(** The database fallback shared by [Resolve] and [ByID]: an unrevoked row
    of an active tenant with a readable policy. *)
Definition liveTenant (s : Session) : M W (Tenant * Policy) :=
  t <- attempt (storeM (ss_tenant (STenantID s))) ;;
  match t with
  | Err _ => throw ErrNoSession
  | Ok t =>
      if bool_decide (TStatus t ≠ "active") then throw ErrNoSession
      else match ParsePolicy (TPolicy t) (bool_decide (TKind t = "platform")) with
           | (_, Some e) => throw e
           | (pol, None) => ret (t, pol)
           end
  end.

Definition rowView (s : Session) (t : Tenant) (pol : Policy) (roles : list string) : view :=
  mkView (SID s) (STenantID s) (SUserID s) roles (SAMR s) (bool_decide (TKind t = "platform"))
         (SCreatedAt s) (SLastSeen s) (SExpiresAt s) (IdleTimeout pol) 0 "" "" None None.

Definition loadView (hash : string) : M W view :=
  s <- attempt (storeM (ss_get_by_hash hash)) ;;
  match s with
  | Err _ => throw ErrNoSession
  | Ok s =>
      if SRevokedAt s then throw ErrNoSession else
      tp <- liveTenant s ;;
      roles <- storeM (ss_roles (STenantID s) (SUserID s)) ;;
      pv <- tenantVersion (STenantID s) ;;
      loadProfile (set_roles (rowView s tp.1 tp.2 roles) roles pv)
  end.

Definition Resolve (secret : string) : M W Actor :=
  if bool_decide (secret = "") then throw ErrNoSession else
  let hash := HashToken secret in
  now <- nowM ;;
  ov <- getView hash ;;
  v <- match ov with
       | None => loadView hash
       | Some v =>
           if (match vGraceUntil v with Some g => negb (now <? g)%Z | None => false end)
           then evictView hash ;;; throw ErrNoSession
           else refreshIfStale v
       end ;;
  if negb (now <? vExpiresAt v)%Z
  then ignore (expire v hash ReasonExpired) ;;; throw ErrNoSession
  else if (vIdle v <? now - vLastSeen v)%Z
  then ignore (expire v hash ReasonIdle) ;;; throw ErrNoSession
  else
  rv <- revoked v ;;
  if (rv : bool) then evictView hash ;;; throw ErrNoSession
  else
  v <- (if (Dur.minute <=? now - vLastSeen v)%Z
        then r <- attempt (storeM (ss_touch now (vTenantID v) (vID v))) ;;
             ret (match r with Ok _ => set_LastSeen v now | Err _ => v end)
        else ret v) ;;
  putView hash v ;;;
  ret (actor v).

Definition Renew (secret : string) : M W Renewal :=
  a <- Resolve secret ;;
  s <- attempt (storeM (ss_get (ATenantID a) (ASessionID a))) ;;
  match s with
  | Err _ => throw ErrNoSession
  | Ok s =>
      if SRevokedAt s then throw ErrNoSession else
      tp <- liveTenant s ;;
      now <- nowM ;;
      ov <- getView (HashToken secret) ;;
      v <- match ov with
           | Some v => ret v
           | None =>
               pv <- tenantVersion (STenantID s) ;;
               ret (mkView (SID s) (STenantID s) (SUserID s) (ARoles a) (SAMR s)
                      (bool_decide (TKind tp.1 = "platform")) (SCreatedAt s) zero_time (SExpiresAt s)
                      0 pv (ADisplayName a) (AAvatarURL a) None None)
           end ;;
      let v := set_Idle v (IdleTimeout tp.2) in
      if (if vGraceUntil v then true else false)
         || (match vRenewedAt v with Some r => (now - r <? RenewMinInterval)%Z | None => false end)
      then ret (mkRenewal "" (SID s) (SExpiresAt s) (vIdle v))
      else
      next <- RandomToken ;;
      let hash := HashToken next in
      let expires := (now + SessionLifetime tp.2)%Z in
      r <- attempt (storeM (ss_renew now (STenantID s) (SID s) hash expires)) ;;
      match r with
      | Err _ => throw ErrNoSession
      | Ok _ =>
          let grace := set_grace v (Some (now + RenewGrace)%Z) (Some now) expires in
          for_each [HashToken secret; SSecretHash s] (λ old, putView old grace) ;;;
          let v := set_LastSeen (set_grace v None (Some now) expires) now in
          putView hash v ;;;
          emit (mkEvent SessionRenewed (STenantID s) (kind_string (AKind a)) (AUserID a)
                  "session" (SID s) "ok" "" [("expires_at", DTime expires)]) ;;;
          ret (mkRenewal next (SID s) expires (vIdle v))
      end
  end.

Definition ByID (tenantID id : string) : M W Actor :=
  if bool_decide (tenantID = "") || bool_decide (id = "") then throw ErrNoSession else
  s <- attempt (storeM (ss_get tenantID id)) ;;
  match s with
  | Err _ => throw ErrNoSession
  | Ok s =>
      if SRevokedAt s then throw ErrNoSession else
      tp <- liveTenant s ;;
      roles <- storeM (ss_roles (STenantID s) (SUserID s)) ;;
      v <- loadProfile (rowView s tp.1 tp.2 roles) ;;
      now <- nowM ;;
      if negb (now <? vExpiresAt v)%Z || (vIdle v <? now - vLastSeen v)%Z then throw ErrNoSession else
      rv <- revoked v ;;
      if (rv : bool) then throw ErrNoSession else ret (actor v)
  end.

Definition RefreshUser (tenantID userID : string) : M W unit :=
  c <- gets m_cache ;;
  match c with
  | None => ret tt
  | Some _ =>
      now <- nowM ;;
      l <- attempt (storeM (ss_list_user now tenantID userID)) ;;
      match l with
      | Err _ => ret tt
      | Ok l => for_each l (λ s, evictView (SSecretHash s))
      end
  end.

(** [ctx] carries the actor recorded in the audit event. *)
Definition ctxActor (ctx : Ctx) : Actor := default actor0 (FromContext ctx).

Definition Revoke (ctx : Ctx) (tenantID id reason : string) : M W unit :=
  s <- storeM (ss_get tenantID id) ;;
  revokeOne tenantID id (SUserID s) reason (ctxActor ctx) ;;;
  evictView (SSecretHash s).

Definition RevokeUser (ctx : Ctx) (tenantID userID reason keepID : string) : M W unit :=
  now <- nowM ;;
  sessions <- (if bool_decide (keepID ≠ "") then storeM (ss_list_user now tenantID userID) else ret []) ;;
  storeM (ss_revoke_user now tenantID userID reason keepID) ;;;
  (if bool_decide (keepID = "")
   then publish (mkRevocation now "user" userID tenantID reason)
   else for_each sessions (λ s,
          if bool_decide (SID s ≠ keepID)
          then publish (mkRevocation now "session" (SID s) tenantID reason) ;;;
               evictView (SSecretHash s)
          else ret tt)) ;;;
  emit (mkEvent SessionRevoked tenantID (kindOrSystem (ctxActor ctx)) (AUserID (ctxActor ctx))
          "user" userID "ok" reason []).

Definition RevokeTenant (ctx : Ctx) (tenantID reason : string) : M W unit :=
  now <- nowM ;;
  storeM (ss_revoke_tenant now tenantID reason) ;;;
  publish (mkRevocation now "tenant" tenantID tenantID reason) ;;;
  emit (mkEvent SessionRevoked tenantID (kindOrSystem (ctxActor ctx)) (AUserID (ctxActor ctx))
          "tenant" tenantID "ok" reason []).

Definition Since (since limit : Z) : M W (list Revocation) :=
  let limit := if (limit <=? 0)%Z || (1000 <? limit)%Z then 1000%Z else limit in
  storeM (ss_revocations_since since limit).

Definition ListMine (tenantID userID currentID : string) : M W (list View) :=
  now <- nowM ;;
  l <- storeM (ss_list_user now tenantID userID) ;;
  ret (omap (λ s,
    if (if SRevokedAt s then true else false) || negb (now <? SExpiresAt s)%Z then None
    else Some (mkViewRow (SID s) (SCreatedAt s) (SLastSeen s) (SExpiresAt s)
                 (bool_decide (SID s = currentID)) (SUserAgent s))) l).
End Manager.
