(* ===== verification/MemStore.v ===== *)
(** * The in-memory store (internal/memstore)

    Tables as finite maps with the keys the source uses.  Go ranges over maps
    in no fixed order; where the source does, the order of [map_to_list] is
    one such order and no theorem depends on it. *)
From stdpp Require Import sorting.
From S2P Require Import Prelude GoStrings Regex PermRef TenantCtx Models Cache AuditEvents Session.
#[local] Open Scope go_scope.

Record Attempt : Type := mkAttempt {
  AtTenantID : string; AtUserID : string; AtEmailHash : string; AtIPHash : string; AtOutcome : string; AtReason : string }.
Record recoveryCode : Type := mkCode { rcHash : string; rcUsed : bool }.

Record Store : Type := mkStore {
  Tenants : gmap string Tenant;            (* by id *)
  Users : gmap string User;                (* by tenant/email *)
  Sessions : gmap string Session;          (* by id *)
  Revs : list Revocation;
  RoleMap : gmap string (list string);     (* tenant/user → slugs *)
  RoleRows : gmap string Role;             (* by id *)
  Bindings : gmap string (list string);    (* tenant/user → role ids *)
  RolePerms : gmap string (list Ref);      (* role id → grants *)
  Permissions : gmap string (list Permission);  (* tenant → catalogue *)
  groups : gmap string Group;
  members : gmap string (list string);     (* group id → user ids *)
  groles : gmap string (list string);      (* group id → role ids *)
  added : gmap string Z;                   (* group/user → added at *)
  Attempts : list Attempt;
  Clients : gmap string ClientApplication;
  Codes : gmap string (list recoveryCode);         (* tenant/user → codes *)
  keys : gmap string (list WebAuthnCredential);    (* tenant/user → security keys *)
  Invitations : gmap string Invitation;    (* by id *)
  Outbox : list OutboxItem;
  Recoveries : gmap string RecoveryRequest;
  conns : gmap string DirectoryConnection; (* by id *)
  links : gmap string DirectoryLink;       (* by user id *)
  handles : gmap string string;            (* tenant/user → WebAuthn user handle *)
}.
Definition NewStore : Store := mkStore ∅ ∅ ∅ [] ∅ ∅ ∅ ∅ ∅ ∅ ∅ ∅ ∅ [] ∅ ∅ ∅ ∅ [] ∅ ∅ ∅ ∅.

(** Field updates. *)
Definition set_Sessions (m : Store) (x : gmap string Session) : Store :=
  mkStore (Tenants m) (Users m) x (Revs m) (RoleMap m) (RoleRows m) (Bindings m)
          (RolePerms m) (Permissions m) (groups m) (members m) (groles m) (added m) (Attempts m) (Clients m) (Codes m) (keys m) (Invitations m) (Outbox m) (Recoveries m) (conns m) (links m) (handles m).
Definition set_Revs (m : Store) (x : list Revocation) : Store :=
  mkStore (Tenants m) (Users m) (Sessions m) x (RoleMap m) (RoleRows m) (Bindings m)
          (RolePerms m) (Permissions m) (groups m) (members m) (groles m) (added m) (Attempts m) (Clients m) (Codes m) (keys m) (Invitations m) (Outbox m) (Recoveries m) (conns m) (links m) (handles m).
Definition set_RoleRows (m : Store) (x : gmap string Role) : Store :=
  mkStore (Tenants m) (Users m) (Sessions m) (Revs m) (RoleMap m) x (Bindings m)
          (RolePerms m) (Permissions m) (groups m) (members m) (groles m) (added m) (Attempts m) (Clients m) (Codes m) (keys m) (Invitations m) (Outbox m) (Recoveries m) (conns m) (links m) (handles m).
Definition set_Bindings (m : Store) (x : gmap string (list string)) : Store :=
  mkStore (Tenants m) (Users m) (Sessions m) (Revs m) (RoleMap m) (RoleRows m) x
          (RolePerms m) (Permissions m) (groups m) (members m) (groles m) (added m) (Attempts m) (Clients m) (Codes m) (keys m) (Invitations m) (Outbox m) (Recoveries m) (conns m) (links m) (handles m).
Definition set_RolePerms (m : Store) (x : gmap string (list Ref)) : Store :=
  mkStore (Tenants m) (Users m) (Sessions m) (Revs m) (RoleMap m) (RoleRows m) (Bindings m)
          x (Permissions m) (groups m) (members m) (groles m) (added m) (Attempts m) (Clients m) (Codes m) (keys m) (Invitations m) (Outbox m) (Recoveries m) (conns m) (links m) (handles m).
Definition set_Permissions (m : Store) (x : gmap string (list Permission)) : Store :=
  mkStore (Tenants m) (Users m) (Sessions m) (Revs m) (RoleMap m) (RoleRows m) (Bindings m)
          (RolePerms m) x (groups m) (members m) (groles m) (added m) (Attempts m) (Clients m) (Codes m) (keys m) (Invitations m) (Outbox m) (Recoveries m) (conns m) (links m) (handles m).
Definition set_groups (m : Store) (x : gmap string Group) : Store :=
  mkStore (Tenants m) (Users m) (Sessions m) (Revs m) (RoleMap m) (RoleRows m) (Bindings m)
          (RolePerms m) (Permissions m) x (members m) (groles m) (added m) (Attempts m) (Clients m) (Codes m) (keys m) (Invitations m) (Outbox m) (Recoveries m) (conns m) (links m) (handles m).
Definition set_members (m : Store) (x : gmap string (list string)) : Store :=
  mkStore (Tenants m) (Users m) (Sessions m) (Revs m) (RoleMap m) (RoleRows m) (Bindings m)
          (RolePerms m) (Permissions m) (groups m) x (groles m) (added m) (Attempts m) (Clients m) (Codes m) (keys m) (Invitations m) (Outbox m) (Recoveries m) (conns m) (links m) (handles m).
Definition set_groles (m : Store) (x : gmap string (list string)) : Store :=
  mkStore (Tenants m) (Users m) (Sessions m) (Revs m) (RoleMap m) (RoleRows m) (Bindings m)
          (RolePerms m) (Permissions m) (groups m) (members m) x (added m) (Attempts m) (Clients m) (Codes m) (keys m) (Invitations m) (Outbox m) (Recoveries m) (conns m) (links m) (handles m).
Definition set_added (m : Store) (x : gmap string Z) : Store :=
  mkStore (Tenants m) (Users m) (Sessions m) (Revs m) (RoleMap m) (RoleRows m) (Bindings m)
          (RolePerms m) (Permissions m) (groups m) (members m) (groles m) x (Attempts m) (Clients m) (Codes m) (keys m) (Invitations m) (Outbox m) (Recoveries m) (conns m) (links m) (handles m).

Definition set_Users (m : Store) (x : gmap string User) : Store :=
  mkStore (Tenants m) x (Sessions m) (Revs m) (RoleMap m) (RoleRows m) (Bindings m)
          (RolePerms m) (Permissions m) (groups m) (members m) (groles m) (added m) (Attempts m) (Clients m) (Codes m) (keys m) (Invitations m) (Outbox m) (Recoveries m) (conns m) (links m) (handles m).
Definition set_Attempts (m : Store) (x : list Attempt) : Store :=
  mkStore (Tenants m) (Users m) (Sessions m) (Revs m) (RoleMap m) (RoleRows m) (Bindings m)
          (RolePerms m) (Permissions m) (groups m) (members m) (groles m) (added m) x (Clients m) (Codes m) (keys m) (Invitations m) (Outbox m) (Recoveries m) (conns m) (links m) (handles m).
Definition set_Codes (m : Store) (x : gmap string (list recoveryCode)) : Store :=
  mkStore (Tenants m) (Users m) (Sessions m) (Revs m) (RoleMap m) (RoleRows m) (Bindings m)
          (RolePerms m) (Permissions m) (groups m) (members m) (groles m) (added m) (Attempts m) (Clients m) x (keys m) (Invitations m) (Outbox m) (Recoveries m) (conns m) (links m) (handles m).
Definition set_wkeys (m : Store) (x : gmap string (list WebAuthnCredential)) : Store :=
  mkStore (Tenants m) (Users m) (Sessions m) (Revs m) (RoleMap m) (RoleRows m) (Bindings m)
          (RolePerms m) (Permissions m) (groups m) (members m) (groles m) (added m) (Attempts m) (Clients m) (Codes m) x (Invitations m) (Outbox m) (Recoveries m) (conns m) (links m) (handles m).
Definition set_Invitations (m : Store) (x : gmap string Invitation) : Store :=
  mkStore (Tenants m) (Users m) (Sessions m) (Revs m) (RoleMap m) (RoleRows m) (Bindings m)
          (RolePerms m) (Permissions m) (groups m) (members m) (groles m) (added m) (Attempts m) (Clients m) (Codes m) (keys m) x (Outbox m) (Recoveries m) (conns m) (links m) (handles m).
Definition set_Outbox (m : Store) (x : list OutboxItem) : Store :=
  mkStore (Tenants m) (Users m) (Sessions m) (Revs m) (RoleMap m) (RoleRows m) (Bindings m)
          (RolePerms m) (Permissions m) (groups m) (members m) (groles m) (added m) (Attempts m) (Clients m) (Codes m) (keys m) (Invitations m) x (Recoveries m) (conns m) (links m) (handles m).
Definition set_Recoveries (m : Store) (x : gmap string RecoveryRequest) : Store :=
  mkStore (Tenants m) (Users m) (Sessions m) (Revs m) (RoleMap m) (RoleRows m) (Bindings m)
          (RolePerms m) (Permissions m) (groups m) (members m) (groles m) (added m) (Attempts m) (Clients m) (Codes m) (keys m) (Invitations m) (Outbox m) x (conns m) (links m) (handles m).
Definition set_dir (m : Store) (c : gmap string DirectoryConnection) (l : gmap string DirectoryLink) : Store :=
  mkStore (Tenants m) (Users m) (Sessions m) (Revs m) (RoleMap m) (RoleRows m) (Bindings m)
          (RolePerms m) (Permissions m) (groups m) (members m) (groles m) (added m) (Attempts m) (Clients m) (Codes m) (keys m) (Invitations m) (Outbox m) (Recoveries m) c l (handles m).
Definition set_handles (m : Store) (x : gmap string string) : Store :=
  mkStore (Tenants m) (Users m) (Sessions m) (Revs m) (RoleMap m) (RoleRows m) (Bindings m)
          (RolePerms m) (Permissions m) (groups m) (members m) (groles m) (added m) (Attempts m) (Clients m) (Codes m) (keys m) (Invitations m) (Outbox m) (Recoveries m) (conns m) (links m) x.

Definition values {A} (m : gmap string A) : list A := (map_to_list m).*2.

Definition map_key (tid uid : string) : string := tid +:+ "/" +:+ uid.

Fixpoint find_first {A} (p : A → bool) (l : list A) : option A :=
  match l with
  | [] => None
  | x :: l' => if p x then Some x else find_first p l'
  end.

Definition string_le (a b : string) : Prop := String.leb a b = true.
#[export] Instance string_le_dec a b : Decision (string_le a b).
Proof. unfold string_le. apply _. Defined.
(** sort.Strings *)
Definition sort_strings (l : list string) : list string := merge_sort string_le l.

(** ** session.Store *)
Definition Insert (s : Session) : M Store unit :=
  modify (λ m, set_Sessions m (<[SID s := s]> (Sessions m))).

Definition GetByHash (hash : string) : M Store Session := λ m,
  match find_first (λ s, bool_decide (SSecretHash s = hash)) (values (Sessions m)) with
  | Some s => (Ok s, m)
  | None => (Err ErrNotFound, m)
  end.

Definition Get (tid id : string) : M Store Session := λ m,
  match Sessions m !! id with
  | Some s => if bool_decide (STenantID s = tid) then (Ok s, m) else (Err ErrNotFound, m)
  | None => (Err ErrNotFound, m)
  end.

Definition ListUser (now : Z) (tid uid : string) : M Store (list Session) := λ m,
  (Ok (filter (λ s, STenantID s = tid ∧ SUserID s = uid) (values (Sessions m))), m).

Definition touch_row (now : Z) (s : Session) : Session :=
  mkSession (SID s) (STenantID s) (SUserID s) (SSecretHash s) (SAMR s) (SCreatedAt s) now (SExpiresAt s)
            (SIPHash s) (SUserAgent s) (SRevokedAt s) (SRevokedReason s).

Definition Touch (now : Z) (tid id : string) : M Store unit := λ m,
  match Sessions m !! id with
  | Some s => if bool_decide (STenantID s = tid)
              then (Ok tt, set_Sessions m (<[id := touch_row now s]> (Sessions m)))
              else (Ok tt, m)
  | None => (Ok tt, m)
  end.

Definition renew_row (now : Z) (hash : string) (ex : Z) (s : Session) : Session :=
  mkSession (SID s) (STenantID s) (SUserID s) hash (SAMR s) (SCreatedAt s) now ex
            (SIPHash s) (SUserAgent s) (SRevokedAt s) (SRevokedReason s).

Definition RenewRow (now : Z) (tid id hash : string) (ex : Z) : M Store unit := λ m,
  match Sessions m !! id with
  | Some s =>
      if bool_decide (STenantID s ≠ tid) || (if SRevokedAt s then true else false)
      then (Err ErrNotFound, m)
      else (Ok tt, set_Sessions m (<[id := renew_row now hash ex s]> (Sessions m)))
  | None => (Err ErrNotFound, m)
  end.

(** [revoke] marks a row that is not yet revoked. *)
Definition revoke_row (now : Z) (reason : string) (s : Session) : Session :=
  match SRevokedAt s with
  | Some _ => s
  | None => mkSession (SID s) (STenantID s) (SUserID s) (SSecretHash s) (SAMR s) (SCreatedAt s)
              (SLastSeen s) (SExpiresAt s) (SIPHash s) (SUserAgent s) (Some now) (Some reason)
  end.

Definition RevokeRow (now : Z) (tid id reason : string) : M Store unit := λ m,
  match Sessions m !! id with
  | Some s => if bool_decide (STenantID s = tid)
              then (Ok tt, set_Sessions m (<[id := revoke_row now reason s]> (Sessions m)))
              else (Err ErrNotFound, m)
  | None => (Err ErrNotFound, m)
  end.

Definition RevokeUserRows (now : Z) (tid uid reason keep : string) : M Store unit :=
  modify (λ m, set_Sessions m (map_imap (λ id s,
    Some (if bool_decide (STenantID s = tid) && bool_decide (SUserID s = uid) && bool_decide (id ≠ keep)
          then revoke_row now reason s else s)) (Sessions m))).

Definition RevokeTenantRows (now : Z) (tid reason : string) : M Store unit :=
  modify (λ m, set_Sessions m
    ((λ s, if bool_decide (STenantID s = tid) then revoke_row now reason s else s) <$> Sessions m)).

Definition InsertRevocation (r : Revocation) : M Store unit :=
  modify (λ m, set_Revs m (Revs m ++ [r])).

Definition RevocationsSince (since limit : Z) : M Store (list Revocation) := λ m,
  (Ok (take (Z.to_nat limit) (filter (λ r, (since < RevTS r)%Z) (Revs m))), m).

Definition TenantRow (tid : string) : M Store Tenant := λ m,
  match Tenants m !! tid with Some t => (Ok t, m) | None => (Err ErrNotFound, m) end.

Definition userByID (m : Store) (tid uid : string) : option User :=
  find_first (λ u, bool_decide (UTenantID u = tid) && bool_decide (UID u = uid)) (values (Users m)).

Definition UserRow (tid uid : string) : M Store User := λ m,
  match userByID m tid uid with Some u => (Ok u, m) | None => (Err ErrNotFound, m) end.

(** Effective slugs: direct bindings (or the seeded slugs when the user has
    none) and the roles of the user's groups, each once, sorted. *)
Definition role_slugs (m : Store) (ok : Role → bool) (ids : list string) : list string :=
  omap (λ id, match RoleRows m !! id with
              | Some r => if ok r then Some (RoSlug r) else None
              | None => None
              end) ids.

Definition group_role_slugs (m : Store) (tid uid : string) : list string :=
  concat ((λ '(gid, us),
    match groups m !! gid with
    | Some g => if bool_decide (GrTenantID g = tid)
                then concat ((λ x : string, if bool_decide (x = uid)
                                   then role_slugs m (λ _, true) (default [] (groles m !! gid))
                                   else []) <$> us)
                else []
    | None => []
    end) <$> map_to_list (members m)).

Definition effectiveSlugs (m : Store) (tid uid : string) : list string :=
  let direct := match Bindings m !! map_key tid uid with
                | Some ids => role_slugs m (λ r, bool_decide (RoTenantID r = tid)) ids
                | None => default [] (RoleMap m !! map_key tid uid)
                end in
  sort_strings (dedup_from [] (direct ++ group_role_slugs m tid uid)).

Definition Roles (tid uid : string) : M Store (list string) := λ m, (Ok (effectiveSlugs m tid uid), m).

#[export] Instance Store_SessionStore : SessionStore Store := {|
  ss_insert := Insert; ss_get_by_hash := GetByHash; ss_get := Get; ss_list_user := ListUser;
  ss_touch := Touch; ss_renew := RenewRow; ss_revoke := RevokeRow; ss_revoke_user := RevokeUserRows;
  ss_revoke_tenant := RevokeTenantRows; ss_insert_revocation := InsertRevocation;
  ss_revocations_since := RevocationsSince; ss_tenant := TenantRow; ss_roles := Roles; ss_user := UserRow |}.
