(* ===== verification/SessionSafety.v ===== *)
(** * Revocation safety of sessions

    The claim "a revoked session never resolves again" is proved for every
    history of the manager, over any store and cache that obey their laws, as
    long as no tenant's idle timeout exceeds the retention of the revocation
    marks (60 minutes).  Without that bound it is false; the counterexample is
    a concrete run of the same definitions over [MemStore] and [Memory].

    The proof is a small Hoare logic over the manager's state whose invariant
    carries an exemption set: while a revocation is half done (rows written,
    mark not yet), the views it concerns are exempt from being marked. *)
From S2P Require Import Prelude GoStrings Regex PermRef TenantCtx Models Cache AuditEvents Session MemStore.
#[local] Open Scope go_scope.

Definition same_core (x y : Session) : Prop :=
  SID x = SID y ∧ STenantID x = STenantID y ∧ SUserID x = SUserID y ∧ SCreatedAt x = SCreatedAt y.

(** How an operation may change the session rows: no row appears or
    disappears, identities stay, only rows in [P] may become revoked. *)
Definition evolves (P : string → Session → Prop) (R R' : gmap string Session) : Prop :=
  ∀ id, match R !! id, R' !! id with
        | None, None => True
        | Some x, Some x' =>
            same_core x x' ∧ (SRevokedAt x' = SRevokedAt x ∨ (P id x ∧ SRevokedAt x' ≠ None))
        | _, _ => False
        end.

Class SessionStoreLaws (S : Type) `{SessionStore S} : Type := {
  rows : S → gmap string Session;
  tenants : S → gmap string Tenant;
  ss_insert_law : ∀ x s r s', ss_insert x s = (r, s') →
    tenants s' = tenants s ∧ rows s' = match r with Ok _ => <[SID x := x]> (rows s) | Err _ => rows s end;
  ss_get_by_hash_law : ∀ h s r s', ss_get_by_hash h s = (r, s') →
    tenants s' = tenants s ∧ rows s' = rows s ∧
    ∀ x, r = Ok x → SSecretHash x = h ∧ ∃ id, rows s !! id = Some x;
  ss_get_law : ∀ tid id s r s', ss_get tid id s = (r, s') →
    tenants s' = tenants s ∧ rows s' = rows s ∧
    ∀ x, r = Ok x → rows s !! id = Some x ∧ STenantID x = tid;
  ss_list_user_law : ∀ now tid uid s r s', ss_list_user now tid uid s = (r, s') →
    tenants s' = tenants s ∧ rows s' = rows s ∧
    ∀ l, r = Ok l → ∀ id x, rows s !! id = Some x → STenantID x = tid → SUserID x = uid →
      SRevokedAt x = None → x ∈ l;
  ss_touch_law : ∀ now tid id s r s', ss_touch now tid id s = (r, s') →
    tenants s' = tenants s ∧ evolves (λ _ _, False) (rows s) (rows s');
  ss_renew_law : ∀ now tid id h ex s r s', ss_renew now tid id h ex s = (r, s') →
    tenants s' = tenants s ∧ evolves (λ _ _, False) (rows s) (rows s');
  ss_revoke_law : ∀ now tid id reason s r s', ss_revoke now tid id reason s = (r, s') →
    tenants s' = tenants s ∧
    match r with
    | Ok _ => evolves (λ id' x, id' = id ∧ STenantID x = tid) (rows s) (rows s') ∧
              ∀ x, rows s' !! id = Some x → STenantID x = tid → SRevokedAt x ≠ None
    | Err _ => rows s' = rows s
    end;
  ss_revoke_user_law : ∀ now tid uid reason keep s r s', ss_revoke_user now tid uid reason keep s = (r, s') →
    tenants s' = tenants s ∧
    match r with
    | Ok _ => evolves (λ id x, STenantID x = tid ∧ SUserID x = uid ∧ id ≠ keep) (rows s) (rows s') ∧
              ∀ id x, rows s' !! id = Some x → STenantID x = tid → SUserID x = uid → id ≠ keep →
                SRevokedAt x ≠ None
    | Err _ => rows s' = rows s
    end;
  ss_revoke_tenant_law : ∀ now tid reason s r s', ss_revoke_tenant now tid reason s = (r, s') →
    tenants s' = tenants s ∧
    match r with
    | Ok _ => evolves (λ id x, STenantID x = tid) (rows s) (rows s') ∧
              ∀ id x, rows s' !! id = Some x → STenantID x = tid → SRevokedAt x ≠ None
    | Err _ => rows s' = rows s
    end;
  ss_insert_revocation_law : ∀ r s, ∃ s',
    ss_insert_revocation r s = (Ok tt, s') ∧ rows s' = rows s ∧ tenants s' = tenants s;
  ss_tenant_law : ∀ tid s r s', ss_tenant tid s = (r, s') →
    tenants s' = tenants s ∧ rows s' = rows s ∧ ∀ t, r = Ok t → tenants s !! tid = Some t;
  ss_roles_law : ∀ tid uid s r s', ss_roles tid uid s = (r, s') →
    tenants s' = tenants s ∧ rows s' = rows s;
  ss_user_law : ∀ tid uid s r s', ss_user tid uid s = (r, s') →
    tenants s' = tenants s ∧ rows s' = rows s;
}.

Section EvolvesFacts.
Lemma same_core_refl x : same_core x x.
Proof. done. Qed.

Lemma evolves_refl P R : evolves P R R.
Proof. intros id. destruct (R !! id); [|done]. split; [apply same_core_refl|by left]. Qed.

Lemma evolves_insert (P : string → Session → Prop) R id x x' :
  R !! id = Some x → same_core x x' →
  (SRevokedAt x' = SRevokedAt x ∨ (P id x ∧ SRevokedAt x' ≠ None)) → evolves P R (<[id:=x']> R).
Proof.
  intros Hx Hc Hr id'. destruct (decide (id' = id)) as [->|Hne].
  - by rewrite Hx, lookup_insert_eq.
  - rewrite lookup_insert_ne by done. apply evolves_refl.
Qed.

Lemma evolves_fwd P R R' id x :
  evolves P R R' → R !! id = Some x → ∃ x', R' !! id = Some x' ∧ same_core x x' ∧
    (SRevokedAt x' = SRevokedAt x ∨ (P id x ∧ SRevokedAt x' ≠ None)).
Proof. intros He Hx. specialize (He id). rewrite Hx in He. destruct (R' !! id); [eauto|done]. Qed.

Lemma evolves_bwd P R R' id x' :
  evolves P R R' → R' !! id = Some x' → ∃ x, R !! id = Some x ∧ same_core x x' ∧
    (SRevokedAt x' = SRevokedAt x ∨ (P id x ∧ SRevokedAt x' ≠ None)).
Proof. intros He Hx. specialize (He id). rewrite Hx in He. destruct (R !! id); [eauto|done]. Qed.

Lemma same_core_revoke now reason x : same_core x (revoke_row now reason x).
Proof. unfold revoke_row. by destruct (SRevokedAt x). Qed.

Lemma revoke_row_revoked now reason x : SRevokedAt (revoke_row now reason x) ≠ None.
Proof. unfold revoke_row. destruct (SRevokedAt x) eqn:E; [by rewrite E|done]. Qed.

Lemma find_first_Some {A} (p : A → bool) l x : find_first p l = Some x → x ∈ l ∧ p x = true.
Proof.
  induction l as [|y l IH]; simpl; [done|]. destruct (p y) eqn:E.
  - intros [= ->]. set_solver.
  - intros H. destruct (IH H). set_solver.
Qed.

Lemma elem_of_values {A} (m : gmap string A) x : x ∈ values m ↔ ∃ k, m !! k = Some x.
Proof.
  unfold values. rewrite list_elem_of_fmap. setoid_rewrite <- elem_of_map_to_list. split.
  - intros ([k y] & -> & Hk). eauto.
  - intros [k Hk]. by exists (k, x).
Qed.
End EvolvesFacts.

(** ** The in-memory store obeys the laws *)
#[export] Program Instance Store_laws : SessionStoreLaws Store := {| rows := Sessions; tenants := Tenants |}.
Next Obligation. intros x s r s'. simpl. unfold Insert, modify. by intros [= <- <-]. Qed.
Next Obligation.
  intros h s r s'. simpl. unfold GetByHash. destruct (find_first _ _) as [y|] eqn:E; intros [= <- <-].
  - split_and!; try done. intros x [= <-]. apply find_first_Some in E as [Hin Hp].
    apply elem_of_values in Hin. bool_prop. done.
  - done.
Qed.
Next Obligation.
  intros tid id s r s'. simpl. unfold Get. destruct (Sessions s !! id) as [y|] eqn:E; [case_bool_decide|];
    intros [= <- <-]; split_and!; try done. by intros x [= <-].
Qed.
Next Obligation.
  intros now tid uid s r s'. simpl. unfold ListUser. intros [= <- <-]. split_and!; try done.
  intros l [= <-] id x Hx Ht Hu _. apply list_elem_of_filter. split; [done|]. apply elem_of_values. eauto.
Qed.
Next Obligation.
  intros now tid id s r s'. simpl. unfold Touch.
  destruct (Sessions s !! id) as [y|] eqn:E; [case_bool_decide|]; intros [= <- <-]; split; try done;
    try apply evolves_refl. simpl. eapply evolves_insert; [done|done|by left].
Qed.
Next Obligation.
  intros now tid id h ex s r s'. simpl. unfold RenewRow.
  destruct (Sessions s !! id) as [y|] eqn:E; [destruct (_ || _) eqn:Eb|]; intros [= <- <-]; split; try done;
    try apply evolves_refl. simpl. eapply evolves_insert; [done|done|by left].
Qed.
Next Obligation.
  intros now tid id reason s r s'. simpl. unfold RevokeRow.
  destruct (Sessions s !! id) as [y|] eqn:E; [case_bool_decide as Ht|]; intros [= <- <-]; split; try done.
  split; simpl.
  - eapply evolves_insert; [done|apply same_core_revoke|]. right. split; [done|apply revoke_row_revoked].
  - intros x. rewrite lookup_insert_eq. intros [= <-] _. apply revoke_row_revoked.
Qed.
Next Obligation.
  intros now tid uid reason keep s r s'. simpl. unfold RevokeUserRows, modify. intros [= <- <-]. split; [done|].
  simpl. split.
  - intros id. rewrite map_lookup_imap. destruct (Sessions s !! id) as [x|]; simpl; [|done].
    destruct (_ && _ && _) eqn:E; bool_prop.
    + split; [apply same_core_revoke|]. right. split; [done|apply revoke_row_revoked].
    + split; [done|by left].
  - intros id x. rewrite map_lookup_imap. destruct (Sessions s !! id) as [y|]; simpl; [|done].
    intros [= <-] Ht Hu Hk. destruct (_ && _ && _) eqn:E; [apply revoke_row_revoked|].
    exfalso. rewrite !bool_decide_eq_true_2 in E by done. done.
Qed.
Next Obligation.
  intros now tid reason s r s'. simpl. unfold RevokeTenantRows, modify. intros [= <- <-]. split; [done|].
  simpl. split.
  - intros id. rewrite lookup_fmap. destruct (Sessions s !! id) as [x|]; simpl; [|done]. case_bool_decide.
    + split; [apply same_core_revoke|]. right. split; [done|apply revoke_row_revoked].
    + split; [done|by left].
  - intros id x. rewrite lookup_fmap. destruct (Sessions s !! id) as [y|]; simpl; [|done].
    intros [= <-]. case_bool_decide; [intros _; apply revoke_row_revoked|done].
Qed.
Next Obligation. intros r s. by eexists. Qed.
Next Obligation.
  intros tid s r s'. simpl. unfold TenantRow. destruct (Tenants s !! tid) eqn:E; intros [= <- <-];
    split_and!; try done. by intros t0 [= <-].
Qed.
Next Obligation. intros tid uid s r s'. simpl. unfold Roles. by intros [= <- <-]. Qed.
Next Obligation.
  intros tid uid s r s'. simpl. unfold UserRow. destruct (userByID s tid uid); by intros [= <- <-].
Qed.

(** ** Invariant and triples *)
Section Safety.
Context {S K : Type} `{SessionStoreLaws S} `{KVLaws K}.
Context (HashToken : string → string) (newID : nat → string) `{!Inj (=) (=) newID}.
Notation W := (Manager S K).
Notation R := RevocationRetention.
Implicit Types (w : W) (k : K) (v : view).

Definition rowsW (w : W) : gmap string Session := rows (m_st w).
Definition tenantsW (w : W) : gmap string Tenant := tenants (m_st w).

Definition agrees (v : view) (x : Session) : Prop :=
  vID v = SID x ∧ vTenantID v = STenantID x ∧ vUserID v = SUserID x ∧ vCreatedAt v = SCreatedAt x.

(** A mark the manager would read at [t] for this view. *)
Definition mark_of (k : K) (t : Z) (key : string) (n : Z) : Prop :=
  ∃ s, kv_at k t key = Some (Raw s) ∧ ParseInt s = Some n.
Definition marked (k : K) (t : Z) (v : view) : Prop :=
  (∃ n, mark_of k t (RevokedSessionKey (vID v)) n) ∨
  (∃ n, mark_of k t (RevokedUserKey (vUserID v)) n ∧ (vCreatedAt v <= n)%Z) ∨
  (∃ n, mark_of k t (RevokedTenantKey (vTenantID v)) n ∧ (vCreatedAt v <= n)%Z).

Definition view_at (k : K) (t : Z) (h : string) (v : view) : Prop :=
  ∃ j, kv_at k t (SessionKey h) = Some (Json j) ∧ view_of_json j = Some v.

(** A cached view, read at [t]: it is gone within the retention, belongs to
    a row, and when the row is revoked it is marked, unless exempt. *)
Definition view_ok (E : view → Prop) (rs : gmap string Session) (now : Z) (k : K) (t : Z) (v : view) : Prop :=
  (t < now + R)%Z ∧ (vIdle v <= R)%Z ∧
  ∃ x, rs !! vID v = Some x ∧ agrees v x ∧ (SRevokedAt x ≠ None → E v ∨ marked k t v).

Definition idle_bounded (ts : gmap string Tenant) : Prop :=
  ∀ tid t pol b, ts !! tid = Some t → ParsePolicy (TPolicy t) b = (pol, None) → (IdleTimeout pol <= R)%Z.

(** [D]: sessions already known to be revoked. *)
Record Inv (D : string → Prop) (E : view → Prop) (w : W) : Prop := mkInv {
  inv_rows : ∀ id x, rowsW w !! id = Some x → SID x = id ∧ (SCreatedAt x <= m_now w)%Z;
  inv_fresh : ∀ n, (m_ids w <= n)%nat → rowsW w !! newID n = None;
  inv_clock : in_int64 (m_now w) = true;
  inv_idle : idle_bounded (tenantsW w);
  inv_dead : ∀ id, D id → ∃ x, rowsW w !! id = Some x ∧ SRevokedAt x ≠ None;
  inv_views : ∀ k t h v, m_cache w = Some k → (m_now w <= t)%Z → view_at k t h v →
                view_ok E (rowsW w) (m_now w) k t v;
}.

(** Changes invisible to the invariant. *)
Definition same_cache (now : Z) (c c' : option K) : Prop :=
  match c, c' with
  | None, None => True
  | Some k, Some k' => ∀ t key, (now <= t)%Z → kv_at k' t key = kv_at k t key
  | _, _ => False
  end.
Record stable (w w' : W) : Prop := mkStable {
  st_rows : rowsW w' = rowsW w;
  st_tenants : tenantsW w' = tenantsW w;
  st_now : m_now w' = m_now w;
  st_ids : (m_ids w <= m_ids w')%nat;
  st_cache : same_cache (m_now w) (m_cache w) (m_cache w');
}.

Lemma same_cache_refl now c : same_cache now c c.
Proof. by destruct c. Qed.

Lemma stable_refl w : stable w w.
Proof. split; try done. apply same_cache_refl. Qed.

Lemma stable_trans w1 w2 w3 : stable w1 w2 → stable w2 w3 → stable w1 w3.
Proof.
  intros [A1 A2 A3 A4 A5] [B1 B2 B3 B4 B5]. split; try congruence; [lia|].
  rewrite A3 in B5. destruct (m_cache w1), (m_cache w2), (m_cache w3); try done.
  intros t key Ht. by rewrite B5, A5.
Qed.

Lemma stable_cache w w' k' :
  stable w w' → m_cache w' = Some k' → ∃ k, m_cache w = Some k ∧
    ∀ t key, (m_now w <= t)%Z → kv_at k' t key = kv_at k t key.
Proof.
  intros [_ _ _ _ Hc] Hk. rewrite Hk in Hc. destruct (m_cache w) as [k|]; [|done]. eauto.
Qed.

Lemma marked_ext k k' t v :
  (∀ key, kv_at k' t key = kv_at k t key) → marked k t v → marked k' t v.
Proof. unfold marked, mark_of. intros He. by setoid_rewrite He. Qed.

Lemma view_at_ext k k' t h v :
  (∀ key, kv_at k' t key = kv_at k t key) → view_at k' t h v → view_at k t h v.
Proof. unfold view_at. intros He. by setoid_rewrite He. Qed.

Lemma Inv_stable D E w w' : stable w w' → Inv D E w → Inv D E w'.
Proof.
  intros Hs [I1 I2 I3 I4 I5 I6]. pose proof Hs as [Hr Ht Hn Hi _].
  split; rewrite ?Hr, ?Ht, ?Hn; try done.
  - intros n Hn'. apply I2. lia.
  - intros k' t h v Hk' Htime Hv. destruct (stable_cache _ _ _ Hs Hk') as (k & Hk & He).
    destruct (I6 k t h v Hk Htime) as (B1 & B2 & x & B3 & B4 & B5);
      [by eapply view_at_ext; [|done]; auto|].
    split_and!; try done. exists x. split_and!; try done. intros Hrev.
    destruct (B5 Hrev); [by left|right]. eapply marked_ext; [|done]. auto.
Qed.

(** [m] never changes what the invariant sees. *)
Definition Stable {A} (m : M W A) : Prop := ∀ w, stable w (m w).2.

Lemma Stable_ret {A} (a : A) : Stable (ret a).
Proof. intros w. apply stable_refl. Qed.
Lemma Stable_throw {A} e : Stable (throw (A:=A) e).
Proof. intros w. apply stable_refl. Qed.
Lemma Stable_gets {A} (f : W → A) : Stable (gets f).
Proof. intros w. apply stable_refl. Qed.
Lemma Stable_bind {A B} (m : M W A) (f : A → M W B) :
  Stable m → (∀ a, Stable (f a)) → Stable (bind m f).
Proof.
  intros Hm Hf w. unfold bind. specialize (Hm w).
  destruct (m w) as [[a|e] w1]; simpl in *; [|done]. eapply stable_trans; [done|apply Hf].
Qed.
Lemma Stable_attempt {A} (m : M W A) : Stable m → Stable (attempt m).
Proof. intros Hm w. unfold attempt. specialize (Hm w). by destruct (m w). Qed.
Lemma Stable_ignore {A} (m : M W A) : Stable m → Stable (ignore m).
Proof. intros Hm w. unfold ignore. specialize (Hm w). by destruct (m w). Qed.
Lemma Stable_emit e : Stable (emit e : M W unit).
Proof. intros w. split; simpl; try done. apply same_cache_refl. Qed.
Lemma Stable_RandomToken : Stable (RandomToken : M W string).
Proof.
  intros w. unfold RandomToken. destruct (m_entropy w); [apply stable_refl|].
  split; simpl; try done. apply same_cache_refl.
Qed.
Lemma Stable_storeM {A} (m : M S A) :
  (∀ s, rows (m s).2 = rows s ∧ tenants (m s).2 = tenants s) → Stable (storeM m).
Proof.
  intros Hm w. unfold storeM. destruct (Hm (m_st w)) as [Hr Ht]. destruct (m (m_st w)) as [r s'].
  split; simpl in *; try done. apply same_cache_refl.
Qed.
Lemma Stable_kv {A} d (m : Z → M K A) :
  (∀ now k r k', m now k = (r, k') → ∀ t key, (now <= t)%Z → kv_at k' t key = kv_at k t key) →
  Stable (now <- nowM ;; cacheM d (m now)).
Proof.
  intros Hm w. unfold nowM, gets, bind, cacheM. destruct (m_cache w) as [k|] eqn:Ek; [|apply stable_refl].
  destruct (m (m_now w) k) as [r k'] eqn:E. split; simpl; try done.
  rewrite Ek. simpl. intros t key Ht. by eapply Hm.
Qed.

Lemma Stable_kv_attempt {A} d (m : Z → M K A) :
  (∀ now k r k', m now k = (r, k') → ∀ t key, (now <= t)%Z → kv_at k' t key = kv_at k t key) →
  ∀ B (f : result A → M W B), (∀ r, Stable (f r)) →
  Stable (now <- nowM ;; r <- attempt (cacheM d (m now)) ;; f r).
Proof.
  intros Hm B f Hf w. pose proof (Stable_kv d m Hm w) as Hs.
  unfold nowM, gets, bind, attempt, cacheM in *. destruct (m_cache w) as [k|]; simpl in *.
  - destruct (m (m_now w) k) as [r k']. eapply stable_trans; [|apply Hf]. done.
  - apply Hf.
Qed.

Lemma read_get now key k (r : result (option value)) k' :
  kv_get now key k = (r, k') → ∀ t key', (now <= t)%Z → kv_at k' t key' = kv_at k t key'.
Proof. intros E. by apply kv_get_run in E as [_ ?]. Qed.

Lemma Stable_tenantVersion tid : Stable (tenantVersion tid : M W Z).
Proof.
  unfold tenantVersion. eapply (Stable_kv_attempt 0%Z (λ now, TenantVersion now tid)).
  - intros *. apply TenantVersion_run.
  - intros r. apply Stable_ret.
Qed.
Lemma Stable_getView h : Stable (getView h : M W (option view)).
Proof.
  unfold getView. eapply (Stable_kv_attempt None (λ now, kv_get now (SessionKey h))).
  - intros *. apply read_get.
  - intros r. apply Stable_ret.
Qed.
Lemma Stable_mark_at key : Stable (mark_at key : M W (option Z)).
Proof.
  unfold mark_at. eapply (Stable_kv_attempt None (λ now, RevokedAt now key)).
  - intros *. intros E. by apply RevokedAt_run in E as [? _].
  - intros r. apply Stable_ret.
Qed.
Lemma Stable_revoked v : Stable (revoked v : M W bool).
Proof.
  unfold revoked. apply Stable_bind; [apply Stable_mark_at|]. intros [a|]; [apply Stable_ret|].
  apply Stable_bind; [apply Stable_mark_at|]. intros u. destruct (match u with Some _ => _ | None => _ end);
    [apply Stable_ret|].
  apply Stable_bind; [apply Stable_mark_at|]. intros t. apply Stable_ret.
Qed.
Ltac store_read law := apply Stable_storeM; intros ?;
  match goal with |- context [snd ?x] =>
    let r := fresh in let s' := fresh in let E := fresh in
    destruct x as [r s'] eqn:E; apply law in E; simpl; naive_solver end.
Lemma Stable_loadProfile v : Stable (loadProfile v : M W view).
Proof.
  unfold loadProfile. apply Stable_bind; [apply Stable_attempt|intros; apply Stable_ret].
  store_read ss_user_law.
Qed.
Lemma Stable_ss_roles tid uid : Stable (storeM (ss_roles tid uid) : M W _).
Proof. store_read ss_roles_law. Qed.
Lemma Stable_ss_get tid id : Stable (storeM (ss_get tid id) : M W _).
Proof. store_read ss_get_law. Qed.
Lemma Stable_ss_get_by_hash h : Stable (storeM (ss_get_by_hash h) : M W _).
Proof. store_read ss_get_by_hash_law. Qed.
Lemma Stable_ss_list_user now tid uid : Stable (storeM (ss_list_user now tid uid) : M W _).
Proof. store_read ss_list_user_law. Qed.
Lemma Stable_refreshIfStale v : Stable (refreshIfStale v : M W view).
Proof.
  unfold refreshIfStale. apply Stable_bind; [apply Stable_tenantVersion|]. intros cur.
  case_bool_decide; [apply Stable_ret|].
  apply Stable_bind; [apply Stable_attempt, Stable_ss_roles|]. intros [roles|e]; [|apply Stable_ret].
  apply Stable_loadProfile.
Qed.
Lemma Stable_liveTenant x : Stable (liveTenant x : M W _).
Proof.
  unfold liveTenant. apply Stable_bind; [apply Stable_attempt; store_read ss_tenant_law|].
  intros [t|e]; [|apply Stable_throw]. case_bool_decide; [apply Stable_throw|].
  destruct (ParsePolicy _ _) as [pol [e|]]; [apply Stable_throw|apply Stable_ret].
Qed.

(** *** Assertions on the view at hand *)
Definition good (v : view) (w : W) : Prop :=
  (vIdle v <= R)%Z ∧ ∃ x, rowsW w !! vID v = Some x ∧ agrees v x ∧ SRevokedAt x = None.

(** As read from the cache: a revoked row has its mark, read now. *)
Definition cachedv (v : view) (w : W) : Prop :=
  (vIdle v <= R)%Z ∧ ∃ x, rowsW w !! vID v = Some x ∧ agrees v x ∧
    (SRevokedAt x ≠ None → ∃ k, m_cache w = Some k ∧ marked k (m_now w) v).

(** Whatever view is cached under [h] now is of session [id]. *)
Definition at_key (h id : string) (w : W) : Prop :=
  ∀ k v, m_cache w = Some k → view_at k (m_now w) h v → vID v = id.

Definition respects (P : W → Prop) : Prop := ∀ w w', stable w w' → P w → P w'.

Lemma respects_and P Q : respects P → respects Q → respects (λ w, P w ∧ Q w).
Proof. intros HP HQ w w' Hs [? ?]. split; eauto. Qed.
Lemma respects_Inv D E : respects (Inv D E).
Proof. intros w w'. apply Inv_stable. Qed.
Lemma respects_good v : respects (good v).
Proof. intros w w' [Hr _ _ _ _]. unfold good. by rewrite Hr. Qed.
Lemma respects_cachedv v : respects (cachedv v).
Proof.
  intros w w' Hs (B & x & Hx & Ha & Hm). pose proof Hs as [Hr _ Hn _ Hc]. unfold cachedv. rewrite Hr, Hn.
  split; [done|]. exists x. split_and!; try done. intros Hrev. destruct (Hm Hrev) as (k & Hk & Hmk).
  rewrite Hk in Hc. destruct (m_cache w') as [k'|]; [|done]. exists k'. split; [done|].
  eapply marked_ext; [|done]. intros key. by apply Hc.
Qed.
Lemma respects_at_key h id : respects (at_key h id).
Proof.
  intros w w' Hs Ha k' v Hk' Hv. destruct (stable_cache _ _ _ Hs Hk') as (k & Hk & He).
  pose proof Hs as [_ _ Hn _ _]. rewrite Hn in Hv. eapply (Ha k v); [done|].
  eapply view_at_ext; [|done]. auto with lia.
Qed.
Lemma respects_const (P : Prop) : respects (λ _, P).
Proof. by intros w w' _. Qed.
Hint Resolve respects_and respects_Inv respects_good respects_cachedv respects_at_key respects_const : auth.

(** *** Triples: errors re-establish the invariant *)
Definition none : view → Prop := λ _, False.
Section Triples.
Context (D : string → Prop).
Notation I := (Inv D none).

Definition HT {A} (P : W → Prop) (m : M W A) (Q : A → W → Prop) : Prop :=
  ∀ w, P w → match m w with (Ok a, w') => Q a w' | (Err _, w') => I w' end.

Lemma HT_ret {A} (P : W → Prop) (a : A) (Q : A → W → Prop) : (∀ w, P w → Q a w) → HT P (ret a) Q.
Proof. intros Hq w Hw. by apply Hq. Qed.
Lemma HT_throw {A} (P : W → Prop) e (Q : A → W → Prop) : (∀ w, P w → I w) → HT P (throw e) Q.
Proof. intros Hq w Hw. by apply Hq. Qed.
Lemma HT_bind {A B} P (m : M W A) (f : A → M W B) Q T :
  HT P m Q → (∀ a, HT (Q a) (f a) T) → HT P (bind m f) T.
Proof.
  intros Hm Hf w Hw. unfold bind. specialize (Hm w Hw). destruct (m w) as [[a|e] w1]; [|done].
  by apply Hf.
Qed.
Lemma HT_pure {A} (P : W → Prop) (F : Prop) (m : M W A) Q :
  (∀ w, P w → F) → (F → HT P m Q) → HT P m Q.
Proof. intros HF Hm w Hw. apply Hm; eauto. Qed.
Lemma HT_conseq {A} (P P' : W → Prop) (m : M W A) (Q Q' : A → W → Prop) :
  HT P' m Q' → (∀ w, P w → P' w) → (∀ a w, Q' a w → Q a w) → HT P m Q.
Proof.
  intros Hm HP HQ w Hw. specialize (Hm w (HP w Hw)). destruct (m w) as [[a|e] w1]; auto.
Qed.
Lemma HT_ignore {A} P (m : M W A) : HT P m (λ _, I) → HT P (ignore m) (λ _, I).
Proof. intros Hm w Hw. unfold ignore. specialize (Hm w Hw). by destruct (m w) as [[a|e] w1]. Qed.

(** Reads, with a fact about the answer in the state they run in. *)
Lemma HT_read {A} (P : W → Prop) (m : M W A) (Q : A → W → Prop) :
  Stable m → respects P → (∀ w, P w → I w) →
  (∀ w a, P w → (m w).1 = Ok a → Q a w) → (∀ a, respects (Q a)) →
  HT P m (λ a w, P w ∧ Q a w).
Proof.
  intros Hs HP HI HQ HrQ w Hw. specialize (Hs w). specialize (HQ w).
  destruct (m w) as [[a|e] w1]; simpl in *; [split|].
  - by eapply HP.
  - eapply HrQ; [done|]. by apply HQ.
  - eapply respects_Inv; [done|]. by apply HI.
Qed.
Lemma HT_stable {A} (P : W → Prop) (m : M W A) :
  Stable m → respects P → (∀ w, P w → I w) → HT P m (λ _, P).
Proof.
  intros Hs HP HI. eapply HT_conseq; [by apply (HT_read P m (λ _ _, True)); auto with auth|done|].
  by intros a w [? _].
Qed.

(** *** Reads *)
Lemma mark_at_spec key w : ∃ w',
  mark_at key w = (Ok (match m_cache w with
                       | Some k => match kv_at k (m_now w) key with
                                   | Some (Raw s) => ParseInt s
                                   | _ => None end
                       | None => None end), w').
Proof.
  unfold mark_at, nowM, gets, bind, attempt, cacheM. destruct (m_cache w) as [k|]; [|by eexists].
  destruct (RevokedAt (m_now w) key k) as [r k'] eqn:E. apply RevokedAt_run in E as [_ Hr].
  eexists. unfold ret. do 2 f_equal.
  destruct (kv_at k (m_now w) key) as [[s|j]|]; [destruct (ParseInt s)|..]; by rewrite Hr.
Qed.

Lemma mark_at_Some k w key n :
  m_cache w = Some k → mark_of k (m_now w) key n → ∃ w', mark_at key w = (Ok (Some n), w') ∧ stable w w'.
Proof.
  intros Hk (s & Hat & Hp). destruct (mark_at_spec key w) as [w' E]. rewrite Hk, Hat, Hp in E.
  exists w'. split; [done|]. pose proof (Stable_mark_at key w) as Hs. by rewrite E in Hs.
Qed.

Lemma mark_at_run key w : ∃ o w', mark_at key w = (Ok o, w') ∧ stable w w'.
Proof.
  destruct (mark_at_spec key w) as [w' E]. do 2 eexists. split; [done|].
  pose proof (Stable_mark_at key w) as Hs. by rewrite E in Hs.
Qed.

Lemma mark_of_stable w w' k k' key n :
  stable w w' → m_cache w = Some k → m_cache w' = Some k' →
  mark_of k (m_now w) key n → mark_of k' (m_now w') key n.
Proof.
  intros [_ _ Hn _ Hc] Hk Hk' (s & Hat & Hp). rewrite Hk, Hk' in Hc. exists s. split; [|done].
  rewrite Hn, Hc; [done|lia].
Qed.

Lemma stable_cache_Some w w' k : stable w w' → m_cache w = Some k → ∃ k', m_cache w' = Some k'.
Proof. intros [_ _ _ _ Hc] Hk. rewrite Hk in Hc. destruct (m_cache w'); [eauto|done]. Qed.

(** The check every resolution makes sees a live mark. *)
Lemma revoked_marked k w v b :
  m_cache w = Some k → marked k (m_now w) v → (revoked v w).1 = Ok b → b = true.
Proof.
  intros Hk Hm. unfold revoked, bind.
  destruct (mark_at_run (RevokedSessionKey (vID v)) w) as (o1 & w1 & E1 & S1). rewrite E1.
  destruct o1 as [n1|]; [by intros [= <-]|].
  destruct (mark_at_run (RevokedUserKey (vUserID v)) w1) as (o2 & w2 & E2 & S2). rewrite E2.
  destruct (stable_cache_Some _ _ _ S1 Hk) as [k1 Hk1].
  destruct (stable_cache_Some _ _ _ S2 Hk1) as [k2 Hk2].
  destruct Hm as [[n Hm]|[(n & Hm & Hle)|(n & Hm & Hle)]].
  - destruct (mark_at_Some _ _ _ _ Hk Hm) as (w' & E & _). congruence.
  - eapply (mark_of_stable w w1) in Hm; [|done..].
    destruct (mark_at_Some _ _ _ _ Hk1 Hm) as (w' & E & _). rewrite E in E2. injection E2 as <- <-.
    rewrite (proj2 (Z.ltb_ge n (vCreatedAt v))) by done. by intros [= <-].
  - eapply (mark_of_stable w w1) in Hm; [|done..]. eapply (mark_of_stable w1 w2) in Hm; [|done..].
    destruct (mark_at_Some _ _ _ _ Hk2 Hm) as (w' & E & _).
    destruct (match o2 with Some _ => _ | None => _ end); [by intros [= <-]|].
    rewrite E. simpl. intros [= <-]. by rewrite (proj2 (Z.ltb_ge n (vCreatedAt v))).
Qed.

Lemma getView_spec h w ov :
  (getView h w).1 = Ok ov →
  match ov with
  | Some v => ∃ k, m_cache w = Some k ∧ view_at k (m_now w) h v
  | None => ∀ k v, m_cache w = Some k → ¬ view_at k (m_now w) h v
  end.
Proof.
  unfold getView, nowM, gets, bind, attempt, cacheM. destruct (m_cache w) as [k|]; [|by intros [= <-]].
  destruct (kv_get (m_now w) (SessionKey h) k) as [r k'] eqn:E. apply kv_get_run in E as [-> _].
  simpl. unfold view_at. destruct (kv_at k (m_now w) (SessionKey h)) as [[s|j]|] eqn:Ea; intros [= <-].
  - intros k0 v [= <-] (j & ? & _). congruence.
  - destruct (view_of_json j) as [v|] eqn:Ev; [eauto 10|]. intros k0 v [= <-] (j' & ? & ?). congruence.
  - intros k0 v [= <-] (j & ? & _). congruence.
Qed.

Lemma HT_getView h :
  HT I (getView h) (λ ov w, I w ∧ match ov with
    | Some v => cachedv v w ∧ at_key h (vID v) w
    | None => ∀ id, at_key h id w end).
Proof.
  apply (HT_read I _ (λ ov w, match ov with
    | Some v => cachedv v w ∧ at_key h (vID v) w | None => ∀ id, at_key h id w end));
    auto using Stable_getView, respects_Inv.
  - intros w ov HI Hg. apply getView_spec in Hg. destruct ov as [v|].
    + destruct Hg as (k & Hk & Hv). split.
      * destruct (inv_views _ _ _ HI k (m_now w) h v) as (_ & B & x & Hx & Ha & Hm); [done|lia|done|].
        split; [done|]. exists x. split_and!; try done. intros Hrev. exists k. split; [done|].
        by destruct (Hm Hrev).
      * intros k' v' Hk' (j & Hj & Hv'). destruct Hv as (j0 & ? & ?). congruence.
    + intros id k v Hk Hv. by destruct (Hg k v).
  - intros [v|]; [auto with auth|]. intros w w' Hs Hw id. by eapply respects_at_key.
Qed.

(** Refreshing a view keeps whose session it is. *)
Definition same_ident v v' : Prop :=
  vID v' = vID v ∧ vTenantID v' = vTenantID v ∧ vUserID v' = vUserID v ∧
  vCreatedAt v' = vCreatedAt v ∧ vIdle v' = vIdle v.

Lemma same_ident_trans v1 v2 v3 : same_ident v1 v2 → same_ident v2 v3 → same_ident v1 v3.
Proof. unfold same_ident. naive_solver congruence. Qed.

Lemma cachedv_ident v v' w : same_ident v v' → cachedv v w → cachedv v' w.
Proof.
  intros (E1 & E2 & E3 & E4 & E5). unfold cachedv, agrees, marked. by rewrite E1, E2, E3, E4, E5.
Qed.
Lemma good_ident v v' w : same_ident v v' → good v w → good v' w.
Proof. intros (E1 & E2 & E3 & E4 & E5). unfold good, agrees. by rewrite E1, E2, E3, E4, E5. Qed.

Lemma loadProfile_ident v w v' : (loadProfile v w).1 = Ok v' → same_ident v v'.
Proof.
  unfold loadProfile, bind, attempt. destruct (storeM _ w) as [[u|e] w1]; by intros [= <-].
Qed.

Lemma refreshIfStale_ident v w v' : (refreshIfStale v w).1 = Ok v' → same_ident v v'.
Proof.
  unfold refreshIfStale. unfold bind at 1. destruct (tenantVersion _ w) as [[cur|e] w1]; [|done].
  case_bool_decide; [by intros [= <-]|]. unfold bind, attempt.
  destruct (storeM _ w1) as [[roles|e] w2]; [|by intros [= <-]].
  intros Hl. by apply loadProfile_ident in Hl.
Qed.

Lemma HT_read_pure {A} P (m : M W A) (F : A → Prop) :
  Stable m → respects P → (∀ w, P w → I w) → (∀ w a, P w → (m w).1 = Ok a → F a) →
  HT P m (λ a w, P w ∧ F a).
Proof. intros. apply (HT_read P m (λ a _, F a)); auto with auth. Qed.

Lemma HT_frame {A} P (m : M W A) Q (F : W → Prop) :
  Stable m → respects F → HT P m Q → HT (λ w, P w ∧ F w) m (λ a w, Q a w ∧ F w).
Proof.
  intros Hs HF Hm w [Hw HFw]. specialize (Hm w Hw). specialize (Hs w).
  destruct (m w) as [[a|e] w1]; [|done]. split; [done|]. by eapply HF.
Qed.

Lemma liveTenant_idle x w tp :
  idle_bounded (tenantsW w) → (liveTenant x w).1 = Ok tp → (IdleTimeout tp.2 <= R)%Z.
Proof.
  intros HI. unfold liveTenant, bind, attempt, storeM.
  destruct (ss_tenant (STenantID x) (m_st w)) as [r s'] eqn:E. apply ss_tenant_law in E as (_ & _ & Ht).
  destruct r as [t|e]; [|done]. case_bool_decide; [done|].
  destruct (ParsePolicy _ _) as [pol [e|]] eqn:Ep; [done|]. intros [= <-]. simpl.
  eapply HI; [|done]. by apply Ht.
Qed.

Lemma HT_liveTenant x P : respects P → (∀ w, P w → I w) →
  HT P (liveTenant x) (λ tp w, P w ∧ (IdleTimeout tp.2 <= R)%Z).
Proof.
  intros HP HI. apply (HT_read_pure P _ (λ tp, (IdleTimeout tp.2 <= R)%Z)); auto using Stable_liveTenant.
  intros w a Hw. by apply liveTenant_idle, (inv_idle _ _ _ (HI w Hw)).
Qed.

Definition row_of (x : Session) w : Prop := rowsW w !! SID x = Some x.
Lemma respects_row_of x : respects (row_of x).
Proof. intros w w' [Hr _ _ _ _]. unfold row_of. by rewrite Hr. Qed.
Hint Resolve respects_row_of : auth.

Lemma good_rowView x t pol roles w :
  row_of x w → SRevokedAt x = None → (IdleTimeout pol <= R)%Z → good (rowView x t pol roles) w.
Proof. intros Hx Hr Hi. split; [done|]. exists x. done. Qed.

Lemma HT_ss_get_by_hash h :
  HT I (attempt (storeM (ss_get_by_hash h)))
    (λ r w, I w ∧ match r with Ok x => row_of x w | Err _ => True end).
Proof.
  apply (HT_read I _ (λ r w, match r with Ok x => row_of x w | Err _ => True end));
    auto using Stable_attempt, Stable_ss_get_by_hash, respects_Inv.
  - intros w r HI. unfold attempt, storeM. destruct (ss_get_by_hash h (m_st w)) as [r' s'] eqn:E.
    apply ss_get_by_hash_law in E as (_ & _ & Hx). intros [= <-]. destruct r' as [x|e]; [|done].
    destruct (Hx x eq_refl) as [_ [id Hid]]. unfold row_of.
    destruct (inv_rows _ _ _ HI id x Hid) as [-> _]. done.
  - intros [x|e]; auto with auth.
Qed.

Lemma HT_ss_get tid id P : respects P → (∀ w, P w → I w) →
  HT P (attempt (storeM (ss_get tid id)))
    (λ r w, P w ∧ match r with Ok x => row_of x w ∧ SID x = id | Err _ => True end).
Proof.
  intros HP HI. apply (HT_read P _ (λ r w, match r with Ok x => row_of x w ∧ SID x = id | Err _ => True end));
    auto using Stable_attempt, Stable_ss_get.
  - intros w r Hw. unfold attempt, storeM. destruct (ss_get tid id (m_st w)) as [r' s'] eqn:E.
    apply ss_get_law in E as (_ & _ & Hx). intros [= <-]. destruct r' as [x|e]; [|done].
    destruct (Hx x eq_refl) as [Hid _]. unfold row_of.
    destruct (inv_rows _ _ _ (HI w Hw) id x Hid) as [-> _]. done.
  - intros [x|e]; auto with auth.
Qed.

Lemma HT_loadProfile v P : respects P → (∀ w, P w → I w) → (∀ w, P w → good v w) →
  HT P (loadProfile v) (λ v' w, P w ∧ good v' w ∧ same_ident v v').
Proof.
  intros HP HI Hg. apply (HT_read P _ (λ v' w, good v' w ∧ same_ident v v'));
    auto using Stable_loadProfile with auth.
  intros w v' Hw Hl. apply loadProfile_ident in Hl. split; [|done]. eapply good_ident; eauto.
Qed.

Lemma Stable_loadView h : Stable (loadView h : M W view).
Proof.
  unfold loadView. apply Stable_bind; [apply Stable_attempt, Stable_ss_get_by_hash|].
  intros [x|e]; [|apply Stable_throw]. destruct (SRevokedAt x); [apply Stable_throw|].
  apply Stable_bind; [apply Stable_liveTenant|]. intros tp.
  apply Stable_bind; [apply Stable_ss_roles|]. intros roles.
  apply Stable_bind; [apply Stable_tenantVersion|]. intros pv. apply Stable_loadProfile.
Qed.

Lemma HT_loadView h : HT I (loadView h) (λ v w, I w ∧ good v w).
Proof.
  unfold loadView. eapply HT_bind; [apply HT_ss_get_by_hash|]. intros [x|e]; [|apply HT_throw; tauto].
  destruct (SRevokedAt x) eqn:Er; [apply HT_throw; tauto|].
  eapply HT_bind; [apply HT_liveTenant; auto with auth; tauto|]. intros tp. simpl.
  eapply HT_bind; [apply HT_stable; auto using Stable_ss_roles with auth; tauto|]. intros roles. simpl.
  eapply HT_bind; [apply HT_stable; auto using Stable_tenantVersion with auth; tauto|]. intros pv. simpl.
  eapply HT_conseq; [apply (HT_loadProfile _ (λ w, (I w ∧ row_of x w) ∧ (IdleTimeout tp.2 <= R)%Z))
                    |done|naive_solver]; auto with auth; [tauto|].
  intros w ((HI & Hx) & Hi). by apply (good_ident (rowView x tp.1 tp.2 roles)), good_rowView.
Qed.

Lemma good_cachedv v w : good v w → cachedv v w.
Proof. intros (B & x & Hx & Ha & Hr). split; [done|]. exists x. by rewrite Hr. Qed.

Lemma HT_refresh v P : respects P → (∀ w, P w → I w ∧ cachedv v w) →
  HT P (refreshIfStale v) (λ v' w, P w ∧ cachedv v' w ∧ same_ident v v').
Proof.
  intros HP HI. apply (HT_read P _ (λ v' w, cachedv v' w ∧ same_ident v v'));
    auto using Stable_refreshIfStale with auth.
  - intros w Hw. by apply HI.
  - intros w v' Hw Hl. apply refreshIfStale_ident in Hl. split; [|done]. eapply cachedv_ident; [done|].
    by apply HI.
Qed.

(** A view that passes the check belongs to an unrevoked session. *)
Lemma HT_revoked v P : respects P → (∀ w, P w → I w ∧ cachedv v w) →
  HT P (revoked v) (λ b w, P w ∧ (b = false → good v w)).
Proof.
  intros HP HI. apply (HT_read P _ (λ b w, b = false → good v w)); auto using Stable_revoked.
  - intros w Hw. by apply HI.
  - intros w b Hw Hb ->. destruct (HI w Hw) as [_ (B & x & Hx & Ha & Hm)]. split; [done|].
    exists x. split_and!; try done. destruct (SRevokedAt x) eqn:Er; [|done].
    destruct Hm as (k & Hk & Hmk); [done|]. by pose proof (revoked_marked _ _ _ _ Hk Hmk Hb).
  - intros b w w' Hs Hg Eb. by eapply respects_good; [|apply Hg].
Qed.

(** *** Writes *)
Lemma session_key_ne_rev key h :
  (∃ x, key = RevokedSessionKey x ∨ key = RevokedUserKey x ∨ key = RevokedTenantKey x) → key ≠ SessionKey h.
Proof. intros (x & [->|[->| ->]]); done. Qed.
Lemma SessionKey_inj h h' : SessionKey h = SessionKey h' → h = h'.
Proof. unfold SessionKey. cbn. by intros [= ->]. Qed.

(** Writing only session views keeps the marks. *)
Definition marks_kept (now : Z) k k' : Prop :=
  ∀ t x, (now <= t)%Z →
    kv_at k' t (RevokedSessionKey x) = kv_at k t (RevokedSessionKey x) ∧
    kv_at k' t (RevokedUserKey x) = kv_at k t (RevokedUserKey x) ∧
    kv_at k' t (RevokedTenantKey x) = kv_at k t (RevokedTenantKey x).
Lemma marked_kept now k k' t v : marks_kept now k k' → (now <= t)%Z → marked k t v → marked k' t v.
Proof.
  intros Hk Ht. unfold marked, mark_of.
  destruct (Hk t (vID v) Ht) as (-> & _ & _). destruct (Hk t (vUserID v) Ht) as (_ & -> & _).
  destruct (Hk t (vTenantID v) Ht) as (_ & _ & ->). done.
Qed.

Definition with_cache (w : W) k : W :=
  mkManager (m_st w) (Some k) (m_audit w) (m_now w) (m_entropy w) (m_ids w).

(** Replacing the cache: the marks stay, every view in it was there before
    or is of a live session. *)
Lemma Inv_views_write E w k k' :
  Inv D E w → m_cache w = Some k → marks_kept (m_now w) k k' →
  (∀ t h v, (m_now w <= t)%Z → view_at k' t h v →
     view_at k t h v ∨ (good v w ∧ (t < m_now w + R)%Z)) →
  Inv D E (with_cache w k').
Proof.
  intros [I1 I2 I3 I4 I5 I6] Hk Hm Hv. split; try done.
  intros k0 t h v [= <-] Ht Hat. simpl in Ht.
  destruct (Hv t h v Ht Hat) as [Hat'|[(B & x & Hx & Ha & Hr) Htime]].
  - destruct (I6 k t h v Hk Ht Hat') as (B1 & B2 & x & Hx & Ha & Hrev). split_and!; try done.
    exists x. split_and!; try done. intros Hr. destruct (Hrev Hr); [by left|right]. by eapply marked_kept.
  - split_and!; try done. exists x. split_and!; try done.
Qed.

Lemma view_ttl_le now v : (view_ttl now v <= vIdle v)%Z.
Proof.
  unfold view_ttl. destruct (vExpiresAt v - now <? vIdle v)%Z eqn:?; destruct (vGraceUntil v); bool_prop;
    try (destruct (_ <? _)%Z eqn:?; bool_prop); lia.
Qed.

Lemma putView_run h v w :
  I w → good v w →
  ∃ w', putView h v w = (Ok tt, w') ∧ I w' ∧ rowsW w' = rowsW w ∧ m_now w' = m_now w ∧
    ∀ id, vID v = id → at_key h id w → at_key h id w'.
Proof.
  intros HI Hg. unfold putView, nowM, gets, bind. destruct (0 <? view_ttl (m_now w) v)%Z eqn:Et;
    [|exists w; by split_and!].
  unfold ignore, cacheM. destruct (m_cache w) as [k|] eqn:Ek; [|exists w; by split_and!].
  destruct (kv_set_law (m_now w) (SessionKey h) (Json (view_json v)) (view_ttl (m_now w) v) k)
    as (k' & E & Hk'). rewrite E. eexists. split; [done|]. bool_prop.
  change (mkManager _ _ _ _ _ _) with (with_cache w k'). split_and!; try done.
  - eapply Inv_views_write; [done..| |].
    + intros t x Ht. rewrite !Hk' by done. by rewrite !decide_False.
    + intros t h' v' Ht (j & Hj & Hv'). rewrite Hk' in Hj by done. case_decide as Hh; [|left; by exists j].
      right. unfold ttl_live in Hj. rewrite (proj2 (Z.leb_gt _ _)) in Hj by done. simpl in Hj.
      destruct (t <? _)%Z eqn:Hlt in Hj; [|done]. injection Hj as <-. rewrite view_of_view_json in Hv'.
      injection Hv' as <-. split; [done|]. bool_prop. pose proof (view_ttl_le (m_now w) v).
      destruct Hg as [? _]. lia.
  - intros id Hid Hat k0 v' [= <-] (j & Hj & Hv'). simpl in Hj. rewrite Hk', decide_True in Hj by (done || lia).
    destruct (ttl_live _ _ _); [|done]. injection Hj as <-. rewrite view_of_view_json in Hv'. congruence.
Qed.

Lemma evictView_run h w :
  ∃ w', evictView h w = (Ok tt, w') ∧ (∀ E, Inv D E w → Inv D E w') ∧ rowsW w' = rowsW w ∧ m_now w' = m_now w.
Proof.
  unfold evictView, nowM, gets, bind, ignore, cacheM. destruct (m_cache w) as [k|] eqn:Ek; [|by exists w].
  destruct (kv_del_law (m_now w) [SessionKey h] k) as (k' & E & Hk'). rewrite E. eexists. split; [done|].
  change (mkManager _ _ _ _ _ _) with (with_cache w k'). split_and!; try done.
  intros E' HI. eapply Inv_views_write; [done..| |].
  - intros t x Ht. rewrite !Hk' by done. rewrite !decide_False by (rewrite list_elem_of_singleton; done). done.
  - intros t h' v Ht (j & Hj & Hv). rewrite Hk' in Hj by done. case_decide; [done|]. left. by exists j.
Qed.

Lemma HT_putView h v F :
  (∀ w w', rowsW w' = rowsW w → m_now w' = m_now w → F w → F w') →
  HT (λ w, I w ∧ good v w ∧ F w) (putView h v) (λ _ w, I w ∧ good v w ∧ F w).
Proof.
  intros HF w (HI & Hg & Hf). destruct (putView_run h v w HI Hg) as (w' & -> & HI' & Hr & Hn & _).
  split_and!; [done| |by eapply HF]. unfold good. by rewrite Hr.
Qed.

Lemma HT_evictView h : HT I (evictView h) (λ _, I).
Proof. intros w HI. destruct (evictView_run h w) as (w' & -> & HI' & _). auto. Qed.

Definition with_store (w : W) (s : S) : W :=
  mkManager s (m_cache w) (m_audit w) (m_now w) (m_entropy w) (m_ids w).

(** The views whose session a store write revokes. *)
Definition newly (P : string → Session → Prop) w v : Prop :=
  ∃ x, rowsW w !! vID v = Some x ∧ agrees v x ∧ SRevokedAt x = None ∧ P (vID v) x.

Lemma Inv_evolves P E w s' :
  Inv D E w → tenants s' = tenantsW w → evolves P (rowsW w) (rows s') →
  Inv D (λ v, E v ∨ newly P w v) (with_store w s').
Proof.
  intros [I1 I2 I3 I4 I5 I6] Ht He. split; unfold rowsW, tenantsW in *; simpl; try done.
  - intros id x' Hx'. destruct (evolves_bwd _ _ _ _ _ He Hx') as (x & Hx & (Ei & _ & _ & Ec) & _).
    destruct (I1 _ _ Hx). split; congruence || lia.
  - intros n Hn. specialize (He (newID n)). rewrite (I2 n Hn) in He. by destruct (rows s' !! newID n).
  - by rewrite Ht.
  - intros id Hd. destruct (I5 id Hd) as (x & Hx & Hr).
    destruct (evolves_fwd _ _ _ _ _ He Hx) as (x' & Hx' & _ & Hrev). exists x'. split; [done|].
    destruct Hrev as [->|[_ ?]]; done.
  - intros k t h v Hk Htime Hv. destruct (I6 k t h v Hk Htime Hv) as (B1 & B2 & x & Hx & Ha & Hm).
    split_and!; try done. destruct (evolves_fwd _ _ _ _ _ He Hx) as (x' & Hx' & (C1 & C2 & C3 & C4) & Hrev).
    exists x'. split_and!; [done| |].
    + destruct Ha as (A1 & A2 & A3 & A4). repeat split; congruence.
    + intros Hr'. destruct Hrev as [Heq|[HP _]]; [rewrite Heq in Hr'; destruct (Hm Hr'); tauto|].
      destruct (SRevokedAt x) eqn:Er; [destruct Hm; [done|tauto|tauto]|].
      left. right. exists x. done.
Qed.

Lemma Inv_evolves_none E w s' :
  Inv D E w → tenants s' = tenantsW w → evolves (λ _ _, False) (rowsW w) (rows s') →
  Inv D E (with_store w s').
Proof.
  intros HI Ht He. pose proof (Inv_evolves _ _ _ _ HI Ht He) as [J1 J2 J3 J4 J5 J6]. split; try done.
  intros k t h v Hk Htime Hv. destruct (J6 k t h v Hk Htime Hv) as (B1 & B2 & x & Hx & Ha & Hm).
  split_and!; try done. exists x. split_and!; try done. intros Hr.
  destruct (Hm Hr) as [[?|(? & _ & _ & _ & [])]|?]; auto.
Qed.

Definition covers (key : string) v : Prop :=
  key = RevokedSessionKey (vID v) ∨ key = RevokedUserKey (vUserID v) ∨ key = RevokedTenantKey (vTenantID v).

Lemma marked_covers k t v key n :
  mark_of k t key n → covers key v → (vCreatedAt v <= n)%Z → marked k t v.
Proof. intros Hm [->|[->| ->]] Hn; unfold marked; eauto 10. Qed.

(** A fresh mark at [now] lives as long as any view it concerns. *)
Lemma Inv_mark (E E' : view → Prop) w k k' r key :
  Inv D E w → m_cache w = Some k →
  MarkRevoked (m_now w) key (m_now w) R k = (r, k') →
  (∃ x, key = RevokedSessionKey x ∨ key = RevokedUserKey x ∨ key = RevokedTenantKey x) →
  (∀ v, E v → E' v ∨ covers key v) → Inv D E' (with_cache w k').
Proof.
  intros HI Hk Er Hkey HE. apply MarkRevoked_run in Er as [_ Hk'].
  destruct HI as [I1 I2 I3 I4 I5 I6]. split; try done.
  intros k0 t h v [= <-] Ht (j & Hj & Hv). simpl in Ht.
  rewrite Hk' in Hj by done. rewrite decide_False in Hj by (intros Eq; by eapply session_key_ne_rev).
  destruct (I6 k t h v Hk Ht) as (B1 & B2 & x & Hx & Ha & Hm); [by exists j|]. split_and!; try done.
  exists x. split_and!; try done. intros Hr.
  assert (Hlive : mark_of k' t key (m_now w)).
  { exists (FormatInt (m_now w)). rewrite Hk', decide_True by done. split; [|by apply ParseInt_FormatInt].
    unfold ttl_live. rewrite (proj2 (Z.ltb_lt t _)) by done. by rewrite orb_true_r. }
  assert (Hc : (vCreatedAt v <= m_now w)%Z).
  { destruct Ha as (_ & _ & _ & ->). by apply (I1 _ _ Hx). }
  assert (Hkeep : marked k t v → marked k' t v).
  { intros Hmk. destruct (decide (covers key v)) as [Hcov|Hcov]; [by eapply marked_covers|].
    unfold covers in Hcov. unfold marked, mark_of in *. rewrite !Hk' by done.
    rewrite !decide_False by (intros Eq; apply Hcov; eauto). done. }
  destruct (Hm Hr) as [He|Hmk]; [|by right; apply Hkeep].
  destruct (HE v He) as [?|Hcov]; [by left|right]. by eapply marked_covers.
Qed.

Definition key_of (kind sub : string) : option string :=
  if decide (kind = "session") then Some (RevokedSessionKey sub)
  else if decide (kind = "user") then Some (RevokedUserKey sub)
  else if decide (kind = "tenant") then Some (RevokedTenantKey sub) else None.

Lemma publish_run (E E' : view → Prop) w kind sub tid reason key :
  Inv D E w → key_of kind sub = Some key → (∀ v, E v → E' v ∨ covers key v) →
  ∃ w', publish (mkRevocation (m_now w) kind sub tid reason) w = (Ok tt, w') ∧
    Inv D E' w' ∧ rowsW w' = rowsW w ∧ m_now w' = m_now w.
Proof.
  intros HI Hkey HE. unfold publish, storeM, nowM, gets, lift, bind. simpl.
  destruct (ss_insert_revocation_law (mkRevocation (m_now w) kind sub tid reason) (m_st w))
    as (s' & -> & Hr & Ht). simpl.
  assert (HI' : Inv D E (with_store w s')).
  { eapply Inv_stable; [|done]. split; try done. apply same_cache_refl. }
  destruct (m_cache w) as [k|] eqn:Ek.
  - assert (Hx : ∃ x, key = RevokedSessionKey x ∨ key = RevokedUserKey x ∨ key = RevokedTenantKey x).
    { unfold key_of in Hkey. repeat case_decide; simplify_eq; eauto. }
    replace (if decide (kind = "session") then _ else _) with (@Ok string key)
      by (unfold key_of in Hkey; repeat case_decide; simplify_eq; done).
    unfold cacheM. simpl.
    destruct (MarkRevoked (m_now w) key (m_now w) R k) as [r k'] eqn:E1.
    pose proof (MarkRevoked_run _ _ _ _ _ _ _ E1) as [-> _]. eexists. split; [done|].
    pose proof (Inv_mark E E' (with_store w s') k k' _ key HI' Ek E1 Hx HE) as HJ.
    split_and!; try done.
  - eexists. split; [done|]. split_and!; try done. destruct HI' as [J1 J2 J3 J4 J5 _]. split; try done.
Qed.

(** *** Operations *)
Lemma Inv_weaken (E E' : view → Prop) w : (∀ v, E v → E' v) → Inv D E w → Inv D E' w.
Proof.
  intros HE [I1 I2 I3 I4 I5 I6]. split; try done. intros k t h v Hk Ht Hv.
  destruct (I6 k t h v Hk Ht Hv) as (B1 & B2 & x & Hx & Ha & Hm). split_and!; try done.
  exists x. split_and!; try done. intros Hr. destruct (Hm Hr); auto.
Qed.

(** A store write followed by the mark that covers what it revoked. *)
Lemma publish_after P w s' kind sub tid reason key :
  I w → tenants s' = tenantsW w → evolves P (rowsW w) (rows s') → key_of kind sub = Some key →
  (∀ v, newly P w v → covers key v) →
  ∃ w', publish (mkRevocation (m_now w) kind sub tid reason) (with_store w s') = (Ok tt, w') ∧
    I w' ∧ rowsW w' = rows s'.
Proof.
  intros HI Ht He Hk Hc.
  destruct (publish_run (λ v, none v ∨ newly P w v) none (with_store w s') kind sub tid reason key)
    as (w' & E & HI' & Hr & _); [by apply Inv_evolves|done| |].
  { intros v [[]|Hv]. right. by apply Hc. }
  exists w'. done.
Qed.

Lemma emit_Inv e w : I w → I (emit e w).2 ∧ rowsW (emit e w).2 = rowsW w.
Proof. intros HI. split; [|done]. eapply Inv_stable; [apply Stable_emit|done]. Qed.

Definition dead_row (id : string) w : Prop := ∃ x, rowsW w !! id = Some x ∧ SRevokedAt x ≠ None.

Lemma HT_revokeOne tid id uid reason a :
  HT I (revokeOne tid id uid reason a)
    (λ _ w, I w ∧ ∀ x, rowsW w !! id = Some x → STenantID x = tid → SRevokedAt x ≠ None).
Proof.
  intros w HI. unfold revokeOne, nowM, gets, bind, storeM.
  destruct (ss_revoke (m_now w) tid id reason (m_st w)) as [r s'] eqn:E.
  apply ss_revoke_law in E as [Ht Hr]. change (mkManager s' _ _ _ _ _) with (with_store w s').
  destruct r as [[]|e].
  - destruct Hr as [He Hdead].
    destruct (publish_after _ w s' "session" id tid reason _ HI Ht He eq_refl) as (w' & -> & HI' & Hrw).
    { intros v (x & _ & _ & _ & Hid & _). left. by rewrite Hid. }
    simpl. split; [by apply emit_Inv|]. intros x Hx. apply Hdead. unfold rowsW in Hx, Hrw. simpl in Hx.
    by rewrite Hrw in Hx.
  - apply Inv_evolves_none; [done..|]. unfold rowsW. rewrite Hr. apply evolves_refl.
Qed.

Lemma HT_expire v h reason : HT I (expire v h reason) (λ _, I).
Proof.
  unfold expire. eapply HT_bind; [apply HT_evictView|]. intros [].
  eapply HT_conseq; [apply HT_revokeOne|done|]. by intros a w [? _].
Qed.

Lemma good_evolves v w s' :
  evolves (λ _ _, False) (rowsW w) (rows s') → good v w → good v (with_store w s').
Proof.
  intros He (B & x & Hx & Ha & Hr). split; [done|].
  destruct (evolves_fwd _ _ _ _ _ He Hx) as (x' & Hx' & (C1 & C2 & C3 & C4) & [Hrev|[[] _]]).
  exists x'. split_and!; [done| |congruence]. destruct Ha as (A1 & A2 & A3 & A4). repeat split; congruence.
Qed.

(** The state after a write that revokes nothing. *)
Lemma HT_store_write {A} (m : M S A) v (F : W → Prop) :
  (∀ w s', F w → F (with_store w s')) →
  (∀ s r s', m s = (r, s') → tenants s' = tenants s ∧ evolves (λ _ _, False) (rows s) (rows s')) →
  HT (λ w, I w ∧ good v w ∧ F w) (attempt (storeM m)) (λ _ w, I w ∧ good v w ∧ F w).
Proof.
  intros HF Hm w (HI & Hg & Hk). unfold attempt, storeM. destruct (m (m_st w)) as [r s'] eqn:E.
  destruct (Hm _ _ _ E) as [Ht He]. change (mkManager s' _ _ _ _ _) with (with_store w s').
  split_and!; [by apply Inv_evolves_none|by apply good_evolves|by apply HF].
Qed.

Lemma HT_putView_key h v id :
  vID v = id → HT (λ w, I w ∧ good v w ∧ at_key h id w) (putView h v) (λ _ w, I w ∧ good v w ∧ at_key h id w).
Proof.
  intros Hid w (HI & Hg & Hk). destruct (putView_run h v w HI Hg) as (w' & -> & HI' & Hr & Hn & Hat).
  split_and!; [done| |by apply Hat]. unfold good. by rewrite Hr.
Qed.

Lemma HT_nowM P : (∀ w, P w → I w) → HT P (nowM : M W Z) (λ _, P).
Proof. intros HI w Hw. done. Qed.

Definition resolved (h id : string) w : Prop :=
  I w ∧ (∃ x, rowsW w !! id = Some x ∧ SRevokedAt x = None) ∧ at_key h id w.

Lemma HT_current h now (ov : option view) :
  HT (λ w, I w ∧ match ov with
           | Some v => cachedv v w ∧ at_key h (vID v) w | None => ∀ id, at_key h id w end)
    (match ov with
     | None => loadView h
     | Some v =>
         if (match vGraceUntil v with Some g => negb (now <? g)%Z | None => false end)
         then evictView h ;;; throw ErrNoSession
         else refreshIfStale v
     end)
    (λ v w, I w ∧ cachedv v w ∧ at_key h (vID v) w).
Proof.
  destruct ov as [v|].
  - destruct (match vGraceUntil v with Some _ => _ | None => _ end).
    + eapply HT_bind; [eapply HT_conseq; [apply HT_evictView|tauto|done]|]. intros []. by apply HT_throw.
    + eapply HT_conseq; [apply (HT_refresh v (λ w, I w ∧ cachedv v w ∧ at_key h (vID v) w)); [|tauto]|tauto|].
      * auto with auth.
      * intros v' w ((HI & _ & Hk) & Hc & E & _). split_and!; [done..|]. by rewrite E.
  - eapply HT_conseq.
    + apply (HT_frame I (loadView h) (λ v w, I w ∧ good v w) (λ w, ∀ id, at_key h id w)); [apply Stable_loadView| |apply HT_loadView].
      intros w w' Hs Hw id. by eapply respects_at_key.
    + done.
    + intros v w ((HI & Hg) & Hk). split_and!; [done|by apply good_cachedv|done].
Qed.

Lemma HT_Resolve secret :
  HT I (Resolve HashToken secret) (λ a w, resolved (HashToken secret) (ASessionID a) w).
Proof.
  unfold Resolve. case_bool_decide; [by apply HT_throw|]. set (h := HashToken secret).
  eapply HT_bind; [by apply HT_nowM|]. intros now.
  eapply HT_bind; [apply HT_getView|]. intros ov.
  eapply HT_bind; [apply HT_current|]. intros v. simpl.
  assert (Hexp : ∀ reason Q, HT (λ w, I w ∧ cachedv v w ∧ at_key h (vID v) w)
    (ignore (expire v h reason) ;;; throw (A:=Actor) ErrNoSession) Q).
  { intros reason Q. eapply HT_bind; [apply HT_ignore; eapply HT_conseq; [apply HT_expire|tauto|done]|].
    intros []. by apply HT_throw. }
  destruct (negb _); [apply Hexp|]. destruct (_ <? _)%Z; [apply Hexp|]. clear Hexp.
  eapply HT_bind; [apply HT_revoked; [auto with auth|tauto]|]. intros [|]; simpl.
  { eapply HT_bind; [eapply HT_conseq; [apply HT_evictView|tauto|done]|]. intros []. by apply HT_throw. }
  eapply (HT_bind _ _ _ (λ v' w, same_ident v v' ∧ I w ∧ good v' w ∧ at_key h (vID v') w)).
  - destruct (Dur.minute <=? _)%Z.
    + eapply HT_bind; [eapply HT_conseq; [apply (HT_store_write _ v (at_key h (vID v))); [done|apply ss_touch_law]|tauto|done]|].
      intros r. apply HT_ret. intros w (HI & Hg & Hk). by destruct r.
    + apply HT_ret. intros w ((HI & _ & Hk) & Hg). split_and!; auto. done.
  - intros v'. simpl. eapply HT_bind.
    + eapply HT_conseq; [by apply (HT_putView_key h v' (vID v'))|tauto|done].
    + intros []. apply HT_ret. intros w (HI & (_ & x & Hx & _ & Hr) & Hk). split_and!; [done| |done].
      exists x. done.
Qed.

Lemma HT_getView_at h id P : respects P → (∀ w, P w → I w ∧ at_key h id w) →
  HT P (getView h) (λ ov w, P w ∧ match ov with Some v => cachedv v w ∧ vID v = id | None => True end).
Proof.
  intros HP HI. apply (HT_read P _ (λ ov w, match ov with Some v => cachedv v w ∧ vID v = id | None => True end));
    auto using Stable_getView.
  - intros w Hw. by apply HI.
  - intros w ov Hw Hg. destruct (HI w Hw) as [HIw Hk]. pose proof (HT_getView h w HIw) as HG.
    pose proof (Stable_getView h w) as Hs. apply getView_spec in Hg as Hsp.
    destruct (getView h w) as [[ov'|e] w1]; [|done]. injection Hg as ->. destruct ov as [v|]; [|done].
    destruct Hsp as (k & Hck & Hv). split; [|by eapply Hk].
    destruct (inv_views _ _ _ HIw k (m_now w) h v) as (_ & B & x & Hx & Ha & Hm); [done|lia|done|].
    split; [done|]. exists x. split_and!; try done. intros Hrev. exists k. split; [done|]. by destruct (Hm Hrev).
  - intros [v|]; auto with auth.
Qed.

Lemma good_set_Idle v x d w :
  row_of x w → SRevokedAt x = None → vID v = SID x → (d <= R)%Z →
  (cachedv v w ∨ agrees v x) → good (set_Idle v d) w.
Proof.
  intros Hx Hr Hid Hd Hv. split; [done|]. exists x. simpl. rewrite Hid. split_and!; [done| |done].
  destruct Hv as [(_ & y & Hy & Ha & _)|Ha]; [|done]. rewrite Hid, Hx in Hy. by injection Hy as ->.
Qed.

Lemma HT_weaken_I {A} P (m : M W A) (Q : A → W → Prop) : HT P m Q → (∀ a w, Q a w → I w) → HT P m (λ _, I).
Proof. intros Hm HQ. eapply HT_conseq; [done|done|eauto]. Qed.

Definition live_row (id : string) w : Prop := ∃ x, rowsW w !! id = Some x ∧ SRevokedAt x = None.

Lemma good_live v w : good v w → live_row (vID v) w.
Proof. intros (_ & x & Hx & _ & Hr). by exists x. Qed.

(** The tail of [Renew]: grace views for the old secret, the view of the new
    one, the audit event. *)
Lemma HT_put2 h1 h2 h3 v g e (r : Renewal) :
  same_ident v g →
  HT (λ w, I w ∧ good v w)
    (for_each [h1; h2] (λ old, putView old g) ;;; putView h3 v ;;; emit e ;;; ret r)
    (λ r' w, r' = r ∧ I w ∧ live_row (vID v) w).
Proof.
  intros Hid. assert (Hp : ∀ h u, same_ident v u →
    HT (λ w, I w ∧ good v w) (putView h u) (λ _ w, I w ∧ good v w)).
  { intros h u Hu w [HI Hg]. destruct (putView_run h u w HI (good_ident v u w Hu Hg)) as (w' & -> & HI' & Hr & _).
    split; [done|]. unfold good. by rewrite Hr. }
  eapply (HT_bind _ _ _ (λ _ w, I w ∧ good v w)); [simpl|].
  - eapply HT_bind; [by apply Hp|]. intros []. eapply HT_bind; [by apply Hp|]. intros []. by apply (HT_ret (λ w, I w ∧ good v w)).
  - intros []. eapply HT_bind; [by apply Hp|]. intros [].
    eapply HT_bind; [apply HT_stable; auto using Stable_emit with auth; tauto|]. intros [].
    apply HT_ret. intros w [HI Hg]. split_and!; [done..|by apply good_live].
Qed.

Lemma HT_Renew secret :
  HT I (Renew HashToken secret) (λ r w, I w ∧ live_row (rnSessionID r) w).
Proof.
  unfold Renew. set (h := HashToken secret).
  eapply (HT_bind _ _ _ (λ a w, I w ∧ at_key h (ASessionID a) w)).
  { eapply HT_conseq; [apply HT_Resolve|done|]. by intros a w (? & _ & ?). }
  intros a. simpl. eapply HT_bind; [apply (HT_ss_get _ _ (λ w, I w ∧ at_key h (ASessionID a) w)); auto with auth; tauto|].
  intros [x|e]; [|apply HT_throw; tauto]. simpl.
  destruct (SRevokedAt x) eqn:Er; [apply HT_throw; tauto|].
  eapply HT_bind; [apply HT_liveTenant; auto with auth; tauto|]. intros tp. simpl.
  eapply HT_bind; [apply HT_nowM; tauto|]. intros now. simpl.
  eapply HT_bind; [apply (HT_getView_at h (ASessionID a)); auto with auth; tauto|]. intros ov. simpl.
  eapply (HT_bind _ _ _ (λ v w, I w ∧ vID v = SID x ∧ row_of x w ∧ good (set_Idle v (IdleTimeout tp.2)) w)).
  { destruct ov as [v|].
    - apply HT_ret. intros w ((((HI & _) & Hx & Hid) & Hi) & Hc & Hv). rewrite <- Hid in Hv.
      split_and!; auto. eapply good_set_Idle; eauto.
    - eapply HT_bind; [apply HT_stable; auto using Stable_tenantVersion with auth; tauto|]. intros pv. simpl.
      apply HT_ret. intros w ((((HI & _) & Hx & Hid) & Hi) & _). split_and!; auto.
      eapply good_set_Idle; eauto. by right. }
  intros v. simpl. destruct (_ || _).
  { apply HT_ret. intros w (HI & Hid & Hx & Hg). split; [done|]. by exists x. }
  eapply HT_bind; [apply HT_stable; auto 10 using Stable_RandomToken with auth; tauto|]. intros next. simpl.
  set (v0 := set_Idle v (IdleTimeout tp.2)).
  apply (HT_pure _ (vID v = SID x)); [tauto|]. intros Hid.
  eapply HT_bind.
  { eapply HT_conseq; [apply (HT_store_write _ v0 (λ _, True)); [done|apply ss_renew_law]| |done].
    intros w Hw. split_and!; [apply Hw..|done]. }
  intros [[]|e]; simpl; [|apply HT_throw; tauto].
  set (v1 := set_LastSeen _ _). eapply HT_conseq.
  - by apply (HT_put2 _ _ _ v1).
  - intros w (HI & Hg & _). split; [done|]. by eapply (good_ident v0).
  - simpl. intros r w (-> & HI & Hl). by rewrite Hid in Hl.
Qed.

(** The rows a revocation promises to kill. *)
Definition all_dead (P : string → Session → Prop) w : Prop :=
  ∀ id x, rowsW w !! id = Some x → P id x → SRevokedAt x ≠ None.

Lemma HT_Revoke ctx tid id reason :
  HT I (Revoke ctx tid id reason) (λ _ w, I w ∧ all_dead (λ id' x, id' = id ∧ STenantID x = tid) w).
Proof.
  unfold Revoke. eapply HT_bind; [apply HT_stable; auto using Stable_ss_get with auth|]. intros x.
  eapply HT_bind; [apply HT_revokeOne|]. intros [] w [HI Hd].
  destruct (evictView_run (SSecretHash x) w) as (w' & -> & HI' & Hr & _). split; [auto|].
  intros id' y Hy [-> Ht]. rewrite Hr in Hy. by eapply Hd.
Qed.

Lemma HT_emit_dead P e :
  HT (λ w, I w ∧ all_dead P w) (emit e) (λ _ w, I w ∧ all_dead P w).
Proof. intros w [HI Hd]. split; [by apply emit_Inv|done]. Qed.

Lemma HT_RevokeTenant ctx tid reason :
  HT I (RevokeTenant ctx tid reason) (λ _ w, I w ∧ all_dead (λ _ x, STenantID x = tid) w).
Proof.
  unfold RevokeTenant. intros w HI. unfold nowM, gets, storeM. unfold bind at 1 2.
  destruct (ss_revoke_tenant (m_now w) tid reason (m_st w)) as [r s'] eqn:E.
  apply ss_revoke_tenant_law in E as [Ht Hr]. change (mkManager s' _ _ _ _ _) with (with_store w s').
  destruct r as [[]|e].
  - destruct Hr as [He Hdead]. unfold bind.
    destruct (publish_after _ w s' "tenant" tid tid reason _ HI Ht He eq_refl) as (w' & -> & HI' & Hrw).
    { intros v (x & _ & (_ & Et & _) & _ & Hp). right. right. simpl in Hp. congruence. }
    apply HT_emit_dead. split; [done|]. intros id x Hx. rewrite Hrw in Hx. eauto.
  - apply Inv_evolves_none; [done..|]. unfold rowsW. rewrite Hr. apply evolves_refl.
Qed.

(** The loop of [RevokeUser] that spares one session: each round covers the
    views of one listed session. *)
Lemma revoke_loop tid reason keep (l : list Session) : ∀ w,
  Inv D (λ v, ∃ x, x ∈ l ∧ SID x = vID v ∧ SID x ≠ keep) w →
  ∃ w', for_each l (λ x, if bool_decide (SID x ≠ keep)
                         then publish (mkRevocation (m_now w) "session" (SID x) tid reason) ;;;
                              evictView (SSecretHash x)
                         else ret tt) w = (Ok tt, w') ∧ I w' ∧ rowsW w' = rowsW w.
Proof.
  induction l as [|y l IH]; intros w HI; cbn [for_each].
  - exists w. split_and!; try done. eapply Inv_weaken; [|done]. intros v (x & Hx & _). set_solver.
  - unfold bind at 1. case_bool_decide as Hk.
    + destruct (publish_run _ (λ v, ∃ x, x ∈ l ∧ SID x = vID v ∧ SID x ≠ keep) w "session" (SID y) tid reason _
                  HI eq_refl) as (w1 & E1 & HI1 & Hr1 & Hn1).
      { intros v (x & Hx & Ei & Ek). apply elem_of_cons in Hx as [->|Hx]; [right; left; by rewrite Ei|].
        left. eauto. }
      destruct (evictView_run (SSecretHash y) w1) as (w2 & E2 & HI2 & Hr2 & Hn2).
      unfold bind. rewrite E1, E2. rewrite <- Hn1, <- Hn2.
      destruct (IH w2 (HI2 _ HI1)) as (w3 & E3 & HI3 & Hr3). exists w3. split_and!; [done..|congruence].
    + unfold ret at 1. apply IH. eapply Inv_weaken; [|done]. simpl. intros v (x & Hx & Ei & Ek).
      apply elem_of_cons in Hx as [->|Hx]; [done|eauto].
Qed.

Lemma RevokeUser_rows w s' r tid uid reason keep :
  ss_revoke_user (m_now w) tid uid reason keep (m_st w) = (r, s') → I w →
  match r with Ok _ => tenants s' = tenantsW w ∧
    evolves (λ id x, STenantID x = tid ∧ SUserID x = uid ∧ id ≠ keep) (rowsW w) (rows s') ∧
    all_dead (λ id x, STenantID x = tid ∧ SUserID x = uid ∧ id ≠ keep) (with_store w s')
  | Err _ => I (with_store w s') end.
Proof.
  intros E HI. apply ss_revoke_user_law in E as [Ht Hr]. destruct r as [[]|e].
  - destruct Hr as [He Hd]. split_and!; try done. intros id x Hx (? & ? & ?). by eapply Hd.
  - apply Inv_evolves_none; [done..|]. unfold rowsW. rewrite Hr. apply evolves_refl.
Qed.

Lemma HT_RevokeUser ctx tid uid reason keep :
  HT I (RevokeUser ctx tid uid reason keep)
    (λ _ w, I w ∧ all_dead (λ id x, STenantID x = tid ∧ SUserID x = uid ∧ id ≠ keep) w).
Proof.
  intros w HI. unfold RevokeUser, nowM, gets. unfold bind at 1.
  destruct (decide (keep = "")) as [->|Hk].
  - rewrite bool_decide_eq_false_2, bool_decide_eq_true_2 by naive_solver. unfold ret at 1. unfold bind at 1 2.
    unfold storeM. destruct (ss_revoke_user _ _ _ _ _ _) as [r s'] eqn:E.
    apply RevokeUser_rows in E; [|done]. destruct r as [[]|e]; [|done]. destruct E as (Ht & He & Hd).
    unfold bind.
    destruct (publish_after _ w s' "user" uid tid reason _ HI Ht He eq_refl) as (w' & E & HI' & Hrw).
    { intros v (x & _ & (_ & _ & Eu & _) & _ & _ & Hp & _). right. left. congruence. }
    unfold with_store in E. rewrite E. apply HT_emit_dead. split; [done|]. intros id x Hx. rewrite Hrw in Hx.
    by apply Hd.
  - rewrite bool_decide_eq_true_2, bool_decide_eq_false_2 by done. unfold bind at 1. unfold storeM at 1.
    destruct (ss_list_user _ _ _ _) as [[l|e] s1] eqn:El; apply ss_list_user_law in El as (Ht1 & Hr1 & Hl).
    2: { apply Inv_evolves_none; [done..|]. unfold rowsW. rewrite Hr1. apply evolves_refl. }
    change (mkManager s1 _ _ _ _ _) with (with_store w s1).
    assert (HI1 : I (with_store w s1)).
    { apply Inv_evolves_none; [done..|]. unfold rowsW. rewrite Hr1. apply evolves_refl. }
    unfold storeM. unfold bind at 1. change (m_now w) with (m_now (with_store w s1)).
    destruct (ss_revoke_user _ _ _ _ _ _) as [r s'] eqn:E.
    apply RevokeUser_rows in E; [|done]. destruct r as [[]|e]; [|done]. destruct E as (Ht & He & Hd).
    change (mkManager s' _ _ _ _ _) with (with_store (with_store w s1) s').
    destruct (revoke_loop tid reason keep l (with_store (with_store w s1) s')) as (w' & E & HI' & Hrw).
    { eapply Inv_weaken; [|by apply Inv_evolves]. intros v [[]|(x & Hx & (Hid & _) & Hrx & Etid & Euid & Hne)].
      exists x. split_and!; [|congruence..]. eapply Hl; [done|rewrite <- Hr1; exact Hx|done..]. }
    unfold bind at 1. simpl in E. change (m_now (with_store w s1)) with (m_now w). rewrite E. apply HT_emit_dead. split; [done|].
    intros id x Hx. rewrite Hrw in Hx. by apply Hd.
Qed.

Lemma HT_RefreshUser tid uid : HT I (RefreshUser tid uid) (λ _, I).
Proof.
  unfold RefreshUser. eapply HT_bind; [apply HT_stable; auto using Stable_gets with auth|]. intros [k|]; [|by apply HT_ret].
  eapply HT_bind; [by apply HT_nowM|]. intros now. simpl.
  eapply HT_bind; [apply HT_stable; auto using Stable_attempt, Stable_ss_list_user with auth|].
  intros [l|e]; [|by apply HT_ret]. simpl. induction l as [|x l IH]; simpl; [by apply HT_ret|].
  eapply HT_bind; [apply HT_evictView|]. intros []. apply IH.
Qed.

Definition set_ids (w : W) (n : nat) : W :=
  mkManager (m_st w) (m_cache w) (m_audit w) (m_now w) (m_entropy w) n.

Lemma Inv_insert w x s' :
  I w → SID x = newID (m_ids w) → (SCreatedAt x <= m_now w)%Z →
  tenants s' = tenantsW w → rows s' = <[SID x := x]> (rowsW w) →
  I (with_store (set_ids w (Datatypes.S (m_ids w))) s').
Proof.
  intros [I1 I2 I3 I4 I5 I6] Hid Hc Ht Hr.
  assert (Hfresh : rowsW w !! SID x = None) by (rewrite Hid; auto).
  split; unfold rowsW, tenantsW in *; simpl; rewrite ?Ht, ?Hr; try done.
  - intros id y. destruct (decide (id = SID x)) as [->|Hne].
    + rewrite lookup_insert_eq. by intros [= <-].
    + rewrite lookup_insert_ne by done. apply I1.
  - intros n Hn. rewrite lookup_insert_ne; [apply I2; lia|]. rewrite Hid. intros Eq%(inj newID). lia.
  - intros id Hd. destruct (I5 id Hd) as (y & Hy & Hrev). exists y. split; [|done].
    rewrite lookup_insert_ne; [done|congruence].
  - intros k t h v Hk Htime Hv. destruct (I6 k t h v Hk Htime Hv) as (B1 & B2 & y & Hy & Ha & Hm).
    split_and!; try done. exists y. split_and!; try done. rewrite lookup_insert_ne; [done|congruence].
Qed.

Lemma Inv_set_ids E w n : (m_ids w <= n)%nat → Inv D E w → Inv D E (set_ids w n).
Proof. intros Hn. apply Inv_stable. split; try done. apply same_cache_refl. Qed.

Lemma HT_Create_cache p x now (secret : string) :
  (IdleTimeout (cpPolicy p) <= R)%Z → SRevokedAt x = None → SCreatedAt x = now →
  HT (λ w, I w ∧ row_of x w)
    (pv <- tenantVersion (STenantID x) ;;
     v <- loadProfile (mkView (SID x) (STenantID x) (SUserID x) (cpRoles p) (SAMR x) (cpOperator p) now now
                         (SExpiresAt x) (IdleTimeout (cpPolicy p)) pv "" "" None None) ;;
     putView (SSecretHash x) v ;;; ret (x, secret))
    (λ r w, I w ∧ live_row (SID r.1) w).
Proof.
  intros Hp Hr <-. eapply HT_bind; [apply HT_stable; auto using Stable_tenantVersion with auth; tauto|].
  intros pv. simpl. eapply HT_bind.
  { apply (HT_loadProfile _ (λ w, I w ∧ row_of x w)); auto with auth; [tauto|].
    intros w [_ Hx]. split; [done|]. by exists x. }
  intros v. simpl. eapply HT_bind.
  { eapply HT_conseq; [apply (HT_putView _ v (row_of x)); unfold row_of; by intros w w' ->|tauto|done]. }
  intros []. apply HT_ret. intros w (HI & _ & Hx). split; [done|]. by exists x.
Qed.

Lemma HT_Create p : (IdleTimeout (cpPolicy p) <= R)%Z →
  HT I (Create HashToken newID p) (λ r w, I w ∧ live_row (SID r.1) w).
Proof.
  intros Hp. unfold Create. eapply HT_bind; [apply HT_stable; auto using Stable_RandomToken with auth|].
  intros secret w HI. unfold nowM, gets, NewID. unfold bind at 1 2 3. unfold storeM.
  set (x := mkSession _ _ _ _ _ _ _ _ _ _ _ _).
  destruct (ss_insert x (m_st _)) as [r s'] eqn:E. apply ss_insert_law in E as [Ht Hr].
  change (mkManager s' _ _ _ _ _) with (with_store (set_ids w (Datatypes.S (m_ids w))) s').
  destruct r as [[]|e].
  - apply (HT_Create_cache p x (m_now w) secret Hp eq_refl eq_refl). split.
    + by eapply (Inv_insert w x).
    + unfold row_of, rowsW. simpl. rewrite Hr. apply lookup_insert_eq.
  - apply Inv_evolves_none; [apply Inv_set_ids; [lia|done]|done|]. unfold rowsW. simpl. simpl in Hr.
    rewrite Hr. apply evolves_refl.
Qed.

Lemma HT_ByID tid id : HT I (ByID tid id) (λ a w, I w ∧ live_row (ASessionID a) w).
Proof.
  unfold ByID. destruct (_ || _); [by apply HT_throw|].
  eapply HT_bind; [apply (HT_ss_get _ _ I); auto with auth|]. intros [x|e]; [|apply HT_throw; tauto].
  destruct (SRevokedAt x) eqn:Er; [apply HT_throw; tauto|].
  eapply HT_bind; [apply HT_liveTenant; auto with auth; tauto|]. intros tp. simpl.
  eapply HT_bind; [apply HT_stable; auto using Stable_ss_roles with auth; tauto|]. intros roles. simpl.
  eapply HT_bind.
  { apply (HT_loadProfile _ (λ w, (I w ∧ row_of x w ∧ SID x = id) ∧ (IdleTimeout tp.2 <= R)%Z));
      auto with auth; [tauto|]. intros w ((_ & Hx & _) & Hi). by apply good_rowView. }
  intros v. simpl. eapply HT_bind; [apply HT_nowM; tauto|]. intros now. simpl.
  destruct (_ || _); [apply HT_throw; tauto|].
  eapply HT_bind; [apply HT_stable; auto 10 using Stable_revoked with auth; tauto|]. simpl.
  intros [|]; [apply HT_throw; tauto|]. apply HT_ret. intros w (((HI & _) & _) & Hg & _).
  split; [done|]. by apply good_live.
Qed.

Lemma HT_run {A} (m : M W A) Q w : HT I m Q → (∀ a w, Q a w → I w) → I w → I (m w).2.
Proof. intros Hm HQ HI. specialize (Hm w HI). destruct (m w) as [[a|e] w']; simpl; eauto. Qed.

(** *** Histories *)
Definition set_now (w : W) (t : Z) : W :=
  mkManager (m_st w) (m_cache w) (m_audit w) t (m_entropy w) (m_ids w).

Definition session_key (key : string) : Prop :=
  ∃ x, key = SessionKey x ∨ key = RevokedSessionKey x ∨ key = RevokedUserKey x ∨ key = RevokedTenantKey x.

(** What the rest of the service may do in between: anything to the other
    tables and cache keys, as long as tenants keep bounded idle timeouts. *)
Record frame_step (w w' : W) : Prop := mkFrame {
  fr_rows : rowsW w' = rowsW w;
  fr_now : m_now w' = m_now w;
  fr_ids : (m_ids w <= m_ids w')%nat;
  fr_idle : idle_bounded (tenantsW w');
  fr_cache : match m_cache w, m_cache w' with
             | None, None => True
             | Some k, Some k' => ∀ t key, (m_now w <= t)%Z → session_key key → kv_at k' t key = kv_at k t key
             | _, _ => False
             end;
}.
End Triples.

(** The calls of the session manager, time, and changes elsewhere that leave
    sessions and marks alone.  Sessions are created with an idle timeout of at
    most [R], the 60 minutes revocation marks are kept, and the tenants of the
    initial state and of every other change have such timeouts ([initial],
    [fr_idle]); the source allows longer ones, for which the theorems fail
    ([revoked_session_revives]). *)
Inductive step : W → W → Prop :=
  | step_tick w d : (0 <= d)%Z → in_int64 (m_now w + d) = true → step w (set_now w (m_now w + d))
  | step_create w p : (IdleTimeout (cpPolicy p) <= R)%Z → step w (Create HashToken newID p w).2
  | step_resolve w secret : step w (Resolve HashToken secret w).2
  | step_renew w secret : step w (Renew HashToken secret w).2
  | step_byid w tid id : step w (ByID tid id w).2
  | step_refresh w tid uid : step w (RefreshUser tid uid w).2
  | step_revoke w ctx tid id reason : step w (Revoke ctx tid id reason w).2
  | step_revoke_user w ctx tid uid reason keep : step w (RevokeUser ctx tid uid reason keep w).2
  | step_revoke_tenant w ctx tid reason : step w (RevokeTenant ctx tid reason w).2
  | step_frame w w' : frame_step w w' → step w w'.

Record initial (w : W) : Prop := mkInitial {
  init_rows : rowsW w = ∅;
  init_clock : in_int64 (m_now w) = true;
  init_idle : idle_bounded (tenantsW w);
  init_views : ∀ k t h v, m_cache w = Some k → (m_now w <= t)%Z → ¬ view_at k t h v;
}.

Lemma initial_Inv w : initial w → Inv (λ _, False) none w.
Proof.
  intros [A1 A2 A3 A4]. split; rewrite ?A1; try done. intros k t h v Hk Ht Hv. by destruct (A4 k t h v).
Qed.

Lemma Inv_frame D w w' : frame_step w w' → Inv D none w → Inv D none w'.
Proof.
  intros [Hr Hn Hi Ht Hc] [I1 I2 I3 I4 I5 I6]. split; rewrite ?Hr, ?Hn; try done.
  - intros n Hge. apply I2. lia.
  - intros k' t h v Hk' Htime (j & Hj & Hv). rewrite Hk' in Hc.
    destruct (m_cache w) as [k|] eqn:Hk; [|done].
    assert (Hs : ∀ x, kv_at k' t (SessionKey x) = kv_at k t (SessionKey x)) by (intros x; apply Hc; [done|exists x; auto]).
    destruct (I6 k t h v eq_refl Htime) as (B1 & B2 & x & Hx & Ha & Hm).
    { exists j. by rewrite <- Hs. }
    split_and!; try done. exists x. split_and!; try done. intros Hrev. destruct (Hm Hrev) as [[]|Hmk]. right.
    unfold marked, mark_of in *. by rewrite !Hc by (try done; eexists; eauto 10).
Qed.

Lemma Inv_tick D w d : (0 <= d)%Z → in_int64 (m_now w + d) = true →
  Inv D none w → Inv D none (set_now w (m_now w + d)).
Proof.
  intros Hd Hc [I1 I2 I3 I4 I5 I6]. split; try done.
  - intros id x Hx. destruct (I1 id x Hx). simpl. split; [done|lia].
  - simpl. intros k t h v Hk Ht Hv. destruct (I6 k t h v Hk) as (B1 & B2 & x & Hx & Ha & Hm); [lia|done|].
    split_and!; [lia|done|]. exists x. done.
Qed.

Lemma Inv_step D w w' : step w w' → Inv D none w → Inv D none w'.
Proof.
  destruct 1; intros HI.
  - by apply Inv_tick.
  - by eapply HT_run; [apply HT_Create| |]; [done|by intros a w' [? _]|].
  - eapply HT_run; [apply HT_Resolve|by intros a w' [? _]|done].
  - eapply HT_run; [apply HT_Renew|by intros a w' [? _]|done].
  - eapply HT_run; [apply HT_ByID|by intros a w' [? _]|done].
  - by eapply HT_run; [apply HT_RefreshUser| |].
  - eapply HT_run; [apply HT_Revoke|by intros a w' [? _]|done].
  - eapply HT_run; [apply HT_RevokeUser|by intros a w' [? _]|done].
  - eapply HT_run; [apply HT_RevokeTenant|by intros a w' [? _]|done].
  - by eapply Inv_frame.
Qed.

Lemma Inv_steps D w w' : rtc step w w' → Inv D none w → Inv D none w'.
Proof. induction 1; eauto using Inv_step. Qed.

Lemma Inv_more (D D' : string → Prop) w :
  (∀ id, D' id → D id ∨ dead_row id w) → Inv D none w → Inv D' none w.
Proof. intros HD [I1 I2 I3 I4 I5 I6]. split; try done. intros id Hid. destruct (HD id Hid); auto. Qed.

Lemma HT_ok {A} D (m : M W A) Q w a w' : HT D (Inv D none) m Q → Inv D none w → m w = (Ok a, w') → Q a w'.
Proof. intros Hm HI E. specialize (Hm w HI). by rewrite E in Hm. Qed.

Lemma live_not_dead D id w : Inv D none w → live_row id w → ¬ D id.
Proof. intros HI (x & Hx & Hr) Hd. destruct (inv_dead _ _ _ HI id Hd) as (y & Hy & ?). congruence. Qed.

Lemma no_session_of_dead D w : Inv D none w →
  (∀ secret a w', Resolve HashToken secret w = (Ok a, w') → ¬ D (ASessionID a)) ∧
  (∀ secret r w', Renew HashToken secret w = (Ok r, w') → ¬ D (rnSessionID r)) ∧
  (∀ tid id a w', ByID tid id w = (Ok a, w') → ¬ D (ASessionID a)).
Proof.
  intros HI. split_and!.
  - intros secret a w' E. pose proof (HT_ok _ _ _ _ _ _ (HT_Resolve D secret) HI E) as (HI' & Hl & _).
    by eapply live_not_dead.
  - intros secret r w' E. pose proof (HT_ok _ _ _ _ _ _ (HT_Renew D secret) HI E) as [HI' Hl]. by eapply live_not_dead.
  - intros tid id a w' E. pose proof (HT_ok _ _ _ _ _ _ (HT_ByID D tid id) HI E) as [HI' Hl]. by eapply live_not_dead.
Qed.

(** C1. In every history in which idle timeouts stay within the retention of
    the marks, a session whose row is revoked is never resolved, renewed or
    looked up again, whatever secrets are presented and whatever happens in
    between. *)
Theorem revoked_session_stays_dead w0 w1 w2 id :
  initial w0 → rtc step w0 w1 → dead_row id w1 → rtc step w1 w2 →
  (∀ secret a w3, Resolve HashToken secret w2 = (Ok a, w3) → ASessionID a ≠ id) ∧
  (∀ secret r w3, Renew HashToken secret w2 = (Ok r, w3) → rnSessionID r ≠ id) ∧
  (∀ tid sid a w3, ByID tid sid w2 = (Ok a, w3) → ASessionID a ≠ id).
Proof.
  intros HI0 H01 Hd H12. apply initial_Inv in HI0. apply (Inv_steps _ _ _ H01) in HI0.
  apply (Inv_more _ (λ i, i = id)) in HI0; [|by intros i ->; right].
  apply (Inv_steps _ _ _ H12) in HI0. apply no_session_of_dead in HI0. exact HI0.
Qed.

(** C2. In every history in which idle timeouts stay within the retention of the
    revocation marks (60 minutes), a successful [Revoke], [RevokeUser] or
    [RevokeTenant] ends every session in its scope that exists at that moment:
    whatever resolves afterwards is out of scope or was created later.  The
    bound is needed: [revoked_session_revives] resolves a revoked session
    under a longer idle timeout, which the tenant policy allows. *)
Theorem revocation_ends_scope w0 w1 w2 w3 op scope :
  initial w0 → rtc step w0 w1 →
  (∃ ctx tid reason,
     (∃ sid, op = Revoke ctx tid sid reason ∧ scope = λ id x, id = sid ∧ STenantID x = tid) ∨
     (∃ uid keep, op = RevokeUser ctx tid uid reason keep ∧
        scope = λ id x, STenantID x = tid ∧ SUserID x = uid ∧ id ≠ keep) ∨
     (op = RevokeTenant ctx tid reason ∧ scope = λ _ x, STenantID x = tid)) →
  op w1 = (Ok tt, w2) → rtc step w2 w3 →
  ∀ secret a w4, Resolve HashToken secret w3 = (Ok a, w4) →
  ∀ x, rowsW w2 !! ASessionID a = Some x → ¬ scope (ASessionID a) x.
Proof.
  intros HI0 H01 Hop E H23 secret a w4 HR x Hx Hs.
  apply initial_Inv in HI0. apply (Inv_steps _ _ _ H01) in HI0.
  assert (Hw2 : Inv (λ _, False) none w2 ∧ all_dead scope w2).
  { destruct Hop as (ctx & tid & reason & [(sid & -> & ->)|[(uid & keep & -> & ->)|[-> ->]]]).
    - eapply HT_ok in E; [|apply HT_Revoke|done]. done.
    - eapply HT_ok in E; [|apply HT_RevokeUser|done]. done.
    - eapply HT_ok in E; [|apply HT_RevokeTenant|done]. done. }
  destruct Hw2 as [HI2 Hd].
  apply (Inv_more _ (λ i, i = ASessionID a)) in HI2; [|intros i ->; right; exists x; eauto].
  apply (Inv_steps _ _ _ H23) in HI2. by eapply (proj1 (no_session_of_dead _ _ HI2)).
Qed.
End Safety.
