(* ===== verification/SessionRuns.v ===== *)
(** * Concrete histories of the session manager

    The manager over the in-memory store and cache: the witnesses of the
    revocation theorems, and the run that shows why they bound the idle
    timeout. *)
From S2P Require Import Prelude GoStrings Regex PermRef TenantCtx Models Cache AuditEvents Session MemStore SessionSafety.
#[local] Open Scope go_scope.

(** Identifiers a, aa, aaa, ...: any injective supply will do. *)
Fixpoint seqID (n : nat) : string :=
  match n with O => "a" | S n => "a" +:+ seqID n end.
Lemma seqID_length n : String.length (seqID n) = S n.
Proof. induction n as [|n IH]; [done|]. cbn. by rewrite IH. Qed.
#[export] Instance seqID_inj : Inj (=) (=) seqID.
Proof. intros n m E. apply (f_equal String.length) in E. rewrite !seqID_length in E. lia. Qed.

Definition tokHash (s : string) : string := "#" +:+ s.

Notation World := (Manager Store Memory).

Definition start (raw : RawPolicy) : World :=
  mkManager (mkStore {["t1" := mkTenant "t1" "acme" "Acme" "active" "customer" raw]}
               ∅ ∅ [] ∅ ∅ ∅ ∅ ∅ ∅ ∅ ∅ ∅ [] ∅ ∅ ∅ ∅ [] ∅ ∅ ∅ ∅)
            (Some NewMemory) [] 0 ["tok1"; "tok2"; "tok3"] 0.

Definition tick (d : Z) (w : World) : World := set_now w (m_now w + d).

Definition params (p : Policy) : CreateParams := mkCreateParams "t1" "u1" ["member"] ["pwd"] false "" "" p.

Definition signed_in (p : Policy) (w : World) : World := (Create tokHash seqID (params p) w).2.
Definition sysCtx : Ctx := SystemCtx (mkCtx None None).

Definition w1 : World := signed_in DefaultPolicy (start RawEmpty).
Definition w2 : World := (RevokeUser sysCtx "t1" "u1" ReasonAdmin "" w1).2.

Lemma start_initial : initial (start RawEmpty).
Proof.
  split; [done|done| |].
  - intros tid t pol b Ht. unfold tenantsW in Ht. simpl in Ht. apply lookup_singleton_Some in Ht as [_ <-].
    simpl. destruct b; intros [= <-]; vm_compute; done.
  - intros k t h v [= <-] _ (j & Hj & _). done.
Qed.

Lemma w1_reached : rtc (step tokHash seqID) (start RawEmpty) w1.
Proof. apply rtc_once, step_create. vm_compute. done. Qed.

(** The session of [w1] is dead from [w2] on; a minute later its secret
    resolves to nothing of the sort. *)
Lemma revoked_session_stays_dead_witness :
  dead_row "a" w2 ∧
  ∀ secret a w3, Resolve tokHash secret (tick Dur.minute w2) = (Ok a, w3) → ASessionID a ≠ "a".
Proof.
  split; [eexists; split; [vm_compute; reflexivity|done]|].
  apply (revoked_session_stays_dead tokHash seqID (start RawEmpty) w2 (tick Dur.minute w2) "a").
  - apply start_initial.
  - eapply rtc_r; [apply w1_reached|]. apply step_revoke_user.
  - eexists. split; [vm_compute; reflexivity|done].
  - apply rtc_once, step_tick; [done|vm_compute; reflexivity].
Defined.

Lemma revocation_ends_scope_witness :
  bool_decide (is_Some (rowsW w2 !! "a")) = true ∧
  ∀ secret a w4, Resolve tokHash secret (tick Dur.minute w2) = (Ok a, w4) →
  ∀ x, rowsW w2 !! ASessionID a = Some x → ¬ (STenantID x = "t1" ∧ SUserID x = "u1" ∧ ASessionID a ≠ "").
Proof.
  split; [vm_compute; reflexivity|].
  apply (revocation_ends_scope tokHash seqID (start RawEmpty) w1 w2 (tick Dur.minute w2)
           (RevokeUser sysCtx "t1" "u1" ReasonAdmin "")
           (λ id x, STenantID x = "t1" ∧ SUserID x = "u1" ∧ id ≠ "")).
  - apply start_initial.
  - apply w1_reached.
  - exists sysCtx, "t1", ReasonAdmin. right. left. exists "u1", "". done.
  - vm_compute. reflexivity.
  - apply rtc_once, step_tick; [done|vm_compute; reflexivity].
Defined.

(** ** The bound is needed *)
Definition longIdle : RawPolicy := RawFields (mkFields None (Some (2 * Dur.hour)%Z) None None None None None).
Definition longPolicy : Policy := (ParsePolicy longIdle false).1.

Definition revived : World :=
  tick (61 * Dur.minute)
    (RevokeUser sysCtx "t1" "u1" ReasonAdmin ""
      (tick Dur.minute (signed_in longPolicy (start longIdle)))).2.

(** With a valid policy whose idle timeout is two hours: 61 minutes after all
    sessions of a user were revoked the marks are gone, the cached view is not,
    and the old secret resolves to the revoked session again. *)
Theorem revoked_session_revives :
  ParsePolicy longIdle false = (longPolicy, None) ∧
  dead_row "a" revived ∧
  match (Resolve tokHash "tok1" revived).1 with
  | Ok a => ASessionID a = "a" ∧ AUserID a = "u1"
  | Err _ => False
  end.
Proof.
  split; [vm_compute; reflexivity|]. split; [|vm_compute; done].
  eexists. split; [vm_compute; reflexivity|done].
Qed.
