(* ===== verification/SessionsApi.v ===== *)
(** * The session API of the gRPC server
      (internal/grpcapi/exchange.go, sessions.go, enrollment.go)

    Platform services exchange sessions for access tokens, read the revocation
    feed, introspect tokens and redeem enrollment tokens.  The verified peer is
    an argument; so are the ring of signing keys, which no call changes, and
    the order in which its map is ranged. *)
From S2P Require Import Prelude GoStrings Regex PermRef TenantCtx Models Cache Token AuditEvents Session AuthClient.
#[local] Open Scope list_scope.
#[local] Open Scope Z_scope.
#[local] Open Scope go_scope.

Definition rpcErr (c msg : string) : err := ErrText (c +:+ ": " +:+ msg).
Definition nilTenant : string := "00000000-0000-0000-0000-000000000000".
(** The writer drops events it finds invalid, and the caller ignores that. *)
Definition valid_events (e : Event) : list Event := match ValidateEvent e with Ok _ => [e] | Err _ => [] end.
Definition service_refusal (typ tid svc subjectKind subjectID outcome reason : string) (d : Details) : Event :=
  mkEventFull typ tid "" "service" svc subjectKind subjectID outcome reason "" "" "" "" d.
(** time.Duration(n) * time.Second, an int64 multiplication. *)
Definition wrap64 (n : Z) : Z := (n + 2 ^ 63) mod 2 ^ 64 - 2 ^ 63.
Definition secs (n : Z) : Z := wrap64 (n * Dur.second).

(** ** Texts (sessions.go) *)
Fixpoint has_prefix (sub s : string) : bool :=
  match sub, s with
  | EmptyString, _ => true
  | String a sub', String b s' => Ascii.eqb a b && has_prefix sub' s'
  | _, EmptyString => false
  end.
Fixpoint indexOf (s sub : string) : Z :=
  if has_prefix sub s then 0
  else match s with
       | EmptyString => -1
       | String _ s' => let i := indexOf s' sub in if i <? 0 then -1 else i + 1
       end.
Definition contains (s sub : string) : bool :=
  (String.length sub <=? String.length s)%nat && (bool_decide (s = sub) || (String.length sub =? 0)%nat || (0 <=? indexOf s sub)).

(** ** Tokens for sessions (exchange.go) *)
Record SessionIdentity : Type := mkSessionIdentity {
  SiUserID : string; SiTenantID : string; SiSessionID : string; SiRoles : list string; SiAMR : list string; SiOperator : bool;
  SiDisplayName : string; SiAvatarURL : string }.
Definition sessionIdentity (a : Actor) : SessionIdentity :=
  mkSessionIdentity (AUserID a) (ATenantID a) (ASessionID a) (ARoles a) (AAMR a) (bool_decide (AKind a = KindOperator)) (ADisplayName a) (AAvatarURL a).
Record ExchangeResponse : Type := mkExchangeResponse { ExIdentity : SessionIdentity; ExToken : string; ExExpiresAt : Z }.

Section Sessions.
Context {S K KS : Type} `{SessionStore S} `{KV K} `{JWT}.
Context (HashToken : string → string) (newID : nat → string).
Context (iss : string) (r : Ring KS) (ord : list string) (peer : option string).
(** err.Error() of the error that checking the token [tok] gave: the text of
    the JWT library is part of it. *)
Context (errorText : string → err → string).
Notation W := (Manager S K).
Notation svc := (default "" peer).

Definition emitV (e : Event) : M W unit := for_each (valid_events e) emit.

Definition mint (a : Actor) (audience op : string) : M W (string * Z) :=
  jti <- NewID newID ;;
  match Issue iss jti ord r (Token.mkRequest (AUserID a) (ATenantID a) (ASessionID a) (ARoles a) (AAMR a) audience 0) with
  | Err _ => emitV (service_refusal TokenExchanged (ATenantID a) svc "session" (ASessionID a) "failed" (op +:+ "_mint_failed") []) ;;;
             throw (rpcErr "Unavailable" "token unavailable")
  | Ok (tok, c) => emitV (service_refusal TokenExchanged (ATenantID a) svc "session" (ASessionID a) "ok" op [("audience", audience : detail)]) ;;;
                   ret (tok, default 0 (pExp c))
  end.
Definition Exchange (secret audience : string) : M W ExchangeResponse :=
  ra <- attempt (Resolve HashToken secret) ;;
  match ra with
  | Err _ => emitV (service_refusal TokenExchanged nilTenant svc "" "" "refused" "no_session" []) ;;; throw (rpcErr "Unauthenticated" "no_session")
  | Ok a => te <- mint a audience "exchange" ;; ret (mkExchangeResponse (sessionIdentity a) te.1 te.2)
  end.
Definition MintToken (tid sid audience : string) : M W ExchangeResponse :=
  ra <- attempt (ByID tid sid) ;;
  match ra with
  | Err _ => emitV (service_refusal TokenExchanged nilTenant svc "session" sid "refused" "no_session" []) ;;; throw (rpcErr "Unauthenticated" "no_session")
  | Ok a => te <- mint a audience "mint" ;; ret (mkExchangeResponse (sessionIdentity a) te.1 te.2)
  end.

(** ** The revocation feed (sessions.go) *)
Definition feedCursor (now : Z) (c : string) : result Z :=
  if bool_decide (c = "") then Ok (now - RevocationRetention)
  else match ParseInt c with Some n => Ok n | None => Err (rpcErr "InvalidArgument" "malformed cursor") end.
Definition toProto (x : Revocation) : RevEntry := mkRevEntry (RevTS x) (RevKind x) (RevSubjectID x) (RevTenantID x) (RevReason x).
Definition RevokedSince (cursor : string) (limit : Z) : M W (list RevEntry * string) :=
  now <- nowM ;;
  since <- lift (feedCursor now cursor) ;;
  let limit := if (limit <=? 0) || (1000 <? limit) then 1000 else limit in
  re <- attempt (Since since limit) ;;
  match re with
  | Err _ => throw (rpcErr "Unavailable" "feed unavailable")
  | Ok entries =>
      let start := if bool_decide (cursor = "") then FormatInt since else cursor in
      ret (toProto <$> entries, match last entries with Some e => FormatInt (RevTS e) | None => start end)
  end.
(** One turn of the loop of Watch: what [send] takes is delivered and moves the
    position; a failing send ends the stream. *)
Fixpoint watch_send (send : RevEntry → bool) (l : list Revocation) (since : Z) : list RevEntry * Z * bool :=
  match l with
  | [] => ([], since, true)
  | e :: l' => if send (toProto e)
               then let '(sent, t, ok) := watch_send send l' (RevTS e) in (toProto e :: sent, t, ok)
               else ([], since, false)
  end.
Definition watch_poll (send : RevEntry → bool) (since : Z) : M W (list RevEntry * Z * bool) :=
  re <- attempt (Since since 1000) ;;
  match re with
  | Err _ => throw (rpcErr "Unavailable" "feed unavailable")
  | Ok entries => ret (watch_send send entries since)
  end.

(** ** Introspection (sessions.go) *)
Record IntrospectResponse : Type := mkIntrospect {
  IrActive : bool; IrReason : string; IrUserID : string; IrTenantID : string; IrSessionID : string; IrRoles : list string; IrExpiresAt : option Z }.
Definition orActive (x : string) : string := if bool_decide (x = "") then "active" else x.
Definition invalid_reason (tok : string) (e : err) : string :=
  match e with
  | ErrUnknownKid _ => "invalid"
  | _ => if contains (errorText tok e) "expired" then "expired" else "invalid"
  end.
(** The entry ends the token with these claims. *)
Definition feed_hits (iat : Z) (c : Payload) (e : Revocation) : bool :=
  negb (unix (RevTS e) <? unix iat) &&
  (bool_decide (RevKind e = "session" ∧ RevSubjectID e = pSID c) || bool_decide (RevKind e = "user" ∧ RevSubjectID e = pSub c) ||
   bool_decide (RevKind e = "tenant" ∧ RevSubjectID e = pTID c)).
Definition Introspect (tok : string) : M W IntrospectResponse :=
  match IssuerVerify iss r tok with
  | Err e =>
      let reason := invalid_reason tok e in
      emitV (service_refusal AuthzDenied nilTenant svc "" "" "refused" ("introspect_" +:+ reason) []) ;;;
      ret (mkIntrospect false reason "" "" "" [] None)
  | Ok c =>
      match pIat c, pExp c with
      | Some iat, Some exp =>
          re <- attempt (Since (iat - Dur.second) 1000) ;;
          match re with
          | Err _ => throw (rpcErr "Unavailable" "feed unavailable")
          | Ok entries =>
              let hit := existsb (feed_hits iat c) entries in
              let reason := if hit then "revoked" else "" in
              emitV (service_refusal AuthzDenied (pTID c) svc "session" (pSID c) (if hit then "refused" else "ok") ("introspect_" +:+ orActive reason) []) ;;;
              ret (mkIntrospect (negb hit) reason (pSub c) (pTID c) (pSID c) (pRoles c) (Some exp))
          end
      | _, _ => throw (ErrText "nil pointer dereference")
      end
  end.
End Sessions.
