(* ===== verification/EnrollApi.v ===== *)
(** * Enrollment tokens at the gRPC server
      (internal/grpcapi/enrollment.go, internal/store/enrollment.go)

    A workload's first credential: minted for a tenant and a list of paths, and
    burnt by the call that verifies it.  The ledger of used ids is the state;
    how PostgreSQL reads a text as a uuid is a parameter, whether the database
    answers a call an argument of it. *)
From S2P Require Import Prelude GoStrings Regex PermRef Models Token AuditEvents AuthClient Session SessionsApi.
#[local] Open Scope list_scope.
#[local] Open Scope Z_scope.
#[local] Open Scope go_scope.

Definition EnrollTokenExpired := "enrollment_token_expired".
Definition EnrollTokenNotYetValid := "enrollment_token_not_yet_valid".
Definition EnrollTokenUsed := "enrollment_token_used".
Definition EnrollTokenInvalid := "enrollment_token_invalid".

(** enrollment_jti *)
Record JtiRow : Type := mkJti { JtTenantID : string; JtExpiresAt : Z; JtConsumedAt : Z }.
Record EW : Type := mkEW { ew_jtis : gmap string JtiRow; ew_audit : list Event; ew_now : Z; ew_ids : nat }.
Definition emitW (e : Event) : M EW unit := modify (λ w, mkEW (ew_jtis w) (ew_audit w ++ valid_events e) (ew_now w) (ew_ids w)).

Record EnrollResponse : Type := mkEnrollResponse { EnTenantID : string; EnPaths : list string; EnJTI : string }.
Definition verifyRefusal (e : err) : string * string :=
  if bool_decide (e = ErrEnrollmentExpired) then ("enrollment_expired", EnrollTokenExpired)
  else if bool_decide (e = ErrEnrollmentNotYetValid) then ("enrollment_not_yet_valid", EnrollTokenNotYetValid)
  else ("enrollment_invalid", EnrollTokenInvalid).
Definition jtiRE : re :=
  let hex n := exactly n (Cls (λ c, is_hex c || in_range "A" "F" c)) in
  Seq (hex 8%nat) (Seq (chr "-") (Seq (hex 4%nat) (Seq (chr "-") (Seq (hex 4%nat) (Seq (chr "-") (Seq (hex 4%nat) (Seq (chr "-") (hex 12%nat)))))))).
Definition ErrDatabase : err := ErrText "store: database unavailable".

Section Enroll.
Context {KS : Type} `{JWT} (newID : nat → string) (pg_uuid : string → option string) (iss : string) (peer : option string).
Notation svc := (default "" peer).
Notation refusal tid outcome reason d := (service_refusal TokenExchanged tid svc "" "" outcome reason d).

(** INSERT ... ON CONFLICT (jti) DO NOTHING, and the number of rows. *)
Definition ConsumeEnrollmentJTI (up : bool) (jti tid : string) (exp : Z) : M EW unit := λ w,
  if negb up then (Err ErrDatabase, w) else
  match pg_uuid jti, pg_uuid tid with
  | Some j, Some t =>
      match ew_jtis w !! j with
      | Some _ => (Err ErrConflict, w)
      | None => (Ok tt, mkEW (<[j := mkJti t exp (ew_now w)]> (ew_jtis w)) (ew_audit w) (ew_now w) (ew_ids w))
      end
  | _, _ => (Err (ErrText "invalid input syntax for type uuid"), w)
  end.
Definition EnrollmentJTIConsumedAt (up : bool) (jti : string) : M EW (option Z) := λ w,
  if negb up then (Err ErrDatabase, w) else
  match pg_uuid jti with
  | Some j => (Ok (JtConsumedAt <$> ew_jtis w !! j), w)
  | None => (Err (ErrText "invalid input syntax for type uuid"), w)
  end.

Definition newJTI : M EW string := λ w, (Ok (newID (ew_ids w)), mkEW (ew_jtis w) (ew_audit w) (ew_now w) (S (ew_ids w))).
Definition MintEnrollmentToken (r : Ring KS) (ord : list string) (tid : string) (paths : list string) (ttlSeconds : Z) : M EW (string * Z) :=
  jti <- newJTI ;;
  match IssueEnrollment iss jti ord r tid paths (secs ttlSeconds) with
  | Err e =>
      let '(reason, msg) :=
        if bool_decide (e = ErrEnrollmentLifetime) then ("enrollment_lifetime_exceeded", "ttl_seconds exceeds the maximum enrollment token lifetime of 24h0m0s")
        else ("enrollment_mint_failed", "enrollment token could not be minted") in
      emitW (refusal tid "failed" reason []) ;;; throw (rpcErr "InvalidArgument" msg)
  | Ok (tok, g) =>
      emitW (refusal (EgTenantID g) "ok" "enrollment_mint" [("jti", EgJTI g : detail); ("spiffe_paths", DList (EgPaths g))]) ;;; ret (tok, EgExpiresAt g)
  end.
Definition VerifyEnrollmentToken (r : Ring KS) (up : bool) (tok : string) : M EW EnrollResponse :=
  match VerifyEnrollment iss r tok with
  | Err e =>
      let '(reason, wire) := verifyRefusal e in
      emitW (refusal nilTenant "refused" reason []) ;;; throw (rpcErr "Unauthenticated" wire)
  | Ok g =>
      burn <- attempt (ConsumeEnrollmentJTI up (EgJTI g) (EgTenantID g) (EgExpiresAt g)) ;;
      match burn with
      | Err e =>
          let '(reason, ans) :=
            if bool_decide (e = ErrConflict) then ("enrollment_replayed", rpcErr "Unauthenticated" EnrollTokenUsed)
            else ("enrollment_burn_failed", rpcErr "Unavailable" "enrollment token cannot be used") in
          emitW (refusal (EgTenantID g) "refused" reason []) ;;; throw ans
      | Ok _ =>
          emitW (refusal (EgTenantID g) "ok" "enrollment_verify" [("jti", EgJTI g : detail)]) ;;;
          ret (mkEnrollResponse (EgTenantID g) (EgPaths g) (EgJTI g))
      end
  end.
(** When the token was used; [None] when it was not. *)
Definition TokenStatus (up : bool) (jti : string) : M EW (option Z) :=
  if negb (re_match jtiRE jti) then throw (rpcErr "InvalidArgument" "jti must be a UUID") else
  ra <- attempt (EnrollmentJTIConsumedAt up jti) ;;
  match ra with Err _ => throw (rpcErr "Unavailable" "enrollment token status unavailable") | Ok at_ => ret at_ end.
End Enroll.
