(* ===== verification/SessionsApiSafety.v ===== *)
(** * What the session API guarantees

    Tokens are minted for live sessions only; an enrollment token enrolls once;
    a revocation reaches the clients of the feed, and introspection. *)
From S2P Require Import Prelude GoStrings Base64 Envelope Models Cache Token TenantCtx AuditEvents Session SessionSafety AuthClient SessionsApi.
#[local] Open Scope list_scope.
#[local] Open Scope go_scope.
#[local] Set Default Proof Using "Type".

(** ** Tokens are minted for live sessions only *)
Section ExchangeSafety.
Context {S K KS : Type} `{SessionStoreLaws S} `{KVLaws K} `{JWT}.
Context (HashToken : string → string) (newID : nat → string) `{!Inj (=) (=) newID}.
Notation W := (Manager S K).
Implicit Types (w : W).

(** Changes of the log and of the number of ids drawn. *)
Definition aside (w w' : W) : Prop := m_st w' = m_st w ∧ m_cache w' = m_cache w ∧ m_now w' = m_now w ∧ (m_ids w <= m_ids w')%nat.
Lemma aside_refl w : aside w w.
Proof. done. Qed.
Lemma Inv_aside D w w' : aside w w' → Inv newID D none w → Inv newID D none w'.
Proof.
  intros (E1 & E2 & E3 & E4) [I1 I2 I3 I4 I5 I6]. unfold rowsW, tenantsW in *. split; unfold rowsW, tenantsW; rewrite ?E1, ?E2, ?E3; try done. intros n Hn. apply I2. lia.
Qed.
Lemma emitV_aside e w : ∃ w', emitV e w = (Ok tt, w') ∧ aside w w'.
Proof. unfold emitV, valid_events. destruct (ValidateEvent e); cbn; eexists; (split; [reflexivity|]); done. Qed.

Context (iss : string) (r : Ring KS) (ord : list string) (peer : option string).
Notation mint := (mint newID iss r ord peer).
Notation Exchange := (Exchange HashToken newID iss r ord peer).
Notation MintToken := (MintToken newID iss r ord peer).

(** The token is of the actor's session, user and tenant. *)
Definition token_of (a : Actor) (audience tok : string) (exp : Z) : Prop :=
  ∃ jti p, Issue iss jti ord r (Token.mkRequest (AUserID a) (ATenantID a) (ASessionID a) (ARoles a) (AAMR a) audience 0) = Ok (tok, p) ∧ exp = default 0%Z (pExp p).
Lemma mint_run a audience op w : ∃ res w', mint a audience op w = (res, w') ∧ aside w w' ∧ ∀ te, res = Ok te → token_of a audience te.1 te.2.
Proof.
  unfold SessionsApi.mint, bind at 1, NewID. set (w0 := mkManager _ _ _ _ _ _). assert (Ha0 : aside w w0) by (unfold aside, w0; cbn; split_and!; try done; lia).
  destruct (Issue _ _ _ _ _) as [[tok c]|e] eqn:Ei;
    match goal with |- context [bind (emitV ?e) _] => destruct (emitV_aside e w0) as (w1 & E1 & Ha) end; unfold bind; rewrite E1; eexists _, w1;
    (split; [reflexivity|]); (split; [destruct Ha0 as (? & ? & ? & ?), Ha as (? & ? & ? & ?); unfold aside; split_and!; try congruence; lia|]); [|done].
  intros te [= <-]. exists (newID (m_ids w)), c. done.
Qed.
Lemma Exchange_run secret audience w : 
  ∃ res w1 w', Exchange secret audience w = (res, w') ∧ w1 = (Resolve HashToken secret w).2 ∧ aside w1 w' ∧
    ∀ out, res = Ok out → ∃ a, Resolve HashToken secret w = (Ok a, w1) ∧ ExIdentity out = sessionIdentity a ∧ token_of a audience (ExToken out) (ExExpiresAt out).
Proof.
  unfold SessionsApi.Exchange, bind at 1, attempt. destruct (Resolve HashToken secret w) as [[a|e] w1] eqn:Er.
  - destruct (mint_run a audience "exchange" w1) as (res & w' & E & Ha & Ht). unfold bind. rewrite E. destruct res as [te|e]; eexists _, w1, w'; (split; [reflexivity|]); (split; [done|]); (split; [done|]); [|done].
    intros out [= <-]. exists a. split; [done|]. split; [done|]. by apply Ht.
  - match goal with |- context [bind (emitV ?e) _] => destruct (emitV_aside e w1) as (w' & E1 & Ha) end. unfold bind. rewrite E1. by eexists _, w1, w'.
Qed.
Lemma MintToken_run tid sid audience w :
  ∃ res w1 w', MintToken tid sid audience w = (res, w') ∧ w1 = (ByID tid sid w).2 ∧ aside w1 w' ∧
    ∀ out, res = Ok out → ∃ a, ByID tid sid w = (Ok a, w1) ∧ ExIdentity out = sessionIdentity a ∧ token_of a audience (ExToken out) (ExExpiresAt out).
Proof.
  unfold SessionsApi.MintToken, bind at 1, attempt. destruct (ByID tid sid w) as [[a|e] w1] eqn:Er.
  - destruct (mint_run a audience "mint" w1) as (res & w' & E & Ha & Ht). unfold bind. rewrite E. destruct res as [te|e]; eexists _, w1, w'; (split; [reflexivity|]); (split; [done|]); (split; [done|]); [|done].
    intros out [= <-]. exists a. split; [done|]. split; [done|]. by apply Ht.
  - match goal with |- context [bind (emitV ?e) _] => destruct (emitV_aside e w1) as (w' & E1 & Ha) end. unfold bind. rewrite E1. by eexists _, w1, w'.
Qed.
End ExchangeSafety.

Section Histories.
Context {S K KS : Type} `{SessionStoreLaws S} `{KVLaws K} `{JWT}.
Context (HashToken : string → string) (newID : nat → string) `{!Inj (=) (=) newID}.
Notation W := (Manager S K).
Implicit Types (w : W) (r : Ring KS).

(** Histories: the manager's operations and the exchanges, with whatever keys,
    callers and audiences. *)
Inductive api_step : W → W → Prop :=
  | as_manager w w' : step HashToken newID w w' → api_step w w'
  | as_exchange iss r ord peer secret audience w : api_step w (Exchange HashToken newID iss r ord peer secret audience w).2
  | as_mint iss r ord peer tid sid audience w : api_step w (MintToken newID iss r ord peer tid sid audience w).2.
Lemma manager_steps w w' : rtc (step HashToken newID) w w' → rtc api_step w w'.
Proof. apply rtc_subrel. intros x y. apply as_manager. Qed.
Lemma Inv_api D w w' : rtc api_step w w' → Inv newID D none w → Inv newID D none w'.
Proof using Inj0.
  induction 1 as [|w w1 w' Hs _ IH]; [done|]. intros HI. apply IH. destruct Hs as [w w1 Hs|iss r ord peer secret audience w|iss r ord peer tid sid audience w].
  - exact (Inv_step HashToken newID D _ _ Hs HI).
  - destruct (Exchange_run HashToken newID iss r ord peer secret audience w) as (res & w1 & w2 & -> & -> & Ha & _). cbn [snd]. apply (Inv_aside newID D _ _ Ha).
    exact (Inv_step HashToken newID D _ _ (step_resolve _ _ w secret) HI).
  - destruct (MintToken_run newID iss r ord peer tid sid audience w) as (res & w1 & w2 & -> & -> & Ha & _). cbn [snd]. apply (Inv_aside newID D _ _ Ha).
    exact (Inv_step HashToken newID D _ _ (step_byid _ _ w tid sid) HI).
Qed.

(** C4. A revoked session gets no token.  In every history in which idle timeouts
    stay within the retention of the revocation marks (60 minutes; with longer
    ones a revoked session can resolve again, [revoked_session_revives]), once
    a session row is revoked, whatever the server does afterwards, neither the exchange of a cookie nor a refresh
    by id answers for that session; and what either answers carries a signed
    token with the user, tenant and session of the live session it resolved. *)
Theorem revoked_session_gets_no_token w0 w1 w2 id iss r ord peer :
  initial w0 → rtc api_step w0 w1 → dead_row id w1 → rtc api_step w1 w2 →
  (∀ secret audience out w3, Exchange HashToken newID iss r ord peer secret audience w2 = (Ok out, w3) →
     SiSessionID (ExIdentity out) ≠ id ∧ ∃ a, ExIdentity out = sessionIdentity a ∧ token_of iss r ord a audience (ExToken out) (ExExpiresAt out)) ∧
  (∀ tid sid audience out w3, MintToken newID iss r ord peer tid sid audience w2 = (Ok out, w3) →
     SiSessionID (ExIdentity out) ≠ id ∧ ∃ a, ExIdentity out = sessionIdentity a ∧ token_of iss r ord a audience (ExToken out) (ExExpiresAt out)).
Proof using Inj0.
  intros HI0 H01 Hd H12. apply (initial_Inv newID) in HI0. apply (Inv_api _ _ _ H01) in HI0. apply (Inv_more newID _ (λ i, i = id)) in HI0; [|by intros i ->; right].
  apply (Inv_api _ _ _ H12) in HI0. apply (no_session_of_dead HashToken newID) in HI0 as (Hr & _ & Hb). split.
  - intros secret audience out w3 E. destruct (Exchange_run HashToken newID iss r ord peer secret audience w2) as (res & w & w' & E' & _ & _ & Ho).
    rewrite E in E'. injection E' as <- <-. destruct (Ho out eq_refl) as (a & Ea & Hi & Ht). split; [|eauto]. rewrite Hi. by apply (Hr _ _ _ Ea).
  - intros tid sid audience out w3 E. destruct (MintToken_run newID iss r ord peer tid sid audience w2) as (res & w & w' & E' & _ & _ & Ho).
    rewrite E in E'. injection E' as <- <-. destruct (Ho out eq_refl) as (a & Ea & Hi & Ht). split; [|eauto]. rewrite Hi. by apply (Hb _ _ _ _ Ea).
Qed.
End Histories.

(** ** An enrollment token enrolls once *)
From S2P Require Import Prelude GoStrings Regex PermRef Models Token RingSafety TokenSafety AuditEvents AuthClient Session SessionsApi EnrollApi.
#[local] Open Scope list_scope.
#[local] Open Scope Z_scope.
#[local] Open Scope go_scope.

Section EnrollSafety.
Context {KS : Type} `{JWT} (newID : nat → string) (pg_uuid : string → option string) (iss : string) (peer : option string).
Implicit Types (w : EW) (r : Ring KS).

(** The calls of the API, with the ring of the moment and the clock. *)
Inductive ecall : Type :=
  | EcMint (r : Ring KS) (ord : list string) (tid : string) (paths : list string) (ttl : Z)
  | EcVerify (r : Ring KS) (up : bool) (tok : string)
  | EcStatus (up : bool) (jti : string)
  | EcTick (d : Z).
Definition tickE (d : Z) w : EW := mkEW (ew_jtis w) (ew_audit w) (ew_now w + d) (ew_ids w).
(** One call: the id it enrolled, if any, and the next state. *)
Definition ecall_run (c : ecall) w : option string * EW :=
  match c with
  | EcMint r ord tid paths ttl => (None, (MintEnrollmentToken newID iss peer r ord tid paths ttl w).2)
  | EcVerify r up tok =>
      let '(res, w') := VerifyEnrollmentToken pg_uuid iss peer r up tok w in
      (match res with Ok g => Some (EnJTI g) | Err _ => None end, w')
  | EcStatus up jti => (None, (TokenStatus pg_uuid up jti w).2)
  | EcTick d => (None, tickE d w)
  end.
Fixpoint ecalls_run (l : list ecall) w : list string * EW :=
  match l with
  | [] => ([], w)
  | c :: l' => let '(o, w1) := ecall_run c w in let '(js, w2) := ecalls_run l' w1 in (option_list o ++ js, w2)
  end.
Definition used w (jti : string) : Prop := ∃ j, pg_uuid jti = Some j ∧ is_Some (ew_jtis w !! j).

Lemma emitW_jtis e w : ew_jtis ((emitW e w).2) = ew_jtis w.
Proof. done. Qed.
Lemma mint_jtis r ord tid paths ttl w : ew_jtis (MintEnrollmentToken newID iss peer r ord tid paths ttl w).2 = ew_jtis w.
Proof.
  unfold MintEnrollmentToken, bind, newJTI. destruct (IssueEnrollment _ _ _ _ _ _ _) as [[tok g]|e]; [done|]. by destruct (bool_decide _).
Qed.
Lemma status_same up jti w : (TokenStatus pg_uuid up jti w).2 = w.
Proof.
  unfold TokenStatus. destruct (negb _); [done|]. unfold bind, attempt, EnrollmentJTIConsumedAt. destruct up; [|done]. cbn. by destruct (pg_uuid jti).
Qed.
(** Verifying either burns an unused id and answers its grant, or refuses and
    leaves the ledger. *)
Lemma verify_cases r up tok w :
  let '(res, w') := VerifyEnrollmentToken pg_uuid iss peer r up tok w in
  (∃ e, res = Err e ∧ ew_jtis w' = ew_jtis w) ∨
  (∃ g j t, VerifyEnrollment iss r tok = Ok g ∧ res = Ok (mkEnrollResponse (EgTenantID g) (EgPaths g) (EgJTI g)) ∧
     pg_uuid (EgJTI g) = Some j ∧ ew_jtis w !! j = None ∧ ew_jtis w' = <[j := mkJti t (EgExpiresAt g) (ew_now w)]> (ew_jtis w)).
Proof.
  unfold VerifyEnrollmentToken. destruct (VerifyEnrollment iss r tok) as [g|e]; [|destruct (verifyRefusal e); left; eauto].
  unfold bind, attempt, ConsumeEnrollmentJTI. destruct up; cbn [negb]; [|left; eauto].
  destruct (pg_uuid (EgJTI g)) as [j|] eqn:Ej; [|left; eauto]. destruct (pg_uuid (EgTenantID g)) as [t|]; [|left; eauto].
  destruct (ew_jtis w !! j) eqn:Eu; [left; destruct (bool_decide (ErrConflict = ErrConflict)); eauto|]. right. exists g, j, t. done.
Qed.
Lemma ecall_used c w o w' jti : ecall_run c w = (o, w') → used w jti → used w' jti.
Proof.
  intros E (j & Hj & Hu). exists j. split; [done|]. destruct c as [r ord tid paths ttl|r up tok|up k|d]; cbn [ecall_run] in E.
  - injection E as _ <-. by rewrite mint_jtis.
  - pose proof (verify_cases r up tok w) as Hc. destruct (VerifyEnrollmentToken _ _ _ _ _ _ _) as [res w1]. injection E as _ <-.
    destruct Hc as [(e & _ & ->)|(g & j' & t & _ & _ & _ & Hn & ->)]; [done|]. apply lookup_insert_is_Some. destruct (decide (j' = j)); auto.
  - injection E as _ <-. by rewrite status_same.
  - by injection E as _ <-.
Qed.
Lemma ecall_enrolls c w jti w' : ecall_run c w = (Some jti, w') → ¬ used w jti ∧ used w' jti.
Proof.
  intros E. destruct c as [r ord tid paths ttl|r up tok|up k|d]; cbn [ecall_run] in E; try done.
  pose proof (verify_cases r up tok w) as Hc. destruct (VerifyEnrollmentToken _ _ _ _ _ _ _) as [res w1]. injection E as E <-.
  destruct Hc as [(e & -> & _)|(g & j & t & _ & -> & Hj & Hn & Hw)]; [done|]. injection E as <-. cbn. split.
  - intros (j' & Hj' & [x Hx]). congruence.
  - exists j. split; [done|]. rewrite Hw, lookup_insert_eq. eauto.
Qed.
Lemma ecalls_fresh l : ∀ w js w' jti, ecalls_run l w = (js, w') → used w jti → used w' jti ∧ ∀ k, k ∈ js → pg_uuid k ≠ pg_uuid jti.
Proof.
  induction l as [|c l IH]; intros w js w' jti E Hu; cbn [ecalls_run] in E.
  { injection E as <- <-. split; [done|]. by intros k ?%elem_of_nil. }
  destruct (ecall_run c w) as [o w1] eqn:E1. destruct (ecalls_run l w1) as [js1 w2] eqn:E2. injection E as <- <-.
  destruct (IH _ _ _ jti E2 (ecall_used _ _ _ _ _ E1 Hu)) as [H1 H2]. split; [done|]. intros k [Hk|Hk]%elem_of_app; [|by apply H2].
  destruct o as [x|]; [|by apply elem_of_nil in Hk]. apply list_elem_of_singleton in Hk as ->. apply ecall_enrolls in E1 as [Hn _]. intros Heq. apply Hn.
  destruct Hu as (j & Hj & Hs). exists j. by rewrite Heq.
Qed.
Lemma ecalls_enrolled l : ∀ w js w', ecalls_run l w = (js, w') → NoDup (pg_uuid <$> js) ∧ ∀ k, k ∈ js → ¬ used w k ∧ used w' k.
Proof.
  induction l as [|c l IH]; intros w js w' E; cbn [ecalls_run] in E.
  { injection E as <- <-. split; [constructor|]. by intros k ?%elem_of_nil. }
  destruct (ecall_run c w) as [o w1] eqn:E1. destruct (ecalls_run l w1) as [js1 w2] eqn:E2. injection E as <- <-.
  destruct (IH _ _ _ E2) as [Hn Hk]. assert (Hold : ∀ k, k ∈ js1 → ¬ used w k ∧ used w2 k).
  { intros k Hin. destruct (Hk k Hin) as [H1 H2]. split; [|done]. intros Hu. by apply H1, (ecall_used _ _ _ _ _ E1). }
  destruct o as [x|]; [|done]. cbn [option_list app]. destruct (ecall_enrolls _ _ _ _ E1) as [Hx1 Hx2]. destruct (ecalls_fresh _ _ _ _ x E2 Hx2) as [Hx3 Hx4]. split.
  - change (NoDup (pg_uuid x :: (pg_uuid <$> js1))). apply NoDup_cons. split; [|done]. intros (k & Heq & Hin)%list_elem_of_fmap. by apply (Hx4 k Hin).
  - intros k [->|Hin]%elem_of_cons; [done|by apply Hold].
Qed.

Context {Cr : Crypto} {KSt : KeyStore KS} {KSL : KeyStoreLaws KS} {CrL : CryptoLaws} (signed : string → string → Payload → string → Prop) {JL : JWTLaws signed}.

End EnrollSafety.

(** ** A revocation reaches the clients

    The feed of the session API, read by the SDK: what a revocation writes is
    delivered, and a client that has read it accepts no token it ends. *)
From S2P Require Import Prelude GoStrings Base64 Envelope Models Cache Token RingSafety TokenSafety AuthClient ClientSafety TenantCtx AuditEvents Session MemStore SessionSafety SessionsApi.
#[local] Open Scope list_scope.
#[local] Open Scope Z_scope.
#[local] Open Scope go_scope.
#[local] Set Default Proof Using "Type".

(** ** Pages *)
Definition after (t : Z) (l : list Revocation) : list Revocation := filter (λ x, t < RevTS x) l.
(** The feed is in the order of time, and no two entries of one instant lie on
    either side of a page border. *)
Definition whole_pages (L : nat) (l : list Revocation) : Prop :=
  ∀ i x y, l !! i = Some x → l !! S i = Some y → RevTS x <= RevTS y ∧ ((S i mod L)%nat = 0%nat → RevTS x < RevTS y).
Lemma whole_drop L l : (0 < L)%nat → whole_pages L l → whole_pages L (drop L l).
Proof.
  intros HL Hw i x y Hx Hy. rewrite !lookup_drop in *. replace (L + S i)%nat with (S (L + i)) in Hy by lia. destruct (Hw _ _ _ Hx Hy) as [H1 H2]. split; [done|].
  intros Hm. apply H2. replace (S (L + i)) with (S i + 1 * L)%nat by lia. by rewrite Nat.Div0.mod_add.
Qed.
Lemma whole_sorted L l i j x y : whole_pages L l → (i <= j)%nat → l !! i = Some x → l !! j = Some y → RevTS x <= RevTS y.
Proof.
  intros Hw Hij Hx. revert y. induction Hij as [|j Hij IH]; intros y Hy; [replace y with x by congruence; lia|].
  destruct (l !! j) as [z|] eqn:Ez; [|apply lookup_ge_None in Ez; apply lookup_lt_Some in Hy; lia].
  specialize (IH z eq_refl). destruct (Hw _ _ _ Ez Hy) as [? _]. lia.
Qed.
(** After the last entry of a page comes exactly the rest. *)
Lemma page_end L l x : (0 < L)%nat → whole_pages L l → last (take L l) = Some x → after (RevTS x) l = drop L l.
Proof.
  intros HL Hw Hx. rewrite last_lookup in Hx. set (k := pred (length (take L l))) in Hx.
  assert (Hk : (k < L)%nat ∧ l !! k = Some x) by (by apply lookup_take_Some in Hx as [? ?]).
  destruct Hk as [Hk Hlk]. unfold after. apply filter_drop.
  - intros y [i Hi]%list_elem_of_lookup Hlt. pose proof (lookup_lt_Some _ _ _ Hi) as Hil. apply lookup_take_Some in Hi as [Hi _].
    assert (i <= k)%nat by (unfold k; lia). pose proof (whole_sorted L l i k y x Hw ltac:(lia) Hi Hlk). lia.
  - intros y [i Hy]%list_elem_of_lookup. rewrite lookup_drop in Hy. assert (Hlen : (L < length l)%nat) by (apply lookup_lt_Some in Hy; lia).
    assert (Hke : k = pred L) by (unfold k; rewrite length_take; lia). destruct (lookup_lt_is_Some_2 l L Hlen) as [z Hz].
    replace L with (S k) in Hz by lia. destruct (Hw k x z Hlk Hz) as [_ Hlt]. specialize (Hlt ltac:(replace (S k) with L by lia; apply Nat.Div0.mod_same)).
    pose proof (whole_sorted L l (S k) (L + i) z y Hw ltac:(lia) Hz Hy). lia.
Qed.
Lemma after_after t t' l : t <= t' → after t' (after t l) = after t' l.
Proof. intros Ht. unfold after. rewrite list_filter_filter. apply list_filter_iff. intros x. lia. Qed.

(** ** Reading the feed *)
Lemma FormatInt_nonempty n : in_int64 n = true → FormatInt n ≠ "".
Proof. intros Hn E. apply ParseInt_FormatInt in Hn. by rewrite E in Hn. Qed.
Section Reading.
Context {K : Type} `{KV K}.
Notation W := (Manager Store K).
Implicit Types (w : W).
Notation feed w := (Revs (m_st w)).

Lemma Since_run t limit w : 0 < limit <= 1000 → Since t limit w = (Ok (take (Z.to_nat limit) (after t (feed w))), w).
Proof. intros Hl. unfold Since. rewrite (proj2 (Z.leb_gt limit 0)), (proj2 (Z.ltb_ge 1000 limit)) by lia. cbn [orb]. by destruct w. Qed.
Definition page_size (limit : Z) : Z := if (limit <=? 0) || (1000 <? limit) then 1000 else limit.
Lemma page_size_range limit : 0 < page_size limit <= 1000.
Proof. unfold page_size. destruct (limit <=? 0) eqn:E1; [cbn; lia|]. destruct (1000 <? limit) eqn:E2; cbn [orb]; bool_prop; lia. Qed.
Lemma RevokedSince_run c limit t w : feedCursor (m_now w) c = Ok t →
  RevokedSince c limit w = (Ok (toProto <$> take (Z.to_nat (page_size limit)) (after t (feed w)),
    match last (take (Z.to_nat (page_size limit)) (after t (feed w))) with Some e => FormatInt (RevTS e) | None => if bool_decide (c = "") then FormatInt t else c end), w).
Proof.
  intros Hc. unfold RevokedSince, bind at 1, nowM, gets. rewrite Hc. unfold bind at 1, lift. cbn [page_size]. fold (page_size limit). unfold bind, attempt.
  by rewrite Since_run by apply page_size_range.
Qed.
(** The feed as the SDK's source of revocations. *)
Definition feedOf (limit : Z) w : Feed := λ c, (RevokedSince c limit w).1.
Definition int_times w : Prop := Forall (λ x, in_int64 (RevTS x) = true) (feed w).

Lemma sync_loop_reads limit w n : int_times w → ∀ c t v, feedCursor (m_now w) c = Ok t → whole_pages (Z.to_nat (page_size limit)) (after t (feed w)) →
  (length (after t (feed w)) <= Z.to_nat (page_size limit) * n)%nat →
  ∃ v', sync_loop n (feedOf limit w) c v = (Ok tt, v') ∧ vReceived v' = vReceived v ++ (toProto <$> after t (feed w)) ∧ vHasRevs v' = vHasRevs v.
Proof.
  intros Hint. pose proof (page_size_range limit) as HL. set (L := Z.to_nat (page_size limit)). assert (HL' : (0 < L)%nat) by (unfold L; lia).
  induction n as [|n IH]; intros c t v Hc Hw Hlen.
  { destruct (after t (feed w)); [|cbn in Hlen; lia]. exists v. by rewrite app_nil_r. }
  cbn [sync_loop]. unfold feedOf at 1. rewrite (RevokedSince_run c limit t w Hc). fold L. cbn [fst]. set (l := after t (feed w)) in *.
  destruct (last (take L l)) as [x|] eqn:Ex.
  - pose proof (page_end L l x HL' Hw Ex) as Hnext. assert (Hin : x ∈ l) by (by apply last_Some_elem_of, subseteq_take in Ex).
    apply list_elem_of_filter in Hin as [Htx Hin]. pose proof (proj1 (Forall_forall _ _) Hint x Hin) as Hix.
    assert (Hc' : feedCursor (m_now w) (FormatInt (RevTS x)) = Ok (RevTS x)).
    { unfold feedCursor. rewrite bool_decide_eq_false_2 by by apply FormatInt_nonempty. by rewrite ParseInt_FormatInt by done. }
    rewrite bool_decide_eq_false_2; [|intros Heq; rewrite Heq, Hc in Hc'; injection Hc'; lia].
    rewrite bool_decide_eq_false_2; [|intros Hn; apply fmap_nil_inv in Hn; by rewrite Hn in Ex]. cbn [orb].
    match goal with |- context [sync_loop n _ _ ?v1] => destruct (IH (FormatInt (RevTS x)) (RevTS x) v1 Hc') as (v' & E & Hr & Hh) end.
    + rewrite <- (after_after t) by lia. fold l. rewrite Hnext. by apply whole_drop.
    + rewrite <- (after_after t) by lia. fold l. rewrite Hnext, length_drop. lia.
    + exists v'. split; [exact E|]. split; [|by rewrite Hh]. rewrite Hr. cbn [vReceived]. rewrite <- (after_after t) by lia. fold l. rewrite Hnext.
      by rewrite <- app_assoc, <- fmap_app, take_drop.
  - apply last_None in Ex. rewrite Ex. cbn [fmap list_fmap]. rewrite (bool_decide_eq_true_2 ([] = [])) by done. rewrite orb_true_r. eexists. split; [reflexivity|].
    split; [|done]. cbn [vReceived]. destruct l as [|y l']; [done|]. by destruct L; [lia|].
Qed.

(** ** What a revocation writes *)
Definition extends {A} (m : M W A) : Prop := ∀ w, feed w ⊆ feed (m w).2 ∧ m_now (m w).2 = m_now w.
Lemma extends_ret {A} (a : A) : extends (ret a).
Proof. done. Qed.
Lemma extends_gets {A} (f : W → A) : extends (gets f).
Proof. done. Qed.
Lemma extends_bind {A B} (m : M W A) (f : A → M W B) : extends m → (∀ a, extends (f a)) → extends (bind m f).
Proof.
  intros Hm Hf w. destruct (Hm w) as [H1 H2]. unfold bind. destruct (m w) as [[a|e] w1]; cbn in *; [|done]. destruct (Hf a w1) as [H3 H4]. split; [set_solver|congruence].
Qed.
Lemma extends_storeM {A} (m : M Store A) : (∀ st, Revs st ⊆ Revs (m st).2) → extends (storeM m).
Proof. intros Hm w. specialize (Hm (m_st w)). unfold storeM. by destruct (m (m_st w)). Qed.
Lemma extends_cacheM {A} (d : A) m : extends (cacheM d m).
Proof. intros w. unfold cacheM. destruct (m_cache w) as [k|]; [|done]. by destruct (m k). Qed.
Lemma extends_emit e : extends (emit e).
Proof. done. Qed.
Lemma extends_lift {A} (x : result A) : extends (lift x).
Proof. intros w. by destruct x. Qed.
Lemma extends_evict h : extends (evictView h).
Proof. apply extends_bind; [apply extends_gets|]. intros now w. unfold ignore. pose proof (extends_cacheM tt (kv_del now [SessionKey h]) w) as Hg. by destruct (cacheM _ _ w) as [[] ?]. Qed.
Lemma extends_publish x : extends (publish x).
Proof.
  unfold publish. apply extends_bind; [apply extends_storeM; intros st; cbn; set_solver|]. intros _. apply extends_bind; [apply extends_gets|]. intros now.
  apply extends_bind; [apply extends_gets|]. intros [k|]; [|apply extends_ret]. apply extends_bind; [apply extends_lift|]. intros key. apply extends_cacheM.
Qed.
Lemma extends_for_each {A} (l : list A) (f : A → M W unit) : (∀ a, extends (f a)) → extends (for_each l f).
Proof. intros Hf. induction l as [|a l IH]; [apply extends_ret|]. cbn [for_each]. apply extends_bind; [apply Hf|]. intros _. apply IH. Qed.
(** A successful run leaves this entry in the feed. *)
Definition writes (x : Z → Revocation) {A} (m : M W A) : Prop := ∀ w b w', m w = (Ok b, w') → x (m_now w) ∈ feed w'.
Lemma writes_first x {A B} (m : M W A) (f : A → M W B) : writes x m → (∀ a, extends (f a)) → writes x (bind m f).
Proof. intros Hm Hf w b w' (a & w1 & E1 & E2)%bind_ok_inv. apply Hm in E1. destruct (Hf a w1) as [Hs _]. rewrite E2 in Hs. by apply Hs. Qed.
Lemma writes_later x {A B} (m : M W A) (f : A → M W B) : extends m → (∀ a, writes x (f a)) → writes x (bind m f).
Proof. intros Hm Hf w b w' (a & w1 & E1 & E2)%bind_ok_inv. destruct (Hm w) as [_ Hn]. rewrite E1 in Hn. rewrite <- Hn. by eapply Hf. Qed.
Lemma writes_now x {B} (f : Z → M W B) : (∀ n, writes (λ _, x n) (f n)) → writes x (bind nowM f).
Proof. intros Hf w b w' (a & w1 & [= <- <-] & E2)%bind_ok_inv. by eapply Hf. Qed.
Lemma writes_publish x : writes (λ _, x) (publish x).
Proof.
  unfold publish. apply writes_first; [intros w b w' [= _ <-]; cbn; set_solver|]. intros _. apply extends_bind; [apply extends_gets|]. intros now.
  apply extends_bind; [apply extends_gets|]. intros [k|]; [|apply extends_ret]. apply extends_bind; [apply extends_lift|]. intros key. apply extends_cacheM.
Qed.
Lemma writes_for_each x {A} (l : list A) (f : A → M W unit) a : a ∈ l → (∀ b, extends (f b)) → writes x (f a) → writes x (for_each l f).
Proof.
  intros Ha Hf Hw. induction l as [|b l IH]; [by apply elem_of_nil in Ha|]. cbn [for_each]. apply elem_of_cons in Ha as [->|Ha].
  - apply writes_first; [exact Hw|]. intros _. by apply extends_for_each.
  - apply writes_later; [apply Hf|]. intros _. by apply IH.
Qed.

(** The revocations of the session manager, and the tokens each is for. *)
Inductive revokes : M W unit → (W → Identity → Prop) → Prop :=
  | rv_session ctx tid sid reason : revokes (Revoke ctx tid sid reason) (λ _ id, iSessionID id = sid)
  | rv_user ctx tid uid reason : revokes (RevokeUser ctx tid uid reason "") (λ _ id, iUserID id = uid ∧ iTenantID id = tid)
  | rv_others ctx tid uid reason keep : keep ≠ "" → revokes (RevokeUser ctx tid uid reason keep) (λ w id, iSessionID id ≠ keep ∧
      ∃ k x, Sessions (m_st w) !! k = Some x ∧ STenantID x = tid ∧ SUserID x = uid ∧ SID x = iSessionID id)
  | rv_tenant ctx tid reason : revokes (RevokeTenant ctx tid reason) (λ _ id, iTenantID id = tid).
(** The entry is of this instant and ends tokens of the identity issued until
    then. *)
Definition ends (now : Z) (id : Identity) (x : Revocation) : Prop :=
  RevTS x = now ∧ ∀ iat, entry_hits (toProto x) iat (iSessionID id) (iUserID id) (iTenantID id) = negb (unix now <? unix iat).
Lemma ends_session now sid tid reason id : iSessionID id = sid → ends now id (mkRevocation now "session" sid tid reason).
Proof. intros <-. split; [done|]. intros iat. unfold entry_hits. cbn. rewrite (bool_decide_eq_true_2 (iSessionID id = _)) by done. by rewrite andb_true_r. Qed.
Lemma revokes_writes op hits w w' id : revokes op hits → op w = (Ok tt, w') → hits w id → ∃ x, x ∈ feed w' ∧ ends (m_now w) id x.
Proof.
  intros Hr E Hh. destruct Hr as [ctx tid sid reason|ctx tid uid reason|ctx tid uid reason keep Hk|ctx tid reason].
  - assert (Hw : writes (λ n, mkRevocation n "session" sid tid reason) (Revoke ctx tid sid reason)).
    { unfold Revoke. apply writes_later; [apply extends_storeM; intros st; cbn; unfold Get; by repeat case_match|]. intros s. apply writes_first; [|intros; apply extends_evict].
      unfold revokeOne. apply writes_now. intros n. apply writes_later; [apply extends_storeM; intros st; cbn; unfold RevokeRow; by repeat case_match|]. intros _.
      apply writes_first; [apply writes_publish|]. intros _. apply extends_emit. }
    eexists. split; [by eapply Hw|by apply ends_session].
  - assert (Hw : writes (λ n, mkRevocation n "user" uid tid reason) (RevokeUser ctx tid uid reason "")).
    { unfold RevokeUser. apply writes_now. intros n. apply writes_later; [apply extends_ret|]. intros l. apply writes_later; [by apply extends_storeM|]. intros _.
      apply writes_first; [apply writes_publish|]. intros _. apply extends_emit. }
    eexists. split; [by eapply Hw|]. destruct Hh as [<- <-]. split; [done|]. intros iat. unfold entry_hits. cbn [toProto RTS RKind RSubject RTenant RevTS RevKind RevSubjectID RevTenantID]. destruct (negb _); [|done]. repeat case_bool_decide; naive_solver.
  - destruct Hh as (Hne & k & x & Hx & Ht & Hu & Hs).
    assert (Hw : mkRevocation (m_now w) "session" (SID x) tid reason ∈ feed w').
    { unfold RevokeUser in E. apply bind_ok_inv in E as (now & w0 & [= <- <-] & E). rewrite (bool_decide_eq_true_2 (keep ≠ "")) in E by done.
      apply bind_ok_inv in E as (l & w1 & E1 & E). unfold storeM in E1. cbn in E1. injection E1 as <- <-. revert E.
      match goal with |- bind ?m ?f ?w1 = _ → _ => cut (writes (λ _, mkRevocation (m_now w) "session" (SID x) tid reason) (bind m f)); [intros Hw E; by eapply Hw in E|] end.
      apply writes_later; [by apply extends_storeM|]. intros _. apply writes_first; [|intros; apply extends_emit].
      rewrite (bool_decide_eq_false_2 (keep = "")) by done. apply (writes_for_each _ _ _ x).
      - apply list_elem_of_filter. split; [done|]. apply elem_of_values. eauto.
      - intros s. case_bool_decide; [|apply extends_ret]. apply extends_bind; [apply extends_publish|]. intros _. apply extends_evict.
      - rewrite bool_decide_eq_true_2 by congruence. apply writes_first; [apply writes_publish|]. intros _. apply extends_evict. }
    eexists. split; [exact Hw|by apply ends_session].
  - assert (Hw : writes (λ n, mkRevocation n "tenant" tid tid reason) (RevokeTenant ctx tid reason)).
    { unfold RevokeTenant. apply writes_now. intros n. apply writes_later; [by apply extends_storeM|]. intros _. apply writes_first; [apply writes_publish|]. intros _. apply extends_emit. }
    eexists. split; [by eapply Hw|]. split; [done|]. intros iat. unfold entry_hits. cbn. rewrite (bool_decide_eq_true_2 _ (eq_sym Hh)). by rewrite andb_true_r.
Qed.
End Reading.

(** ** The client *)
Section Client.
Context {J : JWT}.
Lemma sync_loop_received n feed cursor e : triple (λ v, e ∈ vReceived v) (sync_loop n feed cursor) (λ _ v, e ∈ vReceived v) (λ v, e ∈ vReceived v).
Proof.
  revert cursor. induction n as [|n IH]; intros cursor; [by apply triple_ret|]. intros v He. cbn [sync_loop]. destruct (feed cursor) as [[entries next]|]; [|done].
  match goal with |- context [sync_loop n feed next ?x] => set (v' := x) end. assert (He' : e ∈ vReceived v') by (apply elem_of_app; by left).
  destruct (_ || _); [done|]. by apply IH.
Qed.
Lemma Sync_run feed v v1 : vHasRevs v = true → sync_loop 100 feed (vCursor v) v = (Ok tt, v1) →
  ∃ v', SyncRevocations feed v = (Ok tt, v') ∧ vReceived v' = vReceived v1.
Proof. intros Hh E. unfold SyncRevocations, bind, gets. cbn [id]. rewrite Hh. cbn [negb]. rewrite E. by eexists. Qed.
Lemma RefreshKeys_received keys v : vReceived (RefreshKeys keys v).2 = vReceived v.
Proof. by destruct keys. Qed.
Lemma Verify_received keys tok v : vReceived (Verify keys tok v).2 = vReceived v.
Proof.
  apply (triple_out (λ s, vReceived s = vReceived v)); [|done]. set (P := λ s, vReceived s = vReceived v). unfold Verify.
  eapply (triple_bind _ _ _ (λ _, P)); [by apply triple_gets|]. intros v0. eapply (triple_bind _ _ _ (λ _, P)).
  { destruct (verify_with v0 tok) as [p|[]]; try by apply triple_ret. destruct (_ <=? _); [|by apply triple_ret].
    eapply (triple_bind _ _ _ (λ _, P)); [by apply triple_modify|]. intros []. eapply (triple_bind _ _ _ (λ _, P)).
    { eapply (triple_attempt _ _ (λ _, P) P); [|done|done]. intros s Hs. unfold RefreshKeys. by destruct keys. }
    intros rr. eapply (triple_bind _ _ _ (λ _, P)); [by apply triple_gets|]. intros. by apply triple_ret. }
  intros [p|e]; [|by apply triple_throw]. cbv zeta. repeat first [apply triple_ret; done|apply triple_throw; done|case_match]; done.
Qed.
Lemma client_step_received v v' e : client_step v v' → e ∈ vReceived v → e ∈ vReceived v'.
Proof.
  intros [keys u|feed u|keys tok u|d u _] He; [by rewrite RefreshKeys_received| |by rewrite Verify_received|done].
  apply (triple_out (λ v, e ∈ vReceived v)); [|done]. unfold SyncRevocations. eapply (triple_bind _ _ _ (λ _ v, e ∈ vReceived v)); [by apply triple_gets|]. intros v0.
  destruct (negb _); [by apply triple_ret|]. eapply (triple_bind _ _ _ (λ _ v, e ∈ vReceived v)); [apply sync_loop_received|]. intros []. by apply triple_modify.
Qed.

Context {Cr : Crypto} (signed : string → string → Payload → string → Prop) {JL : JWTLaws signed}.
Context {K : Type} `{KV K}.
Notation W := (Manager Store K).
Implicit Types (w : W).
Notation feed w := (Revs (m_st w)).

(** C3. A revocation reaches the clients.  After a successful Revoke, RevokeUser or
    RevokeTenant, a client that reads the feed from a position before it, over
    a feed with no instant cut by a page border and at most 100,000 entries
    after that position (the 100 pages one synchronisation reads), succeeds,
    and from then on, whatever it does, it accepts a token of the session,
    user or tenant only if that was issued in a later second than the
    revocation.  A client configured to keep entries for less than 961 seconds
    (a token can live 15 minutes and the clocks may differ by one) guarantees
    this only while it still keeps the entry. *)
Theorem revocation_reaches_clients c op hits w w' v t :
  revokes op hits → op w = (Ok tt, w') → client_reach c true v →
  feedCursor (m_now w') (vCursor v) = Ok t → t < m_now w →
  int_times w' → whole_pages 1000 (after t (feed w')) → (length (after t (feed w')) <= 1000 * 100)%nat →
  ∃ v1, SyncRevocations (feedOf 0 w') v = (Ok tt, v1) ∧
    ∀ v2 keys tok id v3, rtc client_step v1 v2 →
      961 * Dur.second <= cRetention (clientConfig c) ∨ vNow v2 - cRetention (clientConfig c) < m_now w →
      Verify keys tok v2 = (Ok id, v3) → hits w id → unix (m_now w) < unix (iIssuedAt id).
Proof using signed JL.
  intros Hr E Hv Hc Ht Hint Hw Hlen. pose proof (VInv_reach _ _ _ Hv) as [_ Hh _].
  destruct (sync_loop_reads 0 w' 100 Hint (vCursor v) t v Hc Hw ltac:(change (Z.to_nat (page_size 0)) with 1000%nat; lia)) as (v1 & Es & Hrec & _).
  destruct (Sync_run _ _ _ Hh Es) as (v1' & E1 & Hrec'). exists v1'. split; [exact E1|].
  intros v2 keys tok id v3 Hst Hret Ev Hid. destruct (revokes_writes op hits w w' id Hr E Hid) as (x & Hx & Hts & Hhit).
  assert (Hin : toProto x ∈ vReceived v1').
  { rewrite Hrec', Hrec. apply elem_of_app. right. apply list_elem_of_fmap_2, list_elem_of_filter. split; [lia|done]. }
  assert (Hin2 : toProto x ∈ vReceived v2) by (clear -Hst Hin; induction Hst as [|a b d Hs _ IH]; [done|]; by apply IH, (client_step_received a)).
  assert (Hv2 : client_reach c true v2).
  { destruct Hv as [t0 Hv]. exists t0. etrans; [exact Hv|]. eapply rtc_l; [|exact Hst]. pose proof (cs_sync (feedOf 0 w') v) as Hs. by rewrite E1 in Hs. }
  pose proof (received_not_hit signed c true v2 keys tok id v3 Hv2 eq_refl Ev (toProto x) Hin2) as Hn.
  specialize (Hn ltac:(cbn; rewrite Hts; exact Hret)). rewrite Hhit in Hn.
  apply negb_false_iff, Z.ltb_lt in Hn. exact Hn.
Qed.

(** ** Introspection *)
Context {KS : Type} (iss : string) (r : Ring KS) (peer : option string) (errorText : string → err → string).
Lemma emitV_run e w : ∃ w', emitV e w = (Ok tt, w') ∧ m_st w' = m_st w.
Proof. unfold emitV, valid_events. destruct (ValidateEvent e); cbn; eauto. Qed.
Lemma early_misses iat p (x : Revocation) : RevTS x <= iat - Dur.second → feed_hits iat p x = false.
Proof.
  intros Hx. unfold feed_hits. assert (Hlt : unix (RevTS x) < unix iat).
  { unfold unix. apply Z.div_lt_upper_bound; [done|]. pose proof (Z.div_mod iat Dur.second ltac:(done)). pose proof (Z.mod_pos_bound iat Dur.second ltac:(done)).
    unfold Dur.second in *. lia. }
  apply Z.ltb_lt in Hlt. by rewrite Hlt.
Qed.
(** What a feed entry must say to end a token: it is of the second of the issue
    or a later one, and names the session, the user or the tenant. *)
Definition ends_token (iat : Z) (p : Payload) (x : Revocation) : Prop :=
  iat / Dur.second <= RevTS x / Dur.second ∧
  (RevKind x = "session" ∧ RevSubjectID x = pSID p ∨ RevKind x = "user" ∧ RevSubjectID x = pSub p ∨
   RevKind x = "tenant" ∧ RevSubjectID x = pTID p).
Lemma feed_hits_iff iat p x : feed_hits iat p x = true ↔ ends_token iat p x.
Proof.
  unfold feed_hits, ends_token, unix. rewrite andb_true_iff, negb_true_iff, Z.ltb_ge, !orb_true_iff, !bool_decide_eq_true. clear iss r errorText. naive_solver.
Qed.

(** C15. Introspection, over the in-memory store (whose reads succeed), is exact
    while the feed since the token's issue fits in one page: it always answers,
    says active exactly for a token that verifies and that no entry of the feed
    ends, and then names its user, tenant and session.  An entry ends a token
    when it names its session, user or tenant and is not of an earlier second
    than the issue. *)
Theorem introspect_exact tok w : 
  (∀ p iat, IssuerVerify iss r tok = Ok p → pIat p = Some iat → (length (after (iat - Dur.second) (feed w)) <= 1000)%nat) →
  ∃ res w', Introspect iss r peer errorText tok w = (Ok res, w') ∧ m_st w' = m_st w ∧
    (IrActive res = true ↔ ∃ p iat, IssuerVerify iss r tok = Ok p ∧ pIat p = Some iat ∧ ∀ x, x ∈ feed w → ¬ ends_token iat p x) ∧
    (IrActive res = false → IrReason res ≠ "") ∧
    ∀ p, IssuerVerify iss r tok = Ok p → IrUserID res = pSub p ∧ IrTenantID res = pTID p ∧ IrSessionID res = pSID p.
Proof.
  intros Hfit. unfold Introspect. destruct (IssuerVerify iss r tok) as [p|e] eqn:Ev.
  - assert (Hp : ∃ iat ex, pIat p = Some iat ∧ pExp p = Some ex).
    { unfold IssuerVerify, VerifyToken in Ev. destruct (_ <? _)%nat; [done|]. destruct (ParseWithClaims _ _ _ _) as [q|je]; [|by destruct (jeKey je) as [[]|]].
      destruct (pIat q) as [i|] eqn:Ei; [|done]. destruct (pExp q) as [ex|] eqn:Ee; [|done]. destruct (pNbf q); [|done]. destruct (_ <? _); [done|]. destruct (_ || _); [done|]. injection Ev as <-. eauto. }
    destruct Hp as (iat & ex & Hi & He). rewrite Hi, He. unfold bind at 1, attempt. rewrite Since_run by done. cbv zeta.
    rewrite firstn_all2 by (by apply (Hfit p iat)). set (hit := existsb (feed_hits iat p) (after (iat - Dur.second) (feed w))).
    match goal with |- context [bind (emitV ?e) _] => destruct (emitV_run e w) as (w1 & E1 & Hw1) end. unfold bind. rewrite E1. eexists _, w1. split; [reflexivity|]. split; [done|].
    cbn [IrActive IrReason IrUserID IrTenantID IrSessionID]. split_and!.
    + rewrite negb_true_iff. unfold hit. rewrite existsb_false_iff. split.
      * intros Hn. exists p, iat. split_and!; [done|done|]. intros x Hx. rewrite <- feed_hits_iff. apply not_true_iff_false.
        destruct (decide (iat - Dur.second < RevTS x)); [|apply early_misses; lia]. apply Hn. by apply list_elem_of_filter.
      * intros (p' & iat' & [= <-] & Hi' & Hn) x [_ Hx]%list_elem_of_filter. replace iat with iat' by congruence.
        apply not_true_iff_false. rewrite feed_hits_iff. by apply Hn.
    + by destruct hit.
    + by intros p' [= <-].
  - match goal with |- context [bind (emitV ?e) _] => destruct (emitV_run e w) as (w1 & E1 & Hw1) end. unfold bind. rewrite E1. eexists _, w1. split; [reflexivity|]. split; [done|].
    cbn [IrActive IrReason]. split_and!; [|intros _; unfold invalid_reason; destruct e; try done; by destruct (contains _ _)|done]. split; [done|]. by intros (? & ? & ? & _).
Qed.
End Client.
