(* ===== verification/FeedRuns.v ===== *)
(** * Concrete runs of the session API

    Witnesses of the theorems on the feed, introspection and enrollment, and
    three runs that show defects: a page border inside an instant loses
    entries, introspection overlooks an entry beyond the first page, and an
    enrollment lifetime overflows into an accepted one. *)
From S2P Require Import Prelude GoStrings Base64 Envelope Models Cache Token RingSafety TokenSafety TokenRuns AuthClient ClientSafety TenantCtx AuditEvents Session MemStore SessionSafety SessionRuns SessionsApi SessionsApiSafety EnrollApi.
#[local] Open Scope list_scope.
#[local] Open Scope Z_scope.
#[local] Open Scope go_scope.

(** The token of TokenRuns belongs to u1 in t1.  Its user is signed out
    everywhere five minutes after it was issued. *)
Definition f0 : World := set_now (start RawEmpty) TC.
Definition outU1 : M World unit := RevokeUser sysCtx "t1" "u1" ReasonAdmin "".
Definition f1 : World := (outU1 f0).2.
Definition reader : Verifier := (RefreshKeys (Ok keyset) (NewVerifier ccfg true TC)).2.
Lemma reader_reached : @client_reach jwt1 ccfg true reader.
Proof. exists TC. apply rtc_once. apply (cs_refresh (Ok keyset)). Qed.

Lemma f1_times : forallb (λ x, in_int64 (RevTS x)) (Revs (m_st f1)) = true.
Proof. vm_compute. reflexivity. Qed.
Lemma f1_feed : after (TC - RevocationRetention) (Revs (m_st f1)) = [mkRevocation TC "user" "u1" "t1" ReasonAdmin].
Proof. vm_compute. reflexivity. Qed.

Lemma revocation_reaches_clients_witness :
  is_ok (@Verify jwt1 (Ok keyset) "tok" client2).1 = true ∧
  ∃ v1, SyncRevocations (feedOf 0 f1) reader = (Ok tt, v1) ∧
    ∀ id v3, @Verify jwt1 (Ok keyset) "tok" v1 = (Ok id, v3) → iUserID id = "u1" ∧ iTenantID id = "t1" → unix TC < unix (iIssuedAt id).
Proof.
  split; [vm_compute; reflexivity|].
  destruct (@revocation_reaches_clients jwt1 _ _ (oneJWT_laws kid1 (toy_key 0%nat) pay1) Memory _ ccfg outU1 (λ _ id, iUserID id = "u1" ∧ iTenantID id = "t1")
    f0 f1 reader (TC - RevocationRetention)) as (v1 & E & Hv).
  - apply rv_user.
  - exact (run_ok outU1 f0 tt ltac:(vm_compute; reflexivity)).
  - exact reader_reached.
  - vm_compute. reflexivity.
  - vm_compute. reflexivity.
  - apply Forall_forall. intros x Hx. apply (proj1 (forallb_forall (λ x, in_int64 (RevTS x)) (Revs (m_st f1))) f1_times x). by apply list_elem_of_In.
  - rewrite f1_feed. intros i x y Hx Hy. by destruct i.
  - rewrite f1_feed. apply Nat.leb_le. vm_compute. reflexivity.
  - exists v1. split; [exact E|]. intros id v3 Ev Hid. refine (Hv v1 (Ok keyset) "tok" id v3 (rtc_refl _ _) _ Ev Hid). left. vm_compute. discriminate.
Defined.

Definition askTok (w : World) : result IntrospectResponse := (@Introspect Store Memory MemKeys _ jwt1 "https://auth" ring3 (Some "svc") (λ _ _, "") "tok" w).1.
Lemma introspect_exact_witness :
  askTok f0 = Ok (mkIntrospect true "" "u1" "t1" "s1" ["viewer"] (pExp pay1)) ∧ askTok f1 = Ok (mkIntrospect false "revoked" "u1" "t1" "s1" ["viewer"] (pExp pay1)) ∧
  ∃ res w', @Introspect Store Memory MemKeys _ jwt1 "https://auth" ring3 (Some "svc") (λ _ _, "") "tok" f0 = (Ok res, w') ∧ IrUserID res = "u1".
Proof.
  split; [vm_compute; reflexivity|]. split; [vm_compute; reflexivity|].
  destruct (@introspect_exact jwt1 Memory MemKeys "https://auth" ring3 (Some "svc") (λ _ _, "") "tok" f0) as (res & w' & E & _ & _ & _ & Hp).
  - intros p iat Hv Hi. apply Nat.leb_le. vm_compute. reflexivity.
  - exists res, w'. split; [exact E|]. apply (Hp pay1). vm_compute. reflexivity.
Defined.

(** ** Exchange *)
(** The session of u1 is exchanged for a token while it lives; after the user
    is signed out, no cookie or id gives a token for it. *)
Definition pay3 : Payload :=
  mkPayload "https://auth" "u1" ["gw"] (Some (numericDate T0)) (Some (numericDate T0)) (Some (numericDate (T0 + 900 * Dur.second))) "aa" "t1" "a" ["member"] ["pwd"] [].
Definition jwt3 : JWT := oneJWT kid1 (toy_key 0%nat) pay3.
Definition exchange1 (w : World) : result ExchangeResponse := (@Exchange Store Memory MemKeys _ _ jwt3 tokHash seqID "https://auth" ring1 [kid1] None "tok1" "gw" w).1.
Lemma w2_reached : rtc (step tokHash seqID) (start RawEmpty) w2.
Proof. eapply rtc_r; [apply w1_reached|]. apply step_revoke_user. Qed.
Lemma revoked_session_gets_no_token_witness :
  is_ok (exchange1 w1) = true ∧ is_ok (exchange1 w2) = false ∧
  ∀ tid sid audience out w3, @MintToken Store Memory MemKeys _ _ jwt3 seqID "https://auth" ring1 [kid1] None tid sid audience (tick Dur.minute w2) = (Ok out, w3) →
    SiSessionID (ExIdentity out) ≠ "a".
Proof.
  split; [vm_compute; reflexivity|]. split; [vm_compute; reflexivity|].
  destruct (@revoked_session_gets_no_token Store Memory MemKeys _ _ _ _ jwt3 tokHash seqID _ (start RawEmpty) w2 (tick Dur.minute w2) "a" "https://auth" ring1 [kid1] None) as [_ Hm].
  - apply start_initial.
  - apply manager_steps. exact w2_reached.
  - eexists. split; [vm_compute; reflexivity|done].
  - apply manager_steps, rtc_once, step_tick; [done|vm_compute; reflexivity].
  - intros tid sid audience out w3 E. exact (proj1 (Hm tid sid audience out w3 E)).
Defined.

(** ** Enrollment *)
Definition e0 : EW := mkEW ∅ [] TC 0%nat.
Definition anyUUID (s : string) : option string := Some s.
Definition jwt2 : JWT := oneJWT kid1 (toy_key 0%nat) pay2.

(** ** Defects *)
(** u1 has three sessions and signs out the other two: both entries carry the
    same time.  A reader with pages of one entry gets the first of them and
    then, from its cursor, nothing. *)
Definition f2 : World := set_now (signed_in DefaultPolicy (signed_in DefaultPolicy (signed_in DefaultPolicy (start RawEmpty)))) TC.
Definition f3 : World := (RevokeUser sysCtx "t1" "u1" ReasonAdmin "a" f2).2.
Example page_border_loses :
  (length (Revs (m_st f3)) = 2)%nat ∧
  match feedOf 1 f3 "" with
  | Ok (l, next) => (length l = 1)%nat ∧ feedOf 1 f3 next = Ok ([], next)
  | Err _ => False
  end.
Proof. vm_compute. repeat split. Qed.

(** A thousand sign-outs of others within the token's life, then u1's: the
    token is still called active. *)
Definition f4 : World :=
  mkManager (set_Revs (m_st f0) (repeat (mkRevocation TC "session" "other" "t1" ReasonAdmin) 1000 ++ [mkRevocation TC "user" "u1" "t1" ReasonAdmin])) None [] TC [] 0%nat.
Example introspect_overlooks : askTok f4 = Ok (mkIntrospect true "" "u1" "t1" "s1" ["viewer"] (pExp pay1)).
Proof. vm_compute. reflexivity. Qed.

(** More than a day is refused, but about 584 years wrap around to ten minutes
    and are minted. *)
Example ttl_overflows :
  let mintFor n := (@MintEnrollmentToken MemKeys jwt2 (λ _, "j1") "https://auth" None ring1 [kid1] "t1" ["/svc/mail"] n e0).1 in
  is_ok (mintFor 86401) = false ∧ is_ok (mintFor 18446744674) = true.
Proof. vm_compute. split; reflexivity. Qed.
