(* ===== verification/Mfa.v ===== *)
(** * Second factors (internal/mfa/mfa.go, internal/mfa/factors.go)

    TOTP enrolment and verification with replay protection, recovery codes,
    and the rules about the last factor.  The service shares the world of the
    session manager (store, cache, audit, clock, randomness).  The TOTP library
    is the parameter [Totp]; a code depends on the secret and on the number of
    30 second steps since the epoch (RFC 6238). *)
From S2P Require Import Prelude GoStrings Base64 Utf8 Regex PermRef TenantCtx Models Password Cache Envelope AuditEvents Session.
#[local] Open Scope list_scope.
#[local] Open Scope go_scope.

Definition ErrInvalidCode : err := ErrText "invalid_code".
Definition ErrNotEnrolled : err := ErrText "not_enrolled".
Definition ErrRequired : err := ErrText "mfa_required".
Definition ErrNoPending : err := ErrText "no_pending_enrolment".

Definition Period : Z := 30.
Definition Skew : Z := 1.
Definition EnrolTTL : Z := 10 * Dur.minute.
Definition RecoveryCount : nat := 10.
Definition recoveryAlpha : string := "ABCDEFGHJKLMNPQRSTUVWXYZ23456789".

Class Totp : Type := {
  totp_secret : string → result string;     (* Generate(...).Secret(): base32 of the seed *)
  totp_url : string → string → string;      (* Generate(...).URL() for an account and secret *)
  totp_code : string → Z → result string;   (* GenerateCodeCustom(secret, t, opts) at step t/30 *)
}.

Class MfaStore (S : Type) : Type := {
  mf_set_mfa : string → string → bool → option string → M S unit;
  mf_set_counter : string → string → Z → M S unit;
  mf_replace_codes : string → string → list string → M S unit;
  mf_list_codes : string → string → M S (list string);
  mf_use_code : string → string → string → M S unit;
  mf_list_keys : string → string → M S (list WebAuthnCredential);
}.

(** ** Codes *)
Definition upper_byte (c : ascii) : ascii := if in_range "a" "z" c then ascii_of_nat (code c - 32) else c.
Definition ToUpper (unicode_upper : string → string) (s : string) : string :=
  if str_all (λ c, (code c <? 128)%nat) s then map_bytes upper_byte s else unicode_upper s.
(** strings.NewReplacer("-", "", " ", "") *)
Fixpoint drop_separators (s : string) : string :=
  match s with
  | EmptyString => ""
  | String c r => if is_char "-" c || is_char " " c then drop_separators r else String c (drop_separators r)
  end.

Definition alpha_char (c : ascii) : bool := bool_decide (is_Some (index_byte c recoveryAlpha)).

Definition NormalizeRecovery (unicode_upper : string → string) (code : string) : string :=
  let code := ToUpper unicode_upper (drop_separators (TrimSpace code)) in
  if negb (String.length code =? 10)%nat then ""
  else if str_all alpha_char code then code else "".

Definition isDigits (s : string) : bool := negb (bool_decide (s = "")) && str_all is_digit s.

(** [recoveryAlpha[int(x)%len(recoveryAlpha)]] *)
Definition recovery_char (x : ascii) : ascii := default "A"%char (String.get (code x mod 32) recoveryAlpha).
Definition recovery_text (b : string) : string :=
  map_bytes recovery_char (str_take 5 b) +:+ (if (5 <? String.length b)%nat then "-" else "") +:+
  map_bytes recovery_char (str_drop 5 b).

Record Enrolment : Type := mkEnrolment { EnSecret : string; EnURI : string }.
Record MKey : Type := mkMKey { MkID : string; MkName : string; MkFlagged : bool }.
Record State : Type := mkState {
  StEnabled : bool; StTOTP : bool; StKeys : list MKey; StRecoveryCodesLeft : nat; StRequired : bool }.

Definition Usable (st : State) : nat :=
  ((if StTOTP st then 1 else 0) + length (filter (λ k, MkFlagged k = false) (StKeys st)))%nat.
Definition usableKeys (keys : list WebAuthnCredential) : nat :=
  length (filter (λ k, WcCloneFlaggedAt k = None) keys).

Section Mfa.
Context {S K : Type} {SS : SessionStore S} {MS : MfaStore S} {KVK : KV K} {TP : Totp} {AE : AEAD} {A2 : Argon2}.
(** The key-encryption key; strings.ToUpper beyond ASCII. *)
Context (kek : string) (unicode_upper : string → string).
Notation W := (Manager S K).

(** [s.cache.KV()]; the service is always built with a cache. *)
Definition kvM {B} (m : Z → M K B) : M W B := λ w,
  match m_cache w with
  | None => (Err (ErrText "nil cache"), w)
  | Some k => let '(r, k') := m (m_now w) k in
              (r, mkManager (m_st w) (Some k') (m_audit w) (m_now w) (m_entropy w) (m_ids w))
  end.
(** io.ReadFull of n bytes. *)
Definition ReadFull (n : nat) : M W string := x <- RandomToken ;; ret (fill n x).

Definition seedAD (uid : string) : string := "mfa:" +:+ uid.
Definition enrolKey (uid : string) : string := ChallengeKey ("enrol:" +:+ uid).

Definition envEncrypt (pt ad : string) : M W string :=
  dek <- ReadFull 32 ;; n1 <- ReadFull nonceSize ;; n2 <- ReadFull nonceSize ;;
  lift (Encrypt kek (Some dek) (Some n1) (Some n2) pt ad).

Definition Enrol (a : Actor) : M W Enrolment :=
  u <- storeM (ss_user (ATenantID a) (AUserID a)) ;;
  seed <- ReadFull 20 ;;
  secret <- lift (totp_secret seed) ;;
  enc <- envEncrypt secret (seedAD (AUserID a)) ;;
  kvM (λ now, kv_set now (enrolKey (AUserID a)) (Raw enc) EnrolTTL) ;;;
  ret (mkEnrolment secret (totp_url (UEmail u) secret)).

(** The steps tried, oldest first, and the first whose code is [code]. *)
Definition match_steps (now : Z) : list Z :=
  (λ d, (now + d * Period * Dur.second) / Dur.second / Period)%Z <$> [-1; 0; 1]%Z.
Fixpoint first_step (secret code : string) (l : list Z) : option Z :=
  match l with
  | [] => None
  | n :: l' => match totp_code secret n with
               | Ok want => if bool_decide (want = code) then Some n else first_step secret code l'
               | Err _ => first_step secret code l'
               end
  end.
Definition match_code (now : Z) (secret code : string) : option Z :=
  let code := TrimSpace code in
  if negb (String.length code =? 6)%nat then None else first_step secret code (match_steps now).

Definition newRecoveryCode : M W string := b <- ReadFull 10 ;; ret (recovery_text b).
Definition hashCode (c : string) : M W string :=
  salt <- ReadFull (PSaltLen DefaultParams) ;;
  lift (HashPassword (λ _, Some salt) (NormalizeRecovery unicode_upper c) DefaultParams).
Definition regenerate (a : Actor) : M W (list string) :=
  ch <- fold_each (seq 0 RecoveryCount) ([], []) (λ acc _,
          c <- newRecoveryCode ;; h <- hashCode c ;; ret (acc.1 ++ [c], acc.2 ++ [h])) ;;
  storeM (mf_replace_codes (ATenantID a) (AUserID a) ch.2) ;;;
  ret ch.1.

Definition mfaEvent (typ : string) (a : Actor) (d : Details) : Event :=
  mkEvent typ (ATenantID a) (kind_string (AKind a)) (AUserID a) "" "" "ok" "" d.

Definition Confirm (a : Actor) (code : string) : M W (list string) :=
  raw <- attempt (kvM (λ now, kv_get now (enrolKey (AUserID a)))) ;;
  match raw with
  | Ok (Some (Raw raw)) =>
      match Decrypt kek raw (seedAD (AUserID a)) with
      | Err _ => throw ErrNoPending
      | Ok secret =>
          now <- nowM ;;
          match match_code now secret code with
          | None => throw ErrInvalidCode
          | Some counter =>
              keys <- storeM (mf_list_keys (ATenantID a) (AUserID a)) ;;
              storeM (mf_set_mfa (ATenantID a) (AUserID a) true (Some raw)) ;;;
              storeM (mf_set_counter (ATenantID a) (AUserID a) counter) ;;;
              ignore (kvM (λ now, kv_del now [enrolKey (AUserID a)])) ;;;
              codes <- (if bool_decide (keys = []) then regenerate a else ret []) ;;
              emit (mfaEvent MFAEnrolled a [("method", "totp" : detail)]) ;;;
              ret codes
          end
      end
  | _ => throw ErrNoPending
  end.

(** The loop over the unused hashes. *)
Fixpoint try_hashes (tid uid norm : string) (l : list string) : M W string :=
  match l with
  | [] => throw ErrInvalidCode
  | h :: l' =>
      match VerifyPassword norm h with
      | Ok (true, _) =>
          r <- attempt (storeM (mf_use_code tid uid h)) ;;
          match r with Err _ => throw ErrInvalidCode | Ok _ => ret "recovery" end
      | _ => try_hashes tid uid norm l'
      end
  end.

Definition MfaVerify (tid uid code : string) : M W string :=
  ru <- attempt (storeM (ss_user tid uid)) ;;
  match ru with
  | Err _ => throw ErrInvalidCode
  | Ok u =>
      if negb (UMFAEnabled u) then throw ErrNotEnrolled else
      let code := TrimSpace code in
      if isDigits code
      then match UMFASecretEnc u with
           | None | Some "" => throw ErrInvalidCode
           | Some enc =>
               secret <- lift (Decrypt kek enc (seedAD uid)) ;;
               now <- nowM ;;
               match match_code now secret code with
               | None => throw ErrInvalidCode
               | Some counter =>
                   if (counter <=? UMFALastCounter u)%Z then throw ErrInvalidCode
                   else storeM (mf_set_counter tid uid counter) ;;; ret "otp"
               end
           end
      else
        let norm := NormalizeRecovery unicode_upper code in
        if bool_decide (norm = "") then throw ErrInvalidCode else
        hashes <- storeM (mf_list_codes tid uid) ;;
        try_hashes tid uid norm hashes
  end.

Definition clear (tid uid : string) : M W unit :=
  storeM (mf_set_mfa tid uid false None) ;;;
  storeM (mf_replace_codes tid uid []).

(** [t, err := Tenant; pol, err := ParsePolicy(...)] *)
Definition tenantPolicy (tid : string) : M W Policy :=
  t <- storeM (ss_tenant tid) ;;
  match ParsePolicy (TPolicy t) (bool_decide (TKind t = "platform")) with
  | (_, Some e) => throw e
  | (pol, None) => ret pol
  end.

Definition Disable (a : Actor) (code : string) : M W unit :=
  pol <- tenantPolicy (ATenantID a) ;;
  keys <- storeM (mf_list_keys (ATenantID a) (AUserID a)) ;;
  if MFARequired pol && (usableKeys keys =? 0)%nat then throw ErrRequired else
  MfaVerify (ATenantID a) (AUserID a) code ;;;
  (if bool_decide (keys ≠ []) then storeM (mf_set_mfa (ATenantID a) (AUserID a) true None)
   else clear (ATenantID a) (AUserID a)) ;;;
  emit (mfaEvent MFARemoved a [("method", "totp" : detail); ("reason", "user" : detail)]).

Definition Regenerate (a : Actor) (code : string) : M W (list string) :=
  MfaVerify (ATenantID a) (AUserID a) code ;;;
  codes <- regenerate a ;;
  emit (mfaEvent RecoveryCodesRegen a []) ;;;
  ret codes.

(** ** Factors of every kind *)
Definition has_secret (u : User) : bool :=
  match UMFASecretEnc u with None => false | Some s => negb (bool_decide (s = "")) end.
Definition mkey_of (k : WebAuthnCredential) : MKey :=
  mkMKey (WcID k) (WcName k) (if WcCloneFlaggedAt k then true else false).

Definition MfaState (tid uid : string) : M W State :=
  u <- storeM (ss_user tid uid) ;;
  pol <- tenantPolicy tid ;;
  keys <- storeM (mf_list_keys tid uid) ;;
  codes <- storeM (mf_list_codes tid uid) ;;
  ret (mkState (UMFAEnabled u) (has_secret u) (mkey_of <$> keys) (length codes) (MFARequired pol)).

Definition Methods (tid uid : string) : M W (list string) :=
  st <- MfaState tid uid ;;
  ret ((if existsb (λ k, negb (MkFlagged k)) (StKeys st) then ["webauthn"] else []) ++
       (if StTOTP st then ["totp"] else []) ++
       (if (0 <? StRecoveryCodesLeft st)%nat then ["recovery"] else [])).

Definition KeyAdded (a : Actor) : M W (list string) :=
  u <- storeM (ss_user (ATenantID a) (AUserID a)) ;;
  keys <- storeM (mf_list_keys (ATenantID a) (AUserID a)) ;;
  (if negb (UMFAEnabled u) then storeM (mf_set_mfa (ATenantID a) (AUserID a) true (UMFASecretEnc u)) else ret tt) ;;;
  if has_secret u || (1 <? length keys)%nat then ret [] else regenerate a.

Definition KeyRemoved (a : Actor) : M W unit :=
  u <- storeM (ss_user (ATenantID a) (AUserID a)) ;;
  keys <- storeM (mf_list_keys (ATenantID a) (AUserID a)) ;;
  if has_secret u || (0 <? length keys)%nat then ret tt else clear (ATenantID a) (AUserID a).

Definition GuardRemoval (tid uid keyID : string) : M W unit :=
  st <- MfaState tid uid ;;
  match find (λ k, bool_decide (MkID k = keyID)) (StKeys st) with
  | None => throw ErrNotFound
  | Some k => if negb (MkFlagged k) && StRequired st && (Usable st <=? 1)%nat then throw ErrRequired else ret tt
  end.
End Mfa.
