(* ===== verification/MfaSafety.v ===== *)
(** * What the second factor guarantees

    Proved against the interface [MfaStoreLaws]; MemAccounts shows that the
    in-memory store provides it. *)
From S2P Require Import Prelude GoStrings Base64 Utf8 Regex PermRef TenantCtx Models Password Cache Envelope AuditEvents Session Mfa.
#[local] Open Scope list_scope.
#[local] Open Scope go_scope.

(** ** What the service relies on *)
Definition with_counter (n : Z) (u : User) : User :=
  mkUser (UID u) (UTenantID u) (UEmail u) (UDisplayName u) (UStatus u) (UPasswordHash u) (UMFAEnabled u)
    (UMFASecretEnc u) n (UAvatarID u) (ULastSigninAt u) (UFirstName u) (ULastName u) (UDisplayNameExplicit u).
Definition with_mfa (enabled : bool) (enc : option string) (u : User) : User :=
  mkUser (UID u) (UTenantID u) (UEmail u) (UDisplayName u) (UStatus u) (UPasswordHash u) enabled enc 0
    (UAvatarID u) (ULastSigninAt u) (UFirstName u) (ULastName u) (UDisplayNameExplicit u).

Class MfaStoreLaws (S : Type) {SS : SessionStore S} {MS : MfaStore S} : Type := {
  ms_ok : S → Prop;                              (* what the store maintains *)
  ms_user : S → string → string → option User;
  ms_codes : S → string → string → list string;  (* hashes of unused codes *)
  ms_keys : S → string → string → list WebAuthnCredential;
  ms_tenant : S → string → option Tenant;
  ms_user_law tid uid s r s' : ms_ok s → ss_user tid uid s = (r, s') →
    s' = s ∧ ∀ u, r = Ok u → ms_user s tid uid = Some u;
  ms_tenant_law tid s r s' : ms_ok s → ss_tenant tid s = (r, s') →
    s' = s ∧ ∀ t, r = Ok t → ms_tenant s tid = Some t;
  ms_list_codes_law tid uid s r s' : ms_ok s → mf_list_codes tid uid s = (r, s') →
    s' = s ∧ ∀ l, r = Ok l → l = ms_codes s tid uid;
  ms_list_keys_law tid uid s r s' : ms_ok s → mf_list_keys tid uid s = (r, s') →
    s' = s ∧ ∀ l, r = Ok l → l = ms_keys s tid uid;
  (* a step that moves the counter forward is recorded *)
  ms_set_counter_law tid uid n s r s' : ms_ok s → mf_set_counter tid uid n s = (r, s') →
    ms_ok s' ∧ ms_codes s' = ms_codes s ∧ ms_keys s' = ms_keys s ∧ ms_tenant s' = ms_tenant s ∧
    match r with
    | Ok _ => ∃ m, (∀ u, ms_user s tid uid = Some u → (UMFALastCounter u < n)%Z → m = n) ∧
        ∀ t x, ms_user s' t x = if decide (t = tid ∧ x = uid) then with_counter m <$> ms_user s t x else ms_user s t x
    | Err _ => ms_user s' = ms_user s
    end;
  ms_set_mfa_law tid uid en enc s r s' : ms_ok s → mf_set_mfa tid uid en enc s = (r, s') →
    ms_ok s' ∧ ms_codes s' = ms_codes s ∧ ms_keys s' = ms_keys s ∧ ms_tenant s' = ms_tenant s ∧
    match r with
    | Ok _ => is_Some (ms_user s tid uid) ∧
        ∀ t x, ms_user s' t x = if decide (t = tid ∧ x = uid) then with_mfa en enc <$> ms_user s t x else ms_user s t x
    | Err _ => ms_user s' = ms_user s
    end;
  ms_replace_codes_law tid uid l s r s' : ms_ok s → mf_replace_codes tid uid l s = (r, s') →
    ms_ok s' ∧ ms_user s' = ms_user s ∧ ms_keys s' = ms_keys s ∧ ms_tenant s' = ms_tenant s;
  ms_use_code_law tid uid h s r s' : ms_ok s → mf_use_code tid uid h s = (r, s') →
    ms_ok s' ∧ ms_user s' = ms_user s ∧ ms_keys s' = ms_keys s ∧ ms_tenant s' = ms_tenant s ∧
    match r with
    | Ok _ => h ∈ ms_codes s tid uid ∧
        (∀ t x, ms_codes s' t x `sublist_of` ms_codes s t x) ∧
        (NoDup (ms_codes s tid uid) → h ∉ ms_codes s' tid uid)
    | Err _ => ms_codes s' = ms_codes s
    end;
}.

Section MfaSafety.
Context {S K : Type} {SS : SessionStore S} {MS : MfaStore S} {MSL : MfaStoreLaws S} {KVK : KV K} {TP : Totp} {AE : AEAD} {A2 : Argon2}.
Context (kek : string) (unicode_upper : string → string).
Notation W := (Manager S K).
Implicit Types (w : W).

(** What an accepted code was: the code of a time step, or a stored hash. *)
Inductive factor : Type := Step (n : Z) | Hash (h : string).

Definition accepts w (tid uid code method : string) (f : factor) : Prop :=
  match f with
  | Step n => method = "otp" ∧ ∃ u enc secret, ms_user (m_st w) tid uid = Some u ∧ UMFASecretEnc u = Some enc ∧
      Decrypt kek enc (seedAD uid) = Ok secret ∧ n ∈ match_steps (m_now w) ∧
      totp_code secret n = Ok (TrimSpace (TrimSpace code)) ∧ (UMFALastCounter u < n)%Z
  | Hash h => method = "recovery" ∧ h ∈ ms_codes (m_st w) tid uid ∧
      ∃ b, VerifyPassword (NormalizeRecovery unicode_upper (TrimSpace code)) h = Ok (true, b)
  end.
(** The factor is used up. *)
Definition used w (tid uid : string) (f : factor) : Prop :=
  match f with
  | Step n => ∀ u, ms_user (m_st w) tid uid = Some u → (n <= UMFALastCounter u)%Z
  | Hash h => h ∉ ms_codes (m_st w) tid uid
  end.

Lemma storeM_run {B} (m : M S B) w : storeM m w =
  (fst (m (m_st w)), mkManager (snd (m (m_st w))) (m_cache w) (m_audit w) (m_now w) (m_entropy w) (m_ids w)).
Proof using Type. unfold storeM. by destruct (m (m_st w)). Qed.

Lemma first_step_Some secret c l n : first_step secret c l = Some n → n ∈ l ∧ totp_code secret n = Ok c.
Proof using Type.
  induction l as [|x l IH]; [done|]. cbn. destruct (totp_code secret x) as [want|] eqn:E.
  - case_bool_decide; [intros [= <-]; subst; split; [by apply elem_of_cons; left|done]|].
    intros [? ?]%IH. split; [by apply elem_of_cons; right|done].
  - intros [? ?]%IH. split; [by apply elem_of_cons; right|done].
Qed.

(** Nothing used becomes fresh: codes only disappear, counters only grow. *)
Record calm (s s' : S) : Prop := mkCalm {
  cm_ok : ms_ok s';
  cm_keys : ms_keys s' = ms_keys s;
  cm_tenant : ms_tenant s' = ms_tenant s;
  cm_codes : ∀ t x, ms_codes s' t x `sublist_of` ms_codes s t x;
  cm_user : ∀ t x u', ms_user s' t x = Some u' → ∃ u, ms_user s t x = Some u ∧
    UMFASecretEnc u' = UMFASecretEnc u ∧ UMFAEnabled u' = UMFAEnabled u ∧ (UMFALastCounter u <= UMFALastCounter u')%Z;
}.
Lemma calm_refl s : ms_ok s → calm s s.
Proof using Type. intros Hok. split; [done..|]. intros t x u Hu. exists u. done. Qed.

Lemma try_hashes_run tid uid norm l w r w' :
  try_hashes tid uid norm l w = (r, w') → ms_ok (m_st w) → (∀ h, h ∈ l → h ∈ ms_codes (m_st w) tid uid) →
  calm (m_st w) (m_st w') ∧ m_now w' = m_now w ∧
  ∀ m, r = Ok m → m = "recovery" ∧ ∃ h b, h ∈ ms_codes (m_st w) tid uid ∧ VerifyPassword norm h = Ok (true, b) ∧
    (NoDup (ms_codes (m_st w) tid uid) → h ∉ ms_codes (m_st w') tid uid).
Proof using MSL.
  intros E Hok Hl. induction l as [|h l IH]; cbn in E.
  - unfold throw in E. simplify_eq. split; [by apply calm_refl|done].
  - assert (Hnext : try_hashes tid uid norm l w = (r, w') → _) by (intros E'; exact (IH E' (λ x Hx, Hl x (proj2 (elem_of_cons _ _ _) (or_intror Hx))))).
    destruct (VerifyPassword norm h) as [[[] b]|] eqn:Ev; [|by apply Hnext..].
    unfold bind, attempt in E. rewrite storeM_run in E.
    destruct (mf_use_code tid uid h (m_st w)) as [ru s'] eqn:Eu. cbn [fst snd] in E.
    apply ms_use_code_law in Eu as (H1 & H2 & H3 & H4 & H5); [|done].
    assert (Hcalm : (∀ t x, ms_codes s' t x `sublist_of` ms_codes (m_st w) t x) → calm (m_st w) s').
    { intros Hs. split; [done..|]. rewrite H2. intros t x u Hu. exists u. done. }
    destruct ru as [[]|e]; unfold throw, ret in E; simplify_eq; cbn [m_st m_now].
    + destruct H5 as (Hin & Hsub & Hnd). split; [auto|]. split; [done|]. intros m [= <-]. split; [done|]. eauto.
    + split; [apply Hcalm; by rewrite H5|]. done.
Qed.

(** One verification: what it accepts is used up afterwards, and nothing that
    was used before becomes fresh. *)
Lemma MfaVerify_run tid uid code w r w' :
  MfaVerify kek unicode_upper tid uid code w = (r, w') → ms_ok (m_st w) →
  calm (m_st w) (m_st w') ∧ m_now w' = m_now w ∧
  ∀ m, r = Ok m → ∃ f, accepts w tid uid code m f ∧ (NoDup (ms_codes (m_st w) tid uid) → used w' tid uid f).
Proof using MSL.
  intros E Hok. unfold MfaVerify, bind at 1, attempt in E. rewrite storeM_run in E.
  destruct (ss_user tid uid (m_st w)) as [ru s1] eqn:Eu. cbn [fst snd] in E. apply ms_user_law in Eu as [-> Hu]; [|done].
  assert (Hw : mkManager (m_st w) (m_cache w) (m_audit w) (m_now w) (m_entropy w) (m_ids w) = w) by by destruct w.
  rewrite Hw in E.
  assert (Hthrow : ∀ e, throw e w = (r, w') → calm (m_st w) (m_st w') ∧ m_now w' = m_now w ∧
    ∀ m, r = Ok m → ∃ f, accepts w tid uid code m f ∧ (NoDup (ms_codes (m_st w) tid uid) → used w' tid uid f)).
  { intros e [= <- <-]. split; [by apply calm_refl|done]. }
  destruct ru as [u|e]; [|by eapply Hthrow]. specialize (Hu u eq_refl).
  destruct (negb (UMFAEnabled u)); [by eapply Hthrow|]. cbv zeta in E.
  destruct (isDigits (TrimSpace code)) eqn:Ed.
  - destruct (UMFASecretEnc u) as [enc|] eqn:Ee; [|by eapply Hthrow].
    assert (Hcase : enc ≠ "" → bind (lift (Decrypt kek enc (seedAD uid))) (λ secret, bind nowM (λ now,
      match match_code now secret (TrimSpace code) with
      | None => throw ErrInvalidCode
      | Some counter => if (counter <=? UMFALastCounter u)%Z then throw ErrInvalidCode
                        else bind (storeM (mf_set_counter tid uid counter)) (λ _, ret "otp")
      end)) w = (r, w') → calm (m_st w) (m_st w') ∧ m_now w' = m_now w ∧
        ∀ m, r = Ok m → ∃ f, accepts w tid uid code m f ∧ (NoDup (ms_codes (m_st w) tid uid) → used w' tid uid f)).
    { intros _ E'. unfold bind at 1, lift in E'. destruct (Decrypt kek enc (seedAD uid)) as [secret|e] eqn:Es; [|by eapply (Hthrow e)].
      unfold bind at 1, nowM, gets in E'. destruct (match_code (m_now w) secret (TrimSpace code)) as [n|] eqn:Em; [|by eapply Hthrow].
      destruct (n <=? UMFALastCounter u)%Z eqn:El; [by eapply Hthrow|]. bool_prop. unfold bind in E'. rewrite storeM_run in E'.
      destruct (mf_set_counter tid uid n (m_st w)) as [rc s'] eqn:Ec. cbn [fst snd] in E'.
      apply ms_set_counter_law in Ec as (C1 & C2 & C3 & C4 & C5); [|done].
      destruct rc as [[]|e]; unfold ret in E'; simplify_eq; cbn [m_st m_now].
      - destruct C5 as (m & Hm & Hall). specialize (Hm u Hu ltac:(lia)). subst m. split; [|split; [done|]].
        + split; [done|done|done|by rewrite C2|]. intros t x u'. rewrite Hall. case_decide as Ht.
          * destruct Ht as [-> ->]. rewrite Hu. intros [= <-]. exists u. cbn. split_and!; [done..|lia].
          * intros Hu'. by exists u'.
        + intros m [= <-]. unfold match_code in Em. destruct (negb _) eqn:E6 in Em; [done|].
          apply first_step_Some in Em as [Hin Hcode]. exists (Step n). split.
          * split; [done|]. exists u, enc, secret. split_and!; [done..|lia].
          * intros _ u'. cbn [m_st]. rewrite Hall, decide_True by done. rewrite Hu. intros [= <-]. cbn. lia.
      - split; [|done]. split; [done|done|done|by rewrite C2|]. rewrite C5. intros t x u' Hu'. by exists u'. }
    destruct enc as [|c0 enc0]; [by eapply Hthrow|]. by apply Hcase.
  - case_bool_decide as En; [by eapply Hthrow|]. unfold bind in E. rewrite storeM_run in E.
    destruct (mf_list_codes tid uid (m_st w)) as [rl s1] eqn:El. cbn [fst snd] in E.
    apply ms_list_codes_law in El as [-> Hl]; [|done]. rewrite Hw in E. destruct rl as [l|e]; [|by eapply (Hthrow e)].
    specialize (Hl l eq_refl). subst l. apply try_hashes_run in E as (H1 & H2 & H3); [|done|done].
    split_and!; [done|done|]. intros m Hm. destruct (H3 m Hm) as (-> & h & b & Hin & Hv & Hnd).
    exists (Hash h). split; [split; [done|]; eauto|exact Hnd].
Qed.

(** ** Histories *)
(** Verifications (of any user), time, and anything that leaves the second
    factors of this user alone.  Enrolling the app again, disabling it and
    drawing new recovery codes for this user are not steps: they reset the
    counter or replace the codes, after which a used step or code is a new
    one. *)
Inductive mfa_step (tid uid : string) : W → W → Prop :=
  | ms_verify t x code w : mfa_step tid uid w (MfaVerify kek unicode_upper t x code w).2
  | ms_other w w' : ms_ok (m_st w') → ms_codes (m_st w') tid uid = ms_codes (m_st w) tid uid →
      (λ u, (UMFASecretEnc u, UMFALastCounter u)) <$> ms_user (m_st w') tid uid =
      (λ u, (UMFASecretEnc u, UMFALastCounter u)) <$> ms_user (m_st w) tid uid →
      mfa_step tid uid w w'.

Lemma used_step tid uid w w' f : mfa_step tid uid w w' → ms_ok (m_st w) → used w tid uid f →
  ms_ok (m_st w') ∧ used w' tid uid f ∧ (ms_codes (m_st w') tid uid `sublist_of` ms_codes (m_st w) tid uid).
Proof using MSL.
  intros Hs Hok Hf. destruct Hs as [t x code w|w w' Hok' Hc Hu].
  - destruct (MfaVerify kek unicode_upper t x code w) as [r w'] eqn:E. apply MfaVerify_run in E as ([H1 _ _ H4 H5] & _ & _); [|done].
    cbn [snd]. split_and!; [done| |apply H4]. destruct f as [n|h]; cbn in *.
    + intros u' Hu'. destruct (H5 _ _ _ Hu') as (u & Hu & _ & _ & Hle). specialize (Hf u Hu). lia.
    + intros Hh. apply Hf. eapply elem_of_sublist; [exact Hh|apply H4].
  - split_and!; [done| |by rewrite Hc]. destruct f as [n|h]; cbn in *; [|by rewrite Hc].
    intros u' Hu'. rewrite Hu' in Hu. destruct (ms_user (m_st w) tid uid) as [u|]; [|done].
    cbn in Hu. injection Hu as _ Hn. rewrite Hn. by apply Hf.
Qed.

Definition same_factor (f f' : factor) : Prop :=
  match f, f' with Step n, Step m => (m <= n)%Z | Hash h, Hash h' => h = h' | _, _ => False end.

(** C18. A second factor works once.  A code is accepted only as the code of a time
    step at most one off the clock and after the last step used, or as an
    unused recovery code; and as long as the user neither enrolls the app
    again, disables it nor draws new recovery codes, whatever else happens, a
    further code that is accepted is neither of a step already used nor the
    same recovery code. *)
Theorem second_factor_single_use tid uid w code m w1 w2 code' m' w3 :
  ms_ok (m_st w) → NoDup (ms_codes (m_st w) tid uid) →
  MfaVerify kek unicode_upper tid uid code w = (Ok m, w1) → rtc (mfa_step tid uid) w1 w2 →
  MfaVerify kek unicode_upper tid uid code' w2 = (Ok m', w3) →
  ∃ f f', accepts w tid uid code m f ∧ accepts w2 tid uid code' m' f' ∧ ¬ same_factor f f'.
Proof using MSL.
  intros Hok Hnd E Hst E'. apply MfaVerify_run in E as (Hc & _ & Hf); [|done]. destruct (Hf m eq_refl) as (f & Ha & Hu).
  specialize (Hu Hnd).
  assert (H2 : ms_ok (m_st w2) ∧ used w2 tid uid f).
  { pose proof (cm_ok _ _ Hc) as Hok1. clear -Hst Hok1 Hu MSL. induction Hst as [|x y z Hs _ IH]; [done|].
    destruct (used_step _ _ _ _ f Hs Hok1 Hu) as (? & ? & _). by apply IH. }
  destruct H2 as [Hok2 Hu2]. apply MfaVerify_run in E' as (_ & _ & Hf'); [|done].
  destruct (Hf' m' eq_refl) as (f' & Ha' & _). exists f, f'. split_and!; [done|done|].
  destruct f as [n|h], f' as [n'|h']; cbn in *; try (by intros []).
  - destruct Ha' as (_ & u & enc & secret & Hu' & _ & _ & _ & _ & Hlt). specialize (Hu2 u Hu'). lia.
  - intros <-. by destruct Ha' as (_ & Hin & _).
Qed.

(** ** The last factor *)
Definition requires_mfa w (tid : string) : Prop :=
  ∃ t pol, ms_tenant (m_st w) tid = Some t ∧
    ParsePolicy (TPolicy t) (bool_decide (TKind t = "platform")) = (pol, None) ∧ MFARequired pol = true.
Definition factors_left (u : User) (keys : list WebAuthnCredential) : nat :=
  ((if has_secret u then 1 else 0) + usableKeys keys)%nat.
(** DeleteWebAuthnCredential on the list of keys. *)
Fixpoint delete_key (id : string) (l : list WebAuthnCredential) : list WebAuthnCredential :=
  match l with
  | [] => []
  | k :: l' => if bool_decide (WcID k = id) then l' else k :: delete_key id l'
  end.

Lemma manager_eta w : mkManager (m_st w) (m_cache w) (m_audit w) (m_now w) (m_entropy w) (m_ids w) = w.
Proof using Type. by destruct w. Qed.

Lemma user_ok tid uid w u w' : storeM (ss_user tid uid) w = (Ok u, w') → ms_ok (m_st w) →
  w' = w ∧ ms_user (m_st w) tid uid = Some u.
Proof using MSL.
  rewrite storeM_run. intros [= Er <-] Hok. destruct (ss_user tid uid (m_st w)) as [r s'] eqn:E. cbn [fst snd] in *.
  apply ms_user_law in E as [-> H]; [|done]. rewrite manager_eta. auto.
Qed.
Lemma keys_ok tid uid w l w' : storeM (mf_list_keys tid uid) w = (Ok l, w') → ms_ok (m_st w) →
  w' = w ∧ l = ms_keys (m_st w) tid uid.
Proof using MSL.
  rewrite storeM_run. intros [= Er <-] Hok. destruct (mf_list_keys tid uid (m_st w)) as [r s'] eqn:E. cbn [fst snd] in *.
  apply ms_list_keys_law in E as [-> H]; [|done]. rewrite manager_eta. auto.
Qed.
Lemma tenantPolicy_ok tid w pol w' : tenantPolicy tid w = (Ok pol, w') → ms_ok (m_st w) →
  w' = w ∧ (requires_mfa w tid → MFARequired pol = true).
Proof using MSL.
  unfold tenantPolicy. intros E Hok. apply bind_ok_inv in E as (t & w1 & Et & E). rewrite storeM_run in Et.
  injection Et as Er <-. destruct (ss_tenant tid (m_st w)) as [r s'] eqn:Es. cbn [fst snd] in *.
  apply ms_tenant_law in Es as [-> H]; [|done]. rewrite manager_eta in E. specialize (H t Er).
  destruct (ParsePolicy _ _) as [p [e|]] eqn:Ep; [done|]. unfold ret in E. simplify_eq. split; [done|].
  intros (t' & pol' & Ht & Hp & Hm). rewrite H in Ht. injection Ht as <-. rewrite Ep in Hp. by injection Hp as ->.
Qed.

Lemma Disable_keeps a code w w' : ms_ok (m_st w) → requires_mfa w (ATenantID a) →
  Disable kek unicode_upper a code w = (Ok tt, w') →
  ∃ u', ms_user (m_st w') (ATenantID a) (AUserID a) = Some u' ∧ UMFAEnabled u' = true ∧
    (1 <= factors_left u' (ms_keys (m_st w') (ATenantID a) (AUserID a)))%nat.
Proof using MSL.
  intros Hok Hreq E. unfold Disable in E. apply bind_ok_inv in E as (pol & w1 & Ep & E).
  apply tenantPolicy_ok in Ep as [-> Hm]; [|done]. rewrite Hm in E by done. clear Hm.
  apply bind_ok_inv in E as (keys & w2 & Ek & E). apply keys_ok in Ek as [-> ->]; [|done].
  destruct (usableKeys _ =? 0)%nat eqn:E0; cbn [andb] in E; [done|]. apply Nat.eqb_neq in E0.
  apply bind_ok_inv in E as (m & w3 & Ev & E). apply MfaVerify_run in Ev as ([Hok3 Hk3 _ _ _] & _ & _); [|done].
  apply bind_ok_inv in E as ([] & w4 & Es & E). unfold emit, modify in E. injection E as <-. cbn [m_st].
  case_bool_decide as Hne; [|exfalso; apply E0; by destruct (ms_keys (m_st w) _ _) as [|]].
  rewrite storeM_run in Es. injection Es as Er <-. destruct (mf_set_mfa _ _ true None (m_st w3)) as [r s'] eqn:E4. cbn [fst snd m_st] in *.
  apply ms_set_mfa_law in E4 as (_ & _ & Hk4 & _ & H4); [|done]. rewrite Er in H4. destruct H4 as ([u Hu] & Hall).
  exists (with_mfa true None u). rewrite Hall, decide_True, Hu by done. split_and!; [done..|].
  unfold factors_left. rewrite Hk4, Hk3. cbn. lia.
Qed.

Lemma usable_mkeys keys : length (filter (λ k, MkFlagged k = false) (mkey_of <$> keys)) = usableKeys keys.
Proof using Type.
  unfold usableKeys. induction keys as [|k keys IH]; [done|]. rewrite fmap_cons, !filter_cons.
  cbn [mkey_of MkFlagged]. destruct (WcCloneFlaggedAt k); repeat case_decide; cbn [length]; auto; done.
Qed.
Lemma delete_key_usable id keys : ∀ k, find (λ k, bool_decide (MkID k = id)) (mkey_of <$> keys) = Some k →
  usableKeys keys = ((if MkFlagged k then 0 else 1) + usableKeys (delete_key id keys))%nat.
Proof using Type.
  induction keys as [|c keys IH]; intros k; [done|]. cbn [fmap list_fmap find]. cbn [mkey_of MkID].
  case_bool_decide as Hid.
  - intros [= <-]. cbn [delete_key]. rewrite bool_decide_eq_true_2 by done. unfold usableKeys. rewrite filter_cons.
    cbn [mkey_of MkFlagged]. destruct (WcCloneFlaggedAt c); case_decide; cbn [length]; done || lia.
  - intros Hf. specialize (IH k Hf). cbn [delete_key]. rewrite bool_decide_eq_false_2 by done.
    unfold usableKeys in *. rewrite !filter_cons. case_decide; cbn [length]; lia.
Qed.
(** [usableKeys] and [delete_key] see identifiers and clone flags only. *)
Definition key_marks (l : list WebAuthnCredential) : list (string * option Z) := (λ k, (WcID k, WcCloneFlaggedAt k)) <$> l.
Lemma usableKeys_marks l l' : key_marks l = key_marks l' → usableKeys l = usableKeys l'.
Proof using Type.
  revert l'. induction l as [|k l IH]; intros [|k' l'] E; try done. injection E as _ Ef El. unfold usableKeys in *.
  rewrite !filter_cons, Ef. case_decide; cbn [length]; [f_equal|]; by apply IH.
Qed.
Lemma delete_key_marks id l l' : key_marks l = key_marks l' → key_marks (delete_key id l) = key_marks (delete_key id l').
Proof using Type.
  revert l'. induction l as [|k l IH]; intros [|k' l'] E; try done. injection E as Ei Ef El. cbn [delete_key]. rewrite Ei.
  case_bool_decide; [done|]. cbn. rewrite Ei, Ef. f_equal. by apply IH.
Qed.

(** What the guard of a key's removal lets pass. *)
Lemma GuardRemoval_ok tid uid id w w' : ms_ok (m_st w) → requires_mfa w tid → GuardRemoval tid uid id w = (Ok tt, w') →
  m_st w' = m_st w ∧ ∃ u, ms_user (m_st w) tid uid = Some u ∧
    (1 <= factors_left u (ms_keys (m_st w) tid uid) → 1 <= factors_left u (delete_key id (ms_keys (m_st w) tid uid)))%nat.
Proof using MSL.
  intros Hok Hreq E. unfold GuardRemoval in E. apply bind_ok_inv in E as (st & w1 & Es & E). unfold MfaState in Es.
  apply bind_ok_inv in Es as (u & w2 & Eu & Es). apply user_ok in Eu as [-> Hu]; [|done].
  apply bind_ok_inv in Es as (pol & w3 & Ep & Es). apply tenantPolicy_ok in Ep as [-> Hm]; [|done].
  apply bind_ok_inv in Es as (keys & w4 & Ek & Es). apply keys_ok in Ek as [-> ->]; [|done].
  apply bind_ok_inv in Es as (codes & w5 & Ec & Es). rewrite storeM_run in Ec. injection Ec as _ <-.
  destruct (mf_list_codes tid uid (m_st w)) as [r s'] eqn:El. apply ms_list_codes_law in El as [-> _]; [|done]. cbn [snd] in Es.
  unfold ret in Es. injection Es as <- <-. cbn [StKeys StRequired] in E.
  destruct (find _ _) as [k|] eqn:Ef; [|done]. apply delete_key_usable in Ef.
  rewrite (Hm Hreq), andb_true_r in E. unfold Usable in E. cbn [StTOTP StKeys] in E. rewrite usable_mkeys in E.
  destruct (negb (MkFlagged k) && _) eqn:Eb; [done|]. unfold ret in E. injection E as <-. cbn [m_st]. split; [done|]. exists u. split; [done|].
  unfold factors_left. intros Hbefore. destruct (MkFlagged k); cbn [negb andb] in Eb; [lia|]. apply Nat.leb_gt in Eb. lia.
Qed.
End MfaSafety.

(** ** The text of a recovery code *)
Lemma map_bytes_app f s t : map_bytes f (s +:+ t) = map_bytes f s +:+ map_bytes f t.
Proof. induction s as [|c s IH]; [done|]. cbn. by rewrite IH. Qed.
Lemma map_bytes_length f s : String.length (map_bytes f s) = String.length s.
Proof. induction s as [|c s IH]; [done|]. cbn. by rewrite IH. Qed.
Lemma map_bytes_map f g s : map_bytes f (map_bytes g s) = map_bytes (λ c, f (g c)) s.
Proof. induction s as [|c s IH]; [done|]. cbn. by rewrite IH. Qed.
Lemma map_bytes_ext f g s : (∀ c, f c = g c) → map_bytes f s = map_bytes g s.
Proof. intros H. induction s as [|c s IH]; [done|]. cbn. by rewrite H, IH. Qed.
Lemma str_all_map p f s : (∀ c, p (f c) = true) → str_all p (map_bytes f s) = true.
Proof. intros H. induction s as [|c s IH]; [done|]. cbn. by rewrite H. Qed.
Lemma str_take_drop n s : str_take n s +:+ str_drop n s = s.
Proof. revert s. induction n as [|n IH]; intros [|c s]; cbn; [done..|]. by rewrite IH. Qed.

(** Visible ASCII is not trimmed. *)
Definition graphic (c : ascii) : bool := (33 <=? code c)%nat && (code c <? 127)%nat.
Lemma strip_all_graphic n encs s :
  forallb (λ e, match e with String c _ => negb (graphic c) | EmptyString => false end) encs = true →
  str_all graphic s = true → strip_all n encs s = s.
Proof.
  intros He Hs. destruct n as [|n]; [done|]. cbn [strip_all].
  enough (Hn : strip_one encs s = None) by by rewrite Hn.
  induction encs as [|e encs IH]; [done|]. cbn in He. apply andb_true_iff in He as [Hc He]. cbn [strip_one].
  destruct e as [|c e]; [done|]. destruct s as [|d s]; cbn [cut_prefix]; [by apply IH|].
  case_bool_decide as Ed; [|by apply IH]. subst. cbn in Hs. apply andb_true_iff in Hs as [Hg _]. by rewrite Hg in Hc.
Qed.
Lemma rev_string_app s t : rev_string (s +:+ t) = rev_string t +:+ rev_string s.
Proof. induction s as [|c s IH]; cbn; [by rewrite str_app_nil_r|]. by rewrite IH, str_app_assoc. Qed.
Lemma rev_string_invol s : rev_string (rev_string s) = s.
Proof. induction s as [|c s IH]; [done|]. cbn. by rewrite rev_string_app, IH. Qed.
Lemma str_all_rev p s : str_all p (rev_string s) = str_all p s.
Proof. induction s as [|c s IH]; [done|]. cbn. rewrite str_all_app, IH. cbn. by rewrite andb_true_r, andb_comm. Qed.
Lemma TrimSpace_graphic s : str_all graphic s = true → TrimSpace s = s.
Proof.
  intros Hs. unfold TrimSpace. cbv zeta.
  rewrite (strip_all_graphic _ space_encodings); [|vm_compute; reflexivity|done].
  rewrite strip_all_graphic; [apply rev_string_invol|vm_compute; reflexivity|by rewrite str_all_rev].
Qed.

Lemma drop_separators_app s t : drop_separators (s +:+ t) = drop_separators s +:+ drop_separators t.
Proof. induction s as [|c s IH]; [done|]. cbn. rewrite IH. by destruct (_ || _). Qed.
Lemma drop_separators_none s : str_all (λ c, negb (is_char "-" c || is_char " " c)) s = true → drop_separators s = s.
Proof.
  induction s as [|c s IH]; [done|]. cbn. intros [Hc Hs]%andb_true_iff. apply negb_true_iff in Hc. by rewrite Hc, IH.
Qed.

(** A way of writing the letters of a code. *)
Definition spelling_at (f : ascii → ascii) (c : ascii) : bool :=
  bool_decide (upper_byte (f c) = recovery_char c) && graphic (f c) && (code (f c) <? 128)%nat &&
  negb (is_char "-" (f c) || is_char " " (f c)) && alpha_char (recovery_char c).
Definition spelling (f : ascii → ascii) : bool := every_byte (spelling_at f).

Lemma Normalize_spelling up f s b : spelling f = true → String.length b = 10%nat → str_all graphic s = true →
  drop_separators s = map_bytes f b → NormalizeRecovery up s = map_bytes recovery_char b.
Proof.
  intros Hf Hl Hg Hd. assert (H : ∀ c, upper_byte (f c) = recovery_char c ∧ (code (f c) <? 128)%nat = true ∧ alpha_char (recovery_char c) = true).
  { intros c. pose proof (every_byte_spec (spelling_at f) c Hf) as Hc. unfold spelling_at in Hc. rewrite !andb_true_iff, bool_decide_eq_true in Hc. tauto. }
  unfold NormalizeRecovery. rewrite TrimSpace_graphic, Hd by done. unfold ToUpper.
  rewrite str_all_map by (intros; apply H). rewrite map_bytes_map, (map_bytes_ext _ recovery_char) by (intros; apply H).
  rewrite map_bytes_length, Hl. cbn [Nat.eqb negb]. rewrite str_all_map by (intros; apply H). done.
Qed.

Lemma spelling_text f b : spelling f = true →
  let s := map_bytes f (str_take 5 b) +:+ "-" +:+ map_bytes f (str_drop 5 b) in
  str_all graphic s = true ∧ drop_separators s = map_bytes f b.
Proof.
  intros Hf s. assert (H : ∀ c, graphic (f c) = true ∧ negb (is_char "-" (f c) || is_char " " (f c)) = true).
  { intros c. pose proof (every_byte_spec (spelling_at f) c Hf) as Hc. unfold spelling_at in Hc. rewrite !andb_true_iff, bool_decide_eq_true in Hc. tauto. }
  subst s. split.
  - rewrite !str_all_app, !str_all_map by (intros; apply H). done.
  - rewrite !drop_separators_app, !(drop_separators_none (map_bytes f _)) by (apply str_all_map; intros; apply H).
    transitivity (map_bytes f (str_take 5 b) +:+ map_bytes f (str_drop 5 b)); [done|].
    by rewrite <- map_bytes_app, str_take_drop.
Qed.

(** The letters a drawn code stands for. *)
Definition recovery_letters (b : string) : string := map_bytes recovery_char b.

(** A recovery code is typed back as it was shown.  A code drawn from ten
    random bytes is ten letters of the alphabet with a dash in the middle; it
    is never taken for a TOTP code; and typed as shown, in lower case or
    without the dash it normalizes to the same ten letters. *)
Theorem recovery_code_normal up b : String.length b = 10%nat →
  let shown := recovery_text b in
  String.length shown = 11%nat ∧ str_all alpha_char (recovery_letters b) = true ∧ isDigits (TrimSpace shown) = false ∧
  NormalizeRecovery up shown = recovery_letters b ∧
  NormalizeRecovery up (map_bytes lower_byte shown) = recovery_letters b ∧
  NormalizeRecovery up (recovery_letters b) = recovery_letters b.
Proof.
  intros Hl shown. subst shown. unfold recovery_text, recovery_letters. rewrite Hl. cbn [Nat.ltb Nat.leb].
  assert (Hup : spelling recovery_char = true) by (vm_compute; reflexivity).
  assert (Hlow : spelling (λ c, lower_byte (recovery_char c)) = true) by (vm_compute; reflexivity).
  destruct (spelling_text recovery_char b Hup) as [G1 D1]. destruct (spelling_text _ b Hlow) as [G2 D2].
  assert (Hall : ∀ c, upper_byte (recovery_char c) = recovery_char c ∧ graphic (recovery_char c) = true ∧
    negb (is_char "-" (recovery_char c) || is_char " " (recovery_char c)) = true ∧ alpha_char (recovery_char c) = true).
  { intros c. pose proof (every_byte_spec (spelling_at recovery_char) c Hup) as Hc. unfold spelling_at in Hc. rewrite !andb_true_iff, bool_decide_eq_true in Hc. tauto. }
  split_and!.
  - pose proof (f_equal String.length (str_take_drop 5 b)) as Hlen. rewrite str_length_app in Hlen.
    rewrite !str_length_app, !map_bytes_length. change (String.length "-") with 1%nat. lia.
  - apply str_all_map. intros c. apply Hall.
  - rewrite TrimSpace_graphic by done. unfold isDigits. rewrite !str_all_app. change (str_all is_digit "-") with false.
    by rewrite andb_false_l, !andb_false_r.
  - exact (Normalize_spelling up _ _ b Hup Hl G1 D1).
  - rewrite !map_bytes_app, !map_bytes_map. exact (Normalize_spelling up _ _ b Hlow Hl G2 D2).
  - apply (Normalize_spelling up _ _ b Hup Hl).
    + apply str_all_map. intros c. apply Hall.
    + apply drop_separators_none, str_all_map. intros c. apply Hall.
Qed.

Lemma recovery_code_normal_witness :
  recovery_text "0123456789" = "STUVW-XYZ23" ∧ NormalizeRecovery id "stuvw-xyz23" = recovery_letters "0123456789".
Proof.
  split; [vm_compute; reflexivity|].
  exact (proj1 (proj2 (proj2 (proj2 (proj2 (recovery_code_normal id "0123456789" eq_refl)))))).
Defined.
