(* ===== verification/Outbox.v ===== *)
(** * E-mail payloads (internal/email/outbox.go)

    What the services queue: a template key of auth's namespace with its
    variables, serialised and sealed for one recipient.  The JSON text of a
    value is the parameter [json_text] (encoding/json). *)
From S2P Require Import Prelude GoStrings Base64 Utf8 Regex PermRef TenantCtx Models Password Cache Envelope AuditEvents Session Mfa.
#[local] Open Scope list_scope.
#[local] Open Scope go_scope.

Definition TemplateInvite : string := "auth.invite".
Definition TemplateAccountReset : string := "auth.account_reset".
Definition TemplateRecovery : string := "auth.recovery".
Definition PayloadVersion : Z := 2.
Definition templatePrefix : string := "auth.".

(** The variables in the order encoding/json prints map keys. *)
Record MailPayload : Type := mkMail { MpV : Z; MpTemplate : string; MpVars : list (string * string) }.
Fixpoint assoc (k : string) (l : list (string * string)) : string :=
  match l with
  | [] => ""
  | (x, v) :: l' => if bool_decide (x = k) then v else assoc k l'
  end.
Definition Link (p : MailPayload) : string := assoc "link" (MpVars p).

Definition InviteMail (link validFor tenant : string) : MailPayload :=
  mkMail PayloadVersion TemplateInvite
    (("link", link) :: (if bool_decide (tenant ≠ "") then [("tenant", tenant)] else []) ++ [("valid_for", validFor)]).
Definition AccountResetMail (link validFor : string) : MailPayload :=
  mkMail PayloadVersion TemplateAccountReset [("link", link); ("valid_for", validFor)].
Definition RecoveryMail (link validFor : string) : MailPayload :=
  mkMail PayloadVersion TemplateRecovery [("link", link); ("valid_for", validFor)].

Definition own_template (t : string) : bool :=
  String.prefix templatePrefix t && negb (String.length t =? String.length templatePrefix)%nat.
Definition EncodePayload (p : MailPayload) : result json :=
  if negb (own_template (MpTemplate p)) then Err (ErrText "email: template is outside auth.*")
  else Ok (JObj [("v", JInt PayloadVersion); ("template", JStr (MpTemplate p));
                 ("vars", JObj ((λ kv, (kv.1, JStr kv.2)) <$> MpVars p))]).

Section Encode.
Context {S K : Type} {AE : AEAD}.
Context (kek : string) (json_text : json → string).
(** Outbox.Encode *)
Definition EncodeMail (to : string) (p : MailPayload) : M (Manager S K) string :=
  js <- lift (EncodePayload p) ;;
  envEncrypt kek (json_text js) ("email:" +:+ to).
End Encode.
