(* ===== verification/OutboxWorker.v ===== *)
(** * The e-mail worker (internal/email/outbox.go, notify.go; the outbox table of
      internal/store/repos.go)

    Messages queued by the services are claimed, opened, handed to the
    notification service and marked; a message that cannot be delivered is
    retired and reported.  [json.Unmarshal] of a payload is a parameter. *)
From stdpp Require Import sorting.
From S2P Require Import Prelude GoStrings Base64 Utf8 Regex PermRef TenantCtx Models Password Cache Envelope AuditEvents Session Mfa Outbox.
#[local] Open Scope list_scope.
#[local] Open Scope go_scope.

Definition TemplateMessage : string := "auth.message".
Definition MaxReasonLen : nat := 200.

(** ** Payloads *)
(** The struct DecodePayload unmarshals into. *)
Record RawPayload : Type := mkRaw {
  RwV : option Z; RwTemplate : option string; RwVars : option (list (string * string)); RwSubject : option string; RwText : option string }.
Definition DecodePayload (raw : option RawPayload) : result MailPayload :=
  match raw with
  | None => Err (ErrText "json")
  | Some raw =>
      match RwV raw with
      | None =>
          if (bool_decide (RwSubject raw = None) && bool_decide (RwText raw = None)) || negb (bool_decide (RwTemplate raw = None)) || negb (bool_decide (RwVars raw = None))
          then Err (ErrText "email: payload is neither v2 nor a legacy message")
          else Ok (mkMail PayloadVersion TemplateMessage [("subject", default "" (RwSubject raw)); ("text", default "" (RwText raw))])
      | Some v =>
          if (v =? PayloadVersion)%Z then
            match RwTemplate raw with
            | None => Err (ErrText "email: malformed v2 payload")
            | Some t =>
                if negb (bool_decide (RwSubject raw = None)) || negb (bool_decide (RwText raw = None)) then Err (ErrText "email: malformed v2 payload")
                else if negb (own_template t) then Err (ErrText "email: template is outside auth.*")
                else Ok (mkMail PayloadVersion t (default [] (RwVars raw)))
            end
          else Err (ErrText "email: unsupported payload version")
      end
  end.

(** ** The table *)
Record OutRow : Type := mkOutRow {
  OrID : string; OrTenantID : string; OrKind : string; OrTo : string; OrPayloadEnc : string;
  OrAttempts : Z; OrNextAttemptAt : Z; OrSentAt : option Z; OrFailedAt : option Z; OrLastError : string }.
Record Item : Type := mkItem { ItID : string; ItTenantID : string; ItKind : string; ItTo : string; ItPayloadEnc : string; ItAttempts : Z }.
Definition item_of (r : OutRow) : Item := mkItem (OrID r) (OrTenantID r) (OrKind r) (OrTo r) (OrPayloadEnc r) (OrAttempts r).
Definition due (now : Z) (r : OutRow) : bool :=
  bool_decide (OrSentAt r = None) && bool_decide (OrFailedAt r = None) && (OrNextAttemptAt r <=? now)%Z.
(** 30 s · 2^attempts, at most an hour. *)
Definition backoff (attempts : Z) : Z := Z.min (30 * Dur.second * 2 ^ Z.min attempts 7) Dur.hour.
Definition claimed (now : Z) (r : OutRow) : OutRow :=
  mkOutRow (OrID r) (OrTenantID r) (OrKind r) (OrTo r) (OrPayloadEnc r) (OrAttempts r + 1) (now + backoff (OrAttempts r)) (OrSentAt r) (OrFailedAt r) (OrLastError r).
Definition by_next (a b : OutRow) : Prop := (OrNextAttemptAt a <= OrNextAttemptAt b)%Z.
#[export] Instance by_next_dec : RelDecision by_next.
Proof. intros a b. unfold by_next. apply _. Defined.
Notation Table := (gmap string OutRow).
Definition to_claim (now : Z) (limit : nat) (t : Table) : list OutRow :=
  take limit (merge_sort by_next (filter (λ r, due now r = true) (snd <$> map_to_list t))).
(** The rows come back in the order of the sub-select. *)
Definition ClaimOutbox (now : Z) (limit : nat) (t : Table) : list OutRow * Table :=
  let rows := claimed now <$> to_claim now limit t in
  (rows, foldr (λ r m, <[OrID r := r]> m) t rows).
Definition clip (s : string) : string :=
  let r := runes s in
  if (length r <=? MaxReasonLen)%nat then s else foldr (λ c acc, encode_rune c +:+ acc) "" (take MaxReasonLen r).
Definition MarkOutboxSent (now : Z) (id : string) (t : Table) : Table :=
  alter (λ r, mkOutRow (OrID r) (OrTenantID r) (OrKind r) (OrTo r) (OrPayloadEnc r) (OrAttempts r) (OrNextAttemptAt r) (Some now) (OrFailedAt r) (OrLastError r)) id t.
Definition MarkOutboxFailed (now : Z) (id reason : string) (t : Table) : Table :=
  alter (λ r, if bool_decide (OrSentAt r = None)
              then mkOutRow (OrID r) (OrTenantID r) (OrKind r) (OrTo r) (OrPayloadEnc r) (OrAttempts r) (OrNextAttemptAt r) (OrSentAt r) (Some now) (clip reason)
              else r) id t.

(** ** Delivery *)
Inductive Outcome : Type := Sent | Retry | Failed.
#[export] Instance Outcome_eq_dec : EqDecision Outcome.
Proof. solve_decision. Defined.
Record Message : Type := mkMessage { MsID : string; MsTenantID : string; MsTo : string; MsTemplate : string; MsVars : list (string * string) }.
(** Notifier.Deliver: the answers of the notification client. *)
Inductive SendAnswer : Type :=
  | NoConnection (e : string)
  | SendError (canceled : bool) (code msg : string)
  | SendResult (sent retryable : bool) (reason : string).
Definition NotifierDeliver (a : SendAnswer) : Outcome * option string :=
  match a with
  | NoConnection e => (Retry, Some ("notification unavailable: " +:+ e))
  | SendError true _ _ => (Retry, Some "notification: Canceled")
  | SendError false code msg => (Failed, Some ("notification refused: " +:+ code +:+ ": " +:+ msg))
  | SendResult sent retryable reason =>
      if sent then (Sent, None) else if retryable then (Retry, Some ("notification: " +:+ reason)) else (Failed, Some ("notification: " +:+ reason))
  end.
Record GiveUp : Type := mkGiveUp { GuID : string; GuTenantID : string; GuKind : string; GuAttempts : Z; GuReason : string }.

(** The worker: the table, what was handed over, what was reported, and the
    errors told to [onErr].  [ow_faults] says which of the next calls of the
    database fail. *)
Record OW : Type := mkOW {
  ow_table : Table; ow_handed : list Message; ow_reports : list GiveUp; ow_errs : list string; ow_faults : list bool; ow_now : Z }.

(** The message of a failed call; a failed call has no effect. *)
Definition db_down : string := "db down".

Section Worker.
Context {AE : AEAD} (kek : string) (max : Z).
(** json.Unmarshal of a payload, and the deliverer, which may answer each time
    differently. *)
Context (unmarshal : string → option RawPayload) (deliver : nat → Message → Outcome * option string).

(** maxAttempts as NewOutbox takes it. *)
Definition max_attempts (n : Z) : Z := if (n <=? 0)%Z then 8%Z else n.
Definition dbM {A} (f : Z → Table → A * Table) : M OW A := λ w,
  match ow_faults w with
  | true :: l => (Err (ErrText db_down), mkOW (ow_table w) (ow_handed w) (ow_reports w) (ow_errs w) l (ow_now w))
  | l => let '(a, t) := f (ow_now w) (ow_table w) in (Ok a, mkOW t (ow_handed w) (ow_reports w) (ow_errs w) (drop 1 l) (ow_now w))
  end.
Definition Claim (limit : nat) : M OW (list Item) := dbM (λ now t, let '(rows, t') := ClaimOutbox now limit t in (item_of <$> rows, t')).
Definition MarkSent (id : string) : M OW unit := dbM (λ now t, (tt, MarkOutboxSent now id t)).
Definition MarkFailed (id reason : string) : M OW unit := dbM (λ now t, (tt, MarkOutboxFailed now id reason t)).
Definition onErr (s : string) : M OW unit := modify (λ w, mkOW (ow_table w) (ow_handed w) (ow_reports w) (ow_errs w ++ [s]) (ow_faults w) (ow_now w)).
Definition onGiveUp (g : GiveUp) : M OW unit := modify (λ w, mkOW (ow_table w) (ow_handed w) (ow_reports w ++ [g]) (ow_errs w) (ow_faults w) (ow_now w)).
Definition Deliver (m : Message) : M OW (Outcome * option string) := λ w,
  (Ok (deliver (length (ow_handed w)) m), mkOW (ow_table w) (ow_handed w ++ [m]) (ow_reports w) (ow_errs w) (ow_faults w) (ow_now w)).

Definition DecodeMail (to blob : string) : result MailPayload :=
  rbind (Decrypt kek blob ("email:" +:+ to)) (λ js, DecodePayload (unmarshal js)).
Definition reason (e : option string) : string := default "no reason given" e.
Definition retire (it : Item) (why : string) : M OW unit :=
  let why := clip why in
  r <- attempt (MarkFailed (ItID it) why) ;;
  match r with
  | Err _ => onErr ("email: " +:+ ItID it +:+ ": retire: " +:+ db_down)
  | Ok _ => onGiveUp (mkGiveUp (ItID it) (ItTenantID it) (ItKind it) (ItAttempts it) why)
  end.
Definition send_item (sent : Z) (it : Item) : M OW Z :=
  if (max <? ItAttempts it)%Z then retire it ("exceeded " +:+ FormatInt max +:+ " attempts") ;;; ret sent else
  match DecodeMail (ItTo it) (ItPayloadEnc it) with
  | Err _ => retire it "payload cannot be opened" ;;; ret sent
  | Ok p =>
      out <- Deliver (mkMessage (ItID it) (ItTenantID it) (ItTo it) (MpTemplate p) (MpVars p)) ;;
      match out.1 with
      | Sent =>
          r <- attempt (MarkSent (ItID it)) ;;
          match r with
          | Err _ => onErr db_down ;;; ret sent
          | Ok _ => ret (sent + 1)%Z
          end
      | Failed => retire it (reason out.2) ;;; ret sent
      | Retry =>
          if (max <=? ItAttempts it)%Z
          then retire it ("gave up after " +:+ FormatInt (ItAttempts it) +:+ " attempts: " +:+ reason out.2) ;;; ret sent
          else onErr ("email: " +:+ ItID it +:+ " attempt " +:+ FormatInt (ItAttempts it) +:+ " (retry): " +:+ reason out.2) ;;; ret sent
      end
  end.
Definition RunOnce : M OW Z :=
  items <- Claim 50 ;;
  fold_each items 0%Z send_item.
End Worker.
