(* ===== verification/OutboxSafety.v ===== *)
(** * A queued message is handed over a bounded number of times and settled once *)
From stdpp Require Import sorting.
From S2P Require Import Prelude GoStrings Base64 Utf8 Regex PermRef TenantCtx Models Password Cache Envelope AuditEvents Session Mfa Outbox OutboxWorker.
#[local] Open Scope list_scope.
#[local] Open Scope go_scope.

Lemma backoff_range n : (0 <= n)%Z → (0 < backoff n <= Dur.hour)%Z.
Proof.
  intros Hn. unfold backoff. pose proof (Z.pow_pos_nonneg 2 (Z.min n 7) ltac:(lia) ltac:(lia)). unfold Dur.hour, Dur.minute, Dur.second in *. lia.
Qed.

Section OutboxSafety.
Context {AE : AEAD} (kek : string) (max : Z).
Context (unmarshal : string → option RawPayload) (deliver : nat → Message → Outcome * option string).
Implicit Types (w : OW) (it : Item) (id : string).
Notation send_item := (send_item kek max unmarshal deliver).
Notation RunOnce := (RunOnce kek max unmarshal deliver).

Definition handed id w : nat := length (filter (λ m, MsID m = id) (ow_handed w)).
Definition reports id w : nat := length (filter (λ g, GuID g = id) (ow_reports w)).
Definition settled (r : OutRow) : bool := negb (bool_decide (OrSentAt r = None)) || negb (bool_decide (OrFailedAt r = None)).

(** ** The invariant *)
Definition row_ok id w (r : OutRow) : Prop :=
  OrID r = id ∧ (0 <= OrAttempts r)%Z ∧ (Z.of_nat (handed id w) <= Z.min (OrAttempts r) (Z.max max 0))%Z ∧
  reports id w = (if OrFailedAt r then 1 else 0)%nat.
Definition OInv w : Prop := ∀ id, match ow_table w !! id with Some r => row_ok id w r | None => handed id w = 0%nat ∧ reports id w = 0%nat end.
(** What is claimed and not handled yet. *)
Record claims (items : list Item) w : Prop := mkClaims {
  cl_inv : OInv w;
  cl_nodup : NoDup (ItID <$> items);
  cl_rows : ∀ it, it ∈ items → ∃ r, ow_table w !! ItID it = Some r ∧ settled r = false ∧ item_of r = it ∧ (Z.of_nat (handed (ItID it) w) + 1 <= ItAttempts it)%Z;
}.

(** ** One item *)
Definition hands it (hand : list Message) : Prop := hand = [] ∨ ∃ m, hand = [m] ∧ MsID m = ItID it ∧ (ItAttempts it <= max)%Z.
(** The effect of handling an item: at most one hand-over, then nothing, a mark
    as sent, or a retirement with its report. *)
Inductive handled it w w' : Prop :=
  | hd_none hand : hands it hand → ow_handed w' = ow_handed w ++ hand → ow_table w' = ow_table w → ow_reports w' = ow_reports w →
      ow_faults w ≠ [] ∨ (ItAttempts it < max)%Z → handled it w w'
  | hd_sent hand : hands it hand → ow_handed w' = ow_handed w ++ hand → ow_table w' = MarkOutboxSent (ow_now w) (ItID it) (ow_table w) →
      ow_reports w' = ow_reports w → handled it w w'
  | hd_failed hand why g : hands it hand → ow_handed w' = ow_handed w ++ hand → ow_table w' = MarkOutboxFailed (ow_now w) (ItID it) why (ow_table w) →
      ow_reports w' = ow_reports w ++ [g] → GuID g = ItID it → handled it w w'.
Definition same_env w w' : Prop := ow_now w' = ow_now w ∧ (ow_faults w = [] → ow_faults w' = []).

Lemma dbM_run {A} (f : Z → Table → A * Table) w r w' : dbM f w = (r, w') →
  same_env w w' ∧ ow_handed w' = ow_handed w ∧ ow_reports w' = ow_reports w ∧
  ((∃ e, r = Err e ∧ ow_table w' = ow_table w ∧ ow_faults w ≠ []) ∨ r = Ok (f (ow_now w) (ow_table w)).1 ∧ ow_table w' = (f (ow_now w) (ow_table w)).2).
Proof.
  unfold dbM, same_env. destruct (ow_faults w) as [|[] l]; [|intros [= <- <-]; cbn; split_and!; try done; left; eauto|];
    (destruct (f (ow_now w) (ow_table w)) as [a t]; intros [= <- <-]; cbn; split_and!; try done; by right).
Qed.
Lemma retire_run it why w r w' : retire it why w = (r, w') → r = Ok tt ∧ same_env w w' ∧ ow_handed w' = ow_handed w ∧
  (ow_table w' = ow_table w ∧ ow_reports w' = ow_reports w ∧ ow_faults w ≠ [] ∨
   ∃ g, ow_table w' = MarkOutboxFailed (ow_now w) (ItID it) (clip why) (ow_table w) ∧ ow_reports w' = ow_reports w ++ [g] ∧ GuID g = ItID it).
Proof.
  unfold retire. intros E. apply bind_run in E as [(e & E1 & _)|(x & w1 & E1 & E)]; unfold attempt in E1.
  { destruct (MarkFailed _ _ w); discriminate E1. }
  destruct (MarkFailed (ItID it) (clip why) w) as [r1 w2] eqn:E2. injection E1 as -> ->. apply dbM_run in E2 as ([En Ef] & Eh & Er & [(e & -> & Et & Hf)|[-> Et]]).
  - injection E as <- <-. split_and!; try done. by left.
  - injection E as <- <-. cbn. split_and!; try done. right. eexists. split_and!; [exact Et|by rewrite Er|done].
Qed.
Lemma send_item_run acc it w r w' : send_item acc it w = (r, w') → (∃ n, r = Ok n) ∧ same_env w w' ∧ handled it w w'.
Proof.
  assert (Hret : ∀ hand why w1, hands it hand → ow_handed w1 = ow_handed w ++ hand → ow_table w1 = ow_table w → ow_reports w1 = ow_reports w → ow_now w1 = ow_now w → ow_faults w1 = ow_faults w →
    (retire it why ;;; ret acc) w1 = (r, w') → (∃ n, r = Ok n) ∧ same_env w w' ∧ handled it w w').
  { intros hand why w1 Hh E1 E2 E3 E4 E5 E. apply bind_run in E as [(e & E6 & _)|([] & w2 & E6 & E)]; apply retire_run in E6 as (Eok & [En Ef] & Eh & Hc); [done|].
    injection E as <- <-. split; [eauto|]. split; [split; [congruence|rewrite <- E5; done]|].
    destruct Hc as [(Et & Er & Hf)|(g & Et & Er & Hg)].
    - eapply (hd_none it w w2 hand); [done|congruence|congruence|congruence|left; congruence].
    - eapply (hd_failed it w w2 hand (clip why) g); [done|congruence|rewrite Et, E4, E2; done|congruence|done]. }
  assert (Hno : ∀ why, (retire it why ;;; ret acc) w = (r, w') → (∃ n, r = Ok n) ∧ same_env w w' ∧ handled it w w').
  { intros why. apply (Hret [] why w); [by left|by rewrite app_nil_r|done..]. }
  intros E. unfold OutboxWorker.send_item in E. destruct (max <? ItAttempts it)%Z eqn:Em; [by eapply Hno|]. apply Z.ltb_ge in Em.
  destruct (DecodeMail kek unmarshal (ItTo it) (ItPayloadEnc it)) as [p|e]; [|by eapply Hno]. clear Hno.
  set (m := mkMessage _ _ _ _ _) in E. assert (Hh : hands it [m]) by (right; by exists m).
  unfold bind at 1, Deliver in E. cbn beta iota in E. set (w1 := mkOW _ _ _ _ _ _) in E. destruct (deliver _ m) as [out why]. cbn [fst snd] in E.
  assert (Hset : ∀ w2, ow_handed w2 = ow_handed w1 → ow_table w2 = ow_table w → ow_reports w2 = ow_reports w → ow_faults w ≠ [] ∨ (ItAttempts it < max)%Z → handled it w w2).
  { intros w2 E1 E2 E3 Hc. by apply (hd_none it w w2 [m]). }
  destruct out.
  - apply bind_run in E as [(e & E1 & _)|(x & w2 & E1 & E)]; unfold attempt in E1; [destruct (MarkSent _ w1); discriminate E1|].
    destruct (MarkSent (ItID it) w1) as [r1 w3] eqn:E2. injection E1 as -> ->. apply dbM_run in E2 as ([En Ef] & Eh & Er & [(e & -> & Et & Hf)|[-> Et]]).
    + injection E as <- <-. split; [eauto|]. split; [done|]. apply Hset; try done. by left.
    + injection E as <- <-. split; [eauto|]. split; [done|]. by apply (hd_sent it w w2 [m]).
  - destruct (max <=? ItAttempts it)%Z eqn:Ea; [by apply (Hret [m] _ w1) in E|]. injection E as <- <-. split; [eauto|]. split; [done|]. apply Hset; try done. right. by apply Z.leb_gt in Ea.
  - by apply (Hret [m] _ w1) in E.
Qed.

Lemma handed_app id w w' hand : ow_handed w' = ow_handed w ++ hand → handed id w' = (handed id w + length (filter (λ m, MsID m = id) hand))%nat.
Proof. intros E. unfold handed. by rewrite E, filter_app, length_app. Qed.
Lemma hands_count it hand id : hands it hand → (length (filter (λ m, MsID m = id) hand) <= (if decide (id = ItID it) then 1 else 0))%nat ∧
  (length (filter (λ m, MsID m = id) hand) = 0%nat ∨ (ItAttempts it <= max)%Z).
Proof.
  intros [->|(m & -> & Hm & Ha)]; [split; [cbn; lia|by left]|]. split; [|by right]. rewrite filter_cons, Hm. destruct (decide (ItID it = id)) as [->|Hne].
  - by rewrite decide_True.
  - rewrite decide_False by congruence. done.
Qed.
Lemma handled_other it w w' id : handled it w w' → id ≠ ItID it →
  ow_table w' !! id = ow_table w !! id ∧ handed id w' = handed id w ∧ reports id w' = reports id w.
Proof.
  intros Hh Hne. assert (Hc : ∀ hand, hands it hand → ow_handed w' = ow_handed w ++ hand → handed id w' = handed id w).
  { intros hand H1 H2. rewrite (handed_app id w w' hand H2). destruct (hands_count it hand id H1) as [Hl _]. rewrite decide_False in Hl by done. lia. }
  destruct Hh as [hand H1 H2 H3 H4 _|hand H1 H2 H3 H4|hand why g H1 H2 H3 H4 H5]; (split; [|split; [by eapply Hc|]]).
  - by rewrite H3.
  - unfold reports. by rewrite H4.
  - rewrite H3. unfold MarkOutboxSent. by rewrite lookup_alter_ne.
  - unfold reports. by rewrite H4.
  - rewrite H3. unfold MarkOutboxFailed. by rewrite lookup_alter_ne.
  - unfold reports. rewrite H4, filter_app, length_app, filter_cons, decide_False by congruence. cbn. lia.
Qed.
(** The item's own row afterwards. *)
Lemma handled_own it w w' r0 : handled it w w' → ow_table w !! ItID it = Some r0 → settled r0 = false → reports (ItID it) w = 0%nat →
  ∃ r1, ow_table w' !! ItID it = Some r1 ∧ OrID r1 = OrID r0 ∧ OrAttempts r1 = OrAttempts r0 ∧ OrNextAttemptAt r1 = OrNextAttemptAt r0 ∧
    reports (ItID it) w' = (if OrFailedAt r1 then 1 else 0)%nat ∧ (settled r1 = true ∨ r1 = r0 ∧ (ow_faults w ≠ [] ∨ (ItAttempts it < max)%Z)) ∧
    (handed (ItID it) w' <= handed (ItID it) w + 1)%nat ∧ (handed (ItID it) w' = handed (ItID it) w ∨ (ItAttempts it <= max)%Z).
Proof.
  intros Hh Hr Hs Hrep. apply orb_false_iff in Hs as [Hs1%negb_false_iff%bool_decide_eq_true Hs2%negb_false_iff%bool_decide_eq_true].
  assert (Hc : ∀ hand, hands it hand → ow_handed w' = ow_handed w ++ hand → (handed (ItID it) w' <= handed (ItID it) w + 1)%nat ∧ (handed (ItID it) w' = handed (ItID it) w ∨ (ItAttempts it <= max)%Z)).
  { intros hand H1 H2. rewrite (handed_app (ItID it) w w' hand H2). destruct (hands_count it hand (ItID it) H1) as [Hl Hm]. rewrite decide_True in Hl by done.
    split; [lia|]. destruct Hm as [->|?]; [left; lia|by right]. }
  destruct Hh as [hand H1 H2 H3 H4 H6|hand H1 H2 H3 H4|hand why g H1 H2 H3 H4 H5]; destruct (Hc hand H1 H2) as [C1 C2]; rewrite H3.
  - exists r0. split_and!; try done; [|by right]. unfold reports in *. by rewrite H4, Hrep, Hs2.
  - unfold MarkOutboxSent. rewrite lookup_alter_eq, Hr. cbn. eexists. split; [done|]. cbn. split_and!; try done; [|by left]. unfold reports in *. by rewrite H4, Hrep, Hs2.
  - unfold MarkOutboxFailed. rewrite lookup_alter_eq, Hr. cbn. rewrite Hs1, bool_decide_eq_true_2 by done. eexists. split; [done|]. cbn. split_and!; try done.
    + unfold reports in *. rewrite H4, filter_app, length_app, filter_cons, decide_True by done. cbn. lia.
    + by left.
Qed.
Lemma claims_tail it items w w' : claims (it :: items) w → handled it w w' → claims items w'.
Proof.
  intros [HI Hn Hr] Hh. rewrite fmap_cons in Hn. apply NoDup_cons in Hn as [Hx Hn]. destruct (Hr it ltac:(by left)) as (r0 & Ht & Hs & Hi & Ha).
  assert (Hrow : row_ok (ItID it) w r0) by (specialize (HI (ItID it)); by rewrite Ht in HI). destruct Hrow as (O1 & O2 & O3 & O4).
  assert (Hrep : reports (ItID it) w = 0%nat).
  { rewrite O4. apply orb_false_iff in Hs as [_ Hs%negb_false_iff%bool_decide_eq_true]. by rewrite Hs. }
  destruct (handled_own it w w' r0 Hh Ht Hs Hrep) as (r1 & T1 & P1 & P2 & _ & P3 & _ & P4 & P5). split.
  - intros id. destruct (decide (id = ItID it)) as [->|Hne].
    + rewrite T1. split_and!; try done; [congruence|lia|]. rewrite P2. assert (OrAttempts r0 = ItAttempts it) by (by rewrite <- Hi). destruct P5; lia.
    + destruct (handled_other it w w' id Hh Hne) as (E1 & E2 & E3). specialize (HI id). rewrite E1. unfold row_ok in *. by rewrite E2, E3.
  - done.
  - intros it' Hin. assert (Hne : ItID it' ≠ ItID it) by (intros E; apply Hx; rewrite <- E; by apply list_elem_of_fmap_2).
    destruct (handled_other it w w' _ Hh Hne) as (E1 & E2 & _). rewrite E1, E2. apply Hr. by right.
Qed.

(** ** Claiming *)
Definition keyed (t : Table) : Prop := ∀ id r, t !! id = Some r → OrID r = id.
Lemma OInv_keyed w : OInv w → keyed (ow_table w).
Proof. intros HI id r Hr. specialize (HI id). rewrite Hr in HI. apply HI. Qed.
Lemma elem_of_to_claim now lim (t : Table) r : keyed t → r ∈ to_claim now lim t → t !! OrID r = Some r ∧ due now r = true.
Proof.
  intros Hk Hin. unfold to_claim in Hin. apply elem_of_take in Hin as (i & Hi & _). apply list_elem_of_lookup_2 in Hi. rewrite merge_sort_Permutation in Hi.
  apply list_elem_of_filter in Hi as [Hd ([k r'] & -> & Hm%elem_of_map_to_list)%list_elem_of_fmap]. cbn in *. by rewrite (Hk k r' Hm).
Qed.
Lemma NoDup_to_claim now lim (t : Table) : keyed t → NoDup (OrID <$> to_claim now lim t).
Proof.
  intros Hk. unfold to_claim. eapply sublist_NoDup; [|apply fmap_sublist, sublist_take]. rewrite merge_sort_Permutation. eapply sublist_NoDup; [|apply fmap_sublist, sublist_filter].
  rewrite <- list_fmap_compose. rewrite (list_fmap_ext _ fst); [apply NoDup_fst_map_to_list|].
  intros j [k r] Hj. apply list_elem_of_lookup_2, elem_of_map_to_list in Hj. cbn. by apply Hk.
Qed.
Lemma foldr_rows (rows : list OutRow) (t : Table) id : NoDup (OrID <$> rows) →
  (∀ r, r ∈ rows → foldr (λ r m, <[OrID r := r]> m) t rows !! OrID r = Some r) ∧
  (id ∉ OrID <$> rows → foldr (λ r m, <[OrID r := r]> m) t rows !! id = t !! id).
Proof.
  induction rows as [|x rows IH]; intros Hn; [split; [intros r Hr; by apply elem_of_nil in Hr|done]|]. rewrite fmap_cons in Hn. apply NoDup_cons in Hn as [Hx Hn].
  destruct (IH Hn) as [I1 I2]. cbn [foldr]. split.
  - intros r [->|Hr]%elem_of_cons; [by rewrite lookup_insert_eq|]. rewrite lookup_insert_ne; [by apply I1|]. intros E. apply Hx. rewrite E. by apply list_elem_of_fmap_2.
  - rewrite fmap_cons, not_elem_of_cons. intros [Hne Hin]. rewrite lookup_insert_ne by congruence. by apply I2.
Qed.
Lemma claimed_ids now (l : list OutRow) : OrID <$> (claimed now <$> l) = OrID <$> l.
Proof. rewrite <- list_fmap_compose. by apply list_fmap_ext. Qed.
(** The row of a message after a claim. *)
Lemma claim_table now lim (t : Table) id : keyed t →
  (∃ r, r ∈ to_claim now lim t ∧ OrID r = id ∧ t !! id = Some r ∧ due now r = true ∧ (ClaimOutbox now lim t).2 !! id = Some (claimed now r)) ∨
  id ∉ OrID <$> to_claim now lim t ∧ (ClaimOutbox now lim t).2 !! id = t !! id.
Proof.
  intros Hk. unfold ClaimOutbox. cbn [snd]. pose proof (NoDup_to_claim now lim t Hk) as Hn. rewrite <- (claimed_ids now) in Hn.
  destruct (foldr_rows _ t id Hn) as [F1 F2]. destruct (decide (id ∈ OrID <$> to_claim now lim t)) as [Hin|Hin].
  - left. apply list_elem_of_fmap in Hin as (r & -> & Hr). exists r. destruct (elem_of_to_claim _ _ _ _ Hk Hr) as [H1 H2]. split_and!; try done.
    apply (F1 (claimed now r)). by apply list_elem_of_fmap_2.
  - right. split; [done|]. apply F2. by rewrite claimed_ids.
Qed.
Lemma due_unsettled now r : due now r = true → settled r = false.
Proof. unfold due, settled. intros [[-> ->]%andb_true_iff _]%andb_true_iff. done. Qed.
Lemma Claim_claims lim w items w' : OInv w → Claim lim w = (Ok items, w') → same_env w w' ∧ ow_handed w' = ow_handed w ∧ ow_reports w' = ow_reports w ∧
  items = item_of <$> (claimed (ow_now w) <$> to_claim (ow_now w) lim (ow_table w)) ∧ ow_table w' = (ClaimOutbox (ow_now w) lim (ow_table w)).2 ∧ claims items w'.
Proof.
  intros HI E. pose proof (OInv_keyed w HI) as Hk. apply dbM_run in E as (He & Eh & Er & [(e & ? & _)|[Ei Et]]); [done|]. unfold ClaimOutbox in Ei, Et. cbn in Ei, Et. injection Ei as ->.
  change (foldr _ _ _) with (ClaimOutbox (ow_now w) lim (ow_table w)).2 in Et. split_and!; try done.
  assert (Hcnt : ∀ id, handed id w' = handed id w ∧ reports id w' = reports id w) by (intros id; unfold handed, reports; by rewrite Eh, Er).
  split.
  - intros id. destruct (Hcnt id) as [C1 C2]. rewrite Et, C1, C2. unfold row_ok. rewrite ?C1, ?C2. specialize (HI id).
    destruct (claim_table (ow_now w) lim (ow_table w) id Hk) as [(r & _ & _ & Hr & _ & ->)|[_ ->]].
    + rewrite Hr in HI. destruct HI as (O1 & O2 & O3 & O4). cbn. split_and!; try done; cbn; lia.
    + unfold row_ok in HI. destruct (ow_table w !! id); [by rewrite ?C1, ?C2|done].
  - rewrite <- !list_fmap_compose. rewrite (list_fmap_ext _ OrID); [by apply NoDup_to_claim|done].
  - intros it Hin. apply list_elem_of_fmap in Hin as (r' & -> & (r & -> & Hr)%list_elem_of_fmap). destruct (elem_of_to_claim _ _ _ _ Hk Hr) as [Ht Hd]. cbn.
    destruct (claim_table (ow_now w) lim (ow_table w) (OrID r) Hk) as [(r2 & _ & _ & Hr2 & _ & Hc)|[Hno _]]; [|exfalso; apply Hno; by apply list_elem_of_fmap_2].
    assert (r2 = r) as -> by congruence. exists (claimed (ow_now w) r). rewrite Et. split; [done|]. split; [by apply (due_unsettled (ow_now w)) in Hd|]. split; [done|].
    destruct (Hcnt (OrID r)) as [-> _]. specialize (HI (OrID r)). rewrite Ht in HI. destruct HI as (_ & _ & O3 & _). cbn. lia.
Qed.

(** ** A batch *)
(** What the worker knows of a message. *)
Definition seen id w : option OutRow * nat * nat := (ow_table w !! id, handed id w, reports id w).
Definition outcome it w w' : Prop := ∃ r r', ow_table w !! ItID it = Some r ∧ ow_table w' !! ItID it = Some r' ∧
  OrAttempts r' = OrAttempts r ∧ OrNextAttemptAt r' = OrNextAttemptAt r ∧ (settled r' = true ∨ r' = r ∧ (ow_faults w ≠ [] ∨ (ItAttempts it < max)%Z)).
Lemma claims_reports it items w : claims (it :: items) w → reports (ItID it) w = 0%nat.
Proof.
  intros [HI _ Hr]. destruct (Hr it ltac:(by left)) as (r0 & Ht & [_ Hs%negb_false_iff%bool_decide_eq_true]%orb_false_iff & _).
  specialize (HI (ItID it)). rewrite Ht in HI. destruct HI as (_ & _ & _ & ->). by rewrite Hs.
Qed.
Lemma batch_run items : ∀ acc w r w', claims items w → fold_each items acc send_item w = (r, w') →
  (∃ n, r = Ok n) ∧ same_env w w' ∧ OInv w' ∧ (∀ id, id ∉ ItID <$> items → seen id w' = seen id w) ∧
  (ow_faults w = [] → ∀ it, it ∈ items → outcome it w w').
Proof.
  induction items as [|it items IH]; intros acc w r w' Hc E.
  { injection E as <- <-. split_and!; [eauto|done|apply Hc|done|]. intros _ it Hin. by apply elem_of_nil in Hin. }
  cbn [fold_each] in E. apply bind_run in E as [(e & E1 & _)|(n & w1 & E1 & E)]; apply send_item_run in E1 as ([n' En] & [Hn Hf] & Hh); [done|].
  pose proof (claims_tail _ _ _ _ Hc Hh) as Hc1. destruct (IH n w1 r w' Hc1 E) as (Hok & [Hn2 Hf2] & HI & Hsame & Hout).
  pose proof (claims_reports _ _ _ Hc) as Hrep. destruct Hc as [HI0 Hnd Hr]. rewrite fmap_cons in Hnd. apply NoDup_cons in Hnd as [Hx Hnd].
  split_and!; [done|split; [congruence|tauto]|done| |].
  - rewrite fmap_cons. intros id [Hne Hin]%not_elem_of_cons. rewrite (Hsame id Hin). unfold seen. by destruct (handled_other it w w1 id Hh Hne) as (-> & -> & ->).
  - intros Hf0 it' [->|Hin]%elem_of_cons.
    + destruct (Hr it ltac:(by left)) as (r0 & Ht & Hs & _). destruct (handled_own it w w1 r0 Hh Ht Hs Hrep) as (r1 & T1 & _ & P1 & P2 & _ & P3 & _).
      exists r0, r1. specialize (Hsame _ Hx). unfold seen in Hsame. injection Hsame as -> _ _. done.
    + destruct (Hout (Hf Hf0) it' Hin) as (r1 & r2 & T1 & T2 & O1 & O2 & O3). exists r1, r2.
      assert (Hne : ItID it' ≠ ItID it) by (intros Ei; apply Hx; rewrite <- Ei; by apply list_elem_of_fmap_2).
      destruct (handled_other it w w1 _ Hh Hne) as (E1 & _ & _). rewrite <- E1. split_and!; try done.
      destruct O3 as [O3|[O3 [Hd|Hl]]]; [by left|by destruct (Hd (Hf Hf0))|right; split; [done|by right]].
Qed.
Lemma seen_settled id w w' : seen id w' = seen id w → ow_table w' !! id = ow_table w !! id ∧ handed id w' = handed id w ∧ reports id w' = reports id w.
Proof. unfold seen. intros [= E1 E2 E3]. done. Qed.
Lemma RunOnce_run w r w' : OInv w → RunOnce w = (r, w') →
  OInv w' ∧ (∀ id, id ∉ OrID <$> to_claim (ow_now w) 50 (ow_table w) → seen id w' = seen id w) ∧
  (ow_faults w = [] → (∃ n, r = Ok n) ∧ ∀ row, row ∈ to_claim (ow_now w) 50 (ow_table w) →
     ∃ row', ow_table w' !! OrID row = Some row' ∧ OrAttempts row' = (OrAttempts row + 1)%Z ∧ OrNextAttemptAt row' = (ow_now w + backoff (OrAttempts row))%Z ∧
       (settled row' = true ∨ (OrAttempts row' < max)%Z)).
Proof.
  intros HI E. unfold OutboxWorker.RunOnce in E. apply bind_run in E as [(e & E1 & Er)|(items & w1 & E1 & E)].
  { apply dbM_run in E1 as (_ & Eh & Ep & [(e' & _ & Et & Hf)|[[=] _]]). assert (Hs : ∀ id, seen id w' = seen id w) by (intros id; unfold seen, handed, reports; by rewrite Eh, Ep, Et).
    split_and!; [|by intros id _|by intros]. intros id. destruct (seen_settled id w w' (Hs id)) as (S1 & S2 & S3). specialize (HI id). rewrite S1. unfold row_ok in *. by rewrite S2, S3. }
  destruct (Claim_claims 50 w items w1 HI E1) as ([Hn Hf] & Eh & Ep & -> & Et & Hc). pose proof (OInv_keyed w HI) as Hk.
  destruct (batch_run _ _ _ _ _ Hc E) as (Hok & [Hn2 Hf2] & HI' & Hsame & Hout). split; [done|]. split.
  - intros id Hid. rewrite Hsame.
    + unfold seen, handed, reports. rewrite Eh, Ep, Et. destruct (claim_table (ow_now w) 50 (ow_table w) id Hk) as [(r0 & Hr0 & <- & _)|[_ ->]]; [|done].
      exfalso. apply Hid. by apply list_elem_of_fmap_2.
    + rewrite <- !list_fmap_compose. by rewrite (list_fmap_ext _ OrID).
  - intros Hf0. split; [done|]. intros row Hrow. destruct (Hout (Hf Hf0) (item_of (claimed (ow_now w) row))) as (r1 & r2 & T1 & T2 & O1 & O2 & O3).
    { do 2 apply list_elem_of_fmap_2. done. }
    destruct (claim_table (ow_now w) 50 (ow_table w) (OrID row) Hk) as [(r0 & _ & _ & Hr0 & _ & Hc0)|[Hno _]]; [|exfalso; apply Hno; by apply list_elem_of_fmap_2].
    destruct (elem_of_to_claim _ _ _ _ Hk Hrow) as [Hrow' _]. assert (r0 = row) as -> by congruence. cbn in T1, T2, O3. rewrite Et, Hc0 in T1. injection T1 as <-.
    exists r2. rewrite O1, O2. cbn. split_and!; try done. destruct O3 as [O3|[_ [Hd|Hl]]]; [by left|by destruct (Hd (Hf Hf0))|by right].
Qed.

(** ** Histories *)
(** A run of the worker, a message queued, or time passing and the database
    failing as it likes. *)
Inductive ostep : OW → OW → Prop :=
  | os_run w : ostep w (RunOnce w).2
  | os_queue w row : ow_table w !! OrID row = None → OrAttempts row = 0%Z → settled row = false →
      ostep w (mkOW (<[OrID row := row]> (ow_table w)) (ow_handed w) (ow_reports w) (ow_errs w) (ow_faults w) (ow_now w))
  | os_env w now faults : ostep w (mkOW (ow_table w) (ow_handed w) (ow_reports w) (ow_errs w) faults now).
Definition ostart w : Prop := ow_table w = ∅ ∧ ow_handed w = [] ∧ ow_reports w = [].

Lemma ostart_inv w : ostart w → OInv w.
Proof. intros (H1 & H2 & H3) id. unfold handed, reports. rewrite H1, H2, H3. by rewrite lookup_empty. Qed.
Lemma seen_row id w w' : seen id w' = seen id w → ∀ r, row_ok id w r → row_ok id w' r.
Proof. intros (_ & E2 & E3)%seen_settled r. unfold row_ok. by rewrite E2, E3. Qed.
Lemma ostep_inv w w' : ostep w w' → OInv w → OInv w'.
Proof.
  intros [|w0 row Hno Ha Hs|] HI.
  - destruct (RunOnce w0) as [r w1] eqn:E. apply (RunOnce_run w0 r w1 HI E).
  - intros id. cbn [ow_table]. specialize (HI id). destruct (decide (id = OrID row)) as [->|Hne].
    + rewrite lookup_insert_eq. rewrite Hno in HI. destruct HI as [H1 H2]. unfold row_ok. split_and!; [done|lia| |].
      * unfold handed in *. cbn [ow_handed]. rewrite H1. lia.
      * apply orb_false_iff in Hs as [_ Hs%negb_false_iff%bool_decide_eq_true]. by rewrite Hs.
    + rewrite lookup_insert_ne by congruence. exact HI.
  - exact HI.
Qed.
Lemma reached_inv w0 w : ostart w0 → rtc ostep w0 w → OInv w.
Proof. intros H0%ostart_inv Hr. revert H0. induction Hr as [|w1 w2 w3 Hs _ IH]; [done|]. intros H. by eapply IH, ostep_inv. Qed.
(** A settled message is left alone. *)
Lemma ostep_settled w w' id r : ostep w w' → OInv w → ow_table w !! id = Some r → settled r = true → seen id w' = seen id w.
Proof.
  intros [|w0 row Hno Ha Hs|] HI Hr Hse; [|unfold seen; cbn [ow_table]; rewrite lookup_insert_ne by congruence; done|done].
  destruct (RunOnce w0) as [x w1] eqn:E. destruct (RunOnce_run w0 x w1 HI E) as (_ & Hsame & _). apply Hsame.
  intros (r0 & -> & Hin)%list_elem_of_fmap. destruct (elem_of_to_claim _ _ _ _ (OInv_keyed _ HI) Hin) as [Hr0 Hd].
  apply due_unsettled in Hd. congruence.
Qed.
Lemma osteps_settled w w' id r : rtc ostep w w' → OInv w → ow_table w !! id = Some r → settled r = true → seen id w' = seen id w.
Proof.
  induction 1 as [|w1 w2 w3 Hs _ IH]; [done|]. intros HI Hr Hse. pose proof (ostep_settled _ _ _ _ Hs HI Hr Hse) as E.
  rewrite IH; [done|by eapply ostep_inv| |done]. by destruct (seen_settled _ _ _ E) as [-> _].
Qed.

(** C27. Whatever the notification service answers, however the calls of the
    database fail and whatever is queued in between, a message is handed over at
    most [max] times; it is reported at most once, and exactly when its row is
    retired; and once it is marked as sent or retired it is never handed over,
    reported or changed again. *)
Theorem outbox_bounded w0 w : ostart w0 → rtc ostep w0 w →
  ∀ id, (Z.of_nat (handed id w) <= Z.max max 0)%Z ∧
    reports id w = (if from_option OrFailedAt None (ow_table w !! id) then 1 else 0)%nat ∧
    ∀ r w', ow_table w !! id = Some r → settled r = true → rtc ostep w w' → ow_table w' !! id = Some r ∧ handed id w' = handed id w ∧ reports id w' = reports id w.
Proof.
  intros H0 Hr id. pose proof (reached_inv w0 w H0 Hr) as HI.
  split_and!.
  - specialize (HI id). destruct (ow_table w !! id); [destruct HI as (_ & _ & H & _); lia|destruct HI as [-> _]; lia].
  - specialize (HI id). destruct (ow_table w !! id); [apply HI|apply HI].
  - intros r w' Hw Hse Hs. rewrite <- Hw. by apply seen_settled, (osteps_settled w w' id r).
Qed.

(** C28. With the database answering, one run settles each message it claims or
    leaves it for a retry, due within the hour, with one attempt more and fewer
    than [max] so far; the other messages are untouched.  A message claimed on
    its last attempt is therefore settled. *)
Theorem outbox_run_once w0 w : ostart w0 → rtc ostep w0 w → ow_faults w = [] →
  let w' := (RunOnce w).2 in
  (∃ n, (RunOnce w).1 = Ok n) ∧
  (∀ id, id ∉ OrID <$> to_claim (ow_now w) 50 (ow_table w) → ow_table w' !! id = ow_table w !! id ∧ handed id w' = handed id w ∧ reports id w' = reports id w) ∧
  ∀ row, row ∈ to_claim (ow_now w) 50 (ow_table w) →
    ∃ row', ow_table w' !! OrID row = Some row' ∧ OrAttempts row' = (OrAttempts row + 1)%Z ∧
      (settled row' = true ∨ (OrAttempts row' < max)%Z ∧ (ow_now w < OrNextAttemptAt row' <= ow_now w + Dur.hour)%Z).
Proof.
  intros H0 Hr Hf w'. pose proof (reached_inv w0 w H0 Hr) as HI.
  destruct (RunOnce w) as [r w1] eqn:E. subst w'. cbn [snd fst]. destruct (RunOnce_run w r w1 HI E) as (_ & Hsame & Hout). destruct (Hout Hf) as [Hok Hrow].
  split_and!; [done|intros id Hid; by apply seen_settled, Hsame|]. intros row Hin. destruct (Hrow row Hin) as (row' & T & A & N & Hc).
  exists row'. split_and!; [done|done|]. destruct Hc as [Hc|Hc]; [by left|right]. split; [done|]. rewrite N.
  destruct (elem_of_to_claim _ _ _ _ (OInv_keyed _ HI) Hin) as [Ht _]. specialize (HI (OrID row)). rewrite Ht in HI. destruct HI as (_ & Ha & _).
  pose proof (backoff_range (OrAttempts row) Ha). lia.
Qed.
End OutboxSafety.

(** ** From the service to the notification service *)
Section SealedMail.
Context {S K : Type} `{AEADLaws} (kek : string) (max : Z) (json_text : json → string).
Context (unmarshal : string → option RawPayload) (deliver : nat → Message → Outcome * option string).
Implicit Types (m : Manager S K) (p : MailPayload).

(** encoding/json reads back what it wrote for the payload. *)
Definition json_reads_back p : Prop := ∀ js, EncodePayload p = Ok js →
  unmarshal (json_text js) = Some (mkRaw (Some PayloadVersion) (Some (MpTemplate p)) (Some (MpVars p)) None None).

Lemma ReadFull_length n m x m' : ReadFull n m = (Ok x, m') → String.length x = n.
Proof. unfold ReadFull. intros (y & m1 & _ & E)%bind_ok_inv. injection E as <- _. apply fill_length. Qed.
Lemma EncodeMail_sealed to p m blob m' : EncodeMail kek json_text to p m = (Ok blob, m') →
  ∃ js dek n1 n2, EncodePayload p = Ok js ∧ String.length dek = 32%nat ∧ String.length n1 = nonceSize ∧ String.length n2 = nonceSize ∧
    blob = n1 +:+ gcm_seal kek n1 dek ("email:" +:+ to) +:+ n2 +:+ gcm_seal dek n2 (json_text js) ("email:" +:+ to).
Proof.
  unfold EncodeMail, envEncrypt. intros (js & m1 & E1 & E)%bind_ok_inv. apply bind_ok_inv in E as (dek & m2 & D & E).
  apply bind_ok_inv in E as (n1 & m3 & D1 & E). apply bind_ok_inv in E as (n2 & m4 & D2 & E). injection E as <- _.
  exists js, dek, n1, n2. split_and!; try (by eapply ReadFull_length); [|done]. unfold lift in E1. by injection E1.
Qed.

(** Handling an item within its attempts hands over its message when the payload
    opens, nothing otherwise. *)
Lemma send_item_hands acc it w : (ItAttempts it <= max)%Z →
  ow_handed (send_item kek max unmarshal deliver acc it w).2 =
  ow_handed w ++ match DecodeMail kek unmarshal (ItTo it) (ItPayloadEnc it) with
                 | Ok p => [mkMessage (ItID it) (ItTenantID it) (ItTo it) (MpTemplate p) (MpVars p)]
                 | Err _ => [] end.
Proof.
  intros Ha. unfold send_item. rewrite (proj2 (Z.ltb_ge _ _)) by done.
  assert (Hret : ∀ why w1, ow_handed ((retire it why ;;; ret acc) w1).2 = ow_handed w1).
  { intros why w1. unfold bind. destruct (retire it why w1) as [r w2] eqn:E. apply retire_run in E as (-> & _ & E & _). exact E. }
  destruct (DecodeMail _ _ _ _) as [p|e]; [|by rewrite Hret, app_nil_r]. unfold bind at 1, Deliver. cbn beta iota.
  set (w1 := mkOW _ _ _ _ _ _). destruct (deliver _ _) as [[] why]; cbn [fst snd].
  - unfold bind, attempt. destruct (MarkSent (ItID it) w1) as [r w2] eqn:E. apply dbM_run in E as (_ & E & _). destruct r; exact E.
  - destruct (max <=? ItAttempts it)%Z; [by rewrite Hret|done].
  - by rewrite Hret.
Qed.

(** C29. What a service sealed for a recipient is what the worker hands over: at
    each attempt the policy allows, the message carries the id, tenant and
    recipient of the row and the template and the variables of the payload,
    which is one of auth's own templates.  The JSON text written for the
    payload is assumed to read back as that payload. *)
Theorem sealed_mail_handed to p m blob m' it acc w : EncodeMail kek json_text to p m = (Ok blob, m') → json_reads_back p →
  ItPayloadEnc it = blob → (ItAttempts it <= max)%Z → ItTo it = to →
  own_template (MpTemplate p) = true ∧
  ow_handed (send_item kek max unmarshal deliver acc it w).2 = ow_handed w ++ [mkMessage (ItID it) (ItTenantID it) to (MpTemplate p) (MpVars p)].
Proof.
  intros (js & dek & n1 & n2 & Ejs & Ld & L1 & L2 & ->)%EncodeMail_sealed Hj Hb Ha Hto. rewrite send_item_hands by done.
  assert (Eo : own_template (MpTemplate p) = true) by (unfold EncodePayload in Ejs; by destruct (own_template (MpTemplate p))). split; [done|].
  unfold DecodeMail. rewrite Hb, Hto, Decrypt_sealed, !gcm_open_seal by done. cbn [rbind]. rewrite (Hj js Ejs). unfold EncodePayload in Ejs.
  rewrite Eo in *. cbn. by rewrite Eo.
Qed.
End SealedMail.

(** ** A concrete life of a queued message: witnesses of OutboxSafety *)
From stdpp Require Import sorting.
From S2P Require Import Prelude GoStrings Base64 Utf8 Regex PermRef TenantCtx Models Password Cache Envelope AuditEvents Session MemStore SessionSafety SessionRuns Mfa Outbox OutboxWorker.
#[local] Open Scope list_scope.
#[local] Open Scope go_scope.

#[local] Existing Instance toyAEAD.
#[local] Existing Instance toyAEAD_laws.

Definition mail : MailPayload := RecoveryMail "https://auth/reset?token=t" "1 hour".
(** encoding/json on the one payload of these runs. *)
Definition text1 (js : json) : string := "{}".
Definition unmarshal1 (s : string) : option RawPayload := Some (mkRaw (Some PayloadVersion) (Some (MpTemplate mail)) (Some (MpVars mail)) None None).
(** The notification service is down once, then takes the message. *)
Definition deliver1 (n : nat) (m : Message) : Outcome * option string :=
  if (n =? 0)%nat then NotifierDeliver (NoConnection "refused") else NotifierDeliver (SendResult true false "").

Notation sealE := (EncodeMail "K" text1 "ann@acme.test" mail).
Definition sealedMail : string := match (sealE (start RawEmpty)).1 with Ok b => b | Err _ => "" end.
Definition row1 : OutRow := mkOutRow "e1" "t1" "recovery" "ann@acme.test" sealedMail 0 0 None None "".
Definition o0 : OW := mkOW ∅ [] [] [] [] 0.
Definition o1 : OW := mkOW {["e1" := row1]} [] [] [] [] 0.
Notation runE := (RunOnce "K" 3 unmarshal1 deliver1).
Notation stepE := (ostep "K" 3 unmarshal1 deliver1).
Definition o2 : OW := (runE o1).2.
Definition o3 : OW := mkOW (ow_table o2) (ow_handed o2) (ow_reports o2) (ow_errs o2) [] (2 * Dur.hour).
Definition o4 : OW := (runE o3).2.

Lemma o0_start : ostart o0.
Proof. done. Qed.
Lemma o3_reached : rtc stepE o0 o3.
Proof.
  eapply rtc_l; [apply (os_queue "K" 3 unmarshal1 deliver1 o0 row1); [apply lookup_empty|done|done]|].
  eapply rtc_l; [apply os_run|]. eapply rtc_l; [apply os_env|]. apply rtc_refl.
Qed.
Lemma o4_reached : rtc stepE o0 o4.
Proof. eapply rtc_r; [apply o3_reached|apply os_run]. Qed.

(** The first hand-over is tried again an hour later and settles the message;
    from then on it is never handed over again. *)
Lemma outbox_bounded_witness :
  handed "e1" o4 = 2%nat ∧ (Z.of_nat (handed "e1" o4) <= Z.max 3 0)%Z ∧ ∀ w', rtc stepE o4 w' → handed "e1" w' = handed "e1" o4.
Proof.
  split; [vm_compute; reflexivity|]. destruct (outbox_bounded "K" 3 unmarshal1 deliver1 o0 o4 o0_start o4_reached "e1") as (H1 & _ & H3).
  split; [exact H1|]. intros w' Hw. assert (Hr : (settled <$> ow_table o4 !! "e1") = Some true) by (vm_compute; reflexivity).
  destruct (ow_table o4 !! "e1") as [r|]; [|discriminate Hr]. injection Hr as Hr. exact (proj1 (proj2 (H3 r w' eq_refl Hr Hw))).
Defined.
Lemma outbox_run_once_witness :
  (OrID <$> to_claim (ow_now o3) 50 (ow_table o3)) = ["e1"] ∧ ∃ n, (runE o3).1 = Ok n.
Proof.
  split; [vm_compute; reflexivity|]. apply (outbox_run_once "K" 3 unmarshal1 deliver1 o0 o3 o0_start o3_reached). reflexivity.
Defined.
Lemma sealed_mail_handed_witness :
  ow_handed (send_item "K" 3 unmarshal1 deliver1 0 (item_of (claimed 0 row1)) o1).2 = [mkMessage "e1" "t1" "ann@acme.test" TemplateRecovery [("link", "https://auth/reset?token=t"); ("valid_for", "1 hour")]].
Proof.
  apply (sealed_mail_handed "K" 3 text1 unmarshal1 deliver1 "ann@acme.test" mail (start RawEmpty) sealedMail (sealE (start RawEmpty)).2 (item_of (claimed 0 row1)) 0%Z o1).
  - unfold sealedMail. destruct (sealE (start RawEmpty)) as [[b|e] m] eqn:E; [reflexivity|]. apply (f_equal (λ x, is_ok x.1)) in E. vm_compute in E. discriminate E.
  - intros js _. reflexivity.
  - reflexivity.
  - vm_compute. discriminate.
  - reflexivity.
Defined.
