(* ===== verification/Tenants.v ===== *)
(** * Tenant slugs and the tenant of a request (internal/tenant/slug.go)

    The registrable domain is the parameter [etld1]
    (publicsuffix.EffectiveTLDPlusOne). *)
From S2P Require Import Prelude GoStrings Regex PermRef TenantCtx Models Envelope.
#[local] Open Scope list_scope.
#[local] Open Scope go_scope.

Definition slug_edge : re := Cls (λ c, is_lower c || is_digit c).
Definition slug_inner : re := Cls (λ c, is_lower c || is_digit c || is_char "-" c).
(** ^[a-z0-9](?:[a-z0-9-]{0,61}[a-z0-9])?$ *)
Definition tenantSlugRE : re := Seq slug_edge (opt (Seq (upto 61 slug_inner) slug_edge)).
Definition reserved_slugs : list string := ["api"; "www"; "admin"; "operator"; "auth"; "static"; "assets"; "login"].

Definition ParseTenantSlug (s : string) : result string :=
  if negb (re_match tenantSlugRE s) then Err ErrBadSlug
  else if bool_decide (s ∈ reserved_slugs) then Err ErrBadSlug
  else Ok s.

Section Lookup.
Context (etld1 : string → option string) (unicode_lower : string → string).

Definition SlugFromEmail (email : string) : result string :=
  let email := ToLower unicode_lower (TrimSpace email) in
  match index_byte "@" email with
  | None => Err ErrBadSlug
  | Some at_ =>
      if (at_ =? 0)%nat || negb (bool_decide (Some at_ = last_index_byte "@" email)) then Err ErrBadSlug
      else
        let domain := trim_suffix_byte "." (str_drop (at_ + 1) email) in
        if bool_decide (domain = "") || contains_any ["["; "]"; ":"]%char domain then Err ErrBadSlug
        else match etld1 domain with
             | None => Err ErrBadSlug
             | Some reg => ParseTenantSlug (match cut "." reg with Some (l, _) => l | None => reg end)
             end
  end.

(** [bySlug] and [sole] are calls of the caller's store. *)
Definition Lookup {S} (given email : string) (bySlug : string → M S Tenant) (sole : M S Tenant) : M S Tenant :=
  if bool_decide (TrimSpace given ≠ "")
  then slug <- lift (ParseTenantSlug given) ;; bySlug slug
  else match SlugFromEmail email with
       | Ok slug => r <- attempt (bySlug slug) ;;
                    match r with
                    | Err ErrNotFound => sole
                    | Ok t => ret t
                    | Err e => throw e
                    end
       | Err _ => sole
       end.
End Lookup.
