(* ===== verification/Signin.v ===== *)
(** * Sign-in (internal/user/signin.go)

    Rate limits, lockout, the password step, the pending challenge and the
    second step.  The world is the session manager's; the second factors are
    the interfaces the Go service is built with ([mfa], [methods], [keys]).
    The constant-time padding has no effect on the state. *)
From S2P Require Import Prelude GoStrings Base64 Utf8 Regex PermRef TenantCtx Models Password Cache Envelope AuditEvents Session Mfa Tenants.
#[local] Open Scope list_scope.
#[local] Open Scope go_scope.

Definition ErrInvalidCredentials : err := ErrText "invalid_credentials".
Definition ErrLocked : err := ErrText "locked".
Definition ErrRateLimited : err := ErrText "rate_limited".
Definition ErrKeyFlagged : err := ErrText "key_flagged".
Definition ErrNoKeys : err := ErrText "no_keys".

Definition IPWindow : Z := 10 * Dur.minute.
Definition IPLimit : Z := 60.
Definition AccountWindow : Z := 10 * Dur.minute.
Definition AccountLimit : Z := 20.
Definition ChallengeTTL : Z := 5 * Dur.minute.

Class SigninStore (S : Type) : Type := {
  sg_tenant_by_slug : string → M S Tenant;
  sg_sole_tenant : M S Tenant;
  sg_user_by_email : string → string → M S User;
  sg_touch_signin : Z → string → string → M S unit;
  sg_set_password_hash : string → string → string → M S unit;
  sg_attempt : string → string → string → string → string → string → M S unit;
}.

Record Input : Type := mkInput {
  InTenantSlug : string; InEmail : string; InPassword : string; InIP : string; InUserAgent : string }.
Record SigninResult : Type := mkSigninResult {
  RsMFARequired : bool; RsChallenge : string; RsMFAMethods : list string;
  RsSession : option Session; RsSecret : string; RsRoles : list string; RsMFASetupRequired : bool }.

(** The pending sign-in stored between the two steps. *)
Record challenge : Type := mkChallenge {
  ChTenantID : string; ChUserID : string; ChIPHash : string; ChUserAgent : string;
  ChRoles : list string; ChOperator : bool; ChPolicy : Policy }.
Definition policy_json (p : Policy) : json := JObj [
  ("session_lifetime", JInt (SessionLifetime p)); ("idle_timeout", JInt (IdleTimeout p));
  ("access_token_lifetime", JInt (AccessTokenLifetime p)); ("password_min_length", JInt (PasswordMinLength p));
  ("mfa_required", JBool (MFARequired p)); ("lockout_threshold", JInt (LockoutThreshold p));
  ("lockout_duration", JInt (LockoutDuration p))].
Definition policy_of_json (j : json) : option Policy :=
  match j with
  | JObj l =>
      a ← f_int "session_lifetime" l; b ← f_int "idle_timeout" l; c ← f_int "access_token_lifetime" l;
      d ← f_int "password_min_length" l; e ← f_bool "mfa_required" l; f ← f_int "lockout_threshold" l;
      g ← f_int "lockout_duration" l; Some (mkPolicy a b c d e f g)
  | _ => None
  end.
Definition challenge_json (c : challenge) : json := JObj [
  ("TenantID", JStr (ChTenantID c)); ("UserID", JStr (ChUserID c)); ("IPHash", JStr (ChIPHash c));
  ("UserAgent", JStr (ChUserAgent c)); ("Roles", JList (ChRoles c)); ("Operator", JBool (ChOperator c));
  ("Policy", policy_json (ChPolicy c))].
Definition challenge_of_json (j : json) : option challenge :=
  match j with
  | JObj l =>
      t ← f_str "TenantID" l; u ← f_str "UserID" l; i ← f_str "IPHash" l; ua ← f_str "UserAgent" l;
      r ← f_list "Roles" l; o ← f_bool "Operator" l;
      p ← match field "Policy" l with Some j => policy_of_json j | None => Some Policy0 end;
      Some (mkChallenge t u i ua r o p)
  | _ => None
  end.
Lemma challenge_of_challenge_json c : challenge_of_json (challenge_json c) = Some c.
Proof. by destruct c as [? ? ? ? ? ? []]. Qed.

(** *** time.Duration.String *)
(** The fraction [v mod 10^prec] without its trailing zeros. *)
Fixpoint frac_digits (prec : nat) (v : Z) (started : bool) : string :=
  match prec with
  | O => ""
  | S p => let started := started || negb (v mod 10 =? 0)%Z in
           frac_digits p (v / 10) started +:+ (if started then FormatInt (v mod 10) else "")
  end.
Definition frac (prec : nat) (v : Z) : string :=
  let d := frac_digits prec (v mod 10 ^ Z.of_nat prec) false in
  if bool_decide (d = "") then "" else "." +:+ d.
Definition unit_text (u scale : Z) (prec : nat) (unit : string) : string := FormatInt (u / scale) +:+ frac prec u +:+ unit.
Definition DurationString (d : Z) : string :=
  let u := Z.abs d in
  let text :=
    if (u =? 0)%Z then "0s"
    else if (u <? 1000)%Z then unit_text u 1 0 "ns"
    else if (u <? 1000000)%Z then unit_text u 1000 3 "µs"
    else if (u <? Dur.second)%Z then unit_text u 1000000 6 "ms"
    else
      let m := (u / Dur.second / 60)%Z in
      (if (m =? 0)%Z then ""
       else (if (m / 60 =? 0)%Z then "" else FormatInt (m / 60) +:+ "h") +:+ FormatInt (m mod 60) +:+ "m") +:+
      FormatInt (u / Dur.second mod 60) +:+ frac 9 u +:+ "s" in
  (if (d <? 0)%Z then "-" else "") +:+ text.
Example DurationString_examples :
  DurationString (15 * Dur.minute) = "15m0s" ∧ DurationString (90 * Dur.minute) = "1h30m0s" ∧
  DurationString 1500000000 = "1.5s" ∧ DurationString (-2050000) = "-2.05ms" ∧ DurationString 0 = "0s".
Proof. vm_compute. split_and!; reflexivity. Qed.

Section Signin.
Context {S K : Type} {SS : SessionStore S} {SG : SigninStore S} {KVK : KV K} {A2 : Argon2}.
Notation W := (Manager S K).
Context (HashToken : string → string) (newID : nat → string).
Context (etld1 : string → option string) (unicode_lower : string → string).
(** The second-factor verifier, the method lister and the security keys
    (options and verification); [None] until they are installed. *)
Context (mfa : option (string → string → string → M W string)).
Context (methods : option (string → string → M W (list string))).
Context (keysOptions : option (string → string → string → M W string)).
Context (keysVerify : option (string → string → string → string → M W unit)).

Definition HashIP (ip : string) : string := HashToken ("ip:" +:+ ip).
Definition HashEmail (email : string) : string := HashToken ("email:" +:+ ToLower unicode_lower (TrimSpace email)).

Definition recordAttempt (tid uid emailHash ipHash outcome reason : string) : M W unit :=
  ignore (storeM (sg_attempt tid uid emailHash ipHash outcome reason)).
Definition signinEvent (typ tid uid subjKind subjID outcome reason ipHash ua : string) (d : Details) : Event :=
  mkEventFull typ tid uid "user" "" subjKind subjID outcome reason ipHash ua "" "" d.

(** [n, err := Count(...)]: the value is 0 when the call fails. *)
Definition countM (key : string) (window : Z) : M W (result Z) := attempt (kvM (λ now, Count now key window)).
Definition over (r : result Z) (limit : Z) : bool := match r with Ok n => (limit <? n)%Z | Err _ => false end.
Definition lockedM (uid : string) : M W bool :=
  r <- attempt (kvM (λ now, Locked now uid)) ;; ret (match r with Ok b => b | Err _ => false end).

Definition failure (t : Tenant) (u : User) (pol : Policy) (emailHash ipHash ua reason : string) : M W unit :=
  rn <- countM (RateKey "fail" (UID u)) (LockoutDuration pol) ;;
  let n := match rn with Ok n => n | Err _ => 0%Z end in
  if (LockoutThreshold pol <=? n)%Z
  then ignore (kvM (λ now, Lock now (UID u) (LockoutDuration pol))) ;;;
       emit (signinEvent Lockout (TID t) (UID u) "" "" "refused" "threshold" ipHash ua
               [("failures", DInt n); ("duration", DStr (DurationString (LockoutDuration pol)))]) ;;;
       recordAttempt (TID t) (UID u) emailHash ipHash "refused" "locked" ;;;
       emit (signinEvent SigninFailed (TID t) (UID u) "" "" "refused" reason ipHash ua [])
  else recordAttempt (TID t) (UID u) emailHash ipHash "refused" reason ;;;
       emit (signinEvent SigninFailed (TID t) (UID u) "" "" "refused" reason ipHash ua []).

Definition establish (c : challenge) (amr : list string) (emailHash : string) : M W SigninResult :=
  ss <- Create HashToken newID (mkCreateParams (ChTenantID c) (ChUserID c) (ChRoles c) amr (ChOperator c)
          (ChIPHash c) (ChUserAgent c) (ChPolicy c)) ;;
  now <- nowM ;;
  ignore (storeM (sg_touch_signin now (ChTenantID c) (ChUserID c))) ;;;
  recordAttempt (ChTenantID c) (ChUserID c) emailHash (ChIPHash c) "ok" "" ;;;
  emit (signinEvent SigninOK (ChTenantID c) (ChUserID c) "session" (SID ss.1) "ok" "" (ChIPHash c) (ChUserAgent c)
          [("amr", DList amr)]) ;;;
  ret (mkSigninResult false "" [] (Some ss.1) ss.2 (ChRoles c) false).

Definition mfaMethods (tid uid : string) : M W (list string) :=
  all <- (match methods with
          | None => ret ["webauthn"; "totp"; "recovery"]
          | Some m => r <- attempt (m tid uid) ;;
                      ret (match r with Ok l => l | Err _ => ["webauthn"; "totp"; "recovery"] end)
          end) ;;
  ret (match keysVerify with None => filter (λ m, m ≠ "webauthn") all | Some _ => all end).

(** [t] and [u] of step one: the tenant named or derived, and the account
    unless it is missing or only imported. *)
Definition findAccount (slug email : string) : M W (Tenant * option User) :=
  rt <- attempt (storeM (Lookup etld1 unicode_lower slug email sg_tenant_by_slug sg_sole_tenant)) ;;
  match rt with
  | Err _ => ret (Tenant0, None)
  | Ok t =>
      ru <- attempt (storeM (sg_user_by_email (TID t) email)) ;;
      ret (t, match ru with
              | Ok u => if bool_decide (UStatus u = "imported") then None else Some u
              | Err _ => None
              end)
  end.

(** The part of Start after the password was accepted. *)
Definition passwordOK (inp : Input) (t : Tenant) (u : User) (pol : Policy) (rehash : bool) (emailHash ipHash : string)
    : M W SigninResult :=
  ignore (kvM (λ now, kv_del now [RateKey "fail" (UID u)])) ;;;
  (if rehash
   then rs <- attempt (ReadFull (PSaltLen DefaultParams)) ;;
        match rs with
        | Err _ => ret tt
        | Ok salt => match Password.Hash (λ _, Some salt) (InPassword inp) with
                     | Ok h => ignore (storeM (sg_set_password_hash (TID t) (UID u) h))
                     | Err _ => ret tt
                     end
        end
   else ret tt) ;;;
  roles <- storeM (ss_roles (TID t) (UID u)) ;;
  let c := mkChallenge (TID t) (UID u) ipHash (InUserAgent inp) roles (bool_decide (TKind t = "platform")) pol in
  if UMFAEnabled u
  then id <- RandomToken ;;
       kvM (λ now, kv_set now (ChallengeKey (HashToken id)) (Json (challenge_json c)) ChallengeTTL) ;;;
       recordAttempt (TID t) (UID u) emailHash ipHash "ok" "mfa_pending" ;;;
       ms <- mfaMethods (TID t) (UID u) ;;
       ret (mkSigninResult true id ms None "" [] false)
  else res <- establish c ["pwd"] emailHash ;;
       ret (mkSigninResult (RsMFARequired res) (RsChallenge res) (RsMFAMethods res) (RsSession res) (RsSecret res)
              (RsRoles res) (MFARequired pol && negb (UMFAEnabled u))).

Definition Start (inp : Input) : M W SigninResult :=
  let email := ToLower unicode_lower (TrimSpace (InEmail inp)) in
  let ipHash := HashIP (InIP inp) in
  let emailHash := HashEmail email in
  let ua := InUserAgent inp in
  n <- countM (RateKey "signin_ip" ipHash) IPWindow ;;
  if over n IPLimit
  then recordAttempt "" "" emailHash ipHash "refused" "rate_limited" ;;; throw ErrRateLimited
  else
  tu <- findAccount (InTenantSlug inp) email ;;
  let t := tu.1 in
  n <- countM (RateKey "signin_acct" (TID t +:+ ":" +:+ emailHash)) AccountWindow ;;
  if over n AccountLimit
  then recordAttempt (TID t) (match tu.2 with Some u => UID u | None => "" end) emailHash ipHash "refused" "rate_limited" ;;;
       throw ErrRateLimited
  else
  match tu.2 with
  | None =>
      recordAttempt (TID t) "" emailHash ipHash "refused" "unknown_account" ;;;
      (if bool_decide (TID t ≠ "")
       then emit (signinEvent SigninFailed (TID t) "" "" "" "refused" "unknown_account" ipHash ua [])
       else ret tt) ;;;
      throw ErrInvalidCredentials
  | Some u =>
      locked <- lockedM (UID u) ;;
      if (locked : bool)
      then recordAttempt (TID t) (UID u) emailHash ipHash "refused" "locked" ;;;
           emit (signinEvent SigninFailed (TID t) (UID u) "" "" "refused" "locked" ipHash ua []) ;;;
           throw ErrLocked
      else
        let '(ok, rehash) := PasswordVerify (InPassword inp) (default "" (UPasswordHash u)) in
        let pol := (ParsePolicy (TPolicy t) (bool_decide (TKind t = "platform"))).1 in
        if negb ok then failure t u pol emailHash ipHash ua "wrong_password" ;;; throw ErrInvalidCredentials
        else if bool_decide (TStatus t ≠ "active")
        then failure t u pol emailHash ipHash ua "tenant_suspended" ;;; throw ErrInvalidCredentials
        else if bool_decide (UStatus u ≠ "active")
        then failure t u pol emailHash ipHash ua ("user_" +:+ UStatus u) ;;; throw ErrInvalidCredentials
        else passwordOK inp t u pol rehash emailHash ipHash
  end.

(** ** Step two *)
Definition pendingSignin (id : string) : M W challenge :=
  r <- attempt (kvM (λ now, kv_get now (ChallengeKey (HashToken id)))) ;;
  match r with
  | Ok (Some (Json j)) =>
      if bool_decide (id = "") then throw ErrInvalidCredentials
      else match challenge_of_json j with Some c => ret c | None => throw ErrInvalidCredentials end
  | _ => throw ErrInvalidCredentials
  end.

Definition complete (id ip ua : string) (verify : challenge → M W string) : M W SigninResult :=
  c <- pendingSignin id ;;
  let key := ChallengeKey (HashToken id) in
  locked <- lockedM (ChUserID c) ;;
  if (locked : bool) then throw ErrLocked else
  r <- attempt (verify c) ;;
  match r with
  | Err e =>
      rn <- countM (RateKey "fail" (ChUserID c)) (LockoutDuration (ChPolicy c)) ;;
      let n := match rn with Ok n => n | Err _ => 0%Z end in
      let lock := (LockoutThreshold (ChPolicy c) <=? n)%Z in
      let reason := if lock then "locked" else "mfa_failed" in
      (if lock
       then ignore (kvM (λ now, Lock now (ChUserID c) (LockoutDuration (ChPolicy c)))) ;;;
            ignore (kvM (λ now, kv_del now [key])) ;;;
            emit (signinEvent Lockout (ChTenantID c) (ChUserID c) "" "" "refused" "mfa_failures" (HashIP ip) ua [])
       else ret tt) ;;;
      recordAttempt (ChTenantID c) (ChUserID c) "" (HashIP ip) "refused" reason ;;;
      emit (signinEvent SigninFailed (ChTenantID c) (ChUserID c) "" "" "refused" reason (HashIP ip) ua []) ;;;
      throw (if bool_decide (e = ErrKeyFlagged) then ErrKeyFlagged else ErrInvalidCredentials)
  | Ok method =>
      ignore (kvM (λ now, kv_del now [key])) ;;;
      ignore (kvM (λ now, kv_del now [RateKey "fail" (ChUserID c)])) ;;;
      establish (mkChallenge (ChTenantID c) (ChUserID c) (HashIP ip) ua (ChRoles c) (ChOperator c) (ChPolicy c))
        ["pwd"; method] ""
  end.

Definition CompleteMFA (id code ip ua : string) : M W SigninResult :=
  complete id ip ua (λ c, match mfa with
                          | None => throw ErrInvalidCredentials
                          | Some v => v (ChTenantID c) (ChUserID c) code
                          end).
Definition CompleteWebAuthn (id response ip ua : string) : M W SigninResult :=
  complete id ip ua (λ c, match keysVerify with
                          | None => throw ErrInvalidCredentials
                          | Some v => v (HashToken id) (ChTenantID c) (ChUserID c) response ;;; ret "hwk"
                          end).
Definition WebAuthnOptions (id : string) : M W string :=
  c <- pendingSignin id ;;
  locked <- lockedM (ChUserID c) ;;
  if (locked : bool) then throw ErrLocked else
  n <- countM (RateKey "webauthn_options" (ChUserID c)) AccountWindow ;;
  if over n AccountLimit then throw ErrRateLimited else
  match keysOptions with
  | None => throw ErrInvalidCredentials
  | Some f => r <- attempt (f (HashToken id) (ChTenantID c) (ChUserID c)) ;;
              match r with
              | Err e => throw (if bool_decide (e = ErrNoKeys) then ErrInvalidCredentials else e)
              | Ok o => ret o
              end
  end.
End Signin.
