(* ===== verification/MemAccounts.v ===== *)
(** * The in-memory store: accounts, factors and applications
      (internal/memstore/memstore.go, internal/memstore/webauthn.go)

    The tables sign-in, the second factors and OAuth use, and the proof that
    the store keeps what [MfaStoreLaws] promises.  Ids are unique among users;
    the store keeps that ([users_unique]). *)
From S2P Require Import Prelude GoStrings Base64 Utf8 Regex PermRef TenantCtx Models Password Cache Envelope AuditEvents Session MemStore SessionSafety Mfa MfaSafety Tenants Signin.
#[local] Open Scope list_scope.
#[local] Open Scope go_scope.

(** [userByID] with the key of the row. *)
Definition userKey (m : Store) (tid uid : string) : option (string * User) :=
  find_first (λ p, bool_decide (UTenantID p.2 = tid) && bool_decide (UID p.2 = uid)) (map_to_list (Users m)).

Definition update_user (tid uid : string) (f : User → User) : M Store unit := λ m,
  match userKey m tid uid with
  | None => (Err ErrNotFound, m)
  | Some (k, u) => (Ok tt, set_Users m (<[k := f u]> (Users m)))
  end.
Definition SetMFA (tid uid : string) (enabled : bool) (enc : option string) : M Store unit :=
  update_user tid uid (with_mfa enabled enc).
Definition SetMFACounter (tid uid : string) (counter : Z) : M Store unit :=
  update_user tid uid (with_counter counter).

Definition ReplaceRecoveryCodes (tid uid : string) (hashes : list string) : M Store unit :=
  modify (λ m, set_Codes m (<[map_key tid uid := (λ h, mkCode h false) <$> hashes]> (Codes m))).
Definition unused (l : list recoveryCode) : list string :=
  omap (λ c, if rcUsed c then None else Some (rcHash c)) l.
Definition ListRecoveryCodeHashes (tid uid : string) : M Store (list string) := λ m,
  (Ok (unused (default [] (Codes m !! map_key tid uid))), m).
(** The first unused entry with the hash. *)
Fixpoint mark_used (hash : string) (l : list recoveryCode) : option (list recoveryCode) :=
  match l with
  | [] => None
  | c :: l' => if bool_decide (rcHash c = hash) && negb (rcUsed c) then Some (mkCode (rcHash c) true :: l')
               else (λ r, c :: r) <$> mark_used hash l'
  end.
Definition UseRecoveryCode (tid uid hash : string) : M Store unit := λ m,
  match mark_used hash (default [] (Codes m !! map_key tid uid)) with
  | Some l => (Ok tt, set_Codes m (<[map_key tid uid := l]> (Codes m)))
  | None => (Err ErrNotFound, m)
  end.

(** ** Sign-in *)
Definition TenantBySlug (slug : string) : M Store Tenant := λ m,
  match find_first (λ t, bool_decide (TSlug t = slug)) (values (Tenants m)) with
  | Some t => (Ok t, m)
  | None => (Err ErrNotFound, m)
  end.
Definition SoleTenant : M Store Tenant := λ m,
  match values (Tenants m) with [t] => (Ok t, m) | _ => (Err ErrNotFound, m) end.

Section Lower.
Context (unicode_lower : string → string).
Definition user_key (tid email : string) : string := tid +:+ "/" +:+ ToLower unicode_lower email.
Definition UserByEmail (tid email : string) : M Store User := λ m,
  match Users m !! user_key tid email with Some u => (Ok u, m) | None => (Err ErrNotFound, m) end.
End Lower.

Definition each_user (tid uid : string) (f : User → User) : M Store unit :=
  modify (λ m, set_Users m ((λ u, if bool_decide (UTenantID u = tid) && bool_decide (UID u = uid) then f u else u) <$> Users m)).
Definition with_signin (t : Z) (u : User) : User :=
  mkUser (UID u) (UTenantID u) (UEmail u) (UDisplayName u) (UStatus u) (UPasswordHash u) (UMFAEnabled u)
    (UMFASecretEnc u) (UMFALastCounter u) (UAvatarID u) (Some t) (UFirstName u) (ULastName u) (UDisplayNameExplicit u).
Definition with_password (h : string) (u : User) : User :=
  mkUser (UID u) (UTenantID u) (UEmail u) (UDisplayName u) (UStatus u) (Some h) (UMFAEnabled u)
    (UMFASecretEnc u) (UMFALastCounter u) (UAvatarID u) (ULastSigninAt u) (UFirstName u) (ULastName u) (UDisplayNameExplicit u).
Definition TouchSignin (now : Z) (tid uid : string) : M Store unit := each_user tid uid (with_signin now).
Definition SetPasswordHash (tid uid hash : string) : M Store unit := each_user tid uid (with_password hash).
Definition RecordAttempt (tid uid emailHash ipHash outcome reason : string) : M Store unit :=
  modify (λ m, set_Attempts m (Attempts m ++ [mkAttempt tid uid emailHash ipHash outcome reason])).
Definition ClientRow (m : Store) (id : string) : result ClientApplication :=
  match Clients m !! id with Some c => Ok c | None => Err ErrNotFound end.

(** ** Security keys *)
Definition ErrCredentialExists : err := ErrText "store: credential already registered".
Definition keysOf (m : Store) (tid uid : string) : list WebAuthnCredential := default [] (keys m !! map_key tid uid).
Definition ListWebAuthnCredentials (tid uid : string) : M Store (list WebAuthnCredential) := λ m, (Ok (keysOf m tid uid), m).

Definition credential_at (now : Z) (c : WebAuthnCredential) : WebAuthnCredential :=
  mkCredential (WcID c) (WcTenantID c) (WcUserID c) (WcCredentialID c) (WcSignCount c) (WcName c) now (WcLastUsedAt c) (WcCloneFlaggedAt c)
    (WcPublicKey c) (WcAAGUID c) (WcTransports c) (WcBackupEligible c) (WcBackupState c).
Section Fold.
(** strings.EqualFold *)
Context (EqualFold : string → string → bool).
Definition InsertWebAuthnCredential (now : Z) (c : WebAuthnCredential) : M Store unit := λ m,
  if existsb (λ k, bool_decide (WcCredentialID k = WcCredentialID c)) (concat (values (keys m))) then (Err ErrCredentialExists, m)
  else if existsb (λ k, EqualFold (WcName k) (WcName c)) (keysOf m (WcTenantID c) (WcUserID c)) then (Err ErrConflict, m)
  else (Ok tt, set_wkeys m (<[map_key (WcTenantID c) (WcUserID c) :=
                              keysOf m (WcTenantID c) (WcUserID c) ++ [credential_at now c]]> (keys m))).
End Fold.
Definition DeleteWebAuthnCredential (tid uid id : string) : M Store unit := λ m,
  if existsb (λ k, bool_decide (WcID k = id)) (keysOf m tid uid)
  then (Ok tt, set_wkeys m (<[map_key tid uid := delete_key id (keysOf m tid uid)]> (keys m)))
  else (Err ErrNotFound, m).
Definition ResetMFA (tid uid : string) : M Store unit := λ m,
  match userKey m tid uid with
  | None => (Err ErrNotFound, m)
  | Some (k, u) =>
      let m := set_Users m (<[k := with_mfa false None u]> (Users m)) in
      let m := set_Codes m (delete (map_key tid uid) (Codes m)) in
      (Ok tt, set_wkeys m (delete (map_key tid uid) (keys m)))
  end.

#[export] Instance Store_MfaStore : MfaStore Store := {|
  mf_set_mfa := SetMFA; mf_set_counter := SetMFACounter; mf_replace_codes := ReplaceRecoveryCodes;
  mf_list_codes := ListRecoveryCodeHashes; mf_use_code := UseRecoveryCode; mf_list_keys := ListWebAuthnCredentials |}.
#[export] Instance Store_SigninStore : SigninStore Store := {|
  sg_tenant_by_slug := TenantBySlug; sg_sole_tenant := SoleTenant; sg_user_by_email := UserByEmail id;
  sg_touch_signin := TouchSignin; sg_set_password_hash := SetPasswordHash; sg_attempt := RecordAttempt |}.

(** ** The laws *)
Definition users_unique (m : Store) : Prop :=
  ∀ k k' u u', Users m !! k = Some u → Users m !! k' = Some u' → UTenantID u = UTenantID u' → UID u = UID u' → k = k'.

Lemma find_first_None {B} (p : B → bool) l : find_first p l = None → ∀ x, x ∈ l → p x = false.
Proof.
  induction l as [|y l IH]; [set_solver|]. cbn. destruct (p y) eqn:E; [done|]. intros H x [->|Hx]%elem_of_cons; auto.
Qed.

Lemma userKey_iff m tid uid k u : users_unique m →
  userKey m tid uid = Some (k, u) ↔ Users m !! k = Some u ∧ UTenantID u = tid ∧ UID u = uid.
Proof.
  intros Hu. unfold userKey. split.
  - intros [Hin Hp]%find_first_Some. cbn in Hp. bool_prop. by apply elem_of_map_to_list in Hin.
  - intros (Hk & H1 & H2). destruct (find_first _ _) as [[k' u']|] eqn:E.
    + apply find_first_Some in E as [Hin Hp]. cbn in Hp. bool_prop. apply elem_of_map_to_list in Hin.
      assert (k = k') as <- by (apply (Hu k k' u u'); congruence). congruence.
    + apply elem_of_map_to_list in Hk. eapply find_first_None in E; [|exact Hk]. cbn in E.
      by rewrite !bool_decide_eq_true_2 in E.
Qed.
Lemma userByID_iff m tid uid u : users_unique m →
  userByID m tid uid = Some u ↔ ∃ k, Users m !! k = Some u ∧ UTenantID u = tid ∧ UID u = uid.
Proof.
  intros Hu. unfold userByID. split.
  - intros [Hin Hp]%find_first_Some. bool_prop. apply elem_of_values in Hin as [k Hk]. by exists k.
  - intros (k & Hk & H1 & H2). destruct (find_first _ _) as [u'|] eqn:E.
    + apply find_first_Some in E as [Hin Hp]. bool_prop. apply elem_of_values in Hin as [k' Hk'].
      assert (k = k') as <- by (apply (Hu k k' u u'); congruence). congruence.
    + eapply find_first_None in E; [|apply elem_of_values; eauto]. by rewrite !bool_decide_eq_true_2 in E.
Qed.

(** Rewriting one row of a user. *)
Lemma update_user_run tid uid f m r m' : users_unique m → (∀ u, UTenantID (f u) = UTenantID u ∧ UID (f u) = UID u) →
  update_user tid uid f m = (r, m') →
  users_unique m' ∧ Codes m' = Codes m ∧ keys m' = keys m ∧ Tenants m' = Tenants m ∧
  match r with
  | Ok _ => is_Some (userByID m tid uid) ∧
      ∀ t x, userByID m' t x = if decide (t = tid ∧ x = uid) then f <$> userByID m t x else userByID m t x
  | Err _ => m' = m
  end.
Proof.
  intros Hu Hf. unfold update_user. destruct (userKey m tid uid) as [[k u]|] eqn:E; [|by intros [= <- <-]].
  intros [= <- <-]. apply userKey_iff in E as (Hk & H1 & H2); [|done]. destruct (Hf u) as [F1 F2].
  assert (Hu' : users_unique (set_Users m (<[k := f u]> (Users m)))).
  { intros k1 k2 u1 u2. cbn. intros A B C D. apply lookup_insert_Some in A, B.
    destruct A as [[<- <-]|[A0 A]], B as [[<- <-]|[B0 B]]; [done| | |by eapply Hu].
    - eapply (Hu k k2 u u2); [done|done|congruence|congruence].
    - eapply (Hu k1 k u1 u); [done|done|congruence|congruence]. }
  split_and!; [done..| |].
  - exists u. apply userByID_iff; [done|]. by exists k.
  - intros t x. apply option_eq. intros v. rewrite userByID_iff by done. cbn [Users set_Users]. case_decide as Ht.
    + destruct Ht as [-> ->]. replace (userByID m tid uid) with (Some u) by (symmetry; apply userByID_iff; [done|]; by exists k).
      cbn. split.
      * intros (k' & Hk' & H1' & H2'). apply lookup_insert_Some in Hk' as [[<- <-]|[Hne Hk']]; [done|].
        exfalso. apply Hne. eapply (Hu k k' u v); [done|done|congruence|congruence].
      * intros [= <-]. exists k. rewrite lookup_insert_eq. split_and!; [done|congruence|congruence].
    + rewrite userByID_iff by done. split; intros (k' & Hk' & H1' & H2'); exists k'.
      * apply lookup_insert_Some in Hk' as [[<- <-]|[Hne Hk']]; [|done]. exfalso. apply Ht. split; congruence.
      * split_and!; [|done|done]. rewrite lookup_insert_ne; [done|]. intros <-. rewrite Hk in Hk'. injection Hk' as <-. apply Ht. split; congruence.
Qed.

Lemma mark_used_Some h l l' : mark_used h l = Some l' →
  h ∈ unused l ∧ unused l' `sublist_of` unused l ∧ (NoDup (unused l) → h ∉ unused l').
Proof.
  revert l'. induction l as [|c l IH]; intros l'; [done|]. cbn [mark_used]. destruct (_ && _) eqn:E.
  - bool_prop. intros [= <-]. unfold unused. cbn. rewrite H0. cbn. subst h. fold (unused l). split_and!.
    + by apply elem_of_cons; left.
    + by apply sublist_cons.
    + by intros [? _]%NoDup_cons.
  - destruct (mark_used h l) as [r|] eqn:Em; [|done]. cbn. intros [= <-]. destruct (IH r eq_refl) as (H1 & H2 & H3).
    unfold unused. cbn. fold (unused l). fold (unused r). destruct (rcUsed c) eqn:Eu; [done|]. split_and!.
    + by apply elem_of_cons; right.
    + by apply sublist_skip.
    + intros [Hc Hn]%NoDup_cons. apply not_elem_of_cons. split; [|by apply H3].
      intros ->. apply andb_false_iff in E as [E|E]; [by bool_prop|done].
Qed.

#[export] Program Instance Store_MfaStoreLaws : MfaStoreLaws Store := {|
  ms_ok := users_unique;
  ms_user := userByID;
  ms_codes m tid uid := unused (default [] (Codes m !! map_key tid uid));
  ms_keys := keysOf;
  ms_tenant m tid := Tenants m !! tid |}.
Next Obligation.
  intros tid uid s r s' _. cbn. unfold UserRow. destruct (userByID s tid uid); intros [= <- <-]; split; try done. by intros ? [= ->].
Qed.
Next Obligation.
  intros tid s r s' _. cbn. unfold TenantRow. destruct (Tenants s !! tid); intros [= <- <-]; split; try done. by intros ? [= ->].
Qed.
Next Obligation. intros tid uid s r s' _ [= <- <-]. split; [done|]. by intros l [= ->]. Qed.
Next Obligation. intros tid uid s r s' _ [= <- <-]. split; [done|]. by intros l [= ->]. Qed.
Next Obligation.
  intros tid uid n s r s' Hok E. apply update_user_run in E as (H1 & H2 & H3 & H4 & H5); [|done|done].
  rewrite H2, H4. unfold keysOf. rewrite H3. split_and!; [done..|]. destruct r; [|by subst]. exists n. split; [done|apply H5].
Qed.
Next Obligation.
  intros tid uid en enc s r s' Hok E. apply update_user_run in E as (H1 & H2 & H3 & H4 & H5); [|done|done].
  rewrite H2, H4. unfold keysOf. rewrite H3. split_and!; [done..|]. destruct r; [done|by subst].
Qed.
Next Obligation. intros tid uid l s r s' Hok [= <- <-]. done. Qed.
Next Obligation.
  intros tid uid h s r s' Hok. cbn. unfold UseRecoveryCode. destruct (mark_used h _) as [l|] eqn:E; intros [= <- <-]; [|done].
  apply mark_used_Some in E as (H1 & H2 & H3). split_and!; [done..| |]; cbn.
  - intros t x. destruct (decide (map_key tid uid = map_key t x)) as [<-|Hne].
    + by rewrite lookup_insert_eq.
    + by rewrite lookup_insert_ne.
  - rewrite lookup_insert_eq. done.
Qed.
