(* ===== verification/WebAuthn.v ===== *)
(** * Security keys (internal/webauthn/webauthn.go; the key rows of
      internal/memstore/webauthn.go)

    Registration and assertion ceremonies, names, clone detection and removal.
    What the ceremonies verify is the WebAuthn library, the parameter
    [WebAuthnLib]; the records of pending ceremonies are in the cache, the keys
    and the user handles in the store of the session manager. *)
From S2P Require Import Prelude GoStrings Base64 Utf8 Regex PermRef TenantCtx Models Password Cache Envelope AuditEvents Session MemStore SessionSafety Mfa MfaSafety Tenants Signin MemAccounts.
#[local] Open Scope list_scope.
#[local] Open Scope go_scope.

Definition WaInvalidName : err := ErrText "invalid_name".
Definition WaNameTaken : err := ErrText "name_taken".
Definition ErrKeyLimit : err := ErrText "key_limit".
Definition ErrAlreadyRegistered : err := ErrText "already_registered".
Definition ErrRegistrationFailed : err := ErrText "registration_failed".
Definition ErrAssertionFailed : err := ErrText "assertion_failed".
Definition ErrTooLarge : err := ErrText "response_too_large".
Definition ErrConfirmationFailed : err := ErrText "confirmation_failed".
Definition ErrLastFactor : err := ErrText "last_factor_required".

Definition MaxKeys : nat := 10.
Definition MaxNameRunes : nat := 64.
Definition MaxResponseBytes : nat := 65536.
Definition MinCredentialID : nat := 16.
Definition MaxCredentialID : nat := 1023.
Definition MaxPublicKey : nat := 2048.
Definition MaxTransports : nat := 8.
Definition handleBytes : nat := 32.
Definition purposeRegister : string := "reg".
Definition purposeSignin : string := "signin".
Definition purposeStepUp : string := "stepup".

(** ** Names and rows *)
Definition NormalizeName (name : string) : result string :=
  let name := TrimSpace name in
  let n := RuneCount name in
  if (n =? 0)%nat || (MaxNameRunes <? n)%nat || negb (ValidString name) || existsb IsControl (runes name) then Err WaInvalidName else Ok name.

(** The first key with the id, changed. *)
Fixpoint change_key (id : string) (f : WebAuthnCredential → WebAuthnCredential) (l : list WebAuthnCredential) : list WebAuthnCredential :=
  match l with
  | [] => []
  | k :: l' => if bool_decide (WcID k = id) then f k :: l' else k :: change_key id f l'
  end.
Definition has_key (id : string) (l : list WebAuthnCredential) : bool := existsb (λ k, bool_decide (WcID k = id)) l.
(** The lists updateKey looks at: every user of the tenant when [uid] is empty. *)
Definition owner_in (tid uid owner : string) : bool :=
  String.prefix (tid +:+ "/") owner && (bool_decide (uid = "") || bool_decide (owner = map_key tid uid)).
Definition updateKey (tid uid id : string) (f : WebAuthnCredential → WebAuthnCredential) : M Store unit := λ m,
  match find_first (λ p, owner_in tid uid p.1 && has_key id p.2) (map_to_list (keys m)) with
  | None => (Err ErrNotFound, m)
  | Some (owner, l) => (Ok tt, set_wkeys m (<[owner := change_key id f l]> (keys m)))
  end.
Definition renamed (name : string) (k : WebAuthnCredential) : WebAuthnCredential :=
  mkCredential (WcID k) (WcTenantID k) (WcUserID k) (WcCredentialID k) (WcSignCount k) name (WcCreatedAt k) (WcLastUsedAt k) (WcCloneFlaggedAt k)
    (WcPublicKey k) (WcAAGUID k) (WcTransports k) (WcBackupEligible k) (WcBackupState k).
Definition used (now signCount : Z) (backup : bool) (k : WebAuthnCredential) : WebAuthnCredential :=
  mkCredential (WcID k) (WcTenantID k) (WcUserID k) (WcCredentialID k) signCount (WcName k) (WcCreatedAt k) (Some now) (WcCloneFlaggedAt k)
    (WcPublicKey k) (WcAAGUID k) (WcTransports k) (WcBackupEligible k) backup.
Definition flagged (now : Z) (k : WebAuthnCredential) : WebAuthnCredential :=
  match WcCloneFlaggedAt k with
  | Some _ => k
  | None => mkCredential (WcID k) (WcTenantID k) (WcUserID k) (WcCredentialID k) (WcSignCount k) (WcName k) (WcCreatedAt k) (WcLastUsedAt k) (Some now)
              (WcPublicKey k) (WcAAGUID k) (WcTransports k) (WcBackupEligible k) (WcBackupState k)
  end.
Definition RenameWebAuthnCredential (EqualFold : string → string → bool) (tid uid id name : string) : M Store unit := λ m,
  if existsb (λ k, negb (bool_decide (WcID k = id)) && EqualFold (WcName k) name) (keysOf m tid uid) then (Err ErrConflict, m)
  else updateKey tid uid id (renamed name) m.
Definition UpdateWebAuthnUse (now : Z) (tid id : string) (signCount : Z) (backup : bool) : M Store unit := updateKey tid "" id (used now signCount backup).
Definition FlagWebAuthnClone (now : Z) (tid id : string) : M Store unit := updateKey tid "" id (flagged now).
Definition WebAuthnHandle (tid uid : string) : M Store string := λ m,
  match userByID m tid uid with
  | None => (Err ErrNotFound, m)
  | Some _ => (Ok (default "" (handles m !! map_key tid uid)), m)
  end.
Definition EnsureWebAuthnHandle (tid uid candidate : string) : M Store string := λ m,
  match userByID m tid uid with
  | None => (Err ErrNotFound, m)
  | Some _ => match handles m !! map_key tid uid with
              | Some h => (Ok h, m)
              | None => (Ok candidate, set_handles m (<[map_key tid uid := candidate]> (handles m)))
              end
  end.

(** ** The library *)
(** webauthn.Credential, what the service reads and fills. *)
Record Cred : Type := mkCred {
  CrID : string; CrPublicKey : string; CrTransports : list string; CrBackupEligible : bool; CrBackupState : bool;
  CrAAGUID : string; CrSignCount : Z; CrCloneWarning : bool }.
Record WUser : Type := mkWUser { WuHandle : string; WuName : string; WuLabel : string; WuCreds : list Cred }.
(** protocol.ParsedCredentialAssertionData: the raw id and the rest. *)
Record Assertion : Type := mkAssertion { AsRawID : string; AsBody : string }.
(** go-webauthn: parsing of responses, and the ceremonies; session data and
    parsed registrations are opaque texts.  [salt] is the randomness the library
    draws.  The options sent to the browser are a text. *)
Class WebAuthnLib : Type := {
  wa_parse_creation : string → option string;
  wa_parse_assertion : string → option Assertion;
  wa_begin_registration : string → WUser → list string → result (string * string);
  wa_create_credential : Z → WUser → string → string → result Cred;
  wa_begin_login : string → WUser → result (string * string);
  wa_validate_login : Z → WUser → string → Assertion → result Cred;
}.
(** ValidateLogin: the assertion is by one of the credentials of the user it is
    given, and the answer is that credential with what the assertion says. *)
Class WebAuthnLaws `{WebAuthnLib} : Prop := {
  wa_login_known now u sess a c : wa_validate_login now u sess a = Ok c →
    ∃ c0, c0 ∈ WuCreds u ∧ CrID c0 = AsRawID a ∧ CrID c = AsRawID a;
}.

Section Parse.
Context `{WebAuthnLib}.
Definition ParseCreation (b : string) : result string :=
  if (MaxResponseBytes <? String.length b)%nat then Err ErrTooLarge
  else match wa_parse_creation b with Some x => Ok x | None => Err (ErrText "parse") end.
Definition ParseAssertion (b : string) : result Assertion :=
  if (MaxResponseBytes <? String.length b)%nat then Err ErrTooLarge
  else match wa_parse_assertion b with Some x => Ok x | None => Err (ErrText "parse") end.
End Parse.
(** uint32(k.SignCount) *)
Definition credential (k : WebAuthnCredential) : Cred :=
  mkCred (WcCredentialID k) (WcPublicKey k) (WcTransports k) (WcBackupEligible k) (WcBackupState k) (WcAAGUID k) (WcSignCount k mod 2 ^ 32) false.
Definition newUser (u : User) (handle : string) (ks : list WebAuthnCredential) : WUser :=
  mkWUser handle (UEmail u) (if bool_decide (UDisplayName u = "") then UEmail u else UDisplayName u) (credential <$> ks).
Definition usable (ks : list WebAuthnCredential) : list WebAuthnCredential := filter (λ k, WcCloneFlaggedAt k = None) ks.

(** ** Ceremonies in the cache *)
Record ceremony : Type := mkCeremony { CePurpose : string; CeTenantID : string; CeUserID : string; CeName : string; CeSession : string }.
Definition ceremony_json (c : ceremony) : json :=
  JObj ([("purpose", JStr (CePurpose c)); ("tenant_id", JStr (CeTenantID c)); ("user_id", JStr (CeUserID c))] ++
        (if bool_decide (CeName c = "") then [] else [("name", JStr (CeName c))]) ++ [("session", JStr (CeSession c))]).
Definition ceremony_of_json (j : json) : option ceremony :=
  match j with
  | JObj l => p ← f_str "purpose" l; t ← f_str "tenant_id" l; u ← f_str "user_id" l; n ← f_str "name" l; s ← f_str "session" l; Some (mkCeremony p t u n s)
  | _ => None
  end.
Lemma ceremony_of_ceremony_json c : ceremony_of_json (ceremony_json c) = Some c.
Proof. destruct c as [p t u n s]. unfold ceremony_json. cbn [CeName CePurpose CeTenantID CeUserID CeSession]. case_bool_decide as E; [by subst|done]. Qed.

Record Registered : Type := mkRegistered { RgKey : MKey; RgRecoveryCodes : list string }.
Record Confirmation : Type := mkConfirmation { CfCode : string; CfCredential : string }.

(** ** The service *)
Section WebAuthn.
Context {K : Type} {KVK : KV K} {TP : Totp} {AE : AEAD} {A2 : Argon2} {WA : WebAuthnLib}.
Context (kek : string) (unicode_upper : string → string) (newID : nat → string) (EqualFold : string → string → bool).
(** The configured timeout; the text of a UUID (google/uuid). *)
Context (ttl : Z) (uuid_text : string → string).
Notation W := (Manager Store K).

Definition save (subject : string) (c : ceremony) : M W unit :=
  kvM (λ now, kv_set now (WebAuthnKey (CePurpose c) subject) (Json (ceremony_json c)) ttl).
Definition take_ceremony (purpose subject tid uid : string) : M W (option ceremony) :=
  raw <- attempt (kvM (λ now, kv_getdel now (WebAuthnKey purpose subject))) ;;
  ret (match raw with
       | Ok (Some (Json j)) =>
           match ceremony_of_json j with
           | Some c => if bool_decide (CePurpose c = purpose) && bool_decide (CeTenantID c = tid) && bool_decide (CeUserID c = uid) then Some c else None
           | None => None
           end
       | _ => None
       end).

Definition BeginRegistration (salt : string) (a : Actor) (name : string) : M W string :=
  name <- lift (NormalizeName name) ;;
  u <- storeM (UserRow (ATenantID a) (AUserID a)) ;;
  ks <- storeM (ListWebAuthnCredentials (ATenantID a) (AUserID a)) ;;
  if (MaxKeys <=? length ks)%nat then throw ErrKeyLimit else
  if existsb (λ k, EqualFold (WcName k) name) ks then throw WaNameTaken else
  candidate <- ReadFull handleBytes ;;
  handle <- storeM (EnsureWebAuthnHandle (ATenantID a) (AUserID a) candidate) ;;
  let wu := newUser u handle ks in
  r <- lift (wa_begin_registration salt wu (CrID <$> WuCreds wu)) ;;
  save (AUserID a) (mkCeremony purposeRegister (ATenantID a) (AUserID a) name r.2) ;;;
  ret r.1.

Definition keyEvent (typ tid uid outcome reason id : string) (kind : string) (d : Details) : Event :=
  mkEvent typ tid kind uid (if bool_decide (id = "") then "" else "webauthn_credential") id outcome reason d.
Definition FinishRegistration (a : Actor) (response : string) : M W Registered :=
  oc <- take_ceremony purposeRegister (AUserID a) (ATenantID a) (AUserID a) ;;
  match oc with
  | None => throw ErrRegistrationFailed
  | Some c =>
      match ParseCreation response with
      | Err _ => throw ErrRegistrationFailed
      | Ok parsed =>
          u <- storeM (UserRow (ATenantID a) (AUserID a)) ;;
          handle <- storeM (WebAuthnHandle (ATenantID a) (AUserID a)) ;;
          ks <- storeM (ListWebAuthnCredentials (ATenantID a) (AUserID a)) ;;
          now <- nowM ;;
          match wa_create_credential now (newUser u handle ks) (CeSession c) parsed with
          | Err _ => throw ErrRegistrationFailed
          | Ok cred =>
              let n := String.length (CrID cred) in
              if (n <? MinCredentialID)%nat || (MaxCredentialID <? n)%nat || (MaxPublicKey <? String.length (CrPublicKey cred))%nat || (MaxTransports <? length (CrTransports cred))%nat
              then throw ErrRegistrationFailed else
              if (MaxKeys <=? length ks)%nat then throw ErrKeyLimit else
              id <- NewID newID ;;
              let row := mkCredential id (ATenantID a) (AUserID a) (CrID cred) (CrSignCount cred) (CeName c) 0 None None
                           (CrPublicKey cred) (CrAAGUID cred) (CrTransports cred) (CrBackupEligible cred) (CrBackupState cred) in
              r <- attempt (storeM (InsertWebAuthnCredential EqualFold now row)) ;;
              match r with
              | Err e => if bool_decide (e = ErrCredentialExists) then throw ErrAlreadyRegistered
                         else if bool_decide (e = ErrConflict) then throw WaNameTaken else throw e
              | Ok _ =>
                  codes <- KeyAdded unicode_upper a ;;
                  emit (keyEvent MFAEnrolled (ATenantID a) (AUserID a) "ok" "" id (kind_string (AKind a))
                          [("method", "webauthn" : detail); ("aaguid", uuid_text (CrAAGUID cred) : detail)]) ;;;
                  ret (mkRegistered (mkey_of row) codes)
              end
          end
      end
  end.

Definition beginAssertion (salt purpose subject tid uid : string) : M W string :=
  u <- storeM (UserRow tid uid) ;;
  handle <- storeM (WebAuthnHandle tid uid) ;;
  ks <- storeM (ListWebAuthnCredentials tid uid) ;;
  match wa_begin_login salt (newUser u handle (usable ks)) with
  | Err _ => throw ErrNoKeys
  | Ok r => save subject (mkCeremony purpose tid uid "" r.2) ;;; ret r.1
  end.

(** The last of the keys with the raw id; the zero value when there is none. *)
Definition key_for (raw : string) (ks : list WebAuthnCredential) : option WebAuthnCredential := last (filter (λ k, WcCredentialID k = raw) ks).
Definition finishAssertion (purpose subject tid uid response : string) : M W unit :=
  oc <- take_ceremony purpose subject tid uid ;;
  match oc with
  | None => throw ErrAssertionFailed
  | Some c =>
      match ParseAssertion response with
      | Err _ => throw ErrAssertionFailed
      | Ok parsed =>
          u <- storeM (UserRow tid uid) ;;
          handle <- storeM (WebAuthnHandle tid uid) ;;
          ks <- storeM (ListWebAuthnCredentials tid uid) ;;
          let key := key_for (AsRawID parsed) ks in
          let keyID := from_option WcID "" key in
          if negb (bool_decide (from_option WcCloneFlaggedAt None key = None)) then throw ErrKeyFlagged else
          now <- nowM ;;
          match wa_validate_login now (newUser u handle (usable ks)) (CeSession c) parsed with
          | Err _ => throw ErrAssertionFailed
          | Ok cred =>
              if CrCloneWarning cred
              then storeM (FlagWebAuthnClone now tid keyID) ;;;
                   emit (keyEvent MFACloneSuspected tid uid "refused" "counter_regression" keyID "user" [("ceremony", purpose : detail)]) ;;;
                   throw ErrKeyFlagged
              else storeM (UpdateWebAuthnUse now tid keyID (CrSignCount cred) (CrBackupState cred))
          end
      end
  end.

Definition SigninOptions (salt ref tid uid : string) : M W string := beginAssertion salt purposeSignin ref tid uid.
Definition VerifySignin (ref tid uid response : string) : M W unit := finishAssertion purposeSignin ref tid uid response.
Definition StepUpOptions (salt : string) (a : Actor) : M W string := beginAssertion salt purposeStepUp (AUserID a) (ATenantID a) (AUserID a).

Definition Rename (a : Actor) (id name : string) : M W MKey :=
  name <- lift (NormalizeName name) ;;
  r <- attempt (storeM (RenameWebAuthnCredential EqualFold (ATenantID a) (AUserID a) id name)) ;;
  match r with
  | Err e => if bool_decide (e = ErrConflict) then throw WaNameTaken else throw e
  | Ok _ =>
      ks <- storeM (ListWebAuthnCredentials (ATenantID a) (AUserID a)) ;;
      match find_first (λ k, bool_decide (WcID k = id)) ks with
      | Some k => ret (mkey_of k)
      | None => throw ErrNotFound
      end
  end.

(** failed: the policy is the default one when the tenant's cannot be read. *)
Definition lockPolicy (tid : string) : M W Policy :=
  r <- attempt (tenantPolicy tid) ;; ret (match r with Ok p => p | Err _ => DefaultPolicy end).
Definition confirmFailed (a : Actor) : M W unit :=
  pol <- lockPolicy (ATenantID a) ;;
  emit (keyEvent MFARemoved (ATenantID a) (AUserID a) "refused" "confirmation_failed" "" (kind_string (AKind a)) [("method", "webauthn" : detail)]) ;;;
  rn <- countM (RateKey "fail" (AUserID a)) (LockoutDuration pol) ;;
  let n := match rn with Ok n => n | Err _ => 0%Z end in
  if (LockoutThreshold pol <=? n)%Z
  then ignore (kvM (λ now, Lock now (AUserID a) (LockoutDuration pol))) ;;;
       emit (keyEvent Lockout (ATenantID a) (AUserID a) "refused" "mfa_failures" "" (kind_string (AKind a)) [])
  else ret tt.

(** The factor that confirms a removal. *)
Definition confirm_factor (a : Actor) (conf : Confirmation) : M W unit :=
  if negb (bool_decide (CfCode conf = "")) then MfaVerify kek unicode_upper (ATenantID a) (AUserID a) (CfCode conf) ;;; ret tt
  else if negb (bool_decide (CfCredential conf = "")) then finishAssertion purposeStepUp (AUserID a) (ATenantID a) (AUserID a) (CfCredential conf)
  else throw ErrConfirmationFailed.
Definition RemoveKey (a : Actor) (id : string) (conf : Confirmation) : M W unit :=
  g <- attempt (GuardRemoval (ATenantID a) (AUserID a) id) ;;
  match g with
  | Err e => if bool_decide (e = ErrRequired) then throw ErrLastFactor else throw e
  | Ok _ =>
      locked <- lockedM (AUserID a) ;;
      if (locked : bool) then throw ErrLocked else
      r <- attempt (confirm_factor a conf) ;;
      match r with
      | Err _ => confirmFailed a ;;; throw ErrConfirmationFailed
      | Ok _ =>
          storeM (DeleteWebAuthnCredential (ATenantID a) (AUserID a) id) ;;;
          KeyRemoved a ;;;
          emit (keyEvent MFARemoved (ATenantID a) (AUserID a) "ok" "user" id (kind_string (AKind a)) [("method", "webauthn" : detail)])
      end
  end.
End WebAuthn.
