(* ===== verification/WebAuthnSafety.v ===== *)
(** * Security keys: well-formed tables, sound assertions, lasting clone flags *)
From S2P Require Import Prelude GoStrings Base64 Utf8 Regex PermRef TenantCtx Models Password Cache Envelope AuditEvents Session MemStore SessionSafety Mfa MfaSafety Tenants Signin MemAccounts WebAuthn.
#[local] Open Scope list_scope.
#[local] Open Scope go_scope.

Create HintDb spares.
Section Frame.
Context {K : Type} {KVK : KV K} {TP : Totp} {AE : AEAD} {A2 : Argon2}.
Context (kek : string) (unicode_upper : string → string).
Notation W := (Manager Store K).
Implicit Types (w : W).

(** ** Calls that leave the keys and the drawn identifiers alone *)
Definition spares {A} (m : M W A) : Prop := ∀ w, keys (m_st (m w).2) = keys (m_st w) ∧ m_ids (m w).2 = m_ids w ∧ m_now (m w).2 = m_now w.
Definition sparesS {A} (m : M Store A) : Prop := ∀ s, keys (m s).2 = keys s.

Lemma spares_ret {A} (x : A) : spares (ret x).
Proof. done. Qed.
Lemma spares_throw {A} e : spares (throw e : M W A).
Proof. done. Qed.
Lemma spares_lift {A} (r : result A) : spares (lift r).
Proof. done. Qed.
Lemma spares_bind {A B} (m : M W A) (f : A → M W B) : spares m → (∀ x, spares (f x)) → spares (bind m f).
Proof.
  intros Hm Hf w. unfold bind. specialize (Hm w). destruct (m w) as [[x|e] w1]; [|done]. destruct Hm as (H1 & H2 & H3), (Hf x w1) as (F1 & F2 & F3).
  cbn in *. rewrite F1, F2, F3. done.
Qed.
Lemma spares_attempt {A} (m : M W A) : spares m → spares (attempt m).
Proof. intros Hm w. specialize (Hm w). unfold attempt. by destruct (m w). Qed.
Lemma spares_ignore {A} (m : M W A) : spares m → spares (ignore m).
Proof. intros Hm w. specialize (Hm w). unfold ignore. by destruct (m w). Qed.
Lemma spares_if {A} (b : bool) (m m' : M W A) : spares m → spares m' → spares (if b then m else m').
Proof. by destruct b. Qed.
Lemma spares_emit e : spares (emit e : M W unit).
Proof. done. Qed.
Lemma spares_now : spares (nowM : M W Z).
Proof. done. Qed.
Lemma spares_kvM {A} (m : Z → M K A) : spares (kvM m).
Proof. intros w. unfold kvM. destruct (m_cache w) as [k|]; [|done]. by destruct (m (m_now w) k). Qed.
Lemma spares_storeM {A} (m : M Store A) : sparesS m → spares (storeM m).
Proof. intros Hm w. unfold storeM. specialize (Hm (m_st w)). by destruct (m (m_st w)). Qed.
Lemma spares_ReadFull n : spares (ReadFull n : M W string).
Proof. intros w. unfold ReadFull, bind, RandomToken. by destruct (m_entropy w). Qed.
Lemma spares_fold {A B} (l : list A) (f : B → A → M W B) : (∀ b x, spares (f b x)) → ∀ b, spares (fold_each l b f).
Proof. intros Hf. induction l as [|x l IH]; intros b; [apply spares_ret|]. by apply spares_bind. Qed.

Lemma update_user_spares tid uid f : sparesS (update_user tid uid f).
Proof. intros s. unfold update_user. by destruct (userKey s tid uid) as [[]|]. Qed.
Lemma UserRow_spares tid uid : sparesS (UserRow tid uid).
Proof. intros s. unfold UserRow. by destruct (userByID s tid uid). Qed.
Lemma TenantRow_spares tid : sparesS (TenantRow tid).
Proof. intros s. unfold TenantRow. by destruct (Tenants s !! tid). Qed.
Lemma WebAuthnHandle_spares tid uid : sparesS (WebAuthnHandle tid uid).
Proof. intros s. unfold WebAuthnHandle. by destruct (userByID s tid uid). Qed.
Lemma EnsureWebAuthnHandle_spares tid uid c : sparesS (EnsureWebAuthnHandle tid uid c).
Proof. intros s. unfold EnsureWebAuthnHandle. destruct (userByID s tid uid); [|done]. by destruct (handles s !! _). Qed.
Lemma ListKeys_spares tid uid : sparesS (ListWebAuthnCredentials tid uid).
Proof. done. Qed.
Lemma ListCodes_spares tid uid : sparesS (ListRecoveryCodeHashes tid uid).
Proof. done. Qed.
Lemma ss_user_spares tid uid : sparesS (ss_user tid uid).
Proof. apply UserRow_spares. Qed.
Lemma ss_tenant_spares tid : sparesS (ss_tenant tid).
Proof. apply TenantRow_spares. Qed.
Lemma mf_set_mfa_spares tid uid b s : sparesS (mf_set_mfa tid uid b s).
Proof. apply update_user_spares. Qed.
Lemma mf_set_counter_spares tid uid n : sparesS (mf_set_counter tid uid n).
Proof. apply update_user_spares. Qed.
Lemma mf_replace_codes_spares tid uid l : sparesS (mf_replace_codes tid uid l).
Proof. done. Qed.
Lemma mf_list_codes_spares tid uid : sparesS (mf_list_codes tid uid).
Proof. done. Qed.
Lemma mf_list_keys_spares tid uid : sparesS (mf_list_keys tid uid).
Proof. done. Qed.
Lemma mf_use_code_spares tid uid h : sparesS (mf_use_code tid uid h).
Proof. intros s. cbn. unfold UseRecoveryCode. by destruct (mark_used _ _). Qed.
End Frame.
#[export] Hint Resolve spares_ret spares_throw spares_lift spares_bind spares_attempt spares_ignore spares_if spares_emit spares_now spares_kvM spares_storeM spares_ReadFull spares_fold
  UserRow_spares TenantRow_spares WebAuthnHandle_spares EnsureWebAuthnHandle_spares ListKeys_spares ListCodes_spares
  ss_user_spares ss_tenant_spares mf_set_mfa_spares mf_set_counter_spares mf_replace_codes_spares mf_list_codes_spares mf_list_keys_spares mf_use_code_spares : spares.

Section Factors.
Context {K : Type} {KVK : KV K} {TP : Totp} {AE : AEAD} {A2 : Argon2}.
Context (kek : string) (unicode_upper : string → string).
Notation W := (Manager Store K).

Lemma tenantPolicy_spares tid : spares (tenantPolicy tid : M W Policy).
Proof. unfold tenantPolicy. apply spares_bind; [auto with spares|]. intros t. destruct (ParsePolicy _ _) as [p []]; auto with spares. Qed.
Lemma regenerate_spares a : spares (regenerate unicode_upper a : M W (list string)).
Proof. unfold regenerate, newRecoveryCode, hashCode. auto 15 with spares. Qed.
Lemma try_hashes_spares tid uid norm l : spares (try_hashes tid uid norm l : M W string).
Proof.
  induction l as [|h l IH]; cbn; [auto with spares|]. destruct (VerifyPassword norm h) as [[[] ?]|]; try done.
  apply spares_bind; [auto with spares|]. intros []; auto with spares.
Qed.
Lemma MfaVerify_spares tid uid code : spares (MfaVerify kek unicode_upper tid uid code : M W string).
Proof.
  unfold MfaVerify. apply spares_bind; [auto with spares|]. intros [u|]; [|auto with spares]. apply spares_if; [auto with spares|]. apply spares_if.
  - assert (Hs : ∀ enc, spares (secret <- lift (Decrypt kek enc (seedAD uid)) ;; now <- nowM ;;
      match match_code now secret (TrimSpace code) with
      | None => throw ErrInvalidCode
      | Some counter => if (counter <=? UMFALastCounter u)%Z then throw ErrInvalidCode else storeM (mf_set_counter tid uid counter) ;;; ret "otp" end : M W string)).
    { intros enc. apply spares_bind; [auto with spares|]. intros sec. apply spares_bind; [auto with spares|]. intros now. destruct (match_code _ _ _); auto with spares. }
    destruct (UMFASecretEnc u) as [[|]|]; auto with spares.
  - apply spares_if; [auto with spares|]. apply spares_bind; [auto with spares|]. intros l. apply try_hashes_spares.
Qed.
Lemma KeyAdded_spares a : spares (KeyAdded unicode_upper a : M W (list string)).
Proof. unfold KeyAdded. pose proof (regenerate_spares a). auto 12 with spares. Qed.
Lemma KeyRemoved_spares a : spares (KeyRemoved a : M W unit).
Proof. unfold KeyRemoved, clear. auto 12 with spares. Qed.
Lemma GuardRemoval_spares tid uid id : spares (GuardRemoval tid uid id : M W unit).
Proof.
  unfold GuardRemoval, MfaState. pose proof (tenantPolicy_spares tid). apply spares_bind; [auto 12 with spares|]. intros st.
  destruct (find _ _); auto with spares.
Qed.
End Factors.
#[export] Hint Resolve tenantPolicy_spares MfaVerify_spares KeyAdded_spares KeyRemoved_spares GuardRemoval_spares : spares.

(** ** Key tables *)
Notation KeyTable := (gmap string (list WebAuthnCredential)).
Implicit Types (t : KeyTable) (l : list WebAuthnCredential) (k : WebAuthnCredential).

(** What no operation changes of a key. *)
Definition same_key k k' : Prop :=
  WcID k' = WcID k ∧ WcTenantID k' = WcTenantID k ∧ WcUserID k' = WcUserID k ∧ WcCredentialID k' = WcCredentialID k ∧ WcPublicKey k' = WcPublicKey k ∧ WcTransports k' = WcTransports k ∧
  (WcCloneFlaggedAt k ≠ None → WcCloneFlaggedAt k' ≠ None).
Lemma same_key_refl k : same_key k k.
Proof. done. Qed.

(** No two places of the table hold keys with the same value of [f]. *)
Definition uniq (f : WebAuthnCredential → string) t : Prop := ∀ o1 l1 i1 k1 o2 l2 i2 k2,
  t !! o1 = Some l1 → l1 !! i1 = Some k1 → t !! o2 = Some l2 → l2 !! i2 = Some k2 → f k1 = f k2 → o1 = o2 ∧ i1 = i2.
Definition key_ok (k : WebAuthnCredential) : Prop :=
  (MinCredentialID <= String.length (WcCredentialID k) <= MaxCredentialID)%nat ∧ (String.length (WcPublicKey k) <= MaxPublicKey)%nat ∧ (length (WcTransports k) <= MaxTransports)%nat.
Record TInv (ids : string → Prop) t : Prop := mkTInv {
  ti_owner : ∀ o l k, t !! o = Some l → k ∈ l → o = map_key (WcTenantID k) (WcUserID k) ∧ key_ok k ∧ ids (WcID k);
  ti_len : ∀ o l, t !! o = Some l → (length l <= MaxKeys)%nat;
  ti_cred : uniq WcCredentialID t;
  ti_id : uniq WcID t;
}.

(** A later table: each list is an earlier one with keys dropped or changed. *)
Definition emb t t' : Prop := ∀ o l', t' !! o = Some l' → ∃ l (g : nat → nat), t !! o = Some l ∧ (length l' <= length l)%nat ∧
  (∀ i j, g i = g j → i = j) ∧ ∀ i k', l' !! i = Some k' → ∃ k, l !! g i = Some k ∧ same_key k k'.
Lemma emb_refl t : emb t t.
Proof. intros o l' H. exists l', (λ i, i). split_and!; try done. intros i k' Hk. by exists k'. Qed.
Lemma emb_uniq f t t' : (∀ k k', same_key k k' → f k' = f k) → emb t t' → uniq f t → uniq f t'.
Proof.
  intros Hf He Hu o1 l1 i1 k1 o2 l2 i2 k2 T1 L1 T2 L2 E. destruct (He o1 l1 T1) as (m1 & g1 & S1 & _ & I1 & R1).
  destruct (R1 _ _ L1) as (x1 & X1 & C1). apply Hf in C1. destruct (decide (o1 = o2)) as [<-|Hne].
  - split; [done|]. rewrite T1 in T2. injection T2 as <-. destruct (R1 _ _ L2) as (x2 & X2 & C2). apply Hf in C2.
    destruct (Hu o1 m1 (g1 i1) x1 o1 m1 (g1 i2) x2) as [_ Ei]; [done..|congruence|by apply I1].
  - destruct (He o2 l2 T2) as (m2 & g2 & S2 & _ & _ & R2). destruct (R2 _ _ L2) as (x2 & X2 & C2). apply Hf in C2.
    destruct (Hu o1 m1 (g1 i1) x1 o2 m2 (g2 i2) x2) as [Eo _]; [done..|congruence|done].
Qed.
Lemma emb_TInv ids t t' : emb t t' → TInv ids t → TInv ids t'.
Proof.
  intros He [H1 H2 H3 H4]. split.
  - intros o l' k' Hl [i Hi]%list_elem_of_lookup. destruct (He o l' Hl) as (l & g & Hl0 & _ & _ & R). destruct (R i k' Hi) as (k & Hk & S1 & S2 & S3 & S4 & S5 & S6 & _).
    unfold key_ok. rewrite S1, S2, S3, S4, S5, S6. apply (H1 o l k Hl0). by apply list_elem_of_lookup_2 in Hk.
  - intros o l' Hl. destruct (He o l' Hl) as (l & g & Hl0 & Hlen & _). specialize (H2 o l Hl0). lia.
  - eapply emb_uniq; [|done..]. by intros k k' (_ & _ & _ & -> & _).
  - eapply emb_uniq; [|done..]. by intros k k' (-> & _).
Qed.
Lemma emb_insert t o l l' (g : nat → nat) : t !! o = Some l → (length l' <= length l)%nat → (∀ i j, g i = g j → i = j) →
  (∀ i k', l' !! i = Some k' → ∃ k, l !! g i = Some k ∧ same_key k k') → emb t (<[o := l']> t).
Proof.
  intros Hl Hlen Hg Hr o' x Hx. destruct (decide (o' = o)) as [->|Hne].
  - rewrite lookup_insert_eq in Hx. injection Hx as <-. by exists l, g.
  - rewrite lookup_insert_ne in Hx by congruence. by apply (emb_refl t o').
Qed.

Lemma change_key_lookup id f l i k' : (∀ k, same_key k (f k)) → change_key id f l !! i = Some k' → ∃ k, l !! i = Some k ∧ same_key k k' ∧ (k' = k ∨ WcID k = id ∧ k' = f k).
Proof.
  intros Hf. revert i. induction l as [|k l IH]; intros i; [done|]. cbn [change_key]. case_bool_decide as E.
  - destruct i as [|i]; cbn; [|exists k'; split_and!; auto using same_key_refl]. intros [= <-]. exists k. split_and!; auto.
  - destruct i as [|i]; cbn; [intros [= <-]; exists k; split_and!; auto using same_key_refl|apply IH].
Qed.
Lemma change_key_length id f l : length (change_key id f l) = length l.
Proof. induction l as [|k l IH]; [done|]. cbn. case_bool_decide; cbn; congruence. Qed.
Lemma change_emb t o l id f : t !! o = Some l → (∀ k, same_key k (f k)) → emb t (<[o := change_key id f l]> t).
Proof.
  intros Hl Hf. apply (emb_insert t o l _ (λ i, i)); [done|by rewrite change_key_length|done|].
  intros i k' Hk. destruct (change_key_lookup id f l i k' Hf Hk) as (k & H1 & H2 & _). eauto.
Qed.
Lemma delete_key_index id l : delete_key id l = l ∨ ∃ n, delete_key id l = delete n l ∧ (n < length l)%nat.
Proof.
  induction l as [|k l IH]; [by left|]. cbn. case_bool_decide as E; [right; exists 0%nat; split; [done|cbn; lia]|].
  destruct IH as [->|(n & -> & Hn)]; [by left|right; exists (S n); split; [done|cbn; lia]].
Qed.
Lemma delete_emb t o l id : t !! o = Some l → emb t (<[o := delete_key id l]> t).
Proof.
  intros Hl. destruct (delete_key_index id l) as [->|(n & -> & Hn)].
  - rewrite insert_id by done. apply emb_refl.
  - apply (emb_insert t o l _ (λ i, if decide (i < n)%nat then i else S i)); [done|rewrite length_delete; [lia|by apply lookup_lt_is_Some_2]| |].
    + intros i j. repeat case_decide; lia.
    + intros i k' Hk. exists k'. split; [|apply same_key_refl]. by rewrite list_lookup_delete in Hk.
Qed.
Lemma drop_emb t o : emb t (delete o t).
Proof. intros o' l' H. apply lookup_delete_Some in H as [_ H]. by apply (emb_refl t o'). Qed.

(** ** A new key *)
Lemma uniq_append f t o k : uniq f t → (∀ o l k', t !! o = Some l → k' ∈ l → f k' ≠ f k) → uniq f (<[o := default [] (t !! o) ++ [k]]> t).
Proof.
  intros Hu Hnew.
  assert (Hold : ∀ o1 l1 i1 k1, <[o := default [] (t !! o) ++ [k]]> t !! o1 = Some l1 → l1 !! i1 = Some k1 →
    (∃ l, t !! o1 = Some l ∧ l !! i1 = Some k1) ∨ o1 = o ∧ i1 = length (default [] (t !! o)) ∧ k1 = k).
  { intros o1 l1 i1 k1 T L. destruct (decide (o1 = o)) as [->|Hne]; [|rewrite lookup_insert_ne in T by congruence; left; eauto].
    rewrite lookup_insert_eq in T. injection T as <-. apply lookup_app_Some in L as [L|[Hle L]].
    - left. destruct (t !! o) as [l|]; [by exists l|done].
    - right. apply list_lookup_singleton_Some in L as [Ei <-]. split_and!; [done|lia|done]. }
  intros o1 l1 i1 k1 o2 l2 i2 k2 T1 L1 T2 L2 E.
  destruct (Hold _ _ _ _ T1 L1) as [(m1 & A1 & B1)|(-> & -> & ->)], (Hold _ _ _ _ T2 L2) as [(m2 & A2 & B2)|(-> & -> & ->)].
  - by apply (Hu o1 m1 i1 k1 o2 m2 i2 k2).
  - exfalso. by apply (Hnew o1 m1 k1 A1); [by apply list_elem_of_lookup_2 in B1|].
  - exfalso. apply (Hnew o2 m2 k2 A2); [by apply list_elem_of_lookup_2 in B2|done].
  - done.
Qed.
Lemma append_TInv (ids ids' : string → Prop) t o k : TInv ids t → (∀ x, ids x → ids' x) → ids' (WcID k) → ¬ ids (WcID k) → o = map_key (WcTenantID k) (WcUserID k) → key_ok k →
  (length (default [] (t !! o)) < MaxKeys)%nat → (∀ o l k', t !! o = Some l → k' ∈ l → WcCredentialID k' ≠ WcCredentialID k) →
  TInv ids' (<[o := default [] (t !! o) ++ [k]]> t).
Proof.
  intros [H1 H2 H3 H4] Hsub Hid Hfresh Ho Hk Hlen Hnew. split.
  - intros o' l k' T Hin. destruct (decide (o' = o)) as [->|Hne].
    + rewrite lookup_insert_eq in T. injection T as <-. apply elem_of_app in Hin as [Hin| ->%list_elem_of_singleton]; [|done].
      destruct (t !! o) as [l|] eqn:Et; [|by apply elem_of_nil in Hin]. destruct (H1 o l k' Et Hin) as (E1 & E2 & E3). auto.
    + rewrite lookup_insert_ne in T by congruence. destruct (H1 o' l k' T Hin) as (E1 & E2 & E3). auto.
  - intros o' l T. destruct (decide (o' = o)) as [->|Hne]; [|rewrite lookup_insert_ne in T by congruence; eauto].
    rewrite lookup_insert_eq in T. injection T as <-. rewrite length_app. cbn. lia.
  - by apply uniq_append.
  - apply uniq_append; [done|]. intros o' l k' T Hin E. apply Hfresh. rewrite <- E. by apply (H1 o' l k').
Qed.

(** ** Names *)
Section Names.
Context (EqualFold : string → string → bool) (Hsym : ∀ a b, EqualFold a b = EqualFold b a).
Definition distinct l : Prop := ∀ i j ki kj, i ≠ j → l !! i = Some ki → l !! j = Some kj → EqualFold (WcName ki) (WcName kj) = false.
Definition names_ok t : Prop := ∀ o l, t !! o = Some l → distinct l.

Lemma names_insert t o l : names_ok t → distinct l → names_ok (<[o := l]> t).
Proof. intros Hn Hl o' l' T. destruct (decide (o' = o)) as [->|Hne]; [rewrite lookup_insert_eq in T; by injection T as <-|rewrite lookup_insert_ne in T by congruence; eauto]. Qed.
Lemma distinct_map l l' (g : nat → nat) : (∀ i j, g i = g j → i = j) → (∀ i k', l' !! i = Some k' → ∃ k, l !! g i = Some k ∧ WcName k' = WcName k) → distinct l → distinct l'.
Proof.
  intros Hg Hr Hd i j ki kj Hne Hi Hj. destruct (Hr i ki Hi) as (k1 & H1 & ->), (Hr j kj Hj) as (k2 & H2 & ->). apply (Hd (g i) (g j)); [|done..].
  intros E. by apply Hne, Hg.
Qed.
Lemma distinct_change id f l : (∀ k, WcName (f k) = WcName k) → distinct l → distinct (change_key id f l).
Proof.
  intros Hf. apply (distinct_map l _ (λ i, i)); [done|]. intros i k'. revert i. induction l as [|k l IH]; intros i; [done|]. cbn [change_key].
  case_bool_decide; destruct i as [|i]; cbn; [intros [= <-]; eauto|eauto|intros [= <-]; eauto|apply IH].
Qed.
Lemma distinct_delete id l : distinct l → distinct (delete_key id l).
Proof.
  destruct (delete_key_index id l) as [->|(n & -> & Hn)]; [done|]. apply (distinct_map l _ (λ i, if decide (i < n)%nat then i else S i)).
  - intros i j. repeat case_decide; lia.
  - intros i k' Hk. rewrite list_lookup_delete in Hk. eauto.
Qed.
Lemma distinct_append l k : distinct l → (∀ k', k' ∈ l → EqualFold (WcName k') (WcName k) = false) → distinct (l ++ [k]).
Proof using Hsym.
  intros Hd Hn i j ki kj Hne Hi Hj. apply lookup_app_Some in Hi as [Hi|[Li Hi]], Hj as [Hj|[Lj Hj]].
  - by apply (Hd i j).
  - apply list_lookup_singleton_Some in Hj as [_ <-]. apply Hn. by apply list_elem_of_lookup_2 in Hi.
  - apply list_lookup_singleton_Some in Hi as [_ <-]. rewrite Hsym. apply Hn. by apply list_elem_of_lookup_2 in Hj.
  - apply list_lookup_singleton_Some in Hi as [Ei _], Hj as [Ej _]. lia.
Qed.
Lemma distinct_rename id name l : (∀ i j ki kj, l !! i = Some ki → l !! j = Some kj → WcID ki = WcID kj → i = j) →
  (∀ k, k ∈ l → WcID k ≠ id → EqualFold (WcName k) name = false) → distinct l → distinct (change_key id (renamed name) l).
Proof using Hsym.
  intros Hu Hn Hd i j ki kj Hne Hi Hj.
  destruct (change_key_lookup id (renamed name) l i ki ltac:(done) Hi) as (k1 & L1 & _ & C1), (change_key_lookup id (renamed name) l j kj ltac:(done) Hj) as (k2 & L2 & _ & C2).
  assert (Hother : ∀ x y kx ky, x ≠ y → l !! x = Some kx → l !! y = Some ky → WcID kx = id → EqualFold (WcName ky) name = false).
  { intros x y kx ky Hxy Lx Ly Ex. apply Hn; [by apply list_elem_of_lookup_2 in Ly|]. intros Ey. apply Hxy. apply (Hu x y kx ky); congruence. }
  destruct C1 as [->|[E1 ->]], C2 as [->|[E2 ->]]; cbn [renamed WcName].
  - by apply (Hd i j).
  - by apply (Hother j i k2 k1).
  - rewrite Hsym. by apply (Hother i j k1 k2).
  - exfalso. apply Hne. apply (Hu i j k1 k2); congruence.
Qed.
End Names.

(** ** Every operation keeps the tables well formed *)
Section KeyInvariant.
Context {K : Type} {KVK : KV K} {TP : Totp} {AE : AEAD} {A2 : Argon2} {WA : WebAuthnLib}.
Context (kek : string) (unicode_upper : string → string) (newID : nat → string) (EqualFold : string → string → bool) (ttl : Z) (uuid_text : string → string).
Context (Hinj : Inj (=) (=) newID) (Hsym : ∀ a b, EqualFold a b = EqualFold b a).
Notation W := (Manager Store K).
Implicit Types (w : W).

Definition drawn w (x : string) : Prop := ∃ n, (n < m_ids w)%nat ∧ x = newID n.
Definition KInv w : Prop := TInv (drawn w) (keys (m_st w)) ∧ names_ok EqualFold (keys (m_st w)).
(** Every key of [w'] comes from one of [w] or has an identifier drawn since. *)
Definition from_old w w' : Prop := ∀ o l' k', keys (m_st w') !! o = Some l' → k' ∈ l' →
  (∃ l k, keys (m_st w) !! o = Some l ∧ k ∈ l ∧ same_key k k') ∨ ¬ drawn w (WcID k').
Definition safe w w' : Prop := KInv w → KInv w' ∧ (m_ids w <= m_ids w')%nat ∧ from_old w w'.
Definition Safe {A} (m : M W A) : Prop := ∀ w, safe w (m w).2.

Lemma same_key_trans k1 k2 k3 : same_key k1 k2 → same_key k2 k3 → same_key k1 k3.
Proof. unfold same_key. intros (? & ? & ? & ? & ? & ? & ?) (? & ? & ? & ? & ? & ? & ?). split_and!; try congruence. tauto. Qed.
Lemma safe_trans w1 w2 w3 : safe w1 w2 → safe w2 w3 → safe w1 w3.
Proof.
  intros H1 H2 HI. destruct (H1 HI) as (I2 & L2 & F2). destruct (H2 I2) as (I3 & L3 & F3). split_and!; [done|lia|].
  intros o l' k' T Hin. destruct (F3 o l' k' T Hin) as [(l & k & Hl & Hk & Hs)|Hn].
  - destruct (F2 o l k Hl Hk) as [(l0 & k0 & Hl0 & Hk0 & Hs0)|Hn]; [left; exists l0, k0; split_and!; [done..|by eapply same_key_trans]|right].
    by destruct Hs as [-> _].
  - right. intros (n & Hn1 & Hn2). apply Hn. exists n. split; [lia|done].
Qed.
Lemma safe_same w w' : keys (m_st w') = keys (m_st w) → m_ids w' = m_ids w → safe w w'.
Proof.
  intros Ek Ei [H1 H2]. unfold KInv, drawn, from_old. rewrite Ek, Ei. split_and!; try done. intros o l' k' T Hin. left. exists l', k'. split_and!; auto using same_key_refl.
Qed.
Lemma safe_ids w w' : keys (m_st w') = keys (m_st w) → (m_ids w <= m_ids w')%nat → safe w w'.
Proof.
  intros Ek Ei [[H1 H2 H3 H4] HN]. unfold KInv, from_old. rewrite Ek. split_and!; [split|..]; try done.
  - intros o l k Hl Hk. destruct (H1 o l k Hl Hk) as (? & ? & n & Hn & ->). split_and!; try done. exists n. split; [lia|done].
  - intros o l' k' T Hin. left. exists l', k'. split_and!; auto using same_key_refl.
Qed.
Lemma Safe_spares {A} (m : M W A) : spares m → Safe m.
Proof. intros Hm w. destruct (Hm w) as (H1 & H2 & _). by apply safe_same. Qed.
Lemma Safe_bind {A B} (m : M W A) (f : A → M W B) : Safe m → (∀ x, Safe (f x)) → Safe (bind m f).
Proof. intros Hm Hf w. unfold bind. specialize (Hm w). destruct (m w) as [[x|e] w1]; [|done]. eapply safe_trans; [exact Hm|apply Hf]. Qed.
Lemma Safe_attempt {A} (m : M W A) : Safe m → Safe (attempt m).
Proof. intros Hm w. specialize (Hm w). unfold attempt. by destruct (m w). Qed.
Lemma Safe_if {A} (b : bool) (m m' : M W A) : Safe m → Safe m' → Safe (if b then m else m').
Proof. by destruct b. Qed.

(** Changes of the table that keep it well formed. *)
Lemma safe_emb w w' : (KInv w → emb (keys (m_st w)) (keys (m_st w')) ∧ names_ok EqualFold (keys (m_st w'))) → m_ids w' = m_ids w → safe w w'.
Proof.
  intros He Ei HI. destruct (He HI) as [E1 E2]. destruct HI as [H1 H2]. split_and!; [split; [|done]|lia|].
  - unfold drawn. rewrite Ei. by eapply emb_TInv.
  - intros o l' k' T [i Hi]%list_elem_of_lookup. left. destruct (E1 o l' T) as (l & g & Hl & _ & _ & R). destruct (R i k' Hi) as (k & Hk & Hs).
    exists l, k. split_and!; [done|by apply list_elem_of_lookup_2 in Hk|done].
Qed.
Lemma Safe_store {A} (m : M Store A) : (∀ s (P : string → Prop), TInv P (keys s) → names_ok EqualFold (keys s) → emb (keys s) (keys (m s).2) ∧ names_ok EqualFold (keys (m s).2)) → Safe (storeM m).
Proof. intros Hm w. unfold storeM. specialize (Hm (m_st w) (drawn w)). destruct (m (m_st w)) as [r s']. apply safe_emb; [|done]. intros [H1 H2]. by apply Hm. Qed.

Lemma updateKey_run tid uid id f s r s' : updateKey tid uid id f s = (r, s') →
  (r = Err ErrNotFound ∧ s' = s ∧ ∀ o l, keys s !! o = Some l → owner_in tid uid o = true → has_key id l = false) ∨
  ∃ o l, r = Ok tt ∧ keys s !! o = Some l ∧ owner_in tid uid o = true ∧ has_key id l = true ∧ s' = set_wkeys s (<[o := change_key id f l]> (keys s)).
Proof.
  unfold updateKey. destruct (find_first _ _) as [[o l]|] eqn:E; intros [= <- <-].
  - right. apply find_first_Some in E as [Hin%elem_of_map_to_list [Ho Hh]%andb_true_iff]. cbn in Ho, Hh. by exists o, l.
  - left. split_and!; [done..|]. intros o l Hl Ho. apply elem_of_map_to_list in Hl. eapply find_first_None in E; [|exact Hl]. cbn in E. by rewrite Ho in E.
Qed.
Lemma used_same now n b k : same_key k (used now n b k).
Proof. done. Qed.
Lemma flagged_same now k : same_key k (flagged now k).
Proof. unfold flagged. destruct (WcCloneFlaggedAt k) eqn:E; [apply same_key_refl|]. unfold same_key. cbn. by rewrite E. Qed.
Lemma Safe_update tid uid id f : (∀ k, same_key k (f k)) → (∀ k, WcName (f k) = WcName k) → Safe (storeM (updateKey tid uid id f)).
Proof.
  intros Hs Hn. apply Safe_store. intros s P HT HN. destruct (updateKey tid uid id f s) as [r s'] eqn:E. cbn [snd].
  apply updateKey_run in E as [(_ & -> & _)|(o & l & _ & Hl & _ & _ & ->)]; [split; [apply emb_refl|done]|]. cbn [keys set_wkeys].
  split; [by apply change_emb|]. apply names_insert; [done|]. apply distinct_change; [done|]. by apply (HN o).
Qed.
Lemma Safe_use now tid id n b : Safe (storeM (UpdateWebAuthnUse now tid id n b)).
Proof. apply Safe_update; [apply used_same|done]. Qed.
Lemma Safe_flag now tid id : Safe (storeM (FlagWebAuthnClone now tid id)).
Proof. apply Safe_update; [apply flagged_same|]. intros k. unfold flagged. by destruct (WcCloneFlaggedAt k). Qed.
Lemma Safe_delete tid uid id : Safe (storeM (DeleteWebAuthnCredential tid uid id)).
Proof.
  apply Safe_store. intros s P HT HN. unfold DeleteWebAuthnCredential. destruct (existsb _ _) eqn:E; [|split; [apply emb_refl|done]]. cbn [snd keys set_wkeys].
  unfold keysOf in *. destruct (keys s !! map_key tid uid) as [l|] eqn:El; [|done]. cbn [default from_option]. split; [by apply delete_emb|]. apply names_insert; [done|]. by apply distinct_delete, (HN (map_key tid uid)).
Qed.
Lemma Safe_rename tid uid id name : uid ≠ "" → Safe (storeM (RenameWebAuthnCredential EqualFold tid uid id name)).
Proof.
  intros Hne. apply Safe_store. intros s P HT HN. unfold RenameWebAuthnCredential. destruct (existsb _ _) eqn:Ex; [split; [apply emb_refl|done]|].
  destruct (updateKey tid uid id (renamed name) s) as [r s'] eqn:E. cbn [snd].
  apply updateKey_run in E as [(_ & -> & _)|(o & l & _ & Hl & Ho & _ & ->)]; [split; [apply emb_refl|done]|]. cbn [keys set_wkeys].
  split; [by apply change_emb|]. apply names_insert; [done|]. apply andb_true_iff in Ho as [_ Ho]. rewrite (bool_decide_eq_false_2 _ Hne) in Ho. apply bool_decide_eq_true in Ho as ->.
  unfold keysOf in Ex. rewrite Hl in Ex. cbn [default from_option] in Ex. apply distinct_rename; [done| | |by apply (HN (map_key tid uid))].
  - intros i j ki kj Hi Hj Ei. apply (ti_id _ _ HT _ _ _ _ _ _ _ _ Hl Hi Hl Hj Ei).
  - intros k Hk Hid. apply not_true_is_false. intros Ef. apply (not_true_iff_false (existsb _ _)) in Ex. apply Ex. apply existsb_exists. exists k. split; [by apply list_elem_of_In|].
    rewrite (bool_decide_eq_false_2 _ Hid). done.
Qed.

(** *** The operations *)
Lemma take_spares purpose subject tid uid : spares (take_ceremony purpose subject tid uid : M W (option ceremony)).
Proof. unfold take_ceremony. auto with spares. Qed.
Lemma save_spares subject c : spares (save ttl subject c : M W unit).
Proof. unfold save. auto with spares. Qed.
Lemma Safe_begin_registration salt a name : Safe (BeginRegistration EqualFold ttl salt a name).
Proof. apply Safe_spares. unfold BeginRegistration. pose proof save_spares. auto 20 with spares. Qed.
Lemma Safe_begin_assertion salt purpose subject tid uid : Safe (beginAssertion ttl salt purpose subject tid uid).
Proof.
  apply Safe_spares. unfold beginAssertion. pose proof save_spares. do 3 (apply spares_bind; [auto with spares|]; intros ?). destruct (wa_begin_login _ _); auto with spares.
Qed.
Lemma Safe_finish purpose subject tid uid response : Safe (finishAssertion purpose subject tid uid response).
Proof.
  unfold finishAssertion. apply Safe_bind; [apply Safe_spares, take_spares|]. intros [c|]; [|by apply Safe_spares].
  destruct (ParseAssertion response) as [parsed|]; [|by apply Safe_spares]. do 3 (apply Safe_bind; [apply Safe_spares; auto with spares|]; intros ?). cbv zeta.
  apply Safe_if; [by apply Safe_spares|]. apply Safe_bind; [by apply Safe_spares|]. intros now. destruct (wa_validate_login _ _ _ _) as [cred|]; [|by apply Safe_spares].
  apply Safe_if; [|apply Safe_use]. apply Safe_bind; [apply Safe_flag|]. intros _. by apply Safe_spares.
Qed.
Lemma Safe_renameKey a id name : AUserID a ≠ "" → Safe (Rename EqualFold a id name).
Proof.
  intros Hne. unfold Rename. apply Safe_bind; [by apply Safe_spares|]. intros nm. apply Safe_bind; [by apply Safe_attempt, Safe_rename|].
  intros [|]; apply Safe_spares; [|auto with spares]. apply spares_bind; [auto with spares|]. intros ks. destruct (find_first _ _); auto with spares.
Qed.
Lemma Safe_remove a id conf : Safe (RemoveKey kek unicode_upper a id conf).
Proof.
  unfold RemoveKey. apply Safe_bind; [apply Safe_spares; auto with spares|]. intros [|]; [|apply Safe_spares; auto with spares].
  apply Safe_bind; [apply Safe_spares; unfold lockedM; auto with spares|]. intros locked. apply Safe_if; [by apply Safe_spares|].
  apply Safe_bind.
  - apply Safe_attempt. unfold confirm_factor. apply Safe_if; [apply Safe_spares; auto with spares|]. apply Safe_if; [apply Safe_finish|by apply Safe_spares].
  - intros [|].
    + apply Safe_bind; [apply Safe_delete|]. intros _. apply Safe_spares. auto with spares.
    + apply Safe_spares. unfold confirmFailed, lockPolicy, countM. auto 20 with spares.
Qed.
(** A registration: the key goes into a list that is not full, under a fresh
    identifier. *)
Lemma not_drawn w : ¬ drawn w (newID (m_ids w)).
Proof. intros (n & Hn & E). apply (inj newID) in E. lia. Qed.
Lemma safe_append w w' k : keys (m_st w') = <[map_key (WcTenantID k) (WcUserID k) := keysOf (m_st w) (WcTenantID k) (WcUserID k) ++ [k]]> (keys (m_st w)) →
  m_ids w' = S (m_ids w) → WcID k = newID (m_ids w) → key_ok k → (length (keysOf (m_st w) (WcTenantID k) (WcUserID k)) < MaxKeys)%nat →
  existsb (λ x, bool_decide (WcCredentialID x = WcCredentialID k)) (concat (values (keys (m_st w)))) = false →
  existsb (λ x, EqualFold (WcName x) (WcName k)) (keysOf (m_st w) (WcTenantID k) (WcUserID k)) = false → safe w w'.
Proof.
  intros Ek Ei Hid Hok Hlen Hc Hn [HT HN]. unfold keysOf in *. set (o := map_key _ _) in *.
  assert (Hnew : ∀ o' l x, keys (m_st w) !! o' = Some l → x ∈ l → WcCredentialID x ≠ WcCredentialID k).
  { intros o' l x Hl Hx Ex. apply not_true_iff_false in Hc. apply Hc. apply existsb_exists. exists x. split; [|by rewrite bool_decide_eq_true_2].
    apply in_concat. exists l. split; apply list_elem_of_In; [|done]. apply elem_of_values. by exists o'. }
  split_and!; [split| |].
  - rewrite Ek. apply (append_TInv (drawn w)); try done.
    + intros x (n & Hn1 & ->). exists n. split; [lia|done].
    + exists (m_ids w). split; [lia|done].
    + rewrite Hid. apply not_drawn.
  - rewrite Ek. apply names_insert; [done|]. apply distinct_append; [done| |].
    + destruct (keys (m_st w) !! o) as [l|] eqn:El; [by apply (HN o)|]. intros i j ki kj _ Hi. cbn in Hi. by rewrite lookup_nil in Hi.
    + intros x Hx. apply not_true_iff_false. intros Ef. apply not_true_iff_false in Hn. apply Hn. apply existsb_exists. exists x. split; [by apply list_elem_of_In|done].
  - lia.
  - intros o' l' k' T Hin. rewrite Ek in T. destruct (decide (o' = o)) as [->|Hne].
    + rewrite lookup_insert_eq in T. injection T as <-. apply elem_of_app in Hin as [Hin| ->%list_elem_of_singleton]; [|right; rewrite Hid; apply not_drawn].
      left. destruct (keys (m_st w) !! o) as [l|]; [|by apply elem_of_nil in Hin]. exists l, k'. split_and!; auto using same_key_refl.
    + rewrite lookup_insert_ne in T by congruence. left. exists l', k'. split_and!; auto using same_key_refl.
Qed.

Lemma safe_bind_at {A B} (m : M W A) (f : A → M W B) w : spares m →
  (∀ x w1, m w = (Ok x, w1) → keys (m_st w1) = keys (m_st w) → m_ids w1 = m_ids w → safe w1 (f x w1).2) → safe w (bind m f w).2.
Proof.
  intros Hm Hf. unfold bind. destruct (Hm w) as (H1 & H2 & _). destruct (m w) as [[x|e] w1] eqn:E; cbn [snd] in *.
  - eapply safe_trans; [by apply safe_same|]. by apply Hf.
  - by apply safe_same.
Qed.
Lemma Safe_finish_registration a response : Safe (FinishRegistration unicode_upper newID EqualFold uuid_text a response).
Proof.
  intros w. unfold FinishRegistration. apply safe_bind_at; [apply take_spares|]. intros [c|] w1 _ _ _; [|by apply safe_same].
  destruct (ParseCreation response) as [parsed|]; [|by apply safe_same].
  apply safe_bind_at; [auto with spares|]. intros u w2 _ _ _. apply safe_bind_at; [auto with spares|]. intros h w3 _ _ _.
  apply safe_bind_at; [auto with spares|]. intros ks w4 Eks Ek4 _. apply safe_bind_at; [done|]. intros now w5 _ Ek5 _.
  assert (Hks : ks = keysOf (m_st w5) (ATenantID a) (AUserID a)). { injection Eks as <- _. unfold keysOf. by rewrite Ek5, Ek4. } clear Eks Ek4 Ek5.
  destruct (wa_create_credential _ _ _ _) as [cred|]; [|by apply safe_same]. cbv zeta. destruct (_ || _) eqn:Esz; [by apply safe_same|].
  destruct (MaxKeys <=? length ks)%nat eqn:El; [by apply safe_same|]. apply Nat.leb_gt in El. subst ks.
  unfold bind at 1, NewID. cbn beta iota. set (w6 := mkManager _ _ _ _ _ _). set (row := mkCredential _ _ _ _ _ _ _ _ _ _ _ _ _ _).
  unfold bind at 1, attempt, storeM at 1, InsertWebAuthnCredential. change (m_st w6) with (m_st w5).
  destruct (existsb _ (concat _)) eqn:Ec; [apply safe_ids; repeat case_bool_decide; try done; subst w6; cbn; lia|].
  destruct (existsb _ (keysOf _ _ _)) eqn:En; [apply safe_ids; repeat case_bool_decide; try done; subst w6; cbn; lia|]. cbn beta iota.
  set (w7 := mkManager _ _ _ _ _ _). apply (safe_trans w5 w7).
  - apply orb_false_iff in Esz as [[[S1%Nat.ltb_ge S2%Nat.ltb_ge]%orb_false_iff S3%Nat.ltb_ge]%orb_false_iff S4%Nat.ltb_ge].
    apply (safe_append w5 w7 (credential_at now row)); done.
  - eapply Safe_bind; [apply Safe_spares; auto with spares|]. intros codes. by apply Safe_spares.
Qed.

(** *** Histories *)
(** The operations of the service, the reset of a user's factors by an
    administrator, and anything that leaves the keys alone. *)
Inductive kstep : W → W → Prop :=
  | ks_begin w salt a name : kstep w (BeginRegistration EqualFold ttl salt a name w).2
  | ks_register w a response : kstep w (FinishRegistration unicode_upper newID EqualFold uuid_text a response w).2
  | ks_options w salt purpose subject tid uid : kstep w (beginAssertion ttl salt purpose subject tid uid w).2
  | ks_assert w purpose subject tid uid response : kstep w (finishAssertion purpose subject tid uid response w).2
  | ks_rename w a id name : AUserID a ≠ "" → kstep w (Rename EqualFold a id name w).2
  | ks_remove w a id conf : kstep w (RemoveKey kek unicode_upper a id conf w).2
  | ks_reset w tid uid : kstep w (storeM (ResetMFA tid uid) w).2
  | ks_other w w' : keys (m_st w') = keys (m_st w) → (m_ids w <= m_ids w')%nat → kstep w w'.

Lemma Safe_reset tid uid : Safe (storeM (ResetMFA tid uid)).
Proof.
  apply Safe_store. intros s P HT HN. unfold ResetMFA. destruct (userKey s tid uid) as [[k u]|]; [|split; [apply emb_refl|done]]. cbn [snd keys set_wkeys set_Codes set_Users].
  split; [apply drop_emb|]. intros o l [_ Hl]%lookup_delete_Some. by apply (HN o).
Qed.
Lemma kstep_safe w w' : kstep w w' → safe w w'.
Proof.
  intros []; [apply Safe_begin_registration|apply Safe_finish_registration|apply Safe_begin_assertion|apply Safe_finish|by apply Safe_renameKey|apply Safe_remove|apply Safe_reset|by apply safe_ids].
Qed.
Lemma ksteps_safe w w' : rtc kstep w w' → safe w w'.
Proof. induction 1 as [w|w1 w2 w3 Hs _ IH]; [by apply safe_same|]. eapply safe_trans; [by apply kstep_safe|done]. Qed.

Lemma KInv_empty w : keys (m_st w) = ∅ → KInv w.
Proof.
  intros H0. unfold KInv, names_ok. rewrite H0. split; [split|]; try (intros ? ? ?; by rewrite lookup_empty); try (intros ? ?; by rewrite lookup_empty); intros ? ? ? ? ? ? ? ? E; by rewrite lookup_empty in E.
Qed.

(** C21. Starting without keys, whatever is registered, used, renamed, removed or
    reset, a user has at most ten keys with names that differ beyond case, every
    key is kept under its owner with an id and material inside the limits, and
    no credential is registered twice, by anyone. *)
Theorem key_tables_wellformed w0 w : keys (m_st w0) = ∅ → rtc kstep w0 w →
  (∀ tid uid, let ks := keysOf (m_st w) tid uid in (length ks <= 10)%nat ∧ distinct EqualFold ks ∧
     ∀ k, k ∈ ks → map_key (WcTenantID k) (WcUserID k) = map_key tid uid ∧ key_ok k) ∧
  ∀ tid uid tid' uid' i j k k', keysOf (m_st w) tid uid !! i = Some k → keysOf (m_st w) tid' uid' !! j = Some k' →
    (WcCredentialID k = WcCredentialID k' ∨ WcID k = WcID k') → map_key tid uid = map_key tid' uid' ∧ i = j.
Proof.
  intros H0 Hr. destruct (ksteps_safe w0 w Hr (KInv_empty w0 H0)) as ([[H1 H2 H3 H4] HN] & _ & _).
  split.
  - intros tid uid ks. subst ks. unfold keysOf. destruct (keys (m_st w) !! map_key tid uid) as [l|] eqn:El; cbn [default from_option id].
    + split_and!; [by apply (H2 _ l El)|by apply (HN _ l El)|]. intros k Hk. destruct (H1 _ l k El Hk) as (-> & ? & _). done.
    + split_and!; [cbn; lia|intros i j ki kj _ Hi; cbn in Hi; by rewrite lookup_nil in Hi|]. intros k Hk. by apply elem_of_nil in Hk.
  - unfold keysOf. intros tid uid tid' uid' i j k k' Hi Hj Hor.
    destruct (keys (m_st w) !! map_key tid uid) as [l|] eqn:El; [|done]. destruct (keys (m_st w) !! map_key tid' uid') as [l'|] eqn:El'; [|done].
    destruct Hor as [E|E]; [by apply (H3 _ l i k _ l' j k')|by apply (H4 _ l i k _ l' j k')].
Qed.

(** A key marked as possibly cloned stays marked for as long as it is there:
    no later operation, by whoever, clears the mark. *)
Theorem clone_flag_kept w0 w w' tid uid k k' : keys (m_st w0) = ∅ → rtc kstep w0 w → rtc kstep w w' →
  k ∈ keysOf (m_st w) tid uid → WcCloneFlaggedAt k ≠ None → (∃ tid' uid', k' ∈ keysOf (m_st w') tid' uid') → WcID k' = WcID k → WcCloneFlaggedAt k' ≠ None.
Proof.
  intros H0 Hr Hr' Hk Hf (tid' & uid' & Hk') Eid. destruct (ksteps_safe w0 w Hr (KInv_empty w0 H0)) as (HI & _ & _). destruct (ksteps_safe w w' Hr' HI) as (_ & _ & Hold).
  destruct HI as [[H1 _ _ H4] _]. unfold keysOf in Hk, Hk'. destruct (keys (m_st w) !! map_key tid uid) as [l|] eqn:El; [|by apply elem_of_nil in Hk].
  destruct (keys (m_st w') !! map_key tid' uid') as [l'|] eqn:El'; [|by apply elem_of_nil in Hk']. destruct (Hold _ l' k' El' Hk') as [(l0 & k0 & Hl0 & Hk0 & Hs)|Hn].
  - change (k ∈ l) in Hk. apply list_elem_of_lookup in Hk as [i Hi], Hk0 as [j Hj]. assert (E0 : WcID k = WcID k0) by (destruct Hs as [Eid0 _]; congruence).
    destruct (H4 _ l i k _ l0 j k0 El Hi Hl0 Hj E0) as [Eo <-].
    rewrite <- Eo, El in Hl0. injection Hl0 as ->. rewrite Hi in Hj. injection Hj as ->. by apply Hs.
  - destruct Hn. rewrite Eid. by apply (H1 _ l k El Hk).
Qed.
End KeyInvariant.

(** ** Assertions *)
Lemma prefix_app_self (a b : string) : String.prefix a (a +:+ b) = true.
Proof. induction a as [|c a IH]; cbn; [by destruct b|]. destruct (ascii_dec c c); [done|congruence]. Qed.
Lemma has_key_iff id l : has_key id l = true ↔ ∃ k, k ∈ l ∧ WcID k = id.
Proof.
  unfold has_key. rewrite existsb_exists. split; intros (k & Hk & E); exists k.
  - apply bool_decide_eq_true in E. by apply list_elem_of_In in Hk.
  - rewrite bool_decide_eq_true_2 by done. by apply list_elem_of_In in Hk.
Qed.
(** An update of one of the user's keys finds it there. *)
Lemma updateKey_own P s tid uid l k f : TInv P (keys s) → keys s !! map_key tid uid = Some l → k ∈ l →
  updateKey tid "" (WcID k) f s = (Ok tt, set_wkeys s (<[map_key tid uid := change_key (WcID k) f l]> (keys s))).
Proof.
  intros [_ _ _ Hid] Hl Hk. assert (Ho : owner_in tid "" (map_key tid uid) = true).
  { unfold owner_in, map_key. replace (tid +:+ "/" +:+ uid) with ((tid +:+ "/") +:+ uid) by apply str_app_assoc. by rewrite prefix_app_self. }
  destruct (updateKey tid "" (WcID k) f s) as [r s'] eqn:E. apply updateKey_run in E as [(_ & _ & Hno)|(o & l' & -> & Hl' & _ & Hh & ->)].
  - specialize (Hno _ l Hl Ho). apply not_true_iff_false in Hno. destruct Hno. apply has_key_iff. by exists k.
  - apply has_key_iff in Hh as (k' & Hk' & Ek). apply list_elem_of_lookup in Hk as [i Hi], Hk' as [j Hj]. destruct (Hid _ l i k _ l' j k' Hl Hi Hl' Hj (eq_sym Ek)) as [<- _].
    assert (l' = l) as -> by congruence. done.
Qed.
Lemma key_for_Some raw l k : key_for raw l = Some k → k ∈ l ∧ WcCredentialID k = raw.
Proof. intros E%last_Some_elem_of. apply list_elem_of_filter in E as [E1 E2]. done. Qed.
Lemma key_for_None raw l : key_for raw l = None → ∀ k, k ∈ l → WcCredentialID k ≠ raw.
Proof. intros E%last_None k Hk Ec. assert (H : k ∈ filter (λ k, WcCredentialID k = raw) l) by (by apply list_elem_of_filter). rewrite E in H. by apply elem_of_nil in H. Qed.

Lemma change_key_has id f l k : k ∈ l → WcID k = id → ∃ k1, k1 ∈ l ∧ WcID k1 = id ∧ f k1 ∈ change_key id f l.
Proof.
  intros Hk Ei. induction l as [|x l IH]; [by apply elem_of_nil in Hk|]. cbn. case_bool_decide as Ex; [exists x; split_and!; [left|done|left]|].
  apply elem_of_cons in Hk as [->|Hk]; [done|]. destruct (IH Hk) as (k1 & H1 & H2 & H3). exists k1. split_and!; [by right|done|by right].
Qed.

Section Assertions.
Context {K : Type} {KVK : KV K} {KVL : KVLaws K} {TP : Totp} {AE : AEAD} {A2 : Argon2} {WA : WebAuthnLib} {WAL : WebAuthnLaws}.
Context (kek : string) (unicode_upper : string → string) (newID : nat → string) (EqualFold : string → string → bool) (ttl : Z) (uuid_text : string → string).
Context (Hinj : Inj (=) (=) newID) (Hsym : ∀ a b, EqualFold a b = EqualFold b a).
Notation W := (Manager Store K).
Implicit Types (w : W).
Notation kstep := (kstep kek unicode_upper newID EqualFold ttl uuid_text).

(** The record of a ceremony waits for this purpose, subject and user. *)
Definition pending w (purpose subject tid uid : string) (c : ceremony) : Prop :=
  ∃ kv j, m_cache w = Some kv ∧ kv_at kv (m_now w) (WebAuthnKey purpose subject) = Some (Json j) ∧ ceremony_of_json j = Some c ∧
    CePurpose c = purpose ∧ CeTenantID c = tid ∧ CeUserID c = uid.
Definition consumed w (purpose subject : string) : Prop :=
  ∀ kv, m_cache w = Some kv → ∀ at_, (m_now w <= at_)%Z → kv_at kv at_ (WebAuthnKey purpose subject) = None.

Lemma take_run purpose subject tid uid w : ∃ oc w1, take_ceremony purpose subject tid uid w = (Ok oc, w1) ∧ m_st w1 = m_st w ∧ m_now w1 = m_now w ∧
  consumed w1 purpose subject ∧ ∀ c, oc = Some c → pending w purpose subject tid uid c.
Proof.
  unfold take_ceremony, bind, attempt, kvM. destruct (m_cache w) as [kv|] eqn:Ec.
  - destruct (kv_getdel_law (m_now w) (WebAuthnKey purpose subject) kv) as (kv' & -> & Hat). eexists _, _. split_and!; [done..| |].
    + intros kv0 [= <-] t Ht. cbn in Ht. rewrite Hat by done. by rewrite decide_True.
    + intros c. destruct (kv_at kv (m_now w) _) as [[|j]|] eqn:Ek; try done. destruct (ceremony_of_json j) as [c'|] eqn:Ej; [|done].
      destruct (_ && _) eqn:Eb; [|done]. intros [= ->]. apply andb_true_iff in Eb as [[E1%bool_decide_eq_true E2%bool_decide_eq_true]%andb_true_iff E3%bool_decide_eq_true].
      by exists kv, j.
  - eexists _, _. split_and!; try done. intros kv0 E. congruence.
Qed.
Lemma consumed_same w w' purpose subject : consumed w purpose subject → m_cache w' = m_cache w → m_now w' = m_now w → consumed w' purpose subject.
Proof. unfold consumed. by intros H -> ->. Qed.
Lemma storeM_same {A} (m : M Store A) w r w1 : storeM m w = (r, w1) → m_cache w1 = m_cache w ∧ m_now w1 = m_now w ∧ (r, m_st w1) = m (m_st w).
Proof. unfold storeM. destruct (m (m_st w)) as [x s]. by intros [= <- <-]. Qed.

(** C20. An assertion completes only for the user, purpose and subject its ceremony
    was begun for, once; it is made by a key of the user that is not marked as
    cloned and that the library verified against the recorded session, and the
    only change is the use noted on that key.  An answer that the key is
    flagged leaves the key of the assertion marked. *)
Theorem key_assertion_sound w0 w purpose subject tid uid response r w' : keys (m_st w0) = ∅ → rtc kstep w0 w →
  finishAssertion purpose subject tid uid response w = (r, w') →
  consumed w' purpose subject ∧
  (r = Ok tt → ∃ c parsed u handle k cred, pending w purpose subject tid uid c ∧ ParseAssertion response = Ok parsed ∧ userByID (m_st w) tid uid = Some u ∧
     k ∈ keysOf (m_st w) tid uid ∧ WcCredentialID k = AsRawID parsed ∧ WcCloneFlaggedAt k = None ∧
     wa_validate_login (m_now w) (newUser u handle (usable (keysOf (m_st w) tid uid))) (CeSession c) parsed = Ok cred ∧ CrCloneWarning cred = false ∧
     m_st w' = set_wkeys (m_st w) (<[map_key tid uid := change_key (WcID k) (used (m_now w) (CrSignCount cred) (CrBackupState cred)) (keysOf (m_st w) tid uid)]> (keys (m_st w)))) ∧
  (r = Err ErrKeyFlagged → ∃ parsed k, ParseAssertion response = Ok parsed ∧ k ∈ keysOf (m_st w') tid uid ∧ WcCredentialID k = AsRawID parsed ∧ WcCloneFlaggedAt k ≠ None).
Proof.
  intros H0 Hr E. destruct (ksteps_safe _ _ _ _ _ _ Hinj Hsym w0 w Hr (KInv_empty _ _ w0 H0)) as ([HT _] & _ & _).
  unfold finishAssertion in E. destruct (take_run purpose subject tid uid w) as (oc & w1 & E1 & Es1 & En1 & Hc1 & Hp). rewrite (bind_ok _ _ _ _ _ E1) in E. clear E1.
  destruct oc as [c|]; [|by injection E as <- <-]. specialize (Hp c eq_refl). destruct (ParseAssertion response) as [parsed|] eqn:Epa; [|by injection E as <- <-].
  destruct (storeM (UserRow tid uid) w1) as [ru w2] eqn:E2. pose proof (storeM_same _ _ _ _ E2) as (C2 & N2 & S2). unfold UserRow in S2. rewrite Es1 in S2.
  destruct (userByID (m_st w) tid uid) as [u|] eqn:Eu; injection S2 as -> Es2;
    [rewrite (bind_ok _ _ _ _ _ E2) in E|rewrite (bind_err _ _ _ _ _ E2) in E; injection E as <- <-; by split_and!; [eapply consumed_same; [done|congruence|congruence]|..]].
  destruct (storeM (WebAuthnHandle tid uid) w2) as [rh w3] eqn:E3. pose proof (storeM_same _ _ _ _ E3) as (C3 & N3 & S3). unfold WebAuthnHandle in S3. rewrite Es2, Eu in S3. injection S3 as -> Es3.
  rewrite (bind_ok _ _ _ _ _ E3) in E. set (handle := default "" _) in E.
  destruct (storeM (ListWebAuthnCredentials tid uid) w3) as [rk w4] eqn:E4. pose proof (storeM_same _ _ _ _ E4) as (C4 & N4 & S4). unfold ListWebAuthnCredentials in S4. rewrite Es3 in S4. injection S4 as -> Es4.
  rewrite (bind_ok _ _ _ _ _ E4) in E. cbv zeta in E. set (ks := keysOf (m_st w) tid uid) in *.
  assert (Hc4 : ∀ w5, m_cache w5 = m_cache w4 → m_now w5 = m_now w4 → consumed w5 purpose subject) by (intros w5 ? ?; eapply consumed_same; [exact Hc1|congruence|congruence]).
  assert (Hn : m_now w4 = m_now w) by congruence. clear E2 E3 E4 C2 C3 C4 N2 N3 N4 Es1 Es2 Es3 En1 Hc1.
  destruct (key_for (AsRawID parsed) ks) as [k|] eqn:Ek; cbn [from_option] in E.
  2:{ rewrite bool_decide_eq_true_2 in E by done. cbn [negb] in E. unfold bind at 1, nowM, gets in E. cbn beta iota in E.
      destruct (wa_validate_login _ _ _ _) as [cred|] eqn:Ev; [|injection E as <- <-; split_and!; [by apply Hc4|done..]].
      exfalso. destruct (wa_login_known _ _ _ _ _ Ev) as (c0 & Hin & Hid & _). apply list_elem_of_fmap in Hin as (k & -> & [_ Hk]%list_elem_of_filter).
      by apply (key_for_None _ _ Ek k). }
  apply key_for_Some in Ek as [Hk Hraw]. destruct (bool_decide (WcCloneFlaggedAt k = None)) eqn:Ef; cbn [negb] in E.
  2:{ apply bool_decide_eq_false in Ef. injection E as <- <-. split_and!; [by apply Hc4|done|]. intros _. exists parsed, k. rewrite Es4. done. }
  apply bool_decide_eq_true in Ef. unfold bind at 1, nowM, gets in E. cbn beta iota in E. rewrite Hn in E.
  destruct (wa_validate_login _ _ _ _) as [cred|] eqn:Ev; [|injection E as <- <-; split_and!; [by apply Hc4|done..]].
  assert (Hl : keys (m_st w) !! map_key tid uid = Some ks). { unfold ks, keysOf in *. destruct (keys (m_st w) !! _); [done|]. by apply elem_of_nil in Hk. }
  destruct (CrCloneWarning cred) eqn:Ew.
  - unfold FlagWebAuthnClone in E. unfold bind at 1, storeM in E. rewrite Es4, (updateKey_own _ _ tid uid ks k _ HT Hl Hk) in E. cbn beta iota in E.
    injection E as <- <-. split_and!; [by apply Hc4|done|]. intros _. exists parsed.
    destruct (change_key_has (WcID k) (flagged (m_now w)) ks k Hk eq_refl) as (k1 & Hk1 & Hc & Hin). assert (k1 = k) as ->.
    { apply list_elem_of_lookup in Hk as [i Hi], Hk1 as [j Hj]. destruct (ti_id _ _ HT _ ks i k _ ks j k1 Hl Hi Hl Hj (eq_sym Hc)) as [_ <-]. congruence. }
    exists (flagged (m_now w) k). cbn [m_st]. unfold keysOf. cbn [keys set_wkeys]. rewrite lookup_insert_eq.
    unfold flagged in *. rewrite Ef in *. done.
  - unfold UpdateWebAuthnUse, storeM in E. rewrite Es4, (updateKey_own _ _ tid uid ks k _ HT Hl Hk) in E. injection E as <- <-. split_and!; [by apply Hc4| |done].
    intros _. exists c, parsed, u, handle, k, cred. done.
Qed.
End Assertions.

(** ** The last factor *)
Section LastFactor.
Context {K : Type} {KVK : KV K} {TP : Totp} {AE : AEAD} {A2 : Argon2} {WA : WebAuthnLib}.
Context (kek : string) (unicode_upper : string → string).
Notation W := (Manager Store K).
Implicit Types (w : W).

(** What a confirmation leaves alone: whether the user has an authenticator
    secret, and the identifiers and clone flags of the keys. *)
Record steady tid uid (s s' : Store) : Prop := mkSteady {
  sd_ok : users_unique s → users_unique s';
  sd_keys : key_marks (keysOf s' tid uid) = key_marks (keysOf s tid uid);
  sd_user : ∀ u', userByID s' tid uid = Some u' → ∃ u, userByID s tid uid = Some u ∧
    UMFASecretEnc u' = UMFASecretEnc u ∧ UMFAEnabled u' = UMFAEnabled u;
}.
Lemma steady_refl tid uid s : steady tid uid s s.
Proof. split; [done..|]. eauto. Qed.
Lemma steady_keys tid uid s t : (key_marks (default [] (t !! map_key tid uid)) = key_marks (keysOf s tid uid)) → steady tid uid s (set_wkeys s t).
Proof. intros E. split; [done|exact E|eauto]. Qed.

Lemma change_key_marks id f l : (∀ k, (WcID (f k), WcCloneFlaggedAt (f k)) = (WcID k, WcCloneFlaggedAt k)) → key_marks (change_key id f l) = key_marks l.
Proof. intros Hf. induction l as [|k l IH]; [done|]. cbn [change_key]. unfold key_marks in *. case_bool_decide; rewrite !fmap_cons, ?Hf; [done|by rewrite IH]. Qed.

Lemma storeM_read {A} (m : M Store A) w r w1 : (∀ s, (m s).2 = s) → storeM m w = (r, w1) → m_st w1 = m_st w.
Proof. intros Hm. unfold storeM. specialize (Hm (m_st w)). destruct (m (m_st w)) as [x s]. cbn in Hm. subst s. by intros [= _ <-]. Qed.

Lemma finish_steady purpose subject tid uid response w w' :
  finishAssertion purpose subject tid uid response w = (Ok tt, w') → steady tid uid (m_st w) (m_st w').
Proof.
  unfold finishAssertion. intros E. apply bind_ok_inv in E as (oc & w1 & E1 & E).
  assert (H1 : m_st w1 = m_st w).
  { unfold take_ceremony, bind, attempt, ret, kvM in E1. destruct (m_cache w) as [kv|]; [destruct (kv_getdel _ _ kv)|]; injection E1 as _ <-; done. }
  destruct oc as [c|]; [|done]. destruct (ParseAssertion response) as [parsed|]; [|done].
  apply bind_ok_inv in E as (u & w2 & E2 & E). apply storeM_read in E2; [|intros s; unfold UserRow; by destruct (userByID s tid uid)].
  apply bind_ok_inv in E as (h & w3 & E3 & E). apply storeM_read in E3; [|intros s; unfold WebAuthnHandle; by destruct (userByID s tid uid)].
  apply bind_ok_inv in E as (ks & w4 & E4 & E). apply storeM_read in E4; [|done]. cbv zeta in E.
  destruct (negb _); [done|]. apply bind_ok_inv in E as (now & w5 & E5 & E). injection E5 as _ <-.
  destruct (wa_validate_login _ _ _ _) as [cred|]; [|done]. destruct (CrCloneWarning cred).
  { apply bind_ok_inv in E as (? & w6 & _ & E). by apply bind_ok_inv in E as (? & w7 & _ & E). }
  unfold storeM in E. destruct (UpdateWebAuthnUse _ _ _ _ _ (m_st w4)) as [r s] eqn:Eu. injection E as -> <-. cbn [m_st].
  rewrite E4, E3, E2, H1 in Eu. unfold UpdateWebAuthnUse in Eu.
  apply updateKey_run in Eu as [(? & _ & _)|(o & l & _ & Hl & _ & _ & ->)]; [done|]. apply steady_keys.
  destruct (decide (map_key tid uid = o)) as [Ho|Ho].
  - rewrite Ho, lookup_insert_eq. cbn. rewrite change_key_marks by done. unfold keysOf. by rewrite Ho, Hl.
  - by rewrite lookup_insert_ne by congruence.
Qed.

Lemma confirm_steady a conf w w' : users_unique (m_st w) → confirm_factor kek unicode_upper a conf w = (Ok tt, w') →
  steady (ATenantID a) (AUserID a) (m_st w) (m_st w').
Proof.
  intros Hok. unfold confirm_factor. destruct (negb _).
  - intros E. apply bind_ok_inv in E as (m & w1 & E1 & E). injection E as <-.
    apply MfaVerify_run in E1 as ([H1 H2 _ _ H5] & _ & _); [|done]. split; [done|by cbn in H2; rewrite H2|].
    intros u' Hu'. destruct (H5 _ _ _ Hu') as (u & Hu & E1 & E2 & _). eauto.
  - destruct (negb _); [apply finish_steady|done].
Qed.

Lemma RemoveKey_keeps a id conf w w' : users_unique (m_st w) → requires_mfa w (ATenantID a) →
  RemoveKey kek unicode_upper a id conf w = (Ok tt, w') →
  ∃ u u', userByID (m_st w) (ATenantID a) (AUserID a) = Some u ∧ userByID (m_st w') (ATenantID a) (AUserID a) = Some u' ∧
    (1 <= factors_left u (keysOf (m_st w) (ATenantID a) (AUserID a)) →
     UMFAEnabled u' = UMFAEnabled u ∧ 1 <= factors_left u' (keysOf (m_st w') (ATenantID a) (AUserID a)))%nat.
Proof.
  set (tid := ATenantID a). set (uid := AUserID a). intros Hok Hreq E. unfold RemoveKey in E. fold tid uid in E.
  apply bind_ok_inv in E as (g & w1 & E1 & E). unfold attempt in E1. destruct (GuardRemoval tid uid id w) as [g' w1'] eqn:Eg. injection E1 as -> ->.
  destruct g as [[]|e]; [|by case_bool_decide]. apply (GuardRemoval_ok tid uid id w) in Eg as (S1 & u & Hu & Hleft); [|done..]. cbn in Hu, Hleft.
  apply bind_ok_inv in E as (locked & w2 & E2 & E).
  assert (S2 : m_st w2 = m_st w1).
  { unfold lockedM, bind, attempt, ret, kvM in E2. destruct (m_cache w1) as [kv|]; [destruct (Locked _ _ kv)|]; by injection E2 as _ <-. }
  destruct locked; [done|]. apply bind_ok_inv in E as (r & w3 & E3 & E). unfold attempt in E3.
  destruct (confirm_factor kek unicode_upper a conf w2) as [r' w3'] eqn:Ec. injection E3 as -> ->.
  destruct r as [[]|e]; [|by apply bind_ok_inv in E as (? & ? & _ & ?)].
  apply confirm_steady in Ec as [C1 C2 C3]; [|by rewrite S2, S1]. fold tid uid in C1, C2, C3. rewrite S2, S1 in C1, C2, C3.
  apply bind_ok_inv in E as ([] & w4 & E4 & E). unfold storeM in E4. unfold DeleteWebAuthnCredential in E4.
  destruct (existsb _ _); [|done]. injection E4 as <-.
  apply bind_ok_inv in E as ([] & w5 & E5 & E). injection E as <-. cbn [m_st].
  unfold KeyRemoved in E5. fold tid uid in E5.
  set (w6 := mkManager _ _ _ _ _ _) in E5.
  assert (K6 : keysOf (m_st w6) tid uid = delete_key id (keysOf (m_st w3) tid uid)).
  { unfold keysOf at 1, w6. cbn [m_st set_wkeys keys]. by rewrite lookup_insert_eq. }
  apply bind_ok_inv in E5 as (u' & w7 & E6 & E5). apply user_ok in E6 as [-> Hu']; [|exact (C1 Hok)].
  apply bind_ok_inv in E5 as (ks & w8 & E7 & E5). apply keys_ok in E7 as [-> ->]; [|exact (C1 Hok)]. cbn in Hu'.
  destruct (C3 u' Hu') as (u0 & Hu0 & Esec & Een). assert (u0 = u) as -> by congruence.
  assert (Hl : factors_left u' (keysOf (m_st w6) tid uid) = factors_left u (delete_key id (keysOf (m_st w) tid uid))).
  { unfold factors_left, has_secret. rewrite Esec, K6. f_equal. by apply usableKeys_marks, delete_key_marks. }
  change (ms_keys (m_st w6) tid uid) with (keysOf (m_st w6) tid uid) in E5.
  destruct (has_secret u' || (0 <? length (keysOf (m_st w6) tid uid))%nat) eqn:Eh.
  - injection E5 as <-. exists u, u'. split_and!; [done..|]. intros Hb. split; [done|]. rewrite Hl. auto.
  - exists u. assert (Hz : factors_left u' (keysOf (m_st w6) tid uid) = 0%nat).
    { apply orb_false_iff in Eh as [Hs1 Hs2]. unfold factors_left. rewrite Hs1. apply Nat.ltb_ge in Hs2.
      by destruct (keysOf (m_st w6) tid uid) as [|? ?]; [|cbn in Hs2; lia]. }
    unfold clear in E5. apply bind_ok_inv in E5 as ([] & w7 & E6 & E7). 
    apply storeM_same in E6 as (_ & _ & E6). apply storeM_same in E7 as (_ & _ & E7). symmetry in E6, E7.
    apply ms_set_mfa_law in E6 as (Hok' & _ & _ & _ & _ & Hall); [|exact (C1 Hok)].
    apply ms_replace_codes_law in E7 as (_ & Hus & _); [|done].
    exists (with_mfa false None u'). split_and!; [done| |].
    + change (ms_user (m_st w5) tid uid = Some (with_mfa false None u')). rewrite Hus, Hall, decide_True by done.
      change (with_mfa false None <$> userByID (m_st w3) tid uid = Some (with_mfa false None u')). change (userByID (m_st w3) tid uid = Some u') in Hu'. by rewrite Hu'.
    + intros Hb. specialize (Hleft Hb). lia.
Qed.

(** C19. A tenant that requires a second factor keeps one.  Disabling the
    authenticator app leaves the account with a usable security key and still
    asking for it.  Removing a security key, with whatever confirmation, leaves
    an account that had a usable factor (the app, or a key not flagged as
    cloned) with one, and still asking for it; only an account left with
    flagged keys alone can lose the last of them. *)
Theorem last_factor_kept w : users_unique (m_st w) →
  (∀ a code w', requires_mfa w (ATenantID a) → Disable kek unicode_upper a code w = (Ok tt, w') →
     ∃ u', userByID (m_st w') (ATenantID a) (AUserID a) = Some u' ∧ UMFAEnabled u' = true ∧
       (1 <= factors_left u' (keysOf (m_st w') (ATenantID a) (AUserID a)))%nat) ∧
  (∀ a id conf w', requires_mfa w (ATenantID a) → RemoveKey kek unicode_upper a id conf w = (Ok tt, w') →
     ∃ u u', userByID (m_st w) (ATenantID a) (AUserID a) = Some u ∧ userByID (m_st w') (ATenantID a) (AUserID a) = Some u' ∧
       (1 <= factors_left u (keysOf (m_st w) (ATenantID a) (AUserID a)) →
        UMFAEnabled u' = UMFAEnabled u ∧ 1 <= factors_left u' (keysOf (m_st w') (ATenantID a) (AUserID a)))%nat).
Proof.
  intros Hok. split; [intros a code w' Hr E; exact (Disable_keeps kek unicode_upper a code w w' Hok Hr E)|].
  intros a id conf w' Hr E. by eapply RemoveKey_keeps.
Qed.
End LastFactor.
