(* ===== verification/Recovery.v ===== *)
(** * Forgotten passwords (internal/password/recovery.go)

    A reset link carries a random token; the store keeps its hash for half an
    hour.  The service shares the world of the session manager over the
    in-memory store; the timing pad has no effect on the state. *)
From S2P Require Import Prelude GoStrings Base64 Utf8 Regex PermRef TenantCtx Models Password Cache Envelope AuditEvents Session MemStore SessionSafety Mfa MfaSafety Outbox Tenants Signin MemAccounts.
#[local] Open Scope list_scope.
#[local] Open Scope go_scope.

Definition RecoveryLifetime : Z := 30 * Dur.minute.
Definition RecoveryValidFor : string := "30 minutes".
Definition ResetPath : string := "/console/reset".
Definition ErrInvalidToken : err := ErrText "invalid_token".

(** ** The rows (internal/memstore/memstore.go) *)
Definition InsertRecoveryRequest (r : RecoveryRequest) : M Store unit :=
  modify (λ m, set_Recoveries m (<[RcID r := r]> (Recoveries m))).
Definition open_request (now : Z) (hash : string) (r : RecoveryRequest) : bool :=
  bool_decide (RcTokenHash r = hash) && bool_decide (RcUsedAt r = None) && (now <? RcExpiresAt r)%Z.
Definition PeekRecovery (now : Z) (hash : string) : M Store RecoveryRequest := λ m,
  match find_first (λ p, open_request now hash p.2) (map_to_list (Recoveries m)) with
  | Some (_, r) => (Ok r, m)
  | None => (Err ErrNotFound, m)
  end.
Definition used_request (now : Z) (r : RecoveryRequest) : RecoveryRequest :=
  mkRecovery (RcID r) (RcTenantID r) (RcUserID r) (RcTokenHash r) (RcExpiresAt r) (Some now).
Definition UseRecoveryRequest (now : Z) (hash : string) : M Store RecoveryRequest := λ m,
  match find_first (λ p, open_request now hash p.2) (map_to_list (Recoveries m)) with
  | Some (id, r) => (Ok (used_request now r), set_Recoveries m (<[id := used_request now r]> (Recoveries m)))
  | None => (Err ErrNotFound, m)
  end.
Definition SetPassword (tid uid hash : string) : M Store unit := update_user tid uid (with_password hash).
Definition Enqueue (it : OutboxItem) : M Store unit := modify (λ m, set_Outbox m (Outbox m ++ [it])).

Section Recovery.
Context {K : Type} {KVK : KV K} {A2 : Argon2} {AE : AEAD}.
Context (HashToken : string → string) (newID : nat → string).
Context (etld1 : string → option string) (unicode_lower : string → string).
Context (kek issuer : string) (json_text : json → string).
Notation W := (Manager Store K).

Definition recoveryEvent (typ tid uid outcome reason ipHash : string) : Event :=
  mkEventFull typ tid uid "user" "" "" "" outcome reason ipHash "" "" "" [].

(** Every path answers with success. *)
Definition Request (tenantSlug emailAddr ipHash : string) : M W unit :=
  let addr := ToLower unicode_lower (TrimSpace emailAddr) in
  rt <- attempt (storeM (Lookup etld1 unicode_lower tenantSlug addr TenantBySlug SoleTenant)) ;;
  match rt with
  | Err _ => ret tt
  | Ok t =>
      if bool_decide (TStatus t ≠ "active") then ret tt else
      ru <- attempt (storeM (UserByEmail unicode_lower (TID t) addr)) ;;
      match (match ru with Ok u => if bool_decide (UStatus u ≠ "active") then None else Some u | Err _ => None end) with
      | None => emit (recoveryEvent RecoveryRequested (TID t) "" "refused" "unknown_account" ipHash)
      | Some u =>
          rtok <- attempt RandomToken ;;
          match rtok with
          | Err _ => ret tt
          | Ok tok =>
              id <- NewID newID ;;
              now <- nowM ;;
              ri <- attempt (storeM (InsertRecoveryRequest
                      (mkRecovery id (TID t) (UID u) (HashToken tok) (now + RecoveryLifetime) None))) ;;
              match ri with
              | Err _ => ret tt
              | Ok _ =>
                  rb <- attempt (EncodeMail kek json_text addr (RecoveryMail (issuer +:+ ResetPath +:+ "?token=" +:+ tok) RecoveryValidFor)) ;;
                  match rb with
                  | Err _ => ret tt
                  | Ok blob =>
                      id <- NewID newID ;;
                      ignore (storeM (Enqueue (mkOutbox id (TID t) "recovery" addr blob 0 now))) ;;;
                      emit (recoveryEvent RecoveryRequested (TID t) (UID u) "ok" "" ipHash)
                  end
              end
          end
      end
  end.

Definition peek (token : string) : M W (RecoveryRequest * Policy) :=
  if bool_decide (token = "") || (256 <? String.length token)%nat then throw ErrInvalidToken else
  now <- nowM ;;
  rr <- attempt (storeM (PeekRecovery now (HashToken token))) ;;
  match rr with
  | Err _ => throw ErrInvalidToken
  | Ok req =>
      rt <- attempt (storeM (TenantRow (RcTenantID req))) ;;
      match rt with
      | Err _ => throw ErrInvalidToken
      | Ok t =>
          if bool_decide (TStatus t ≠ "active") then throw ErrInvalidToken else
          match ParsePolicy (TPolicy t) (bool_decide (TKind t = "platform")) with
          | (_, Some e) => throw e
          | (pol, None) => ret (req, pol)
          end
      end
  end.

Definition Requirements (token : string) : M W PwRequirements :=
  rp <- peek token ;; ret (RequirementsFor rp.2).

Definition Complete (ctx : Ctx) (token next : string) : M W unit :=
  rp <- peek token ;;
  lift (Check rp.2 next) ;;;
  now <- nowM ;;
  ru <- attempt (storeM (UseRecoveryRequest now (HashToken token))) ;;
  match ru with
  | Err _ => throw ErrInvalidToken
  | Ok _ =>
      salt <- ReadFull (PSaltLen DefaultParams) ;;
      h <- lift (Password.Hash (λ _, Some salt) next) ;;
      storeM (SetPassword (RcTenantID rp.1) (RcUserID rp.1) h) ;;;
      RevokeUser ctx (RcTenantID rp.1) (RcUserID rp.1) ReasonPassword "" ;;;
      emit (recoveryEvent RecoveryCompleted (RcTenantID rp.1) (RcUserID rp.1) "ok" "" "")
  end.
End Recovery.
