(* ===== verification/RecoverySafety.v ===== *)
(** * A reset link works once, for its account *)
From S2P Require Import Prelude GoStrings Base64 Utf8 Regex PermRef TenantCtx Models Password Cache Envelope AuditEvents Session MemStore SessionSafety Mfa MfaSafety Outbox Tenants Signin MemAccounts Recovery.
#[local] Open Scope list_scope.
#[local] Open Scope go_scope.

Section RecoverySafety.
Context {K : Type} {KVK : KV K} {A2 : Argon2} {AL : Argon2Laws} {AE : AEAD}.
Context (HashToken : string → string) (newID : nat → string).
Context {Hinj : Inj (=) (=) HashToken}.
Notation W := (Manager Store K).
Implicit Types (w : W).
Notation CompleteM := (Complete HashToken).

(** ** What the service maintains *)
Record RInv w : Prop := mkRInv {
  ri_users : users_unique (m_st w);
  ri_nodup : NoDup (m_entropy w);
  (* hashes are of tokens already drawn, one request per hash *)
  ri_drawn : ∀ id r, Recoveries (m_st w) !! id = Some r → ∃ tok, RcTokenHash r = HashToken tok ∧ tok ∉ m_entropy w;
  ri_unique : ∀ id id' r r', Recoveries (m_st w) !! id = Some r → Recoveries (m_st w) !! id' = Some r' →
    RcTokenHash r = RcTokenHash r' → id = id';
}.
Definition spent w (tok : string) : Prop :=
  ∀ id r, Recoveries (m_st w) !! id = Some r → RcTokenHash r = HashToken tok → RcUsedAt r ≠ None.

(** From [w] to [w'] the invariant stays and no spent token comes back. *)
Definition keeps w w' : Prop :=
  RInv w → RInv w' ∧ ∀ tok, tok ∉ m_entropy w → spent w tok → tok ∉ m_entropy w' ∧ spent w' tok.
Definition Keeps {B} (m : M W B) : Prop := ∀ w, keeps w (m w).2.

Lemma keeps_refl w : keeps w w.
Proof using Type. done. Qed.
Lemma keeps_trans w1 w2 w3 : keeps w1 w2 → keeps w2 w3 → keeps w1 w3.
Proof using Type. intros H1 H2 HI. destruct (H1 HI) as [I2 S2]. destruct (H2 I2) as [I3 S3]. split; [done|]. intros tok A B. destruct (S2 tok A B). by apply S3. Qed.

(** The rows of requests stay and draws are only consumed. *)
Lemma keeps_quiet w w' : Recoveries (m_st w') = Recoveries (m_st w) → (users_unique (m_st w) → users_unique (m_st w')) →
  m_entropy w' `suffix_of` m_entropy w → keeps w w'.
Proof using Type.
  intros Hr Hu [l Hl] [I1 I2 I3 I4]. rewrite Hl in I2. split.
  - split; [auto|by apply NoDup_app in I2 as (_ & _ & ?)| |by rewrite Hr]. rewrite Hr. intros id r Hid.
    destruct (I3 id r Hid) as (tok & E & Hn). exists tok. split; [done|]. rewrite Hl in Hn. by apply not_elem_of_app in Hn as [_ ?].
  - intros tok Ht Hs. rewrite Hl in Ht. apply not_elem_of_app in Ht as [_ ?]. split; [done|]. unfold spent in *. by rewrite Hr.
Qed.

Lemma Keeps_ret {B} (a : B) : Keeps (ret a).
Proof using Type. intros w. apply keeps_refl. Qed.
Lemma Keeps_throw {B} e : Keeps (throw e : M W B).
Proof using Type. intros w. apply keeps_refl. Qed.
Lemma Keeps_lift {B} (r : result B) : Keeps (lift r).
Proof using Type. intros w. unfold lift. destruct r; apply keeps_refl. Qed.
Lemma Keeps_gets {B} (f : W → B) : Keeps (gets f).
Proof using Type. intros w. apply keeps_refl. Qed.
Lemma Keeps_bind {B C} (m : M W B) (k : B → M W C) : Keeps m → (∀ a, Keeps (k a)) → Keeps (bind m k).
Proof using Type.
  intros Hm Hk w. unfold bind. pose proof (Hm w) as H1. destruct (m w) as [[a|e] w1]; [|done].
  eapply keeps_trans; [exact H1|apply Hk].
Qed.
Lemma Keeps_attempt {B} (m : M W B) : Keeps m → Keeps (attempt m).
Proof using Type. intros Hm w. specialize (Hm w). unfold attempt. by destruct (m w). Qed.
Lemma Keeps_ignore {B} (m : M W B) : Keeps m → Keeps (ignore m).
Proof using Type. intros Hm w. specialize (Hm w). unfold ignore. by destruct (m w). Qed.
Lemma Keeps_if {B} (b : bool) (m m' : M W B) : Keeps m → Keeps m' → Keeps (if b then m else m').
Proof using Type. by destruct b. Qed.
Lemma Keeps_emit e : Keeps (emit e : M W unit).
Proof using Type. intros w. by apply keeps_quiet. Qed.
Lemma Keeps_NewID : Keeps (NewID newID).
Proof using Type. intros w. by apply keeps_quiet. Qed.
Lemma Keeps_RandomToken : Keeps RandomToken.
Proof using Type.
  intros w. unfold RandomToken. destruct (m_entropy w) as [|x l] eqn:E; [apply keeps_refl|].
  apply keeps_quiet; [done|done|]. cbn. rewrite E. by exists [x].
Qed.
Lemma Keeps_ReadFull n : Keeps (ReadFull n : M W string).
Proof using Type. apply Keeps_bind; [apply Keeps_RandomToken|intros; apply Keeps_ret]. Qed.
Lemma Keeps_storeM {B} (m : M Store B) :
  (∀ s, Recoveries (m s).2 = Recoveries s ∧ (users_unique s → users_unique (m s).2)) → Keeps (storeM m).
Proof using Type. intros H w. unfold storeM. destruct (H (m_st w)) as [H1 H2]. destruct (m (m_st w)) as [r s]. by apply keeps_quiet. Qed.
Lemma Keeps_cacheM {B} (d : B) (m : M K B) : Keeps (cacheM d m : M W B).
Proof using Type. intros w. unfold cacheM. destruct (m_cache w) as [c|]; [|apply keeps_refl]. destruct (m c) as [r c']. by apply keeps_quiet. Qed.
#[local] Hint Resolve Keeps_ret Keeps_throw Keeps_lift Keeps_gets Keeps_attempt Keeps_ignore Keeps_if Keeps_emit Keeps_NewID
  Keeps_RandomToken Keeps_ReadFull Keeps_cacheM Keeps_bind : auth.

Lemma Keeps_RevokeUser ctx tid uid reason : Keeps (RevokeUser ctx tid uid reason "" : M W unit).
Proof using Type.
  unfold RevokeUser, publish, nowM. rewrite (bool_decide_eq_false_2 ("" ≠ "") (λ H, H eq_refl)), (bool_decide_eq_true_2 ("" = "") eq_refl).
  apply Keeps_bind; [auto with auth|]. intros now. apply Keeps_bind; [auto with auth|]. intros _.
  apply Keeps_bind; [by apply Keeps_storeM|]. intros _. apply Keeps_bind; [|auto with auth].
  apply Keeps_bind; [by apply Keeps_storeM|]. intros _. apply Keeps_bind; [auto with auth|]. intros n.
  apply Keeps_bind; [auto with auth|]. intros [k|]; auto with auth.
Qed.

Lemma Keeps_use now hash : Keeps (storeM (UseRecoveryRequest now hash) : M W RecoveryRequest).
Proof using Type.
  intros w. unfold storeM, UseRecoveryRequest. destruct (find_first _ _) as [[id r]|] eqn:E; [|by apply keeps_quiet].
  apply find_first_Some in E as [Hin%elem_of_map_to_list _]. intros [I1 I2 I3 I4]. cbn. split; [split; cbn|].
  - done.
  - done.
  - intros id' r' [[<- <-]|[_ H]]%lookup_insert_Some; [exact (I3 id r Hin)|exact (I3 id' r' H)].
  - intros i i' x x' [[<- <-]|[_ H]]%lookup_insert_Some [[<- <-]|[_ H']]%lookup_insert_Some; cbn; [done|intros..].
    + by eapply I4.
    + by eapply I4.
    + by eapply I4.
  - intros tok Ht Hs. split; [done|]. unfold spent. cbn. intros i x [[<- <-]|[_ H]]%lookup_insert_Some; [done|by eapply Hs].
Qed.
Lemma Keeps_peek tok : Keeps (peek HashToken tok : M W (RecoveryRequest * Policy)).
Proof using Type.
  unfold peek, nowM. apply Keeps_if; [auto with auth|]. apply Keeps_bind; [auto with auth|]. intros now.
  apply Keeps_bind; [apply Keeps_attempt, Keeps_storeM; intros s; unfold PeekRecovery; by destruct (find_first _ _) as [[]|]|].
  intros [req|e]; [|auto with auth]. apply Keeps_bind; [apply Keeps_attempt, Keeps_storeM; intros s; unfold TenantRow; by destruct (Tenants s !! _)|].
  intros [t|e]; [|auto with auth]. apply Keeps_if; [auto with auth|]. destruct (ParsePolicy _ _) as [p [e|]]; auto with auth.
Qed.
Lemma SetPassword_unique tid uid h s : users_unique s → users_unique (SetPassword tid uid h s).2.
Proof using Type.
  intros Hu. destruct (SetPassword tid uid h s) as [r s'] eqn:E. by apply update_user_run in E as (H & _).
Qed.
Lemma SetPassword_rows tid uid h s : Recoveries (SetPassword tid uid h s).2 = Recoveries s ∧ Sessions (SetPassword tid uid h s).2 = Sessions s.
Proof using Type. unfold SetPassword, update_user. by destruct (userKey s tid uid) as [[k u]|]. Qed.

Lemma Keeps_Complete ctx tok next : Keeps (CompleteM ctx tok next).
Proof using Type.
  unfold Complete, nowM. apply Keeps_bind; [apply Keeps_peek|]. intros rp. apply Keeps_bind; [auto with auth|]. intros _.
  apply Keeps_bind; [auto with auth|]. intros now. apply Keeps_bind; [apply Keeps_attempt, Keeps_use|]. intros [r|e]; [|auto with auth].
  apply Keeps_bind; [auto with auth|]. intros salt. apply Keeps_bind; [auto with auth|]. intros h.
  apply Keeps_bind; [apply Keeps_storeM; intros s; split; [apply SetPassword_rows|apply SetPassword_unique]|]. intros _.
  apply Keeps_bind; [apply Keeps_RevokeUser|auto with auth].
Qed.

(** A new request is under a token drawn for it. *)
Lemma keeps_insert w tok l r : m_entropy w = tok :: l → RcTokenHash r = HashToken tok →
  ∀ w', m_st w' = set_Recoveries (m_st w) (<[RcID r := r]> (Recoveries (m_st w))) → m_entropy w' = l → keeps w w'.
Proof using Hinj.
  intros He Hh w' Hst Hl [I1 I2 I3 I4]. rewrite He in I2. apply NoDup_cons in I2 as [N1 N2].
  assert (Hnew : ∀ id x, Recoveries (m_st w) !! id = Some x → RcTokenHash x ≠ HashToken tok).
  { intros id x Hx E. destruct (I3 id x Hx) as (t & Et & Hn). rewrite E in Et. apply Hinj in Et. subst t. apply Hn. rewrite He. by apply elem_of_cons; left. }
  split; [split; rewrite ?Hst, ?Hl; cbn|].
  - done.
  - done.
  - intros id x [[<- <-]|[_ H]]%lookup_insert_Some; [by exists tok|]. destruct (I3 id x H) as (t & Et & Hn). exists t.
    split; [done|]. intros Hin. apply Hn. rewrite He. by apply elem_of_cons; right.
  - intros i i' x x' [[<- <-]|[_ H]]%lookup_insert_Some [[<- <-]|[_ H']]%lookup_insert_Some E; [done| | |by eapply I4].
    + exfalso. apply (Hnew i' x' H'). congruence.
    + exfalso. apply (Hnew i x H). congruence.
  - intros t Ht Hs. rewrite Hl. rewrite He in Ht. apply not_elem_of_cons in Ht as [Hne Ht]. split; [done|].
    intros id x. rewrite Hst. cbn. intros [[<- <-]|[_ H]]%lookup_insert_Some; [|by apply Hs with id].
    rewrite Hh. intros E%Hinj. congruence.
Qed.

Context (etld1 : string → option string) (unicode_lower : string → string).
Context (kek issuer : string) (json_text : json → string).
Notation RequestM := (Request HashToken newID etld1 unicode_lower kek issuer json_text).
Lemma Keeps_EncodeMail to p : Keeps (EncodeMail kek json_text to p : M W string).
Proof using Type. unfold EncodeMail, envEncrypt. auto 12 with auth. Qed.
Lemma Keeps_reads {B} (m : M Store B) : (∀ s, (m s).2 = s) → Keeps (storeM m).
Proof using Type. intros H. apply Keeps_storeM. intros s. by rewrite H. Qed.

Lemma Lookup_reads slug addr (s : Store) : (Lookup etld1 unicode_lower slug addr TenantBySlug SoleTenant s).2 = s.
Proof using Type.
  assert (H1 : ∀ x, (TenantBySlug x s).2 = s) by (intros x; unfold TenantBySlug; by destruct (find_first _ _)).
  assert (H2 : (SoleTenant s).2 = s) by (unfold SoleTenant; by destruct (values _) as [|? []]).
  unfold Lookup. case_bool_decide.
  - unfold bind, lift. destruct (ParseTenantSlug slug); [apply H1|done].
  - destruct (SlugFromEmail _ _ addr) as [x|]; [|apply H2]. unfold bind, attempt. pose proof (H1 x) as E.
    destruct (TenantBySlug x s) as [[t|e] s']; cbn in E; subst s'; [done|]. destruct e; done || apply H2.
Qed.

Lemma Keeps_Request slug e ip : Keeps (RequestM slug e ip).
Proof using Hinj.
  unfold Request, nowM. cbv zeta. apply Keeps_bind.
  { apply Keeps_attempt, Keeps_reads. intros s. apply Lookup_reads. }
  intros [t|e']; [|auto with auth]. apply Keeps_if; [auto with auth|].
  apply Keeps_bind. { apply Keeps_attempt, Keeps_reads. intros s. unfold UserByEmail. by destruct (Users s !! _). }
  intros ru. destruct (match ru with Ok u => _ | Err _ => _ end) as [u|]; [|auto with auth].
  intros w. unfold bind at 1, attempt at 1, RandomToken. destruct (m_entropy w) as [|tok l] eqn:He; [apply keeps_refl|].
  eapply keeps_trans.
  - eapply (keeps_insert w tok l (mkRecovery (newID (m_ids w)) (TID t) (UID u) (HashToken tok) (m_now w + RecoveryLifetime) None)
      He eq_refl (mkManager _ (m_cache w) (m_audit w) (m_now w) l (Datatypes.S (m_ids w))) eq_refl eq_refl).
  - unfold bind at 1, NewID at 1. unfold bind at 1, gets at 1. unfold bind at 1, attempt at 1, storeM at 1, InsertRecoveryRequest, modify. cbn [m_st].
    match goal with |- keeps ?w1 (?m ?w2).2 => change w2 with w1; cut (Keeps m); [intros Hm; apply Hm|] end.
    apply Keeps_bind; [apply Keeps_attempt, Keeps_EncodeMail|]. intros [blob|]; [|auto with auth].
    apply Keeps_bind; [auto with auth|]. intros id. apply Keeps_bind; [by apply Keeps_ignore, Keeps_storeM|auto with auth].
Qed.

(** ** Histories *)
Inductive rec_step : W → W → Prop :=
  | rs_request slug e ip w : rec_step w (RequestM slug e ip w).2
  | rs_complete ctx tok next w : rec_step w (CompleteM ctx tok next w).2
  | rs_other w w' : (* anything that leaves the requests alone *)
      Recoveries (m_st w') = Recoveries (m_st w) → users_unique (m_st w') →
      m_entropy w' `suffix_of` m_entropy w → rec_step w w'.
Lemma keeps_steps w w' : rtc rec_step w w' → keeps w w'.
Proof using Hinj.
  induction 1 as [w|w1 w2 w3 Hs _ IH]; [apply keeps_refl|]. eapply keeps_trans; [|exact IH].
  destruct Hs as [slug e ip w|ctx tok next w|w w' H1 H2 H3]; [apply Keeps_Request|apply Keeps_Complete|]. by apply keeps_quiet.
Qed.

(** ** A completed recovery *)
Lemma peek_ok tok w rp w' : peek HashToken tok w = (Ok rp, w') → w' = w ∧ tok ≠ "" ∧
  (∃ id, find_first (λ p, open_request (m_now w) (HashToken tok) p.2) (map_to_list (Recoveries (m_st w))) = Some (id, rp.1)) ∧
  ∃ t, Tenants (m_st w) !! RcTenantID rp.1 = Some t ∧ TStatus t = "active" ∧
    ParsePolicy (TPolicy t) (bool_decide (TKind t = "platform")) = (rp.2, None).
Proof using Type.
  unfold peek. destruct (bool_decide (tok = "")) eqn:E0; [done|]. destruct (256 <? _)%nat; [done|]. cbn [orb].
  unfold bind, nowM, gets, attempt, storeM, PeekRecovery. destruct (find_first _ _) as [[id r]|]; [|done].
  cbn [m_st]. unfold TenantRow. destruct (Tenants (m_st w) !! RcTenantID r) as [t|] eqn:Et; [|done].
  destruct (bool_decide (TStatus t ≠ "active")) eqn:Ea; [done|]. destruct (ParsePolicy _ _) as [pol [e|]] eqn:Ep; [done|].
  unfold ret. intros [= <- <-]. apply bool_decide_eq_false in E0, Ea. cbn. split_and!; [by destruct w|done|by exists id|]. exists t. split_and!; [done| |done]. by destruct (decide (TStatus t = "active")).
Qed.

Lemma publish_store rv w : Sessions (m_st (publish rv w).2) = Sessions (m_st w) ∧ Users (m_st (publish rv w).2) = Users (m_st w) ∧
  Recoveries (m_st (publish rv w).2) = Recoveries (m_st w).
Proof using Type.
  unfold publish, bind, storeM, nowM, gets. cbn. destruct (m_cache w) as [k|] eqn:Ek; [|done]. unfold lift.
  destruct (if decide _ then _ else _) as [key|e]; [|done]. unfold cacheM. cbn. rewrite ?Ek. by destruct (MarkRevoked _ _ _ _ _).
Qed.
Lemma RevokeUser_dead ctx tid uid reason w w' : RevokeUser ctx tid uid reason "" w = (Ok tt, w') →
  Users (m_st w') = Users (m_st w) ∧ Recoveries (m_st w') = Recoveries (m_st w) ∧
  ∀ id x, Sessions (m_st w') !! id = Some x → STenantID x = tid → SUserID x = uid → id ≠ "" → SRevokedAt x ≠ None.
Proof using Type.
  unfold RevokeUser. rewrite (bool_decide_eq_false_2 ("" ≠ "") (λ H, H eq_refl)), (bool_decide_eq_true_2 ("" = "") eq_refl).
  intros E. apply bind_ok_inv in E as (now & w1 & E1 & E). unfold nowM, gets in E1. injection E1 as <- <-.
  apply bind_ok_inv in E as (l & w1 & E1 & E). unfold ret in E1. injection E1 as <- <-.
  apply bind_ok_inv in E as ([] & w2 & E2 & E). apply bind_ok_inv in E as ([] & w3 & E3 & E).
  unfold emit, modify in E. injection E as <-. cbn [m_st].
  pose proof (publish_store (mkRevocation (m_now w) "user" uid tid reason) w2) as (H1 & H2 & H3). rewrite E3 in H1, H2, H3. cbn [snd] in H1, H2, H3.
  unfold storeM in E2. destruct (ss_revoke_user _ _ _ _ _ (m_st w)) as [r s'] eqn:Es. injection E2 as -> <-. cbn [m_st] in *.
  assert (Hu : Users s' = Users (m_st w) ∧ Recoveries s' = Recoveries (m_st w)).
  { cbn in Es. unfold RevokeUserRows, modify in Es. by injection Es as <-. }
  destruct Hu as [Hu Hr]. apply ss_revoke_user_law in Es as [_ [_ Hd]]. rewrite H1, H2, H3. split_and!; [done|done|]. exact Hd.
Qed.

(** What a completed recovery did, whatever the history before it. *)
Lemma Complete_ok ctx tok next w w' : users_unique (m_st w) → CompleteM ctx tok next w = (Ok tt, w') →
  ∃ id r t pol u h,
    Recoveries (m_st w) !! id = Some r ∧ open_request (m_now w) (HashToken tok) r = true ∧
    (Tenants (m_st w) !! RcTenantID r = Some t ∧ TStatus t = "active" ∧
     ParsePolicy (TPolicy t) (bool_decide (TKind t = "platform")) = (pol, None) ∧ Check pol next = Ok tt) ∧
    userByID (m_st w) (RcTenantID r) (RcUserID r) = Some u ∧ PasswordVerify next h = (true, false) ∧
    (∀ ti x, userByID (m_st w') ti x = if decide (ti = RcTenantID r ∧ x = RcUserID r) then Some (with_password h u) else userByID (m_st w) ti x) ∧
    Recoveries (m_st w') = <[id := used_request (m_now w) r]> (Recoveries (m_st w)) ∧
    (∀ i x, Sessions (m_st w') !! i = Some x → STenantID x = RcTenantID r → SUserID x = RcUserID r → i ≠ "" → SRevokedAt x ≠ None).
Proof using AL.
  intros Hu E. unfold Complete in E. apply bind_ok_inv in E as (rp & w1 & Ep & E). apply peek_ok in Ep as (-> & _ & (id & Hf) & t & Ht & Ha & Hp).
  destruct rp as [r pol]. cbn [fst snd] in *.
  apply bind_ok_inv in E as ([] & w1 & Ec & E). unfold lift in Ec. injection Ec as Hcheck <-.
  apply bind_ok_inv in E as (now & w1 & En & E). unfold nowM, gets in En. injection En as <- <-.
  apply bind_ok_inv in E as (ru & w1 & Eu & E). unfold attempt, storeM, UseRecoveryRequest in Eu. rewrite Hf in Eu. injection Eu as <- <-.
  apply bind_ok_inv in E as (salt & w2 & Es & E). apply bind_ok_inv in E as (h & w3 & Eh & E).
  assert (Hst2 : m_st w2 = set_Recoveries (m_st w) (<[id := used_request (m_now w) r]> (Recoveries (m_st w)))).
  { unfold ReadFull, bind, RandomToken in Es. cbn in Es. destruct (m_entropy w); [done|]. by injection Es as _ <-. }
  unfold lift in Eh. injection Eh as Eh <-.
  apply bind_ok_inv in E as ([] & w4 & Ew & E). apply bind_ok_inv in E as ([] & w5 & Er & E).
  unfold emit, modify in E. injection E as <-. cbn [m_st].
  unfold storeM in Ew. destruct (SetPassword _ _ h (m_st w2)) as [rs s4] eqn:E4. injection Ew as -> <-. rewrite Hst2 in E4.
  pose proof (SetPassword_rows (RcTenantID r) (RcUserID r) h (set_Recoveries (m_st w) (<[id := used_request (m_now w) r]> (Recoveries (m_st w))))) as [R1 R2].
  rewrite E4 in R1, R2. cbn [snd] in R1, R2.
  apply update_user_run in E4 as (_ & _ & _ & _ & Hsome & Hall); [|exact Hu|done].
  apply RevokeUser_dead in Er as (U5 & R5 & S5). cbn [m_st] in U5, R5.
  destruct Hsome as [u Hsome].
  assert (Hin : Recoveries (m_st w) !! id = Some r ∧ open_request (m_now w) (HashToken tok) r = true).
  { apply find_first_Some in Hf as [Hin%elem_of_map_to_list Hopen]. done. }
  destruct Hin as [Hin Hopen]. exists id, r, t, pol, u, h. split_and!; [done|done|done|done|done|done|exact Hsome| | | |exact S5].
  - destruct (Check_ok pol next Hcheck) as (Hl & _ & _). rewrite (Hash_verify (λ _, Some salt) salt next h eq_refl Eh) by lia. by rewrite bool_decide_eq_true_2.
  - intros ti x. replace (userByID (m_st w5) ti x) with (userByID s4 ti x) by (unfold userByID; by rewrite U5). rewrite Hall.
    change (userByID (set_Recoveries (m_st w) _)) with (userByID (m_st w)) in *. destruct (decide (ti = RcTenantID r ∧ x = RcUserID r)) as [[-> ->]|Hd]; [by rewrite Hsome|reflexivity].
  - rewrite R5, R1. done.
Qed.

(** C23. A reset link works once, within half an hour, for its account.  In any
    history that starts without requests, a recovery completes only with the
    token of an unused, unexpired request of an active tenant and a password
    the tenant's policy accepts; then that account, and no other, has the new
    password, which verifies, all its sessions are revoked, and the token
    never works again. *)
Theorem recovery_single_use w0 w ctx tok next w' :
  users_unique (m_st w0) → NoDup (m_entropy w0) → Recoveries (m_st w0) = ∅ → rtc rec_step w0 w →
  CompleteM ctx tok next w = (Ok tt, w') →
  (∃ id r t pol u h,
     Recoveries (m_st w) !! id = Some r ∧ RcTokenHash r = HashToken tok ∧ RcUsedAt r = None ∧ (m_now w < RcExpiresAt r)%Z ∧
     (Tenants (m_st w) !! RcTenantID r = Some t ∧ TStatus t = "active" ∧
      ParsePolicy (TPolicy t) (bool_decide (TKind t = "platform")) = (pol, None) ∧ Check pol next = Ok tt) ∧
     (userByID (m_st w) (RcTenantID r) (RcUserID r) = Some u ∧ PasswordVerify next h = (true, false) ∧
      ∀ ti x, userByID (m_st w') ti x =
        if decide (ti = RcTenantID r ∧ x = RcUserID r) then Some (with_password h u) else userByID (m_st w) ti x) ∧
     ∀ i x, Sessions (m_st w') !! i = Some x → STenantID x = RcTenantID r → SUserID x = RcUserID r → i ≠ "" → SRevokedAt x ≠ None) ∧
  ∀ w2 ctx' next', rtc rec_step w' w2 → is_err (CompleteM ctx' tok next' w2).1 = true.
Proof using AL Hinj.
  intros Hu0 Hn0 He0 Hst E.
  assert (HI : RInv w).
  { apply (keeps_steps w0 w Hst). split; [done|done| |]; rewrite He0.
    - by intros id r Hr%lookup_empty_Some.
    - by intros id id' r r' Hr%lookup_empty_Some. }
  destruct (Complete_ok ctx tok next w w' (ri_users w HI) E) as (id & r & t & pol & u & h & H1 & H2 & H3 & H4 & H5 & H6 & H7 & H8).
  unfold open_request in H2. bool_prop. split.
  { exists id, r, t, pol, u, h. split_and!; done || apply H3. }
  intros w2 ctx' next' Hst2.
  destruct (Keeps_Complete ctx tok next w HI) as [HI' Hk]. rewrite E in HI', Hk. cbn [snd] in HI', Hk.
  assert (Ht' : tok ∉ m_entropy w').
  { destruct (ri_drawn w' HI' id (used_request (m_now w) r)) as (t' & Et & Hn); [by rewrite H7, lookup_insert_eq|].
    cbn in Et. rewrite H in Et. apply Hinj in Et. by subst t'. }
  assert (Hs' : spent w' tok).
  { intros i x Hx Hh. assert (i = id) as ->.
    { eapply (ri_unique w' HI' i id x); [done|by rewrite H7, lookup_insert_eq|]. cbn. congruence. }
    rewrite H7, lookup_insert_eq in Hx. by injection Hx as <-. }
  destruct (keeps_steps w' w2 Hst2 HI') as [_ Hk2]. destruct (Hk2 tok Ht' Hs') as [_ Hs2].
  destruct (CompleteM ctx' tok next' w2) as [[[]|e] w3] eqn:E3; [|done]. exfalso.
  unfold Complete in E3. apply bind_ok_inv in E3 as (rp & w4 & Ep & _). apply peek_ok in Ep as (_ & _ & (i & Hf) & _).
  apply find_first_Some in Hf as [Hin%elem_of_map_to_list Ho]. cbn in Ho. unfold open_request in Ho. bool_prop.
  by eapply Hs2.
Qed.
End RecoverySafety.
