(* ===== verification/SigninSafety.v ===== *)
(** * What sign-in guarantees

    Over any lawful cache and any store: who gets a session, and when an
    account is locked. *)
From S2P Require Import Prelude GoStrings Base64 Utf8 Regex PermRef TenantCtx Models Password Cache Envelope AuditEvents Session Mfa Tenants Signin.
#[local] Open Scope list_scope.
#[local] Open Scope go_scope.

Section SigninSafety.
Context {S K : Type} {SS : SessionStore S} {SG : SigninStore S} {KVK : KV K} {KVL : KVLaws K} {A2 : Argon2}.
Notation W := (Manager S K).
Implicit Types (w : W).
Context (HashToken : string → string) (newID : nat → string).
Context (etld1 : string → option string) (unicode_lower : string → string).
Context (mfa : option (string → string → string → M W string)).
Context (methods : option (string → string → M W (list string))).
Context (keysVerify : option (string → string → string → string → M W unit)).

(** ** Computations that leave cache keys alone *)
Definition kvat w (t : Z) (key : string) : option value :=
  match m_cache w with Some k => kv_at k t key | None => None end.

(** From [w] to [w'] the clock stands still, the cache stays, and the keys in
    [P] read as before from now on. *)
Definition frames (P : string → Prop) w w' : Prop :=
  (is_Some (m_cache w) → is_Some (m_cache w')) ∧ m_now w' = m_now w ∧
  ∀ t key, P key → (m_now w <= t)%Z → kvat w' t key = kvat w t key.
Definition Frame (P : string → Prop) {B} (m : M W B) : Prop := ∀ w, frames P w (m w).2.

Lemma frames_refl P w : frames P w w.
Proof using Type. done. Qed.
Lemma frames_trans P w1 w2 w3 : frames P w1 w2 → frames P w2 w3 → frames P w1 w3.
Proof using Type.
  intros (A1 & A3 & A4) (B1 & B3 & B4). split_and!; [auto|congruence|].
  intros t key Hk Ht. rewrite B4; [by apply A4|done|by rewrite A3].
Qed.
Lemma Frame_ret P {B} (b : B) : Frame P (ret b).
Proof using Type. intros w. apply frames_refl. Qed.
Lemma Frame_throw P {B} e : Frame P (throw (A:=B) e).
Proof using Type. intros w. apply frames_refl. Qed.
Lemma Frame_lift P {B} (r : result B) : Frame P (lift r).
Proof using Type. intros w. apply frames_refl. Qed.
Lemma Frame_gets P {B} (f : W → B) : Frame P (gets f).
Proof using Type. intros w. apply frames_refl. Qed.
Lemma Frame_bind P {B C} (m : M W B) (f : B → M W C) : Frame P m → (∀ b, Frame P (f b)) → Frame P (bind m f).
Proof using Type.
  intros Hm Hf w. unfold bind. specialize (Hm w). destruct (m w) as [[b|e] w1]; [|done].
  eapply frames_trans; [exact Hm|apply Hf].
Qed.
Lemma Frame_attempt P {B} (m : M W B) : Frame P m → Frame P (attempt m).
Proof using Type. intros Hm w. unfold attempt. specialize (Hm w). by destruct (m w). Qed.
Lemma Frame_ignore P {B} (m : M W B) : Frame P m → Frame P (ignore m).
Proof using Type. intros Hm w. unfold ignore. specialize (Hm w). by destruct (m w). Qed.
Lemma Frame_if P {B} (b : bool) (m m' : M W B) : Frame P m → Frame P m' → Frame P (if b then m else m').
Proof using Type. by destruct b. Qed.
Lemma Frame_storeM P {B} (m : M S B) : Frame P (storeM m).
Proof using Type. intros w. unfold storeM. by destruct (m (m_st w)). Qed.
Lemma Frame_emit P e : Frame P (emit e).
Proof using Type. by intros w. Qed.
Lemma Frame_RandomToken P : Frame P RandomToken.
Proof using Type. intros w. unfold RandomToken. by destruct (m_entropy w). Qed.
Lemma Frame_NewID P : Frame P (NewID newID).
Proof using Type. by intros w. Qed.

(** A cache operation that leaves [P] alone. *)
Definition kvFrame (P : string → Prop) {B} (m : Z → M K B) : Prop :=
  ∀ now k r k', m now k = (r, k') → ∀ t key, P key → (now <= t)%Z → kv_at k' t key = kv_at k t key.
Lemma Frame_kvM P {B} (m : Z → M K B) : kvFrame P m → Frame P (kvM m).
Proof using Type.
  intros Hm w. unfold kvM. destruct (m_cache w) as [k|] eqn:Ek; [|apply frames_refl].
  destruct (m (m_now w) k) as [r k'] eqn:E. split_and!; [done|done|]. intros t key Hk Ht. unfold kvat. rewrite Ek. cbn.
  by eapply Hm.
Qed.
Lemma Frame_cacheM P {B} d (m : Z → M K B) : kvFrame P m → Frame P (bind nowM (λ now, cacheM d (m now))).
Proof using Type.
  intros Hm w. unfold bind, nowM, gets, cacheM. destruct (m_cache w) as [k|] eqn:Ek; [|apply frames_refl].
  destruct (m (m_now w) k) as [r k'] eqn:E. split_and!; [done|done|]. intros t key Hk Ht. unfold kvat. rewrite Ek. cbn.
  by eapply Hm.
Qed.
Lemma kvFrame_get P key0 : kvFrame P (λ now, kv_get now key0).
Proof using KVL.
  intros now k r k' E t key _ Ht. destruct (kv_get_law now key0 k) as (k1 & E1 & H1). rewrite E in E1. injection E1 as _ ->. by apply H1.
Qed.
Lemma kvFrame_set (P : string → Prop) key0 v ttl : ¬ P key0 → kvFrame P (λ now, kv_set now key0 v (ttl now)).
Proof using KVL.
  intros Hn now k r k' E t key Hk Ht. destruct (kv_set_law now key0 v (ttl now) k) as (k1 & E1 & H1). rewrite E in E1.
  injection E1 as _ ->. rewrite H1 by done. rewrite decide_False; [done|]. by intros ->.
Qed.
Lemma kvFrame_del (P : string → Prop) key0 : ¬ P key0 → kvFrame P (λ now, kv_del now [key0]).
Proof using KVL.
  intros Hn now k r k' E t key Hk Ht. destruct (kv_del_law now [key0] k) as (k1 & E1 & H1). rewrite E in E1.
  injection E1 as _ ->. rewrite H1 by done. rewrite decide_False; [done|]. intros Hin%list_elem_of_singleton. by subst.
Qed.
Lemma kvFrame_count (P : string → Prop) key0 window : ¬ P key0 → kvFrame P (λ now, Count now key0 window).
Proof using KVL.
  intros Hn now k r k' E t key Hk Ht. destruct (kv_incr_frame now key0 window k) as (r1 & k1 & E1 & H1).
  unfold Count in E. rewrite E in E1. injection E1 as -> ->. apply H1; [done|]. by intros ->.
Qed.
Lemma kvFrame_locked P uid : kvFrame P (λ now, Locked now uid).
Proof using KVL.
  intros now k r k' E t key Hk Ht. unfold Locked, bind in E. destruct (kv_get_law now (LockKey uid) k) as (k1 & E1 & H1).
  rewrite E1 in E. unfold ret in E. injection E as _ <-. by apply H1.
Qed.
Lemma kvFrame_version P tid : kvFrame P (λ now, TenantVersion now tid).
Proof using KVL. intros now k r k' E t key Hk Ht. by eapply TenantVersion_run. Qed.

#[local] Hint Resolve Frame_ret Frame_throw Frame_lift Frame_gets Frame_bind Frame_attempt Frame_ignore Frame_if Frame_storeM
  Frame_emit Frame_RandomToken Frame_NewID Frame_kvM kvFrame_get kvFrame_set kvFrame_del kvFrame_count kvFrame_locked
  kvFrame_version : auth.

(** Session views live under their own keys. *)
Definition no_views (P : string → Prop) : Prop := ∀ h, ¬ P (SessionKey h).

Lemma Frame_tenantVersion P tid : Frame P (tenantVersion tid).
Proof using KVL.
  intros w. pose proof (Frame_cacheM P 0%Z _ (kvFrame_version P tid) w) as Hf. revert Hf.
  unfold tenantVersion, bind, nowM, gets, attempt, ret. by destruct (cacheM _ _ w).
Qed.
Lemma Frame_putView P hash v : no_views P → Frame P (putView hash v).
Proof using KVL.
  intros Hp w. pose proof (Frame_cacheM P tt _ (kvFrame_set P (SessionKey hash) (Json (view_json v)) (λ now, view_ttl now v) (Hp hash)) w) as Hf.
  revert Hf. unfold putView, bind, nowM, gets, ignore. destruct (0 <? _)%Z; [|by unfold ret]. by destruct (cacheM _ _ w).
Qed.
Lemma Frame_loadProfile P v : Frame P (loadProfile v).
Proof using Type. unfold loadProfile. auto 10 with auth. Qed.
#[local] Hint Resolve Frame_tenantVersion Frame_putView Frame_loadProfile : auth.

Lemma Frame_Create P p : no_views P → Frame P (Create HashToken newID p).
Proof using KVL.
  intros Hp. unfold Create. repeat (apply Frame_bind; [unfold nowM; auto with auth|intros ?]). auto with auth.
Qed.
Lemma Frame_recordAttempt P a b c d e f : Frame P (recordAttempt a b c d e f).
Proof using Type. unfold recordAttempt. auto with auth. Qed.
Lemma Frame_countM (P : string → Prop) key window : ¬ P key → Frame P (countM key window).
Proof using KVL. intros Hp. unfold countM. auto with auth. Qed.
Lemma Frame_lockedM P uid : Frame P (lockedM uid).
Proof using KVL. unfold lockedM. auto 10 with auth. Qed.
Lemma Frame_del (P : string → Prop) key : ¬ P key → Frame P (kvM (λ now, kv_del now [key])).
Proof using KVL. auto with auth. Qed.
Lemma Frame_lock (P : string → Prop) uid d : ¬ P (LockKey uid) → Frame P (kvM (λ now, Lock now uid d)).
Proof using KVL. intros Hp. apply Frame_kvM. exact (kvFrame_set P (LockKey uid) (Raw "1") (λ _, d) Hp). Qed.
#[local] Hint Resolve Frame_Create Frame_recordAttempt Frame_countM Frame_lockedM Frame_del Frame_lock : auth.

Lemma Frame_establish P c amr eh : no_views P → Frame P (establish HashToken newID c amr eh).
Proof using KVL.
  intros Hp. unfold establish. repeat (apply Frame_bind; [unfold nowM; auto with auth|intros ?]). auto with auth.
Qed.
Lemma Frame_findAccount P slug email : Frame P (findAccount etld1 unicode_lower slug email).
Proof using Type.
  unfold findAccount. apply Frame_bind; [auto with auth|]. intros [t|e]; auto 10 with auth.
Qed.
Hypothesis Hmethods : ∀ m tid uid, methods = Some m → Frame (λ _, True) (m tid uid).
Lemma Frame_weaken (P Q : string → Prop) {B} (m : M W B) : (∀ k, Q k → P k) → Frame P m → Frame Q m.
Proof using Type. intros Hpq Hm w. destruct (Hm w) as (H1 & H2 & H3). split_and!; auto. Qed.
Lemma Frame_mfaMethods P tid uid : Frame P (mfaMethods methods keysVerify tid uid).
Proof using Hmethods.
  unfold mfaMethods. apply Frame_bind; [|auto with auth]. destruct methods as [m|] eqn:E; [|auto with auth].
  apply Frame_bind; [|auto with auth]. apply Frame_attempt. eapply Frame_weaken; [|by apply Hmethods]. done.
Qed.
#[local] Hint Resolve Frame_establish Frame_findAccount Frame_mfaMethods : auth.

(** ** Reading the lock *)
Definition is_locked w (uid : string) : Prop := is_Some (kvat w (m_now w) (LockKey uid)).

Lemma kvM_st {B} (m : Z → M K B) w : m_st (kvM m w).2 = m_st w.
Proof using Type. unfold kvM. destruct (m_cache w); [|done]. by destruct (m _ _). Qed.
Lemma countM_st key window w : m_st (countM key window w).2 = m_st w.
Proof using Type. unfold countM, attempt. pose proof (kvM_st (λ now, Count now key window) w) as H. by destruct (kvM _ w). Qed.

Lemma lockedM_run uid w : is_Some (m_cache w) → ∃ b w1, lockedM uid w = (Ok b, w1) ∧
  (b = true ↔ is_locked w uid) ∧ frames (λ _, True) w w1 ∧ m_st w1 = m_st w.
Proof using KVL.
  intros [k Hk]. pose proof (Frame_lockedM (λ _, True) uid w) as Hf. revert Hf.
  unfold lockedM, bind, attempt, kvM, Locked. rewrite Hk. unfold bind.
  destruct (kv_get_law (m_now w) (LockKey uid) k) as (k1 & E & H1). rewrite E. unfold ret. cbn [snd]. intros Hf.
  eexists _, _. split_and!; [done| |done|done]. unfold is_locked, kvat. rewrite Hk.
  destruct (kv_at k (m_now w) (LockKey uid)); split; try done.
Qed.

Definition account w (inp : Input) (t : Tenant) (ou : option User) : Prop :=
  (findAccount etld1 unicode_lower (InTenantSlug inp) (ToLower unicode_lower (TrimSpace (InEmail inp))) w).1 = Ok (t, ou).
Lemma findAccount_st slug email w w1 : m_st w1 = m_st w →
  (findAccount etld1 unicode_lower slug email w1).1 = (findAccount etld1 unicode_lower slug email w).1.
Proof using Type.
  intros Hst. unfold findAccount, bind, attempt, storeM. rewrite Hst.
  destruct (Lookup _ _ _ _ _ _ (m_st w)) as [[t|e] s1]; [|done]. cbn [m_st].
  by destruct (sg_user_by_email (TID t) email s1).
Qed.
Lemma findAccount_total slug email w : ∃ t ou w1, findAccount etld1 unicode_lower slug email w = (Ok (t, ou), w1).
Proof using Type.
  unfold findAccount, bind, attempt, storeM, ret. destruct (Lookup _ _ _ _ _ _ (m_st w)) as [[t|e] s1]; [|eauto].
  cbn [m_st]. destruct (sg_user_by_email (TID t) email s1). eauto.
Qed.

(** ** Who gets a session *)
Notation StartM := (Start HashToken newID etld1 unicode_lower methods keysVerify).
Notation completeM := (complete HashToken newID).

(** A challenge that waits under [id], and none. *)
Definition waiting w (id : string) (c : challenge) : Prop :=
  ∃ j, kvat w (m_now w) (ChallengeKey (HashToken id)) = Some (Json j) ∧ challenge_of_json j = Some c.
Definition no_challenge w (id : string) : Prop :=
  ∀ t, (m_now w <= t)%Z → kvat w t (ChallengeKey (HashToken id)) = None.

Lemma RateKey_LockKey kind x uid : RateKey kind x ≠ LockKey uid.
Proof using Type. unfold RateKey, LockKey. cbn. done. Qed.
Lemma no_views_LockKey uid : no_views (λ k, k = LockKey uid).
Proof using Type. intros h. unfold SessionKey, LockKey. cbn. done. Qed.
Lemma no_views_Challenge h : no_views (λ k, k = ChallengeKey h).
Proof using Type. intros x. unfold SessionKey, ChallengeKey. cbn. done. Qed.

Lemma Create_ok p w s secret w' : Create HashToken newID p w = (Ok (s, secret), w') →
  STenantID s = cpTenantID p ∧ SUserID s = cpUserID p ∧ SAMR s = cpAMR p ∧ SCreatedAt s = m_now w.
Proof using Type.
  intros E. unfold Create in E. apply bind_ok_inv in E as (x & w1 & E1 & E). apply bind_ok_inv in E as (now & w2 & E2 & E).
  apply bind_ok_inv in E as (id & w3 & E3 & E). apply bind_ok_inv in E as ([] & w4 & E4 & E).
  apply bind_ok_inv in E as (pv & w5 & E5 & E). apply bind_ok_inv in E as (v & w6 & E6 & E).
  apply bind_ok_inv in E as ([] & w7 & E7 & E). unfold ret in E. injection E as <- <- _. cbn. split_and!; [done..|].
  unfold nowM, gets in E2. injection E2 as <- _. unfold RandomToken in E1. destruct (m_entropy w); [done|].
  by injection E1 as _ <-.
Qed.
Lemma establish_ok c amr eh w res w' : establish HashToken newID c amr eh w = (Ok res, w') →
  RsMFARequired res = false ∧ ∃ s, RsSession res = Some s ∧ STenantID s = ChTenantID c ∧ SUserID s = ChUserID c ∧ SAMR s = amr.
Proof using Type.
  intros E. unfold establish in E. apply bind_ok_inv in E as ([s secret] & w1 & E1 & E). apply Create_ok in E1 as (H1 & H2 & H3 & _).
  apply bind_ok_inv in E as (now & w2 & _ & E). apply bind_ok_inv in E as ([] & w3 & _ & E).
  apply bind_ok_inv in E as ([] & w4 & _ & E). apply bind_ok_inv in E as ([] & w5 & _ & E).
  unfold ret in E. injection E as <- _. split; [done|]. by exists s.
Qed.

(** What the first step gives to an account whose password was accepted. *)
Definition first_step_gives (t : Tenant) (u : User) (res : SigninResult) w' : Prop :=
  if UMFAEnabled u
  then RsMFARequired res = true ∧ RsSession res = None ∧
       ∃ c, waiting w' (RsChallenge res) c ∧ ChTenantID c = TID t ∧ ChUserID c = UID u
  else RsMFARequired res = false ∧ ∃ s, RsSession res = Some s ∧ STenantID s = TID t ∧ SUserID s = UID u ∧ SAMR s = ["pwd"].

Lemma passwordOK_ok inp t u pol rh eh ih w res w' : is_Some (m_cache w) →
  passwordOK HashToken newID methods keysVerify inp t u pol rh eh ih w = (Ok res, w') → first_step_gives t u res w'.
Proof using KVL Hmethods.
  intros Hc E. unfold passwordOK in E. apply bind_ok_inv in E as ([] & w1 & E1 & E).
  apply bind_ok_inv in E as ([] & w2 & E2 & E). apply bind_ok_inv in E as (roles & w3 & E3 & E).
  assert (Hc3 : is_Some (m_cache w3)).
  { assert (F1 := Frame_ignore (λ _, False) _ (Frame_del (λ _, False) (RateKey "fail" (UID u)) id) w). rewrite E1 in F1.
    assert (F2 : frames (λ _, False) w1 w2).
    { match type of E2 with ?m w1 = _ => assert (Hf : Frame (λ _, False) m) end.
      { destruct rh; [|auto with auth]. apply Frame_bind; [unfold ReadFull; auto 10 with auth|]. intros [salt|e]; [|auto with auth].
        destruct (Password.Hash _ _); auto with auth. }
      specialize (Hf w1). by rewrite E2 in Hf. }
    assert (F3 := Frame_storeM (λ _, False) (ss_roles (TID t) (UID u)) w2). rewrite E3 in F3.
    apply F3, F2, F1, Hc. }
  cbv zeta in E. unfold first_step_gives. destruct (UMFAEnabled u).
  - apply bind_ok_inv in E as (id & w4 & E4 & E). apply bind_ok_inv in E as ([] & w5 & E5 & E).
    apply bind_ok_inv in E as ([] & w6 & E6 & E). apply bind_ok_inv in E as (ms & w7 & E7 & E).
    unfold ret in E. injection E as <- <-. cbn [RsMFARequired RsSession RsChallenge]. split_and!; [done..|].
    set (c := mkChallenge (TID t) (UID u) ih (InUserAgent inp) roles (bool_decide (TKind t = "platform")) pol) in *.
    exists c. split; [|done]. exists (challenge_json c). split; [|apply challenge_of_challenge_json].
    assert (Hc4 : is_Some (m_cache w4)).
    { assert (F4 := Frame_RandomToken (λ _, False) w3). rewrite E4 in F4. by apply F4. }
    unfold kvM in E5. destruct Hc4 as [k Hk]. rewrite Hk in E5.
    destruct (kv_set_law (m_now w4) (ChallengeKey (HashToken id)) (Json (challenge_json c)) ChallengeTTL k) as (k' & Ek & Hk').
    rewrite Ek in E5. injection E5 as <-.
    assert (F6 := Frame_recordAttempt (λ _, True) (TID t) (UID u) eh ih "ok" "mfa_pending"
      (mkManager (m_st w4) (Some k') (m_audit w4) (m_now w4) (m_entropy w4) (m_ids w4))). rewrite E6 in F6. cbn [snd] in F6.
    assert (F7 := Frame_mfaMethods (λ _, True) (TID t) (UID u) w6). rewrite E7 in F7. cbn [snd] in F7.
    destruct (frames_trans _ _ _ _ F6 F7) as (_ & Hn & Hk7). cbn [m_now] in *. rewrite Hk7 by (done || lia).
    rewrite Hn. unfold kvat. cbn [m_cache]. rewrite Hk' by lia. rewrite decide_True by done. unfold ttl_live.
    by rewrite (proj2 (Z.ltb_lt _ _)) by (unfold ChallengeTTL, Dur.minute, Dur.second; lia).
  - apply bind_ok_inv in E as (res' & w4 & E4 & E). apply establish_ok in E4 as (H1 & s & H2 & H3 & H4 & H5).
    unfold ret in E. injection E as <- _. split; [done|]. by exists s.
Qed.

(** Both counters and the account lookup leave locks and challenges alone. *)
Lemma Start_ok inp w res w' : is_Some (m_cache w) → StartM inp w = (Ok res, w') →
  ∃ t u rh, account w inp t (Some u) ∧ ¬ is_locked w (UID u) ∧
    PasswordVerify (InPassword inp) (default "" (UPasswordHash u)) = (true, rh) ∧
    TStatus t = "active" ∧ UStatus u = "active" ∧ first_step_gives t u res w'.
Proof using KVL Hmethods.
  intros Hc E. unfold Start in E. cbv zeta in E. apply bind_ok_inv in E as (n & w1 & E1 & E).
  destruct (over n IPLimit). { apply bind_ok_inv in E as (? & ? & _ & E). done. }
  set (email := ToLower unicode_lower (TrimSpace (InEmail inp))) in *.
  assert (F1 : ∀ uid, frames (λ k, k = LockKey uid) w w1).
  { intros uid. pose proof (Frame_countM (λ k, k = LockKey uid) _ IPWindow (RateKey_LockKey "signin_ip" (HashIP HashToken (InIP inp)) uid) w) as H.
    by rewrite E1 in H. }
  pose proof (countM_st (RateKey "signin_ip" (HashIP HashToken (InIP inp))) IPWindow w) as S1. rewrite E1 in S1. cbn [snd] in S1.
  apply bind_ok_inv in E as ([t ou] & w2 & E2 & E).
  pose proof (λ P, Frame_findAccount P (InTenantSlug inp) email w1) as F2. rewrite E2 in F2. cbn [snd fst] in *.
  pose proof (findAccount_st (InTenantSlug inp) email w w1 S1) as Hacc. rewrite E2 in Hacc. cbn [fst] in Hacc.
  apply bind_ok_inv in E as (n2 & w3 & E3 & E).
  destruct (over n2 AccountLimit). { apply bind_ok_inv in E as (? & ? & _ & E). done. }
  destruct ou as [u|]; cycle 1.
  { apply bind_ok_inv in E as (? & ? & _ & E). apply bind_ok_inv in E as (? & ? & _ & E). done. }
  assert (F : frames (λ k, k = LockKey (UID u)) w w3).
  { eapply frames_trans; [apply F1|]. eapply frames_trans; [apply F2|].
    match type of E3 with countM ?key ?win w2 = _ => pose proof (Frame_countM (λ k, k = LockKey (UID u)) key win (RateKey_LockKey _ _ _) w2) as H end.
    by rewrite E3 in H. }
  destruct F as (FC & FN & FK). specialize (FC Hc).
  destruct (lockedM_run (UID u) w3 FC) as (b & w4 & El & Hb & (FC4 & _) & _).
  rewrite (bind_ok _ _ _ _ _ El) in E. destruct b.
  { apply bind_ok_inv in E as (? & ? & _ & E). apply bind_ok_inv in E as (? & ? & _ & E). done. }
  destruct (PasswordVerify _ _) as [ok rh] eqn:Epw. destruct ok; cbn [negb] in E.
  2: { apply bind_ok_inv in E as (? & ? & _ & E). done. }
  case_bool_decide as Ht. { apply bind_ok_inv in E as (? & ? & _ & E). done. }
  case_bool_decide as Hu. { apply bind_ok_inv in E as (? & ? & _ & E). done. }
  exists t, u, rh. split_and!; [unfold account; exact (eq_sym Hacc)| |done| | |by eapply passwordOK_ok, E; auto].
  - intros Hl. assert (Hx : is_locked w3 (UID u)); [|by apply Hb in Hx].
    unfold is_locked in *. rewrite FN, FK by (done || lia). exact Hl.
  - by destruct (decide (TStatus t = "active")).
  - by destruct (decide (UStatus u = "active")).
Qed.

Lemma pendingSignin_ok id w c w1 : is_Some (m_cache w) → pendingSignin HashToken id w = (Ok c, w1) →
  waiting w id c ∧ id ≠ "" ∧ frames (λ _, True) w w1 ∧ m_st w1 = m_st w.
Proof using KVL.
  intros [k Hk] E. pose proof (Frame_attempt (λ _, True) _ (Frame_kvM _ _ (kvFrame_get (λ _, True) (ChallengeKey (HashToken id)))) w) as F.
  pose proof (kvM_st (λ now, kv_get now (ChallengeKey (HashToken id))) w) as Hst.
  unfold pendingSignin in E. apply bind_ok_inv in E as (r & w2 & E1 & E). rewrite E1 in F. cbn [snd] in F.
  unfold attempt in E1. destruct (kvM _ w) as [r' w3] eqn:Ekv. injection E1 as <- <-. cbn [snd] in Hst.
  unfold kvM in Ekv. rewrite Hk in Ekv. destruct (kv_get_law (m_now w) (ChallengeKey (HashToken id)) k) as (k1 & Eg & _).
  rewrite Eg in Ekv. injection Ekv as <- Hw3.
  destruct (kv_at k (m_now w) _) as [[?|j]|] eqn:Ej; [done| |done]. case_bool_decide; [done|].
  destruct (challenge_of_json j) as [c'|] eqn:Ec; [|done]. unfold ret in E. injection E as <- <-.
  split_and!; [|done|done|done]. exists j. unfold kvat. by rewrite Hk.
Qed.

Lemma del_run key w : is_Some (m_cache w) → ∃ w1, ignore (kvM (λ now, kv_del now [key])) w = (Ok tt, w1) ∧
  is_Some (m_cache w1) ∧ m_now w1 = m_now w ∧ m_st w1 = m_st w ∧
  ∀ t k, (m_now w <= t)%Z → kvat w1 t k = if decide (k = key) then None else kvat w t k.
Proof using KVL.
  intros [k Hk]. unfold ignore, kvM. rewrite Hk. destruct (kv_del_law (m_now w) [key] k) as (k1 & E & H). rewrite E.
  eexists. split_and!; [done|done|done|done|]. intros t x Ht. unfold kvat. rewrite Hk. cbn [m_cache]. rewrite H by done.
  assert (Hx : x ∈ [key] ↔ x = key) by (by rewrite list_elem_of_singleton). repeat case_decide; try done; by rewrite Hx in *.
Qed.

Lemma complete_ok id ip ua verify w res w' : is_Some (m_cache w) → (∀ c, Frame (λ _, False) (verify c)) →
  completeM id ip ua verify w = (Ok res, w') →
  ∃ c method w1 w2, waiting w id c ∧ ¬ is_locked w (ChUserID c) ∧ m_st w1 = m_st w ∧ m_now w1 = m_now w ∧
    verify c w1 = (Ok method, w2) ∧ no_challenge w' id ∧
    ∃ s, RsSession res = Some s ∧ STenantID s = ChTenantID c ∧ SUserID s = ChUserID c ∧ SAMR s = ["pwd"; method].
Proof using KVL.
  intros Hc Hv E. unfold complete in E. apply bind_ok_inv in E as (c & w1 & E1 & E). cbv zeta in E.
  apply pendingSignin_ok in E1 as (Hwait & _ & (C1 & N1 & K1) & S1); [|done]. specialize (C1 Hc).
  destruct (lockedM_run (ChUserID c) w1 C1) as (b & w2 & El & Hb & (C2 & N2 & K2) & S2). specialize (C2 C1).
  rewrite (bind_ok _ _ _ _ _ El) in E. destruct b; [done|].
  apply bind_ok_inv in E as (r & w3 & E3 & E). unfold attempt in E3. destruct (verify c w2) as [r' w3'] eqn:Ev. injection E3 as -> ->.
  pose proof (Hv c w2) as FV. rewrite Ev in FV. cbn [snd] in FV. destruct FV as (C3 & N3 & _). specialize (C3 C2).
  destruct r as [method|e]; cycle 1.
  { apply bind_ok_inv in E as (? & ? & _ & E). apply bind_ok_inv in E as (? & ? & _ & E).
    apply bind_ok_inv in E as (? & ? & _ & E). apply bind_ok_inv in E as (? & ? & _ & E). done. }
  destruct (del_run (ChallengeKey (HashToken id)) w3 C3) as (w4 & E4 & C4 & N4 & _ & K4). rewrite (bind_ok _ _ _ _ _ E4) in E.
  destruct (del_run (RateKey "fail" (ChUserID c)) w4 C4) as (w5 & E5 & C5 & N5 & _ & K5). rewrite (bind_ok _ _ _ _ _ E5) in E.
  exists c, method, w2, w3. split_and!; [done| |congruence|congruence|done| |].
  - intros Hl. assert (Hx : is_locked w1 (ChUserID c)); [|by apply Hb in Hx].
    unfold is_locked in *. rewrite N1, K1 by (done || lia). exact Hl.
  - match type of E with establish _ _ ?cc ?amr ?eh w5 = _ =>
      pose proof (Frame_establish _ cc amr eh (no_views_Challenge (HashToken id)) w5) as F end.
    rewrite E in F. cbn [snd] in F. destruct F as (_ & N6 & K6). intros t Ht. rewrite K6 by (done || lia).
    rewrite K5, K4 by lia. rewrite decide_False by done. by rewrite decide_True.
  - apply establish_ok in E as (_ & s & H1 & H2 & H3 & H4). by exists s.
Qed.

(** C16. Who gets a session.  Step one answers with success only for an active
    account of an active tenant that is not locked and whose stored hash
    verifies the password; it creates a session by password only if the
    account asks for no second factor, and otherwise only a challenge for that
    account.  Step two creates a session only for a waiting challenge of an
    account that is not locked and whose verifier accepted, for exactly the
    tenant and user of the challenge, and the challenge cannot be used again. *)
Theorem signin_sound w : is_Some (m_cache w) →
  (∀ inp res w', StartM inp w = (Ok res, w') →
     ∃ t u rh, account w inp t (Some u) ∧ ¬ is_locked w (UID u) ∧
       PasswordVerify (InPassword inp) (default "" (UPasswordHash u)) = (true, rh) ∧
       TStatus t = "active" ∧ UStatus u = "active" ∧ first_step_gives t u res w') ∧
  (∀ id ip ua verify res w', (∀ c, Frame (λ _, False) (verify c)) → completeM id ip ua verify w = (Ok res, w') →
     ∃ c method w1 w2, waiting w id c ∧ ¬ is_locked w (ChUserID c) ∧ m_st w1 = m_st w ∧ m_now w1 = m_now w ∧
       verify c w1 = (Ok method, w2) ∧ no_challenge w' id ∧
       ∃ s, RsSession res = Some s ∧ STenantID s = ChTenantID c ∧ SUserID s = ChUserID c ∧ SAMR s = ["pwd"; method]).
Proof using KVL Hmethods.
  intros Hc. split; [intros inp res w'; by apply Start_ok|]. intros id ip ua verify res w' Hv. by apply complete_ok.
Qed.
End SigninSafety.
