(* ===== verification/SigninLockout.v ===== *)
(** * Wrong guesses lock an account

    Failed attempts of either step count in one window; the count that reaches
    the policy's threshold locks the account for the policy's duration. *)
From S2P Require Import Prelude GoStrings Base64 Utf8 Regex PermRef TenantCtx Models Password Cache Envelope AuditEvents Session Mfa Tenants Signin SigninSafety.
#[local] Open Scope list_scope.
#[local] Open Scope go_scope.

Section Lockout.
Context {S K : Type} {SS : SessionStore S} {SG : SigninStore S} {KVK : KV K} {KVL : KVLaws K} {A2 : Argon2}.
Notation W := (Manager S K).
Implicit Types (w : W) (uid : string) (pol : Policy).
Context (HashToken : string → string) (newID : nat → string).
Context (etld1 : string → option string) (unicode_lower : string → string).
Context (methods : option (string → string → M W (list string))).
Context (keysVerify : option (string → string → string → string → M W unit)).
Context (Hmethods : ∀ m tid uid, methods = Some m → Frame (λ _, True) (m tid uid)).
Notation StartM := (Start HashToken newID etld1 unicode_lower methods keysVerify).
Notation completeM := (complete HashToken newID).
Notation accountW := (account etld1 unicode_lower).
Notation waitingW := (waiting HashToken).

Definition failKey uid : string := RateKey "fail" uid.
(** The two keys that decide. *)
Definition deciding uid (k : string) : Prop := k = failKey uid ∨ k = LockKey uid.

(** [n] failures are counted in a window that ends at [exp]. *)
Definition counted w uid (n exp : Z) : Prop :=
  ∀ t, (m_now w <= t)%Z → kvat w t (failKey uid) = if (t <? exp)%Z then Some (Raw (FormatInt n)) else None.
Definition locked_until w uid (d : Z) : Prop := ∀ t, (m_now w <= t < d)%Z → is_Some (kvat w t (LockKey uid)).

(** Ready to count the next failure: none so far, or inside the window. *)
Definition ready w uid pol (n exp : Z) : Prop :=
  (n = 0%Z ∧ kvat w (m_now w) (failKey uid) = None ∧ exp = (m_now w + LockoutDuration pol)%Z) ∨
  ((0 < n)%Z ∧ counted w uid n exp ∧ (m_now w < exp)%Z).

Lemma frames_ready uid w w' pol n exp : frames (deciding uid) w w' → ready w uid pol n exp → ready w' uid pol n exp.
Proof using Type.
  intros (_ & Hn & Hk) [(-> & H1 & ->)|(H1 & H2 & H3)]; [left|right]; rewrite ?Hn.
  - split_and!; [done| |done]. rewrite Hk; [done|by left|lia].
  - split_and!; [done| |done]. intros t Ht. rewrite Hn in Ht. rewrite Hk by (done || by left). by apply H2.
Qed.

Lemma countM_ready uid pol n exp w : is_Some (m_cache w) → (0 < LockoutDuration pol)%Z → ready w uid pol n exp →
  ∃ w1, countM (failKey uid) (LockoutDuration pol) w = (Ok (Ok (n + 1)%Z), w1) ∧ is_Some (m_cache w1) ∧
    m_now w1 = m_now w ∧ counted w1 uid (n + 1) exp ∧ kvat w1 (m_now w) (failKey uid) ≠ None.
Proof using KVL.
  intros [k Hk] Hd Hr. unfold countM, attempt, kvM. rewrite Hk.
  assert (Hc : ∃ k', Count (m_now w) (failKey uid) (LockoutDuration pol) k = (Ok (n + 1)%Z, k') ∧
    counting (failKey uid) (m_now w) (n + 1) exp k' ∧ (m_now w < exp)%Z).
  { destruct Hr as [(-> & H1 & ->)|(H1 & H2 & H3)].
    - unfold kvat in H1. rewrite Hk in H1.
      destruct (counting_first (failKey uid) (LockoutDuration pol) (m_now w) k Hd H1) as (k' & E & Hc). exists k'. split_and!; [done|done|lia].
    - assert (Hc : counting (failKey uid) (m_now w) n exp k).
      { intros t Ht. specialize (H2 t Ht). unfold kvat in H2. by rewrite Hk in H2. }
      destruct (counting_step (failKey uid) (LockoutDuration pol) (m_now w) (m_now w) n exp k) as (k' & E & Hc'); [lia|lia|done|].
      by exists k'. }
  destruct Hc as (k' & E & Hc & Hlt). rewrite E. eexists. split_and!; [done|done|done| |].
  - intros t Ht. cbn [m_now] in Ht. unfold kvat. cbn [m_cache]. by apply Hc.
  - unfold kvat. cbn [m_cache]. rewrite Hc by lia. by rewrite (proj2 (Z.ltb_lt _ _)).
Qed.

Lemma lock_run uid d w : is_Some (m_cache w) → ∃ w1, ignore (kvM (λ now, Lock now uid d)) w = (Ok tt, w1) ∧
  is_Some (m_cache w1) ∧ m_now w1 = m_now w ∧ locked_until w1 uid (m_now w + d) ∧
  ∀ t k, k ≠ LockKey uid → (m_now w <= t)%Z → kvat w1 t k = kvat w t k.
Proof using KVL.
  intros [k Hk]. unfold ignore, kvM, Lock. rewrite Hk. destruct (kv_set_law (m_now w) (LockKey uid) (Raw "1") d k) as (k1 & E & H).
  rewrite E. eexists. split_and!; [done|done|done| |].
  - intros t Ht. unfold kvat. cbn [m_cache m_now] in *. rewrite H by lia. rewrite decide_True by done. unfold ttl_live.
    rewrite (proj2 (Z.ltb_lt _ _)) by lia. by rewrite orb_true_r.
  - intros t x Hx Ht. unfold kvat. rewrite Hk. cbn [m_cache]. rewrite H by done. by rewrite decide_False.
Qed.

(** Counting a failure and locking, with what comes after them. *)
Definition tallied uid pol (n exp : Z) w w' : Prop :=
  is_Some (m_cache w') ∧ m_now w' = m_now w ∧ counted w' uid (n + 1) exp ∧
  (LockoutThreshold pol <= n + 1 → locked_until w' uid (m_now w + LockoutDuration pol))%Z.

Lemma frames_tallied uid pol n exp w w1 w2 : tallied uid pol n exp w w1 → frames (deciding uid) w1 w2 → tallied uid pol n exp w w2.
Proof using Type.
  intros (H1 & H2 & H3 & H4) (F1 & F2 & F3). split_and!; [auto|congruence| |].
  - intros t Ht. rewrite F3; [apply H3|by left|]; congruence.
  - intros Hn t Ht. rewrite F3; [apply H4; [done|]|by right|]; rewrite F2 in Ht; [lia|lia].
Qed.

Lemma tally_run {B} uid pol n exp w (m : Z → M W B) : is_Some (m_cache w) → (0 < LockoutDuration pol)%Z →
  ready w uid pol n exp → (∀ x, Frame (deciding uid) (m x)) →
  tallied uid pol n exp w
    (bind (countM (failKey uid) (LockoutDuration pol)) (λ rn,
       let n := match rn with Ok n => n | Err _ => 0%Z end in
       bind (if (LockoutThreshold pol <=? n)%Z then ignore (kvM (λ now, Lock now uid (LockoutDuration pol))) else ret tt) (λ _, m n)) w).2.
Proof using KVL.
  intros Hc Hd Hr Hm. destruct (countM_ready uid pol n exp w Hc Hd Hr) as (w1 & E1 & C1 & N1 & K1 & _).
  rewrite (bind_ok _ _ _ _ _ E1). cbv zeta beta iota. destruct (LockoutThreshold pol <=? n + 1)%Z eqn:El; bool_prop.
  - destruct (lock_run uid (LockoutDuration pol) w1 C1) as (w2 & E2 & C2 & N2 & L2 & K2). rewrite (bind_ok _ _ _ _ _ E2).
    eapply frames_tallied; [|apply Hm]. split_and!; [done|congruence| |].
    + intros t Ht. rewrite K2; [apply K1; congruence| |congruence]. unfold failKey, RateKey, LockKey. by cbn.
    + intros _. by rewrite N1 in L2.
  - rewrite (bind_ok _ _ _ tt w1) by done. eapply frames_tallied; [|apply Hm]. split_and!; [done|congruence|done|lia].
Qed.

(** ** Attempts that fail *)
#[local] Hint Resolve Frame_ret Frame_throw Frame_lift Frame_gets Frame_bind Frame_attempt Frame_ignore Frame_if Frame_storeM
  Frame_emit Frame_recordAttempt : auth.

Lemma failure_tallied t u pol n exp eh ih ua reason w : is_Some (m_cache w) → (0 < LockoutDuration pol)%Z →
  ready w (UID u) pol n exp → tallied (UID u) pol n exp w (failure t u pol eh ih ua reason w).2.
Proof using KVL.
  intros Hc Hd Hr.
  set (m := λ n, if (LockoutThreshold pol <=? n)%Z
    then bind (emit (signinEvent Lockout (TID t) (UID u) "" "" "refused" "threshold" ih ua
               [("failures", DInt n); ("duration", DStr (DurationString (LockoutDuration pol)))])) (λ _,
         bind (recordAttempt (TID t) (UID u) eh ih "refused" "locked") (λ _,
         emit (signinEvent SigninFailed (TID t) (UID u) "" "" "refused" reason ih ua [])))
    else bind (recordAttempt (TID t) (UID u) eh ih "refused" reason) (λ _,
         emit (signinEvent SigninFailed (TID t) (UID u) "" "" "refused" reason ih ua [])) : M W unit).
  assert (Hm : ∀ x, Frame (deciding (UID u)) (m x)) by (intros x; subst m; cbv beta; auto 10 with auth).
  pose proof (tally_run (UID u) pol n exp w m Hc Hd Hr Hm) as Ht. clear Hm.
  replace (failure t u pol eh ih ua reason w) with
    (bind (countM (failKey (UID u)) (LockoutDuration pol)) (λ rn,
       let n := match rn with Ok n => n | Err _ => 0%Z end in
       bind (if (LockoutThreshold pol <=? n)%Z then ignore (kvM (λ now, Lock now (UID u) (LockoutDuration pol))) else ret tt) (λ _, m n)) w);
    [exact Ht|]. clear Ht. subst m. unfold failure, failKey, bind. cbv zeta beta.
  destruct (countM _ _ w) as [[rn|e] w1]; [|done]. by destruct (LockoutThreshold pol <=? _)%Z.
Qed.

(** Step one refuses a known account for its password or status. *)
Definition refused (inp : Input) (t : Tenant) (u : User) : Prop :=
  (PasswordVerify (InPassword inp) (default "" (UPasswordHash u))).1 = false ∨ TStatus t ≠ "active" ∨ UStatus u ≠ "active".

Lemma RateKey_deciding uid kind x : kind = "signin_ip" ∨ kind = "signin_acct" → ¬ deciding uid (RateKey kind x).
Proof using Type. intros [->| ->] [H|H]; unfold RateKey, failKey, LockKey in H; cbn in H; done. Qed.

Lemma Start_refused inp t u w w' e pol n exp :
  is_Some (m_cache w) → accountW w inp t (Some u) → refused inp t u →
  pol = (ParsePolicy (TPolicy t) (bool_decide (TKind t = "platform"))).1 → (0 < LockoutDuration pol)%Z →
  ready w (UID u) pol n exp → StartM inp w = (Err e, w') → e ≠ ErrRateLimited → e ≠ ErrLocked →
  tallied (UID u) pol n exp w w'.
Proof using KVL.
  intros Hc Hacc Href -> Hd Hr E Hrl Hl. unfold Start in E. cbv zeta in E. unfold bind at 1 in E.
  set (email := ToLower unicode_lower (TrimSpace (InEmail inp))) in *.
  pose proof (Frame_countM (deciding (UID u)) _ IPWindow (RateKey_deciding (UID u) "signin_ip" (HashIP HashToken (InIP inp)) (or_introl eq_refl)) w) as F1.
  pose proof (countM_st (RateKey "signin_ip" (HashIP HashToken (InIP inp))) IPWindow w) as S1.
  destruct (countM _ IPWindow w) as [[n1|e1] w1] eqn:E1; cbn [snd] in F1, S1.
  2: { unfold countM, attempt in E1. by destruct (kvM _ w). }
  destruct (over n1 IPLimit).
  { unfold bind in E. destruct (recordAttempt _ _ _ _ _ _ w1) as [[]] eqn:Era; unfold throw in E; [congruence|].
    unfold recordAttempt, ignore in Era. by destruct (storeM _ w1). }
  unfold account in Hacc. fold email in Hacc. rewrite <- (findAccount_st etld1 unicode_lower (InTenantSlug inp) email w w1 S1) in Hacc.
  pose proof (Frame_findAccount etld1 unicode_lower (deciding (UID u)) (InTenantSlug inp) email w1) as F2.
  unfold bind at 1 in E. destruct (findAccount _ _ _ email w1) as [r2 w2]. cbn [fst snd] in Hacc, F2. subst r2. cbn [fst snd] in E.
  unfold bind at 1 in E.
  pose proof (Frame_countM (deciding (UID u)) _ AccountWindow (RateKey_deciding (UID u) "signin_acct"
    (TID t +:+ ":" +:+ HashEmail HashToken unicode_lower email) (or_intror eq_refl)) w2) as F3.
  destruct (countM _ AccountWindow w2) as [[n3|e3] w3] eqn:E3; cbn [snd] in F3.
  2: { unfold countM, attempt in E3. by destruct (kvM _ w2). }
  destruct (over n3 AccountLimit).
  { unfold bind in E. destruct (recordAttempt _ _ _ _ _ _ w3) as [[]] eqn:Era; unfold throw in E; [congruence|].
    unfold recordAttempt, ignore in Era. by destruct (storeM _ w3). }
  pose proof (frames_trans _ _ _ _ (frames_trans _ _ _ _ F1 F2) F3) as F. pose proof (proj1 F Hc) as C3.
  destruct (lockedM_run (UID u) w3 C3) as (b & w4 & El & _ & F4 & _). rewrite (bind_ok _ _ _ _ _ El) in E. destruct b.
  { unfold bind, emit, modify in E. destruct (recordAttempt _ _ _ _ _ _ w4) as [[]] eqn:Era; unfold throw in E; [congruence|].
    unfold recordAttempt, ignore in Era. by destruct (storeM _ w4). }
  assert (F5 : frames (deciding (UID u)) w w4).
  { eapply frames_trans; [exact F|]. destruct F4 as (A1 & A2' & A3). split_and!; auto. }
  pose proof (frames_ready _ _ _ _ _ _ F5 Hr) as Hr4. pose proof (proj1 F5 Hc) as C4. pose proof (proj1 (proj2 F5)) as N4.
  assert (Hfail : ∀ reason, bind (failure t u (ParsePolicy (TPolicy t) (bool_decide (TKind t = "platform"))).1
      (HashEmail HashToken unicode_lower email) (HashIP HashToken (InIP inp)) (InUserAgent inp) reason) (λ _, throw (A:=SigninResult) ErrInvalidCredentials) w4 = (Err e, w') →
    tallied (UID u) (ParsePolicy (TPolicy t) (bool_decide (TKind t = "platform"))).1 n exp w w').
  { intros reason Ef. pose proof (failure_tallied t u _ n exp (HashEmail HashToken unicode_lower email) (HashIP HashToken (InIP inp))
      (InUserAgent inp) reason w4 C4 Hd Hr4) as Ht. unfold bind in Ef. destruct (failure _ _ _ _ _ _ _ w4) as [[]]; unfold throw in Ef; injection Ef as _ <-;
      cbn [snd] in Ht; unfold tallied in *; by rewrite N4 in Ht. }
  destruct (PasswordVerify _ _) as [[] rh] eqn:Epw; cbn [negb] in E; [|by eapply Hfail].
  destruct (bool_decide (TStatus t ≠ "active")) eqn:Ht; [by eapply Hfail|].
  destruct (bool_decide (UStatus u ≠ "active")) eqn:Hu; [by eapply Hfail|]. bool_prop.
  unfold refused in Href. rewrite Epw in Href. cbn [fst] in Href. by destruct Href as [|[|]].
Qed.

Lemma complete_refused id ip ua verify c w w' e n exp :
  is_Some (m_cache w) → waitingW w id c → id ≠ "" → (∀ c, Frame (deciding (ChUserID c)) (verify c)) →
  (∀ w1, m_st w1 = m_st w → m_now w1 = m_now w → is_err (verify c w1).1 = true) →
  (0 < LockoutDuration (ChPolicy c))%Z → ready w (ChUserID c) (ChPolicy c) n exp →
  completeM id ip ua verify w = (Err e, w') → e ≠ ErrLocked → tallied (ChUserID c) (ChPolicy c) n exp w w'.
Proof using KVL.
  intros Hc Hwait Hid Hv Hbad Hd Hr E He. unfold complete in E. cbv zeta in E.
  assert (Hp : ∃ w1, pendingSignin HashToken id w = (Ok c, w1)).
  { destruct Hwait as (j & Hj & Hcj). destruct Hc as [k Hk]. unfold kvat in Hj. rewrite Hk in Hj.
    unfold pendingSignin, bind, attempt, kvM. rewrite Hk.
    destruct (kv_get_law (m_now w) (ChallengeKey (HashToken id)) k) as (k1 & Eg & _). rewrite Eg, Hj, bool_decide_eq_false_2, Hcj by done.
    eexists. done. }
  destruct Hp as [w1 Hp]. rewrite (bind_ok _ _ _ _ _ Hp) in E. apply pendingSignin_ok in Hp as (_ & _ & F1 & S1); [|done].
  pose proof (proj1 F1 Hc) as C1. destruct (lockedM_run (ChUserID c) w1 C1) as (b & w2 & El & _ & F2 & S2).
  rewrite (bind_ok _ _ _ _ _ El) in E. destruct b; [unfold throw in E; congruence|].
  pose proof (frames_trans _ _ _ _ F1 F2) as F12. pose proof (Hv c w2) as F3.
  specialize (Hbad w2 ltac:(congruence) ltac:(apply F12)).
  unfold bind at 1, attempt in E. destruct (verify c w2) as [r w3]. cbn [fst snd] in *. destruct r as [?|e1]; [done|]. clear Hbad.
  assert (F : frames (deciding (ChUserID c)) w w3).
  { eapply frames_trans; [|exact F3]. destruct F12 as (A1 & A2' & A3). split_and!; auto. }
  pose proof (proj1 F Hc) as C3. pose proof (proj1 (proj2 F)) as N3. pose proof (frames_ready _ _ _ _ _ _ F Hr) as Hr3.
  set (m := λ n, bind (if (LockoutThreshold (ChPolicy c) <=? n)%Z
       then bind (ignore (kvM (λ now, kv_del now [ChallengeKey (HashToken id)]))) (λ _,
            emit (signinEvent Lockout (ChTenantID c) (ChUserID c) "" "" "refused" "mfa_failures" (HashIP HashToken ip) ua []))
       else ret tt) (λ _,
     bind (recordAttempt (ChTenantID c) (ChUserID c) "" (HashIP HashToken ip) "refused"
       (if (LockoutThreshold (ChPolicy c) <=? n)%Z then "locked" else "mfa_failed")) (λ _,
     bind (emit (signinEvent SigninFailed (ChTenantID c) (ChUserID c) "" "" "refused"
       (if (LockoutThreshold (ChPolicy c) <=? n)%Z then "locked" else "mfa_failed") (HashIP HashToken ip) ua [])) (λ _,
     throw (if bool_decide (e1 = ErrKeyFlagged) then ErrKeyFlagged else ErrInvalidCredentials)))) : M W SigninResult).
  assert (Hm : ∀ x, Frame (deciding (ChUserID c)) (m x)).
  { assert (Hk : ¬ deciding (ChUserID c) (ChallengeKey (HashToken id))).
    { intros [H|H]; unfold ChallengeKey, failKey, RateKey, LockKey in H; cbn in H; done. }
    intros x. subst m. cbv beta. apply Frame_bind; [|auto 10 with auth]. apply Frame_if; [|auto with auth].
    apply Frame_bind; [|auto with auth]. apply Frame_ignore. by apply Frame_del. }
  pose proof (tally_run (ChUserID c) (ChPolicy c) n exp w3 m C3 Hd Hr3 Hm) as Ht. clear Hm.
  assert (Hw' : w' = (bind (countM (failKey (ChUserID c)) (LockoutDuration (ChPolicy c))) (λ rn,
       let n := match rn with Ok n => n | Err _ => 0%Z end in
       bind (if (LockoutThreshold (ChPolicy c) <=? n)%Z then ignore (kvM (λ now, Lock now (ChUserID c) (LockoutDuration (ChPolicy c)))) else ret tt)
         (λ _, m n)) w3).2).
  { clear Ht Hr3. subst m. unfold failKey. unfold bind, ret in E |- *. cbv zeta beta in E |- *.
    destruct (countM _ _ w3) as [[rn|e2] w4]; [|by injection E as _ <-].
    destruct (LockoutThreshold (ChPolicy c) <=? _)%Z; [|by rewrite E].
    destruct (ignore (kvM (λ now, Lock _ _ _)) w4) as [[[]|] w5]; [|by injection E as _ <-]. by rewrite E. }
  rewrite <- Hw' in Ht. unfold tallied in *. by rewrite N3 in Ht.
Qed.

(** One counted failure of an account under a policy. *)
Inductive failed uid pol : W → W → Prop :=
  | failed_password inp t u w e w' :
      accountW w inp t (Some u) → UID u = uid → refused inp t u →
      pol = (ParsePolicy (TPolicy t) (bool_decide (TKind t = "platform"))).1 →
      StartM inp w = (Err e, w') → e ≠ ErrRateLimited → e ≠ ErrLocked → failed uid pol w w'
  | failed_code id ip ua verify c w e w' :
      waitingW w id c → id ≠ "" → ChUserID c = uid → ChPolicy c = pol → (∀ c, Frame (deciding (ChUserID c)) (verify c)) →
      (∀ w1, m_st w1 = m_st w → m_now w1 = m_now w → is_err (verify c w1).1 = true) →
      completeM id ip ua verify w = (Err e, w') → e ≠ ErrLocked → failed uid pol w w'.

Lemma failed_tallied uid pol w w' n exp : failed uid pol w w' → is_Some (m_cache w) → (0 < LockoutDuration pol)%Z →
  ready w uid pol n exp → tallied uid pol n exp w w'.
Proof using KVL.
  intros Hf Hc Hd Hr. destruct Hf as [inp t u w e w' H1 <- H3 -> H5 H6 H7|id ip ua verify c w e w' H1 H2 <- <- H4 H5 H6 H7].
  - by eapply Start_refused.
  - by eapply complete_refused.
Qed.

(** Time passes and other things happen to other keys. *)
Definition quiet uid w w' : Prop :=
  (m_now w <= m_now w')%Z ∧ is_Some (m_cache w') ∧
  ∀ t key, deciding uid key → (m_now w' <= t)%Z → kvat w' t key = kvat w t key.

(** [n] failures in the window that the first of them opened at [t0]. *)
Inductive failures uid pol : nat → Z → W → W → Prop :=
  | fl_first w w' : kvat w (m_now w) (failKey uid) = None → failed uid pol w w' → failures uid pol 1 (m_now w) w w'
  | fl_more n t0 w w1 w2 w3 : failures uid pol n t0 w w1 → quiet uid w1 w2 →
      (m_now w2 < t0 + LockoutDuration pol)%Z → failed uid pol w2 w3 → failures uid pol (1 + n) t0 w w3.

Lemma failures_counted uid pol n t0 w w' : failures uid pol n t0 w w' → is_Some (m_cache w) → (0 < LockoutDuration pol)%Z →
  is_Some (m_cache w') ∧ (1 <= n)%nat ∧ (t0 <= m_now w' < t0 + LockoutDuration pol)%Z ∧
  counted w' uid (Z.of_nat n) (t0 + LockoutDuration pol) ∧
  (LockoutThreshold pol <= Z.of_nat n → locked_until w' uid (m_now w' + LockoutDuration pol))%Z.
Proof using KVL.
  intros Hf Hc Hd. induction Hf as [w w' Hnone Hf|n t0 w w1 w2 w3 _ IH (Q1 & Q2 & Q3) Hw Hf].
  - destruct (failed_tallied uid pol w w' 0 (m_now w + LockoutDuration pol) Hf Hc Hd) as (H1 & H2 & H3 & H4); [by left|].
    rewrite H2. split_and!; [done|lia|lia|lia|done|]. intros Hn. apply H4. lia.
  - destruct (IH Hc) as (I1 & I2 & I3 & I4 & _).
    assert (Hr : ready w2 uid pol (Z.of_nat n) (t0 + LockoutDuration pol)).
    { right. split_and!; [lia| |done]. intros t Ht. rewrite Q3 by (done || by left). apply I4. lia. }
    destruct (failed_tallied uid pol w2 w3 _ _ Hf Q2 Hd Hr) as (H1 & H2 & H3 & H4). rewrite H2.
    replace (Z.of_nat (1 + n)) with (Z.of_nat n + 1)%Z by lia. split_and!; [done|lia|lia|lia|done|]. intros Hn. by apply H4.
Qed.

(** C17. Failures lock.  Once the failures of one window, with nothing between
    them that resets the counter or touches the lock ([quiet]), reach the
    policy's threshold, the account is locked for the policy's duration: until
    then, unless the lock itself is removed, neither step gives anyone a
    session or a challenge for it, whatever password or code is shown.  A
    correct password does reset the counter, before the second factor is
    shown: [password_resets_guesses]. *)
Theorem lockout_enforced uid pol n t0 w w' :
  is_Some (m_cache w) → (0 < LockoutDuration pol)%Z → failures uid pol n t0 w w' → (LockoutThreshold pol <= Z.of_nat n)%Z →
  ∀ w2, quiet uid w' w2 → (m_now w2 < m_now w' + LockoutDuration pol)%Z →
  is_locked w2 uid ∧
  (∀ inp t u, accountW w2 inp t (Some u) → UID u = uid → is_err (StartM inp w2).1 = true) ∧
  (∀ id ip ua verify c, waitingW w2 id c → ChUserID c = uid → (∀ c, Frame (λ _, False) (verify c)) →
     is_err (completeM id ip ua verify w2).1 = true).
Proof using KVL Hmethods.
  intros Hc Hd Hf Hn w2 (Q1 & Q2 & Q3) Hw.
  destruct (failures_counted _ _ _ _ _ _ Hf Hc Hd) as (C1 & _ & _ & _ & HL). specialize (HL Hn).
  assert (Hl : is_locked w2 uid). { unfold is_locked. rewrite Q3; [apply HL; lia|by right|lia]. }
  split; [done|]. split.
  - intros inp t u Ha <-. destruct (StartM inp w2) as [[res|e] w3] eqn:E; [|done]. exfalso.
    apply Start_ok in E as (t' & u' & rh & Ha' & Hnl & _); [|done|done]. unfold account in *. rewrite Ha in Ha'. injection Ha' as <- <-. done.
  - intros id ip ua verify c (j & Hj & Hcj) <- Hv. destruct (completeM id ip ua verify w2) as [[res|e] w3] eqn:E; [|done]. exfalso.
    apply complete_ok in E as (c' & m & w4 & w5 & (j' & Hj' & Hcj') & Hnl & _); [|done|done].
    rewrite Hj in Hj'. injection Hj' as <-. rewrite Hcj in Hcj'. injection Hcj' as <-. done.
Qed.
End Lockout.
