(* ===== verification/SigninRuns.v ===== *)
(** * Concrete sign-ins: witnesses, and guesses that are not counted

    Then the life of a security key and a password recovery. *)
From S2P Require Import Prelude GoStrings Base64 Utf8 Regex PermRef TenantCtx Models Password Cache Envelope AuditEvents Session MemStore SessionSafety SessionRuns Mfa MfaSafety Tenants Signin MemAccounts SigninSafety SigninLockout.
#[local] Open Scope list_scope.
#[local] Open Scope go_scope.

#[local] Existing Instance toyAEAD.
#[local] Instance fillArgon2 : Argon2 := {| argon2 pw salt _ _ _ n := fill n (pw +:+ salt) |}.
(** The code of a step is its last six digits. *)
Definition six (n : Z) : string := str_drop 1 (FormatInt (1000000 + n mod 1000000)).
#[local] Instance sixTotp : Totp := {|
  totp_secret seed := Ok seed; totp_url account secret := "otpauth://" +:+ account; totp_code _ n := Ok (six n) |}.

Definition pwHash : string :=
  match HashPassword (λ n, Some (fill n "salt")) "correct horse" DefaultParams with Ok h => h | Err _ => "" end.
Definition seedEnc : string :=
  match Encrypt "K" (Some (repeat_byte "d" 32)) (Some (repeat_byte "n" 12)) (Some (repeat_byte "m" 12)) "seed" (seedAD "u2") with
  | Ok b => b | Err _ => "" end.
(** u1 signs in by password, u2 has an authenticator app and a security key. *)
Definition user1 : User := mkUser "u1" "t1" "u1@x" "One" "active" (Some pwHash) false None 0 None None "" "" false.
Definition user2 : User := mkUser "u2" "t1" "u2@x" "Two" "active" (Some pwHash) true (Some seedEnc) 0 None None "" "" false.
Definition key2 : WebAuthnCredential := mkCredential "k2" "t1" "u2" "cred" 0 "Key" 0 None None "pk" "" [] false false.
Definition strict : RawPolicy := RawFields (mkFields None None None None (Some true) (Some 3%Z) None).
Definition TS : Z := 1700000000 * Dur.second.

Definition storeS : Store :=
  mkStore {["t1" := mkTenant "t1" "acme" "Acme" "active" "customer" strict]}
    (<["t1/u1@x" := user1]> {["t1/u2@x" := user2]}) ∅ [] ∅ ∅ ∅ ∅ ∅ ∅ ∅ ∅ ∅ [] ∅ ∅ {[map_key "t1" "u2" := [key2]]} ∅ [] ∅ ∅ ∅ ∅.
Definition s0 : World := mkManager storeS (Some NewMemory) [] TS ["tok1"; "tok2"; "tok3"; "tok4"; "tok5"] 0.

Definition start_ : Input → M World SigninResult := Start tokHash seqID (λ _, None) id None None.
Definition verify2 (code : string) (c : challenge) : M World string := MfaVerify "K" id (ChTenantID c) (ChUserID c) code.
Definition complete_ : string → string → M World SigninResult := λ ch code, complete tokHash seqID ch "10.0.0.1" "ua" (verify2 code).
Definition attempt1 (pw : string) : Input := mkInput "acme" "u1@x" pw "10.0.0.1" "ua".
Definition attempt2 (pw : string) : Input := mkInput "acme" "u2@x" pw "10.0.0.1" "ua".

(** *** Step one and step two *)
Definition s1 : World := (start_ (attempt1 "correct horse") s0).2.
Definition res1 : SigninResult := match (start_ (attempt1 "correct horse") s0).1 with Ok r => r | Err _ => mkSigninResult false "" [] None "" [] false end.

Lemma signin_sound_witness :
  start_ (attempt1 "correct horse") s0 = (Ok res1, s1) ∧
  ∃ t u rh, account (λ _, None) id s0 (attempt1 "correct horse") t (Some u) ∧ ¬ is_locked s0 (UID u) ∧
    PasswordVerify "correct horse" (default "" (UPasswordHash u)) = (true, rh) ∧ TStatus t = "active" ∧ UStatus u = "active" ∧
    first_step_gives tokHash t u res1 s1.
Proof.
  assert (E : start_ (attempt1 "correct horse") s0 = (Ok res1, s1)) by (vm_compute; reflexivity).
  split; [exact E|].
  refine (proj1 (signin_sound tokHash seqID (λ _, None) id None None _ s0 _) (attempt1 "correct horse") res1 s1 E).
  - discriminate.
  - eexists. reflexivity.
Defined.

(** *** Three wrong passwords *)
Definition wrong (w : World) : World := (start_ (attempt1 "wrong horse") w).2.
Definition polS : Policy := (ParsePolicy strict false).1.
Notation failedS := (failed tokHash seqID (λ _, None) id None None).
Notation failuresS := (failures tokHash seqID (λ _, None) id None None).

(** A wrong password for [user1] while it may still be tried. *)
Lemma wrong_failed w e :
  start_ (attempt1 "wrong horse") w = (Err e, wrong w) → e = ErrInvalidCredentials →
  account (λ _, None) id w (attempt1 "wrong horse") (mkTenant "t1" "acme" "Acme" "active" "customer" strict) (Some user1) →
  failedS "u1" polS w (wrong w).
Proof.
  intros E -> Ha. eapply failed_password; [exact Ha|done| |reflexivity|exact E|done|done].
  left. vm_compute. reflexivity.
Qed.
Definition lockedS : World := wrong (wrong (wrong s0)).

Lemma three_failures : failuresS "u1" polS 3 TS s0 lockedS.
Proof.
  assert (Hq : ∀ w : World, is_Some (m_cache w) → quiet "u1" w w) by (intros w Hw; split; [lia|split; [done|done]]).
  eapply fl_more; [eapply fl_more; [apply (fl_first _ _ _ _ _ _ "u1" polS s0)| | |]| | |].
  - vm_compute. reflexivity.
  - eapply wrong_failed; [vm_compute; reflexivity|done|vm_compute; reflexivity].
  - apply Hq. vm_compute. eauto.
  - vm_compute. reflexivity.
  - eapply wrong_failed; [vm_compute; reflexivity|done|vm_compute; reflexivity].
  - apply Hq. vm_compute. eauto.
  - vm_compute. reflexivity.
  - eapply wrong_failed; [vm_compute; reflexivity|done|vm_compute; reflexivity].
Qed.

Lemma lockout_enforced_witness :
  LockoutThreshold polS = 3%Z ∧ is_err (start_ (attempt1 "correct horse") lockedS).1 = true.
Proof.
  split; [reflexivity|].
  refine (proj1 (proj2 (lockout_enforced tokHash seqID (λ _, None) id None None _ "u1" polS 3 TS s0 lockedS _ _ three_failures _ lockedS _ _))
    (attempt1 "correct horse") (mkTenant "t1" "acme" "Acme" "active" "customer" strict) user1 _ eq_refl).
  - discriminate.
  - vm_compute. eauto.
  - vm_compute. reflexivity.
  - vm_compute. discriminate.
  - split; [reflexivity|]. split; [vm_compute; eauto|reflexivity].
  - vm_compute. reflexivity.
  - vm_compute. reflexivity.
Defined.

(** *** Codes *)
Lemma storeS_unique : ms_ok (m_st s0).
Proof.
  intros k k' u u' H1 H2 _ Hid. cbn in H1, H2. apply lookup_insert_Some in H1, H2.
  destruct H1 as [[<- <-]|[_ H1]], H2 as [[<- <-]|[_ H2]]; try apply lookup_singleton_Some in H1 as [<- <-];
    try apply lookup_singleton_Some in H2 as [<- <-]; done.
Qed.
Definition later (d : Z) (w : World) : World :=
  mkManager (m_st w) (m_cache w) (m_audit w) (m_now w + d)%Z (m_entropy w) (m_ids w).
Definition codeAt (t : Z) : string := six (t / Dur.second / Period).
Definition w2a : World := (MfaVerify "K" id "t1" "u2" (codeAt TS) s0).2.
Definition w2b : World := later (30 * Dur.second) w2a.
Definition w2c : World := (MfaVerify "K" id "t1" "u2" (codeAt (m_now w2b)) w2b).2.

Lemma second_factor_single_use_witness :
  MfaVerify "K" id "t1" "u2" (codeAt TS) s0 = (Ok "otp", w2a) ∧
  ∃ f f', accepts "K" id s0 "t1" "u2" (codeAt TS) "otp" f ∧
    accepts "K" id w2b "t1" "u2" (codeAt (m_now w2b)) "otp" f' ∧ ¬ same_factor f f'.
Proof.
  assert (E : MfaVerify "K" id "t1" "u2" (codeAt TS) s0 = (Ok "otp", w2a)) by (vm_compute; reflexivity).
  split; [exact E|].
  refine (second_factor_single_use "K" id "t1" "u2" s0 (codeAt TS) "otp" w2a w2b (codeAt (m_now w2b)) "otp" w2c
    storeS_unique _ E (rtc_once _ _ _) _).
  - vm_compute. constructor.
  - apply ms_other; [|reflexivity|reflexivity].
    destruct (MfaVerify_run "K" id _ _ _ _ _ _ E storeS_unique) as ([H _ _ _ _] & _). exact H.
  - vm_compute. reflexivity.
Defined.

(** [u2] gives up the app and keeps the key. *)
Definition actor2 : Actor := mkActor KindUser "u2" "t1" "" [] [] "" "" "".
Definition disabled2 : World := (Disable "K" id actor2 (codeAt TS) s0).2.

(** *** Guesses that are not counted *)
(** Whoever knows the password of [u2]: step one, then two wrong codes. *)
Definition wrongCode : string := "000000".
Definition startS (w : World) : string * World :=
  match start_ (attempt2 "correct horse") w with (Ok r, w') => (RsChallenge r, w') | (Err _, w') => ("", w') end.
Definition two_guesses (w : World) : World :=
  let '(ch, w1) := startS w in (complete_ ch wrongCode (complete_ ch wrongCode w1).2).2.

(** A right password clears the failures of the second step too: with a
    threshold of three, wrong codes tried two per password never lock. *)
Theorem password_resets_guesses :
  let w := two_guesses (two_guesses (two_guesses s0)) in
  length (filter (λ a, AtReason a = "mfa_failed") (Attempts (m_st w))) = 6%nat ∧
  LockoutThreshold polS = 3%Z ∧ kvat w (m_now w) (LockKey "u2") = None.
Proof. vm_compute. split_and!; reflexivity. Qed.

(** A recovery code of digits only, typed without its dash, is taken for a
    code of the authenticator app. *)
Definition digitsHash : string :=
  match HashPassword (λ n, Some (fill n "salt")) "2345678923" DefaultParams with Ok h => h | Err _ => "" end.
Definition digitsS : World :=
  mkManager (set_Codes storeS {[map_key "t1" "u2" := [mkCode digitsHash false]]}) (Some NewMemory) [] TS [] 0.
Theorem digits_taken_for_totp :
  (MfaVerify "K" id "t1" "u2" "23456-78923" digitsS).1 = Ok "recovery" ∧
  (MfaVerify "K" id "t1" "u2" "2345678923" digitsS).1 = Err ErrInvalidCode.
Proof. vm_compute. split; reflexivity. Qed.

(** ** A concrete life of a security key: witnesses of WebAuthnSafety *)
From S2P Require Import Prelude GoStrings Base64 Utf8 Regex PermRef TenantCtx Models Password Cache Envelope AuditEvents Session MemStore SessionSafety SessionRuns Mfa MfaSafety Tenants Signin MemAccounts WebAuthn WebAuthnSafety.
#[local] Open Scope list_scope.
#[local] Open Scope go_scope.

#[local] Existing Instance toyAEAD.
#[local] Existing Instance fillArgon2.
#[local] Existing Instance sixTotp.

(** A library whose responses are a credential id of sixteen bytes, followed in
    an assertion by "+", or by "-" when the counter went back. *)
#[local] Instance toyWebAuthn : WebAuthnLib := {|
  wa_parse_creation s := Some s;
  wa_parse_assertion s := Some (mkAssertion (str_take 16 s) (str_drop 16 s));
  wa_begin_registration salt u _ := Ok ("create", salt);
  wa_create_credential _ _ _ s := Ok (mkCred s "public" ["usb"] false false "" 0 false);
  wa_begin_login salt u := match WuCreds u with [] => Err (ErrText "no credentials") | _ => Ok ("get", salt) end;
  wa_validate_login _ u _ a :=
    match find_first (λ c, bool_decide (CrID c = AsRawID a)) (WuCreds u) with
    | None => Err (ErrText "unknown")
    | Some c => Ok (mkCred (CrID c) (CrPublicKey c) (CrTransports c) (CrBackupEligible c) (CrBackupState c) (CrAAGUID c) (CrSignCount c + 1) (bool_decide (AsBody a = "-")))
    end |}.

(** u2 removes the security key, confirming with the app, which remains. *)
Definition removed2 : World := (RemoveKey "K" id actor2 "k2" (mkConfirmation (codeAt TS) "") s0).2.
Lemma last_factor_kept_witness :
  Disable "K" id actor2 (codeAt TS) s0 = (Ok tt, disabled2) ∧
  RemoveKey "K" id actor2 "k2" (mkConfirmation (codeAt TS) "") s0 = (Ok tt, removed2) ∧
  (∃ u', userByID (m_st disabled2) "t1" "u2" = Some u' ∧ UMFAEnabled u' = true ∧
     (1 <= factors_left u' (keysOf (m_st disabled2) "t1" "u2"))%nat) ∧
  keysOf (m_st removed2) "t1" "u2" = [] ∧
  ∃ u', userByID (m_st removed2) "t1" "u2" = Some u' ∧ (1 <= factors_left u' [])%nat.
Proof.
  assert (E : Disable "K" id actor2 (codeAt TS) s0 = (Ok tt, disabled2)) by (vm_compute; reflexivity).
  assert (E' : RemoveKey "K" id actor2 "k2" (mkConfirmation (codeAt TS) "") s0 = (Ok tt, removed2)) by (vm_compute; reflexivity).
  assert (Ek : keysOf (m_st removed2) "t1" "u2" = []) by (vm_compute; reflexivity).
  assert (Hr : requires_mfa s0 "t1") by (eexists; eexists; split; [reflexivity|split; [reflexivity|reflexivity]]).
  split; [exact E|]. split; [exact E'|]. split; [|split; [exact Ek|]].
  - exact (proj1 (last_factor_kept "K" id s0 storeS_unique) actor2 (codeAt TS) disabled2 Hr E).
  - destruct (proj2 (last_factor_kept "K" id s0 storeS_unique) actor2 "k2" (mkConfirmation (codeAt TS) "") removed2 Hr E') as (u & u' & Hu & Hu' & Hk).
    exists u'. split; [exact Hu'|]. rewrite <- Ek. apply Hk.
    assert (Hu2 : userByID (m_st s0) "t1" "u2" = Some user2) by (vm_compute; reflexivity).
    change (userByID (m_st s0) "t1" "u2" = Some u) in Hu. rewrite Hu2 in Hu. injection Hu as <-. apply Nat.leb_le. vm_compute. reflexivity.
Defined.
#[local] Instance toyWebAuthn_laws : WebAuthnLaws.
Proof.
  split. intros now u sess a c. cbn. destruct (find_first _ _) as [c0|] eqn:E; [|done]. apply find_first_Some in E as [Hin Hid%bool_decide_eq_true].
  intros [= <-]. by exists c0.
Qed.
Definition fold (a b : string) : bool := bool_decide (a = b).
Lemma fold_sym a b : fold a b = fold b a.
Proof. apply bool_decide_ext. by split. Qed.

Definition credA : string := "AAAAAAAAAAAAAAAA".
Notation beginE := (BeginRegistration fold Dur.minute "salt" actor2 "Blue").
Notation registerE := (FinishRegistration id seqID fold id actor2 credA).
Notation optionsE := (beginAssertion Dur.minute "salt" purposeSignin "ref" "t1" "u2").
Notation assertE body := (finishAssertion purposeSignin "ref" "t1" "u2" (credA +:+ body)).
Notation stepK := (kstep "K" id seqID fold Dur.minute id).
Definition g0 : World := mkManager (set_wkeys storeS ∅) (Some NewMemory) [] TS ["tok1"] 0.
Definition g1 : World := (beginE g0).2.
Definition g2 : World := (registerE g1).2.
Definition g3 : World := (optionsE g2).2.
Definition g4 : World := (assertE "+" g3).2.
Definition g5 : World := (optionsE g4).2.
Definition g6 : World := (assertE "-" g5).2.
Definition g7 : World := (Rename fold actor2 "a" "Red" g6).2.
Definition keysU2 (w : World) : list WebAuthnCredential := keysOf (m_st w) "t1" "u2".

(** The key is registered, used, seen with a counter that went back, refused
    from then on, and keeps its mark under a new name. *)
Example key_life :
  is_ok (registerE g1).1 = true ∧ (WcCredentialID <$> keysU2 g2) = [credA] ∧ (assertE "+" g3).1 = Ok tt ∧
  (assertE "+" g4).1 = Err ErrAssertionFailed ∧ (assertE "-" g5).1 = Err ErrKeyFlagged ∧ (optionsE g6).1 = Err ErrNoKeys ∧
  (WcName <$> keysU2 g7) = ["Red"] ∧ (bool_decide (WcCloneFlaggedAt <$> keysU2 g7 = [Some TS])) = true.
Proof. split_and!; vm_compute; reflexivity. Qed.

Lemma g3_reached : rtc stepK g0 g3.
Proof.
  eapply rtc_l; [apply ks_begin|]. eapply rtc_l; [apply ks_register|]. eapply rtc_l; [apply ks_options|]. apply rtc_refl.
Qed.
Lemma g6_reached : rtc stepK g0 g6.
Proof.
  transitivity g3; [apply g3_reached|]. apply (rtc_l _ _ g4); [exact (ks_assert _ _ _ _ _ _ g3 purposeSignin "ref" "t1" "u2" (credA +:+ "+"))|].
  apply (rtc_l _ _ g5); [apply ks_options|]. apply rtc_once. exact (ks_assert _ _ _ _ _ _ g5 purposeSignin "ref" "t1" "u2" (credA +:+ "-")).
Qed.
Lemma g0_empty : keys (m_st g0) = ∅.
Proof. reflexivity. Qed.

Lemma key_tables_wellformed_witness : (length (keysOf (m_st g6) "t1" "u2") <= 10)%nat ∧ length (keysU2 g6) = 1%nat.
Proof.
  split; [|vm_compute; reflexivity]. destruct (key_tables_wellformed "K" id seqID fold Dur.minute id _ fold_sym g0 g6 g0_empty g6_reached) as [H _].
  exact (proj1 (H "t1" "u2")).
Defined.
Lemma key_assertion_sound_witness :
  consumed (assertE "+" g3).2 purposeSignin "ref" ∧ ∃ c, pending g3 purposeSignin "ref" "t1" "u2" c.
Proof.
  assert (E : assertE "+" g3 = (Ok tt, (assertE "+" g3).2)) by (apply run_ok; vm_compute; reflexivity).
  destruct (key_assertion_sound "K" id seqID fold Dur.minute id _ fold_sym g0 g3 purposeSignin "ref" "t1" "u2" (credA +:+ "+") (Ok tt) (assertE "+" g3).2 g0_empty g3_reached E) as (H1 & H2 & _).
  split; [exact H1|]. destruct (H2 eq_refl) as (c & _ & _ & _ & _ & _ & Hc & _). exists c. exact Hc.
Defined.

Definition keyA : WebAuthnCredential := default key2 (head (keysU2 g6)).
Definition keyA' : WebAuthnCredential := default key2 (head (keysU2 g7)).
Lemma head_elem w : bool_decide (keysU2 w = []) = false → default key2 (head (keysU2 w)) ∈ keysU2 w.
Proof. intros Hn%bool_decide_eq_false. destruct (keysU2 w) as [|k l]; [done|left]. Qed.
Lemma clone_flag_kept_witness : WcName keyA' = "Red" ∧ WcCloneFlaggedAt keyA' ≠ None.
Proof.
  split; [vm_compute; reflexivity|].
  apply (clone_flag_kept "K" id seqID fold Dur.minute id _ fold_sym g0 g6 g7 "t1" "u2" keyA keyA' g0_empty g6_reached).
  - apply rtc_once, ks_rename. discriminate.
  - apply head_elem. vm_compute. reflexivity.
  - vm_compute. discriminate.
  - exists "t1", "u2". apply (head_elem g7). vm_compute. reflexivity.
  - vm_compute. reflexivity.
Defined.

(** ** A concrete password recovery: the witness of RecoverySafety *)
From S2P Require Import Prelude GoStrings Base64 Utf8 Regex PermRef TenantCtx Models Password Cache Envelope AuditEvents Session MemStore SessionSafety SessionRuns Mfa MfaSafety Outbox Tenants Signin MemAccounts Recovery RecoverySafety.
#[local] Open Scope list_scope.
#[local] Open Scope go_scope.

#[local] Existing Instance toyAEAD.
#[local] Existing Instance fillArgon2.
#[export] Instance fillArgon2_laws : Argon2Laws.
Proof. split. intros pw salt t m p n. cbn. generalize (pw +:+ salt). induction n as [|n IH]; intros [|c s]; cbn; auto. Qed.

(** Nobody is signed in. *)
Definition anonymous : Ctx := mkCtx None None.
Definition request1 : World := (Request tokHash seqID (λ _, None) id "K" "https://auth" (λ _, "{}") "acme" "u1@x" "ip" s0).2.
Definition recovered1 : World := (Complete tokHash anonymous "tok1" "another horse" request1).2.

Lemma recovery_single_use_witness :
  Complete tokHash anonymous "tok1" "another horse" request1 = (Ok tt, recovered1) ∧
  is_err (Complete tokHash anonymous "tok1" "third horse x" recovered1).1 = true.
Proof.
  assert (E : Complete tokHash anonymous "tok1" "another horse" request1 = (Ok tt, recovered1)) by (vm_compute; reflexivity).
  split; [exact E|].
  refine (proj2 (recovery_single_use tokHash seqID (λ _, None) id "K" "https://auth" (λ _, "{}") s0 request1 anonymous "tok1" "another horse" recovered1
    storeS_unique _ _ (rtc_once _ _ _) E) recovered1 anonymous "third horse x" (rtc_refl _ _)).
  - apply (bool_decide_unpack _). vm_compute. exact I.
  - reflexivity.
  - apply rs_request.
Defined.
