(* ===== verification/Fga.v ===== *)
(** * Relationship tuples and the authorization model
      (internal/authz/objects.go, client.go, fga.go, model.fga)

    [holds] is the model (model.fga) as an inductive relation over a set of
    tuples; [Fake] is the in-process backend, whose recursive [check] is
    proved to decide it; [SDK] is the OpenFGA backend, which splits a write
    into bounded requests.  [Backend] is the Go interface and [BackendLaws]
    what the services built on it rely on. *)
From S2P Require Import Prelude GoStrings Regex PermRef TenantCtx.
#[local] Open Scope go_scope.

Record Tuple : Type := mkTuple { TuUser : string; TuRelation : string; TuObject : string }.
#[global] Instance Tuple_eq_dec : EqDecision Tuple.
Proof. solve_decision. Defined.
#[global] Instance Tuple_countable : Countable Tuple.
Proof.
  apply (inj_countable' (λ t, (TuUser t, TuRelation t, TuObject t)) (λ '(u, r, o), mkTuple u r o)). by intros [].
Defined.

(** ** Objects (objects.go) *)
Definition slugRE : re :=
  Seq (Cls lower_digit) (opt (Seq (upto 62 (Cls lower_digit_dash)) (Cls lower_digit))).
Definition ParseSlug (s : string) : result string :=
  if re_match slugRE s then Ok s else Err ErrAuthzMalformed.
Definition ParsePermissionRef (s : string) : result Ref :=
  match ParseAny s with Ok r => Ok r | Err _ => Err ErrAuthzMalformed end.

Definition UserObject (uid : string) : string := "user:" +:+ uid.
Definition TenantObject (tid : string) : string := "tenant:" +:+ tid.
Definition RoleObject (tid slug : string) : string := "role:" +:+ tid +:+ "/" +:+ slug.
Definition RoleAssigneesObject (tid slug : string) : string := RoleObject tid slug +:+ "#assignee".
Definition GroupObject (tid gid : string) : string := "group:" +:+ tid +:+ "/" +:+ gid.
Definition GroupMembersObject (tid gid : string) : string := GroupObject tid gid +:+ "#member".
Definition PermissionObject (tid : string) (p : Ref) : string := RefObject p tid.

Definition ObjectTenant (obj : string) : result string :=
  match cut ":" obj with
  | None => Err ErrAuthzMalformed
  | Some (typ, rest) =>
      let finish tid := if ValidTenantID tid then Ok tid else Err ErrAuthzMalformed in
      if bool_decide (typ = "tenant") then finish rest
      else if bool_decide (typ = "role") || bool_decide (typ = "permission") || bool_decide (typ = "group")
      then match cut "/" rest with
           | None => Err ErrAuthzMalformed
           | Some (tid, _) => finish tid
           end
      else Err ErrAuthzMalformed
  end.

(** ** Tuple constructors (client.go) *)
Definition MembershipTuple (tid uid relation : string) : Tuple :=
  mkTuple (UserObject uid) relation (TenantObject tid).
Definition RoleTenantTuple (tid slug : string) : Tuple :=
  mkTuple (TenantObject tid) "tenant" (RoleObject tid slug).
Definition RoleAssignmentTuple (tid slug uid : string) : Tuple :=
  mkTuple (UserObject uid) "assignee" (RoleObject tid slug).
Definition GroupTenantTuple (tid gid : string) : Tuple :=
  mkTuple (TenantObject tid) "tenant" (GroupObject tid gid).
Definition GroupMembershipTuple (tid gid uid : string) : Tuple :=
  mkTuple (UserObject uid) "member" (GroupObject tid gid).
Definition GroupRoleTuple (tid gid slug : string) : Tuple :=
  mkTuple (GroupMembersObject tid gid) "assignee" (RoleObject tid slug).
Definition PermissionTenantTuple (tid : string) (p : Ref) : Tuple :=
  mkTuple (TenantObject tid) "tenant" (PermissionObject tid p).
Definition GrantTuple (tid slug : string) (p : Ref) : Tuple :=
  mkTuple (RoleAssigneesObject tid slug) "granted" (PermissionObject tid p).

(** ** The model *)
Inductive holds (ts : gset Tuple) (u : string) : string → string → Prop :=
  | holds_direct r o : mkTuple u r o ∈ ts → holds ts u r o
  | holds_member rest : holds ts u "admin" ("tenant:" +:+ rest) → holds ts u "member" ("tenant:" +:+ rest)
  | holds_admin o : holds ts u "owner" o → holds ts u "admin" o
  | holds_assignee g o : mkTuple (g +:+ "#member") "assignee" o ∈ ts → holds ts u "member" g → holds ts u "assignee" o
  | holds_granted role o : mkTuple (role +:+ "#assignee") "granted" o ∈ ts → holds ts u "assignee" role →
      holds ts u "granted" o.

(** ** The backend interface *)
Class Backend (B : Type) : Type := {
  b_check : Tuple → M B bool;
  b_batch : list Tuple → M B (list bool);
  b_write : list Tuple → list Tuple → M B unit;
}.

Definition holdsT (ts : gset Tuple) (t : Tuple) : Prop := holds ts (TuUser t) (TuRelation t) (TuObject t).

(** A write that fails may have been applied in part. *)
Class BackendLaws (B : Type) `{Backend B} : Type := {
  tuples : B → gset Tuple;
  b_check_law : ∀ t w r w', b_check t w = (r, w') →
    tuples w' = tuples w ∧ ∀ b, r = Ok b → (b = true ↔ holdsT (tuples w) t);
  b_batch_law : ∀ ts w r w', b_batch ts w = (r, w') →
    tuples w' = tuples w ∧ ∀ l, r = Ok l → Forall2 (λ t b, b = true ↔ holdsT (tuples w) t) ts l;
  b_write_law : ∀ adds removes w r w', b_write adds removes w = (r, w') →
    match r with
    | Ok _ => tuples w' = (tuples w ∪ list_to_set adds) ∖ list_to_set removes
    | Err _ => tuples w' ⊆ tuples w ∪ list_to_set adds ∧ tuples w ∖ list_to_set removes ⊆ tuples w'
    end;
}.

(** ** Fake *)
Record Fake : Type := mkFake { f_tuples : gset Tuple }.
Definition NewFake : Fake := mkFake ∅.

Fixpoint cutSuffix (suf s : string) : option string :=
  if bool_decide (s = suf) then Some ""
  else match s with
       | EmptyString => None
       | String c s' => match cutSuffix suf s' with Some r => Some (String c r) | None => None end
       end.

Fixpoint check (fuel : nat) (ts : gset Tuple) (t : Tuple) : bool :=
  match fuel with
  | O => false
  | S n =>
      if decide (t ∈ ts) then true
      else if bool_decide (TuRelation t = "member") then
        match cut_prefix "tenant:" (TuObject t) with
        | Some _ => check n ts (mkTuple (TuUser t) "admin" (TuObject t))
        | None => false
        end
      else if bool_decide (TuRelation t = "admin") then check n ts (mkTuple (TuUser t) "owner" (TuObject t))
      else if bool_decide (TuRelation t = "assignee") then
        existsb (λ k, bool_decide (TuObject k = TuObject t) && bool_decide (TuRelation k = "assignee") &&
                   match cutSuffix "#member" (TuUser k) with
                   | Some group => check n ts (mkTuple (TuUser t) "member" group)
                   | None => false
                   end) (elements ts)
      else if bool_decide (TuRelation t = "granted") then
        existsb (λ k, bool_decide (TuObject k = TuObject t) && bool_decide (TuRelation k = "granted") &&
                   match cutSuffix "#assignee" (TuUser k) with
                   | Some role => check n ts (mkTuple (TuUser t) "assignee" role)
                   | None => false
                   end) (elements ts)
      else false
  end.

(** granted, assignee, member, admin, owner: five nested calls. *)
Definition check_depth : nat := 5.

Definition FakeCheck (t : Tuple) : M Fake bool := gets (λ f, check check_depth (f_tuples f) t).
Definition FakeBatchCheck (ts : list Tuple) : M Fake (list bool) :=
  gets (λ f, (λ t, check check_depth (f_tuples f) t) <$> ts).

Definition FakeWrite (adds removes : list Tuple) : M Fake unit :=
  for_each adds (λ t,
    lift (ObjectTenant (TuObject t)) ;;; modify (λ f, mkFake (f_tuples f ∪ {[t]}))) ;;;
  for_each removes (λ t, modify (λ f, mkFake (f_tuples f ∖ {[t]}))).

#[export] Instance Fake_Backend : Backend Fake := {|
  b_check := FakeCheck; b_batch := FakeBatchCheck; b_write := FakeWrite |}.

(** ** The OpenFGA backend: bounded requests (fga.go) *)
Definition MaxTuplesPerWrite : nat := 100.

Record WriteRequest : Type := mkReq { Writes : list Tuple; Deletes : list Tuple }.
Definition req0 : WriteRequest := mkReq [] [].

(** The accumulator is (out, cur, n) of the source. *)
Definition flush (a : list WriteRequest * WriteRequest * nat) : list WriteRequest * WriteRequest * nat :=
  let '(out, cur, n) := a in if (0 <? n)%nat then ((out ++ [cur])%list, req0, 0%nat) else a.
Definition chunk_add (put : WriteRequest → Tuple → WriteRequest)
    (a : list WriteRequest * WriteRequest * nat) (t : Tuple) : list WriteRequest * WriteRequest * nat :=
  let '(out, cur, n) := if bool_decide (a.2 = MaxTuplesPerWrite) then flush a else a in
  (out, put cur t, S n).
Definition put_write (c : WriteRequest) (t : Tuple) : WriteRequest := mkReq (Writes c ++ [t]) (Deletes c).
Definition put_delete (c : WriteRequest) (t : Tuple) : WriteRequest := mkReq (Writes c) (Deletes c ++ [t]).
Definition writeChunks (adds removes : list Tuple) : list WriteRequest :=
  let a := foldl (chunk_add put_write) ([], req0, 0%nat) adds in
  let a := foldl (chunk_add put_delete) a removes in
  (flush a).1.1.

Section SDK.
(** The SDK's client and its Write call; the state is the server. *)
Context {C : Type} (Execute : WriteRequest → M C unit).
Definition SDKWrite (adds removes : list Tuple) : M C unit :=
  for_each (writeChunks adds removes) Execute.
End SDK.

(** ** Facts *)
Section ModelFacts.
Implicit Types ts : gset Tuple.

Lemma cutSuffix_Some suf s r : cutSuffix suf s = Some r → s = r +:+ suf.
Proof.
  revert r. induction s as [|c s IH]; intros r; cbn [cutSuffix]; case_bool_decide as Hs.
  - intros [= <-]. done.
  - done.
  - intros [= <-]. done.
  - destruct (cutSuffix suf s) as [r'|]; [|done]. intros [= <-]. cbn. by rewrite <- (IH r').
Qed.

Lemma cutSuffix_app suf s : cutSuffix suf (s +:+ suf) = Some s.
Proof.
  induction s as [|c s IH]; cbn [String.append].
  - destruct suf; cbn [cutSuffix]; by rewrite bool_decide_eq_true_2.
  - cbn [cutSuffix]. rewrite bool_decide_eq_false_2; [by rewrite IH|].
    intros E. apply (f_equal String.length) in E. cbn in E. rewrite str_length_app in E. lia.
Qed.

Lemma HasPrefix_tenant o : is_Some (cut_prefix "tenant:" o) ↔ ∃ rest, o = "tenant:" +:+ rest.
Proof.
  split.
  - intros [r E]. apply cut_prefix_Some in E. eauto.
  - intros [r ->]. rewrite cut_prefix_app. eauto.
Qed.

(** Nested calls a question about this relation can need. *)
Definition rank (rel : string) : nat :=
  if bool_decide (rel = "granted") then 5 else if bool_decide (rel = "assignee") then 4
  else if bool_decide (rel = "member") then 3 else if bool_decide (rel = "admin") then 2 else 1.

Lemma check_sound fuel ts t : check fuel ts t = true → holdsT ts t.
Proof.
  revert t. induction fuel as [|n IH]; intros [u r o]; cbn [check]; [done|]. unfold holdsT. cbn [TuUser TuRelation TuObject].
  case_decide; [by intros _; constructor|].
  case_bool_decide; [subst|case_bool_decide; [subst|case_bool_decide; [subst|case_bool_decide; [subst|done]]]].
  - destruct (cut_prefix "tenant:" o) as [rest|] eqn:E; [|done]. apply cut_prefix_Some in E as ->.
    intros Hc. apply holds_member. by apply IH in Hc.
  - intros Hc. apply holds_admin. by apply IH in Hc.
  - rewrite existsb_exists. intros ([ku kr ko] & Hk%list_elem_of_In & Hc). simpl in Hc. bool_prop. subst.
    destruct (cutSuffix "#member" ku) as [g|] eqn:E; [|done]. apply cutSuffix_Some in E as ->.
    apply elem_of_elements in Hk. eapply holds_assignee; [exact Hk|]. by apply (IH (mkTuple u "member" g)).
  - rewrite existsb_exists. intros ([ku kr ko] & Hk%list_elem_of_In & Hc). simpl in Hc. bool_prop. subst.
    destruct (cutSuffix "#assignee" ku) as [g|] eqn:E; [|done]. apply cutSuffix_Some in E as ->.
    apply elem_of_elements in Hk. eapply holds_granted; [exact Hk|]. by apply (IH (mkTuple u "assignee" g)).
Qed.

Lemma check_complete ts u r o fuel : holds ts u r o → (rank r <= fuel)%nat → check fuel ts (mkTuple u r o) = true.
Proof.
  intros Hh. revert fuel. induction Hh as [r o Hd|rest Hh IH|o Hh IH|g o Hk Hh IH|g o Hk Hh IH];
    intros [|n] Hr; try (vm_compute in Hr; lia).
  - exfalso. unfold rank in Hr. repeat case_bool_decide; lia.
  - cbn [check]. by rewrite decide_True.
  - cbn [check TuRelation TuObject TuUser]. case_decide; [done|]. rewrite bool_decide_eq_true_2 by done.
    rewrite cut_prefix_app. apply IH. vm_compute in Hr |- *. lia.
  - cbn [check TuRelation TuObject TuUser]. case_decide; [done|].
    rewrite bool_decide_eq_false_2, bool_decide_eq_true_2 by done. apply IH. vm_compute in Hr |- *. lia.
  - cbn [check TuRelation TuObject TuUser]. case_decide; [done|].
    rewrite !bool_decide_eq_false_2, bool_decide_eq_true_2 by done.
    apply existsb_exists. eexists. split; [by apply list_elem_of_In, elem_of_elements|].
    cbn [TuRelation TuObject TuUser]. rewrite !bool_decide_eq_true_2 by done. rewrite cutSuffix_app. apply IH.
    vm_compute in Hr |- *. lia.
  - cbn [check TuRelation TuObject TuUser]. case_decide; [done|].
    rewrite !bool_decide_eq_false_2, bool_decide_eq_true_2 by done.
    apply existsb_exists. eexists. split; [by apply list_elem_of_In, elem_of_elements|].
    cbn [TuRelation TuObject TuUser]. rewrite !bool_decide_eq_true_2 by done. rewrite cutSuffix_app. apply IH.
    vm_compute in Hr |- *. lia.
Qed.

Lemma rank_le rel : (rank rel <= check_depth)%nat.
Proof. unfold rank, check_depth. repeat case_bool_decide; lia. Qed.

Lemma check_iff ts t : check check_depth ts t = true ↔ holdsT ts t.
Proof.
  split; [apply check_sound|]. destruct t as [u r o]. intros Hh. apply check_complete; [done|apply rank_le].
Qed.

(** The in-process backend answers exactly what the model derives, and the
    five nested calls it can make are enough: a larger budget never changes
    an answer. *)
Theorem fake_check_decides_model ts t fuel :
  (check_depth <= fuel)%nat →
  (check fuel ts t = true ↔ holdsT ts t) ∧ check fuel ts t = check check_depth ts t.
Proof.
  intros Hf. assert (Hiff : check fuel ts t = true ↔ holdsT ts t).
  { split; [apply check_sound|]. destruct t as [u r o]. intros Hh. apply check_complete; [done|].
    pose proof (rank_le r). lia. }
  split; [done|]. pose proof (check_iff ts t) as H5.
  destruct (check fuel ts t), (check check_depth ts t); naive_solver.
Qed.
End ModelFacts.

Lemma fake_check_decides_model_witness :
  holdsT {[mkTuple "user:u" "owner" "tenant:t"]} (mkTuple "user:u" "member" "tenant:t").
Proof.
  apply (fake_check_decides_model _ (mkTuple "user:u" "member" "tenant:t") 6); [vm_compute; lia|].
  vm_compute. reflexivity.
Defined.

Section FakeFacts.
Lemma FakeWrite_adds adds : ∀ f r f',
  for_each adds (λ t, lift (ObjectTenant (TuObject t)) ;;; modify (λ f, mkFake (f_tuples f ∪ {[t]}))) f = (r, f') →
  match r with
  | Ok _ => f_tuples f' = f_tuples f ∪ list_to_set adds
  | Err _ => f_tuples f ⊆ f_tuples f' ∧ f_tuples f' ⊆ f_tuples f ∪ list_to_set adds
  end.
Proof.
  induction adds as [|t adds IH]; intros f r f'; cbn [for_each].
  - intros [= <- <-]. set_solver.
  - unfold lift, modify, bind at 1 2. destruct (ObjectTenant (TuObject t)) as [tid|e].
    + intros E. apply IH in E. destruct r as [[]|e]; cbn in *; set_solver.
    + intros [= <- <-]. set_solver.
Qed.

Lemma FakeWrite_removes removes : ∀ f,
  for_each removes (λ t, modify (λ f, mkFake (f_tuples f ∖ {[t]}))) f =
  (Ok tt, mkFake (f_tuples f ∖ list_to_set removes)).
Proof.
  induction removes as [|t l IH]; intros f; cbn [for_each].
  - destruct f as [ts]. cbn. by rewrite difference_empty_L.
  - unfold modify, bind. unfold modify in IH. rewrite IH. do 2 f_equal. cbn. set_solver.
Qed.
End FakeFacts.

#[export] Program Instance Fake_laws : BackendLaws Fake := {| tuples := f_tuples |}.
Next Obligation.
  intros t w r w'. simpl. unfold FakeCheck, gets. intros [= <- <-]. split; [done|].
  intros b [= <-]. apply check_iff.
Qed.
Next Obligation.
  intros ts w r w'. simpl. unfold FakeBatchCheck, gets. intros [= <- <-]. split; [done|].
  intros l [= <-]. induction ts as [|t ts IH]; constructor; [apply check_iff|done].
Qed.
Next Obligation.
  intros adds removes w r w'. simpl. unfold FakeWrite, bind at 1.
  destruct (for_each adds _ w) as [[[]|e] w1] eqn:E; apply FakeWrite_adds in E; cbn beta iota in E.
  - rewrite FakeWrite_removes. intros [= <- <-]. cbn. by rewrite E.
  - intros [= <- <-]. set_solver.
Qed.

(** ** Requests of a chunked write *)
Section Chunks.
Definition req_size (c : WriteRequest) : nat := length (Writes c) + length (Deletes c).
Definition apply_req (ts : gset Tuple) (c : WriteRequest) : gset Tuple :=
  (ts ∪ list_to_set (Writes c)) ∖ list_to_set (Deletes c).
Definition state := (list WriteRequest * WriteRequest * nat)%type.

Definition chunks_ok (l : list WriteRequest) : Prop :=
  Forall (λ c, 0 < req_size c <= MaxTuplesPerWrite)%nat l.
Definition acc_ok (a : state) : Prop :=
  chunks_ok a.1.1 ∧ req_size a.1.2 = a.2 ∧ (a.2 <= MaxTuplesPerWrite)%nat.
(** Every request seen so far, the one being filled last. *)
Definition acc_reqs (a : state) : list WriteRequest := (a.1.1 ++ [a.1.2])%list.

Lemma flush_ok a : acc_ok a → acc_ok (flush a) ∧
  (Writes <$> acc_reqs (flush a)) ≫= id = (Writes <$> acc_reqs a) ≫= id ∧
  (Deletes <$> acc_reqs (flush a)) ≫= id = (Deletes <$> acc_reqs a) ≫= id.
Proof.
  destruct a as [[out cur] n]. intros (H1 & H2 & H3). unfold flush. destruct (0 <? n)%nat eqn:E; [|done].
  apply Nat.ltb_lt in E. cbn in *. split_and!.
  - split_and!; cbn; [|done|lia]. apply Forall_app. split; [done|]. constructor; [lia|constructor].
  - unfold acc_reqs. cbn. rewrite fmap_app, bind_app. cbn. rewrite !app_nil_r. by rewrite fmap_app, bind_app.
  - unfold acc_reqs. cbn. rewrite fmap_app, bind_app. cbn. rewrite !app_nil_r. by rewrite fmap_app, bind_app.
Qed.

Definition acc_set (ts : gset Tuple) (a : state) : gset Tuple := foldl apply_req ts (acc_reqs a).

Lemma apply_req0 ts : apply_req ts req0 = ts.
Proof. unfold apply_req. cbn. set_solver. Qed.

Lemma flush_set ts a : acc_set ts (flush a) = acc_set ts a.
Proof.
  destruct a as [[out cur] n]. unfold flush. destruct (0 <? n)%nat; [|done].
  unfold acc_set, acc_reqs. cbn. rewrite !foldl_app. cbn. by rewrite apply_req0.
Qed.

Lemma flush_full a : acc_ok a → (a.2 < MaxTuplesPerWrite)%nat ∨ flush a = ((a.1.1 ++ [a.1.2])%list, req0, 0%nat).
Proof.
  destruct a as [[out cur] n]. intros (_ & _ & Hn). cbn [fst snd] in *. unfold flush.
  destruct (0 <? n)%nat eqn:E; [by right|]. apply Nat.ltb_ge in E. left. unfold MaxTuplesPerWrite. lia.
Qed.

(** One round: room is made, then the tuple is put in the open request. *)
Lemma chunk_add_open put a t : acc_ok a → ∃ b,
  acc_ok b ∧ (b.2 < MaxTuplesPerWrite)%nat ∧ chunk_add put a t = (b.1.1, put b.1.2 t, S b.2) ∧
  (Writes <$> acc_reqs b) ≫= id = (Writes <$> acc_reqs a) ≫= id ∧
  (Deletes <$> acc_reqs b) ≫= id = (Deletes <$> acc_reqs a) ≫= id ∧
  (∀ ts, acc_set ts b = acc_set ts a) ∧ (Deletes a.1.2 = [] → Deletes b.1.2 = []).
Proof.
  intros Ha. unfold chunk_add. case_bool_decide as Hn.
  - destruct (flush_ok a Ha) as (H1 & H2 & H3). exists (flush a). split_and!; auto using flush_set.
    + destruct (flush_full a Ha) as [?| ->]; [lia|]. cbn. unfold MaxTuplesPerWrite. lia.
    + by destruct (flush a) as [[o c] n].
    + intros Hd. destruct (flush_full a Ha) as [?| ->]; [lia|done].
  - exists a. destruct a as [[out cur] n]. destruct Ha as (? & ? & ?). cbn in *.
    split_and!; try done. lia.
Qed.

Lemma chunk_write a t : acc_ok a → Deletes a.1.2 = [] →
  let a' := chunk_add put_write a t in
  acc_ok a' ∧ Deletes a'.1.2 = [] ∧
  (Writes <$> acc_reqs a') ≫= id = (((Writes <$> acc_reqs a) ≫= id) ++ [t])%list ∧
  (Deletes <$> acc_reqs a') ≫= id = (Deletes <$> acc_reqs a) ≫= id ∧
  ∀ ts, acc_set ts a' = acc_set ts a ∪ {[t]}.
Proof.
  intros Ha Hd. destruct (chunk_add_open put_write a t Ha) as (b & (B1 & B2 & B3) & Hn & -> & Hw & Hdl & Hs & Hd').
  specialize (Hd' Hd). destruct b as [[out [w d]] n]. cbn in Hd'. subst d. cbn zeta.
  rewrite <- Hw, <- Hdl. setoid_rewrite <- Hs.
  unfold acc_ok, acc_reqs, acc_set, req_size in *. cbn in *. rewrite !fmap_app, !bind_app, length_app. cbn.
  split_and!; try done; try lia.
  - by rewrite !app_nil_r, app_assoc.
  - intros ts. rewrite !foldl_app. unfold apply_req. cbn. rewrite list_to_set_app_L. set_solver.
Qed.

Lemma chunk_delete a t : acc_ok a →
  let a' := chunk_add put_delete a t in
  acc_ok a' ∧
  (Writes <$> acc_reqs a') ≫= id = (Writes <$> acc_reqs a) ≫= id ∧
  (Deletes <$> acc_reqs a') ≫= id = (((Deletes <$> acc_reqs a) ≫= id) ++ [t])%list ∧
  ∀ ts, acc_set ts a' = acc_set ts a ∖ {[t]}.
Proof.
  intros Ha. destruct (chunk_add_open put_delete a t Ha) as (b & (B1 & B2 & B3) & Hn & -> & Hw & Hdl & Hs & _).
  destruct b as [[out [w d]] n]. cbn zeta. rewrite <- Hw, <- Hdl. setoid_rewrite <- Hs.
  unfold acc_ok, acc_reqs, acc_set, req_size in *. cbn in *. rewrite !fmap_app, !bind_app, length_app. cbn.
  split_and!; try done; try lia.
  - by rewrite !app_nil_r, app_assoc.
  - intros ts. rewrite !foldl_app. unfold apply_req. cbn. rewrite list_to_set_app_L. set_solver.
Qed.

Lemma chunk_writes l : ∀ a, acc_ok a → Deletes a.1.2 = [] →
  let a' := foldl (chunk_add put_write) a l in
  acc_ok a' ∧
  (Writes <$> acc_reqs a') ≫= id = (((Writes <$> acc_reqs a) ≫= id) ++ l)%list ∧
  (Deletes <$> acc_reqs a') ≫= id = (Deletes <$> acc_reqs a) ≫= id ∧
  ∀ ts, acc_set ts a' = acc_set ts a ∪ list_to_set l.
Proof.
  induction l as [|t l IH]; intros a Ha Hd; cbn [foldl].
  - split_and!; try done; [by rewrite app_nil_r|set_solver].
  - destruct (chunk_write a t Ha Hd) as (H1 & H2 & H3 & H4 & H5).
    destruct (IH _ H1 H2) as (G1 & G2 & G3 & G4). cbn zeta. split_and!; [done| | |].
    + rewrite G2, H3, <- app_assoc. done.
    + by rewrite G3, H4.
    + intros ts. rewrite G4, H5. cbn. set_solver.
Qed.

Lemma chunk_deletes l : ∀ a, acc_ok a →
  let a' := foldl (chunk_add put_delete) a l in
  acc_ok a' ∧
  (Writes <$> acc_reqs a') ≫= id = (Writes <$> acc_reqs a) ≫= id ∧
  (Deletes <$> acc_reqs a') ≫= id = (((Deletes <$> acc_reqs a) ≫= id) ++ l)%list ∧
  ∀ ts, acc_set ts a' = acc_set ts a ∖ list_to_set l.
Proof.
  induction l as [|t l IH]; intros a Ha; cbn [foldl].
  - split_and!; try done; [by rewrite app_nil_r|set_solver].
  - destruct (chunk_delete a t Ha) as (H1 & H3 & H4 & H5).
    destruct (IH _ H1) as (G1 & G2 & G3 & G4). cbn zeta. split_and!; [done| | |].
    + by rewrite G2, H3.
    + rewrite G3, H4, <- app_assoc. done.
    + intros ts. rewrite G4, H5. cbn. set_solver.
Qed.

(** What the last flush emits, and that it loses nothing. *)
Lemma flush_last a : acc_ok a →
  chunks_ok (flush a).1.1 ∧
  (Writes <$> (flush a).1.1) ≫= id = (Writes <$> acc_reqs a) ≫= id ∧
  (Deletes <$> (flush a).1.1) ≫= id = (Deletes <$> acc_reqs a) ≫= id ∧
  ∀ ts, foldl apply_req ts (flush a).1.1 = acc_set ts a.
Proof.
  intros Ha. destruct (flush_ok a Ha) as [(H1 & _) _]. split; [done|]. clear H1.
  destruct a as [[out [w d]] n]. destruct Ha as (_ & Hsz & _). unfold flush, acc_set, acc_reqs, req_size in *.
  cbn [fst snd Writes Deletes] in *. destruct (0 <? n)%nat eqn:E; [done|]. apply Nat.ltb_ge in E. cbn [fst snd].
  destruct w; [|cbn in Hsz; lia]. destruct d; [|cbn in Hsz; lia].
  split_and!; [by rewrite fmap_app, bind_app, app_nil_r..|]. intros ts. rewrite foldl_app. symmetry. apply apply_req0.
Qed.

Lemma write_chunks_spec adds removes :
  let l := writeChunks adds removes in
  Forall (λ c, 0 < req_size c <= MaxTuplesPerWrite)%nat l ∧
  (Writes <$> l) ≫= id = adds ∧ (Deletes <$> l) ≫= id = removes ∧
  ∀ ts, foldl apply_req ts l = (ts ∪ list_to_set adds) ∖ list_to_set removes.
Proof.
  cbn zeta. unfold writeChunks.
  destruct (chunk_writes adds ([], req0, 0%nat)) as (H1 & H2 & H3 & H4); [|done|].
  { split_and!; cbn; [constructor|done|lia]. }
  destruct (chunk_deletes removes _ H1) as (G1 & G2 & G3 & G4).
  destruct (flush_last _ G1) as (F1 & F2 & F3 & F4). split_and!; [exact F1| | |].
  - by rewrite F2, G2, H2.
  - by rewrite F3, G3, H3.
  - intros ts. rewrite F4, G4, H4. unfold acc_set, acc_reqs. cbn. by rewrite apply_req0.
Qed.

(** A chunked write sends requests of 1 to 100 tuples that carry exactly the
    adds then the removes in order; applied one after the other they have the
    effect of the single atomic write the callers ask for. *)
Theorem write_chunks_correct adds removes :
  let l := writeChunks adds removes in
  Forall (λ c, 0 < req_size c <= MaxTuplesPerWrite)%nat l ∧
  (Writes <$> l) ≫= id = adds ∧ (Deletes <$> l) ≫= id = removes ∧
  ∀ ts, foldl apply_req ts l = (ts ∪ list_to_set adds) ∖ list_to_set removes.
Proof. apply write_chunks_spec. Qed.
End Chunks.

Section SDKFacts.
(** The server applies a request of at most 100 tuples atomically, ignoring
    duplicate adds and missing deletes (the options of the SDK call), or
    rejects it. *)
Context {C : Type} (Execute : WriteRequest → M C unit) (server : C → gset Tuple).
Hypothesis Execute_atomic : ∀ c w r w', (req_size c <= MaxTuplesPerWrite)%nat → Execute c w = (r, w') →
  server w' = match r with Ok _ => apply_req (server w) c | Err _ => server w end.

Lemma Execute_all l : ∀ w r w',
  Forall (λ c, 0 < req_size c <= MaxTuplesPerWrite)%nat l → for_each l Execute w = (r, w') →
  ∃ n, server w' = foldl apply_req (server w) (take n l) ∧ (is_ok r = true → n = length l).
Proof.
  induction l as [|c l IH]; intros w r w' Hl; cbn [for_each].
  - intros [= <- <-]. by exists 0.
  - inversion Hl as [|? ? Hc Hl']; subst. unfold bind. destruct (Execute c w) as [[[]|e] w1] eqn:E.
    + intros E'. apply Execute_atomic in E; [|lia]. destruct (IH _ _ _ Hl' E') as (n & Hn & Hok).
      exists (S n). split; [|intros; cbn; f_equal; auto]. cbn. by rewrite Hn, E.
    + intros [= <- <-]. apply Execute_atomic in E; [|lia]. exists 0. by rewrite E.
Qed.

(** C38. The OpenFGA backend's write: on success every add and remove is in
    force; on failure the server holds some prefix of the requests, so a
    repeated call converges. *)
Theorem sdk_write_prefix adds removes w r w' :
  SDKWrite Execute adds removes w = (r, w') →
  (is_ok r = true → server w' = (server w ∪ list_to_set adds) ∖ list_to_set removes) ∧
  (∃ n, server w' = foldl apply_req (server w) (take n (writeChunks adds removes))) ∧
  (∀ w'', SDKWrite Execute adds removes w' = (Ok tt, w'') →
     server w'' = (server w ∪ list_to_set adds) ∖ list_to_set removes).
Proof.
  intros E. destruct (write_chunks_spec adds removes) as (Hf & Hw & Hd & Hset). unfold SDKWrite in *.
  destruct (Execute_all _ _ _ _ Hf E) as (n & Hn & Hok). split_and!.
  - intros Hr. rewrite Hn, (Hok Hr), firstn_all. apply Hset.
  - by exists n.
  - intros w'' E'. destruct (Execute_all _ _ _ _ Hf E') as (m & Hm & Hok').
    rewrite Hm, (Hok' eq_refl), firstn_all, Hset, Hn. clear -Hw Hd.
    assert (Hsub : ∀ l s, (∀ t, t ∈ foldl apply_req s l → t ∈ s ∨ t ∈ (Writes <$> l) ≫= id) ∧
                          (∀ t, t ∈ s → t ∉ (Deletes <$> l) ≫= id → t ∈ foldl apply_req s l)).
    { induction l as [|c l IH]; intros s; [set_solver|]. cbn. destruct (IH (apply_req s c)) as [H1 H2].
      split; intros t; setoid_rewrite elem_of_app.
      - intros Ht. destruct (H1 t Ht) as [Hs|]; [|auto]. unfold apply_req in Hs. set_solver.
      - intros Ht Hn. apply H2; [|tauto]. unfold apply_req, id in *. set_solver. }
    destruct (Hsub (take n (writeChunks adds removes)) (server w)) as [H1 H2].
    assert (Htake : ∀ (f : WriteRequest → list Tuple) l t,
               t ∈ (f <$> take n l) ≫= id → t ∈ (f <$> l) ≫= id).
    { intros f l t Ht. rewrite <- (firstn_skipn n l), fmap_app, bind_app. set_solver. }
    apply set_eq. intros t. rewrite !elem_of_difference, !elem_of_union, !elem_of_list_to_set. split.
    + intros [[Ht|Ht] Hr]; [|tauto]. destruct (H1 t Ht) as [?|Hw']; [tauto|].
      apply Htake in Hw'. rewrite Hw in Hw'. tauto.
    + intros [[Ht|Ht] Hr]; [|tauto]. split; [left|done]. apply H2; [done|]. intros Hd'. apply Htake in Hd'.
      by rewrite Hd in Hd'.
Qed.
End SDKFacts.

Definition toyExecute (c : WriteRequest) : M (gset Tuple) unit := λ s, (Ok tt, apply_req s c).
Lemma sdk_write_prefix_witness :
  let t := mkTuple "user:u" "owner" "tenant:t" in
  (SDKWrite toyExecute [t] [] ∅).2 = (∅ ∪ list_to_set [t]) ∖ list_to_set [].
Proof.
  intros t.
  apply (sdk_write_prefix toyExecute (λ s, s) (λ c w r w' _ E, ltac:(injection E as <- <-; reflexivity))
           [t] [] ∅ (SDKWrite toyExecute [t] [] ∅).1 (SDKWrite toyExecute [t] [] ∅).2).
  - apply surjective_pairing.
  - reflexivity.
Defined.

(** ** Tenancy of objects *)
Section Tenancy.
Lemma ValidTenantID_lacks c tid :
  re_within (λ x, negb (is_char c x)) tenantRE = true → ValidTenantID tid = true → lacks c tid = true.
Proof. apply re_match_lacks. Qed.

Lemma cut_typed typ rest :
  lacks ":" typ = true → cut ":" (typ +:+ ":" +:+ rest) = Some (typ, rest).
Proof. apply (cut_app ":"). Qed.

Lemma cut_tenant tid name : ValidTenantID tid = true → cut "/" (tid +:+ "/" +:+ name) = Some (tid, name).
Proof. intros H. apply (cut_app "/"), ValidTenantID_lacks; [vm_compute; done|done]. Qed.

Lemma ObjectTenant_scoped typ tid name :
  typ = "role" ∨ typ = "permission" ∨ typ = "group" → ValidTenantID tid = true →
  ObjectTenant (typ +:+ ":" +:+ tid +:+ "/" +:+ name) = Ok tid.
Proof.
  intros Ht Hv. unfold ObjectTenant. rewrite cut_typed by (destruct Ht as [->|[->| ->]]; vm_compute; done).
  rewrite bool_decide_eq_false_2 by (destruct Ht as [->|[->| ->]]; done).
  replace (bool_decide (typ = "role") || bool_decide (typ = "permission") || bool_decide (typ = "group")) with true
    by (destruct Ht as [->|[->| ->]]; vm_compute; done).
  rewrite cut_tenant by done. by rewrite Hv.
Qed.

Lemma ObjectTenant_role tid slug : ValidTenantID tid = true → ObjectTenant (RoleObject tid slug) = Ok tid.
Proof. intros H. apply (ObjectTenant_scoped "role"); auto. Qed.
Lemma ObjectTenant_group tid gid : ValidTenantID tid = true → ObjectTenant (GroupObject tid gid) = Ok tid.
Proof. intros H. apply (ObjectTenant_scoped "group"); auto. Qed.
Lemma ObjectTenant_permission tid p : ValidTenantID tid = true → ObjectTenant (PermissionObject tid p) = Ok tid.
Proof.
  intros H. unfold PermissionObject, RefObject. destruct (IsLegacy p);
    apply (ObjectTenant_scoped "permission"); auto.
Qed.
Lemma ObjectTenant_tenant tid : ValidTenantID tid = true → ObjectTenant (TenantObject tid) = Ok tid.
Proof.
  intros H. unfold ObjectTenant, TenantObject. change ("tenant:" +:+ tid) with ("tenant" +:+ ":" +:+ tid). rewrite (cut_typed "tenant") by (vm_compute; done).
  by rewrite bool_decide_eq_true_2, H.
Qed.

Lemma scoped_inj typ tid tid' n n' :
  ValidTenantID tid = true → ValidTenantID tid' = true →
  typ +:+ ":" +:+ tid +:+ "/" +:+ n = typ +:+ ":" +:+ tid' +:+ "/" +:+ n' → tid = tid' ∧ n = n'.
Proof.
  intros H H' E. apply str_app_inj_l, str_app_inj_l in E.
  assert (E' : cut "/" (tid +:+ "/" +:+ n) = cut "/" (tid' +:+ "/" +:+ n')) by by rewrite E.
  rewrite !cut_tenant in E' by done.
  by injection E' as -> ->.
Qed.

Lemma RoleObject_inj tid tid' s s' : ValidTenantID tid = true → ValidTenantID tid' = true →
  RoleObject tid s = RoleObject tid' s' → tid = tid' ∧ s = s'.
Proof. apply (scoped_inj "role"). Qed.
Lemma GroupObject_inj tid tid' g g' : ValidTenantID tid = true → ValidTenantID tid' = true →
  GroupObject tid g = GroupObject tid' g' → tid = tid' ∧ g = g'.
Proof. apply (scoped_inj "group"). Qed.
Lemma UserObject_inj u u' : UserObject u = UserObject u' → u = u'.
Proof. apply (str_app_inj_l "user:"). Qed.


(** The tuples about objects of one tenant. *)
Definition tenant_part (tid : string) (ts : gset Tuple) : gset Tuple :=
  filter (λ t, ObjectTenant (TuObject t) = Ok tid) ts.

Lemma holds_mono ts ts' u r o : ts ⊆ ts' → holds ts u r o → holds ts' u r o.
Proof. intros Hs. induction 1; [apply holds_direct|apply holds_member|apply holds_admin|eapply holds_assignee|eapply holds_granted]; eauto. Qed.
End Tenancy.
