(* ===== verification/MemRoles.v ===== *)
(** * Roles, permissions and groups of the in-memory store
      (internal/memstore/memstore.go, groups.go, modules.go)

    One definition per store method the authorization services call.  The
    name comparison of groups (strings.EqualFold) and the database clock are
    arguments. *)
From stdpp Require Import sorting.
From S2P Require Import Prelude GoStrings Regex PermRef TenantCtx Models Cache AuditEvents Session MemStore.
#[local] Open Scope list_scope.
#[local] Open Scope go_scope.

(** ** Ordering of references *)
Definition lessRef (a b : Ref) : bool :=
  if bool_decide (RModule a ≠ RModule b) then String.ltb (RModule a) (RModule b)
  else if bool_decide (RResource a ≠ RResource b) then String.ltb (RResource a) (RResource b)
  else String.ltb (RAction a) (RAction b).
Definition ref_le (a b : Ref) : Prop := lessRef b a = false.
#[export] Instance ref_le_dec a b : Decision (ref_le a b).
Proof. unfold ref_le. apply _. Defined.
Definition sortRefs (l : list Ref) : list Ref := merge_sort ref_le l.

(** ** Roles *)
Definition role_in (m : Store) (tid id : string) : option Role :=
  match RoleRows m !! id with
  | Some r => if bool_decide (RoTenantID r = tid) then Some r else None
  | None => None
  end.

Definition InsertRole (r : Role) : M Store unit := λ m,
  if existsb (λ x, bool_decide (RoTenantID x = RoTenantID r) && bool_decide (RoSlug x = RoSlug r)) (values (RoleRows m))
  then (Err ErrConflict, m)
  else (Ok tt, set_RoleRows m (<[RoID r := r]> (RoleRows m))).

Definition RoleByID (tid id : string) : M Store Role := λ m,
  match role_in m tid id with Some r => (Ok r, m) | None => (Err ErrNotFound, m) end.

Definition set_RoName (r : Role) (name : string) : Role :=
  mkRole (RoID r) (RoTenantID r) (RoSlug r) name (RoBuiltin r) (RoOrigin r) (RoModule r) (RoModuleSlug r)
         (RoDescription r) (RoRetiredAt r).

Definition UpdateRoleName (tid id name : string) : M Store unit := λ m,
  match role_in m tid id with
  | None => (Err ErrNotFound, m)
  | Some r => if bool_decide (OriginOf r ≠ OriginCustom) then (Ok tt, m)
              else (Ok tt, set_RoleRows m (<[id := set_RoName r name]> (RoleRows m)))
  end.

Definition RemoveRole (tid id : string) : M Store unit := λ m,
  match role_in m tid id with
  | None => (Err ErrNotFound, m)
  | Some r =>
      if bool_decide (OriginOf r ≠ OriginCustom) then (Err ErrNotFound, m)
      else (Ok tt, set_Bindings (set_RolePerms (set_RoleRows m (delete id (RoleRows m)))
                                   (delete id (RolePerms m)))
                     (filter (λ x, x ≠ id) <$> Bindings m))
  end.

Definition ReplaceRolePermissions (tid rid : string) (perms : list Ref) : M Store unit := λ m,
  match role_in m tid rid with
  | None => (Err ErrNotFound, m)
  | Some _ => (Ok tt, set_RolePerms m (<[rid := sortRefs (dedup_from [] perms)]> (RolePerms m)))
  end.

(** Go's ranges over the bindings visit the users in no fixed order. *)
Definition RoleAssignees (tid rid : string) : M Store (list string) := λ m,
  (Ok (concat ((λ '(k, ids),
         match cut_prefix (tid +:+ "/") k with
         | None => []
         | Some uid => (λ _, uid) <$> filter (λ x, x = rid) ids
         end) <$> map_to_list (Bindings m))), m).

Definition perm_le (a b : Permission) : Prop := ref_le (PermissionRefOf a) (PermissionRefOf b).
#[export] Instance perm_le_dec a b : Decision (perm_le a b).
Proof. unfold perm_le. apply _. Defined.
Definition ListPermissions (tid : string) : M Store (list Permission) := λ m,
  (Ok (merge_sort perm_le (default [] (Permissions m !! tid))), m).

Definition set_PDescription (p : Permission) (d : string) : Permission :=
  mkPermission (PModule p) (PResource p) (PAction p) d.
Fixpoint upsert_perm (l : list Permission) (p : Permission) : list Permission :=
  match l with
  | [] => [p]
  | x :: l' => if bool_decide (PermissionRefOf x = PermissionRefOf p)
               then set_PDescription x (PDescription p) :: l' else x :: upsert_perm l' p
  end.
Definition UpsertPermission (tid : string) (p : Permission) : M Store unit :=
  modify (λ m, set_Permissions m (<[tid := upsert_perm (default [] (Permissions m !! tid)) p]> (Permissions m))).

Definition UserStatus (tid uid : string) : M Store string := λ m,
  match userByID m tid uid with Some u => (Ok (UStatus u), m) | None => (Err ErrNotFound, m) end.
Definition TenantStatus (tid : string) : M Store string := λ m,
  match Tenants m !! tid with Some t => (Ok (TStatus t), m) | None => (Err ErrNotFound, m) end.

Fixpoint roles_by_id (m : Store) (tid : string) (ids : list string) : result (list Role) :=
  match ids with
  | [] => Ok []
  | id :: ids' =>
      match role_in m tid id with
      | None => Err ErrNotFound
      | Some r => rbind (roles_by_id m tid ids') (λ l, Ok (r :: l))
      end
  end.
Lemma roles_by_id_Ok st tid ids l :
  roles_by_id st tid ids = Ok l → Forall2 (λ id r, role_in st tid id = Some r) ids l.
Proof.
  revert l. induction ids as [|id ids IH]; intros l; cbn [roles_by_id]; [by intros [= <-]|].
  destruct (role_in st tid id) as [r|] eqn:E; [|done]. destruct (roles_by_id st tid ids) as [l'|]; [|done].
  cbn. intros [= <-]. constructor; auto.
Qed.

Definition RolesByID (tid : string) (ids : list string) : M Store (list Role) := λ m, (roles_by_id m tid ids, m).

Definition role_le (a b : Role) : Prop :=
  (if bool_decide (RoBuiltin a ≠ RoBuiltin b) then RoBuiltin a else negb (String.ltb (RoSlug b) (RoSlug a))) = true.
#[export] Instance role_le_dec a b : Decision (role_le a b).
Proof. unfold role_le. apply _. Defined.
Definition ListRoles (tid : string) : M Store (list Role) := λ m,
  (Ok (merge_sort role_le (filter (λ r, RoTenantID r = tid) (values (RoleRows m)))), m).

Definition bindings_of (m : Store) (tid uid : string) : list string := default [] (Bindings m !! map_key tid uid).
Definition UserRoles (tid uid : string) : M Store (list Role) := λ m,
  (Ok (omap (role_in m tid) (bindings_of m tid uid)), m).

Definition role_perms (m : Store) (rid : string) : list Ref := default [] (RolePerms m !! rid).
Definition RolePermissions (tid rid : string) : M Store (list Ref) := λ m,
  match role_in m tid rid with
  | None => (Err ErrNotFound, m)
  | Some _ => (Ok (role_perms m rid), m)
  end.

Definition ReplaceBindings (tid uid : string) (roleIDs : list string) : M Store unit :=
  modify (λ m, set_Bindings m (<[map_key tid uid := roleIDs]> (Bindings m))).

(** How many of these ids are rows with this slug. *)
Definition count_slug (m : Store) (slug : string) (ids : list string) : nat :=
  length (filter (λ id, (RoSlug <$> RoleRows m !! id) = Some slug) ids).
Definition count_with_role (m : Store) (tid slug : string) : nat :=
  map_fold (λ k ids n, if cut_prefix (tid +:+ "/") k then (count_slug m slug ids + n)%nat else n) 0%nat (Bindings m).
Definition CountWithRole (tid slug : string) : M Store Z := λ m, (Ok (Z.of_nat (count_with_role m tid slug)), m).

Definition AdoptBuiltinRole (tid id : string) : M Store unit := λ m,
  match role_in m tid id with
  | None => (Err ErrNotFound, m)
  | Some r =>
      if bool_decide (OriginOf r ≠ OriginCustom) then (Err ErrNotFound, m)
      else (Ok tt, set_RoleRows m (<[id := mkRole (RoID r) (RoTenantID r) (RoSlug r) (RoDisplayName r) true
                                              OriginBuiltin (RoModule r) (RoModuleSlug r) (RoDescription r)
                                              (RoRetiredAt r)]> (RoleRows m)))
  end.

(** ** Groups *)
Definition group_in (m : Store) (tid gid : string) : option Group :=
  match groups m !! gid with
  | Some g => if bool_decide (GrTenantID g = tid) then Some g else None
  | None => None
  end.

Section GroupOps.
Context (EqualFold : string → string → bool).

Definition CreateGroup (g : Group) : M Store unit := λ m,
  if existsb (λ x, bool_decide (GrTenantID x = GrTenantID g) && EqualFold (GrName x) (GrName g)) (values (groups m))
  then (Err ErrConflict, m)
  else (Ok tt, set_groups m (<[GrID g := g]> (groups m))).

Definition UpdateGroup (tid id name description : string) : M Store unit := λ m,
  match group_in m tid id with
  | None => (Err ErrNotFound, m)
  | Some g =>
      if existsb (λ x, bool_decide (GrID x ≠ id) && bool_decide (GrTenantID x = tid) && EqualFold (GrName x) name)
           (values (groups m))
      then (Err ErrConflict, m)
      else (Ok tt, set_groups m (<[id := mkGroup (GrID g) (GrTenantID g) name description (GrCreatedBy g)]> (groups m)))
  end.
End GroupOps.

Definition DeleteGroup (tid id : string) : M Store unit := λ m,
  match group_in m tid id with
  | None => (Err ErrNotFound, m)
  | Some _ => (Ok tt, set_groles (set_members (set_groups m (delete id (groups m)))
                                    (delete id (members m))) (delete id (groles m)))
  end.

Definition GetGroup (tid id : string) : M Store Group := λ m,
  match group_in m tid id with Some g => (Ok g, m) | None => (Err ErrNotFound, m) end.

Definition members_of (m : Store) (gid : string) : list string := default [] (members m !! gid).
Definition CountGroupMembers (tid gid : string) : M Store Z := λ m,
  match group_in m tid gid with
  | None => (Err ErrNotFound, m)
  | Some _ => (Ok (Z.of_nat (length (members_of m gid))), m)
  end.

(** The columns of a member row the services use. *)
Record GroupMember : Type := mkGroupMember { GMUserID : string; GMAddedAt : Z }.
Definition added_at (m : Store) (gid uid : string) : Z := default zero_time (added m !! map_key gid uid).
Definition member_rows (m : Store) (gid : string) : list GroupMember :=
  (λ uid, mkGroupMember uid (added_at m gid uid)) <$> members_of m gid.
Definition ListGroupMembers (tid gid : string) (after : Z) (limit : nat) : M Store (list GroupMember) := λ m,
  (Ok (take limit (filter (λ x, (after < GMAddedAt x)%Z) (member_rows m gid))), m).

Definition microsecond : Z := 1000.
Definition add_member (now : Z) (tid gid uid : string) : M Store bool := λ m,
  match userByID m tid uid with
  | None => (Err ErrNotFound, m)
  | Some _ =>
      if bool_decide (uid ∈ members_of m gid) then (Ok false, m)
      else (Ok true, set_added (set_members m (<[gid := members_of m gid ++ [uid]]> (members m)))
                       (<[map_key gid uid := (now + Z.of_nat (size (added m)) * microsecond)%Z]> (added m)))
  end.
Definition AddGroupMembers (now : Z) (tid gid : string) (userIDs : list string) : M Store Z := λ m,
  match group_in m tid gid with
  | None => (Err ErrNotFound, m)
  | Some _ => fold_each userIDs 0%Z (λ n uid, b <- add_member now tid gid uid ;;
                                            ret (if (b : bool) then (n + 1)%Z else n)) m
  end.

Definition RemoveGroupMember (tid gid uid : string) : M Store unit := λ m,
  match group_in m tid gid with
  | None => (Ok tt, m)
  | Some _ => (Ok tt, set_added (set_members m (<[gid := filter (λ x, x ≠ uid) (members_of m gid)]> (members m)))
                        (delete (map_key gid uid) (added m)))
  end.

Definition IsGroupMember (tid gid uid : string) : M Store bool := λ m,
  match group_in m tid gid with
  | None => (Ok false, m)
  | Some _ => (Ok (bool_decide (uid ∈ members_of m gid)), m)
  end.

Definition groles_of (m : Store) (gid : string) : list string := default [] (groles m !! gid).
Definition ReplaceGroupRoles (tid gid : string) (roleIDs : list string) : M Store unit := λ m,
  match group_in m tid gid with
  | None => (Err ErrNotFound, m)
  | Some _ => (Ok tt, set_groles m (<[gid := roleIDs]> (groles m)))
  end.

Definition GroupRoles (tid gid : string) : M Store (list Role) := λ m,
  match group_in m tid gid with
  | None => (Err ErrNotFound, m)
  | Some _ => (Ok (omap (role_in m tid) (groles_of m gid)), m)
  end.

(** Rows (role, source) of a user: direct bindings, then the user's groups. *)
Definition err_le (a b : EffectiveRoleRow) : Prop :=
  (if bool_decide (ESlug a ≠ ESlug b) then String.ltb (ESlug a) (ESlug b)
   else if bool_decide (ESource a ≠ ESource b) then String.ltb (ESource a) (ESource b)
   else negb (String.ltb (EGroupName b) (EGroupName a))) = true.
#[export] Instance err_le_dec a b : Decision (err_le a b).
Proof. unfold err_le. apply _. Defined.

Definition direct_rows (m : Store) (tid uid : string) : list EffectiveRoleRow :=
  (λ r, mkERR (RoID r) (RoSlug r) "direct" "" "") <$> omap (role_in m tid) (bindings_of m tid uid).
Definition group_rows (m : Store) (tid uid : string) : list EffectiveRoleRow :=
  concat ((λ '(gid, us),
    match group_in m tid gid with
    | None => []
    | Some g =>
        concat ((λ _, omap (λ id, (λ r, mkERR (RoID r) (RoSlug r) "group" gid (GrName g)) <$> RoleRows m !! id)
                        (groles_of m gid)) <$> filter (λ x, x = uid) us)
    end) <$> map_to_list (members m)).
Definition EffectiveRoles (tid uid : string) : M Store (list EffectiveRoleRow) := λ m,
  (Ok (merge_sort err_le (direct_rows m tid uid ++ group_rows m tid uid)), m).
