(* ===== verification/AuthzClient.v ===== *)
(** * The authorization client, the decision cache and decisions
      (internal/authz/client.go, escalation.go, decide.go)

    [AZ] is the state the authorization services share: the store, the tuple
    backend, the cache, the audit log and the refusals reported by the tenant
    guard.  Every service is a function on it. *)
From S2P Require Import Prelude GoStrings Regex PermRef TenantCtx Models Cache AuditEvents Session MemStore.
From S2P Require Import Fga MemRoles.
#[local] Open Scope list_scope.
#[local] Open Scope go_scope.

Definition DecisionTTL : Z := 2 * Dur.second.

(** Error texts that reach the audit log. *)
Definition err_text (e : err) : string :=
  match e with
  | ErrSelfEscalation => "self_escalation" | ErrLastOwner => "last_owner" | ErrRoleRetired => "role_retired"
  | ErrForbidden => "forbidden" | ErrOwnerViaGroup => "owner_via_group"
  | ErrMemberCountMismatch => "member_count_mismatch"
  | _ => ""
  end.

Record AZ (B K : Type) : Type := mkAZ {
  az_st : Store;
  az_fga : B;
  az_cache : option K;
  az_audit : list Event;
  az_refusals : list Refusal;
  az_now : Z;
  az_ids : nat;
}.
Arguments mkAZ {B K}.
Arguments az_st {B K}. Arguments az_fga {B K}. Arguments az_cache {B K}. Arguments az_audit {B K}.
Arguments az_refusals {B K}. Arguments az_now {B K}. Arguments az_ids {B K}.

Record Decision : Type := mkDecision { DAllowed : bool; DReason : string; DPolicyVersion : string }.
#[global] Instance Decision_eq_dec : EqDecision Decision.
Proof. solve_decision. Defined.

Definition ReasonNoPermission := "no_permission".
Definition ReasonUserInactive := "user_inactive".
Definition ReasonTenantSuspended := "tenant_suspended".
Definition ReasonUnknownPermission := "unknown_permission".

Definition boolStr (b : bool) : string := if b then "1" else "0".
Definition hasSlug (slugs : list string) (s : string) : bool := existsb (λ x, bool_decide (x = s)) slugs.
Definition containsRole (roles : list Role) (id : string) : bool := existsb (λ r, bool_decide (RoID r = id)) roles.
Definition containsSlug (roles : list Role) (slug : string) : bool := existsb (λ r, bool_decide (RoSlug r = slug)) roles.
Definition dedupe (ids : list string) : list string := dedup_from [] ids.

(** [Resolve] of decide.go: the permission a check evaluates. *)
Definition ResolvePermission (known : list Ref) (p : Ref) : option Ref :=
  if bool_decide (p ∈ known) then Some p
  else if negb (IsLegacy p)
  then let legacy := mkRef "" (RResource p) (RAction p) in
       if bool_decide (legacy ∈ known) then Some legacy else None
  else None.

Section Client.
Context {B K : Type} `{Backend B} `{KV K}.
Notation W := (AZ B K).

Definition stM {A} (m : M Store A) : M W A := λ w,
  let '(r, s) := m (az_st w) in
  (r, mkAZ s (az_fga w) (az_cache w) (az_audit w) (az_refusals w) (az_now w) (az_ids w)).
Definition fgaM {A} (m : M B A) : M W A := λ w,
  let '(r, b) := m (az_fga w) in
  (r, mkAZ (az_st w) b (az_cache w) (az_audit w) (az_refusals w) (az_now w) (az_ids w)).
(** [d] is the answer when the cache is nil. *)
Definition kvM {A} (d : A) (m : M K A) : M W A := λ w,
  match az_cache w with
  | None => (Ok d, w)
  | Some k => let '(r, k') := m k in
              (r, mkAZ (az_st w) (az_fga w) (Some k') (az_audit w) (az_refusals w) (az_now w) (az_ids w))
  end.
Definition emitE (e : Event) : M W unit :=
  modify (λ w, mkAZ (az_st w) (az_fga w) (az_cache w) (az_audit w ++ [e]) (az_refusals w) (az_now w) (az_ids w)).
Definition nowA : M W Z := gets az_now.

(** [guard.Require] with the refusal callback. *)
Definition requireM (ctx : Ctx) (tid : string) : M W unit := λ w,
  let '(r, o) := Require ctx tid in
  (r, match o with
      | None => w
      | Some x => mkAZ (az_st w) (az_fga w) (az_cache w) (az_audit w) (az_refusals w ++ [x]) (az_now w) (az_ids w)
      end).

Definition scoped (ctx : Ctx) (tid : string) (objects : list string) : M W unit :=
  requireM ctx tid ;;;
  for_each objects (λ o,
    ot <- lift (ObjectTenant o) ;;
    if bool_decide (ot ≠ tid) then throw ErrObjectCrossTenant else ret tt).

Definition decisionKey (tid uid perm : string) : M W string :=
  c <- gets az_cache ;;
  match c with
  | None => ret ""
  | Some _ =>
      now <- nowA ;;
      v <- kvM 0%Z (TenantVersion now tid) ;;
      ret (DecisionKey tid uid (perm +:+ "@" +:+ FormatInt v))
  end.

Definition Allowed (ctx : Ctx) (tid uid : string) (p : Ref) : M W bool :=
  let obj := PermissionObject tid p in
  scoped ctx tid [obj] ;;;
  kr <- attempt (decisionKey tid uid (RefString p)) ;;
  let key := match kr with Ok k => k | Err _ => "" end in
  now <- nowA ;;
  cached <- (if bool_decide (key ≠ "")
             then r <- attempt (kvM None (kv_get now key)) ;;
                  ret (match r with Ok v => v | Err _ => None end)
             else ret None) ;;
  match cached with
  | Some (Raw v) => ret (bool_decide (v = "1"))
  | Some (Json _) => ret false
  | None =>
      ok <- fgaM (b_check (mkTuple (UserObject uid) "granted" obj)) ;;
      (if bool_decide (key ≠ "") then ignore (kvM tt (kv_set now key (Raw (boolStr ok)) DecisionTTL)) else ret tt) ;;;
      ret ok
  end.

Definition granted_tuple (tid uid : string) (p : Ref) : Tuple :=
  mkTuple (UserObject uid) "granted" (PermissionObject tid p).
Definition AllowedMany (ctx : Ctx) (tid uid : string) (ps : list Ref) : M W (list bool) :=
  scoped ctx tid (PermissionObject tid <$> ps) ;;;
  fgaM (b_batch (granted_tuple tid uid <$> ps)).

Definition IsMember (ctx : Ctx) (tid uid : string) : M W bool :=
  scoped ctx tid [] ;;;
  fgaM (b_check (mkTuple (UserObject uid) "member" (TenantObject tid))).

(** A "tenant" tuple must name the tenant of its object. *)
Definition tenant_tuple_ok (t : Tuple) : bool :=
  match ObjectTenant (TuObject t) with
  | Ok ot => negb (bool_decide (TuRelation t = "tenant") && bool_decide (TuUser t ≠ TenantObject ot))
  | Err _ => true
  end.
Definition Write (ctx : Ctx) (tid : string) (adds removes : list Tuple) : M W unit :=
  for_each (adds ++ removes) (λ t, if tenant_tuple_ok t then ret tt else throw ErrObjectCrossTenant) ;;;
  scoped ctx tid (TuObject <$> (adds ++ removes)) ;;;
  fgaM (b_write adds removes) ;;;
  now <- nowA ;;
  ignore (kvM 0%Z (BumpTenantVersion now tid)).

(** ** Escalation *)
Definition MayGrant (ctx : Ctx) (actor : Actor) (tid : string) (perms : list Ref) : M W unit :=
  if bool_decide (perms = []) || hasSlug (ARoles actor) "owner" then ret tt
  else if bool_decide (AKind actor = KindSystem) then ret tt
  else held <- AllowedMany ctx tid (AUserID actor) perms ;;
       if forallb id held then ret tt else throw ErrSelfEscalation.

(** ** Decisions *)
Definition knownRefs (tid : string) : M W (list Ref) :=
  l <- stM (ListPermissions tid) ;; ret (PermissionRefOf <$> l).

Definition effectiveRoles (tid uid : string) : M W (list (string * string)) :=
  r <- attempt (stM (EffectiveRoles tid uid)) ;;
  match r with
  | Err _ => l <- attempt (stM (UserRoles tid uid)) ;;
             ret (match l with Ok l => (λ r, (RoID r, RoSlug r)) <$> l | Err _ => [] end)
  | Ok rows =>
      ret (foldl (λ out r, if existsb (λ x, bool_decide (x.1 = ERoleID r)) out then out
                           else out ++ [(ERoleID r, ESlug r)]) [] rows)
  end.

Fixpoint grantingRole (tid : string) (roles : list (string * string)) (p : Ref) : M W string :=
  match roles with
  | [] => ret "role:unknown"
  | (id, slug) :: roles' =>
      r <- attempt (stM (RolePermissions tid id)) ;;
      match r with
      | Ok perms => if bool_decide (p ∈ perms) then ret ("role:" +:+ slug) else grantingRole tid roles' p
      | Err _ => grantingRole tid roles' p
      end
  end.

(** The first loop of [BatchDecide]: what is answered from the catalogue or
    the cache, and what is left to ask (index and reference). *)
Definition lookup_decision (tid uid version : string) (known : list Ref) (p : Ref) : M W (Decision * option Ref) :=
  let d0 := mkDecision false ReasonNoPermission version in
  match ResolvePermission known p with
  | None => ret (mkDecision false ReasonUnknownPermission version, None)
  | Some eval =>
      now <- nowA ;;
      r <- attempt (kvM None (kv_get now (DecisionKey tid uid (RefString eval +:+ "@" +:+ version)))) ;;
      match r with
      | Ok (Some (Raw v)) =>
          if bool_decide (v = "0") then ret (d0, None) else ret (mkDecision true v version, None)
      | Ok (Some (Json _)) => ret (mkDecision true "" version, None)
      | Ok None | Err _ => ret (d0, Some eval)
      end
  end.

Fixpoint mapM_ {X Y} (f : X → M W Y) (l : list X) : M W (list Y) :=
  match l with
  | [] => ret []
  | x :: l' => y <- f x ;; ys <- mapM_ f l' ;; ret (y :: ys)
  end.

(** The second loop: [allowed] answers the asked references in order. *)
Fixpoint fill (tid uid version : string) (roles : option (list (string * string)))
    (ds : list (Decision * option Ref)) (allowed : list bool) : M W (list Decision) :=
  match ds with
  | [] => ret []
  | (d, None) :: ds' => rest <- fill tid uid version roles ds' allowed ;; ret (d :: rest)
  | (d, Some ref) :: ds' =>
      match allowed with
      | [] => throw (ErrText "index out of range")
      | a :: allowed' =>
          dr <- (if (a : bool)
                 then rs <- (match roles with Some rs => ret rs | None => effectiveRoles tid uid end) ;;
                      reason <- grantingRole tid rs ref ;;
                      ret (mkDecision true reason version, Some rs)
                 else ret (d, roles)) ;;
          now <- nowA ;;
          ignore (kvM tt (kv_set now (DecisionKey tid uid (RefString ref +:+ "@" +:+ version))
                            (Raw (if DAllowed dr.1 then DReason dr.1 else "0")) DecisionTTL)) ;;;
          rest <- fill tid uid version dr.2 ds' allowed' ;;
          ret (dr.1 :: rest)
      end
  end.

Definition deny_event (tid uid : string) (p : Ref) (d : Decision) : Event :=
  mkEvent AuthzDenied tid "user" uid "permission" "" "refused" (DReason d) [("permission", RefString p : detail)].

Definition BatchDecide (ctx : Ctx) (tid uid : string) (perms : list Ref) : M W (list Decision) :=
  requireM ctx tid ;;;
  c <- gets az_cache ;;
  now <- nowA ;;
  version <- (match c with
              | None => ret ""
              | Some _ => r <- attempt (kvM 0%Z (TenantVersion now tid)) ;;
                          ret (match r with Ok v => FormatInt v | Err _ => "" end)
              end) ;;
  let deny reason := ret ((λ _, mkDecision false reason version) <$> perms) in
  ts <- attempt (stM (TenantStatus tid)) ;;
  if negb (bool_decide (ts = Ok "active")) then deny ReasonTenantSuspended else
  us <- attempt (stM (UserStatus tid uid)) ;;
  if negb (bool_decide (us = Ok "active")) then deny ReasonUserInactive else
  known <- knownRefs tid ;;
  ds <- mapM_ (lookup_decision tid uid version known) perms ;;
  let ask := omap snd ds in
  out <- (if bool_decide (ask = []) then ret (fst <$> ds)
          else allowed <- AllowedMany ctx tid uid ask ;;
               fill tid uid version None ds allowed) ;;
  for_each (zip perms out) (λ '(p, d), if DAllowed d then ret tt else emitE (deny_event tid uid p d)) ;;;
  ret out.

Definition Decide (ctx : Ctx) (tid uid : string) (p : Ref) : M W Decision :=
  res <- BatchDecide ctx tid uid [p] ;;
  match res with
  | d :: _ => ret d
  | [] => throw (ErrText "index out of range")
  end.

Definition DeciderAllowed (ctx : Ctx) (tid uid : string) (p : Ref) : M W bool :=
  known <- knownRefs tid ;;
  match ResolvePermission known p with
  | None => ret false
  | Some eval => Allowed ctx tid uid eval
  end.
End Client.
