(* ===== verification/AuthzServices.v ===== *)
(** * Role assignment, roles and groups
      (internal/authz/assign.go, invite_escalation.go, roles.go, groups.go) *)
From S2P Require Import Prelude GoStrings Regex PermRef TenantCtx Models Cache AuditEvents Session MemStore.
From S2P Require Import Fga MemRoles AuthzClient.
#[local] Open Scope list_scope.
#[local] Open Scope go_scope.

(** unicode.IsControl over the runes of a string: C0, DEL and C1.  A C1 rune
    is C2 80 .. C2 9F in UTF-8, and C2 is never a continuation byte. *)
Fixpoint hasControl (s : string) : bool :=
  match s with
  | EmptyString => false
  | String c s' =>
      (code c <? 32)%nat || (code c =? 127)%nat ||
      ((code c =? 194)%nat && match s' with
                              | String d _ => (128 <=? code d)%nat && (code d <=? 159)%nat
                              | EmptyString => false
                              end) ||
      hasControl s'
  end.

Definition validDisplayName (s : string) : option string :=
  let s := TrimSpace s in
  if bool_decide (s = "") || (120 <? String.length s)%nat then None
  else if hasControl s then None else Some s.

Definition GroupNameMax : nat := 64.
Definition GroupDescriptionMax : nat := 500.
Definition GroupBatchMax : nat := 100.
Definition ValidateGroupName (name : string) : result string :=
  let name := TrimSpace name in
  if bool_decide (name = "") || (GroupNameMax <? String.length name)%nat || hasControl name
  then Err ErrInvalidName else Ok name.

Definition refuseRetired (roles : list Role) : result unit :=
  if existsb (λ r, if RoRetiredAt r then true else false) roles then Err ErrRoleRetired else Ok tt.

Definition locked (ro : Role) : result unit :=
  if bool_decide (OriginOf ro = OriginBuiltin) then Err ErrBuiltin
  else if bool_decide (OriginOf ro = OriginModule) then Err ErrManagedRole
  else Ok tt.

Record RoleSource : Type := mkSource { RSKind : string; RSGroupID : string; RSGroupName : string }.
#[global] Instance RoleSource_eq_dec : EqDecision RoleSource.
Proof. solve_decision. Defined.
Record EffectiveRole : Type := mkEffective { EfRoleID : string; EfSlug : string; EfSources : list RoleSource }.

(** One row folded in: a known role gains a source (once), a new role is
    appended. *)
Fixpoint fold_row (out : list EffectiveRole) (r : EffectiveRoleRow) : list EffectiveRole :=
  let src := mkSource (ESource r) (EGroupID r) (EGroupName r) in
  match out with
  | [] => [mkEffective (ERoleID r) (ESlug r) [src]]
  | e :: out' =>
      if bool_decide (EfRoleID e = ERoleID r)
      then mkEffective (EfRoleID e) (EfSlug e)
             (if bool_decide (src ∈ EfSources e) then EfSources e else EfSources e ++ [src]) :: out'
      else e :: fold_row out' r
  end.
Definition FoldEffectiveRoles (rows : list EffectiveRoleRow) : list EffectiveRole := foldl fold_row [] rows.

Record RoleView : Type := mkRoleView {
  RVID : string; RVSlug : string; RVDisplayName : string; RVOrigin : string; RVLocked : bool;
  RVRetired : bool; RVPermissions : list string }.
Definition refsOf (perms : list Ref) : list string := RefString <$> perms.
Definition roleView (ro : Role) (perms : list Ref) : RoleView :=
  mkRoleView (RoID ro) (RoSlug ro) (RoDisplayName ro) (OriginOf ro)
    (bool_decide (OriginOf ro ≠ OriginCustom)) (if RoRetiredAt ro then true else false) (refsOf perms).

Section Services.
Context {B K : Type} `{Backend B} `{KV K}.
Context (EqualFold : string → string → bool) (newID : nat → string).
Notation W := (AZ B K).

Definition freshID : M W string := λ w,
  (Ok (newID (az_ids w)),
   mkAZ (az_st w) (az_fga w) (az_cache w) (az_audit w) (az_refusals w) (az_now w) (S (az_ids w))).
Definition actorM (ctx : Ctx) : M W Actor :=
  match FromContext ctx with Some a => ret a | None => throw ErrNoActor end.

(** ** Assigner *)
Definition assign_event (typ : string) (actor : Actor) (tid uid outcome reason : string) (details : Details) : Event :=
  mkEvent typ tid (kind_string (AKind actor)) (AUserID actor) "user" uid outcome reason details.

(** The permissions of the roles, refusing owner and admin on the way. *)
Fixpoint granting (tid : string) (roles : list Role) (acc : list Ref) : M W (list Ref) :=
  match roles with
  | [] => ret acc
  | r :: roles' =>
      if bool_decide (RoSlug r = "owner") || bool_decide (RoSlug r = "admin") then throw ErrSelfEscalation
      else perms <- stM (RolePermissions tid (RoID r)) ;; granting tid roles' (acc ++ perms)
  end.

Definition MayAssign (ctx : Ctx) (actor : Actor) (tid : string) (roleIDs : list string) : M W unit :=
  requireM ctx tid ;;;
  if bool_decide (roleIDs = []) then ret tt else
  roles <- stM (RolesByID tid (dedupe roleIDs)) ;;
  lift (refuseRetired roles) ;;;
  if hasSlug (ARoles actor) "owner" then ret tt else
  perms <- granting tid roles [] ;;
  MayGrant ctx actor tid perms.

Definition assign_adds (tid uid : string) (want have : list Role) : list Tuple :=
  concat ((λ r, if containsRole have (RoID r) then []
                else RoleAssignmentTuple tid (RoSlug r) uid ::
                     (if bool_decide (RoSlug r = "owner") then [MembershipTuple tid uid "owner"] else [])) <$> want).
Definition emit_tuples (typ : string) (actor : Actor) (tid uid : string) (ts : list Tuple) : M W unit :=
  for_each ts (λ t, if bool_decide (TuRelation t = "assignee")
                    then emitE (assign_event typ actor tid uid "ok" "" [("role", TuObject t : detail)]) else ret tt).

Definition AssignRoles (ctx : Ctx) (tid uid : string) (roleIDs : list string) : M W (list string) :=
  actor <- actorM ctx ;;
  requireM ctx tid ;;;
  want <- stM (RolesByID tid (dedupe roleIDs)) ;;
  have <- stM (UserRoles tid uid) ;;
  let adding := RoID <$> filter (λ r, containsRole have (RoID r) = false) want in
  let refuse e := emitE (assign_event RoleAssigned actor tid uid "refused" (err_text e) []) ;;; throw e in
  may <- attempt (MayAssign ctx actor tid adding) ;;
  (match may with
   | Ok _ => ret tt
   | Err e => if bool_decide (e = ErrSelfEscalation) || bool_decide (e = ErrRoleRetired) then refuse e else throw e
   end) ;;;
  (if containsSlug have "owner" && negb (containsSlug want "owner")
   then n <- stM (CountWithRole tid "owner") ;;
        if (n <=? 1)%Z then refuse ErrLastOwner else ret tt
   else ret tt) ;;;
  let adds := assign_adds tid uid want have in
  let removes := assign_adds tid uid have want in
  stM (ReplaceBindings tid uid (RoID <$> want)) ;;;
  Write ctx tid adds removes ;;;
  emit_tuples RoleAssigned actor tid uid adds ;;;
  emit_tuples RoleRevoked actor tid uid removes ;;;
  ret (RoSlug <$> want).

(** ** Roles *)
Definition role_event (typ : string) (actor : Actor) (tid id : string) (details : Details) : Event :=
  mkEvent typ tid (kind_string (AKind actor)) (AUserID actor) "role" id "ok" "" details.
Definition system_role_event (typ tid id : string) (details : Details) : Event :=
  mkEvent typ tid "system" "" "role" id "ok" "" details.

Fixpoint parse_refs (known kept : list Ref) (refs : list string) (out : list Ref) : result (list Ref) :=
  match refs with
  | [] => Ok out
  | s :: refs' =>
      match ParsePermissionRef s with
      | Err _ => Err ErrRoleRef
      | Ok ref =>
          if negb (bool_decide (ref ∈ known)) || (IsLegacy ref && negb (bool_decide (ref ∈ kept)))
          then Err ErrRoleRef
          else parse_refs known kept refs' (if bool_decide (ref ∈ out) then out else out ++ [ref])
      end
  end.
Definition parsePerms (tid : string) (refs : list string) (kept : list Ref) : M W (list Ref) :=
  known <- knownRefs tid ;; lift (parse_refs known kept refs []).

Definition createRole (ctx : Ctx) (tid slug displayName : string) (permRefs : list string)
    (cloned : option Role) : M W RoleView :=
  actor <- actorM ctx ;;
  requireM ctx tid ;;;
  match ParseCustomSlug slug, validDisplayName displayName with
  | Ok _, Some name =>
      perms <- parsePerms tid permRefs [] ;;
      MayGrant ctx actor tid perms ;;;
      id <- freshID ;;
      let ro := mkRole id tid slug name false OriginCustom "" "" "" None in
      r <- attempt (stM (InsertRole ro)) ;;
      (match r with
       | Ok _ => ret tt
       | Err e => if bool_decide (e = ErrConflict) then throw ErrRoleConflict else throw e
       end) ;;;
      Write ctx tid (RoleTenantTuple tid slug :: (GrantTuple tid slug <$> perms)) [] ;;;
      stM (ReplaceRolePermissions tid id perms) ;;;
      emitE (match cloned with
             | Some c => role_event RoleCloned actor tid id
                           [("source", RoID c : detail); ("source_slug", RoSlug c : detail); ("slug", slug : detail);
                            ("permissions", DList (refsOf perms))]
             | None => role_event RoleCreated actor tid id [("slug", slug : detail); ("permissions", DList (refsOf perms))]
             end) ;;;
      ret (roleView ro perms)
  | _, _ => throw ErrRoleRef
  end.
Definition CreateRole (ctx : Ctx) (tid slug displayName : string) (permRefs : list string) : M W RoleView :=
  createRole ctx tid slug displayName permRefs None.

Definition CloneRole (ctx : Ctx) (tid id slug displayName : string) : M W RoleView :=
  requireM ctx tid ;;;
  src <- stM (RoleByID tid id) ;;
  if bool_decide (RoSlug src = "owner") then throw ErrBuiltin else
  perms <- stM (RolePermissions tid id) ;;
  createRole ctx tid slug displayName (RefString <$> filter (λ p, IsLegacy p = false) perms) (Some src).

Definition UpdateRole (ctx : Ctx) (tid id displayName : string) (permRefs : list string) : M W RoleView :=
  actor <- actorM ctx ;;
  requireM ctx tid ;;;
  ro <- stM (RoleByID tid id) ;;
  lift (locked ro) ;;;
  current <- stM (RolePermissions tid id) ;;
  perms <- parsePerms tid permRefs current ;;
  let new := filter (λ p, p ∉ current) perms in
  let adds := GrantTuple tid (RoSlug ro) <$> new in
  let removes := GrantTuple tid (RoSlug ro) <$> filter (λ p, p ∉ perms) current in
  MayGrant ctx actor tid new ;;;
  ro <- (if bool_decide (TrimSpace displayName ≠ "") && bool_decide (TrimSpace displayName ≠ RoDisplayName ro)
         then match validDisplayName displayName with
              | None => throw ErrRoleRef
              | Some name => stM (UpdateRoleName tid id name) ;;; ret (set_RoName ro name)
              end
         else ret ro) ;;
  Write ctx tid adds removes ;;;
  stM (ReplaceRolePermissions tid id perms) ;;;
  emitE (role_event RoleUpdated actor tid id [("permissions", DList (refsOf perms))]) ;;;
  ret (roleView ro perms).

Definition RemoveRoleOp (ctx : Ctx) (tid id : string) : M W unit :=
  actor <- actorM ctx ;;
  requireM ctx tid ;;;
  ro <- stM (RoleByID tid id) ;;
  lift (locked ro) ;;;
  assignees <- stM (RoleAssignees tid id) ;;
  perms <- stM (RolePermissions tid id) ;;
  let removes := (RoleAssignmentTuple tid (RoSlug ro) <$> assignees) ++
                 (GrantTuple tid (RoSlug ro) <$> perms) ++ [RoleTenantTuple tid (RoSlug ro)] in
  stM (RemoveRole tid id) ;;;
  Write ctx tid [] removes ;;;
  emitE (role_event RoleDeleted actor tid id
           [("slug", RoSlug ro : detail); ("unassigned", DInt (Z.of_nat (length assignees)))]).

(** Make the role grant exactly [want]. *)
Definition setGrants (ctx : Ctx) (tid : string) (ro : Role) (want : list Ref) : M W (Z * Z) :=
  current <- stM (RolePermissions tid (RoID ro)) ;;
  let list := dedup_from [] want in
  let adds := GrantTuple tid (RoSlug ro) <$> filter (λ p, p ∉ current) list in
  let removes := GrantTuple tid (RoSlug ro) <$> filter (λ p, p ∉ want) current in
  if bool_decide (adds = []) && bool_decide (removes = []) then ret (0%Z, 0%Z) else
  Write (SystemCtx ctx) tid adds removes ;;;
  stM (ReplaceRolePermissions tid (RoID ro) list) ;;;
  ret (Z.of_nat (length adds), Z.of_nat (length removes)).

Definition addGrants (ctx : Ctx) (tid : string) (ro : Role) (perms : list Ref) : M W Z :=
  current <- stM (RolePermissions tid (RoID ro)) ;;
  r <- setGrants ctx tid ro (current ++ perms) ;;
  ret r.1.

(** The last matching role wins, as in the source's loop. *)
Definition GrantBuiltin (ctx : Ctx) (tid slug : string) (refs : list Ref) : M W bool :=
  roles <- stM (ListRoles tid) ;;
  match last (filter (λ r, RoSlug r = slug ∧ OriginOf r = OriginBuiltin) roles) with
  | None => ret false
  | Some role =>
      added <- addGrants ctx tid role refs ;;
      (if (0 <? added)%Z then emitE (system_role_event RoleUpdated tid (RoID role)
                                  [("slug", slug : detail); ("granted", DInt added)]) else ret tt) ;;;
      ret true
  end.

Definition RevokeBuiltin (ctx : Ctx) (tid module : string) (keep : string → Ref → bool) : M W Z :=
  roles <- stM (ListRoles tid) ;;
  fold_each roles 0%Z (λ total ro,
    if bool_decide (OriginOf ro ≠ OriginBuiltin) then ret total else
    current <- stM (RolePermissions tid (RoID ro)) ;;
    let gone p := bool_decide (RModule p = module) && negb (keep (RoSlug ro) p) in
    if negb (existsb gone current) then ret total else
    r <- setGrants ctx tid ro (filter (λ p, gone p = false) current) ;;
    emitE (system_role_event RoleUpdated tid (RoID ro)
             [("slug", RoSlug ro : detail); ("revoked", DList (refsOf (filter (λ p, gone p = true) current)))]) ;;;
    ret (total + r.2)%Z).

(** strings.ToUpper(slug[:1]) + slug[1:]; indexing an empty slug panics. *)
Definition upper_byte (c : ascii) : string :=
  if is_lower c then String (ascii_of_nat (code c - 32)) ""
  else if (code c <? 128)%nat then String c "" else bytes [239; 191; 189].
Definition capitalize (slug : string) : option string :=
  match slug with EmptyString => None | String c s => Some (upper_byte c +:+ s) end.

Definition EnsureBuiltin (ctx : Ctx) (tid : string) (slugs : list string) : M W (list string) :=
  roles <- stM (ListRoles tid) ;;
  fold_each slugs [] (λ changed slug,
    match last (filter (λ r, RoSlug r = slug) roles) with
    | Some ro =>
        if bool_decide (OriginOf ro ≠ OriginCustom) then ret changed else
        stM (AdoptBuiltinRole tid (RoID ro)) ;;;
        emitE (system_role_event RoleUpdated tid (RoID ro) [("slug", slug : detail); ("adopted", DBool true)]) ;;;
        ret (changed ++ [slug])
    | None =>
        name <- (match capitalize slug with Some n => ret n | None => throw (ErrText "slice bounds out of range") end) ;;
        id <- freshID ;;
        let ro := mkRole id tid slug name true OriginBuiltin "" "" "" None in
        Write (SystemCtx ctx) tid [RoleTenantTuple tid slug] [] ;;;
        stM (InsertRole ro) ;;;
        emitE (system_role_event RoleCreated tid id [("slug", slug : detail); ("builtin", DBool true)]) ;;;
        ret (changed ++ [slug])
    end).

(** ** Groups *)
Definition group_event (typ : string) (actor : Actor) (tid kind id outcome reason : string) (details : Details) : Event :=
  mkEvent typ tid (kind_string (AKind actor)) (AUserID actor) kind id outcome reason details.
Definition refuseG {A} (actor : Actor) (tid typ kind id : string) (e : err) : M W A :=
  emitE (group_event typ actor tid kind id "refused" (err_text e) []) ;;; throw e.

Definition admin (ctx : Ctx) (tid typ kind id : string) : M W Actor :=
  actor <- actorM ctx ;;
  requireM ctx tid ;;;
  if bool_decide (AKind actor = KindSystem) || IsAdmin actor then ret actor
  else refuseG actor tid typ kind id ErrForbidden.

Definition privileged_refused (privileged : bool) (actor : Actor) : bool :=
  privileged && negb (IsOwner actor) && negb (bool_decide (AKind actor = KindSystem)).

Fixpoint roleGrants (tid : string) (roles : list Role) : M W (list Ref * bool) :=
  match roles with
  | [] => ret ([], false)
  | r :: roles' =>
      ps <- stM (RolePermissions tid (RoID r)) ;;
      rest <- roleGrants tid roles' ;;
      ret (ps ++ rest.1, bool_decide (RoSlug r = "owner") || bool_decide (RoSlug r = "admin") || rest.2)
  end.
Definition groupGrants (tid gid : string) : M W (list Ref * bool) :=
  roles <- stM (GroupRoles tid gid) ;; roleGrants tid roles.

Definition CreateGroupOp (ctx : Ctx) (tid name description : string) : M W Group :=
  actor <- admin ctx tid GroupCreated "group" "" ;;
  name <- lift (ValidateGroupName name) ;;
  let description := TrimSpace description in
  if (GroupDescriptionMax <? String.length description)%nat || hasControl description then throw ErrInvalidName else
  id <- freshID ;;
  let grp := mkGroup id tid name description
               (if bool_decide (AUserID actor ≠ "") then Some (AUserID actor) else None) in
  r <- attempt (stM (CreateGroup EqualFold grp)) ;;
  (match r with
   | Ok _ => ret tt
   | Err e => if bool_decide (e = ErrConflict) then throw ErrNameTaken else throw e
   end) ;;;
  Write ctx tid [GroupTenantTuple tid id] [] ;;;
  emitE (group_event GroupCreated actor tid "group" id "ok" "" [("name", name : detail)]) ;;;
  ret grp.

Definition UpdateGroupOp (ctx : Ctx) (tid id name description : string) : M W Group :=
  actor <- admin ctx tid GroupUpdated "group" id ;;
  name <- lift (ValidateGroupName name) ;;
  let description := TrimSpace description in
  if (GroupDescriptionMax <? String.length description)%nat || hasControl description then throw ErrInvalidName else
  r <- attempt (stM (UpdateGroup EqualFold tid id name description)) ;;
  (match r with
   | Ok _ => ret tt
   | Err e => if bool_decide (e = ErrConflict) then throw ErrNameTaken else throw e
   end) ;;;
  emitE (group_event GroupUpdated actor tid "group" id "ok" "" [("name", name : detail)]) ;;;
  stM (GetGroup tid id).

(** The paging loop of [Delete]; [fuel] bounds the number of pages. *)
Fixpoint member_pages (fuel : nat) (tid gid : string) (after : Z) (acc : list string) : M W (list string) :=
  match fuel with
  | O => throw (ErrText "out of fuel")
  | S n =>
      page <- stM (ListGroupMembers tid gid after GroupBatchMax) ;;
      let acc := acc ++ (GMUserID <$> page) in
      let after := match last page with Some m => GMAddedAt m | None => after end in
      if (length page <? GroupBatchMax)%nat then ret acc else member_pages n tid gid after acc
  end.

(** [for start := 0; start < len(l); start += n] over slices of [l]. *)
Fixpoint slices {A} (fuel n : nat) (l : list A) : list (list A) :=
  match fuel, l with
  | O, _ | _, [] => []
  | S f, _ => take n l :: slices f n (drop n l)
  end.

Definition DeleteGroupOp (ctx : Ctx) (tid id : string) (memberCount : Z) : M W unit :=
  actor <- admin ctx tid GroupDeleted "group" id ;;
  grp <- stM (GetGroup tid id) ;;
  n <- stM (CountGroupMembers tid id) ;;
  if bool_decide (n ≠ memberCount) then refuseG actor tid GroupDeleted "group" id ErrMemberCountMismatch else
  roles <- stM (GroupRoles tid id) ;;
  uids <- member_pages (S (Z.to_nat n)) tid id zero_time [] ;;
  let removes := GroupTenantTuple tid id :: ((λ r, GroupRoleTuple tid id (RoSlug r)) <$> roles) in
  let removes := removes ++ (GroupMembershipTuple tid id <$> uids) in
  stM (DeleteGroup tid id) ;;;
  for_each (slices (length removes) GroupBatchMax removes) (λ chunk, Write ctx tid [] chunk) ;;;
  emitE (group_event GroupDeleted actor tid "group" id "ok" ""
           [("name", GrName grp : detail); ("member_count", DInt n); ("roles", DList (RoSlug <$> roles))]).

Fixpoint join_grants (tid : string) (actor : Actor) (ids : list string) (acc : list Ref) : M W (list Ref) :=
  match ids with
  | [] => ret acc
  | id :: ids' =>
      stM (GetGroup tid id) ;;;
      g <- groupGrants tid id ;;
      if privileged_refused g.2 actor then throw ErrSelfEscalation
      else join_grants tid actor ids' (acc ++ g.1)
  end.
Definition MayJoin (ctx : Ctx) (actor : Actor) (tid : string) (groupIDs : list string) : M W unit :=
  perms <- join_grants tid actor (dedupe groupIDs) [] ;;
  MayGrant ctx actor tid perms.

(** InviteEscalation.MayAssign *)
Definition InviteMayAssign (ctx : Ctx) (actor : Actor) (tid : string) (roleIDs groupIDs : list string) : M W unit :=
  if bool_decide (AKind actor = KindOperator) || bool_decide (AKind actor = KindSystem)
  then requireM ctx tid ;;;
       roles <- stM (RolesByID tid (dedupe roleIDs)) ;;
       lift (refuseRetired roles)
  else MayAssign ctx actor tid roleIDs ;;; MayJoin ctx actor tid groupIDs.

(** [MayGrant], auditing a refusal. *)
Definition may_grant_or_refuse (ctx : Ctx) (actor : Actor) (tid typ id : string) (perms : list Ref) : M W unit :=
  r <- attempt (MayGrant ctx actor tid perms) ;;
  match r with
  | Ok _ => ret tt
  | Err e => if bool_decide (e = ErrSelfEscalation) then refuseG actor tid typ "group" id e else throw e
  end.

Definition add_one (tid id : string) (actor : Actor) (adds : list Tuple) (uid : string) : M W (list Tuple) :=
  member <- stM (IsGroupMember tid id uid) ;;
  if (member : bool) then ret adds else
  now <- nowA ;;
  n <- stM (AddGroupMembers now tid id [uid]) ;;
  if bool_decide (n = 0%Z) then ret adds else
  emitE (group_event GroupMemberAdded actor tid "user" uid "ok" "" [("group", id : detail)]) ;;;
  ret (adds ++ [GroupMembershipTuple tid id uid]).

Definition AddMembers (ctx : Ctx) (tid id : string) (userIDs : list string) : M W Z :=
  actor <- admin ctx tid GroupMemberAdded "group" id ;;
  stM (GetGroup tid id) ;;;
  let userIDs := dedupe userIDs in
  if bool_decide (userIDs = []) || (GroupBatchMax <? length userIDs)%nat then throw ErrInvalidName else
  g <- groupGrants tid id ;;
  if privileged_refused g.2 actor then refuseG actor tid GroupMemberAdded "group" id ErrSelfEscalation else
  may_grant_or_refuse ctx actor tid GroupMemberAdded id g.1 ;;;
  adds <- fold_each userIDs [] (add_one tid id actor) ;;
  (if bool_decide (adds = []) then ret tt else Write ctx tid adds []) ;;;
  ret (Z.of_nat (length adds)).

Definition RemoveMember (ctx : Ctx) (tid id uid : string) : M W unit :=
  actor <- admin ctx tid GroupMemberRemoved "group" id ;;
  stM (GetGroup tid id) ;;;
  member <- stM (IsGroupMember tid id uid) ;;
  if negb member then ret tt else
  stM (RemoveGroupMember tid id uid) ;;;
  Write ctx tid [] [GroupMembershipTuple tid id uid] ;;;
  emitE (group_event GroupMemberRemoved actor tid "user" uid "ok" "" [("group", id : detail)]).

Definition SetRoles (ctx : Ctx) (tid id : string) (roleIDs : list string) : M W (list string) :=
  actor <- admin ctx tid GroupRoleGranted "group" id ;;
  stM (GetGroup tid id) ;;;
  let roleIDs := dedupe roleIDs in
  if (GroupBatchMax <? length roleIDs)%nat then throw ErrInvalidName else
  want <- stM (RolesByID tid roleIDs) ;;
  have <- stM (GroupRoles tid id) ;;
  if containsSlug want "owner" then refuseG actor tid GroupRoleGranted "group" id ErrOwnerViaGroup else
  let adding := filter (λ r, containsRole have (RoID r) = false) want in
  (match refuseRetired adding with
   | Ok _ => ret tt
   | Err e => refuseG actor tid GroupRoleGranted "group" id e
   end) ;;;
  g <- roleGrants tid adding ;;
  if privileged_refused g.2 actor then refuseG actor tid GroupRoleGranted "group" id ErrSelfEscalation else
  may_grant_or_refuse ctx actor tid GroupRoleGranted id g.1 ;;;
  let adds := (λ r, GroupRoleTuple tid id (RoSlug r)) <$> adding in
  let removes := (λ r, GroupRoleTuple tid id (RoSlug r)) <$>
                 filter (λ r, containsRole want (RoID r) = false) have in
  stM (ReplaceGroupRoles tid id (RoID <$> want)) ;;;
  Write ctx tid adds removes ;;;
  for_each adds (λ t, emitE (group_event GroupRoleGranted actor tid "group" id "ok" "" [("role", TuObject t : detail)])) ;;;
  for_each removes (λ t, emitE (group_event GroupRoleRevoked actor tid "group" id "ok" "" [("role", TuObject t : detail)])) ;;;
  ret (RoSlug <$> want).

Definition EffectiveRolesOp (ctx : Ctx) (tid uid : string) : M W (list EffectiveRole) :=
  admin ctx tid GroupUpdated "user" uid ;;;
  rows <- stM (EffectiveRoles tid uid) ;;
  ret (FoldEffectiveRoles rows).
End Services.
