(* ===== verification/MemModules.v ===== *)
(** * The module catalogue of the in-memory store (internal/memstore/modules.go)

    The catalogue is a state of its own, beside the tables of [Store]; the
    module operations on roles, permissions and members of a tenant are
    methods of [Store].  Failures injected by tests are not modelled. *)
From stdpp Require Import sorting.
From S2P Require Import Prelude GoStrings Regex PermRef TenantCtx Models Cache AuditEvents Session MemStore MemRoles.
#[local] Open Scope list_scope.
#[local] Open Scope go_scope.

Record moduleState : Type := mkModuleState {
  ms_modules : gmap string Module_;
  ms_perms : gmap string ModulePermission;   (* module/resource/action *)
  ms_defs : gmap string ModuleRoleDef;       (* module/slug *)
  ms_tenants : gmap string TenantModule;     (* tenant/module *)
}.
Definition set_modules (s : moduleState) x := mkModuleState x (ms_perms s) (ms_defs s) (ms_tenants s).
Definition set_mperms (s : moduleState) x := mkModuleState (ms_modules s) x (ms_defs s) (ms_tenants s).
Definition set_mdefs (s : moduleState) x := mkModuleState (ms_modules s) (ms_perms s) x (ms_tenants s).
Definition set_mtenants (s : moduleState) x := mkModuleState (ms_modules s) (ms_perms s) (ms_defs s) x.

Definition perm_key (m r a : string) : string := m +:+ "/" +:+ r +:+ "/" +:+ a.
Definition def_key (m slug : string) : string := m +:+ "/" +:+ slug.

Definition UpsertModule (now : Z) (name displayName : string) : M moduleState unit := modify (λ s,
  let cur := match ms_modules s !! name with
             | None => mkModule name (if bool_decide (displayName = "") then name else displayName) now now None
             | Some x => mkModule (MdName x) (if bool_decide (displayName = "") then MdDisplayName x else displayName)
                           (MdRegisteredAt x) now None
             end in
  set_modules s (<[name := cur]> (ms_modules s))).

Definition by_name (a b : Module_) : Prop := String.leb (MdName a) (MdName b) = true.
#[export] Instance by_name_dec a b : Decision (by_name a b).
Proof. unfold by_name. apply _. Defined.
Definition Modules (s : moduleState) : list Module_ := merge_sort by_name (values (ms_modules s)).

Definition retire_at (now : Z) (t : option Z) : option Z := Some (default now t).
Definition RetireModuleRow (now : Z) (name : string) : M moduleState unit := λ s,
  match ms_modules s !! name with
  | None => (Err ErrNotFound, s)
  | Some x =>
      (Ok tt, mkModuleState
        (<[name := mkModule (MdName x) (MdDisplayName x) (MdRegisteredAt x) (MdUpdatedAt x) (retire_at now (MdRetiredAt x))]> (ms_modules s))
        ((λ p, if bool_decide (MpModule p = name)
               then mkModulePermission (MpModule p) (MpResource p) (MpAction p) (MpDescription p) (retire_at now (MpRetiredAt p)) else p) <$> ms_perms s)
        ((λ d, if bool_decide (RdModule d = name)
               then mkRoleDef (RdModule d) (RdSlug d) (RdDisplayName d) (RdDescription d) (RdPermissions d) (RdUpdatedAt d) (retire_at now (RdRetiredAt d)) else d) <$> ms_defs s)
        (ms_tenants s))
  end.

Definition UpsertModulePermission (p : ModulePermission) : M moduleState unit := modify (λ s,
  set_mperms s (<[perm_key (MpModule p) (MpResource p) (MpAction p) :=
    mkModulePermission (MpModule p) (MpResource p) (MpAction p) (MpDescription p) None]> (ms_perms s))).
Definition by_perm (a b : ModulePermission) : Prop :=
  String.leb (perm_key (MpModule a) (MpResource a) (MpAction a)) (perm_key (MpModule b) (MpResource b) (MpAction b)) = true.
#[export] Instance by_perm_dec a b : Decision (by_perm a b).
Proof. unfold by_perm. apply _. Defined.
Definition ModulePermissions (module : string) (s : moduleState) : list ModulePermission :=
  merge_sort by_perm (filter (λ p, module = "" ∨ MpModule p = module) (values (ms_perms s))).

(** Whether the definition is new or differs from the current one. *)
Definition UpsertModuleRoleDef (now : Z) (d : ModuleRoleDef) : M moduleState bool := λ s,
  let k := def_key (RdModule d) (RdSlug d) in
  let put := set_mdefs s (<[k := mkRoleDef (RdModule d) (RdSlug d) (RdDisplayName d) (RdDescription d) (RdPermissions d) now None]> (ms_defs s)) in
  match ms_defs s !! k with
  | Some c =>
      if bool_decide (RdDisplayName c = RdDisplayName d) && bool_decide (RdDescription c = RdDescription d) &&
         bool_decide (RdPermissions c = RdPermissions d) && bool_decide (RdRetiredAt c = None)
      then (Ok false, s) else (Ok true, put)
  | None => (Ok true, put)
  end.
Definition by_def (a b : ModuleRoleDef) : Prop :=
  String.leb (def_key (RdModule a) (RdSlug a)) (def_key (RdModule b) (RdSlug b)) = true.
#[export] Instance by_def_dec a b : Decision (by_def a b).
Proof. unfold by_def. apply _. Defined.
Definition ModuleRoleDefs (module : string) (s : moduleState) : list ModuleRoleDef :=
  merge_sort by_def (filter (λ d, module = "" ∨ RdModule d = module) (values (ms_defs s))).
Definition RetireModuleRoleDef (now : Z) (module slug : string) : M moduleState unit := λ s,
  match ms_defs s !! def_key module slug with
  | None => (Err ErrNotFound, s)
  | Some d =>
      (Ok tt, set_mdefs s (<[def_key module slug :=
         mkRoleDef (RdModule d) (RdSlug d) (RdDisplayName d) (RdDescription d) (RdPermissions d) (RdUpdatedAt d) (retire_at now (RdRetiredAt d))]> (ms_defs s)))
  end.

Definition TenantModuleRow (tid module : string) : M moduleState TenantModule := λ s,
  match ms_tenants s !! map_key tid module with Some t => (Ok t, s) | None => (Err ErrNotFound, s) end.
Definition EnsureTenantModule (now : Z) (tid module : string) : M moduleState unit := modify (λ s,
  if bool_decide (is_Some (ms_tenants s !! map_key tid module)) then s
  else set_mtenants s (<[map_key tid module := mkTenantModule tid module now None]> (ms_tenants s))).
Definition MarkLegacyMigrated (now : Z) (tid module : string) : M moduleState unit := λ s,
  match ms_tenants s !! map_key tid module with
  | None => (Err ErrNotFound, s)
  | Some t => (Ok tt, set_mtenants s (<[map_key tid module :=
                 mkTenantModule (TmTenantID t) (TmModule t) (TmFirstRegisteredAt t) (retire_at now (TmLegacyMigratedAt t))]> (ms_tenants s)))
  end.

(** ** Tables of a tenant *)
Definition set_RoModuleFields (r : Role) (name description : string) (retired : option Z) : Role :=
  mkRole (RoID r) (RoTenantID r) (RoSlug r) name (RoBuiltin r) (RoOrigin r) (RoModule r) (RoModuleSlug r) description retired.
Definition UpdateModuleRole (tid id name description : string) (retired : option Z) : M Store unit := λ m,
  match role_in m tid id with
  | None => (Err ErrNotFound, m)
  | Some r =>
      if bool_decide (OriginOf r ≠ OriginModule) then (Err ErrNotFound, m)
      else (Ok tt, set_RoleRows m (<[id := set_RoModuleFields r name description retired]> (RoleRows m)))
  end.

Definition ListActiveMemberIDs (tid after : string) (limit : nat) (ids : list string) : M Store (list string) := λ m,
  (Ok (take limit (sort_strings (UID <$> filter (λ u, UTenantID u = tid ∧ UStatus u = "active" ∧
         (if bool_decide (ids = []) then String.ltb after (UID u) else bool_decide (UID u ∈ ids)) = true) (values (Users m))))), m).

(** Legacy permissions and the grants of them, in the roles of the tenant. *)
Definition DeleteLegacyPermissions (tid : string) : M Store Z := λ m,
  let rows := default [] (Permissions m !! tid) in
  (Ok (Z.of_nat (length (filter (λ p, PModule p = "") rows))),
   set_RolePerms (set_Permissions m (<[tid := filter (λ p, PModule p ≠ "") rows]> (Permissions m)))
     (map_fold (λ id r acc, if bool_decide (RoTenantID r = tid)
                            then <[id := filter (λ g, IsLegacy g = false) (role_perms m id)]> acc else acc)
        (RolePerms m) (RoleRows m))).
