(* ===== verification/Modules.v ===== *)
(** * Module registration (internal/authz/modules.go, registry.go)

    A module declares the permissions it enforces, the roles it provides and
    what built-in roles are granted; every tenant gets the permissions, a copy
    of the roles and, at its first registration, the module-scoped form of the
    legacy grants its roles hold. *)
From S2P Require Import Prelude GoStrings Regex PermRef TenantCtx Models Cache AuditEvents Session MemStore.
From S2P Require Import Fga MemRoles AuthzClient AuthzServices MemModules.
#[local] Open Scope list_scope.
#[local] Open Scope go_scope.

Definition MaxRegistrationPermissions : nat := 200.
Definition MaxModuleRoles : nat := 20.
Definition MaxRolePermissions : nat := 200.
Definition MaxSkippedSamples : nat := 5.
Definition RoleInvalidSlug : string := "invalid_slug".
Definition RoleInvalidName : string := "invalid_name".
Definition RoleForeignPermission : string := "foreign_permission".
Definition RoleTooManyPerms : string := "too_many_permissions".
Definition RoleNoPermissions : string := "no_permissions".
Definition RoleDuplicate : string := "duplicate".
Definition SkipRoleMissing : string := "role_missing".
Definition BuiltinRoleSlugs : list string := ["owner"; "admin"; "member"; "auditor"; "operator"].
Definition ErrBadRegistration : err := ErrText "authz: invalid registration".
Definition ErrUnknownModule : err := ErrText "authz: unknown module".
Definition ErrBadPermission : err := ErrText "authz: invalid permission".

(** authz.Permission: without the module, which the registration names. *)
Record PermissionDef : Type := mkPermDef { PdResource : string; PdAction : string; PdDescription : string }.
Definition PermissionRefIn (m : string) (p : PermissionDef) : Ref := mkRef m (PdResource p) (PdAction p).
Record ModuleRole : Type := mkModuleRole { MrSlug : string; MrDisplayName : string; MrDescription : string; MrPermissions : list string }.
Record BuiltinGrant : Type := mkBuiltinGrant { BgRole : string; BgPermissions : list string }.
Record Registration : Type := mkRegistration {
  RgModule : string; RgDisplayName : string; RgRegistrant : string; RgDelegate : string;
  RgPermissions : list PermissionDef; RgRoles : list ModuleRole; RgDeclaresRoles : bool;
  RgGrants : list BuiltinGrant; RgDeclaresGrants : bool; RgTenants : list string }.
Record SkippedGrant : Type := mkSkipped { SkRole : string; SkTenants : Z; SkSample : list string; SkReason : string }.
Record RoleError : Type := mkRoleError { ReSlug : string; ReReason : string }.
Record RegisterResult : Type := mkRegisterResult {
  RrRegistered : Z; RrSkipped : list SkippedGrant; RrRoleErrors : list RoleError; RrRolesUpserted : Z;
  RrRolesRetired : list string; RrGrantsRevoked : Z }.

(** ** Checking a registration *)
Definition printable (s : string) (max : nat) : bool := (String.length s <=? max)%nat && negb (hasControl s).
Definition short_of (p : PermissionDef) : string := PdResource p +:+ ":" +:+ PdAction p.

(** The role's permissions without duplicates, or nothing when one is foreign. *)
Fixpoint role_shorts (module : string) (own : list string) (l acc : list string) : option (list string) :=
  match l with
  | [] => Some acc
  | s :: l' =>
      let short := match Parse s with
                   | Ok ref => if bool_decide (RModule ref = module) then Short ref else s
                   | Err _ => s
                   end in
      if negb (bool_decide (short ∈ own)) then None
      else role_shorts module own l' (if bool_decide (short ∈ acc) then acc else acc ++ [short])
  end.
Definition check_role (module : string) (own seen : list string) (r : ModuleRole) : string + list string :=
  let name := TrimSpace (MrDisplayName r) in
  if negb (ValidRoleDefSlug (MrSlug r)) then inl RoleInvalidSlug
  else if bool_decide (MrSlug r ∈ seen) then inl RoleDuplicate
  else if bool_decide (name = "") || negb (printable name 120) || negb (printable (MrDescription r) 256) then inl RoleInvalidName
  else if bool_decide (MrPermissions r = []) then inl RoleNoPermissions
  else if (MaxRolePermissions <? length (MrPermissions r))%nat then inl RoleTooManyPerms
  else match role_shorts module own (MrPermissions r) [] with
       | None => inl RoleForeignPermission
       | Some l => inr l
       end.
Fixpoint check_roles (module : string) (own seen : list string) (l : list ModuleRole) : list ModuleRoleDef * list RoleError :=
  match l with
  | [] => ([], [])
  | r :: l' =>
      let '(defs, errs) := check_roles module own (MrSlug r :: seen) l' in
      match check_role module own seen r with
      | inl reason => (defs, mkRoleError (MrSlug r) reason :: errs)
      | inr perms => (mkRoleDef module (MrSlug r) (TrimSpace (MrDisplayName r)) (MrDescription r) (sort_strings perms) zero_time None :: defs, errs)
      end
  end.
Definition validate (reg : Registration) : result (list ModuleRoleDef * list RoleError) :=
  if negb (ValidModule (RgModule reg)) || negb (printable (RgDisplayName reg) 120) ||
     negb (bool_decide (TrimSpace (RgDisplayName reg) = RgDisplayName reg)) then Err ErrBadRegistration
  else if (MaxRegistrationPermissions <? length (RgPermissions reg))%nat || (MaxModuleRoles <? length (RgRoles reg))%nat then Err ErrBadRegistration
  else if negb (forallb (λ p, ValidResource (PdResource p) && ValidAction (PdAction p) && printable (PdDescription p) 256) (RgPermissions reg))
  then Err ErrBadRegistration
  else let own := short_of <$> RgPermissions reg in
       if negb (forallb (λ g, bool_decide (BgRole g ∈ BuiltinRoleSlugs) && forallb (λ s, bool_decide (s ∈ own)) (BgPermissions g)) (RgGrants reg))
       then Err ErrBadRegistration
       else Ok (check_roles (RgModule reg) own [] (RgRoles reg)).

Definition qualify (module : string) (shorts : list string) : list string := (λ s, module +:+ ":" +:+ s) <$> shorts.

(** ** The services *)
Record MW (B K : Type) : Type := mkMW { mw_az : AZ B K; mw_cat : moduleState }.
Arguments mkMW {B K}. Arguments mw_az {B K}. Arguments mw_cat {B K}.

Fixpoint assoc_ref (l : list (Ref * string)) (p : Ref) : option string :=
  match l with [] => None | (q, d) :: l' => if bool_decide (q = p) then Some d else assoc_ref l' p end.

(** The last matching row, as a map filled in list order has it. *)
Definition module_role (module slug : string) (roles : list Role) : option Role :=
  last (filter (λ r, OriginOf r = OriginModule ∧ RoModule r = module ∧ RoModuleSlug r = slug) roles).

Section Modules.
Context {B K : Type} `{Backend B} `{KV K} (newID : nat → string).
(** PlatformTenant and Tenants of the service. *)
Context (PlatformTenant : string) (listTenants : option (result (list string))).
Notation W := (AZ B K).
Notation MWD := (MW B K).

Definition azL {A} (m : M W A) : M MWD A := λ w, let '(r, a) := m (mw_az w) in (r, mkMW a (mw_cat w)).
Definition catM {A} (f : Z → M moduleState A) : M MWD A := λ w,
  let '(r, c) := f (az_now (mw_az w)) (mw_cat w) in (r, mkMW (mw_az w) c).
Definition catR {A} (f : moduleState → A) : M MWD A := gets (λ w, f (mw_cat w)).
Definition emitM (e : Event) : M MWD unit := if bool_decide (ETenantID e = "") then ret tt else azL (emitE e).

Definition service_event (typ tid registrant kind : string) (d : Details) : Event :=
  mkEventFull typ tid "" "service" registrant kind "" "ok" "" "" "" "" "" d.

(** Registry.Register: tuples of new permissions first, then changed rows. *)
Definition put_permission (tid module registrant : string) (known : list (Ref * string)) (d : PermissionDef) : M W (list (Ref * string)) :=
  let ref := PermissionRefIn module d in
  if bool_decide (assoc_ref known ref = Some (PdDescription d)) then ret known
  else stM (UpsertPermission tid (mkPermission module (PdResource d) (PdAction d) (PdDescription d))) ;;;
       ret ((ref, PdDescription d) :: known).
Definition RegisterPermissions (ctx : Ctx) (tid module registrant : string) (defs : list PermissionDef) : M W Z :=
  requireM ctx tid ;;;
  if negb (bool_decide (module = "")) && negb (ValidModule module) then throw ErrBadPermission else
  if negb (forallb (λ d, ValidResource (PdResource d) && ValidAction (PdAction d) && (String.length (PdDescription d) <=? 256)%nat) defs)
  then throw ErrBadPermission else
  existing <- stM (ListPermissions tid) ;;
  let known := foldl (λ m p, (PermissionRefOf p, PDescription p) :: m) [] existing in
  let fresh := dedup_from [] (filter (λ r, assoc_ref known r = None) (PermissionRefIn module <$> defs)) in
  (if bool_decide (fresh = []) then ret tt else Write ctx tid (PermissionTenantTuple tid <$> fresh) []) ;;;
  fold_each defs known (put_permission tid module registrant) ;;;
  (if bool_decide (defs = []) then ret tt
   else emitE (service_event PermissionRegistered tid registrant "" [("count", DInt (Z.of_nat (length defs))); ("module", module : detail)])) ;;;
  ret (Z.of_nat (length defs)).

(** The module-scoped forms of the legacy grants that the module registered. *)
Definition scoped_form (module : string) (scoped grants : list Ref) : list Ref :=
  (λ g, WithModule g module) <$> filter (λ g, IsLegacy g = true ∧ WithModule g module ∈ scoped) grants.
Definition migrate_role (ctx : Ctx) (tid module : string) (scoped : list Ref) (ro : Role) : M W unit :=
  grants <- stM (RolePermissions tid (RoID ro)) ;;
  let add := scoped_form module scoped grants in
  if bool_decide (add = []) then ret tt else
  n <- addGrants ctx tid ro add ;;
  (if bool_decide (tid = "") then ret tt else
   emitE (system_role_event PermissionMigrated tid (RoID ro)
     [("module", module : detail); ("role", RoSlug ro : detail); ("count", DInt n); ("permissions", DList (refsOf add))])).
Definition migrate_rows (ctx : Ctx) (tid module : string) : M W unit :=
  catalogue <- stM (ListPermissions tid) ;;
  let scoped := PermissionRefOf <$> filter (λ p, PModule p = module) catalogue in
  roles <- stM (ListRoles tid) ;;
  for_each roles (migrate_role ctx tid module scoped).
Definition migrate (ctx : Ctx) (tid module : string) : M MWD unit :=
  catM (λ now, EnsureTenantModule now tid module) ;;;
  tm <- catM (λ _, TenantModuleRow tid module) ;;
  if TmLegacyMigratedAt tm then ret tt else
  azL (migrate_rows ctx tid module) ;;;
  catM (λ now, MarkLegacyMigrated now tid module).

Definition moduleRole (tid module slug : string) : M W Role :=
  roles <- stM (ListRoles tid) ;;
  match find_first (λ r, bool_decide (OriginOf r = OriginModule) && bool_decide (RoModule r = module) && bool_decide (RoModuleSlug r = slug)) roles with
  | Some r => ret r
  | None => throw ErrNotFound
  end.

Definition wanted (module : string) (known : list Ref) (shorts : list string) : list Ref :=
  omap (λ s, match Qualify module s with Ok ref => if bool_decide (ref ∈ known) then Some ref else None | Err _ => None end) shorts.
Definition create_copy (ctx : Ctx) (tid module : string) (d : ModuleRoleDef) : M W Role :=
  slug <- lift (ModuleRoleSlug module (RdSlug d)) ;;
  id <- freshID newID ;;
  let ro := mkRole id tid slug (RdDisplayName d) false OriginModule module (RdSlug d) (RdDescription d) None in
  Write ctx tid [RoleTenantTuple tid slug] [] ;;;
  r <- attempt (stM (InsertRole ro)) ;;
  match r with
  | Ok _ => ret ro
  | Err e => if bool_decide (e = ErrConflict) then moduleRole tid module (RdSlug d) else throw e
  end.
Definition differs (ro : Role) (d : ModuleRoleDef) : bool :=
  negb (bool_decide (RoDisplayName ro = RdDisplayName d)) || negb (bool_decide (RoDescription ro = RdDescription d)) ||
  negb (Bool.eqb (bool_decide (RoRetiredAt ro = None)) (bool_decide (RdRetiredAt d = None))).
Definition sync_role (ctx : Ctx) (tid module : string) (roles : list Role) (known : list Ref) (kept : gmap string Z) (d : ModuleRoleDef) : M W (gmap string Z) :=
  let found := module_role module (RdSlug d) roles in
  if bool_decide (found = None) && negb (bool_decide (RdRetiredAt d = None)) then ret kept else
  ro <- match found with
        | None => create_copy ctx tid module d
        | Some ro =>
            (if differs ro d then stM (UpdateModuleRole tid (RoID ro) (RdDisplayName d) (RdDescription d) (RdRetiredAt d)) else ret tt) ;;; ret ro
        end ;;
  kept <- (if bool_decide (RdRetiredAt d = None) then ret kept
           else ids <- attempt (stM (RoleAssignees tid (RoID ro))) ;;
                ret (match ids with
                     | Ok l => <[RdSlug d := (default 0 (kept !! RdSlug d) + Z.of_nat (length l))%Z]> kept
                     | Err _ => kept
                     end)) ;;
  setGrants ctx tid ro (wanted module known (RdPermissions d)) ;;;
  ret kept.
Definition syncRoles (ctx : Ctx) (tid module : string) (defs : list ModuleRoleDef) : M W (gmap string Z) :=
  roles <- stM (ListRoles tid) ;;
  known <- knownRefs tid ;;
  fold_each defs ∅ (sync_role ctx tid module roles known).

Definition grantBuiltin (ctx : Ctx) (tid module : string) (g : BuiltinGrant) : M W bool :=
  catalogue <- stM (ListPermissions tid) ;;
  let legacy := PermissionRefOf <$> filter (λ p, PModule p = "") catalogue in
  refs <- fold_each (BgPermissions g) [] (λ refs s,
    match Qualify module s with
    | Err _ => throw ErrBadRegistration
    | Ok ref => let l := mkRef "" (RResource ref) (RAction ref) in
                ret (refs ++ ref :: (if bool_decide (l ∈ legacy) then [l] else []))
    end) ;;
  GrantBuiltin ctx tid (BgRole g) refs.

Fixpoint wanted_builtin (module : string) (grants : list BuiltinGrant) : option (list (string * Ref)) :=
  match grants with
  | [] => Some []
  | g :: grants' =>
      refs ← mapM (λ s, match Qualify module s with Ok ref => Some (BgRole g, ref) | Err _ => None end) (BgPermissions g);
      rest ← wanted_builtin module grants';
      Some (refs ++ rest)
  end.
Definition revokeBuiltin (ctx : Ctx) (tid module : string) (grants : list BuiltinGrant) : M W Z :=
  match wanted_builtin module grants with
  | None => throw ErrBadRegistration
  | Some want => RevokeBuiltin ctx tid module (λ slug p, bool_decide ((slug, p) ∈ want))
  end.

(** ** Register *)
Definition add_counts (a b : gmap string Z) : gmap string Z := union_with (λ x y, Some (x + y)%Z) a b.
(** What the loop over the tenants keeps. *)
Record TenantTally : Type := mkTally { TtRegistered : Z; TtRevoked : Z; TtKept : gmap string Z; TtSkipped : gmap string SkippedGrant }.
Definition skip_one (tid role : string) (m : gmap string SkippedGrant) : gmap string SkippedGrant :=
  let s := default (mkSkipped role 0 [] SkipRoleMissing) (m !! role) in
  <[role := mkSkipped role (SkTenants s + 1) (if (length (SkSample s) <? MaxSkippedSamples)%nat then SkSample s ++ [tid] else SkSample s) (SkReason s)]> m.
Definition register_tenant (ctx : Ctx) (reg : Registration) (defs : list ModuleRoleDef) (t : TenantTally) (tid : string) : M MWD TenantTally :=
  n <- azL (RegisterPermissions ctx tid (RgModule reg) (RgRegistrant reg) (RgPermissions reg)) ;;
  migrate ctx tid (RgModule reg) ;;;
  if negb (bool_decide (RgDelegate reg = "")) then ret (mkTally (TtRegistered t + n) (TtRevoked t) (TtKept t) (TtSkipped t)) else
  counts <- azL (syncRoles ctx tid (RgModule reg) defs) ;;
  revoked <- (if RgDeclaresGrants reg then azL (revokeBuiltin ctx tid (RgModule reg) (RgGrants reg)) else ret 0%Z) ;;
  skipped <- fold_each (RgGrants reg) (TtSkipped t) (λ m g,
    found <- azL (grantBuiltin ctx tid (RgModule reg) g) ;;
    ret (if found : bool then m else skip_one tid (BgRole g) m)) ;;
  ret (mkTally (TtRegistered t + n) (TtRevoked t + revoked) (add_counts (TtKept t) counts) skipped).

(** The role definitions: those that changed, then those withdrawn. *)
Definition put_defs (reg : Registration) (defs : list ModuleRoleDef) : M MWD (list ModuleRoleDef * list ModuleRoleDef) :=
  if negb (bool_decide (RgDelegate reg = "")) then ret ([], []) else
  upserted <- fold_each defs [] (λ out d,
    changed <- catM (λ now, UpsertModuleRoleDef now d) ;; ret (if changed : bool then out ++ [d] else out)) ;;
  if negb (RgDeclaresRoles reg) then ret (upserted, []) else
  current <- catR (ModuleRoleDefs (RgModule reg)) ;;
  retired <- fold_each current [] (λ out d,
    if bool_decide (RdSlug d ∈ MrSlug <$> RgRoles reg) || negb (bool_decide (RdRetiredAt d = None)) then ret out
    else catM (λ now, RetireModuleRoleDef now (RgModule reg) (RdSlug d)) ;;; ret (out ++ [d])) ;;
  ret (upserted, retired).

Fixpoint skipped_list (grants : list BuiltinGrant) (m : gmap string SkippedGrant) : list SkippedGrant :=
  match grants with
  | [] => []
  | g :: grants' => match m !! BgRole g with
                    | Some s => s :: skipped_list grants' (delete (BgRole g) m)
                    | None => skipped_list grants' m
                    end
  end.
Definition events_at (tenants : list string) : string :=
  if bool_decide (PlatformTenant = "") then match tenants with t :: _ => t | [] => "" end else PlatformTenant.

Definition Register (ctx : Ctx) (reg : Registration) : M MWD RegisterResult :=
  checked <- lift (validate reg) ;;
  let '(defs, roleErrs) := checked in
  if negb (bool_decide (RgDelegate reg = "")) && (negb (bool_decide (length (RgRoles reg) = 0%nat)) || RgDeclaresRoles reg || negb (bool_decide (length (RgGrants reg) = 0%nat)))
  then throw ErrBadRegistration
  else if negb (forallb ValidTenantID (RgTenants reg)) then throw ErrBadRegistration else
  let sys := SystemCtx ctx in
  catM (λ now, UpsertModule now (RgModule reg) (RgDisplayName reg)) ;;;
  for_each (RgPermissions reg) (λ p, catM (λ _, UpsertModulePermission
    (mkModulePermission (RgModule reg) (PdResource p) (PdAction p) (PdDescription p) None))) ;;;
  changed <- put_defs reg defs ;;
  let '(upserted, retired) := changed in
  catalogueDefs <- catR (ModuleRoleDefs (RgModule reg)) ;;
  t <- fold_each (RgTenants reg) (mkTally 0 0 ∅ ∅) (register_tenant sys reg catalogueDefs) ;;
  let skipped := skipped_list (RgGrants reg) (TtSkipped t) in
  let at_ := events_at (RgTenants reg) in
  let n := Z.of_nat (length (RgTenants reg)) in
  emitM (service_event ModuleRegistered at_ (RgRegistrant reg) "module"
    [("module", RgModule reg : detail); ("delegate", RgDelegate reg : detail); ("permissions", DInt (Z.of_nat (length (RgPermissions reg))));
     ("roles", DInt (Z.of_nat (length defs))); ("tenants", DInt n); ("role_errors", DInt (Z.of_nat (length roleErrs)));
     ("skipped_grants", DInt (Z.of_nat (length skipped))); ("grants_revoked", DInt (TtRevoked t))]) ;;;
  for_each upserted (λ d, emitM (service_event ModuleRoleUpserted at_ (RgRegistrant reg) "module_role"
    [("module", RdModule d : detail); ("slug", RdSlug d : detail); ("permissions", DList (qualify (RdModule d) (RdPermissions d))); ("tenants", DInt n)])) ;;;
  for_each retired (λ d, emitM (service_event ModuleRoleRetired at_ (RgRegistrant reg) "module_role"
    [("module", RdModule d : detail); ("slug", RdSlug d : detail); ("assignments_kept", DInt (default 0%Z (TtKept t !! RdSlug d)))])) ;;;
  ret (mkRegisterResult (TtRegistered t) skipped roleErrs (Z.of_nat (length upserted)) (RdSlug <$> retired) (TtRevoked t)).

(** ** New tenants and retired modules *)
Definition instantiate_module (ctx : Ctx) (tid : string) (x : Module_) : M MWD unit :=
  if negb (bool_decide (MdRetiredAt x = None)) then ret tt else
  perms <- catR (ModulePermissions (MdName x)) ;;
  let defs := (λ p, mkPermDef (MpResource p) (MpAction p) (MpDescription p)) <$> filter (λ p, MpRetiredAt p = None) perms in
  azL (RegisterPermissions ctx tid (MdName x) "auth" defs) ;;;
  migrate ctx tid (MdName x) ;;;
  roleDefs <- catR (ModuleRoleDefs (MdName x)) ;;
  azL (syncRoles ctx tid (MdName x) roleDefs) ;;;
  ret tt.
Definition InstantiateTenant (ctx : Ctx) (tid : string) : M MWD unit :=
  let sys := SystemCtx ctx in
  mods <- catR Modules ;;
  for_each mods (instantiate_module sys tid).

Definition RetireModule (ctx : Ctx) (name : string) : M MWD (list string) :=
  let sys := SystemCtx ctx in
  before <- catR (ModuleRoleDefs name) ;;
  r <- attempt (catM (λ now, RetireModuleRow now name)) ;;
  (match r with
   | Ok _ => ret tt
   | Err e => throw (if bool_decide (e = ErrNotFound) then ErrUnknownModule else e)
   end) ;;;
  defs <- catR (ModuleRoleDefs name) ;;
  tenants <- match listTenants with None => ret [] | Some l => lift l end ;;
  kept <- fold_each tenants ∅ (λ kept tid, counts <- azL (syncRoles sys tid name defs) ;; ret (add_counts kept counts)) ;;
  let at_ := events_at tenants in
  let gone := filter (λ d, RdRetiredAt d = None) before in
  for_each gone (λ d, emitM (mkEventFull ModuleRoleRetired at_ "" "operator" "" "module_role" "" "ok" "module_retired" "" "" "" ""
    [("module", name : detail); ("slug", RdSlug d : detail); ("assignments_kept", DInt (default 0%Z (kept !! RdSlug d)))])) ;;;
  ret (RdSlug <$> gone).
End Modules.
