(* ===== verification/PermVerify.v ===== *)
(** * Verifying and pruning legacy permissions (internal/authz/verify.go)

    Legacy grants carry no module.  [Verify] compares them with their
    module-scoped counterparts; [PruneLegacy] removes them once nothing depends
    on them. *)
From S2P Require Import Prelude GoStrings Regex PermRef TenantCtx Models Cache AuditEvents Session MemStore.
From S2P Require Import Fga MemRoles AuthzClient AuthzServices MemModules Modules.
#[local] Open Scope list_scope.
#[local] Open Scope go_scope.

Definition FindingLoss : string := "loss".
Definition FindingPending : string := "pending".
Definition FindingDrift : string := "drift".
Definition FindingReview : string := "review".
Definition FindingGain : string := "gain".
Record Finding : Type := mkFinding { FdTenant : string; FdKind : string; FdRole : string; FdUser : string; FdPermission : string }.
Record Report : Type := mkReport { RpTenants : Z; RpFindings : list Finding }.
Definition count_kind (k : string) (l : list Finding) : nat := length (filter (λ f, FdKind f = k) l).
Definition Losses (r : Report) : nat := count_kind FindingLoss (RpFindings r).
Definition Clean (r : Report) : bool :=
  (count_kind FindingLoss (RpFindings r) =? 0)%nat && (count_kind FindingPending (RpFindings r) =? 0)%nat &&
  (count_kind FindingDrift (RpFindings r) =? 0)%nat.
(** Users and their effective permissions, per tenant. *)
Definition Snapshot : Type := gmap string (gmap string (list string)).
Definition ErrPruneRefused : err := ErrText "authz: prune-legacy refused: verify is not clean".
Record PruneResult : Type := mkPruned { PrTenants : Z; PrPermissions : Z; PrGrants : Z }.

(** Sets of references are lists without duplicates here. *)
Record tenantState : Type := mkTenantState {
  vs_scopedBy : list (string * string);     (* short reference, module *)
  vs_legacy : list Ref;
  vs_roles : list Role;
  vs_grants : gmap string (list Ref);       (* role id *)
  vs_users : gmap string (list Ref);        (* user id *)
}.
(** sort.Slice by String *)
Definition ref_text_le (a b : Ref) : Prop := String.leb (RefString a) (RefString b) = true.
#[export] Instance ref_text_le_dec : RelDecision ref_text_le.
Proof. intros a b. unfold ref_text_le. apply _. Defined.
Definition sortedRefs (set : list Ref) : list Ref := sorting.merge_sort ref_text_le (dedup_from [] set).
Definition sortedKeys {A} (m : gmap string A) : list string := sort_strings (map_to_list m).*1.

Definition scoped_rows (perms : list Permission) : list (string * string) :=
  (λ p, (Short (PermissionRefOf p), PModule p)) <$> filter (λ p, PModule p ≠ "") perms.
(** The modules that register the short reference, sorted. *)
Definition scopedBy (s : tenantState) (short : string) : list string :=
  sort_strings (snd <$> filter (λ x, x.1 = short) (vs_scopedBy s)).
Definition grants_of (s : tenantState) (id : string) : list Ref := default [] (vs_grants s !! id).

Section Verifier.
Context {B K : Type} `{Backend B} `{KV K}.
(** SampleUsers of the service. *)
Context (SampleUsers : Z).
Notation W := (AZ B K).

Definition load_user (tid : string) (grants : gmap string (list Ref)) (users : gmap string (list Ref)) (uid : string) : M W (gmap string (list Ref)) :=
  rows <- stM (EffectiveRoles tid uid) ;;
  ret (<[uid := dedup_from [] (concat ((λ row, default [] (grants !! ERoleID row)) <$> rows))]> users).
(** A page of a thousand users at a time; the last page is short. *)
Fixpoint load_users (fuel : nat) (tid : string) (grants : gmap string (list Ref)) (after : string) (users : gmap string (list Ref)) : M W (gmap string (list Ref)) :=
  match fuel with
  | O => ret users
  | S n =>
      ids <- stM (ListActiveMemberIDs tid after 1000 []) ;;
      users <- fold_each ids users (load_user tid grants) ;;
      match last ids with
      | Some after' => if (length ids <? 1000)%nat then ret users else load_users n tid grants after' users
      | None => ret users
      end
  end.
Definition load_role (tid : string) (grants : gmap string (list Ref)) (r : Role) : M W (gmap string (list Ref)) :=
  ps <- stM (RolePermissions tid (RoID r)) ;; ret (<[RoID r := dedup_from [] ps]> grants).
Definition load (tid : string) : M W tenantState :=
  perms <- stM (ListPermissions tid) ;;
  roles <- stM (ListRoles tid) ;;
  grants <- fold_each roles ∅ (load_role tid) ;;
  n <- gets (λ w, size (Users (az_st w))) ;;
  users <- load_users (S n) tid grants "" ∅ ;;
  ret (mkTenantState (scoped_rows perms) (PermissionRefOf <$> filter (λ p, PModule p = "") perms) roles grants users).

(** ** Verify *)
(** Legacy grants of a set without a scoped counterpart. *)
Definition losses (s : tenantState) (set : list Ref) (g : Ref) : list Ref :=
  filter (λ p, p ∉ set) ((λ m, WithModule g m) <$> scopedBy s (Short g)).
Definition verify_role (tid : string) (s : tenantState) (r : Role) : list Finding :=
  let gs := sortedRefs (grants_of s (RoID r)) in
  concat ((λ g,
    if negb (IsLegacy g) then [] else
    (if bool_decide (scopedBy s (Short g) = []) then [mkFinding tid FindingPending (RoSlug r) "" (RefString g)] else []) ++
    ((λ p, mkFinding tid FindingLoss (RoSlug r) "" (RefString p)) <$> losses s (grants_of s (RoID r)) g)) <$> gs) ++
  (if bool_decide (OriginOf r = OriginCustom) && (bool_decide (RoSlug r = "operator") || bool_decide (RoSlug r = "auditor"))
   then (λ g, mkFinding tid FindingReview (RoSlug r) "" (RefString g)) <$> take 1 (filter (λ g, IsLegacy g = false) gs)
   else []).
Definition user_losses (tid : string) (s : tenantState) (uid : string) (eff : list Ref) : list Finding :=
  concat ((λ g, if negb (IsLegacy g) then []
                else (λ p, mkFinding tid FindingLoss "" uid (RefString p)) <$> losses s eff g) <$> sortedRefs eff).
(** The scoped grants of a sampled user, confirmed in chunks. *)
Fixpoint confirm (fuel : nat) (ctx : Ctx) (tid uid : string) (l : list Ref) : M W (list Finding) :=
  match fuel with
  | O => ret []
  | S n =>
      if bool_decide (l = []) then ret [] else
      let chunk := take MaxTuplesPerWrite l in
      held <- AllowedMany ctx tid uid chunk ;;
      rest <- confirm n ctx tid uid (drop MaxTuplesPerWrite l) ;;
      ret (((λ x : Ref * bool, mkFinding tid FindingDrift "" uid (RefString x.1)) <$> filter (λ x : Ref * bool, x.2 = false) (zip chunk held)) ++ rest)
  end.
Definition sample_size : Z := if (SampleUsers <=? 0)%Z then 50%Z else SampleUsers.
Definition verify_user (ctx : Ctx) (tid : string) (s : tenantState) (acc : Z * list Finding) (uid : string) : M W (Z * list Finding) :=
  let '(i, out) := acc in
  let eff := default [] (vs_users s !! uid) in
  let found := user_losses tid s uid eff in
  if (sample_size <=? i)%Z then ret ((i + 1)%Z, out ++ found) else
  let scoped := filter (λ g, IsLegacy g = false) (sortedRefs eff) in
  drift <- confirm (length scoped) (SystemCtx ctx) tid uid scoped ;;
  ret ((i + 1)%Z, out ++ found ++ drift).
Definition verify_tenant (ctx : Ctx) (out : list Finding) (tid : string) : M W (list Finding) :=
  s <- load tid ;;
  users <- fold_each (sortedKeys (vs_users s)) (0%Z, []) (verify_user ctx tid s) ;;
  ret (out ++ concat (verify_role tid s <$> vs_roles s) ++ users.2).
Definition Verify (ctx : Ctx) (tenants : list string) : M W Report :=
  out <- fold_each tenants [] (verify_tenant ctx) ;;
  ret (mkReport (Z.of_nat (length tenants)) out).

(** ** Snapshot and Compare *)
Definition TakeSnapshot (tenants : list string) : M W Snapshot :=
  fold_each tenants ∅ (λ out tid,
    s <- load tid ;;
    ret (<[tid := omap (λ eff, let refs := refsOf (sortedRefs eff) in if bool_decide (refs = []) then None else Some refs) (vs_users s)]> out)).
Definition covered (s : tenantState) (cur : list Ref) (p : Ref) : bool :=
  let mods := scopedBy s (Short p) in
  IsLegacy p && negb (bool_decide (mods = [])) && forallb (λ m, bool_decide (WithModule p m ∈ cur)) mods.
Definition compare_user (tid : string) (s : tenantState) (uid : string) (before : list string) : result (list Finding) :=
  let cur := default [] (vs_users s !! uid) in
  rbind (foldr (λ str acc, rbind (ParsePermissionRef str) (λ p, rbind acc (λ l, Ok (p :: l)))) (Ok []) before) (λ had,
  Ok (((λ p, mkFinding tid FindingLoss "" uid (RefString p)) <$> filter (λ p, p ∉ cur ∧ covered s cur p = false) had) ++
      ((λ p, mkFinding tid FindingGain "" uid (RefString p)) <$>
         filter (λ p, p ∉ had ∧ ¬ (IsLegacy p = false ∧ mkRef "" (RResource p) (RAction p) ∈ had)) (sortedRefs cur)))).
Definition Compare (before : Snapshot) : M W Report :=
  out <- fold_each (sortedKeys before) [] (λ out tid,
    s <- load tid ;;
    let users := default ∅ (before !! tid) in
    found <- fold_each (sortedKeys users) [] (λ acc uid,
      l <- lift (compare_user tid s uid (default [] (users !! uid))) ;; ret (acc ++ l)) ;;
    ret (out ++ found)) ;;
  ret (mkReport (Z.of_nat (size before)) out).

(** ** PruneLegacy *)
Definition legacy_grants (tid : string) (s : tenantState) : list Tuple :=
  concat ((λ r, GrantTuple tid (RoSlug r) <$> filter (λ g, IsLegacy g = true) (sortedRefs (grants_of s (RoID r)))) <$> vs_roles s).
Definition prune_tenant (ctx : Ctx) (dryRun : bool) (res : PruneResult) (tid : string) : M W PruneResult :=
  s <- load tid ;;
  let grants := legacy_grants tid s in
  let legacy := sortedRefs (vs_legacy s) in
  let g := Z.of_nat (length grants) in let l := Z.of_nat (length legacy) in
  let res := mkPruned (PrTenants res) (PrPermissions res + l) (PrGrants res + g) in
  if bool_decide (legacy = []) && bool_decide (grants = []) then ret res else
  let res := mkPruned (PrTenants res + 1) (PrPermissions res) (PrGrants res) in
  if dryRun then ret res else
  Write (SystemCtx ctx) tid [] (grants ++ (PermissionTenantTuple tid <$> legacy)) ;;;
  stM (DeleteLegacyPermissions tid) ;;;
  emitE (mkEventFull PermissionPruned tid "" "operator" "" "" "" "ok" "cli_prune_legacy" "" "" "" "" [("count", DInt l); ("grants", DInt g)]) ;;;
  ret res.
Definition PruneLegacy (ctx : Ctx) (tenants : list string) (dryRun : bool) : M W PruneResult :=
  rep <- Verify ctx tenants ;;
  if negb (Clean rep) then throw ErrPruneRefused else
  fold_each tenants (mkPruned 0 0 0) (prune_tenant ctx dryRun).
End Verifier.
