(* ===== verification/AuthzApi.v ===== *)
(** * The authorization API: the gRPC service and the SDK's registration
      (internal/grpcapi/authorization.go, sdk/pkg/authclient/registration.go)

    Platform services ask for decisions and register their module.  The
    verified peer (its SPIFFE id, if any) is an argument; the messages of the
    protocol buffers are records; logging is not modelled. *)
From S2P Require Import Prelude GoStrings Regex PermRef TenantCtx Models Cache AuditEvents Session MemStore Fga MemRoles AuthzClient AuthzServices MemModules Modules.
#[local] Open Scope list_scope.
#[local] Open Scope go_scope.

(** ** The SDK *)
(** A refusal is the sentinel it wraps; the detail appended to it is not kept. *)
Definition SdkMaxPermissions : nat := 200.
Definition SdkMaxRoles : nat := 20.
Definition SdkMaxRolePermissions : nat := 200.
Definition ErrInvalidRegistration : err := ErrText "authclient: invalid registration".
Definition sdk_moduleRE : re := Seq (Cls is_lower) (upto 31 (Cls lower_digit_dash)).
Definition sdk_resourceRE : re := Seq (Cls is_lower) (upto 63 (Cls lower_digit_dash_us)).
Definition sdk_actionRE : re := Seq (Cls is_lower) (upto 31 (Cls lower_digit_dash_us)).
Definition sdk_roleSlugRE : re := Seq (Cls lower_digit) (opt (Seq (upto 30 (Cls lower_digit_dash)) (Cls lower_digit))).
Definition sdk_tenantRE : re :=
  let hex n := exactly n (Cls is_hex) in
  Seq (hex 8) (Seq (chr "-") (Seq (hex 4) (Seq (chr "-") (Seq (hex 4) (Seq (chr "-") (Seq (hex 4) (Seq (chr "-") (hex 12)))))))).
Definition sdk_builtinRoles : list string := ["owner"; "admin"; "member"; "auditor"; "operator"].
(** Permissions and roles have the fields of the server's. *)
Record SdkRegistration : Type := mkSdkReg {
  SrModule : string; SrDisplayName : string; SrPermissions : list PermissionDef; SrRoles : list ModuleRole;
  SrBuiltinGrants : gmap string (list string); SrDeclaresGrants : bool; SrTenantIDs : list string }.

Definition sdk_short (r : SdkRegistration) (ref : string) : string :=
  match split ":" ref with
  | [m; a; b] => if bool_decide (m = SrModule r) then a +:+ ":" +:+ b else ref
  | _ => ref
  end.
(** The first loop of Validate: the permissions named, [None] when one is refused. *)
Fixpoint sdk_check_permissions (l : list PermissionDef) (own : list string) : option (list string) :=
  match l with
  | [] => Some own
  | p :: l' =>
      if negb (re_match sdk_resourceRE (PdResource p)) || negb (re_match sdk_actionRE (PdAction p)) || negb (printable (PdDescription p) 256) then None
      else if bool_decide (short_of p ∈ own) then None
      else sdk_check_permissions l' (short_of p :: own)
  end.
(** The loop over the roles. *)
Fixpoint sdk_check_role_list (r : SdkRegistration) (own slugs : list string) (l : list ModuleRole) : bool :=
  match l with
  | [] => true
  | x :: l' =>
      let name := TrimSpace (MrDisplayName x) in
      if negb (re_match sdk_roleSlugRE (MrSlug x)) then false
      else if bool_decide (MrSlug x ∈ slugs) then false
      else if bool_decide (name = "") || negb (printable name 120) || negb (printable (MrDescription x) 256) then false
      else if (length (MrPermissions x) =? 0)%nat || (SdkMaxRolePermissions <? length (MrPermissions x))%nat then false
      else forallb (λ p, bool_decide (sdk_short r p ∈ own)) (MrPermissions x) && sdk_check_role_list r own (MrSlug x :: slugs) l'
  end.
Definition SdkValidate (r : SdkRegistration) : option err :=
  if negb (re_match sdk_moduleRE (SrModule r)) then Some ErrInvalidRegistration
  else if negb (printable (SrDisplayName r) 120) then Some ErrInvalidRegistration
  else if (SdkMaxPermissions <? length (SrPermissions r))%nat then Some ErrInvalidRegistration
  else match sdk_check_permissions (SrPermissions r) [] with
       | None => Some ErrInvalidRegistration
       | Some own =>
           if (SdkMaxRoles <? length (SrRoles r))%nat then Some ErrInvalidRegistration
           else if negb (sdk_check_role_list r own [] (SrRoles r)) then Some ErrInvalidRegistration
           else if negb (forallb (λ g, bool_decide (g.1 ∈ sdk_builtinRoles) && forallb (λ p, bool_decide (p ∈ own)) g.2) (map_to_list (SrBuiltinGrants r))) then Some ErrInvalidRegistration
           else if negb (forallb (re_match sdk_tenantRE) (SrTenantIDs r)) then Some ErrInvalidRegistration
           else None
       end.

(** RegisterPermissionsRequest and its response. *)
Record RegisterRequest : Type := mkRegisterRequest {
  RqModule : string; RqDisplayName : string; RqPermissions : list PermissionDef; RqRoles : list ModuleRole; RqDeclaresRoles : bool;
  RqGrants : list BuiltinGrant; RqDeclaresGrants : bool; RqTenantIDs : list string }.
Definition SdkRequest (r : SdkRegistration) : RegisterRequest :=
  mkRegisterRequest (SrModule r) (SrDisplayName r) (SrPermissions r)
    ((λ x, mkModuleRole (MrSlug x) (TrimSpace (MrDisplayName x)) (MrDescription x) (sdk_short r <$> MrPermissions x)) <$> SrRoles r) true
    ((λ role, mkBuiltinGrant role (default [] (SrBuiltinGrants r !! role))) <$> sort_strings ((map_to_list (SrBuiltinGrants r)).*1))
    (SrDeclaresGrants r) (SrTenantIDs r).
Record RegisterResponse : Type := mkRegisterResponse {
  RpRegistered : Z; RpSkipped : list SkippedGrant; RpRoleErrors : list RoleError; RpRolesUpserted : Z; RpRolesRetired : list string; RpGrantsRevoked : Z }.

(** Validate, send, answer; [send] is the call over the connection to auth. *)
Definition SdkRegister {S} (send : RegisterRequest → M S RegisterResponse) (r : SdkRegistration) : M S RegisterResponse :=
  match SdkValidate r with
  | Some e => throw e
  | None => res <- attempt (send (SdkRequest r)) ;;
            match res with Ok resp => ret resp | Err e => throw (ErrText ("authclient: register permissions: " +:+ err_text e)) end
  end.

(** ** The service *)
Definition statusErr (c msg : string) : err := ErrText (c +:+ ": " +:+ msg).
Definition errModuleMismatch : err := statusErr "PermissionDenied" "module_mismatch".
Record caller : Type := mkCaller { ClID : string; ClModule : string; ClGateway : bool }.
Definition ActorFromService (id : string) : Actor := mkActor KindService "" "" "" [] [] id "" "".
Definition decisionError (e : err) : err :=
  if bool_decide (e ∈ [ErrBadPermission; ErrAuthzMalformed; ErrBadRegistration]) then statusErr "InvalidArgument" (err_text e)
  else if bool_decide (e ∈ [ErrCrossTenant; ErrNoActor; ErrObjectCrossTenant]) then statusErr "PermissionDenied" "cross_tenant_refused"
  else statusErr "Unavailable" "decision unavailable".
Definition checkModule (c : caller) (requested : string) : result string :=
  if bool_decide (requested = "") && ClGateway c then Ok ""
  else if bool_decide (requested = "") then Ok (ClModule c)
  else if negb (ValidModule requested) then Err (statusErr "InvalidArgument" "malformed module")
  else if ClGateway c || bool_decide (requested = ClModule c) then Ok requested
  else Err errModuleMismatch.

Section Api.
Context {B K : Type} `{Backend B} `{KV K} (newID : nat → string).
Context (PlatformTenant : string).
(** The server's fields: the name of the gateway, the tenants of a registration
    that names none, and whether the role and module services are installed. *)
Context (Gateway : string) (serverTenants : option (result (list string))) (hasRoles hasModules : bool).
Notation W := (MW B K).
Notation RegisterM := (Modules.Register newID PlatformTenant).

(** [peer]: the SPIFFE id of the verified peer. *)
Definition serviceCtx (peer : option string) (ctx : Ctx) : Ctx * caller :=
  match peer with
  | None => (ctx, mkCaller "" "" false)
  | Some id =>
      let gw := if bool_decide (Gateway = "") then "gateway" else Gateway in
      (WithActor ctx (ActorFromService id),
       match ModuleFromSPIFFE id with
       | Ok m => mkCaller id m (bool_decide (m = gw))
       | Err _ => mkCaller id "" false
       end)
  end.
(** [if err != nil { return nil, decisionError(err) }] *)
Definition orDecisionError {A} (m : M W A) : M W A := r <- attempt m ;; match r with Ok x => ret x | Err e => throw (decisionError e) end.

Record CheckRequest : Type := mkCheckRequest { CkModule : string; CkTenantID : string; CkUserID : string; CkResource : string; CkAction : string }.
Definition ApiCheck (peer : option string) (ctx : Ctx) (req : CheckRequest) : M W Decision :=
  let '(ctx, c) := serviceCtx peer ctx in
  module <- lift (checkModule c (CkModule req)) ;;
  match ParsePermissionRef (CkResource req +:+ ":" +:+ CkAction req) with
  | Err _ => throw (statusErr "InvalidArgument" "malformed request")
  | Ok ref =>
      if negb (IsLegacy ref) || negb (ValidTenantID (CkTenantID req)) || bool_decide (CkUserID req = "") then throw (statusErr "InvalidArgument" "malformed request")
      else orDecisionError (azL (Decide ctx (CkTenantID req) (CkUserID req) (WithModule ref module)))
  end.

Record PermissionAsk : Type := mkAsk { PaModule : string; PaResource : string; PaAction : string }.
(** The references of a batch, in order. *)
Fixpoint ask_refs (c : caller) (l : list PermissionAsk) : result (list Ref) :=
  match l with
  | [] => Ok []
  | p :: l' =>
      rbind (checkModule c (PaModule p)) (λ module,
        match ParsePermissionRef (PaResource p +:+ ":" +:+ PaAction p) with
        | Err _ => Err (statusErr "InvalidArgument" "malformed permission")
        | Ok ref => if negb (IsLegacy ref) then Err (statusErr "InvalidArgument" "malformed permission")
                    else rbind (ask_refs c l') (λ rs, Ok (WithModule ref module :: rs))
        end)
  end.
Definition ApiBatchCheck (peer : option string) (ctx : Ctx) (tid uid : string) (asks : list PermissionAsk) : M W (list Decision) :=
  let '(ctx, c) := serviceCtx peer ctx in
  if negb (ValidTenantID tid) || bool_decide (uid = "") || (length asks =? 0)%nat || (100 <? length asks)%nat then throw (statusErr "InvalidArgument" "malformed request") else
  refs <- lift (ask_refs c asks) ;;
  orDecisionError (azL (BatchDecide ctx tid uid refs)).

(** Grants may only name the registrant's own permissions. *)
Fixpoint check_grants (own : list string) (l : list BuiltinGrant) : option err :=
  match l with
  | [] => None
  | g :: l' =>
      if negb hasRoles || negb (bool_decide (BgRole g ∈ BuiltinRoleSlugs)) then Some (statusErr "InvalidArgument" "builtin_grants: unknown role")
      else if negb (forallb (λ p, bool_decide (p ∈ own)) (BgPermissions g)) then Some (statusErr "InvalidArgument" "builtin_grants: permission not registered by this request")
      else check_grants own l'
  end.
Definition auditTenant (req : RegisterRequest) : string :=
  if hasModules && negb (bool_decide (PlatformTenant = "")) then PlatformTenant else default "" (find_first ValidTenantID (RqTenantIDs req)).
(** The registration of a request by the caller for [module]. *)
Definition registration_of (c : caller) (module : string) (tenants : list string) (req : RegisterRequest) : Registration :=
  mkRegistration module (RqDisplayName req) (ClID c) (if ClGateway c then "gateway" else "") (RqPermissions req) (RqRoles req) (RqDeclaresRoles req) (RqGrants req) (RqDeclaresGrants req) tenants.
Definition empty_response (n : Z) : RegisterResponse := mkRegisterResponse n [] [] 0 [] 0.
(** uint32(n) *)
Definition uint32 (n : Z) : Z := (n mod 2 ^ 32)%Z.
Definition ApiRegister (peer : option string) (ctx : Ctx) (req : RegisterRequest) : M W RegisterResponse :=
  let '(ctx, c) := serviceCtx peer ctx in
  if bool_decide (ClID c = "") then throw (statusErr "Unauthenticated" "service identity required") else
  if bool_decide (ClModule c = "") then throw (statusErr "PermissionDenied" "service identity required") else
  let module := RqModule req in
  if negb (bool_decide (module = "")) && negb (ValidModule module) then throw (statusErr "InvalidArgument" "malformed module") else
  if negb (bool_decide (module = "")) && negb (bool_decide (module = ClModule c)) && negb (ClGateway c)
  then emitM (mkEventFull ModuleRegistered (auditTenant req) "" "service" (ClID c) "module" "" "refused" "module_mismatch" "" "" "" ""
         [("module", module : detail); ("caller", ClModule c : detail)]) ;;; throw errModuleMismatch else
  if ClGateway c && (negb (length (RqRoles req) =? 0)%nat || RqDeclaresRoles req || negb (length (RqGrants req) =? 0)%nat || RqDeclaresGrants req)
  then throw (statusErr "InvalidArgument" "the gateway may not register roles or grants") else
  if (MaxRegistrationPermissions <? length (RqPermissions req))%nat || (MaxModuleRoles <? length (RqRoles req))%nat
  then throw (statusErr "InvalidArgument" "too many permissions or roles") else
  let own := short_of <$> RqPermissions req in
  match check_grants own (RqGrants req) with Some e => throw e | None =>
  if ClGateway c && bool_decide (module = "auth") then ret (empty_response 0) else
  tenants <- (if (length (RqTenantIDs req) =? 0)%nat
              then match serverTenants with
                   | None => throw (statusErr "InvalidArgument" "tenant_ids required")
                   | Some (Err _) => throw (statusErr "Unavailable" "tenants unavailable")
                   | Some (Ok l) => ret l
                   end
              else ret (RqTenantIDs req)) ;;
  if negb (forallb ValidTenantID tenants) then throw (statusErr "InvalidArgument" "malformed tenant id") else
  if ClGateway c && bool_decide (module = "")
  then total <- fold_each tenants 0%Z (λ n tid, k <- orDecisionError (azL (RegisterPermissions ctx tid "" (ClID c) (RqPermissions req))) ;; ret (n + k)%Z) ;;
       ret (empty_response (uint32 total))
  else
    let module := if bool_decide (module = "") then ClModule c else module in
    if negb hasModules then throw (statusErr "Unavailable" "registration unavailable") else
    res <- orDecisionError (RegisterM ctx (registration_of c module tenants req)) ;;
    ret (mkRegisterResponse (uint32 (RrRegistered res)) (RrSkipped res) (RrRoleErrors res) (uint32 (RrRolesUpserted res)) (RrRolesRetired res) (uint32 (RrGrantsRevoked res)))
  end.
End Api.
