(* ===== verification/Invite.v ===== *)
(** * Invitations (internal/invite/invite.go, ValidateName and
      DeriveDisplayName of internal/user/profile.go)

    The service shares the state of the authorization services and draws random
    tokens.  [Atomic] runs a function on the store: on the database an error
    rolls its writes back, on the in-memory store it does not; [rollback]
    says which, and every theorem holds for both. *)
From S2P Require Import Prelude GoStrings Base64 Utf8 Regex PermRef TenantCtx Models Password Cache Envelope AuditEvents Session MemStore SessionSafety Mfa MfaSafety Outbox Tenants Signin MemAccounts Recovery Fga MemRoles AuthzClient AuthzServices.
#[local] Open Scope list_scope.
#[local] Open Scope go_scope.

Definition InviteLifetime : Z := 72 * Dur.hour.
Definition ValidFor : string := "72 hours".
Definition ErrInviteToken : err := ErrText "invalid_token".
(** Joined with the error of the password rule in the source. *)
Definition ErrPasswordPolicy : err := ErrText "password_policy".
Definition ErrBadEmail : err := ErrText "validation_failed".
Definition errInvalidState : err := ErrText "invalid_state".
Definition GroupsMax : nat := 50.
Definition ActivateMax : nat := 100.
Definition AcceptPath : string := "/console/invite/accept".

Record InviteParams : Type := mkInviteParams {
  IpEmail : string; IpRoleIDs : list string; IpGroupIDs : list string; IpFirstName : string; IpLastName : string }.
Record ActivateItem : Type := mkActivateItem {
  AiUserID : string; AiOutcome : string; AiInvitationID : string; AiReason : string }.
Record Accepted : Type := mkAccepted {
  AcUser : User; AcTenant : Tenant; AcRoles : list string; AcPolicy : Policy; AcOperator : bool }.

(** ** Names *)
Definition NameMax : nat := 100.
Definition ValidateName (s : string) : result string :=
  let s := TrimSpace s in
  if (NameMax <? String.length s)%nat then Err ErrInvalidName
  else if hasControl s then Err ErrInvalidName else Ok s.
Definition DeriveDisplayName (first last previous email : string) : string :=
  let n := TrimSpace (first +:+ " " +:+ last) in
  if bool_decide (n ≠ "") then n
  else if bool_decide (previous ≠ "") then previous
  else match cut "@" email with Some (l, _) => l | None => email end.
Definition orName (given row : string) : string := if bool_decide (given ≠ "") then given else row.

Section Norm.
Context (unicode_lower : string → string).
Definition normEmail (e : string) : result string :=
  let e := ToLower unicode_lower (TrimSpace e) in
  match index_byte "@" e with
  | None | Some O => Err ErrBadEmail
  | Some at_ =>
      if (S at_ =? String.length e)%nat || negb (str_all (λ c, negb (is_char " " c || is_char "009" c || is_char "013" c || is_char "010" c)) e)
         || (254 <? String.length e)%nat
      then Err ErrBadEmail else Ok e
  end.
End Norm.

(** ** Rows (internal/memstore/memstore.go) *)
Definition UserAnyTenant (uid : string) : M Store User := λ m,
  match find_first (λ u, bool_decide (UID u = uid)) (values (Users m)) with
  | Some u => (Ok u, m)
  | None => (Err ErrNotFound, m)
  end.
Definition InsertUser (unicode_lower : string → string) (u : User) : M Store unit := λ m,
  let k := user_key unicode_lower (UTenantID u) (UEmail u) in
  match Users m !! k with
  | Some _ => (Err ErrConflict, m)
  | None => (Ok tt, set_Users m (<[k := u]> (Users m)))
  end.
Definition with_status (s : string) (u : User) : User :=
  mkUser (UID u) (UTenantID u) (UEmail u) (UDisplayName u) s (UPasswordHash u) (UMFAEnabled u)
    (UMFASecretEnc u) (UMFALastCounter u) (UAvatarID u) (ULastSigninAt u) (UFirstName u) (ULastName u) (UDisplayNameExplicit u).
Definition UpdateUserStatus (tid uid status : string) : M Store unit := update_user tid uid (with_status status).

Definition InsertInvitation (i : Invitation) : M Store unit :=
  modify (λ m, set_Invitations m (<[IvID i := i]> (Invitations m))).
Definition InvitationRow (tid id : string) : M Store Invitation := λ m,
  match Invitations m !! id with
  | Some i => if bool_decide (IvTenantID i = tid) then (Ok i, m) else (Err ErrNotFound, m)
  | None => (Err ErrNotFound, m)
  end.
Definition InvitationByHash (hash : string) : M Store Invitation := λ m,
  match find_first (λ i, bool_decide (IvTokenHash i = hash)) (values (Invitations m)) with
  | Some i => (Ok i, m)
  | None => (Err ErrNotFound, m)
  end.
Definition with_token (hash : string) (exp : Z) (i : Invitation) : Invitation :=
  mkInvitation (IvID i) (IvTenantID i) (IvEmail i) (IvRoleIDs i) (IvGroupIDs i) (IvFirstName i) (IvLastName i)
    hash (IvInvitedBy i) exp (IvAcceptedAt i) (IvRevokedAt i).
Definition RotateInvitation (tid id hash : string) (exp : Z) : M Store unit := λ m,
  match Invitations m !! id with
  | Some i => if bool_decide (IvTenantID i = tid)
              then (Ok tt, set_Invitations m (<[id := with_token hash exp i]> (Invitations m)))
              else (Err ErrNotFound, m)
  | None => (Err ErrNotFound, m)
  end.
Definition with_accepted (now : Z) (i : Invitation) : Invitation :=
  mkInvitation (IvID i) (IvTenantID i) (IvEmail i) (IvRoleIDs i) (IvGroupIDs i) (IvFirstName i) (IvLastName i)
    (IvTokenHash i) (IvInvitedBy i) (IvExpiresAt i) (Some now) (IvRevokedAt i).
Definition MarkInvitationAccepted (now : Z) (id : string) : M Store unit := λ m,
  match Invitations m !! id with
  | Some i => (Ok tt, set_Invitations m (<[id := with_accepted now i]> (Invitations m)))
  | None => (Err ErrNotFound, m)
  end.

(** ** The service *)
Record IW (B K : Type) : Type := mkIW { iw_az : AZ B K; iw_entropy : list string }.
Arguments mkIW {B K}. Arguments iw_az {B K}. Arguments iw_entropy {B K}.

Section Invite.
Context {B K : Type} {BB : Backend B} {KVK : KV K} {A2 : Argon2} {AE : AEAD}.
Context (HashToken : string → string) (newID : nat → string) (unicode_lower : string → string).
Context (kek issuer : string) (json_text : json → string).
Context (esc : option (Ctx → Actor → string → list string → list string → M (AZ B K) unit)).
Context (rollback : bool).
Notation W := (IW B K).

Definition azM {A} (m : M (AZ B K) A) : M W A := λ w, let '(r, a) := m (iw_az w) in (r, mkIW a (iw_entropy w)).
Definition txM {A} (m : M Store A) : M W A := azM (stM m).
Definition iwEmit (e : Event) : M W unit := azM (emitE e).
Definition iwNow : M W Z := azM nowA.
Definition iwRandomToken : M W string := λ w,
  match iw_entropy w with
  | [] => (Err ErrEntropy, w)
  | x :: l => (Ok x, mkIW (iw_az w) l)
  end.
Definition iwNewID : M W string := λ w,
  let a := iw_az w in
  (Ok (newID (az_ids a)),
   mkIW (mkAZ (az_st a) (az_fga a) (az_cache a) (az_audit a) (az_refusals a) (az_now a) (S (az_ids a))) (iw_entropy w)).
Definition iwReadFull (n : nat) : M W string := x <- iwRandomToken ;; ret (Password.fill n x).

Definition with_az_st (a : AZ B K) (s : Store) : AZ B K :=
  mkAZ s (az_fga a) (az_cache a) (az_audit a) (az_refusals a) (az_now a) (az_ids a).
Definition Atomic {A} (m : M W A) : M W A := λ w,
  match m w with
  | (Ok a, w') => (Ok a, w')
  | (Err e, w') => (Err e, if rollback then mkIW (with_az_st (iw_az w') (az_st (iw_az w))) (iw_entropy w') else w')
  end.

Definition inviteEvent (typ tid : string) (actor : Actor) (outcome reason subjKind subjID : string) (d : Details) : Event :=
  mkEvent typ tid (kind_string (AKind actor)) (AUserID actor) subjKind subjID outcome reason d.

Definition queue (tid addr tok : string) : M W unit :=
  let link := issuer +:+ AcceptPath +:+ "?token=" +:+ tok in
  rt <- attempt (txM (TenantRow tid)) ;;
  let name := match rt with
              | Ok t => if bool_decide (TDisplayName t = "") then TSlug t else TDisplayName t
              | Err _ => ""
              end in
  js <- lift (EncodePayload (InviteMail link ValidFor name)) ;;
  dek <- iwReadFull 32 ;; n1 <- iwReadFull nonceSize ;; n2 <- iwReadFull nonceSize ;;
  blob <- lift (Encrypt kek (Some dek) (Some n1) (Some n2) (json_text js) ("email:" +:+ addr)) ;;
  id <- iwNewID ;; now <- iwNow ;;
  txM (Enqueue (mkOutbox id tid "invite" addr blob 0 now)).

(** [invite] *)
Definition inviteTx (actor : Actor) (tid addr : string) (roleIDs groupIDs : list string) (first last : string) : M W string :=
  tok <- iwRandomToken ;;
  id <- iwNewID ;;
  now <- iwNow ;;
  txM (InsertInvitation (mkInvitation id tid addr roleIDs groupIDs first last (HashToken tok)
        (if bool_decide (AUserID actor ≠ "") then Some (AUserID actor) else None) (now + InviteLifetime) None None)) ;;;
  queue tid addr tok ;;;
  ret id.

Definition activate (actor : Actor) (tid : string) (u : User) (p : InviteParams) : M W string :=
  id <- inviteTx actor tid (ToLower unicode_lower (UEmail u)) (IpRoleIDs p) (IpGroupIDs p) (IpFirstName p) (IpLastName p) ;;
  txM (UpdateUserStatus tid (UID u) "invited") ;;;
  iwEmit (inviteEvent InviteCreated tid actor "ok" "activation" "user" (UID u) [("invitation_id", id : detail)]) ;;;
  ret id.

Definition checkGrants (ctx : Ctx) (actor : Actor) (tid : string) (p : InviteParams) : M W unit :=
  if (GroupsMax <? length (IpGroupIDs p))%nat then throw ErrBadEmail else
  Atomic (r <- attempt (txM (RolesByID tid (IpRoleIDs p))) ;;
          match r with
          | Err _ => throw ErrBadEmail
          | Ok _ => for_each (IpGroupIDs p) (λ gid,
                      g <- attempt (txM (GetGroup tid gid)) ;;
                      match g with Err _ => throw ErrBadEmail | Ok _ => ret tt end)
          end) ;;;
  match esc with
  | None => ret tt
  | Some may =>
      r <- attempt (azM (may ctx actor tid (IpRoleIDs p) (IpGroupIDs p))) ;;
      match r with
      | Ok _ => ret tt
      | Err e => throw (if bool_decide (e = ErrNotFound) then ErrBadEmail else e)
      end
  end.

Definition CreateWith (ctx : Ctx) (actor : Actor) (tid : string) (p : InviteParams) : M W string :=
  addr <- lift (normEmail unicode_lower (IpEmail p)) ;;
  first <- lift (match ValidateName (IpFirstName p) with Ok s => Ok s | Err _ => Err ErrBadEmail end) ;;
  last <- lift (match ValidateName (IpLastName p) with Ok s => Ok s | Err _ => Err ErrBadEmail end) ;;
  checkGrants ctx actor tid p ;;;
  Atomic (
    ru <- attempt (txM (UserByEmail unicode_lower tid addr)) ;;
    let new := id <- inviteTx actor tid addr (IpRoleIDs p) (IpGroupIDs p) first last ;;
               iwEmit (inviteEvent InviteCreated tid actor "ok" "" "invite" id []) ;;;
               ret id in
    match ru with
    | Ok u =>
        if bool_decide (UStatus u = "imported")
        then activate actor tid u (mkInviteParams (IpEmail p) (IpRoleIDs p) (IpGroupIDs p)
               (orName first (UFirstName u)) (orName last (ULastName u)))
        else if bool_decide (UStatus u ≠ "invited")
        then iwEmit (inviteEvent InviteCreated tid actor "refused" "account_exists" "user" (UID u) []) ;;; ret ""
        else new
    | Err _ => new
    end).
Definition CreateInvite (ctx : Ctx) (actor : Actor) (tid email : string) (roleIDs : list string) : M W string :=
  CreateWith ctx actor tid (mkInviteParams email roleIDs [] "" "").

Definition auditForeign (actor : Actor) (tid uid : string) : M W unit :=
  if negb (ValidTenantID uid) then ret tt else
  r <- attempt (Atomic (txM (UserAnyTenant uid))) ;;
  match r with
  | Err _ => ret tt
  | Ok other =>
      if bool_decide (UTenantID other = tid) then ret tt
      else iwEmit (inviteEvent CrossTenantRefused tid actor "refused" "foreign_user" "user" uid
                     [("target_tenant", UTenantID other : detail)])
  end.

Definition activateOne (actor : Actor) (tid : string) (p : InviteParams) (uid : string) : M W ActivateItem :=
  r <- attempt (Atomic (
         u <- txM (UserRow tid uid) ;;
         if bool_decide (UStatus u ≠ "imported") then throw errInvalidState
         else activate actor tid u (mkInviteParams (IpEmail p) (IpRoleIDs p) (IpGroupIDs p) (UFirstName u) (ULastName u)))) ;;
  match r with
  | Ok id => ret (mkActivateItem uid "invited" id "")
  | Err e =>
      if bool_decide (e = errInvalidState) then ret (mkActivateItem uid "failed" "" "invalid_state")
      else if bool_decide (e = ErrNotFound)
      then auditForeign actor tid uid ;;; ret (mkActivateItem uid "failed" "" "not_found")
      else ret (mkActivateItem uid "failed" "" "internal")
  end.

Definition Activate (ctx : Ctx) (actor : Actor) (tid : string) (userIDs : list string) (p : InviteParams) : M W (list ActivateItem) :=
  if bool_decide (userIDs = []) || (ActivateMax <? length userIDs)%nat then throw ErrBadEmail
  else if negb (bool_decide (NoDup userIDs)) then throw ErrBadEmail
  else
    checkGrants ctx actor tid p ;;;
    fold_each userIDs [] (λ items uid, it <- activateOne actor tid p uid ;; ret (items ++ [it])).

Definition Resend (actor : Actor) (tid id : string) : M W unit :=
  Atomic (
    ri <- attempt (txM (InvitationRow tid id)) ;;
    match ri with
    | Err _ => throw ErrNotFound
    | Ok inv =>
        if bool_decide (IvAcceptedAt inv ≠ None) || bool_decide (IvRevokedAt inv ≠ None) then throw ErrNotFound else
        tok <- iwRandomToken ;;
        now <- iwNow ;;
        txM (RotateInvitation tid id (HashToken tok) (now + InviteLifetime)) ;;;
        queue tid (IvEmail inv) tok ;;;
        iwEmit (inviteEvent InviteCreated tid actor "ok" "resend" "invite" id [])
    end).

Definition redeemable (hash : string) : M W (Invitation * Tenant * Policy) :=
  ri <- attempt (txM (InvitationByHash hash)) ;;
  now <- iwNow ;;
  match ri with
  | Err _ => throw ErrInviteToken
  | Ok inv =>
      if bool_decide (IvAcceptedAt inv ≠ None) || bool_decide (IvRevokedAt inv ≠ None) || (IvExpiresAt inv <=? now)%Z
      then throw ErrInviteToken else
      rt <- attempt (txM (TenantRow (IvTenantID inv))) ;;
      match rt with
      | Err _ => throw ErrInviteToken
      | Ok t =>
          if bool_decide (TStatus t ≠ "active") then throw ErrInviteToken else
          match ParsePolicy (TPolicy t) (bool_decide (TKind t = "platform")) with
          | (_, Some e) => throw e
          | (pol, None) => ret (inv, t, pol)
          end
      end
  end.

Definition token_shape (token : string) : bool := negb (bool_decide (token = "") || (256 <? String.length token)%nat).
Definition InviteRequirements (token : string) : M W PwRequirements :=
  if negb (token_shape token) then throw ErrInviteToken else
  Atomic (itp <- redeemable (HashToken token) ;; ret (RequirementsFor itp.2)).

(** The account that an invitation activates: created, or the invited row. *)
Definition acceptUser (inv : Invitation) (displayName h : string) : M W User :=
  ru <- attempt (txM (UserByEmail unicode_lower (IvTenantID inv) (IvEmail inv))) ;;
  match ru with
  | Err ErrNotFound =>
      let dn := TrimSpace displayName in
      let explicit := bool_decide (dn ≠ "") in
      let dn := if bool_decide (dn = "") then DeriveDisplayName (IvFirstName inv) (IvLastName inv) "" (IvEmail inv) else dn in
      id <- iwNewID ;;
      let u := mkUser id (IvTenantID inv) (IvEmail inv) dn "active" (Some h) false None 0 None None
                 (IvFirstName inv) (IvLastName inv) explicit in
      txM (InsertUser unicode_lower u) ;;;
      ret u
  | Err e => throw e
  | Ok u =>
      if bool_decide (UStatus u = "invited")
      then txM (SetPasswordHash (IvTenantID inv) (UID u) h) ;;;
           txM (UpdateUserStatus (IvTenantID inv) (UID u) "active") ;;;
           ret (with_password h (with_status "active" u))
      else throw ErrInviteToken
  end.

(** The groups of the invitation that still exist, and those that do not. *)
Definition join_group (inv : Invitation) (uid : string) (acc : list Tuple * list string) (gid : string)
    : M W (list Tuple * list string) :=
  rg <- attempt (txM (GetGroup (IvTenantID inv) gid)) ;;
  match rg with
  | Err _ => ret (acc.1, acc.2 ++ [gid])
  | Ok _ =>
      now <- iwNow ;;
      txM (AddGroupMembers now (IvTenantID inv) gid [uid]) ;;;
      ret (acc.1 ++ [GroupMembershipTuple (IvTenantID inv) gid uid], acc.2)
  end.

Definition retired (r : Role) : bool := if RoRetiredAt r then true else false.
Definition role_tuples (tid uid : string) (r : Role) : list Tuple :=
  RoleAssignmentTuple tid (RoSlug r) uid ::
  (if bool_decide (RoSlug r = "owner") then [MembershipTuple tid uid "owner"] else []).

Definition acceptTx (hash displayName pw : string) : M W (Accepted * list Tuple) :=
  itp <- redeemable hash ;;
  let inv := itp.1.1 in let t := itp.1.2 in let pol := itp.2 in
  let tid := IvTenantID inv in
  lift (match Check pol pw with Ok _ => Ok tt | Err _ => Err ErrPasswordPolicy end) ;;;
  salt <- iwReadFull (PSaltLen DefaultParams) ;;
  h <- lift (Password.Hash (λ _, Some salt) pw) ;;
  u <- acceptUser inv displayName h ;;
  all <- txM (RolesByID tid (IvRoleIDs inv)) ;;
  let roles := filter (λ r, retired r = false) all in
  let dropped := RoSlug <$> filter (λ r, retired r = true) all in
  txM (ReplaceBindings tid (UID u) (RoID <$> roles)) ;;;
  now <- iwNow ;;
  txM (MarkInvitationAccepted now (IvID inv)) ;;;
  gs <- fold_each (IvGroupIDs inv) ([MembershipTuple tid (UID u) "member"], []) (join_group inv (UID u)) ;;
  eff <- txM (MemStore.Roles tid (UID u)) ;;
  iwEmit (mkEvent InviteAccepted tid "user" (UID u) "invite" (IvID inv) "ok" ""
            ((if bool_decide (gs.2 ≠ []) then [("skipped_groups", DList gs.2)] else []) ++
             (if bool_decide (dropped ≠ []) then [("dropped_roles", DList dropped)] else []))) ;;;
  ret (mkAccepted u t eff pol (bool_decide (TKind t = "platform")), gs.1 ++ concat (role_tuples tid (UID u) <$> roles)).

Definition Accept (ctx : Ctx) (token displayName pw : string) : M W Accepted :=
  if negb (token_shape token) then throw ErrInviteToken else
  out <- Atomic (acceptTx (HashToken token) displayName pw) ;;
  azM (Write (SystemCtx ctx) (TID (AcTenant out.1)) out.2 []) ;;;
  ret out.1.
End Invite.
