(* ===== verification/LdapEntry.v ===== *)
(** * Directory entries, names and errors (internal/ldapdir/mapping.go, dn.go,
      errors.go; the unique-id part of internal/directory/import.go)

    Every value a directory returns is decoded, bounded and normalised before
    it can become a user.  Byte strings are strings. *)
From S2P Require Import Prelude GoStrings Utf8 Regex PermRef TenantCtx Models LdapPolicy LdapFilter AuthzServices Invite.
#[local] Open Scope list_scope.
#[local] Open Scope Z_scope.

(** ** The closed errors *)
Definition ErrUnreachable : err := ErrText "ldapdir: directory unreachable".
Definition ErrTimeout : err := ErrText "ldapdir: directory timeout".
Definition ErrTLS : err := ErrText "ldapdir: tls failed".
Definition ErrInvalidCredentials : err := ErrText "ldapdir: invalid credentials".
Definition ErrBaseNotFound : err := ErrText "ldapdir: base not found".
Definition ErrDirectory : err := ErrText "ldapdir: directory error".
Definition ErrInvalidFilter : err := ErrText "ldapdir: invalid filter".
Definition ErrInvalidBase : err := ErrText "ldapdir: invalid base".
Definition ErrInvalidCA : err := ErrText "ldapdir: invalid CA certificate bundle".
Definition ErrNoEmail : err := ErrText "ldapdir: entry has no email".
Definition ErrInvalidEmail : err := ErrText "ldapdir: entry email invalid".
Definition ErrValueTooLong : err := ErrText "ldapdir: entry value too long".
Definition ErrMultiValuedUID : err := ErrText "ldapdir: entry unique id is multi-valued".
Definition ErrInvalidUID : err := ErrText "ldapdir: entry unique id invalid".

Definition closedErrors : list err :=
  [ErrTargetRefused; ErrUnreachable; ErrTimeout; ErrTLS; ErrInvalidCredentials; ErrBaseNotFound; ErrInvalidFilter;
   ErrInvalidBase; ErrInvalidURL; ErrInvalidCA; ErrNoEmail; ErrInvalidEmail; ErrValueTooLong; ErrMultiValuedUID; ErrInvalidUID].

(** What [errors.Is] and [errors.As] answer about an error: the sentinels in
    its chain, the code of a [*DirectoryError], one of the TLS error types, the
    [Op] of a [*net.OpError], a deadline, what [Timeout()] says, the result
    code of an [*ldap.Error]. *)
Record goError : Type := mkGoError {
  geIs : err → bool; geDirectory : option Z; geTLSType : bool; geOp : option string;
  geDeadline : bool; geTimeout : bool; geLdap : option Z }.
(** An error of the closed vocabulary, or any other sentinel. *)
Definition of_err (e : err) : goError :=
  match e with
  | ErrDirectoryCode c => mkGoError (λ x, bool_decide (x = ErrDirectory)) (Some c) false None false false None
  | _ => mkGoError (λ x, bool_decide (x = e)) None false None false false None
  end.

Definition isTLSError (e : goError) : bool :=
  if geTLSType e then true
  else match geOp e with
       | Some op => bool_decide (op = "remote error") || bool_decide (op = "local error")
       | None => false
       end.
Definition resultError (code : Z) : err :=
  if bool_decide (code ∈ [49; 206]) then ErrInvalidCredentials
  else if code =? 32 then ErrBaseNotFound
  else if bool_decide (code ∈ [3; 85]) then ErrTimeout
  else if bool_decide (code ∈ [201; 202]) then ErrInvalidFilter
  else if code =? 200 then ErrUnreachable
  else ErrDirectoryCode code.
Fixpoint first_closed (hit : err → bool) (l : list err) : option err :=
  match l with [] => None | s :: l' => if hit s then Some s else first_closed hit l' end.
Definition mapError (e : goError) : err :=
  match first_closed (geIs e) closedErrors with
  | Some s => s
  | None =>
      match geDirectory e with
      | Some c => ErrDirectoryCode c
      | None =>
          if geIs e ErrDirectory then ErrDirectory
          else if isTLSError e then ErrTLS
          else if geDeadline e || geTimeout e then ErrTimeout
          else match geLdap e with
               | None => ErrDirectoryCode 0
               | Some code => resultError code
               end
      end
  end.

Definition reasons : list (err * string) :=
  zip closedErrors ["target_refused"; "unreachable"; "timeout"; "tls_failed"; "invalid_credentials"; "base_not_found";
    "invalid_filter"; "invalid_base"; "invalid_url"; "invalid_ca"; "no_email"; "invalid_email"; "value_too_long";
    "multi_valued_uid"; "invalid_uid"].
Fixpoint assoc (e : err) (l : list (err * string)) : option string :=
  match l with [] => None | (k, v) :: l' => if bool_decide (k = e) then Some v else assoc e l' end.
Definition Reason (e : goError) : string := default "directory_error" (assoc (mapError e) reasons).

(** ** Attribute mapping *)
Definition MaxUIDBytes : nat := 256.
Definition MaxEmailBytes : nat := 254.
Definition MaxDNBytes : nat := 1024.
Definition objectGUIDAttr : string := "objectguid".

Record Mapping : Type := mkMapping { MpUID : string; MpEmail : string; MpDisplayName : string; MpFirstName : string; MpLastName : string }.
#[global] Instance Mapping_eq_dec : EqDecision Mapping.
Proof. solve_decision. Defined.
Record RawEntry : Type := mkRawEntry { ReDN : string; ReAttrs : gmap string (list string) }.
Record Person : Type := mkPerson {
  PnUID : string; PnDN : string; PnEmail : string; PnDisplayName : string; PnFirstName : string; PnLastName : string;
  PnDisplayNameExplicit : bool }.

Definition DefaultMapping (kind : string) : Mapping :=
  if bool_decide (kind = "active_directory") then mkMapping "objectGUID" "mail" "displayName" "givenName" "sn"
  else if bool_decide (kind = "openldap") then mkMapping "entryUUID" "mail" "cn" "givenName" "sn"
  else mkMapping "" "mail" "" "" "".

Definition hex_digit (n : nat) : ascii := default "0"%char (String.get n "0123456789abcdef").
(** hex.EncodeToString, hex.DecodeString *)
Fixpoint hex_encode (s : string) : string :=
  match s with
  | "" => ""
  | String c s' => String (hex_digit (code c / 16)) (String (hex_digit (code c mod 16)) (hex_encode s'))
  end.
Fixpoint hex_decode (s : string) : option string :=
  match s with
  | "" => Some ""
  | String a (String b s') =>
      match Netip.hex_val a, Netip.hex_val b, hex_decode s' with
      | Some x, Some y, Some r => Some (String (Utf8.chr (x * 16 + y)) r)
      | _, _, _ => None
      end
  | _ => None
  end.
(** The byte order of an objectGUID: three little-endian groups, then bytes. *)
Definition guid_order (b : string) : option string :=
  match b with
  | String b0 (String b1 (String b2 (String b3 (String b4 (String b5 (String b6 (String b7 r))))))) =>
      Some (String b3 (String b2 (String b1 (String b0 (String b5 (String b4 (String b7 (String b6 r))))))))
  | _ => None
  end.
(** b has 16 bytes *)
Definition formatGUID (b : string) : string :=
  let h := hex_encode (default "" (guid_order b)) in
  String.substring 0 8 h +:+ "-" +:+ String.substring 8 4 h +:+ "-" +:+ String.substring 12 4 h +:+ "-" +:+
  String.substring 16 4 h +:+ "-" +:+ String.substring 20 12 h.

Section Decode.
Context (unicode_lower : string → string).

Definition values_of (attr : string) (e : RawEntry) : list string :=
  if bool_decide (attr = "") then [] else default [] (ReAttrs e !! ToLower unicode_lower attr).

Definition decodeUID (attr : string) (e : RawEntry) : result string :=
  match values_of attr e with
  | [] => Err ErrInvalidUID
  | [v] =>
      if fold_eq attr objectGUIDAttr then
        if negb (String.length v =? 16)%nat then Err ErrInvalidUID else Ok (formatGUID v)
      else if bool_decide (TrimSpace v = "") || negb (ValidString v) || hasControl v then Err ErrInvalidUID
      else if (MaxUIDBytes <? String.length v)%nat then Err ErrValueTooLong
      else Ok v
  | _ => Err ErrMultiValuedUID
  end.

Definition decodeEmail (attr : string) (e : RawEntry) : result string :=
  match values_of attr e with
  | [] => Err ErrNoEmail
  | raw :: _ =>
      if bool_decide (TrimSpace raw = "") then Err ErrNoEmail
      else if negb (ValidString raw) then Err ErrInvalidEmail
      else
        let s := ToLower unicode_lower (TrimSpace raw) in
        match index_byte "@" s with
        | None | Some O => Err ErrInvalidEmail
        | Some at_ =>
            if (S at_ =? String.length s)%nat || contains_any [" "; "009"; "013"; "010"]%char s || hasControl s then Err ErrInvalidEmail
            else if (MaxEmailBytes <? String.length s)%nat then Err ErrValueTooLong
            else Ok s
        end
  end.

Definition decodeName (attr : string) (e : RawEntry) : result string :=
  match values_of attr e with
  | [] => Ok ""
  | s :: _ =>
      if (NameMax <? String.length (TrimSpace s))%nat then Err ErrValueTooLong
      else if negb (ValidString s) then Ok ""
      else match ValidateName s with Ok n => Ok n | Err _ => Ok "" end
  end.

Definition text (r : result string) : string := match r with Ok s => s | Err _ => "" end.
Definition failure (r : result string) : option err := match r with Ok _ => None | Err e => Some e end.
(** The person carries every field that decoded, also with an error. *)
Definition Decode (m : Mapping) (e : RawEntry) : Person * option err :=
  let uid := decodeUID (MpUID m) e in
  let longDN := (MaxDNBytes <? String.length (ReDN e))%nat in
  let first := decodeName (MpFirstName m) e in
  let last := decodeName (MpLastName m) e in
  let display := decodeName (MpDisplayName m) e in
  let email := decodeEmail (MpEmail m) e in
  let tooLong := if longDN then Some ErrValueTooLong else None in
  let tooLong := if failure first then failure first else tooLong in
  let tooLong := if failure last then failure last else tooLong in
  let tooLong := if failure display then failure display else tooLong in
  let '(tooLong, emailErr) := if bool_decide (failure email = Some ErrValueTooLong) then (failure email, None)
                              else (tooLong, failure email) in
  let explicit := negb (bool_decide (text display = "")) in
  let p := mkPerson (text uid) (if longDN then "" else ReDN e) (text email)
             (if explicit then text display else DeriveDisplayName (text first) (text last) "" (text email))
             (text first) (text last) explicit in
  (p, if failure uid then failure uid else if tooLong then tooLong else emailErr).
End Decode.

(** ** The unique id of an import (internal/directory/import.go) *)
Fixpoint remove_byte (c : ascii) (s : string) : string :=
  match s with "" => "" | String d s' => if is_char c d then remove_byte c s' else String d (remove_byte c s') end.
Definition dash_at (i : nat) (s : string) : bool := bool_decide (String.get i s = Some "-"%char).
Definition parseGUID (s : string) : option string :=
  if negb (String.length s =? 36)%nat || negb (dash_at 8 s) || negb (dash_at 13 s) || negb (dash_at 18 s) || negb (dash_at 23 s) then None
  else match hex_decode (remove_byte "-" s) with
       | Some g => if negb (String.length g =? 16)%nat then None else guid_order g
       | None => None
       end.
Definition assertionValue (m : Mapping) (uid : string) : option string :=
  if fold_eq (MpUID m) objectGUIDAttr then parseGUID uid
  else if (MaxUIDBytes <? String.length uid)%nat || negb (ValidString uid) || hasControl uid then None
  else Some uid.

(** ** Base names (internal/ldapdir/dn.go) *)
(** A parsed name: the attributes (type, value) of each RDN. *)
Definition DN : Type := list (list (string * string)).
Class DNLib : Type := {
  ParseDN : string → option DN;
  DNEqualFold : DN → DN → bool;
  AncestorOfFold : DN → DN → bool;
}.
Section DNs.
Context {DL : DNLib}.
Definition parseDN (s : string) : option DN :=
  if bool_decide (TrimSpace s = "") || (MaxDNBytes <? String.length s)%nat then None
  else match ParseDN s with
       | Some dn =>
           if bool_decide (dn = []) then None
           else if existsb (existsb (λ a : string * string, bool_decide (a.1 = "") || bool_decide (a.2 = ""))) dn then None
           else Some dn
       | None => None
       end.
Definition within (base dn : DN) : bool := DNEqualFold base dn || AncestorOfFold base dn.
Definition WithinBase (connBase entryDN : string) : bool :=
  match parseDN connBase, parseDN entryDN with Some b, Some e => within b e | _, _ => false end.
Definition ScopeBase (connBase requested : string) : result string :=
  match parseDN connBase with
  | None => Err ErrInvalidBase
  | Some base =>
      if bool_decide (TrimSpace requested = "") then Ok connBase
      else match parseDN requested with
           | None => Err ErrInvalidBase
           | Some req => if within base req then Ok requested else Err ErrInvalidBase
           end
  end.
End DNs.

(** ** Theorems: errors *)
Definition reason_codes : list string :=
  ["target_refused"; "unreachable"; "timeout"; "tls_failed"; "invalid_credentials"; "base_not_found";
   "invalid_filter"; "invalid_base"; "invalid_url"; "invalid_ca"; "no_email"; "invalid_email"; "value_too_long";
   "multi_valued_uid"; "invalid_uid"; "directory_error"].
Definition closed_error (e : err) : Prop := e ∈ closedErrors ∨ e = ErrDirectory ∨ ∃ c, e = ErrDirectoryCode c.

Lemma first_closed_Some hit l s : first_closed hit l = Some s → s ∈ l.
Proof. induction l as [|x l IH]; simpl; [done|]. destruct (hit x); [intros [= <-]; left|]. intros H. right. auto. Qed.
Lemma mapError_closed e : closed_error (mapError e).
Proof.
  unfold mapError. destruct (first_closed _ _) as [s|] eqn:E; [left; by eapply first_closed_Some|].
  destruct (geDirectory e) as [c|]; [right; right; eauto|]. destruct (geIs e ErrDirectory); [by right; left|].
  destruct (isTLSError e); [left; vm_compute; set_solver|]. destruct (_ || _); [left; vm_compute; set_solver|].
  destruct (geLdap e) as [c|]; [|right; right; eauto]. unfold resultError.
  repeat (case_bool_decide || destruct (_ =? _); [left; vm_compute; set_solver|]). right. right. eauto.
Qed.
Lemma mapError_of_err e : closed_error e → mapError (of_err e) = e.
Proof.
  intros [H|[->|[c ->]]]; [|by vm_compute|by vm_compute].
  assert (F : Forall (λ e, mapError (of_err e) = e) closedErrors) by (repeat constructor; vm_compute; reflexivity).
  rewrite Forall_forall in F. by apply F.
Qed.

(** Only the closed vocabulary leaves the boundary, whatever the error was:
    mapping again changes nothing, and the reason code is one of sixteen. *)
Theorem errors_closed e :
  closed_error (mapError e) ∧ mapError (of_err (mapError e)) = mapError e ∧ Reason e ∈ reason_codes.
Proof.
  pose proof (mapError_closed e) as C. split; [done|]. split; [by apply mapError_of_err|].
  unfold Reason. destruct (assoc (mapError e) reasons) as [r|] eqn:E; simpl; [|vm_compute; set_solver].
  assert (A : ∀ l, assoc (mapError e) l = Some r → r ∈ l.*2).
  { clear. induction l as [|[k v] l IH]; simpl; [done|]. case_bool_decide; [intros [= ->]; left|]. intros X. right. auto. }
  apply A in E. change (reasons.*2) with (take 15 reason_codes) in E. apply elem_of_take in E as (i & Hi & _). by eapply list_elem_of_lookup_2.
Qed.

(** ** Theorems: unique ids *)
Lemma hex_digit_spec n : (n < 16)%nat → Netip.hex_val (hex_digit n) = Some (Z.of_nat n) ∧ is_char "-" (hex_digit n) = false.
Proof. intros H. do 16 (destruct n as [|n]; [split; vm_compute; reflexivity|]). lia. Qed.
Lemma code_bound c : (code c < 256)%nat.
Proof. apply nat_ascii_bounded. Qed.
Lemma nibbles c : Utf8.chr (Z.of_nat (code c / 16) * 16 + Z.of_nat (code c mod 16)) = c.
Proof.
  unfold Utf8.chr. replace (Z.to_nat _) with (code c); [apply ascii_nat_embedding|].
  pose proof (Nat.div_mod (code c) 16). lia.
Qed.
Lemma hex_roundtrip s : hex_decode (hex_encode s) = Some s.
Proof.
  induction s as [|c s IH]; [done|]. cbn [hex_encode hex_decode]. pose proof (code_bound c).
  destruct (hex_digit_spec (code c / 16)) as [-> _]; [apply Nat.Div0.div_lt_upper_bound; lia|].
  destruct (hex_digit_spec (code c mod 16)) as [-> _]; [apply Nat.mod_upper_bound; lia|]. rewrite IH. by rewrite nibbles.
Qed.
Lemma remove_byte_app c s t : remove_byte c (s +:+ t) = remove_byte c s +:+ remove_byte c t.
Proof. induction s as [|d s IH]; simpl; [done|]. destruct (is_char c d); simpl; by rewrite IH. Qed.
Lemma remove_byte_lacks c s : lacks c s = true → remove_byte c s = s.
Proof. induction s as [|d s IH]; simpl; [done|]. unfold lacks. simpl. intros [Hd Hs]%andb_true_iff. apply negb_true_iff in Hd. rewrite Hd. by rewrite IH. Qed.
Lemma lacks_substring c s : ∀ n m, lacks c s = true → lacks c (String.substring n m s) = true.
Proof.
  induction s as [|d s IH]; intros [|n] [|m] H; try done; simpl; apply lacks_cons in H as [Hd Hs]; [|by apply IH..].
  apply lacks_cons. auto.
Qed.
Lemma hex_encode_facts s : lacks "-" (hex_encode s) = true ∧ String.length (hex_encode s) = (2 * String.length s)%nat.
Proof.
  induction s as [|c s [IH1 IH2]]; [done|]. cbn [hex_encode String.length]. pose proof (code_bound c). split; [|lia].
  destruct (hex_digit_spec (code c / 16)) as [_ H1]; [apply Nat.Div0.div_lt_upper_bound; lia|].
  destruct (hex_digit_spec (code c mod 16)) as [_ H2]; [apply Nat.mod_upper_bound; lia|].
  unfold is_char in *. bool_prop. by do 2 (apply lacks_cons; split; [congruence|]).
Qed.

Lemma dashed h : String.length h = 32%nat → lacks "-" h = true →
  let s := String.substring 0 8 h +:+ "-" +:+ String.substring 8 4 h +:+ "-" +:+ String.substring 12 4 h +:+ "-" +:+
           String.substring 16 4 h +:+ "-" +:+ String.substring 20 12 h in
  remove_byte "-" s = h ∧ String.length s = 36%nat ∧ dash_at 8 s && dash_at 13 s && dash_at 18 s && dash_at 23 s = true.
Proof.
  intros Hl Hd. cbv zeta. split.
  - rewrite !remove_byte_app. rewrite !(remove_byte_lacks _ (String.substring _ _ h)) by (by apply lacks_substring).
    do 32 (destruct h as [|? h]; [done|]). by destruct h.
  - clear Hd. do 32 (destruct h as [|? h]; [done|]). destruct h; [|done]. split; reflexivity.
Qed.

(** Reading back the canonical text of a GUID. *)
Lemma parse_formatGUID b : String.length b = 16%nat → parseGUID (formatGUID b) = Some b.
Proof.
  intros Hl. assert (∃ g, guid_order b = Some g ∧ String.length g = 16%nat ∧ guid_order g = Some b) as (g & Hg & Hgl & Hgg).
  { do 8 (destruct b as [|? b]; [done|]). eexists. split; [done|]. split; [exact Hl|done]. }
  unfold parseGUID, formatGUID. rewrite Hg. cbn [default]. destruct (hex_encode_facts g) as [Hd Hn].
  destruct (dashed (hex_encode g)) as (E1 & E2 & E3); [lia|done|]. cbv zeta in *. set (s := String.substring 0 8 _ +:+ _) in *.
  bool_prop. rewrite E2. repeat match goal with H : dash_at _ s = true |- _ => rewrite H; clear H end. cbn [Nat.eqb negb orb].
  rewrite E1, hex_roundtrip, Hgl. exact Hgg.
Qed.

(** The value an import asks the directory for is the value the entry carried
    when it was previewed: decoding a unique id and turning it back into an
    assertion value gives the raw value, GUID or not. *)
Theorem uid_refetch unicode_lower m e uid :
  decodeUID unicode_lower (MpUID m) e = Ok uid →
  ∃ v, values_of unicode_lower (MpUID m) e = [v] ∧ assertionValue m uid = Some v ∧ (String.length uid <= 256)%nat.
Proof.
  unfold decodeUID, assertionValue. destruct (values_of _ _ _) as [|v [|]]; [done| |done].
  destruct (fold_eq (MpUID m) objectGUIDAttr).
  - destruct (String.length v =? 16)%nat eqn:El; [|done]. nat_prop. intros [= <-]. exists v. split; [done|].
    split; [by apply parse_formatGUID|].
    assert (String.length (formatGUID v) = 36%nat) as ->; [|lia].
    assert (∃ g, guid_order v = Some g ∧ String.length g = 16%nat) as (g & Hg & Hgl) by (do 8 (destruct v as [|? v]; [done|]); eauto).
    unfold formatGUID. rewrite Hg. destruct (hex_encode_facts g) as [Hd Hn]. by destruct (dashed (hex_encode g)) as (_ & E & _); [simpl; lia|done|].
  - destruct (_ || _) eqn:E; [done|]. destruct (MaxUIDBytes <? String.length v)%nat eqn:El; [done|]. intros [= <-].
    exists v. split; [done|]. split; [|by nat_prop]. apply orb_false_iff in E as [E Hc]. apply orb_false_iff in E as [_ Hv].
    rewrite ?El, Hv, Hc. done.
Qed.
Definition guid_bytes : string := bytes [51; 34; 17; 0; 85; 68; 119; 102; 136; 153; 170; 187; 204; 221; 238; 255]%nat.
Definition ad_entry : RawEntry :=
  mkRawEntry "cn=ada,dc=example" (<["objectguid" := [guid_bytes]]> {["mail" := [" Ada@Example.ORG "]; "sn" := ["Lovelace"]]}).
Lemma uid_refetch_witness :
  decodeUID id "objectGUID" ad_entry = Ok "00112233-4455-6677-8899-aabbccddeeff" ∧
  assertionValue (DefaultMapping "active_directory") "00112233-4455-6677-8899-aabbccddeeff" = Some guid_bytes.
Proof.
  assert (E : decodeUID id (MpUID (DefaultMapping "active_directory")) ad_entry = Ok "00112233-4455-6677-8899-aabbccddeeff")
    by (vm_compute; reflexivity).
  split; [exact E|]. destruct (uid_refetch id (DefaultMapping "active_directory") ad_entry _ E) as (v & H1 & H2 & _).
  rewrite H2. vm_compute in H1. injection H1 as <-. reflexivity.
Defined.

(** ** Theorems: decoded people *)
Lemma decodeName_Ok unicode_lower attr e n : decodeName unicode_lower attr e = Ok n → (String.length n <= NameMax)%nat ∧ hasControl n = false.
Proof.
  unfold decodeName. destruct (values_of _ _ _) as [|s l]; [intros [= <-]; split; [simpl; lia|done]|].
  destruct (_ <? _)%nat; [done|]. destruct (negb _); [intros [= <-]; split; [simpl; lia|done]|].
  unfold ValidateName. destruct (NameMax <? String.length (TrimSpace s))%nat eqn:El; [intros [= <-]; split; [simpl; lia|done]|].
  destruct (hasControl (TrimSpace s)) eqn:Ec; [intros [= <-]; split; [simpl; lia|done]|]. intros [= <-]. by nat_prop.
Qed.
Lemma decodeEmail_Ok unicode_lower attr e s : decodeEmail unicode_lower attr e = Ok s →
  ∃ raw l, values_of unicode_lower attr e = raw :: l ∧ normEmail unicode_lower raw = Ok s ∧ ValidString raw = true ∧ hasControl s = false.
Proof.
  unfold decodeEmail. destruct (values_of _ _ _) as [|raw l]; [done|]. destruct (bool_decide _); [done|].
  destruct (ValidString raw) eqn:Ev; [|done]. cbn [negb]. set (t := ToLower _ _). destruct (index_byte "@" t) as [[|at_]|] eqn:Ei; [done| |done].
  destruct (S (S at_) =? String.length t)%nat eqn:E1; [done|]. destruct (contains_any _ t) eqn:E2; [done|]. destruct (hasControl t) eqn:E3; [done|].
  cbn [orb]. destruct (MaxEmailBytes <? String.length t)%nat eqn:E4; [done|]. intros [= <-]. exists raw, l. split; [done|]. split; [|done].
  unfold normEmail. fold t. rewrite Ei, E1. unfold MaxEmailBytes in E4. rewrite E4, orb_false_r. cbn [orb].
  unfold contains_any in E2. apply negb_false_iff in E2. rewrite (str_all_impl _ _ t) with (2 := E2); [done|].
  intros c Hc. cbn [existsb] in Hc. rewrite !orb_false_r in Hc. by rewrite !orb_assoc in Hc.
Qed.
Lemma normEmail_local unicode_lower raw s : normEmail unicode_lower raw = Ok s → ∃ l d, cut "@" s = Some (l, d) ∧ l ≠ "".
Proof.
  unfold normEmail. set (t := ToLower _ _). destruct (index_byte "@" t) as [[|n]|] eqn:Ei; [done| |done]. destruct (_ || _); [done|].
  intros [= <-]. apply index_byte_Some in Ei as (a & b & -> & Ha & Hl). rewrite cut_app by done. exists a, b. split; [done|]. by intros ->.
Qed.

(** A person that decodes without an error can become a user: the unique id is
    the one of the entry, the e-mail address is what an invitation to the
    entry's address would use, the name shown is not empty, and names, address
    and DN are inside their caps and carry no control character. *)
Theorem decoded_person unicode_lower m e p :
  Decode unicode_lower m e = (p, None) →
  decodeUID unicode_lower (MpUID m) e = Ok (PnUID p) ∧
  (∃ raw l, values_of unicode_lower (MpEmail m) e = raw :: l ∧ normEmail unicode_lower raw = Ok (PnEmail p)) ∧
  hasControl (PnEmail p) = false ∧ PnDN p = ReDN e ∧ (String.length (PnDN p) <= 1024)%nat ∧ PnDisplayName p ≠ "" ∧
  Forall (λ n, (String.length n <= 100)%nat ∧ hasControl n = false) [PnFirstName p; PnLastName p].
Proof.
  unfold Decode. cbv zeta.
  destruct (decodeUID _ _ _) as [uid|eu] eqn:Eu; cbn [failure text]; [|by destruct (if bool_decide _ then _ else _)].
  destruct (MaxDNBytes <? String.length (ReDN e))%nat eqn:El, (decodeName _ (MpFirstName m) e) as [fn|ef] eqn:Ef,
    (decodeName _ (MpLastName m) e) as [ln|el] eqn:Eln, (decodeName _ (MpDisplayName m) e) as [dn|ed] eqn:Ed,
    (decodeEmail _ _ _) as [em|ee] eqn:Ee; cbn [failure text];
    try (rewrite (bool_decide_eq_false_2 (None = Some ErrValueTooLong)) by done; try done);
    try (by destruct (bool_decide (Some _ = Some ErrValueTooLong))).
  intros [= <-]. cbn [PnUID PnEmail PnDN PnDisplayName PnFirstName PnLastName].
  apply decodeEmail_Ok in Ee as (raw & l & H1 & H2 & _ & H4). apply decodeName_Ok in Ef, Eln. nat_prop.
  split; [done|]. split; [eauto|]. split; [done|]. split; [done|]. split; [exact El|]. split; [|by rewrite !Forall_cons].
  case_bool_decide as Hd; cbn [negb]; [|done]. unfold DeriveDisplayName. case_bool_decide; [done|].
  rewrite bool_decide_eq_false_2 by (by intros []). apply normEmail_local in H2 as (x & y & -> & ?). done.
Qed.
Lemma decoded_person_witness :
  (Decode id (DefaultMapping "active_directory") ad_entry).2 = None ∧
  PnEmail (Decode id (DefaultMapping "active_directory") ad_entry).1 = "ada@example.org" ∧
  PnDisplayName (Decode id (DefaultMapping "active_directory") ad_entry).1 ≠ "".
Proof.
  destruct (Decode id (DefaultMapping "active_directory") ad_entry) as [p o] eqn:E. pose proof E as E'. vm_compute in E'.
  injection E' as Hp Ho. subst o. split; [done|]. split; [by rewrite <- Hp|].
  by destruct (decoded_person id (DefaultMapping "active_directory") ad_entry p E) as (_ & _ & _ & _ & _ & H & _).
Defined.

(** ** Theorems: scopes *)
(** The comparisons of go-ldap: being the same name or below it is reflexive
    and transitive. *)
Class DNLaws {DL : DNLib} : Prop := {
  fold_refl d : DNEqualFold d d = true;
  fold_trans a b c : within a b = true → within b c = true → within a c = true;
}.
Section Scope.
Context {DL : DNLib} {DNL : DNLaws}.
(** Narrowing never leaves the connection: the base of a search is inside the
    connection's base, and so is every entry that is inside the base of the
    search. *)
Theorem scope_never_widens connBase requested base :
  ScopeBase connBase requested = Ok base →
  WithinBase connBase base = true ∧ ∀ dn, WithinBase base dn = true → WithinBase connBase dn = true.
Proof.
  unfold ScopeBase, WithinBase. destruct (parseDN connBase) as [b|] eqn:Eb; [|done]. case_bool_decide.
  - intros [= <-]. rewrite Eb. split; [|done]. unfold within. by rewrite fold_refl.
  - destruct (parseDN requested) as [r|] eqn:Er; [|done]. destruct (within b r) eqn:Ew; [|done]. intros [= <-]. rewrite Er. split; [done|].
    intros dn. destruct (parseDN dn) as [d|]; [|done]. by apply fold_trans.
Qed.
End Scope.

(** Names of the form a,b,c where the last part is the root. *)
Definition toy_dn : DNLib := {|
  ParseDN s := Some ((λ x, [(x, x)]) <$> rev (split "," s));
  DNEqualFold a b := bool_decide (a = b);
  AncestorOfFold a b := bool_decide (a `prefix_of` b) |}.
Lemma toy_dn_laws : @DNLaws toy_dn.
Proof.
  split; [intros; by apply bool_decide_eq_true_2|]. intros a b c. unfold within. cbn [toy_dn DNEqualFold AncestorOfFold].
  rewrite !orb_true_iff, !bool_decide_eq_true. intros [->|H1] [->|H2]; [by left|by right|by right|right; by etrans].
Qed.
Lemma scope_never_widens_witness :
  @ScopeBase toy_dn "dc=example" "ou=people,dc=example" = Ok "ou=people,dc=example" ∧
  @WithinBase toy_dn "dc=example" "cn=ada,ou=people,dc=example" = true.
Proof.
  assert (E : @ScopeBase toy_dn "dc=example" "ou=people,dc=example" = Ok "ou=people,dc=example") by (vm_compute; reflexivity).
  split; [exact E|]. apply (@scope_never_widens toy_dn toy_dn_laws _ _ _ E). vm_compute. reflexivity.
Defined.
