(* ===== verification/MemDirectory.v ===== *)
(** * Directory rows of the in-memory store (internal/memstore/directory.go)

    Connections by id and one link per user.  The failures tests inject with
    FailNext are not part of the model.  [EqualFold] is strings.EqualFold. *)
From stdpp Require Import sorting.
From S2P Require Import Prelude GoStrings Base64 Utf8 Regex PermRef TenantCtx Models Cache Session MemStore MemAccounts Invite.
#[local] Open Scope list_scope.
#[local] Open Scope go_scope.

Section Rows.
Context (EqualFold : string → string → bool) (unicode_lower : string → string).

Definition nameTaken (m : Store) (tid id name : string) : bool :=
  existsb (λ x, negb (bool_decide (DcID x = id)) && bool_decide (DcTenantID x = tid) && EqualFold (DcName x) name) (values (conns m)).

Definition put_conn (m : Store) (c : DirectoryConnection) : Store := set_dir m (<[DcID c := c]> (conns m)) (links m).

(** The row as inserted: the creator is also the last editor, no test yet. *)
Definition fresh_conn (now : Z) (c : DirectoryConnection) : DirectoryConnection :=
  mkConnection (DcID c) (DcTenantID c) (DcName c) (DcKind c) (DcURL c) (DcTLSMode c) (DcAllowTLS12 c) (DcCAPEM c) (DcBindDN c)
    (DcBindPasswordEnc c) (DcBaseDN c) (DcBaseFilter c) (DcAttrUID c) (DcAttrEmail c) (DcAttrDisplayName c) (DcAttrFirstName c)
    (DcAttrLastName c) (DcSizeLimit c) (DcTimeLimitSeconds c) None None (DcCreatedBy c) (DcCreatedBy c) now now.
Definition InsertDirectoryConnection (now : Z) (c : DirectoryConnection) : M Store unit := λ m,
  if bool_decide (is_Some (conns m !! DcID c)) || nameTaken m (DcTenantID c) (DcID c) (DcName c) then (Err ErrConflict, m)
  else (Ok tt, put_conn m (fresh_conn now c)).

Definition GetDirectoryConnection (tid id : string) : M Store DirectoryConnection := λ m,
  match conns m !! id with
  | Some c => if bool_decide (DcTenantID c = tid) then (Ok c, m) else (Err ErrNotFound, m)
  | None => (Err ErrNotFound, m)
  end.
Definition GetDirectoryConnectionAnyTenant (id : string) : M Store DirectoryConnection := λ m,
  match conns m !! id with Some c => (Ok c, m) | None => (Err ErrNotFound, m) end.

Definition conn_le (a b : DirectoryConnection) : Prop :=
  let x := ToLower unicode_lower (DcName a) in let y := ToLower unicode_lower (DcName b) in
  if bool_decide (x = y) then String.leb (DcID a) (DcID b) = true else String.leb x y = true.
#[local] Instance conn_le_dec a b : Decision (conn_le a b).
Proof. unfold conn_le. cbv zeta. case_bool_decide; apply _. Defined.
Definition ListDirectoryConnections (tid : string) : M Store (list DirectoryConnection) := λ m,
  (Ok (merge_sort conn_le (filter (λ c, DcTenantID c = tid) (values (conns m)))), m).
Definition CountDirectoryConnections (tid : string) : M Store Z := λ m,
  (Ok (Z.of_nat (length (filter (λ c, DcTenantID c = tid) (values (conns m))))), m).

(** The row as updated: an empty ciphertext keeps the stored one; test state,
    creator and creation time are kept. *)
Definition edited_conn (now : Z) (old c : DirectoryConnection) : DirectoryConnection :=
  mkConnection (DcID c) (DcTenantID c) (DcName c) (DcKind c) (DcURL c) (DcTLSMode c) (DcAllowTLS12 c) (DcCAPEM c) (DcBindDN c)
    (if bool_decide (DcBindPasswordEnc c = "") then DcBindPasswordEnc old else DcBindPasswordEnc c) (DcBaseDN c) (DcBaseFilter c)
    (DcAttrUID c) (DcAttrEmail c) (DcAttrDisplayName c) (DcAttrFirstName c) (DcAttrLastName c) (DcSizeLimit c) (DcTimeLimitSeconds c)
    (DcLastTestAt old) (DcLastTestOutcome old) (DcCreatedBy old) (DcUpdatedBy c) (DcCreatedAt old) now.
Definition UpdateDirectoryConnection (now : Z) (c : DirectoryConnection) : M Store unit := λ m,
  match conns m !! DcID c with
  | Some old =>
      if negb (bool_decide (DcTenantID old = DcTenantID c)) then (Err ErrNotFound, m)
      else if nameTaken m (DcTenantID c) (DcID c) (DcName c) then (Err ErrConflict, m)
      else (Ok tt, put_conn m (edited_conn now old c))
  | None => (Err ErrNotFound, m)
  end.

Definition tested_conn (outcome : string) (at_ : Z) (c : DirectoryConnection) : DirectoryConnection :=
  mkConnection (DcID c) (DcTenantID c) (DcName c) (DcKind c) (DcURL c) (DcTLSMode c) (DcAllowTLS12 c) (DcCAPEM c) (DcBindDN c)
    (DcBindPasswordEnc c) (DcBaseDN c) (DcBaseFilter c) (DcAttrUID c) (DcAttrEmail c) (DcAttrDisplayName c) (DcAttrFirstName c)
    (DcAttrLastName c) (DcSizeLimit c) (DcTimeLimitSeconds c) (Some at_) (Some outcome) (DcCreatedBy c) (DcUpdatedBy c) (DcCreatedAt c) (DcUpdatedAt c).
Definition SetDirectoryConnectionTest (tid id outcome : string) (at_ : Z) : M Store unit := λ m,
  match conns m !! id with
  | Some c => if bool_decide (DcTenantID c = tid)
              then (Ok tt, set_dir m (<[id := tested_conn outcome at_ c]> (conns m)) (links m)) else (Err ErrNotFound, m)
  | None => (Err ErrNotFound, m)
  end.

Definition unlink (id : string) (l : DirectoryLink) : DirectoryLink :=
  if bool_decide (DlConnectionID l = Some id)
  then mkLink (DlUserID l) (DlTenantID l) None (DlConnectionName l) (DlDirectoryUID l) (DlDirectoryDN l)
         (DlFirstImportedAt l) (DlLastImportedAt l) (DlImportedBy l)
  else l.
Definition DeleteDirectoryConnection (tid id : string) : M Store unit := λ m,
  match conns m !! id with
  | Some c => if bool_decide (DcTenantID c = tid)
              then (Ok tt, set_dir m (delete id (conns m)) (unlink id <$> links m)) else (Err ErrNotFound, m)
  | None => (Err ErrNotFound, m)
  end.

(** Users by stored e-mail, links by directory uid. *)
Definition UsersByEmails (tid : string) (emails : list string) : M Store (gmap string User) := λ m,
  (Ok (foldl (λ out e, match Users m !! user_key unicode_lower tid e with
                       | Some u => <[UEmail u := u]> out
                       | None => out
                       end) ∅ emails), m).
Definition link_of (tid connID uid : string) (l : DirectoryLink) : bool :=
  bool_decide (DlTenantID l = tid) && bool_decide (DlConnectionID l = Some connID) && bool_decide (DlDirectoryUID l = uid).
Definition LinksByUIDs (tid connID : string) (uids : list string) : M Store (gmap string DirectoryLink) := λ m,
  (Ok (foldl (λ out l, if bool_decide (DlDirectoryUID l ∈ uids) && link_of tid connID (DlDirectoryUID l) l
                       then <[DlDirectoryUID l := l]> out else out) ∅ (values (links m))), m).

Definition refreshed_link (old l : DirectoryLink) : DirectoryLink :=
  mkLink (DlUserID l) (DlTenantID l) (DlConnectionID l) (DlConnectionName l) (DlDirectoryUID l) (DlDirectoryDN l)
    (DlFirstImportedAt old) (DlLastImportedAt l) (DlImportedBy l).
Definition UpsertLink (l : DirectoryLink) : M Store unit := λ m,
  match userByID m (DlTenantID l) (DlUserID l) with
  | None => (Err ErrNotFound, m)
  | Some _ =>
      let store := match links m !! DlUserID l with
                   | Some old => refreshed_link old l
                   | None => l
                   end in
      let done_ := (Ok tt, set_dir m (conns m) (<[DlUserID l := store]> (links m))) in
      match DlConnectionID l with
      | None => done_
      | Some cid =>
          match conns m !! cid with
          | None => (Err ErrNotFound, m)
          | Some _ =>
              if existsb (λ '(uid, x), negb (bool_decide (uid = DlUserID l)) && link_of (DlTenantID l) cid (DlDirectoryUID l) x)
                   (map_to_list (links m))
              then (Err ErrConflict, m) else done_
          end
      end
  end.

Definition with_profile (p : ImportedProfile) (u : User) : User :=
  mkUser (UID u) (UTenantID u) (IpfEmail p) (IpfDisplayName p) (UStatus u) (UPasswordHash u) (UMFAEnabled u)
    (UMFASecretEnc u) (UMFALastCounter u) (UAvatarID u) (ULastSigninAt u) (IpfFirstName p) (IpfLastName p) (IpfDisplayNameExplicit p).
Definition UpdateImportedUser (tid uid : string) (p : ImportedProfile) : M Store unit := λ m,
  match userKey m tid uid with
  | None => (Err ErrNotFound, m)
  | Some (k, u) =>
      if negb (bool_decide (UStatus u = "imported")) then (Err ErrNotFound, m)
      else
        let nk := user_key unicode_lower tid (IpfEmail p) in
        match Users m !! nk with
        | Some other => if bool_decide (UID other = uid)
                        then (Ok tt, set_Users m (<[nk := with_profile p u]> (delete k (Users m))))
                        else (Err ErrConflict, m)
        | None => (Ok tt, set_Users m (<[nk := with_profile p u]> (delete k (Users m))))
        end
  end.

(** The user and every row that refers to it. *)
Definition drop_user (m : Store) (k tid uid : string) : Store :=
  let uk := map_key tid uid in
  mkStore (Tenants m) (delete k (Users m)) (filter (λ x, ¬ (STenantID x.2 = tid ∧ SUserID x.2 = uid)) (Sessions m)) (Revs m)
    (delete uk (RoleMap m)) (RoleRows m) (delete uk (Bindings m)) (RolePerms m) (Permissions m) (groups m)
    (filter (λ x, x ≠ uid) <$> members m) (groles m)
    (foldr (λ gid a, delete (map_key gid uid) a) (added m) (map_to_list (members m)).*1)
    (Attempts m) (Clients m) (delete uk (Codes m)) (keys m) (Invitations m) (Outbox m) (Recoveries m) (conns m) (delete uid (links m)) (handles m).
Definition DeleteImportedUser (tid uid : string) : M Store unit := λ m,
  match userKey m tid uid with
  | None => (Err ErrNotFound, m)
  | Some (k, u) => if negb (bool_decide (UStatus u = "imported")) then (Err ErrNotFound, m) else (Ok tt, drop_user m k tid uid)
  end.

(** The latest pending invitation of an invited user. *)
Definition better (i : Invitation) (best : option Invitation) : bool :=
  match best with
  | None => true
  | Some b => (IvExpiresAt b <? IvExpiresAt i)%Z || ((IvExpiresAt i =? IvExpiresAt b)%Z && String.ltb (IvID i) (IvID b))
  end.
Definition pendingInvitation (m : Store) (u : User) : option string :=
  if negb (bool_decide (UStatus u = "invited")) then None
  else IvID <$> foldl (λ best i,
    if negb (bool_decide (IvTenantID i = UTenantID u)) || negb (EqualFold (IvEmail i) (UEmail u))
       || bool_decide (IvAcceptedAt i ≠ None) || bool_decide (IvRevokedAt i ≠ None) then best
    else if better i best then Some i else best) None (values (Invitations m)).
End Rows.
