(* ===== verification/Directory.v ===== *)
(** * Directory connections (internal/directory/directory.go, test.go;
      ParseCA of internal/ldapdir/tlsconf.go)

    Administrators save how to reach a directory; its bind password is sealed
    under the tenant and the connection.  The network ([DirNet]) is a
    parameter, as are the PEM and certificate readers.  The state keeps the
    binds that were sent, each with the connection it went over: what the
    theorems about the password speak of. *)
From S2P Require Import Prelude GoStrings Base64 Utf8 Regex PermRef TenantCtx Models Password Cache Envelope AuditEvents Session MemStore MemAccounts LdapPolicy LdapFilter AuthzServices Invite LdapEntry MemDirectory.
#[local] Open Scope list_scope.
#[local] Open Scope go_scope.

Definition ErrDirValidation : err := ErrText "validation_failed".
Definition ErrInsecureTransport : err := ErrText "insecure_transport".
Definition ErrDuplicate : err := ErrText "duplicate".
Definition ErrLimitReached : err := ErrText "limit_reached".
Definition ErrDirNotFound : err := ErrText "not_found".
Definition ErrRateLimited : err := ErrText "rate_limited".
(** It wraps ErrDirValidation in the source. *)
Definition errCredentialRequired : err := ErrText "validation_failed: bind password required for a changed target".
Definition errSeal : err := ErrText "directory: sealing the bind password failed".
Definition errUnseal : err := ErrText "directory: the stored bind credential cannot be used".
Definition errPersist : err := ErrText "directory: recording the test result failed".
Definition errLimiter : err := ErrText "directory: rate limiter unavailable".
Definition ErrDeadline : err := ErrText "context deadline exceeded".

Definition TLSModeLDAPS : string := "ldaps".
Definition TLSModeStartTLS : string := "starttls".
Definition TLSModePlain : string := "plain".
Definition KindActiveDirectory : string := "active_directory".
Definition KindOpenLDAP : string := "openldap".
Definition KindOther : string := "other".
Definition maxNameLen : nat := 80.
Definition maxURLLen : nat := 512.
Definition maxDNLen : nat := 1024.
Definition maxFilterLen : nat := 4096.
Definition maxPasswordLen : nat := 1024.
Definition defaultSizeLimit : Z := 500.
Definition defaultTimeLimit : Z := 15.
Definition ceilingSizeLimit : Z := 1000.
Definition ceilingTimeSeconds : Z := 60.
Definition dirSubjectKind : string := "directory_connection".
Definition rateWindow : Z := Dur.minute.

Record DirConfig : Type := mkDirConfig {
  CfAllowPlaintext : bool; CfMaxSizeLimit : Z; CfMaxTimeLimit : Z; CfRatePerMinute : Z; CfMaxConnectionsPerTenant : Z }.

(** A create or partial update; a field left out keeps its value. *)
Record DirInput : Type := mkDirInput {
  InName : option string; InKind : option string; InURL : option string; InTLSMode : option string; InAllowTLS12 : option bool;
  InCAPEM : option string; InBindDN : option string; InBindPassword : option string; InBaseDN : option string;
  InBaseFilter : option string; InAttributes : option Mapping; InSizeLimit : option Z; InTimeLimitSeconds : option Z }.
Definition emptyInput : DirInput := mkDirInput None None None None None None None None None None None None None.
#[global] Instance DirInput_eq_dec : EqDecision DirInput.
Proof. solve_decision. Defined.

(** [View] without the fields of the row it copies: password and ciphertext
    are not among them. *)
Record DirView : Type := mkDirView {
  VwID : string; VwName : string; VwKind : string; VwURL : string; VwTLSMode : string; VwAllowTLS12 : bool; VwCAPEMSet : bool;
  VwCAPEM : string; VwBindDN : string; VwBindPasswordSet : bool; VwBaseDN : string; VwBaseFilter : string; VwAttributes : Mapping;
  VwSizeLimit : Z; VwTimeLimitSeconds : Z; VwLastTest : option (Z * string); VwCreatedAt : Z; VwUpdatedAt : Z }.
Definition mappingOf (c : DirectoryConnection) : Mapping :=
  mkMapping (DcAttrUID c) (DcAttrEmail c) (DcAttrDisplayName c) (DcAttrFirstName c) (DcAttrLastName c).
Definition view (c : DirectoryConnection) (withCA : bool) : DirView :=
  mkDirView (DcID c) (DcName c) (DcKind c) (DcURL c) (DcTLSMode c) (DcAllowTLS12 c) (negb (bool_decide (DcCAPEM c = "")))
    (if withCA then DcCAPEM c else "") (DcBindDN c) (negb (bool_decide (DcBindPasswordEnc c = ""))) (DcBaseDN c) (DcBaseFilter c)
    (mappingOf c) (DcSizeLimit c) (DcTimeLimitSeconds c)
    (match DcLastTestAt c, DcLastTestOutcome c with Some t, Some o => Some (t, o) | _, _ => None end) (DcCreatedAt c) (DcUpdatedAt c).

Record TLSInfo : Type := mkTLSInfo { TiVersion : string; TiPeerSubject : string }.
Record TestResult : Type := mkTestResult { TrOK : bool; TrStep : string; TrReason : string; TrTLS : option TLSInfo }.
Definition StepConnect : string := "connect".
Definition StepTLS : string := "tls".
Definition StepBind : string := "bind".
Definition StepSearchBase : string := "search_base".

(** ** The network *)
Record ConnParams : Type := mkConnParams { CpURL : string; CpTLSMode : string; CpCAPEM : string; CpAllowTLS12 : bool }.
Inductive Scope : Type := ScopeSub | ScopeOne.
Record Query : Type := mkQuery {
  QBaseDN : string; QScope : Scope; QFilter : string; QAttributes : list string; QSizeLimit : Z; QTimeLimit : Z }.
Record Page : Type := mkPage { PgEntries : list RawEntry; PgTruncated : bool; PgReferrals : Z }.
(** ldapdir.Directory and Session: a session is a handle; [dn_tls] is the
    state of TLS (handshake complete, what it negotiated) or nothing.
    Deadlines are failures of the calls. *)
Class DirNet (D : Type) : Type := {
  dn_open : ConnParams → M D nat;
  dn_tls : nat → M D (option (bool * TLSInfo));
  dn_bind : nat → string → string → M D unit;
  dn_base : nat → string → M D unit;
  dn_search : nat → Query → M D Page;
  dn_close : nat → M D unit;
}.
Definition paramsOf (c : DirectoryConnection) : ConnParams := mkConnParams (DcURL c) (DcTLSMode c) (DcCAPEM c) (DcAllowTLS12 c).
(** A bind and the tenant and connection it was sent for. *)
Record BindSent : Type := mkBind { BdTenant : string; BdParams : ConnParams; BdDN : string; BdPassword : string }.

Record DW (D K : Type) : Type := mkDW {
  dw_st : Store; dw_cache : option K; dw_net : D; dw_audit : list Event; dw_now : Z; dw_entropy : list string; dw_ids : nat;
  dw_binds : list BindSent }.
Arguments mkDW {D K}. Arguments dw_st {D K}. Arguments dw_cache {D K}. Arguments dw_net {D K}. Arguments dw_audit {D K}.
Arguments dw_now {D K}. Arguments dw_entropy {D K}. Arguments dw_ids {D K}. Arguments dw_binds {D K}.

(** ** Trust anchors (ParseCA) *)
(** bytes.Count for a pattern that does not overlap itself. *)
Fixpoint count_sub (pat s : string) : nat :=
  match s with
  | "" => 0
  | String _ s' => (if String.prefix pat s then 1 else 0) + count_sub pat s'
  end.
Section CA.
(** pem.Decode: type and bytes of the next block and the rest;
    x509.ParseCertificate succeeds. *)
Context (pem_Decode : string → option (string * string * string)) (cert_ok : string → bool).
Definition MaxCAPEMBytes : nat := 65536.
Fixpoint ca_blocks (fuel : nat) (rest : string) (certs : nat) : option nat :=
  match fuel with
  | O => Some certs
  | S n =>
      match pem_Decode rest with
      | None => Some certs
      | Some (typ, der, rest') =>
          if negb (bool_decide (typ = "CERTIFICATE")) || negb (cert_ok der) then None else ca_blocks n rest' (S certs)
      end
  end.
(** The number of certificates of the pool, or a refusal; every block takes at
    least one byte. *)
Definition ParseCA (caPEM : string) : result nat :=
  if bool_decide (caPEM = "") then Ok 0%nat
  else if (MaxCAPEMBytes <? String.length caPEM)%nat then Err ErrInvalidCA
  else match ca_blocks (String.length caPEM) caPEM 0 with
       | None => Err ErrInvalidCA
       | Some certs =>
           if (certs =? 0)%nat || negb (certs =? count_sub "-----BEGIN" caPEM)%nat then Err ErrInvalidCA else Ok certs
       end.
End CA.

(** ** Rows *)
Definition presets (kind : string) : option Mapping :=
  if bool_decide (kind = KindActiveDirectory) then Some (mkMapping "objectGUID" "mail" "displayName" "givenName" "sn")
  else if bool_decide (kind = KindOpenLDAP) then Some (mkMapping "entryUUID" "mail" "cn" "givenName" "sn")
  else if bool_decide (kind = KindOther) then Some (mkMapping "" "mail" "" "" "") else None.

Definition set_enc (e : string) (c : DirectoryConnection) : DirectoryConnection :=
  mkConnection (DcID c) (DcTenantID c) (DcName c) (DcKind c) (DcURL c) (DcTLSMode c) (DcAllowTLS12 c) (DcCAPEM c) (DcBindDN c)
    e (DcBaseDN c) (DcBaseFilter c) (DcAttrUID c) (DcAttrEmail c) (DcAttrDisplayName c) (DcAttrFirstName c)
    (DcAttrLastName c) (DcSizeLimit c) (DcTimeLimitSeconds c) (DcLastTestAt c) (DcLastTestOutcome c) (DcCreatedBy c) (DcUpdatedBy c) (DcCreatedAt c) (DcUpdatedAt c).
Definition set_by (created updated : option string) (c : DirectoryConnection) : DirectoryConnection :=
  mkConnection (DcID c) (DcTenantID c) (DcName c) (DcKind c) (DcURL c) (DcTLSMode c) (DcAllowTLS12 c) (DcCAPEM c) (DcBindDN c)
    (DcBindPasswordEnc c) (DcBaseDN c) (DcBaseFilter c) (DcAttrUID c) (DcAttrEmail c) (DcAttrDisplayName c) (DcAttrFirstName c)
    (DcAttrLastName c) (DcSizeLimit c) (DcTimeLimitSeconds c) (DcLastTestAt c) (DcLastTestOutcome c) created updated (DcCreatedAt c) (DcUpdatedAt c).
Definition blank (id tid : string) (size seconds : Z) : DirectoryConnection :=
  mkConnection id tid "" "" "" "" false "" "" "" "" "" "" "" "" "" "" size seconds None None None None 0 0.

Definition apply_input (c : DirectoryConnection) (i : DirInput) : DirectoryConnection :=
  let m := default (mappingOf c) (InAttributes i) in
  mkConnection (DcID c) (DcTenantID c) (match InName i with Some n => TrimSpace n | None => DcName c end)
    (default (DcKind c) (InKind i)) (default (DcURL c) (InURL i)) (default (DcTLSMode c) (InTLSMode i))
    (default (DcAllowTLS12 c) (InAllowTLS12 i)) (default (DcCAPEM c) (InCAPEM i)) (default (DcBindDN c) (InBindDN i))
    (DcBindPasswordEnc c) (default (DcBaseDN c) (InBaseDN i)) (default (DcBaseFilter c) (InBaseFilter i))
    (MpUID m) (MpEmail m) (MpDisplayName m) (MpFirstName m) (MpLastName m)
    (default (DcSizeLimit c) (InSizeLimit i)) (default (DcTimeLimitSeconds c) (InTimeLimitSeconds i))
    (DcLastTestAt c) (DcLastTestOutcome c) (DcCreatedBy c) (DcUpdatedBy c) (DcCreatedAt c) (DcUpdatedAt c).

Definition targetChanged (old c : DirectoryConnection) : bool :=
  negb (bool_decide (DcURL old = DcURL c)) || negb (bool_decide (DcTLSMode old = DcTLSMode c)) || negb (bool_decide (DcCAPEM old = DcCAPEM c)).

Definition is_alpha : ascii → bool := λ c, in_range "a" "z" c || in_range "A" "Z" c.
(** ^[A-Za-z][A-Za-z0-9-]{0,63}$ *)
Definition attrNameOK (a : string) : bool :=
  match a with
  | "" => false
  | String c r => is_alpha c && str_all (λ x, is_alpha x || is_digit x || is_char "-" x) r && (String.length r <=? 63)%nat
  end.
Definition fill (given preset : string) : string := if bool_decide (given = "") then preset else given.
Definition fillMapping (c : DirectoryConnection) (preset : Mapping) : result DirectoryConnection :=
  let m := mkMapping (fill (DcAttrUID c) (MpUID preset)) (fill (DcAttrEmail c) (MpEmail preset)) (fill (DcAttrDisplayName c) (MpDisplayName preset))
             (fill (DcAttrFirstName c) (MpFirstName preset)) (fill (DcAttrLastName c) (MpLastName preset)) in
  if forallb (λ a, bool_decide (a = "") || attrNameOK a) [MpUID m; MpEmail m; MpDisplayName m; MpFirstName m; MpLastName m]
     && negb (bool_decide (MpUID m = "")) && negb (bool_decide (MpEmail m = ""))
  then Ok (mkConnection (DcID c) (DcTenantID c) (DcName c) (DcKind c) (DcURL c) (DcTLSMode c) (DcAllowTLS12 c) (DcCAPEM c) (DcBindDN c)
    (DcBindPasswordEnc c) (DcBaseDN c) (DcBaseFilter c) (MpUID m) (MpEmail m) (MpDisplayName m) (MpFirstName m) (MpLastName m)
    (DcSizeLimit c) (DcTimeLimitSeconds c) (DcLastTestAt c) (DcLastTestOutcome c) (DcCreatedBy c) (DcUpdatedBy c) (DcCreatedAt c) (DcUpdatedAt c))
  else Err ErrDirValidation.
Definition set_filter (f : string) (c : DirectoryConnection) : DirectoryConnection :=
  mkConnection (DcID c) (DcTenantID c) (DcName c) (DcKind c) (DcURL c) (DcTLSMode c) (DcAllowTLS12 c) (DcCAPEM c) (DcBindDN c)
    (DcBindPasswordEnc c) (DcBaseDN c) f (DcAttrUID c) (DcAttrEmail c) (DcAttrDisplayName c) (DcAttrFirstName c)
    (DcAttrLastName c) (DcSizeLimit c) (DcTimeLimitSeconds c) (DcLastTestAt c) (DcLastTestOutcome c) (DcCreatedBy c) (DcUpdatedBy c) (DcCreatedAt c) (DcUpdatedAt c).

Definition validName (n : string) : bool :=
  negb (bool_decide (n = "") || (maxNameLen <? RuneCount n)%nat || negb (ValidString n)) && negb (hasControl n).

Definition sealAD (tid id : string) : string := "ldap-bind:" +:+ tid +:+ ":" +:+ id.

(** Names of the fields an update changed. *)
Definition changedFields (old c : DirectoryConnection) (credential : bool) : list string :=
  let add (changed : bool) name : list string := if changed then [name] else [] in
  let ne (a b : string) := negb (bool_decide (a = b)) in
  add (ne (DcName old) (DcName c)) "name" ++ add (ne (DcKind old) (DcKind c)) "kind" ++ add (ne (DcURL old) (DcURL c)) "url" ++
  add (ne (DcTLSMode old) (DcTLSMode c)) "tls_mode" ++ add (negb (bool_decide (DcAllowTLS12 old = DcAllowTLS12 c))) "allow_tls12" ++
  add (ne (DcCAPEM old) (DcCAPEM c)) "ca_pem" ++ add (ne (DcBindDN old) (DcBindDN c)) "bind_dn" ++ add credential "bind_credential" ++
  add (ne (DcBaseDN old) (DcBaseDN c)) "base_dn" ++ add (ne (DcBaseFilter old) (DcBaseFilter c)) "base_filter" ++
  add (negb (bool_decide (mappingOf old = mappingOf c))) "attributes" ++
  add (negb (bool_decide (DcSizeLimit old = DcSizeLimit c))) "size_limit" ++
  add (negb (bool_decide (DcTimeLimitSeconds old = DcTimeLimitSeconds c))) "time_limit_seconds".

(** ** The service *)
Section Service.
Context {D K : Type} {DN : DirNet D} {KVK : KV K} {AE : AEAD} {FL : FilterLib} {DL : DNLib}.
Context (newID : nat → string) (EqualFold : string → string → bool) (unicode_lower : string → string).
Context (kek : string) (url_Parse : string → option URL).
Context (pem_Decode : string → option (string * string * string)) (cert_ok : string → bool).
Context (pol : TargetPolicy) (cfg : DirConfig).
Notation W := (DW D K).

Definition dstM {A} (m : M Store A) : M W A := λ w,
  let '(r, s) := m (dw_st w) in
  (r, mkDW s (dw_cache w) (dw_net w) (dw_audit w) (dw_now w) (dw_entropy w) (dw_ids w) (dw_binds w)).
Definition netM {A} (m : M D A) : M W A := λ w,
  let '(r, d) := m (dw_net w) in
  (r, mkDW (dw_st w) (dw_cache w) d (dw_audit w) (dw_now w) (dw_entropy w) (dw_ids w) (dw_binds w)).
Definition dEmit (e : Event) : M W unit :=
  modify (λ w, mkDW (dw_st w) (dw_cache w) (dw_net w) (dw_audit w ++ [e]) (dw_now w) (dw_entropy w) (dw_ids w) (dw_binds w)).
Definition dNow : M W Z := gets dw_now.
Definition dNewID : M W string := λ w,
  (Ok (newID (dw_ids w)), mkDW (dw_st w) (dw_cache w) (dw_net w) (dw_audit w) (dw_now w) (dw_entropy w) (S (dw_ids w)) (dw_binds w)).
Definition dReadFull (n : nat) : M W string := λ w,
  match dw_entropy w with
  | [] => (Err ErrEntropy, w)
  | x :: l => (Ok (Password.fill n x), mkDW (dw_st w) (dw_cache w) (dw_net w) (dw_audit w) (dw_now w) l (dw_ids w) (dw_binds w))
  end.
(** A bind that is sent is recorded with its connection. *)
Definition dBind (h : nat) (c : DirectoryConnection) (pw : string) : M W unit := λ w,
  netM (dn_bind h (DcBindDN c) pw)
    (mkDW (dw_st w) (dw_cache w) (dw_net w) (dw_audit w) (dw_now w) (dw_entropy w) (dw_ids w)
       (dw_binds w ++ [mkBind (DcTenantID c) (paramsOf c) (DcBindDN c) pw])).

Definition dirEvent (typ tid : string) (actor : Actor) (id outcome reason : string) (d : Details) : Event :=
  mkEvent typ tid (kind_string (AKind actor)) (AUserID actor) (if bool_decide (id = "") then "" else dirSubjectKind) id outcome reason d.

Definition refused (typ tid : string) (actor : Actor) (id : string) (e : err) : M W unit :=
  let reason := if bool_decide (e = ErrInsecureTransport) then "insecure_transport"
                else if bool_decide (e = ErrTargetRefused) then "target_refused"
                else if bool_decide (e = ErrLimitReached) then "limit_reached"
                else if bool_decide (e = errCredentialRequired) then "bind_password_required" else "" in
  if bool_decide (reason = "") then ret tt else dEmit (dirEvent typ tid actor id "refused" reason []).

Definition maxLimits : Z * Z :=
  let size := CfMaxSizeLimit cfg in
  let size := if (size <=? 0)%Z || (ceilingSizeLimit <? size)%Z then ceilingSizeLimit else size in
  let seconds := Z.quot (CfMaxTimeLimit cfg) Dur.second in
  let seconds := if (seconds <=? 0)%Z || (ceilingTimeSeconds <? seconds)%Z then ceilingTimeSeconds else seconds in
  (size, seconds).

Definition dirLookup (actor : Actor) (tid id : string) : M W DirectoryConnection :=
  if negb (ValidTenantID id) then throw ErrDirNotFound else
  r <- attempt (dstM (GetDirectoryConnection tid id)) ;;
  match r with
  | Ok c => ret c
  | Err ErrNotFound =>
      o <- attempt (dstM (GetDirectoryConnectionAnyTenant id)) ;;
      match o with
      | Ok other =>
          if negb (bool_decide (DcTenantID other = tid))
          then dEmit (mkEvent CrossTenantRefused tid (kind_string (AKind actor)) (AUserID actor) dirSubjectKind id "refused"
                        "foreign_directory_connection" [("target_tenant", DcTenantID other : detail)])
          else ret tt
      | Err _ => ret tt
      end ;;;
      throw ErrDirNotFound
  | Err e => throw e
  end.

Definition validDN (dn : string) : bool :=
  if bool_decide (TrimSpace dn = "") || (maxDNLen <? String.length dn)%nat then false
  else match ParseDN dn with
       | Some rdns => negb (bool_decide (rdns = [])) &&
                      forallb (λ r, negb (bool_decide (r = [])) && forallb (λ a : string * string, negb (bool_decide (a.1 = "")) && negb (bool_decide (a.2 = ""))) r) rdns
       | None => false
       end.
Definition canonicalFilter (f : string) : result string :=
  if bool_decide (TrimSpace f = "") then Ok ""
  else if (maxFilterLen <? String.length f)%nat then Err ErrInvalidFilter
  else match CompileUserFilter f with Compiled c => Ok c | Refused _ => Err ErrInvalidFilter end.

Definition checkTarget (rawURL mode : string) : result unit :=
  if (maxURLLen <? String.length rawURL)%nat then Err ErrInvalidURL
  else match CheckURL url_Parse pol rawURL with
       | Err e => Err (if bool_decide (e = ErrTargetRefused) then ErrTargetRefused else ErrInvalidURL)
       | Ok ep =>
           if negb (Bool.eqb (bool_decide (EpScheme ep = "ldaps")) (bool_decide (mode = TLSModeLDAPS))) then Err ErrInvalidURL
           else if bool_decide (mode = TLSModePlain) && negb (CfAllowPlaintext cfg) then Err ErrInsecureTransport
           else Ok tt
       end.
Definition modeOK (mode : string) : bool := bool_decide (mode ∈ [TLSModeLDAPS; TLSModeStartTLS; TLSModePlain]).
Definition caOK (ca : string) : bool := bool_decide (ca = "") || is_ok (ParseCA pem_Decode cert_ok ca).

Definition validate (c : DirectoryConnection) : result DirectoryConnection :=
  if negb (validName (DcName c)) then Err ErrDirValidation else
  match presets (DcKind c) with
  | None => Err ErrDirValidation
  | Some preset =>
      if negb (modeOK (DcTLSMode c)) then Err ErrDirValidation else
      rbind (checkTarget (DcURL c) (DcTLSMode c)) (λ _,
      if negb (caOK (DcCAPEM c)) then Err ErrInvalidCA
      else if negb (validDN (DcBindDN c)) || negb (validDN (DcBaseDN c)) then Err ErrDirValidation
      else rbind (canonicalFilter (DcBaseFilter c)) (λ f,
      let c := set_filter f c in
      if (DcSizeLimit c <? 1)%Z || (maxLimits.1 <? DcSizeLimit c)%Z || (DcTimeLimitSeconds c <? 1)%Z || (maxLimits.2 <? DcTimeLimitSeconds c)%Z
      then Err ErrDirValidation
      else fillMapping c preset))
  end.

Definition usable (c : DirectoryConnection) : result unit :=
  if bool_decide (DcTLSMode c = TLSModePlain) && negb (CfAllowPlaintext cfg) then Err ErrInsecureTransport else Ok tt.

Definition seal (tid id pw : string) : M W string :=
  if bool_decide (TrimSpace pw = "") || (maxPasswordLen <? String.length pw)%nat then throw ErrDirValidation else
  r <- attempt (dek <- dReadFull 32 ;; n1 <- dReadFull nonceSize ;; n2 <- dReadFull nonceSize ;;
                lift (Encrypt kek (Some dek) (Some n1) (Some n2) pw (sealAD tid id))) ;;
  match r with Ok enc => ret enc | Err _ => throw errSeal end.

Definition actorRef (actor : Actor) : option string := if bool_decide (AUserID actor = "") then None else Some (AUserID actor).

Definition Create (actor : Actor) (tid : string) (i : DirInput) : M W DirView :=
  let given {A} (o : option A) : bool := if o then true else false in
  if negb (given (InName i) && given (InKind i) && given (InTLSMode i) && given (InBindDN i) && given (InBaseDN i)) then throw ErrDirValidation
  else if negb (given (InURL i)) then throw ErrInvalidURL else
  id <- dNewID ;;
  let c := apply_input (blank id tid (Z.min defaultSizeLimit maxLimits.1) (Z.min defaultTimeLimit maxLimits.2)) i in
  match validate c with
  | Err e => refused DirectoryConnectionCreated tid actor "" e ;;; throw e
  | Ok c =>
      match InBindPassword i with
      | None => throw ErrDirValidation
      | Some pw =>
          enc <- seal tid id pw ;;
          let c := set_enc enc c in
          full <- (if (0 <? CfMaxConnectionsPerTenant cfg)%Z
                   then n <- dstM (CountDirectoryConnections tid) ;; ret (CfMaxConnectionsPerTenant cfg <=? n)%Z
                   else ret false) ;;
          if full : bool then refused DirectoryConnectionCreated tid actor "" ErrLimitReached ;;; throw ErrLimitReached else
          let c := set_by (actorRef actor) (actorRef actor) c in
          now <- dNow ;;
          r <- attempt (dstM (InsertDirectoryConnection EqualFold now c)) ;;
          match r with
          | Err e => throw (if bool_decide (e = ErrConflict) then ErrDuplicate else e)
          | Ok _ =>
              stored <- dstM (GetDirectoryConnection tid id) ;;
              dEmit (dirEvent DirectoryConnectionCreated tid actor id "ok" ""
                [("kind", DcKind c : detail); ("tls_mode", DcTLSMode c : detail); ("ca_pem_set", DBool (negb (bool_decide (DcCAPEM c = ""))))]) ;;;
              ret (view stored false)
          end
      end
  end.

(** [Update] after the row was read. *)
Definition update_from (actor : Actor) (tid id : string) (old : DirectoryConnection) (i : DirInput) : M W DirView :=
  let c := apply_input (set_enc "" old) i in
  match validate c with
  | Err e => refused DirectoryConnectionUpdated tid actor id e ;;; throw e
  | Ok c =>
      if bool_decide (InBindPassword i = None) && targetChanged old c
      then refused DirectoryConnectionUpdated tid actor id errCredentialRequired ;;; throw errCredentialRequired
      else
        enc <- match InBindPassword i with Some pw => seal tid id pw | None => ret "" end ;;
        let c := set_enc enc c in
        let c := match actorRef actor with Some u => set_by (DcCreatedBy c) (Some u) c | None => c end in
        now <- dNow ;;
        r <- attempt (dstM (UpdateDirectoryConnection EqualFold now c)) ;;
        match r with
        | Err e => throw (if bool_decide (e = ErrConflict) then ErrDuplicate else if bool_decide (e = ErrNotFound) then ErrDirNotFound else e)
        | Ok _ =>
            stored <- dstM (GetDirectoryConnection tid id) ;;
            dEmit (dirEvent DirectoryConnectionUpdated tid actor id "ok" ""
              [("fields", DList (changedFields old c (negb (bool_decide (InBindPassword i = None)))))]) ;;;
            ret (view stored false)
        end
  end.
Definition Update (actor : Actor) (tid id : string) (i : DirInput) : M W DirView :=
  old <- dirLookup actor tid id ;; update_from actor tid id old i.

Definition ListConnections (tid : string) : M W (list DirView) :=
  rows <- dstM (ListDirectoryConnections unicode_lower tid) ;; ret ((λ c, view c false) <$> rows).
Definition GetConnection (actor : Actor) (tid id : string) : M W DirView :=
  c <- dirLookup actor tid id ;; ret (view c true).
Definition Remove (actor : Actor) (tid id : string) : M W unit :=
  c <- dirLookup actor tid id ;;
  r <- attempt (dstM (DeleteDirectoryConnection tid id)) ;;
  match r with
  | Err e => throw (if bool_decide (e = ErrNotFound) then ErrDirNotFound else e)
  | Ok _ => dEmit (dirEvent DirectoryConnectionDeleted tid actor id "ok" "" [("kind", DcKind c : detail)])
  end.

(** ** Connection tests (test.go) *)
Definition allow (tid : string) : M W unit := λ w,
  match dw_cache w with
  | None => (Ok tt, w)
  | Some k =>
      if (CfRatePerMinute cfg <=? 0)%Z then (Ok tt, w)
      else let '(r, k') := Count (dw_now w) (RateKey "directory" tid) rateWindow k in
           let w' := mkDW (dw_st w) (Some k') (dw_net w) (dw_audit w) (dw_now w) (dw_entropy w) (dw_ids w) (dw_binds w) in
           match r with
           | Err _ => (Err errLimiter, w')
           | Ok n => if (CfRatePerMinute cfg <? n)%Z then (Err ErrRateLimited, w') else (Ok tt, w')
           end
  end.

(** The refusal of the target, kept for the result, once the rest is valid. *)
Definition checkTestTarget (c : DirectoryConnection) : result (option err) :=
  if negb (modeOK (DcTLSMode c)) then Err ErrDirValidation else
  rbind (match checkTarget (DcURL c) (DcTLSMode c) with
         | Ok _ => Ok None
         | Err e => if bool_decide (e = ErrTargetRefused) then Ok (Some e) else Err e
         end) (λ targetErr,
  if negb (caOK (DcCAPEM c)) then Err ErrInvalidCA
  else if negb (validDN (DcBindDN c)) || negb (validDN (DcBaseDN c)) then Err ErrDirValidation
  else Ok targetErr).

Definition testPassword (i : DirInput) (c : DirectoryConnection) (tid connID : string) : result string :=
  match InBindPassword i with
  | Some pw => if bool_decide (TrimSpace pw = "") || (maxPasswordLen <? String.length pw)%nat then Err ErrDirValidation else Ok pw
  | None =>
      if bool_decide (connID = "") || bool_decide (DcBindPasswordEnc c = "") then Err ErrDirValidation
      else match Decrypt kek (DcBindPasswordEnc c) (sealAD tid connID) with Ok pw => Ok pw | Err _ => Err errUnseal end
  end.

Definition reasonOf (e : err) : string := Reason (of_err e).
Definition failedAt (step : string) (e : err) : TestResult := mkTestResult false step (reasonOf e) None.

(** open → TLS → bind → base; the session is closed on every path. *)
Definition runTest (c : DirectoryConnection) (pw : string) : M W TestResult :=
  ro <- attempt (netM (dn_open (paramsOf c))) ;;
  match ro with
  | Err e => ret (failedAt (if bool_decide (e = ErrTLS) then StepTLS else StepConnect) e)
  | Ok h =>
      t <- (if bool_decide (DcTLSMode c = TLSModePlain) then ret (Some None)
            else st <- attempt (netM (dn_tls h)) ;;
                 ret (match st with Ok (Some (true, i)) => Some (Some i) | _ => None end)) ;;
      res <- match t with
             | None => ret (failedAt StepTLS ErrTLS)
             | Some info =>
                 rb <- attempt (dBind h c pw) ;;
                 match rb with
                 | Err e => ret (failedAt StepBind e)
                 | Ok _ =>
                     rs <- attempt (netM (dn_base h (DcBaseDN c))) ;;
                     match rs with
                     | Err e => ret (failedAt StepSearchBase e)
                     | Ok _ => ret (mkTestResult true "" "" info)
                     end
                 end
             end ;;
      ignore (netM (dn_close h)) ;;;
      ret res
  end.

Definition outcomes : list string :=
  ["ok"; "unreachable"; "target_refused"; "timeout"; "tls_failed"; "invalid_credentials"; "base_not_found"; "directory_error"].
Definition emitTested (actor : Actor) (tid connID outcome reason step : string) : M W unit :=
  dEmit (dirEvent DirectoryConnectionTested tid actor connID outcome reason
    ((if bool_decide (step = "") then [] else [("step", step : detail)]) ++
     (if bool_decide (connID = "") then [] else [("connection_id", connID : detail)]))).

Definition test (actor : Actor) (tid : string) (i : DirInput) (connID : string) (saved : bool) : M W TestResult :=
  ra <- attempt (allow tid) ;;
  match ra with
  | Err e => (if bool_decide (e = ErrRateLimited) then emitTested actor tid connID "refused" "rate_limited" "" else ret tt) ;;; throw e
  | Ok _ =>
      old <- (if bool_decide (connID = "") then ret (blank "" tid (Z.min defaultSizeLimit maxLimits.1) (Z.min defaultTimeLimit maxLimits.2))
              else dirLookup actor tid connID) ;;
      let c := apply_input old i in
      if negb (bool_decide (connID = "")) && bool_decide (InBindPassword i = None) && targetChanged old c
      then refused DirectoryConnectionTested tid actor connID errCredentialRequired ;;; throw errCredentialRequired else
      match checkTestTarget c with
      | Err e => refused DirectoryConnectionTested tid actor connID e ;;; throw e
      | Ok targetErr =>
          pw <- lift (testPassword i c tid connID) ;;
          res <- match targetErr with
                 | Some e => ret (failedAt StepConnect e)
                 | None => runTest c pw
                 end ;;
          let outcome := if TrOK res then "ok"
                         else if bool_decide (TrReason res ∈ outcomes) then TrReason res else "directory_error" in
          (if saved : bool then
             now <- dNow ;;
             r <- attempt (dstM (SetDirectoryConnectionTest tid connID outcome now)) ;;
             match r with Ok _ => ret tt | Err _ => throw errPersist end
           else ret tt) ;;;
          (if TrOK res then emitTested actor tid connID "ok" "" "" else emitTested actor tid connID "failed" (TrReason res) (TrStep res)) ;;;
          ret res
      end
  end.
Definition TestSaved (actor : Actor) (tid connID : string) : M W TestResult := test actor tid emptyInput connID true.
Definition Test (actor : Actor) (tid : string) (i : DirInput) (connID : string) : M W TestResult :=
  if negb (bool_decide (connID = "")) && bool_decide (i = emptyInput) then TestSaved actor tid connID
  else test actor tid i connID false.
End Service.
