(* ===== verification/DirectoryImport.v ===== *)
(** * Directory search and import (internal/directory/search.go, import.go)

    A search previews the people a filter selects; an import fetches each
    selected person again and stores it in a transaction of its own.  As for
    invitations, [rollback] says whether the store undoes the writes of a
    failed transaction; the theorems hold for both. *)
From S2P Require Import Prelude GoStrings Base64 Utf8 Regex PermRef TenantCtx Models Password Cache Envelope AuditEvents Session MemStore MemAccounts LdapPolicy LdapFilter AuthzServices Invite LdapEntry MemDirectory Directory.
#[local] Open Scope list_scope.
#[local] Open Scope go_scope.

Definition StatusNew : string := "new".
Definition StatusExistingUser : string := "existing_user".
Definition StatusImported : string := "imported".
Definition StatusInvalid : string := "invalid".
Definition maxAuditFilter : nat := 1024.
Definition errPreview : err := ErrText "directory: reading the preview status failed".
Definition MaxImportUIDs : nat := 500.

Record SearchRequest : Type := mkSearchRequest { SrFilter : string; SrBase : string; SrScope : string }.
Record SearchItem : Type := mkSearchItem {
  SiUID : string; SiDN : string; SiEmail : string; SiDisplayName : string; SiFirstName : string; SiLastName : string;
  SiStatus : string; SiUserID : string; SiReason : string }.
Record SearchResult : Type := mkSearchResult {
  SxItems : list SearchItem; SxTruncated : bool; SxOutOfScope : Z; SxEffectiveFilter : string }.
Record searchPlan : Type := mkPlan { PlQuery : Query; PlUserCan : string; PlNarrowed : bool; PlScope : string }.

Record ImportItem : Type := mkImportItem { ImUID : string; ImUserID : string }.
Record ImportIssue : Type := mkImportIssue { IsUID : string; IsReason : string }.
Record ImportResult : Type := mkImportResult {
  IrCreated : list ImportItem; IrUpdated : list ImportItem; IrSkipped : list ImportIssue; IrFailed : list ImportIssue }.
Definition noResult : ImportResult := mkImportResult [] [] [] [].

(** [EscapeFilter] is go-ldap's. *)
Section Imports.
Context {D K : Type} {DN : DirNet D} {KVK : KV K} {AE : AEAD} {FL : FilterLib} {DL : DNLib}.
Context (newID : nat → string) (EqualFold : string → string → bool) (unicode_lower : string → string).
Context (EscapeFilter : string → string) (kek : string) (cfg : DirConfig) (rollback : bool).
Notation W := (DW D K).

Definition mappedAttributes (c : DirectoryConnection) : list string :=
  filter (λ a, a ≠ "") [DcAttrUID c; DcAttrEmail c; DcAttrDisplayName c; DcAttrFirstName c; DcAttrLastName c].

Definition asErr (o : outcome) : result string := match o with Compiled c => Ok c | Refused _ => Err ErrInvalidFilter end.

Definition planSearch (c : DirectoryConnection) (q : SearchRequest) : result searchPlan :=
  rbind (if bool_decide (SrScope q = "") || bool_decide (SrScope q = "sub") then Ok (ScopeSub, "sub")
         else if bool_decide (SrScope q = "one") then Ok (ScopeOne, "one") else Err ErrDirValidation) (λ '(sc, name),
  rbind (asErr (CompileUserFilter (SrFilter q))) (λ user,
  rbind (asErr (CompileUserFilter (DcBaseFilter c))) (λ base,
  rbind (asErr (Combine base user)) (λ effective,
  rbind (ScopeBase (DcBaseDN c) (SrBase q)) (λ baseDN,
  Ok (mkPlan (mkQuery baseDN sc effective (mappedAttributes c) (DcSizeLimit c) (DcTimeLimitSeconds c * Dur.second))
        user (negb (bool_decide (SrBase q = ""))) name)))))).

Definition planDetails (p : searchPlan) (count : nat) (truncated : bool) : Details :=
  [("filter", DStr (if (maxAuditFilter <? String.length (PlUserCan p))%nat then String.substring 0 maxAuditFilter (PlUserCan p) else PlUserCan p));
   ("scope", PlScope p : detail); ("count", DInt (Z.of_nat count)); ("truncated", DBool truncated)] ++
  (if PlNarrowed p then [("base", QBaseDN (PlQuery p) : detail)] else []).

Definition emitSearched (actor : Actor) (tid connID outcome reason : string) (d : Details) : M W unit :=
  dEmit (mkEvent DirectorySearched tid (kind_string (AKind actor)) (AUserID actor) dirSubjectKind connID outcome reason d).
Definition emitImported (actor : Actor) (tid connID outcome reason : string) (d : Details) : M W unit :=
  dEmit (mkEvent DirectoryImported tid (kind_string (AKind actor)) (AUserID actor) dirSubjectKind connID outcome reason d).

Definition closedDirErr (e : err) : err := if bool_decide (e = ErrDeadline) then ErrTimeout else e.
Definition closed {A} (r : result A) : result A := match r with Ok a => Ok a | Err e => Err (closedDirErr e) end.

(** Open, check TLS, bind: a session, closed again when a step fails. *)
Definition openBound (c : DirectoryConnection) (pw : string) : M W nat :=
  ro <- attempt (netM (dn_open (paramsOf c))) ;;
  h <- lift (closed ro) ;;
  st <- (if bool_decide (DcTLSMode c = TLSModePlain) then ret true
         else s <- attempt (netM (dn_tls h)) ;; ret (match s with Ok (Some (true, _)) => true | _ => false end)) ;;
  if negb (st : bool) then ignore (netM (dn_close h)) ;;; throw ErrTLS else
  rb <- attempt (dBind h c pw) ;;
  match rb with
  | Ok _ => ret h
  | Err e => ignore (netM (dn_close h)) ;;; throw (closedDirErr e)
  end.
Definition runSearch (c : DirectoryConnection) (pw : string) (q : Query) : M W Page :=
  h <- openBound c pw ;;
  rs <- attempt (netM (dn_search h q)) ;;
  ignore (netM (dn_close h)) ;;;
  lift (closed rs).

(** The status of one item, given the links and the users by e-mail. *)
Definition itemStatus (tid : string) (links : gmap string DirectoryLink) (byEmail : gmap string User) (it : SearchItem) : M W SearchItem :=
  let put st uid := mkSearchItem (SiUID it) (SiDN it) (SiEmail it) (SiDisplayName it) (SiFirstName it) (SiLastName it) st uid (SiReason it) in
  let other := match byEmail !! SiEmail it with
               | Some u => put StatusExistingUser (UID u)
               | None => put StatusNew ""
               end in
  if negb (bool_decide (SiStatus it = "")) then ret it
  else match links !! SiUID it with
       | Some l =>
           ru <- attempt (dstM (UserRow tid (DlUserID l))) ;;
           match ru with
           | Ok u => ret (put (if bool_decide (UStatus u = "imported") then StatusImported else StatusExistingUser) (UID u))
           | Err ErrNotFound => ret other
           | Err _ => throw errPreview
           end
       | None => ret other
       end.
Definition previewStatus (tid connID : string) (items : list SearchItem) : M W (list SearchItem) :=
  let valid := filter (λ it, SiStatus it = "") items in
  if bool_decide (valid = []) then ret items else
  rl <- attempt (dstM (LinksByUIDs tid connID (SiUID <$> valid))) ;;
  links <- lift (match rl with Ok l => Ok l | Err _ => Err errPreview end) ;;
  ru <- attempt (dstM (UsersByEmails unicode_lower tid (SiEmail <$> valid))) ;;
  found <- lift (match ru with Ok l => Ok l | Err _ => Err errPreview end) ;;
  let byEmail := foldr (λ p m, <[ToLower unicode_lower p.1 := p.2]> m) ∅ (map_to_list found) in
  fold_each items [] (λ out it, x <- itemStatus tid links byEmail it ;; ret (out ++ [x])).

(** Entries outside the base are dropped and counted. *)
Definition previewItem (m : Mapping) (e : RawEntry) : SearchItem :=
  let '(p, derr) := Decode unicode_lower m e in
  mkSearchItem (PnUID p) (PnDN p) (PnEmail p) (PnDisplayName p) (PnFirstName p) (PnLastName p)
    (if derr then StatusInvalid else "") "" (match derr with Some e => reasonOf e | None => "" end).
Definition previewItems (m : Mapping) (base : string) (es : list RawEntry) : list SearchItem :=
  previewItem m <$> filter (λ e, WithinBase base (ReDN e) = true) es.

Definition Search (actor : Actor) (tid connID : string) (q : SearchRequest) : M W SearchResult :=
  c <- dirLookup actor tid connID ;;
  match usable cfg c with
  | Err e => refused DirectorySearched tid actor connID e ;;; throw e
  | Ok _ =>
      match planSearch c q with
      | Err e =>
          (if bool_decide (e = ErrInvalidFilter) || bool_decide (e = ErrInvalidBase)
           then emitSearched actor tid connID "refused" (reasonOf e) [] else ret tt) ;;; throw e
      | Ok plan =>
          ra <- attempt (allow cfg tid) ;;
          match ra with
          | Err e => (if bool_decide (e = ErrRateLimited) then emitSearched actor tid connID "refused" "rate_limited" [] else ret tt) ;;; throw e
          | Ok _ =>
              pw <- lift (testPassword kek emptyInput c tid connID) ;;
              rp <- attempt (runSearch c pw (PlQuery plan)) ;;
              match rp with
              | Err e => emitSearched actor tid connID "failed" (reasonOf e) (planDetails plan 0 false) ;;; throw e
              | Ok page =>
                  let over := (QSizeLimit (PlQuery plan) <? Z.of_nat (length (PgEntries page)))%Z in
                  let es := if over then take (Z.to_nat (QSizeLimit (PlQuery plan))) (PgEntries page) else PgEntries page in
                  let items := previewItems (mappingOf c) (QBaseDN (PlQuery plan)) es in
                  let truncated := PgTruncated page || over in
                  items <- previewStatus tid connID items ;;
                  emitSearched actor tid connID "ok" "" (planDetails plan (length items) truncated) ;;;
                  ret (mkSearchResult items truncated
                    (Z.of_nat (length es) - Z.of_nat (length (filter (λ e, WithinBase (QBaseDN (PlQuery plan)) (ReDN e) = true) es)))
                    (QFilter (PlQuery plan)))
              end
          end
      end
  end.

(** ** Import *)
Definition validUIDs (uids : list string) : bool :=
  negb (bool_decide (uids = []) || (MaxImportUIDs <? length uids)%nat) &&
  forallb (λ u, negb (bool_decide (TrimSpace u = ""))) uids && bool_decide (NoDup uids).

(** The run of one request: the result so far and the addresses written. *)
Record importRun : Type := mkRun { rnRes : ImportResult; rnEmails : list string }.
Definition skip (uid reason : string) (r : importRun) : importRun :=
  mkRun (mkImportResult (IrCreated (rnRes r)) (IrUpdated (rnRes r)) (IrSkipped (rnRes r) ++ [mkImportIssue uid reason]) (IrFailed (rnRes r))) (rnEmails r).
Definition failReason (uid reason : string) (r : importRun) : importRun :=
  mkRun (mkImportResult (IrCreated (rnRes r)) (IrUpdated (rnRes r)) (IrSkipped (rnRes r)) (IrFailed (rnRes r) ++ [mkImportIssue uid reason])) (rnEmails r).
Definition fail (uid : string) (e : err) (r : importRun) : importRun :=
  failReason uid (if bool_decide (e = ErrTimeout) then "timeout" else "directory_error") r.
Definition created_ (uid user email : string) (r : importRun) : importRun :=
  mkRun (mkImportResult (IrCreated (rnRes r) ++ [mkImportItem uid user]) (IrUpdated (rnRes r)) (IrSkipped (rnRes r)) (IrFailed (rnRes r))) (email :: rnEmails r).
Definition updated_ (uid user email : string) (r : importRun) : importRun :=
  mkRun (mkImportResult (IrCreated (rnRes r)) (IrUpdated (rnRes r) ++ [mkImportItem uid user]) (IrSkipped (rnRes r)) (IrFailed (rnRes r))) (email :: rnEmails r).

Definition dirAtomic {A} (m : M W A) : M W A := λ w,
  match m w with
  | (Ok a, w') => (Ok a, w')
  | (Err e, w') =>
      (Err e, if rollback then mkDW (dw_st w) (dw_cache w') (dw_net w') (dw_audit w') (dw_now w') (dw_entropy w') (dw_ids w') (dw_binds w') else w')
  end.

Section Run.
Context (actor : Actor) (tid : string) (c : DirectoryConnection) (base : string) (now : Z).

Definition linkOf (userID : string) (p : Person) : DirectoryLink :=
  mkLink userID tid (Some (DcID c)) (DcName c) (PnUID p) (PnDN p) now now (actorRef actor).

(** A skip reason (nothing written), or the user and whether it is new. *)
Definition refresh (l : DirectoryLink) (p : Person) : M W (string + string * bool) :=
  u <- dstM (UserRow tid (DlUserID l)) ;;
  if negb (bool_decide (UStatus u = "imported")) then ret (inl "already_active") else
  email <- (if EqualFold (PnEmail p) (UEmail u) then ret (UEmail u)
            else ro <- attempt (dstM (UserByEmail unicode_lower tid (PnEmail p))) ;;
                 match ro with
                 | Err ErrNotFound => ret (PnEmail p)
                 | Err e => throw e
                 | Ok other => ret (if bool_decide (UID other = UID u) then PnEmail p else UEmail u)
                 end) ;;
  dstM (UpdateImportedUser unicode_lower tid (UID u)
    (mkProfile email (PnDisplayName p) (PnFirstName p) (PnLastName p) (PnDisplayNameExplicit p))) ;;;
  dstM (UpsertLink (linkOf (UID u) p)) ;;;
  ret (inr (UID u, false)).

Definition newUser (id : string) (p : Person) : User :=
  mkUser id tid (PnEmail p) (PnDisplayName p) "imported" None false None 0 None None (PnFirstName p) (PnLastName p) (PnDisplayNameExplicit p).
Definition write (p : Person) : M W (string + string * bool) :=
  links <- dstM (LinksByUIDs tid (DcID c) [PnUID p]) ;;
  match links !! PnUID p with
  | Some l => refresh l p
  | None =>
      ro <- attempt (dstM (UserByEmail unicode_lower tid (PnEmail p))) ;;
      match ro with
      | Ok _ => ret (inl "email_in_use")
      | Err ErrNotFound =>
          id <- dNewID newID ;;
          ri <- attempt (dstM (InsertUser unicode_lower (newUser id p))) ;;
          match ri with
          | Err ErrConflict => ret (inl "email_in_use")
          | Err e => throw e
          | Ok _ => dstM (UpsertLink (linkOf id p)) ;;; ret (inr (id, true))
          end
      | Err e => throw e
      end
  end.

Definition storeEntry (uid : string) (p : Person) (r : importRun) : M W importRun :=
  if bool_decide (PnEmail p ∈ rnEmails r) then ret (skip uid "duplicate_email" r) else
  res <- attempt (dirAtomic (write p)) ;;
  ret (match res with
       | Err _ => failReason uid "internal" r
       | Ok (inl reason) => skip uid reason r
       | Ok (inr (user, true)) => created_ uid user (PnEmail p) r
       | Ok (inr (user, false)) => updated_ uid user (PnEmail p) r
       end).

(** One uid; the error of the fetch, if any, is returned as well. *)
Definition entry (h : nat) (uid : string) (r : importRun) : M W (importRun * option err) :=
  match assertionValue (mappingOf c) uid with
  | None => ret (skip uid "not_found_in_directory" r, None)
  | Some value =>
      let q := mkQuery (DcBaseDN c) ScopeSub ("(&" +:+ base +:+ "(" +:+ DcAttrUID c +:+ "=" +:+ EscapeFilter value +:+ "))")
                 (mappedAttributes c) 2 (DcTimeLimitSeconds c * Dur.second) in
      rs <- attempt (netM (dn_search h q)) ;;
      match closed rs with
      | Err e => ret (fail uid e r, Some e)
      | Ok page =>
          match filter (λ e, WithinBase (DcBaseDN c) (ReDN e) = true) (PgEntries page) with
          | [] => ret (skip uid "not_found_in_directory" r, None)
          | [e] =>
              match Decode unicode_lower (mappingOf c) e with
              | (_, Some derr) => ret (skip uid (reasonOf derr) r, None)
              | (p, None) => r' <- storeEntry uid p r ;; ret (r', None)
              end
          | _ => ret (failReason uid "directory_error" r, None)
          end
      end
  end.

(** The session of the loop: open, to be reopened, or lost with an error. *)
Inductive sess : Type := Opened (h : nat) | Dropped | Lost (e : err).
Definition keeps_session (e : err) : bool := match e with ErrDirectoryCode _ => true | _ => false end.
Definition importOne (connID : string) (st : importRun * sess) (uid : string) : M W (importRun * sess) :=
  let '(r, s) := st in
  s <- match s with
       | Dropped =>
           ro <- attempt (pw <- lift (testPassword kek emptyInput c tid connID) ;; openBound c pw) ;;
           ret (match ro with Ok h => Opened h | Err e => Lost e end)
       | _ => ret s
       end ;;
  match s with
  | Lost e => ret (fail uid e r, Lost e)
  | Dropped => ret (r, Dropped)
  | Opened h =>
      re <- entry h uid r ;;
      match re with
      | (r', Some e) => if keeps_session e then ret (r', Opened h) else ignore (netM (dn_close h)) ;;; ret (r', Dropped)
      | (r', None) => ret (r', Opened h)
      end
  end.
End Run.

Definition importDetails (connID : string) (r : ImportResult) : Details :=
  [("connection_id", connID : detail); ("created", DInt (Z.of_nat (length (IrCreated r)))); ("updated", DInt (Z.of_nat (length (IrUpdated r))));
   ("skipped", DInt (Z.of_nat (length (IrSkipped r)))); ("failed", DInt (Z.of_nat (length (IrFailed r))));
   ("created_user_ids", DList (ImUserID <$> IrCreated r)); ("updated_user_ids", DList (ImUserID <$> IrUpdated r))].

Definition Import (actor : Actor) (tid connID : string) (uids : list string) : M W ImportResult :=
  if negb (validUIDs uids) then throw ErrDirValidation else
  c <- dirLookup actor tid connID ;;
  match usable cfg c with
  | Err e => refused DirectoryImported tid actor connID e ;;; throw e
  | Ok _ =>
      base <- lift (asErr (CompileUserFilter (DcBaseFilter c))) ;;
      ra <- attempt (allow cfg tid) ;;
      match ra with
      | Err e => (if bool_decide (e = ErrRateLimited) then emitImported actor tid connID "refused" "rate_limited" [] else ret tt) ;;; throw e
      | Ok _ =>
          pw <- lift (testPassword kek emptyInput c tid connID) ;;
          ro <- attempt (openBound c pw) ;;
          match ro with
          | Err e => emitImported actor tid connID "failed" (reasonOf e) [] ;;; throw e
          | Ok h =>
              now <- dNow ;;
              out <- fold_each uids (mkRun noResult [], Opened h) (importOne actor tid c base now connID) ;;
              match out.2 with Opened h => ignore (netM (dn_close h)) | _ => ret tt end ;;;
              emitImported actor tid connID "ok" "" (importDetails connID (rnRes out.1)) ;;;
              ret (rnRes out.1)
          end
      end
  end.
End Imports.
