(* ===== verification/DirectorySafety.v ===== *)
(** * Where a bind password may go

    Over any history of the directory service: a password is sent only to the
    target it was typed for, and every stored connection satisfies the policy
    it was saved under. *)
From S2P Require Import Prelude GoStrings Base64 Utf8 Regex PermRef TenantCtx Models Password Cache Envelope AuditEvents Session MemStore MemAccounts LdapPolicy LdapFilter AuthzServices Invite LdapEntry MemDirectory Directory DirectoryImport.
#[local] Open Scope list_scope.
#[local] Open Scope go_scope.

Section DirectorySafety.
Context {D K : Type} {DN : DirNet D} {KVK : KV K} {AE : AEAD} {AEL : AEADLaws} {FL : FilterLib} {DL : DNLib}.
Context (newID : nat → string) (EqualFold : string → string → bool) (unicode_lower : string → string).
Context (EscapeFilter : string → string) (kek : string) (url_Parse : string → option URL).
Context (pem_Decode : string → option (string * string * string)) (cert_ok : string → bool).
Context (pol : TargetPolicy) (cfg : DirConfig) (rollback : bool).
Notation W := (DW D K).
Implicit Types (w : W) (c : DirectoryConnection).

(** ** Steps that leave connections and binds alone *)
Definition rows w : gmap string DirectoryConnection := conns (dw_st w).
Definition quiet {A} (m : M W A) : Prop := ∀ w, rows (m w).2 = rows w ∧ dw_binds (m w).2 = dw_binds w.
Definition On (P : gmap string DirectoryConnection → list BindSent → Prop) w : Prop := P (rows w) (dw_binds w).

Lemma quiet_triple {A} (m : M W A) P : quiet m → triple (On P) m (λ _, On P) (On P).
Proof using Type. intros Hm w Hw. unfold On in *. specialize (Hm w) as [H1 H2]. destruct (m w) as [[a|e] w']; cbn in *; congruence. Qed.
Lemma quiet_ret {A} (a : A) : quiet (ret a).
Proof using Type. done. Qed.
Lemma quiet_throw {A} e : quiet (throw (A := A) e).
Proof using Type. done. Qed.
Lemma quiet_lift {A} (r : result A) : quiet (lift r).
Proof using Type. done. Qed.
Lemma quiet_bind {A B} (m : M W A) (f : A → M W B) : quiet m → (∀ a, quiet (f a)) → quiet (bind m f).
Proof using Type.
  intros Hm Hf w. unfold bind. specialize (Hm w) as [H1 H2]. destruct (m w) as [[a|e] w']; [|done]. cbn in *.
  destruct (Hf a w') as [H3 H4]. split; congruence.
Qed.
Lemma quiet_attempt {A} (m : M W A) : quiet m → quiet (attempt m).
Proof using Type. intros Hm w. unfold attempt. specialize (Hm w). by destruct (m w) as [[a|e] w']. Qed.
Lemma quiet_ignore {A} (m : M W A) : quiet m → quiet (ignore m).
Proof using Type. intros Hm w. unfold ignore. specialize (Hm w). by destruct (m w) as [[a|e] w']. Qed.
Lemma quiet_net {A} (m : M D A) : quiet (netM (K := K) m).
Proof using Type. intros w. unfold netM. by destruct (m (dw_net w)). Qed.
Lemma quiet_emit e : quiet (dEmit e).
Proof using Type. done. Qed.
Lemma quiet_now : quiet dNow.
Proof using Type. done. Qed.
Lemma quiet_id : quiet (dNewID newID).
Proof using Type. done. Qed.
Lemma quiet_read n : quiet (dReadFull n).
Proof using Type. intros w. unfold dReadFull. by destruct (dw_entropy w). Qed.
Lemma quiet_st {A} (m : M Store A) : (∀ s, conns (m s).2 = conns s) → quiet (dstM m).
Proof using Type. intros Hm w. unfold dstM, rows. specialize (Hm (dw_st w)). by destruct (m (dw_st w)). Qed.
Lemma quiet_allow tid : quiet (allow cfg tid).
Proof using Type.
  intros w. unfold allow, rows. destruct (dw_cache w) as [k|]; [|done]. destruct (_ <=? _)%Z; [done|].
  destruct (Count _ _ _ _) as [[n|e] k']; [|done]. by destruct (_ <? _)%Z.
Qed.
Lemma quiet_fold {A B} (l : list A) (f : B → A → M W B) : (∀ b x, quiet (f b x)) → ∀ b, quiet (fold_each l b f).
Proof using Type. intros Hf. induction l as [|x l IH]; intros b; [apply quiet_ret|]. apply quiet_bind; [apply Hf|apply IH]. Qed.
Lemma quiet_atomic {A} (m : M W A) : quiet m → quiet (dirAtomic rollback m).
Proof using Type.
  intros Hm w. unfold dirAtomic. specialize (Hm w) as [H1 H2]. destruct (m w) as [[a|e] w']; [done|]. by destruct rollback.
Qed.
End DirectorySafety.

Ltac quiet_step :=
  match goal with
  | |- quiet (bind _ _) => apply quiet_bind; [|intros ?]
  | |- quiet (attempt _) => apply quiet_attempt
  | |- quiet (ignore _) => apply quiet_ignore
  | |- quiet (netM _) => apply quiet_net
  | |- quiet (lift _) => apply quiet_lift
  | |- quiet (ret _) => apply quiet_ret
  | |- quiet (throw _) => apply quiet_throw
  | |- quiet (dEmit _) => apply quiet_emit
  | |- quiet dNow => apply quiet_now
  | |- quiet (dNewID _) => apply quiet_id
  | |- quiet (dReadFull _) => apply quiet_read
  | |- quiet (allow _ _) => apply quiet_allow
  | |- quiet (dirAtomic _ _) => apply quiet_atomic
  | |- quiet (fold_each _ _ _) => apply quiet_fold; intros ? ?
  | |- quiet (dstM _) => apply quiet_st; intros ?
  | |- quiet (match ?x with _ => _ end) => destruct x
  | |- quiet (let '(_, _) := ?x in _) => destruct x
  end.

#[local] Arguments Password.fill : simpl never.

Section Passwords.
Context {D K : Type} {DN : DirNet D} {KVK : KV K} {AE : AEAD} {AEL : AEADLaws} {FL : FilterLib} {DL : DNLib}.
Context (newID : nat → string) (EqualFold : string → string → bool) (unicode_lower : string → string).
Context (EscapeFilter : string → string) (kek : string) (url_Parse : string → option URL).
Context (pem_Decode : string → option (string * string * string)) (cert_ok : string → bool).
Context (pol : TargetPolicy) (cfg : DirConfig) (rollback : bool).
Notation W := (DW D K).
Implicit Types (w : W) (c : DirectoryConnection).

(** Server, TLS mode and trust anchors: what a password is typed for. *)
Definition target : Type := string * string * string.
Definition target_of c : target := (DcURL c, DcTLSMode c, DcCAPEM c).
Definition target_of_params (p : ConnParams) : target := (CpURL p, CpTLSMode p, CpCAPEM p).
(** A password typed by an administrator of a tenant for a target. *)
Definition typing : Type := string * target * string.

Definition sealed_ok (T : list typing) c : Prop :=
  ∃ pw, Decrypt kek (DcBindPasswordEnc c) (sealAD (DcTenantID c) (DcID c)) = Ok pw ∧ (DcTenantID c, target_of c, pw) ∈ T.
(** A row that may be stored. *)
Definition valid_conn c : Prop :=
  validName (DcName c) = true ∧ presets (DcKind c) ≠ None ∧ modeOK (DcTLSMode c) = true ∧
  checkTarget url_Parse pol cfg (DcURL c) (DcTLSMode c) = Ok tt ∧ caOK pem_Decode cert_ok (DcCAPEM c) = true ∧
  validDN (DcBindDN c) = true ∧ validDN (DcBaseDN c) = true ∧
  (DcBaseFilter c = "" ∨ ∃ f, TrimSpace f ≠ "" ∧ CompileUserFilter f = Compiled (DcBaseFilter c)) ∧
  (1 <= DcSizeLimit c <= 1000)%Z ∧ (1 <= DcTimeLimitSeconds c <= 60)%Z ∧
  attrNameOK (DcAttrUID c) = true ∧ attrNameOK (DcAttrEmail c) = true.
Definition row_ok (T : list typing) c : Prop := sealed_ok T c ∧ valid_conn c.
Definition bind_ok (T : list typing) (b : BindSent) : Prop := (BdTenant b, target_of_params (BdParams b), BdPassword b) ∈ T.
Definition Inv (T : list typing) (rs : gmap string DirectoryConnection) (bs : list BindSent) : Prop :=
  (∀ id c, rs !! id = Some c → DcID c = id ∧ row_ok T c) ∧ Forall (bind_ok T) bs.
Notation OnInv T := (On (D := D) (K := K) (Inv T)).
Notation quiet := (quiet (D := D) (K := K)).

Lemma Inv_mono T T' rs bs : T ⊆ T' → Inv T rs bs → Inv T' rs bs.
Proof using Type.
  intros HT [H1 H2]. split.
  - intros id c Hc. destruct (H1 id c Hc) as [H [(pw & Hd & Hin) Hv]]. split; [done|]. split; [|done]. exists pw. auto.
  - eapply Forall_impl; [exact H2|]. intros b Hb. by apply HT.
Qed.

Lemma quiet_refused typ tid a id e : quiet (refused typ tid a id e).
Proof using Type. unfold refused. cbv zeta. repeat quiet_step. Qed.
Lemma quiet_seal tid id pw : quiet (seal kek tid id pw).
Proof using Type. unfold seal. repeat quiet_step. Qed.
Lemma quiet_lookup a tid id : quiet (dirLookup a tid id).
Proof using Type.
  unfold dirLookup. repeat quiet_step; unfold GetDirectoryConnection, GetDirectoryConnectionAnyTenant; by repeat case_match.
Qed.

(** ** The parts of the service *)
Lemma lookup_spec (P : gmap string DirectoryConnection → list BindSent → Prop) a tid id :
  triple (On P) (dirLookup a tid id)
    (λ c w, On (λ rs bs, P rs bs ∧ rs !! id = Some c) w ∧ DcTenantID c = tid) (On P).
Proof using Type.
  intros w Hw. pose proof (quiet_lookup a tid id w) as [H1 H2].
  destruct (dirLookup a tid id w) as [[c|e] w'] eqn:E; cbn in H1, H2.
  - assert (X : rows w !! id = Some c ∧ DcTenantID c = tid).
    { revert E. unfold dirLookup. destruct (negb _); [done|]. unfold bind, attempt, dstM, GetDirectoryConnection, rows.
      destruct (conns (dw_st w) !! id) as [c0|] eqn:Ec; [case_bool_decide as Ht|].
      - cbn. intros [= <- <-]. done.
      - cbn. unfold GetDirectoryConnectionAnyTenant. cbn. rewrite ?Ec. cbn. by case_bool_decide.
      - cbn. unfold GetDirectoryConnectionAnyTenant. cbn. by rewrite ?Ec. }
    unfold On in Hw |- *. rewrite H1, H2. destruct X as [X1 X2]. split; [split; [exact Hw|exact X1]|exact X2].
  - unfold On in Hw |- *. by rewrite H1, H2.
Qed.

Lemma seal_spec P tid id pw :
  triple (On P) (seal (D := D) (K := K) kek tid id pw)
    (λ enc w, On P w ∧ Decrypt kek enc (sealAD tid id) = Ok pw ∧ enc ≠ "") (On P).
Proof using AEL.
  intros w Hw. pose proof (quiet_seal tid id pw w) as [H1 H2]. unfold On in Hw |- *.
  destruct (seal kek tid id pw w) as [[enc|e] w'] eqn:E; cbn in H1, H2; rewrite H1, H2; [|done]. split; [done|].
  revert E. unfold seal. destruct (_ || _); [done|]. unfold bind, attempt, dReadFull, lift.
  destruct (dw_entropy w) as [|x l]; [done|]. cbn. destruct l as [|y l]; [done|]. cbn. destruct l as [|z l]; [done|]. cbn.
  intros [= <- _]. split.
  - rewrite Decrypt_sealed by apply fill_length. by rewrite !gcm_open_seal.
  - intros H. apply (f_equal String.length) in H. rewrite !str_length_app, fill_length in H. cbn in H. lia.
Qed.

Lemma bind_spec T h c pw : (DcTenantID c, target_of c, pw) ∈ T → triple (OnInv T) (dBind h c pw) (λ _, OnInv T) (OnInv T).
Proof using Type.
  intros Hin w [H1 H2]. unfold dBind. set (w1 := mkDW _ _ _ _ _ _ _ _).
  assert (X : OnInv T w1) by (split; [done|]; cbn; apply Forall_app; split; [done|]; by constructor).
  pose proof (quiet_net (K := K) (dn_bind h (DcBindDN c) pw) w1) as [Q1 Q2]. unfold On in X |- *.
  destruct (netM _ w1) as [[a|e] w']; cbn in Q1, Q2; by rewrite Q1, Q2.
Qed.

(** A step that is quiet, then the rest. *)
Lemma quiet_then {A B} P (m : M W A) (f : A → M W B) (Q : B → W → Prop) (E : W → Prop) :
  quiet m → (∀ w, On P w → E w) → (∀ a, triple (On P) (f a) Q E) → triple (On P) (bind m f) Q E.
Proof using Type.
  intros Hm HE Hf. eapply triple_bind; [|exact Hf]. eapply triple_conseq; [by apply quiet_triple|done|done|exact HE].
Qed.
Lemma attempt_same {A} (P : W → Prop) (m : M W A) E : triple P m (λ _, P) P → triple P (attempt m) (λ _, P) E.
Proof using Type. intros Hm. by eapply triple_attempt. Qed.

Lemma run_spec T c pw : (DcTenantID c, target_of c, pw) ∈ T → triple (OnInv T) (runTest c pw) (λ _, OnInv T) (OnInv T).
Proof using Type.
  intros Hin. unfold runTest. apply quiet_then; [repeat quiet_step|done|]. intros [h|e]; [|by apply triple_ret].
  apply quiet_then; [repeat quiet_step|done|]. intros t. eapply triple_bind with (R := λ _, OnInv T).
  - destruct t as [info|]; [|by apply triple_ret]. eapply triple_bind; [by apply attempt_same, bind_spec|].
    intros [[]|e]; [|by apply triple_ret]. apply quiet_then; [repeat quiet_step|done|]. intros [a|e]; by apply triple_ret.
  - intros res. apply quiet_then; [repeat quiet_step|done|]. intros _. by apply triple_ret.
Qed.
Lemma openBound_spec T c pw : (DcTenantID c, target_of c, pw) ∈ T → triple (OnInv T) (openBound c pw) (λ _, OnInv T) (OnInv T).
Proof using Type.
  intros Hin. unfold openBound. apply quiet_then; [repeat quiet_step|done|]. intros ro. apply quiet_then; [repeat quiet_step|done|]. intros h.
  apply quiet_then; [repeat quiet_step|done|]. intros st. destruct (negb st).
  { apply quiet_triple. repeat quiet_step. }
  eapply triple_bind; [by apply attempt_same, bind_spec|].
  intros [a|e]; [by apply triple_ret|]. apply quiet_triple. repeat quiet_step.
Qed.

(** The stored password of a row opens to what was typed for its target. *)
Lemma stored_password T c c' tid id i pw : sealed_ok T c → DcTenantID c = tid → DcID c = id →
  DcBindPasswordEnc c' = DcBindPasswordEnc c → InBindPassword i = None → testPassword kek i c' tid id = Ok pw → (tid, target_of c, pw) ∈ T.
Proof using Type.
  intros (x & Hd & Hin) <- <- E Hi. unfold testPassword. rewrite Hi, E. destruct (_ || _); [done|]. rewrite Hd. by intros [= <-].
Qed.

(** What an operation types for the row it works on. *)
Definition typed_in (T : list typing) (tid id : string) (i : DirInput) (rs : gmap string DirectoryConnection) : Prop :=
  ∀ old pw, rs !! id = Some old → DcTenantID old = tid → InBindPassword i = Some pw → (tid, target_of (apply_input old i), pw) ∈ T.

Lemma tested_row m id c (T : list typing) bs o t :
  Inv T m bs → m !! id = Some c → Inv T (<[id := tested_conn o t c]> m) bs.
Proof using Type.
  intros [H1 H2] Hc. split; [|done]. intros id' c' [[<- <-]|[_ H]]%lookup_insert_Some; [|by apply H1].
  destruct (H1 id c Hc) as [Hi [(pw & Hd & Hin) Hv]]. split; [done|]. split; [by exists pw|done].
Qed.
Lemma settest_spec T tid id o t : triple (OnInv T) (dstM (SetDirectoryConnectionTest tid id o t)) (λ _, OnInv T) (OnInv T).
Proof using Type.
  intros w Hw. unfold dstM, SetDirectoryConnectionTest. unfold On, rows in Hw |- *.
  destruct (conns (dw_st w) !! id) as [c|] eqn:Ec; [|done]. case_bool_decide; [|done]. cbn. by apply tested_row.
Qed.

(** ** The operations *)
Lemma test_spec T a tid i connID saved :
  (connID = "" → ∀ pw, InBindPassword i = Some pw →
     (tid, target_of (apply_input (blank "" tid (Z.min defaultSizeLimit (maxLimits cfg).1) (Z.min defaultTimeLimit (maxLimits cfg).2)) i), pw) ∈ T) →
  triple (On (λ rs bs, Inv T rs bs ∧ (connID ≠ "" → typed_in T tid connID i rs)))
    (test kek url_Parse pem_Decode cert_ok pol cfg a tid i connID saved) (λ _, OnInv T) (OnInv T).
Proof using Type.
  intros Hnew. set (P := λ rs bs, Inv T rs bs ∧ (connID ≠ "" → typed_in T tid connID i rs)). assert (HP : ∀ w : W, On P w → OnInv T w) by (by intros w [? _]).
  unfold test. apply quiet_then; [repeat quiet_step|exact HP|]. intros [?|e].
  2:{ eapply triple_conseq; [apply (quiet_triple _ (Inv T))|exact HP|done|done]. repeat quiet_step; unfold emitTested; repeat quiet_step. }
  set (good := λ c : DirectoryConnection, DcTenantID c = tid ∧ (InBindPassword i = None → connID ≠ "" → DcID c = connID ∧ row_ok T c) ∧
    ∀ pw, InBindPassword i = Some pw → (tid, target_of (apply_input c i), pw) ∈ T).
  eapply triple_bind with (R := λ c w, OnInv T w ∧ good c).
  { destruct (bool_decide (connID = "")) eqn:E; bool_prop.
    - apply triple_ret. intros w Hw. split; [by apply HP|]. split; [done|]. split; [by intros|]. by apply Hnew.
    - eapply triple_conseq; [apply (lookup_spec P)|done| |exact HP]. intros c w [[[HI Ht] Hc] Htid]. split; [exact HI|].
      split; [done|]. destruct HI as [HI _]. split; [intros _ _; by apply HI|]. intros pw Hpw. by apply (Ht E c pw). }
  intros old. apply triple_pure. intros (Htid & Hrow & Htyped). cbv zeta. set (c := apply_input old i).
  destruct (negb (bool_decide (connID = "")) && bool_decide (InBindPassword i = None) && targetChanged old c) eqn:Ech.
  { apply quiet_triple. repeat quiet_step; apply quiet_refused. }
  destruct (checkTestTarget _ _ _ _ _ c) as [targetErr|e] eqn:Ect; [|apply quiet_triple; repeat quiet_step; apply quiet_refused].
  eapply triple_bind with (R := λ pw w, OnInv T w ∧ (DcTenantID c, target_of c, pw) ∈ T).
  { apply triple_lift. intros w Hw. destruct (testPassword kek i c tid connID) as [pw|] eqn:Ep; [|done]. split; [done|].
    change (DcTenantID c) with (DcTenantID old). rewrite Htid. destruct (InBindPassword i) as [x|] eqn:Ei.
    - unfold testPassword in Ep. rewrite Ei in Ep. destruct (_ || _); [done|]. injection Ep as <-. by apply Htyped.
    - destruct (decide (connID = "")) as [->|Hne]. { unfold testPassword in Ep. by rewrite Ei in Ep. }
      destruct (Hrow eq_refl Hne) as [Hid Hok]. rewrite (bool_decide_eq_false_2 (connID = "")) in Ech by done.
      rewrite bool_decide_eq_true_2 in Ech by done. cbn [negb andb] in Ech. unfold targetChanged in Ech. bool_prop.
      replace (target_of c) with (target_of old) by (unfold target_of; congruence).
      by eapply (stored_password T old c); [apply Hok|..]. }
  intros pw. apply triple_pure. intros Hin. eapply triple_bind with (R := λ _, OnInv T).
  { destruct targetErr; [by apply triple_ret|by apply run_spec]. }
  intros res. eapply triple_bind with (R := λ _, OnInv T).
  { destruct saved; [|by apply triple_ret]. apply quiet_then; [repeat quiet_step|done|]. intros now.
    eapply triple_bind; [apply attempt_same, settest_spec|]. intros [?|?]; [by apply triple_ret|by apply triple_throw]. }
  intros _. apply quiet_triple. destruct (TrOK res); unfold emitTested; repeat quiet_step.
Qed.

Lemma maxLimits_ceiling : ((maxLimits cfg).1 <= 1000)%Z ∧ ((maxLimits cfg).2 <= 60)%Z.
Proof using Type.
  unfold maxLimits, ceilingSizeLimit, ceilingTimeSeconds. cbn [fst snd]. split; (destruct (_ || _) eqn:E; [lia|]; bool_prop; lia).
Qed.
Lemma attr_given a : bool_decide (a = "") || attrNameOK a = true → a ≠ "" → attrNameOK a = true.
Proof using Type. intros [H|H]%orb_true_iff Hne; [by bool_prop|done]. Qed.
Lemma validate_keeps c c' : validate url_Parse pem_Decode cert_ok pol cfg c = Ok c' →
  DcID c' = DcID c ∧ DcTenantID c' = DcTenantID c ∧ target_of c' = target_of c ∧ valid_conn c'.
Proof using Type.
  unfold validate. destruct (validName (DcName c)) eqn:En; [|done]. cbn [negb]. destruct (presets (DcKind c)) as [p|] eqn:Ep; [|done].
  destruct (modeOK (DcTLSMode c)) eqn:Em; [|done]. cbn [negb].
  destruct (checkTarget _ _ _ _ _) as [[]|] eqn:Et; [|done]. cbn [rbind]. destruct (caOK _ _ _) eqn:Ec; [|done]. cbn [negb].
  destruct (validDN (DcBindDN c)) eqn:Ed1; [|done]. destruct (validDN (DcBaseDN c)) eqn:Ed2; [|done]. cbn [negb orb].
  destruct (canonicalFilter (DcBaseFilter c)) as [f|] eqn:Ef; [|done]. cbn [rbind]. cbv zeta. destruct (_ || _) eqn:El; [done|].
  unfold fillMapping. cbv zeta. destruct (_ && _) eqn:Ea; [|done]. intros [= <-]. split; [done|]. split; [done|]. split; [done|].
  pose proof maxLimits_ceiling as [M1 M2]. cbn [set_filter DcSizeLimit DcTimeLimitSeconds] in El. bool_prop. cbn [MpUID MpEmail forallb] in *. bool_prop.
  unfold valid_conn. cbn [set_filter DcName DcKind DcTLSMode DcURL DcCAPEM DcBindDN DcBaseDN DcBaseFilter DcSizeLimit DcTimeLimitSeconds DcAttrUID DcAttrEmail].
  rewrite Ep. split_and!; try done; try lia.
  - unfold canonicalFilter in Ef. destruct (decide (TrimSpace (DcBaseFilter c) = "")) as [E|E].
    { rewrite bool_decide_eq_true_2 in Ef by done. left. congruence. }
    rewrite bool_decide_eq_false_2 in Ef by done. right. destruct (_ <? _)%nat; [done|].
    destruct (CompileUserFilter (DcBaseFilter c)) eqn:Eu; [done|]. injection Ef as <-. by exists (DcBaseFilter c).
  - by apply attr_given.
  - by apply attr_given.
Qed.

Lemma insert_spec T now c : row_ok T c → triple (OnInv T) (dstM (InsertDirectoryConnection EqualFold now c)) (λ _, OnInv T) (OnInv T).
Proof using Type.
  intros [(pw & Hd & Hin) Hv] w [H1 H2]. unfold dstM, InsertDirectoryConnection. destruct (_ || _); [done|]. split; [|done]. cbn.
  intros id c' [[<- <-]|[_ H]]%lookup_insert_Some; [|by apply H1]. split; [done|]. split; [by exists pw|exact Hv].
Qed.
Lemma create_spec T a tid i :
  (∀ pw, InBindPassword i = Some pw → (tid, (default "" (InURL i), default "" (InTLSMode i), default "" (InCAPEM i)), pw) ∈ T) →
  triple (OnInv T) (Create newID EqualFold kek url_Parse pem_Decode cert_ok pol cfg a tid i) (λ _, OnInv T) (OnInv T).
Proof using AEL.
  intros Ht. unfold Create. cbv zeta. destruct (negb _); [by apply triple_throw|]. destruct (negb _); [by apply triple_throw|].
  apply quiet_then; [repeat quiet_step|done|]. intros id.
  destruct (validate _ _ _ _ _ _) as [c|e] eqn:Ev; [|apply quiet_triple; repeat quiet_step; apply quiet_refused].
  apply validate_keeps in Ev as (Hid & Htid & Htg & Hval). destruct (InBindPassword i) as [pw|]; [|by apply triple_throw].
  eapply triple_bind; [apply (seal_spec (Inv T))|]. intros enc. apply triple_pure. intros [Hd _].
  apply quiet_then; [repeat quiet_step; unfold CountDirectoryConnections; done|done|]. intros full. destruct full.
  { apply quiet_triple. repeat quiet_step. apply quiet_refused. }
  apply quiet_then; [repeat quiet_step|done|]. intros now. eapply triple_bind; [apply attempt_same, insert_spec|].
  { split; [|exact Hval]. exists pw. cbn. rewrite Htid, Hid. split; [exact Hd|]. change (target_of (set_by _ _ (set_enc enc c))) with (target_of c). rewrite Htg. by apply Ht. }
  intros [?|e]; [|by apply triple_throw]. apply quiet_triple. repeat quiet_step. unfold GetDirectoryConnection. by repeat case_match.
Qed.

Lemma updaterow_spec T id old now c : DcID c = id → row_ok T (edited_conn now old c) →
  triple (On (λ rs bs, Inv T rs bs ∧ rs !! id = Some old)) (dstM (UpdateDirectoryConnection EqualFold now c)) (λ _, OnInv T) (OnInv T).
Proof using Type.
  intros <- Hok w [[H1 H2] Ho]. unfold dstM, UpdateDirectoryConnection. unfold rows in Ho. rewrite Ho. destruct (negb _); [done|].
  destruct (nameTaken _ _ _ _ _); [done|]. split; [|done]. cbn.
  intros id c' [[<- <-]|[_ H]]%lookup_insert_Some; [done|by apply H1].
Qed.
Lemma update_spec T a tid id i :
  triple (On (λ rs bs, Inv T rs bs ∧ typed_in T tid id i rs))
    (Update EqualFold kek url_Parse pem_Decode cert_ok pol cfg a tid id i) (λ _, OnInv T) (OnInv T).
Proof using AEL.
  set (P := λ rs bs, Inv T rs bs ∧ typed_in T tid id i rs). assert (HP : ∀ w : W, On P w → OnInv T w) by (by intros w [? _]).
  unfold Update. eapply triple_bind with (R := λ old w, On (λ rs bs, Inv T rs bs ∧ rs !! id = Some old) w ∧
    DcTenantID old = tid ∧ DcID old = id ∧ row_ok T old ∧ ∀ pw, InBindPassword i = Some pw → (tid, target_of (apply_input old i), pw) ∈ T).
  { eapply triple_conseq; [apply (lookup_spec P)|done| |exact HP]. intros c w [[[HI Ht] Hc] Htid]. split; [done|].
    destruct HI as [HI _]. destruct (HI id c Hc) as [Hid Hrow]. split; [done|]. split; [done|]. split; [done|]. intros pw Hpw. by apply (Ht c pw). }
  intros old. apply triple_pure. intros (Htid & Hid & Hrow & Htyped). set (P2 := λ rs bs, Inv T rs bs ∧ rs !! id = Some old).
  assert (HP2 : ∀ w : W, On P2 w → OnInv T w) by (by intros w [? _]).
  unfold update_from. cbv zeta. destruct (validate _ _ _ _ _ _) as [c|e] eqn:Ev.
  2:{ eapply triple_conseq; [apply (quiet_triple _ (Inv T))|exact HP2|done|done]. repeat quiet_step; apply quiet_refused. }
  apply validate_keeps in Ev as (Hcid & Hctid & Hctg & Hval). destruct (bool_decide (InBindPassword i = None) && targetChanged old c) eqn:Ech.
  { eapply triple_conseq; [apply (quiet_triple _ (Inv T))|exact HP2|done|done]. repeat quiet_step; apply quiet_refused. }
  eapply triple_bind with (R := λ enc w, On P2 w ∧ ∃ pw, (enc = "" → Decrypt kek (DcBindPasswordEnc old) (sealAD tid id) = Ok pw) ∧
     (enc ≠ "" → Decrypt kek enc (sealAD tid id) = Ok pw) ∧ (tid, target_of c, pw) ∈ T).
  { destruct (InBindPassword i) as [pw|] eqn:Ei.
    - eapply triple_conseq; [apply (seal_spec P2)|done| |exact HP2]. intros enc w (Hw & Hd & Hne). split; [done|].
      exists pw. split; [done|]. split; [done|]. rewrite Hctg. by apply Htyped.
    - apply triple_ret. intros w Hw. split; [done|]. destruct Hrow as [(pw & Hd & Hin) _]. exists pw. rewrite <- Htid, <- Hid.
      split; [done|]. split; [done|]. replace (target_of c) with (target_of old); [done|].
      rewrite bool_decide_eq_true_2 in Ech by done. unfold targetChanged in Ech. cbn [andb] in Ech. bool_prop. unfold target_of. congruence. }
  intros enc. apply triple_pure. intros (pw & Hd1 & Hd2 & Hin).
  apply quiet_then; [repeat quiet_step|done|]. intros now. set (c2 := match actorRef a with Some u => _ | None => _ end).
  assert (F : DcID c2 = id ∧ row_ok T (edited_conn now old c2)).
  { assert (DcID c2 = id ∧ DcTenantID c2 = tid ∧ target_of c2 = target_of c ∧ DcBindPasswordEnc c2 = enc) as (B1 & B2 & B3 & B4).
    { rewrite <- Hid, <- Htid. unfold c2. destruct (actorRef a); cbn; rewrite ?Hcid, ?Hctid; done. }
    split; [done|]. split; [|unfold c2; destruct (actorRef a); exact Hval]. exists pw. change (DcTenantID (edited_conn _ _ c2)) with (DcTenantID c2). change (DcID (edited_conn _ _ c2)) with (DcID c2).
    change (target_of (edited_conn _ _ c2)) with (target_of c2). cbn [edited_conn DcBindPasswordEnc]. rewrite B1, B2, B3, B4.
    split; [|done]. destruct (decide (enc = "")); [rewrite bool_decide_eq_true_2 by done; by apply Hd1|].
    rewrite bool_decide_eq_false_2 by done. by apply Hd2. }
  destruct F as [F1 F2]. eapply triple_bind with (R := λ _, OnInv T).
  { eapply (triple_attempt _ _ (λ _, OnInv T) (OnInv T)); [by apply updaterow_spec|done|done]. }
  intros [?|e]; [|by apply triple_throw]. apply quiet_triple. repeat quiet_step. unfold GetDirectoryConnection. by repeat case_match.
Qed.

Lemma remove_spec T a tid id : triple (OnInv T) (Remove a tid id) (λ _, OnInv T) (OnInv T).
Proof using Type.
  unfold Remove. apply quiet_then; [apply quiet_lookup|done|]. intros c. eapply triple_bind with (R := λ _, OnInv T).
  { apply attempt_same. intros w [H1 H2]. unfold dstM, DeleteDirectoryConnection. unfold On, rows in H1, H2 |- *.
    destruct (conns (dw_st w) !! id); [|done]. case_bool_decide; [|done]. split; [|done]. cbn. intros id' c' [_ Hl]%lookup_delete_Some. by apply H1. }
  intros [?|e]; apply quiet_triple; repeat quiet_step.
Qed.

(** The writes of an import are to users and links. *)
Lemma quiet_write a tid c now p : quiet (write newID EqualFold unicode_lower a tid c now p).
Proof using Type.
  unfold write, refresh. repeat quiet_step;
    unfold LinksByUIDs, UserRow, UserByEmail, UpdateImportedUser, UpsertLink, InsertUser; repeat case_match; done.
Qed.
Lemma quiet_preview tid connID items : quiet (previewStatus unicode_lower tid connID items).
Proof using Type.
  unfold previewStatus, itemStatus. cbv zeta. repeat quiet_step; unfold LinksByUIDs, UsersByEmails, UserRow; repeat case_match; done.
Qed.
Lemma quiet_entry a tid c base now h uid r :
  quiet (entry newID EqualFold unicode_lower EscapeFilter rollback a tid c base now h uid r).
Proof using Type. unfold entry, storeEntry. cbv zeta. repeat quiet_step. apply quiet_write. Qed.

Lemma found_row T a tid id :
  triple (OnInv T) (dirLookup a tid id) (λ c w, OnInv T w ∧ DcTenantID c = tid ∧ DcID c = id ∧ row_ok T c) (OnInv T).
Proof using Type.
  eapply triple_conseq; [apply (lookup_spec (Inv T))|done| |done]. intros c w [[HI Hc] Ht]. split; [exact HI|]. split; [done|].
  destruct HI as [HI _]. by apply HI.
Qed.
Lemma password_spec T c tid id : DcTenantID c = tid → DcID c = id → row_ok T c →
  triple (OnInv T) (lift (testPassword kek emptyInput c tid id)) (λ pw w, OnInv T w ∧ (DcTenantID c, target_of c, pw) ∈ T) (OnInv T).
Proof using Type.
  intros Ht Hi Hr. apply triple_lift. intros w Hw. destruct (testPassword _ _ _ _ _) as [pw|] eqn:E; [|done]. split; [done|].
  rewrite Ht. by eapply (stored_password T c c tid id emptyInput); [apply Hr|..].
Qed.

Lemma search_spec T a tid connID q :
  triple (OnInv T) (Search unicode_lower kek cfg a tid connID q) (λ _, OnInv T) (OnInv T).
Proof using Type.
  unfold Search. eapply triple_bind; [apply found_row|]. intros c. apply triple_pure. intros (Ht & Hi & Hr).
  destruct (usable cfg c) as [?|e]; [|apply quiet_triple; repeat quiet_step; apply quiet_refused].
  destruct (planSearch c q) as [plan|e]; [|apply quiet_triple; unfold emitSearched; repeat quiet_step].
  apply quiet_then; [repeat quiet_step|done|]. intros [?|e]; [|apply quiet_triple; unfold emitSearched; repeat quiet_step].
  eapply triple_bind; [by apply password_spec|]. intros pw. apply triple_pure. intros Hin. eapply triple_bind with (R := λ _, OnInv T).
  { apply attempt_same. unfold runSearch. eapply triple_bind; [by apply openBound_spec|]. intros h. apply quiet_triple. repeat quiet_step. }
  intros [page|e]; apply quiet_triple; unfold emitSearched; repeat quiet_step. apply quiet_preview.
Qed.

Lemma import_spec T a tid connID uids :
  triple (OnInv T) (Import newID EqualFold unicode_lower EscapeFilter kek cfg rollback a tid connID uids) (λ _, OnInv T) (OnInv T).
Proof using Type.
  unfold Import. destruct (negb _); [by apply triple_throw|]. eapply triple_bind; [apply found_row|]. intros c. apply triple_pure.
  intros (Ht & Hi & Hr). destruct (usable cfg c) as [?|e]; [|apply quiet_triple; repeat quiet_step; apply quiet_refused].
  apply quiet_then; [repeat quiet_step|done|]. intros base.
  apply quiet_then; [repeat quiet_step|done|]. intros [?|e]; [|apply quiet_triple; unfold emitImported; repeat quiet_step].
  eapply triple_bind; [by apply password_spec|]. intros pw. apply triple_pure. intros Hin.
  eapply triple_bind; [by apply attempt_same, openBound_spec|]. intros [h|e]; [|apply quiet_triple; unfold emitImported; repeat quiet_step].
  apply quiet_then; [repeat quiet_step|done|]. intros now. eapply triple_bind with (R := λ _, OnInv T).
  2:{ intros out. apply quiet_triple. unfold emitImported. repeat quiet_step. }
  apply (triple_fold_each uids _ (λ _, OnInv T) (OnInv T)). intros [r s] uid _. unfold importOne.
  eapply triple_bind with (R := λ _, OnInv T).
  { destruct s; [by apply triple_ret| |by apply triple_ret]. eapply triple_bind with (R := λ _, OnInv T); [|intros ro; by apply triple_ret].
    apply attempt_same. eapply triple_bind; [by apply password_spec|]. intros pw'. apply triple_pure. intros Hin'. by apply openBound_spec. }
  intros [h'| |e]; [|by apply triple_ret..]. apply quiet_then; [apply quiet_entry|done|].
  intros [r' [e|]]; apply quiet_triple; repeat quiet_step.
Qed.

(** ** Histories *)
Inductive dirOp : Type :=
  | OpCreate (a : Actor) (tid : string) (i : DirInput)
  | OpUpdate (a : Actor) (tid id : string) (i : DirInput)
  | OpRemove (a : Actor) (tid id : string)
  | OpTest (a : Actor) (tid : string) (i : DirInput) (connID : string)
  | OpTestSaved (a : Actor) (tid connID : string)
  | OpSearch (a : Actor) (tid connID : string) (q : SearchRequest)
  | OpImport (a : Actor) (tid connID : string) (uids : list string).
Definition exec (op : dirOp) w : W :=
  match op with
  | OpCreate a tid i => (Create newID EqualFold kek url_Parse pem_Decode cert_ok pol cfg a tid i w).2
  | OpUpdate a tid id i => (Update EqualFold kek url_Parse pem_Decode cert_ok pol cfg a tid id i w).2
  | OpRemove a tid id => (Remove a tid id w).2
  | OpTest a tid i connID => (Test kek url_Parse pem_Decode cert_ok pol cfg a tid i connID w).2
  | OpTestSaved a tid connID => (TestSaved kek url_Parse pem_Decode cert_ok pol cfg a tid connID w).2
  | OpSearch a tid connID q => (Search unicode_lower kek cfg a tid connID q w).2
  | OpImport a tid connID uids => (Import newID EqualFold unicode_lower EscapeFilter kek cfg rollback a tid connID uids w).2
  end.
(** The password an operation carries, with the tenant and the target of the
    row it is given for: the row with the input applied. *)
Definition given (tid : string) (i : DirInput) (row : option DirectoryConnection) : list typing :=
  match InBindPassword i, row with
  | Some pw, Some c => if bool_decide (DcTenantID c = tid) then [(tid, target_of (apply_input c i), pw)] else []
  | _, _ => []
  end.
Definition typed_by (op : dirOp) w : list typing :=
  match op with
  | OpCreate _ tid i => given tid i (Some (blank "" tid 0 0))
  | OpUpdate _ tid id i => given tid i (rows w !! id)
  | OpTest _ tid i connID => given tid i (if bool_decide (connID = "") then Some (blank "" tid 0 0) else rows w !! connID)
  | _ => []
  end.
Fixpoint history (ops : list dirOp) w (T : list typing) : W * list typing :=
  match ops with
  | [] => (w, T)
  | op :: ops' => history ops' (exec op w) (T ++ typed_by op w)
  end.

Lemma given_typed T tid id i rs : given tid i (rs !! id) ⊆ T → typed_in T tid id i rs.
Proof using Type.
  intros H old pw Ho Ht Hi. apply H. unfold given. rewrite Hi, Ho, bool_decide_eq_true_2 by done. by left.
Qed.
Lemma exec_inv T op w : OnInv T w → OnInv (T ++ typed_by op w) (exec op w).
Proof using AEL.
  intros Hw. assert (H' : OnInv (T ++ typed_by op w) w) by (eapply Inv_mono; [|exact Hw]; set_solver).
  assert (Hg : typed_by op w ⊆ T ++ typed_by op w) by set_solver.
  destruct op as [a tid i|a tid id i|a tid id|a tid i connID|a tid connID|a tid connID q|a tid connID uids]; cbn [exec typed_by] in *.
  - eapply triple_out; [apply create_spec|exact H']. intros pw Hpw. apply Hg. unfold given. rewrite Hpw, bool_decide_eq_true_2 by done. by left.
  - eapply triple_out; [apply update_spec|]. split; [exact H'|by apply given_typed].
  - by eapply triple_out; [apply remove_spec|].
  - unfold Test. destruct (_ && _) eqn:E.
    + bool_prop. eapply triple_out; [apply test_spec|]; [done|]. split; [exact H'|]. by intros ? ? ?.
    + eapply triple_out; [apply test_spec|split; [exact H'|]].
      * intros -> pw Hpw. apply Hg. unfold given. rewrite bool_decide_eq_true_2, Hpw, bool_decide_eq_true_2 by done.
        unfold target_of. cbn [apply_input blank DcURL DcTLSMode DcCAPEM]. by left.
      * intros Hne.
        rewrite (bool_decide_eq_false_2 (connID = "")) in * by done. by apply given_typed.
  - eapply triple_out; [apply test_spec|]; [done|]. split; [exact H'|]. by intros ? ? ?.
  - by eapply triple_out; [apply search_spec|].
  - by eapply triple_out; [apply import_spec|].
Qed.

Lemma history_inv ops : ∀ T w w' T', OnInv T w → history ops w T = (w', T') → OnInv T' w'.
Proof using AEL.
  induction ops as [|op ops IH]; intros T w w' T' Hw; cbn; [by intros [= <- <-]|]. apply IH. by apply exec_inv.
Qed.
Lemma empty_inv w : rows w = ∅ → dw_binds w = [] → OnInv [] w.
Proof using Type. intros H1 H2. unfold On. rewrite H1, H2. split; [|constructor]. intros id c Hc. by rewrite lookup_empty in Hc. Qed.

(** C31. A bind password never leaves for another server: in any history of the
    service, every bind that was sent, by a test, a search or an import, used a
    password that an administrator of the same tenant had typed for exactly
    that server, TLS mode and trust anchors. *)
Theorem bind_password_stays ops w0 w T b :
  rows w0 = ∅ → dw_binds w0 = [] → history ops w0 [] = (w, T) → b ∈ dw_binds w →
  (BdTenant b, target_of_params (BdParams b), BdPassword b) ∈ T.
Proof using AEL.
  intros H1 H2 Hh Hb. pose proof (history_inv ops _ _ _ _ (empty_inv w0 H1 H2) Hh) as [_ HB].
  rewrite Forall_forall in HB. by apply HB.
Qed.

(** C35. Every stored connection is one the deployment may use: its URL passes the
    dial policy with the scheme of its TLS mode, plaintext only where the
    configuration allows it, limits between 1 and the ceilings, well-formed
    names and attributes, a base filter in canonical form, and a sealed
    password that opens for this tenant and connection only by the key. *)
Theorem connections_valid ops w0 w T id c :
  rows w0 = ∅ → dw_binds w0 = [] → history ops w0 [] = (w, T) → rows w !! id = Some c →
  DcID c = id ∧
  (∃ ep, CheckURL url_Parse pol (DcURL c) = Ok ep ∧ (EpScheme ep = "ldaps" ↔ DcTLSMode c = "ldaps")) ∧
  (DcTLSMode c = "plain" → CfAllowPlaintext cfg = true) ∧
  (1 <= DcSizeLimit c <= 1000)%Z ∧ (1 <= DcTimeLimitSeconds c <= 60)%Z ∧
  validName (DcName c) = true ∧ validDN (DcBaseDN c) = true ∧ attrNameOK (DcAttrUID c) = true ∧ attrNameOK (DcAttrEmail c) = true ∧
  (String.length (DcBaseFilter c) <= 4096)%nat ∧ canonical_filter (DcBaseFilter c) ∧
  ∃ pw, Decrypt kek (DcBindPasswordEnc c) (sealAD (DcTenantID c) id) = Ok pw.
Proof using AEL.
  intros H1 H2 Hh Hc. pose proof (history_inv ops _ _ _ _ (empty_inv w0 H1 H2) Hh) as [HR _].
  destruct (HR id c Hc) as [Hid [(pw & Hd & _) (V1 & _ & _ & V4 & _ & _ & V7 & V8 & V9 & V10 & V11 & V12)]].
  split; [done|]. unfold checkTarget in V4. destruct (_ <? _)%nat; [done|].
  destruct (CheckURL url_Parse pol (DcURL c)) as [ep|]; [|done]. destruct (negb _) eqn:E1; [done|]. destruct (_ && _) eqn:E2; [done|].
  apply negb_false_iff, eqb_prop in E1. split.
  { exists ep. split; [done|]. rewrite <- (bool_decide_eq_true (EpScheme ep = "ldaps")), E1, bool_decide_eq_true. done. }
  split. { intros Hp. rewrite bool_decide_eq_true_2 in E2 by done. by destruct (CfAllowPlaintext cfg). }
  do 6 (split; [done|]). rewrite <- Hid. split; [|split; [|by exists pw]].
  - destruct V8 as [->|(f & Ht & Hf)]; [simpl; lia|]. by apply CompileUserFilter_Compiled in Hf as [Hl _].
  - destruct V8 as [->|(f & Ht & Hf)]; [by intros ?|]. apply CompileUserFilter_Compiled in Hf as (_ & _ & Hf). by apply Hf.
Qed.
End Passwords.
