(* ===== verification/ImportSafety.v ===== *)
(** * What an import does to the users of a tenant

    Every requested person is accounted for exactly once, and only users with
    status imported are written. *)
From S2P Require Import Prelude GoStrings Base64 Utf8 Regex PermRef TenantCtx Models Password Cache Envelope AuditEvents Session MemStore SessionSafety MemAccounts LdapPolicy LdapFilter AuthzServices Invite LdapEntry MemDirectory Directory DirectoryImport.
#[local] Open Scope list_scope.
#[local] Open Scope go_scope.

Section ImportSafety.
Context {D K : Type} {DN : DirNet D} {KVK : KV K} {AE : AEAD} {FL : FilterLib} {DL : DNLib}.
Context (newID : nat → string) {Hids : Inj (=) (=) newID}.
Context (EqualFold : string → string → bool) (unicode_lower : string → string).
Context (EscapeFilter : string → string) (kek : string) (cfg : DirConfig) (rollback : bool).
Notation W := (DW D K).
Implicit Types (w : W) (s : Store) (c : DirectoryConnection) (r : importRun).

(** ** Accounting *)
Definition uids_of (r : ImportResult) : list string :=
  (ImUID <$> IrCreated r) ++ (ImUID <$> IrUpdated r) ++ (IsUID <$> IrSkipped r) ++ (IsUID <$> IrFailed r).
Definition adds (uid : string) (r r' : importRun) : Prop := uids_of (rnRes r') ≡ₚ uids_of (rnRes r) ++ [uid].

Ltac account := unfold adds, uids_of; cbn; rewrite ?fmap_app; cbn; solve_Permutation.
Lemma adds_skip uid x r : adds uid r (skip uid x r).
Proof using Type. account. Qed.
Lemma adds_fail uid x r : adds uid r (failReason uid x r).
Proof using Type. account. Qed.
Lemma adds_created uid u e r : adds uid r (created_ uid u e r).
Proof using Type. account. Qed.
Lemma adds_updated uid u e r : adds uid r (updated_ uid u e r).
Proof using Type. account. Qed.

(** [m] does not fail and its result satisfies [Q]. *)
Definition yields {A} (m : M W A) (Q : A → Prop) : Prop := ∀ w, ∃ a w', m w = (Ok a, w') ∧ Q a.
Lemma yields_ret {A} (a : A) (Q : A → Prop) : Q a → yields (ret a) Q.
Proof using Type. intros H w. by exists a, w. Qed.
Lemma yields_attempt {A B} (m : M W A) (f : result A → M W B) Q : (∀ x, yields (f x) Q) → yields (bind (attempt m) f) Q.
Proof using Type. intros H w. unfold bind, attempt. destruct (m w) as [[a|e] w1]; apply H. Qed.
Lemma yields_bind {A B} (m : M W A) (f : A → M W B) R Q : yields m R → (∀ a, R a → yields (f a) Q) → yields (bind m f) Q.
Proof using Type. intros Hm Hf w. destruct (Hm w) as (a & w1 & E & Ha). unfold bind. rewrite E. by apply Hf. Qed.
Lemma yields_ignore {A B} (m : M W A) (f : unit → M W B) Q : yields (f tt) Q → yields (bind (ignore m) f) Q.
Proof using Type. intros H w. unfold bind, ignore. destruct (m w) as [[a|e] w1]; apply H. Qed.

Lemma entry_yields a tid c base now h uid r :
  yields (entry newID EqualFold unicode_lower EscapeFilter rollback a tid c base now h uid r) (λ x, adds uid r x.1).
Proof using Type.
  unfold entry. destruct (assertionValue _ _) as [v|]; [|apply yields_ret, adds_skip]. cbv zeta. apply yields_attempt. intros x.
  destruct (closed x) as [page|e]; [|apply yields_ret, adds_fail]. destruct (filter _ _) as [|e0 [|]]; [apply yields_ret, adds_skip| |apply yields_ret, adds_fail].
  destruct (Decode _ _ _) as [p [derr|]]; [apply yields_ret, adds_skip|]. eapply yields_bind with (R := adds uid r); [|intros r' Hr; by apply yields_ret].
  unfold storeEntry. case_bool_decide; [apply yields_ret, adds_skip|]. apply yields_attempt. intros res. apply yields_ret.
  destruct res as [[reason|[user []]]|e]; [apply adds_skip|apply adds_created|apply adds_updated|apply adds_fail].
Qed.
Lemma one_yields a tid c base now connID r (x : sess) uid :
  yields (importOne newID EqualFold unicode_lower EscapeFilter kek rollback a tid c base now connID (r, x) uid) (λ x, adds uid r x.1).
Proof using Type.
  unfold importOne. eapply yields_bind with (R := λ x, x ≠ Dropped).
  { destruct x; [by apply yields_ret| |by apply yields_ret]. apply yields_attempt. intros [h|e]; by apply yields_ret. }
  intros [h| |e] Hs; [|done|apply yields_ret, adds_fail]. eapply yields_bind; [apply entry_yields|]. intros [r' [e|]] Hr; [|by apply yields_ret].
  destruct (keeps_session e); [by apply yields_ret|]. apply yields_ignore. by apply yields_ret.
Qed.
Lemma yields_weaken {A} (m : M W A) (Q Q' : A → Prop) : yields m Q → (∀ a, Q a → Q' a) → yields m Q'.
Proof using Type. intros H HQ w. destruct (H w) as (a & w' & E & Ha). exists a, w'. auto. Qed.
Lemma fold_yields a tid c base now connID uids : ∀ st,
  yields (fold_each uids st (importOne newID EqualFold unicode_lower EscapeFilter kek rollback a tid c base now connID))
    (λ x, uids_of (rnRes x.1) ≡ₚ uids_of (rnRes st.1) ++ uids).
Proof using Type.
  induction uids as [|u uids IH]; intros [r x]; [apply yields_ret; by rewrite app_nil_r|]. cbn [fold_each].
  eapply yields_bind; [apply one_yields|]. intros [r' x'] Hr. cbn [fst] in Hr. eapply yields_weaken; [apply IH|].
  intros y Hy. cbn [fst] in *. rewrite Hy. unfold adds in Hr. rewrite Hr, <- app_assoc. done.
Qed.

Lemma any_triple {A} (P : W → Prop) (m : M W A) : triple P m (λ _ _, True) (λ _, True).
Proof using Type. intros w _. by destruct (m w) as [[a|e] w']. Qed.
Lemma fails_triple {A B} (P : W → Prop) (m : M W A) e (Q : B → W → Prop) : triple P (bind m (λ _, throw e)) Q (λ _, True).
Proof using Type. intros w _. unfold bind. by destruct (m w) as [[a|e'] w']. Qed.
Lemma yields_triple {A} (m : M W A) (Q : A → Prop) (P : W → Prop) : yields m Q → triple P m (λ a _, Q a) (λ _, True).
Proof using Type. intros H w _. destruct (H w) as (a & w' & -> & Ha). exact Ha. Qed.
Lemma triple_pure_l {A} (F : Prop) (m : M W A) Q E : (F → triple (λ _, True) m Q E) → triple (λ _, F) m Q E.
Proof using Type. intros Hm w HF. by apply Hm. Qed.

(** Every requested directory id is reported exactly once, as created, updated,
    skipped or failed: an import that got as far as a session always returns,
    whatever the directory answers, and none of its entries is lost. *)
Theorem import_accounts a tid connID uids w res w' :
  Import newID EqualFold unicode_lower EscapeFilter kek cfg rollback a tid connID uids w = (Ok res, w') →
  uids_of res ≡ₚ uids ∧ NoDup uids ∧ (0 < length uids <= 500)%nat.
Proof using Type.
  unfold Import. destruct (validUIDs uids) eqn:Ev; [|done]. cbn [negb]. intros H.
  assert (V : NoDup uids ∧ (0 < length uids <= 500)%nat).
  { unfold validUIDs, MaxImportUIDs in Ev. nat_prop. destruct uids; [done|]. cbn [length] in *. split; [done|]. lia. }
  split; [|exact V]. clear V Ev. revert H. set (m := bind _ _).
  cut (triple (λ _, True) m (λ x _, uids_of x ≡ₚ uids) (λ _, True)).
  { intros Hm E. specialize (Hm w I). by rewrite E in Hm. }
  unfold m. clear. eapply triple_bind; [apply any_triple|]. intros c. destruct (usable cfg c) as [?|e]; [|apply fails_triple].
  eapply triple_bind; [apply any_triple|]. intros base. eapply triple_bind; [apply any_triple|].
  intros [?|e]; [|apply fails_triple]. eapply triple_bind; [apply any_triple|]. intros pw.
  eapply triple_bind; [apply any_triple|]. intros [h|e]; [|apply fails_triple]. eapply triple_bind; [apply any_triple|]. intros now.
  eapply triple_bind; [eapply yields_triple, fold_yields|]. intros out.
  apply (triple_pure_l (uids_of (rnRes out.1) ≡ₚ uids)). intros Hout.
  eapply triple_bind; [apply any_triple|]. intros ?. eapply triple_bind; [apply any_triple|]. intros ?. by apply triple_ret.
Qed.

(** ** Which users are written *)
(** User ids are unique, and ids still to be drawn are not in use. *)
Record UI w : Prop := mkUI {
  uq_ids : ∀ k k' u u', Users (dw_st w) !! k = Some u → Users (dw_st w) !! k' = Some u' → UID u = UID u' → k = k';
  uq_fresh : ∀ k u n, Users (dw_st w) !! k = Some u → (dw_ids w <= n)%nat → UID u ≠ newID n;
}.
(** Accounts that are not imported stay as they are; a new or changed row is an
    imported user of the tenant; imported users get no secret; no other table
    but the links changes. *)
Record imported_only (tid : string) s s' : Prop := mkImportedOnly {
  io_kept : ∀ k u, Users s !! k = Some u → UStatus u ≠ "imported" → Users s' !! k = Some u;
  io_new : ∀ k u, Users s' !! k = Some u → Users s !! k = Some u ∨ (UStatus u = "imported" ∧ UTenantID u = tid);
  io_secret : (∀ k u, Users s !! k = Some u → UStatus u = "imported" → UPasswordHash u = None ∧ UMFASecretEnc u = None) →
              ∀ k u, Users s' !! k = Some u → UStatus u = "imported" → UPasswordHash u = None ∧ UMFASecretEnc u = None;
  io_rest : s' = set_dir (set_Users s (Users s')) (conns s) (links s');
}.
Definition Writes (tid : string) {A} (m : M W A) : Prop :=
  ∀ w, UI w → UI (m w).2 ∧ imported_only tid (dw_st w) (dw_st (m w).2).

Lemma imported_only_refl tid s : imported_only tid s s.
Proof using Type. split; [done|by left|done|by destruct s]. Qed.
Lemma imported_only_trans tid s1 s2 s3 : imported_only tid s1 s2 → imported_only tid s2 s3 → imported_only tid s1 s3.
Proof using Type.
  intros [A1 A2 A3 A4] [B1 B2 B3 B4]. split.
  - intros k u Hu Hs. apply B1; [|done]. by apply A1.
  - intros k u Hu. destruct (B2 k u Hu) as [H|H]; [|by right]. by apply A2.
  - intros H. by apply B3, A3.
  - rewrite B4, A4. done.
Qed.
Lemma UI_same w w' : dw_st w' = dw_st w → (dw_ids w <= dw_ids w')%nat → UI w → UI w'.
Proof using Type. intros H1 H2 [I1 I2]. split; rewrite H1; [done|]. intros k u n Hu Hn. apply (I2 k u n Hu). lia. Qed.
(** Steps that leave the store alone. *)
Definition still {A} (m : M W A) : Prop := ∀ w, dw_st (m w).2 = dw_st w ∧ (dw_ids w <= dw_ids (m w).2)%nat.
Lemma still_writes tid {A} (m : M W A) : still m → Writes tid m.
Proof using Type. intros H w Hw. destruct (H w) as [H1 H2]. rewrite H1. split; [by eapply UI_same|apply imported_only_refl]. Qed.
Lemma still_bind {A B} (m : M W A) (f : A → M W B) : still m → (∀ a, still (f a)) → still (bind m f).
Proof using Type.
  intros Hm Hf w. unfold bind. destruct (Hm w) as [H1 H2]. destruct (m w) as [[a|e] w']; [|done]. cbn in *.
  destruct (Hf a w') as [H3 H4]. split; [congruence|lia].
Qed.
Lemma still_attempt {A} (m : M W A) : still m → still (attempt m).
Proof using Type. intros Hm w. unfold attempt. specialize (Hm w). by destruct (m w) as [[a|e] w']. Qed.
Lemma still_ignore {A} (m : M W A) : still m → still (ignore m).
Proof using Type. intros Hm w. unfold ignore. specialize (Hm w). by destruct (m w) as [[a|e] w']. Qed.
Lemma still_net {A} (m : M D A) : still (netM (K := K) m).
Proof using Type. intros w. unfold netM. by destruct (m (dw_net w)). Qed.
Lemma still_read {A} (m : M Store A) : (∀ s, (m s).2 = s) → still (dstM m).
Proof using Type. intros Hm w. unfold dstM. specialize (Hm (dw_st w)). destruct (m (dw_st w)). cbn in *. by subst. Qed.
Lemma still_id : still (dNewID newID).
Proof using Type. intros w. cbn. split; [done|lia]. Qed.
Lemma still_allow tid : still (allow cfg tid).
Proof using Type.
  intros w. unfold allow. destruct (dw_cache w) as [k|]; [|done]. destruct (_ <=? _)%Z; [done|].
  destruct (Count _ _ _ _) as [[n|e] k']; [|done]. by destruct (_ <? _)%Z.
Qed.
Lemma still_dbind h c pw : still (dBind h c pw).
Proof using Type. intros w. unfold dBind. match goal with |- context [netM _ ?x] => exact (still_net (dn_bind h (DcBindDN c) pw) x) end. Qed.

Lemma writes_bind tid {A B} (m : M W A) (f : A → M W B) : Writes tid m → (∀ a, Writes tid (f a)) → Writes tid (bind m f).
Proof using Type.
  intros Hm Hf w Hw. unfold bind. destruct (Hm w Hw) as [H1 H2]. destruct (m w) as [[a|e] w']; [|done]. cbn in *.
  destruct (Hf a w' H1) as [H3 H4]. split; [done|]. by eapply imported_only_trans.
Qed.
Lemma writes_attempt tid {A} (m : M W A) : Writes tid m → Writes tid (attempt m).
Proof using Type. intros Hm w Hw. unfold attempt. specialize (Hm w Hw). by destruct (m w) as [[a|e] w']. Qed.
Lemma writes_atomic tid {A} (m : M W A) : Writes tid m → (∀ w, (dw_ids w <= dw_ids (m w).2)%nat) → Writes tid (dirAtomic rollback m).
Proof using Type.
  intros Hm Hn w Hw. unfold dirAtomic. specialize (Hm w Hw). specialize (Hn w). destruct (m w) as [[a|e] w']; [done|].
  destruct rollback; [|done]. cbn in *. split; [|apply imported_only_refl]. by eapply UI_same; [| |exact Hw].
Qed.
Lemma writes_fold tid {A B} (l : list A) (f : B → A → M W B) : (∀ b x, Writes tid (f b x)) → ∀ b, Writes tid (fold_each l b f).
Proof using Type.
  intros Hf. induction l as [|x l IH]; intros b; [by apply still_writes|]. apply writes_bind; [apply Hf|apply IH].
Qed.
End ImportSafety.

Ltac still_step :=
  match goal with
  | |- still (bind _ _) => apply still_bind; [|intros ?]
  | |- still (attempt _) => apply still_attempt
  | |- still (ignore _) => apply still_ignore
  | |- still (netM _) => apply still_net
  | |- still (dBind _ _ _) => apply still_dbind
  | |- still (allow _ _) => apply still_allow
  | |- still (dNewID _) => apply still_id
  | |- still (dstM _) => apply still_read; intros ?
  | |- still (match ?x with _ => _ end) => destruct x
  | |- still _ => intros ?; done
  end.

Section Accounts.
Context {D K : Type} {DN : DirNet D} {KVK : KV K} {AE : AEAD} {FL : FilterLib} {DL : DNLib}.
Context (newID : nat → string) {Hids : Inj (=) (=) newID}.
Context (EqualFold : string → string → bool) (unicode_lower : string → string).
Context (EscapeFilter : string → string) (kek : string) (cfg : DirConfig) (rollback : bool).
Notation W := (DW D K).
Notation Writes := (Writes (D := D) (K := K) newID).
Implicit Types (w : W) (s : Store) (c : DirectoryConnection).

Lemma set_users_rest s U : set_Users s U = set_dir (set_Users s (Users (set_Users s U))) (conns s) (links (set_Users s U)).
Proof using Type. by destruct s. Qed.
Lemma set_dir_rest s L : set_dir s (conns s) L = set_dir (set_Users s (Users (set_dir s (conns s) L))) (conns s) (links (set_dir s (conns s) L)).
Proof using Type. by destruct s. Qed.

Lemma writes_link tid l : Writes tid (dstM (UpsertLink l)).
Proof using Type.
  assert (F : ∀ s, ∃ L, (UpsertLink l s).2 = set_dir s (conns s) L).
  { intros s. assert (E : s = set_dir s (conns s) (links s)) by (by destruct s). unfold UpsertLink.
    destruct (userByID _ _ _); [|by exists (links s)]. cbv zeta. destruct (DlConnectionID l); [|by eexists].
    destruct (conns s !! _); [|by exists (links s)]. destruct (existsb _ _); [by exists (links s)|by eexists]. }
  intros w Hw. unfold dstM. destruct (F (dw_st w)) as [L HL]. destruct (UpsertLink l (dw_st w)) as [r s']. cbn in *. subst s'. split.
  - destruct Hw as [I1 I2]. by split.
  - split; [done|by left|done|apply set_dir_rest].
Qed.

Lemma userKey_Some s tid uid k u : userKey s tid uid = Some (k, u) → Users s !! k = Some u ∧ UTenantID u = tid ∧ UID u = uid.
Proof using Type. intros [Hin Hp]%find_first_Some. cbn in Hp. bool_prop. by apply elem_of_map_to_list in Hin. Qed.

Lemma move_user tid w k u nk p : UI newID w → Users (dw_st w) !! k = Some u → UTenantID u = tid → UStatus u = "imported" →
  (∀ o, Users (dw_st w) !! nk = Some o → UID o = UID u) →
  let s' := set_Users (dw_st w) (<[nk := with_profile p u]> (delete k (Users (dw_st w)))) in
  UI newID (mkDW s' (dw_cache w) (dw_net w) (dw_audit w) (dw_now w) (dw_entropy w) (dw_ids w) (dw_binds w)) ∧ imported_only tid (dw_st w) s'.
Proof using Type.
  intros [I1 I2] Hu Ht Hs Ho s'. assert (Hk : ∀ k' x, Users s' !! k' = Some x →
    (k' = nk ∧ x = with_profile p u) ∨ (k' ≠ nk ∧ k' ≠ k ∧ Users (dw_st w) !! k' = Some x)).
  { intros k' x. unfold s'. cbn. intros [[<- <-]|[Hn [Hn' Hx]%lookup_delete_Some]]%lookup_insert_Some; [by left|]. right. done. }
  split; split.
  - cbn. intros k1 k2 u1 u2 H1 H2 E. destruct (Hk k1 u1 H1) as [[-> ->]|(N1 & N1' & X1)], (Hk k2 u2 H2) as [[-> ->]|(N2 & N2' & X2)]; [done| | |by eapply I1].
    + exfalso. apply N2'. by apply (I1 k2 k u2 u).
    + exfalso. apply N1'. by apply (I1 k1 k u1 u).
  - cbn. intros k1 u1 n H1 Hn. destruct (Hk k1 u1 H1) as [[-> ->]|(_ & _ & X1)]; [by apply (I2 k u)|by eapply I2].
  - intros k1 u1 H1 Hne. destruct (decide (k1 = nk)) as [->|N].
    + assert (nk = k) as ->. { apply (I1 nk k u1 u); [done|done|by apply Ho]. } congruence.
    + unfold s'. cbn. rewrite lookup_insert_ne by done. rewrite lookup_delete_ne; [done|]. intros <-. congruence.
  - intros k1 u1 H1. destruct (Hk k1 u1 H1) as [[-> ->]|(_ & _ & X1)]; [right|by left]. split; [done|exact Ht].
  - intros Hsec k1 u1 H1 Hi. destruct (Hk k1 u1 H1) as [[-> ->]|(_ & _ & X1)]; [by apply (Hsec k u)|by apply (Hsec k1 u1)].
  - apply set_users_rest.
Qed.
Lemma writes_update tid uid p : Writes tid (dstM (UpdateImportedUser unicode_lower tid uid p)).
Proof using Type.
  intros w Hw. unfold dstM, UpdateImportedUser. assert (Hsame : UI newID w ∧ imported_only tid (dw_st w) (dw_st w)) by (split; [done|apply imported_only_refl]).
  destruct (userKey (dw_st w) tid uid) as [[k u]|] eqn:E; [|by destruct w]. apply userKey_Some in E as (Hu & Ht & Hid).
  destruct (bool_decide (UStatus u = "imported")) eqn:Es; [|by destruct w]. bool_prop. cbn [negb]. cbv zeta.
  destruct (Users (dw_st w) !! user_key unicode_lower tid (IpfEmail p)) as [o|] eqn:Eo.
  - destruct (bool_decide (UID o = uid)) eqn:Eq; [|by destruct w]. bool_prop. cbn. apply (move_user tid w k u); try done. intros o' Ho'. congruence.
  - cbn. apply (move_user tid w k u); try done. intros o' Ho'. congruence.
Qed.

Lemma insert_world tid w u : UI newID w → UTenantID u = tid → UStatus u = "imported" → UPasswordHash u = None → UMFASecretEnc u = None →
  (∀ k o, Users (dw_st w) !! k = Some o → UID o ≠ UID u) → (∀ n, (dw_ids w <= n)%nat → UID u ≠ newID n) →
  let w' := (dstM (InsertUser unicode_lower u) w).2 in UI newID w' ∧ imported_only tid (dw_st w) (dw_st w').
Proof using Type.
  intros [I1 I2] Ht Hs Hp Hm Hu Hn. unfold dstM, InsertUser. destruct (Users (dw_st w) !! _) as [o|] eqn:E; cbn zeta.
  { split; [|apply imported_only_refl]. by split. }
  cbn [snd dw_st]. split; split.
  - cbn. intros k1 k2 u1 u2 [[<- <-]|[_ X1]]%lookup_insert_Some [[<- <-]|[_ X2]]%lookup_insert_Some Eu; [done| | |by eapply I1].
    + exfalso. by apply (Hu k2 u2 X2).
    + exfalso. by apply (Hu k1 u1 X1).
  - cbn. intros k1 u1 m [[<- <-]|[_ X1]]%lookup_insert_Some Hn'; [by apply Hn|by apply (I2 k1 u1 m X1)].
  - intros k1 u1 X1 Hne. cbn. rewrite lookup_insert_ne; [done|]. intros <-. congruence.
  - intros k1 u1. cbn. intros [[<- <-]|[_ X1]]%lookup_insert_Some; [by right|by left].
  - intros Hsec k1 u1. cbn. intros [[<- <-]|[_ X1]]%lookup_insert_Some; [done|]. by apply (Hsec k1 u1).
  - apply set_users_rest.
Qed.
Lemma writes_insert tid p {B} (f : string → result unit → M W B) : (∀ id x, Writes tid (f id x)) →
  Writes tid (bind (dNewID newID) (λ id, bind (attempt (dstM (InsertUser unicode_lower (newUser tid id p)))) (f id))).
Proof using Hids.
  intros Hf w Hw. set (n := dw_ids w). set (w1 := mkDW (dw_st w) (dw_cache w) (dw_net w) (dw_audit w) (dw_now w) (dw_entropy w) (S n) (dw_binds w)).
  assert (H1 : UI newID w1) by (eapply UI_same; [| |exact Hw]; [done|cbn; lia]).
  destruct (insert_world tid w1 (newUser tid (newID n) p) H1) as [X1 X2]; [done|done|done|done| | |].
  { intros k o Ho. by apply (uq_fresh _ _ Hw k o n). }
  { intros m Hm Em%Hids. cbn in Hm. lia. }
  change (bind (dNewID newID) _ w) with (bind (attempt (dstM (InsertUser unicode_lower (newUser tid (newID n) p)))) (f (newID n)) w1).
  unfold bind, attempt. destruct (dstM _ w1) as [r w2]. cbn [snd] in X1, X2. assert (Y : ∀ x, UI newID (f (newID n) x w2).2 ∧ imported_only tid (dw_st w) (dw_st (f (newID n) x w2).2)).
  { intros x. destruct (Hf (newID n) x w2 X1) as [A B']. split; [exact A|]. by eapply imported_only_trans. }
  destruct r as [[]|e]; apply Y.
Qed.

Ltac writes_step :=
  match goal with
  | |- Writes _ (dstM (UpsertLink _)) => apply writes_link
  | |- Writes _ (dstM (UpdateImportedUser _ _ _ _)) => apply writes_update
  | |- Writes _ (bind (dNewID _) _) => apply writes_insert; intros ? ?
  | |- Writes _ (bind _ _) => apply writes_bind; [|intros ?]
  | |- Writes _ (attempt _) => apply writes_attempt
  | |- Writes _ (fold_each _ _ _) => apply writes_fold; intros ? ?
  | |- Writes _ (match ?x with _ => _ end) => destruct x
  | |- Writes _ _ => apply still_writes; repeat still_step; try done
  end.
Lemma writes_write a tid c now p : Writes tid (write newID EqualFold unicode_lower a tid c now p).
Proof using Hids.
  unfold write, refresh. repeat writes_step; unfold UserRow, UserByEmail; by repeat case_match.
Qed.
Definition grows {A} (m : M W A) : Prop := ∀ w, (dw_ids w <= dw_ids (m w).2)%nat.
Lemma grows_bind {A B} (m : M W A) (f : A → M W B) : grows m → (∀ a, grows (f a)) → grows (bind m f).
Proof using Type.
  intros Hm Hf w. unfold bind. specialize (Hm w). destruct (m w) as [[a|e] w']; [|done]. cbn in Hm. specialize (Hf a w'). lia.
Qed.
Lemma grows_attempt {A} (m : M W A) : grows m → grows (attempt m).
Proof using Type. intros Hm w. unfold attempt. specialize (Hm w). by destruct (m w) as [[a|e] w']. Qed.
Lemma grows_st {A} (m : M Store A) : grows (dstM m).
Proof using Type. intros w. unfold dstM. by destruct (m (dw_st w)). Qed.
Lemma ids_write a tid c now p : grows (write newID EqualFold unicode_lower a tid c now p).
Proof using Type.
  unfold write, refresh.
  repeat first [apply grows_st|apply grows_attempt|apply grows_bind; [|intros ?]
    |match goal with |- grows (match ?x with _ => _ end) => destruct x end|intros ?; cbn; lia].
Qed.
Lemma writes_entry a tid c base now h uid r :
  Writes tid (entry newID EqualFold unicode_lower EscapeFilter rollback a tid c base now h uid r).
Proof using Hids.
  unfold entry, storeEntry. repeat first [apply writes_atomic; [apply writes_write|apply ids_write]|writes_step].
Qed.
Lemma still_open c pw : still (openBound (K := K) c pw).
Proof using Type. unfold openBound. repeat still_step. Qed.
Lemma writes_one a tid c base now connID st uid :
  Writes tid (importOne newID EqualFold unicode_lower EscapeFilter kek rollback a tid c base now connID st uid).
Proof using Hids.
  unfold importOne. destruct st as [r x]. apply writes_bind; [|intros [h| |e]].
  - apply still_writes. repeat first [apply still_open|still_step].
  - apply writes_bind; [apply writes_entry|]. intros [r' [e|]]; repeat writes_step.
  - by apply still_writes.
  - by apply still_writes.
Qed.
Lemma still_lookup a tid id : still (dirLookup (D := D) (K := K) a tid id).
Proof using Type.
  unfold dirLookup, GetDirectoryConnection, GetDirectoryConnectionAnyTenant.
  repeat still_step; by repeat case_match.
Qed.
Lemma still_refused typ tid a id e : still (refused (D := D) (K := K) typ tid a id e).
Proof using Type. unfold refused. by case_bool_decide. Qed.

(** C33. An import leaves every account that is not imported as it is, whatever the
    directory answers; the rows it adds or changes are imported users of the
    tenant of the caller, never with a password or a second factor; and no
    table but users and links changes. *)
Theorem import_keeps_accounts a tid connID uids w :
  UI newID w →
  let w' := (Import newID EqualFold unicode_lower EscapeFilter kek cfg rollback a tid connID uids w).2 in
  UI newID w' ∧ imported_only tid (dw_st w) (dw_st w').
Proof using Hids.
  revert w. change (Writes tid (Import newID EqualFold unicode_lower EscapeFilter kek cfg rollback a tid connID uids)).
  unfold Import. destruct (negb (validUIDs uids)); [by apply still_writes|].
  repeat first [apply writes_one|apply still_writes; first [apply still_lookup|apply still_open|apply still_refused]|writes_step].
Qed.
End Accounts.
