(* ===== verification/DirectoryRuns.v ===== *)
(** * Concrete directory runs

    A directory over LDAPS that answers every call: the witnesses of
    DirectorySafety and ImportSafety, and two updates of one connection that
    pair a password with a server it was not typed for. *)
From S2P Require Import Prelude GoStrings Base64 Utf8 Regex PermRef TenantCtx Models Password Cache Envelope AuditEvents Session MemStore SessionSafety SessionRuns MemAccounts LdapPolicy LdapFilter AuthzServices Invite LdapEntry MemDirectory Directory DirectoryImport DirectorySafety ImportSafety.
#[local] Open Scope list_scope.
#[local] Open Scope go_scope.

#[local] Existing Instance toyAEAD.
#[local] Existing Instance toyAEAD_laws.
#[local] Existing Instance toy_filters.
#[local] Existing Instance toy_dn.

(** ** A directory of one person *)
Definition adaEntry : RawEntry :=
  mkRawEntry "cn=ada,dc=example" (list_to_map [("entryuuid", ["ada-1"]); ("mail", ["Ada@X.org"]); ("cn", ["Ada"])]).
#[local] Instance oneNet : DirNet unit := {|
  dn_open _ := ret 1%nat;
  dn_tls _ := ret (Some (true, mkTLSInfo "TLS 1.3" "CN=dir"));
  dn_bind _ _ _ := ret tt;
  dn_base _ _ := ret tt;
  dn_search _ _ := ret (mkPage [adaEntry] false 0);
  dn_close _ := ret tt |}.

Definition DT : string := "00000000-0000-4000-8000-000000000001".
Definition CID : string := "00000000-0000-4000-8000-00000000000c".
Definition dirID (n : nat) : string := match n with O => CID | S n => "u-" +:+ seqID n end.
#[local] Instance dirID_inj : Inj (=) (=) dirID.
Proof. intros [|n] [|m]; cbn [dirID]; [done| | |]; [discriminate|discriminate|]. intros [= E]. f_equal. by apply seqID_inj. Qed.

Definition dirPol : TargetPolicy := match NewTargetPolicy demo_targets with Ok p => p | Err _ => mkTargetPolicy [] [] [] end.
Definition dirCfg : DirConfig := mkDirConfig false 1000 (60 * Dur.second) 0 0.
Definition admin : Actor := mkActor KindUser "admin" DT "s" ["admin"] ["pwd"] "" "" "".
Definition noPem : string → option (string * string * string) := λ _, None.
Definition exactEq (a b : string) : bool := bool_decide (a = b).
Definition input (url pw : string) : DirInput :=
  mkDirInput (Some "Main") (Some "openldap") (Some url) (Some "ldaps") None None (Some "cn=svc,dc=example") (Some pw) (Some "dc=example")
    (Some "(mail=*)") None None None.
Definition oldURL : string := "ldaps://[2001:db8::7]".
Definition newURL : string := "ldaps://[2001:db8::8]".

(** One active account; nothing of the directory yet. *)
Definition eve : User := mkUser "eve" DT "eve@x.org" "Eve" "active" (Some "hash") false None 0 None None "" "" false.
Definition storeD : Store :=
  mkStore ∅ {[user_key id DT "eve@x.org" := eve]} ∅ [] ∅ ∅ ∅ ∅ ∅ ∅ ∅ ∅ ∅ [] ∅ ∅ ∅ ∅ [] ∅ ∅ ∅ ∅.
Definition d0 : DW unit Memory :=
  mkDW storeD None tt [] 100 ["e1"; "e2"; "e3"; "e4"; "e5"; "e6"; "e7"; "e8"; "e9"] 0 [].
#[local] Notation history := (history dirID exactEq id id "K" demo_parse noPem (λ _, false) dirPol dirCfg true).
Definition save : dirOp := OpCreate admin DT (input oldURL "hunter2").
Definition d1 : DW unit Memory := (history [save] d0 []).1.
Definition d2 : DW unit Memory := (history [save; OpTestSaved admin DT CID] d0 []).1.
Definition typed2 : list typing := (history [save; OpTestSaved admin DT CID] d0 []).2.

Lemma d2_history : history [save; OpTestSaved admin DT CID] d0 [] = (d2, typed2).
Proof. apply surjective_pairing. Qed.

Lemma bind_password_stays_witness :
  typed2 = [(DT, (oldURL, "ldaps", ""), "hunter2")] ∧
  match dw_binds d2 with [b] => (BdTenant b, target_of_params (BdParams b), BdPassword b) ∈ typed2 | _ => False end.
Proof.
  split; [vm_compute; reflexivity|]. destruct (dw_binds d2) as [|b [|]] eqn:E; [vm_compute in E; discriminate| |vm_compute in E; discriminate].
  refine (bind_password_stays dirID exactEq id id "K" demo_parse noPem (λ _, false) dirPol dirCfg true
    [save; OpTestSaved admin DT CID] d0 d2 typed2 b eq_refl eq_refl d2_history _).
  rewrite E. by left.
Defined.

Lemma connections_valid_witness :
  (DcURL <$> rows d2 !! CID) = Some oldURL ∧
  match rows d2 !! CID with
  | Some c => DcID c = CID ∧ (1 <= DcSizeLimit c <= 1000)%Z ∧ ∃ pw, Decrypt "K" (DcBindPasswordEnc c) (sealAD DT CID) = Ok pw
  | None => False
  end.
Proof.
  assert (U : (DcURL <$> rows d2 !! CID) = Some oldURL) by (vm_compute; reflexivity).
  assert (X : (DcTenantID <$> rows d2 !! CID) = Some DT) by (vm_compute; reflexivity).
  split; [exact U|]. destruct (rows d2 !! CID) as [c|] eqn:E; [|discriminate]. injection X as <-.
  pose proof (connections_valid dirID exactEq id id "K" demo_parse noPem (λ _, false) dirPol dirCfg true
    [save; OpTestSaved admin DT CID] d0 d2 typed2 CID c eq_refl eq_refl d2_history E) as (Hid & _ & _ & Hs & _ & _ & _ & _ & _ & _ & _ & Hp).
  exact (conj Hid (conj Hs Hp)).
Defined.

(** ** Importing Ada; the second id answers with the same entry *)
Definition people : list string := ["ada-1"; "ada-2"].
#[local] Notation import w := (Import (D:=unit) (K:=Memory) dirID exactEq id id "K" dirCfg true admin DT CID people w).
Definition imported : ImportResult := match (import d2).1 with Ok r => r | Err _ => noResult end.
Definition d3 : DW unit Memory := (import d2).2.
Lemma d3_import : import d2 = (Ok imported, d3).
Proof. unfold imported, d3. destruct (import d2) as [[r|e] w] eqn:E; [done|]. exfalso. apply (f_equal (λ x, is_ok x.1)) in E. vm_compute in E. discriminate. Qed.

Lemma import_accounts_witness :
  (ImUserID <$> IrCreated imported, length (IrSkipped imported)) = (["u-a"], 1%nat) ∧ uids_of imported ≡ₚ people.
Proof.
  split; [vm_compute; reflexivity|].
  exact (proj1 (import_accounts dirID exactEq id id "K" dirCfg true admin DT CID people d2 imported d3 d3_import)).
Defined.

Lemma d2_UI : UI dirID d2.
Proof.
  assert (HU : Users (dw_st d2) = {[user_key id DT "eve@x.org" := eve]}) by (vm_compute; reflexivity).
  split; rewrite HU.
  - by intros k k' u u' [<- <-]%lookup_singleton_Some [<- <-]%lookup_singleton_Some.
  - by intros k u [|n] [<- <-]%lookup_singleton_Some _.
Qed.
Lemma import_keeps_accounts_witness :
  size (Users (dw_st d3)) = 2%nat ∧ Users (dw_st d3) !! user_key id DT "eve@x.org" = Some eve.
Proof.
  split; [vm_compute; reflexivity|].
  refine (io_kept DT _ _ (proj2 (import_keeps_accounts dirID exactEq id id "K" dirCfg true admin DT CID people d2 d2_UI)) _ eve _ _).
  - vm_compute. reflexivity.
  - discriminate.
Defined.

(** ** Two updates at once *)
(** An administrator moves the connection to a new server with a new password
    while another, who read the row before, only renames it.  The rename keeps
    the stored ciphertext and writes the URL it read: the next test sends the
    new password to the old server, for which nobody typed it. *)
Definition moved : DirInput := mkDirInput None None (Some newURL) None None None None (Some "swordfish") None None None None None.
Definition renamed : DirInput := mkDirInput (Some "Head office") None None None None None None None None None None None None.
Definition typed3 : list typing := (history [save; OpUpdate admin DT CID moved] d0 []).2.
Definition raced : M (DW unit Memory) TestResult :=
  stale <- dstM (GetDirectoryConnection DT CID) ;;
  Update exactEq "K" demo_parse noPem (λ _, false) dirPol dirCfg admin DT CID moved ;;;
  update_from exactEq "K" demo_parse noPem (λ _, false) dirPol dirCfg admin DT CID stale renamed ;;;
  TestSaved "K" demo_parse noPem (λ _, false) dirPol dirCfg admin DT CID.
Theorem update_race :
  match raced d1 with
  | (Ok res, w) =>
      TrOK res = true ∧
      (λ b, (CpURL (BdParams b), BdPassword b)) <$> dw_binds w = [(oldURL, "swordfish")] ∧
      (DT, (oldURL, "ldaps", ""), "swordfish") ∉ typed3
  | (Err _, _) => False
  end.
Proof.
  destruct (raced d1) as [[res|e] w] eqn:E.
  - assert (E' : (λ x : result TestResult * DW unit Memory, (is_ok x.1, (λ b, (CpURL (BdParams b), BdPassword b)) <$> dw_binds x.2)) (raced d1) = (true, [(oldURL, "swordfish")]))
      by (vm_compute; reflexivity). rewrite E in E'. cbn in E'. injection E' as E'.
    assert (E2 : (match (raced d1).1 with Ok r => TrOK r | Err _ => false end) = true) by (vm_compute; reflexivity).
    rewrite E in E2. split; [exact E2|]. split; [exact E'|]. apply (bool_decide_unpack _). vm_compute. exact I.
  - apply (f_equal (λ x, is_ok x.1)) in E. vm_compute in E. discriminate.
Qed.
