(* ===== verification/Admin.v ===== *)
(** * Account administration and password change (internal/user/admin.go,
    internal/password/change.go)

    Administrators act on the accounts of their tenant; users change their own
    password.  Both services share the world of the session manager over the
    in-memory store. *)
From S2P Require Import Prelude GoStrings Base64 Utf8 Regex PermRef TenantCtx Models Password Cache Envelope AuditEvents Session MemStore SessionSafety Mfa MfaSafety Outbox Tenants Signin MemAccounts Recovery.
From S2P Require Import MemRoles Invite MemDirectory.
#[local] Open Scope list_scope.
#[local] Open Scope go_scope.

Definition ErrInvalidState : err := ErrText "invalid_state".
Definition ErrCurrent : err := ErrText "invalid_credentials".

(** The more privileged of the built-in roles; the others rank lowest. *)
Definition rank (roles : list string) : Z := foldl (λ best r,
  if bool_decide (r = "operator") && (best <? 3)%Z then 3%Z
  else if bool_decide (r = "owner") && (best <? 2)%Z then 2%Z
  else if bool_decide (r = "admin") && (best <? 1)%Z then 1%Z else best) 0%Z roles.

Section Admin.
Context {K : Type} {KVK : KV K} {A2 : Argon2}.
Notation W := (Manager Store K).

Definition adminEvent (typ : string) (a : Actor) (outcome reason uid : string) (d : Details) : Event :=
  mkEvent typ (ATenantID a) (kind_string (AKind a)) (AUserID a) "user" uid outcome reason d.

(** A hit in another tenant is audited and still not found. *)
Definition lookup (a : Actor) (uid : string) : M W User :=
  r <- attempt (storeM (UserRow (ATenantID a) uid)) ;;
  match r with
  | Ok u => ret u
  | Err e =>
      (if bool_decide (e = ErrNotFound) && ValidTenantID uid
       then o <- attempt (storeM (UserAnyTenant uid)) ;;
            match o with
            | Ok other => if bool_decide (UTenantID other = ATenantID a) then ret tt
                          else emit (adminEvent CrossTenantRefused a "refused" "foreign_user" uid [("target_tenant", UTenantID other : detail)])
            | Err _ => ret tt
            end
       else ret tt) ;;;
      throw ErrNotFound
  end.

Definition isLastOwner (tid uid : string) : M W bool :=
  roles <- storeM (ss_roles tid uid) ;;
  if negb (bool_decide ("owner" ∈ roles)) then ret false else
  n <- storeM (CountWithRole tid "owner") ;;
  ret (n <=? 1)%Z.

Definition Deactivate (ctx : Ctx) (a : Actor) (uid : string) : M W unit :=
  u <- lookup a uid ;;
  if bool_decide (UStatus u = "imported") then throw ErrInvalidState else
  last <- isLastOwner (ATenantID a) uid ;;
  if last : bool then emit (adminEvent UserDeactivated a "refused" "last_owner" uid []) ;;; throw ErrLastOwner else
  (if bool_decide (UStatus u = "deactivated") then ret tt else storeM (UpdateUserStatus (ATenantID a) uid "deactivated")) ;;;
  RevokeUser ctx (ATenantID a) uid ReasonDeactivated "" ;;;
  emit (adminEvent UserDeactivated a "ok" "" uid []).

Definition Reactivate (a : Actor) (uid : string) : M W unit :=
  u <- lookup a uid ;;
  if bool_decide (UStatus u = "imported") then throw ErrInvalidState else
  if negb (bool_decide (UStatus u = "deactivated")) then ret tt else
  storeM (UpdateUserStatus (ATenantID a) uid "active") ;;;
  emit (adminEvent UserReactivated a "ok" "" uid []).

Definition RemoveImported (a : Actor) (uid : string) : M W unit :=
  u <- lookup a uid ;;
  if negb (bool_decide (UStatus u = "imported")) then throw ErrInvalidState else
  r <- attempt (storeM (DeleteImportedUser (ATenantID a) uid)) ;;
  match r with
  | Ok _ => emit (adminEvent ImportedUserDeleted a "ok" "" uid [])
  | Err e => throw (if bool_decide (e = ErrNotFound) then ErrInvalidState else e)
  end.

Definition ResetMFAOf (ctx : Ctx) (a : Actor) (uid : string) : M W unit :=
  u <- lookup a uid ;;
  if bool_decide (UStatus u = "imported") then throw ErrInvalidState else
  roles <- storeM (ss_roles (ATenantID a) uid) ;;
  if bool_decide (uid = AUserID a) || (rank (ARoles a) <? rank roles)%Z
  then emit (adminEvent MFAReset a "refused" (if bool_decide (uid = AUserID a) then "self" else "more_privileged") uid []) ;;; throw ErrForbidden
  else
  keys <- storeM (ListWebAuthnCredentials (ATenantID a) uid) ;;
  codes <- storeM (ListRecoveryCodeHashes (ATenantID a) uid) ;;
  let methods := (if has_secret u then ["totp"] else []) ++ (if bool_decide (keys = []) then [] else ["webauthn"]) ++
                 (if bool_decide (codes = []) then [] else ["recovery"]) in
  storeM (ResetMFA (ATenantID a) uid) ;;;
  RevokeUser ctx (ATenantID a) uid ReasonAdmin "" ;;;
  emit (adminEvent MFAReset a "ok" "" uid [("methods", DList methods); ("keys", DInt (Z.of_nat (length keys)))]).

Definition ForceSignout (ctx : Ctx) (a : Actor) (uid : string) : M W unit :=
  lookup a uid ;;;
  RevokeUser ctx (ATenantID a) uid ReasonAdmin "".

(** ** Changer *)
Definition passwordEvent (a : Actor) (outcome reason : string) : Event :=
  mkEvent PasswordChanged (ATenantID a) (kind_string (AKind a)) (AUserID a) "" "" outcome reason [].
Definition actorPolicy (a : Actor) : M W Policy :=
  t <- storeM (TenantRow (ATenantID a)) ;;
  match ParsePolicy (TPolicy t) (bool_decide (TKind t = "platform")) with
  | (_, Some e) => throw e
  | (pol, None) => ret pol
  end.
Definition ChangerRequirements (a : Actor) : M W PwRequirements := pol <- actorPolicy a ;; ret (RequirementsFor pol).
Definition Change (ctx : Ctx) (a : Actor) (current next : string) : M W unit :=
  u <- storeM (UserRow (ATenantID a) (AUserID a)) ;;
  if negb (PasswordVerify current (default "" (UPasswordHash u))).1
  then emit (passwordEvent a "refused" "wrong_current_password") ;;; throw ErrCurrent
  else
  pol <- actorPolicy a ;;
  lift (Check pol next) ;;;
  salt <- ReadFull (PSaltLen DefaultParams) ;;
  h <- lift (Password.Hash (λ _, Some salt) next) ;;
  storeM (SetPassword (ATenantID a) (AUserID a) h) ;;;
  RevokeUser ctx (ATenantID a) (AUserID a) ReasonPassword (ASessionID a) ;;;
  emit (passwordEvent a "ok" "").
End Admin.
