(* ===== verification/AdminSafety.v ===== *)
(** * What administrators and password changes may do to accounts *)
From S2P Require Import Prelude GoStrings Base64 Utf8 Regex PermRef TenantCtx Models Password Cache Envelope AuditEvents Session MemStore SessionSafety Mfa MfaSafety Outbox Tenants Signin MemAccounts Recovery RecoverySafety.
From S2P Require Import MemRoles Invite MemDirectory Admin.
#[local] Open Scope list_scope.
#[local] Open Scope go_scope.
#[local] Set Default Proof Using "Type".

Section AdminSafety.
Context {K : Type} {KVK : KV K} {A2 : Argon2} {AL : Argon2Laws}.
Notation W := (Manager Store K).
Implicit Types (w : W) (st : Store) (tid uid : string).

(** ** Calls that touch no row but the revocation feed *)
Definition feeds {A} (m : M W A) : Prop := ∀ w, m_now (m w).2 = m_now w ∧ ∃ R, m_st (m w).2 = set_Revs (m_st w) R.
Lemma feeds_still {A} (m : M W A) : (∀ w, m_now (m w).2 = m_now w ∧ m_st (m w).2 = m_st w) → feeds m.
Proof. intros Hm w. destruct (Hm w) as [-> ->]. split; [done|]. exists (Revs (m_st w)). by destruct (m_st w). Qed.
Lemma feeds_bind {A B} (m : M W A) (f : A → M W B) : feeds m → (∀ a, feeds (f a)) → feeds (bind m f).
Proof.
  intros Hm Hf w. unfold bind. destruct (Hm w) as (En & R & E). destruct (m w) as [[a|e] w1]; cbn [snd] in *; [|eauto].
  destruct (Hf a w1) as (En' & R' & E'). split; [congruence|]. exists R'. rewrite E', E. done.
Qed.
Lemma feeds_ret {A} (a : A) : feeds (ret a).
Proof. by apply feeds_still. Qed.
Lemma feeds_for_each {A} (l : list A) (f : A → M W unit) : (∀ x, feeds (f x)) → feeds (for_each l f).
Proof. intros Hf. induction l as [|x l IH]; [apply feeds_ret|]. by apply feeds_bind. Qed.
Lemma feeds_cacheM {A} (d : A) (m : M K A) : feeds (cacheM d m : M W A).
Proof. apply feeds_still. intros w. unfold cacheM. destruct (m_cache w) as [k|]; [by destruct (m k)|done]. Qed.
Lemma feeds_emit e : feeds (emit e : M W unit).
Proof. by apply feeds_still. Qed.
Lemma feeds_ignore {A} (m : M W A) : feeds m → feeds (ignore m).
Proof. intros Hm w. destruct (Hm w) as (En & R & E). unfold ignore. destruct (m w) as [r w1]. eauto. Qed.
Lemma feeds_publish rv : feeds (publish rv : M W unit).
Proof.
  unfold publish. apply feeds_bind.
  { intros w. cbn. split; [done|]. eauto. }
  intros _. apply feeds_bind; [by apply feeds_still|]. intros now. apply feeds_bind; [by apply feeds_still|]. intros [k|]; [|apply feeds_ret].
  apply feeds_bind; [by apply feeds_still|]. intros key. apply feeds_cacheM.
Qed.
Lemma feeds_evict h : feeds (evictView h : M W unit).
Proof. unfold evictView. apply feeds_bind; [by apply feeds_still|]. intros now. apply feeds_ignore, feeds_cacheM. Qed.

(** The sessions of the account, but [keep], are revoked. *)
Definition signed_out (now : Z) tid uid (reason keep : string) st st' : Prop :=
  ∃ R, st' = set_Revs (RevokeUserRows now tid uid reason keep st).2 R.
Lemma feeds_rows (m : M Store unit) s' (f : M W unit) w : m (m_st w) = (Ok tt, s') → feeds f → ∃ R, m_st ((storeM m ;;; f) w).2 = set_Revs s' R.
Proof.
  intros E Hf. unfold bind, storeM. rewrite E. cbn beta iota.
  destruct (Hf (mkManager s' (m_cache w) (m_audit w) (m_now w) (m_entropy w) (m_ids w))) as (_ & R & ->). by exists R.
Qed.
Lemma RevokeUser_signs_out ctx tid uid reason keep w : signed_out (m_now w) tid uid reason keep (m_st w) (m_st (RevokeUser ctx tid uid reason keep w).2).
Proof.
  unfold RevokeUser, signed_out. rewrite (bind_ok nowM _ w (m_now w) w eq_refl).
  assert (Hs : ∃ l, (if bool_decide (keep ≠ "") then storeM (ss_list_user (m_now w) tid uid) else ret []) w = (Ok l, w)).
  { case_bool_decide; [|by eexists]. unfold storeM. cbn. destruct w. by eexists. }
  destruct Hs as [l Hl]. rewrite (bind_ok _ _ w l w Hl). apply feeds_rows; [done|].
  apply feeds_bind; [|intros _; apply feeds_emit]. destruct (bool_decide (keep = "")); [apply feeds_publish|]. apply feeds_for_each. intros x.
  destruct (bool_decide (SID x ≠ keep)); [|apply feeds_ret].
  apply feeds_bind; [apply feeds_publish|intros _; apply feeds_evict].
Qed.

Definition no_sessions tid uid (keep : string) st : Prop :=
  ∀ id x, Sessions st !! id = Some x → STenantID x = tid → SUserID x = uid → id ≠ keep → SRevokedAt x ≠ None.
Definition other_sessions tid uid st st' : Prop :=
  ∀ id x, Sessions st !! id = Some x → ¬ (STenantID x = tid ∧ SUserID x = uid) → Sessions st' !! id = Some x.
Lemma signed_out_sessions now tid uid reason keep st st' : signed_out now tid uid reason keep st st' →
  no_sessions tid uid keep st' ∧ other_sessions tid uid st st'.
Proof.
  intros [R ->]. unfold no_sessions, other_sessions, RevokeUserRows, modify. cbn [snd Sessions set_Revs set_Sessions]. split.
  - intros id x. rewrite map_lookup_imap. destruct (Sessions st !! id) as [y|]; [|done]. cbn. intros [= <-].
    destruct (bool_decide (STenantID y = tid) && bool_decide (SUserID y = uid) && bool_decide (id ≠ keep)) eqn:Eb.
    + intros _ _ _. unfold revoke_row. destruct (SRevokedAt y) eqn:Er; cbn; by rewrite ?Er.
    + intros H1 H2 H3. by rewrite !bool_decide_eq_true_2 in Eb by done.
  - intros id x Hx Hn. rewrite map_lookup_imap, Hx. cbn. f_equal.
    destruct (bool_decide (STenantID x = tid) && bool_decide (SUserID x = uid) && bool_decide (id ≠ keep)) eqn:Eb; [|done]. bool_prop. naive_solver.
Qed.

(** ** The operations *)
Inductive AdminOp : Type := ODeactivate | OReactivate | OResetMFA | OForceSignout | ORemoveImported.
Definition run_admin (op : AdminOp) (ctx : Ctx) (a : Actor) uid : M W unit :=
  match op with
  | ODeactivate => Deactivate ctx a uid
  | OReactivate => Reactivate a uid
  | OResetMFA => ResetMFAOf ctx a uid
  | OForceSignout => ForceSignout ctx a uid
  | ORemoveImported => RemoveImported a uid
  end.
(** What the account must be like. *)
Definition admissible (op : AdminOp) (a : Actor) st uid (u : User) : Prop :=
  match op with
  | ODeactivate => UStatus u ≠ "imported" ∧ ("owner" ∈ effectiveSlugs st (ATenantID a) uid → 2 <= count_with_role st (ATenantID a) "owner")%nat
  | OReactivate => UStatus u = "deactivated"
  | OResetMFA => UStatus u ≠ "imported" ∧ uid ≠ AUserID a ∧ (rank (effectiveSlugs st (ATenantID a) uid) <= rank (ARoles a))%Z
  | OForceSignout => True
  | ORemoveImported => UStatus u = "imported"
  end.
(** What it is like afterwards. *)
Definition outcome (op : AdminOp) tid st' uid (u : User) : Prop :=
  match op with
  | ODeactivate => userByID st' tid uid = Some (with_status "deactivated" u) ∧ no_sessions tid uid "" st'
  | OReactivate => userByID st' tid uid = Some (if bool_decide (UStatus u = "deactivated") then with_status "active" u else u)
  | OResetMFA => userByID st' tid uid = Some (with_mfa false None u) ∧ keysOf st' tid uid = [] ∧ Codes st' !! map_key tid uid = None ∧ no_sessions tid uid "" st'
  | OForceSignout => userByID st' tid uid = Some u ∧ no_sessions tid uid "" st'
  | ORemoveImported => userByID st' tid uid = None
  end.
(** No other account is touched. *)
Record confined tid uid st st' : Prop := mkConfined {
  cf_users : ∀ t x, ¬ (t = tid ∧ x = uid) → userByID st' t x = userByID st t x;
  cf_sessions : other_sessions tid uid st st';
  cf_keys : ∀ k, k ≠ map_key tid uid → keys st' !! k = keys st !! k ∧ Codes st' !! k = Codes st !! k ∧ Bindings st' !! k = Bindings st !! k;
  cf_roles : RoleRows st' = RoleRows st ∧ RolePerms st' = RolePerms st ∧ groups st' = groups st ∧ groles st' = groles st;
  cf_rest : Tenants st' = Tenants st ∧ Invitations st' = Invitations st ∧ Outbox st' = Outbox st ∧ Recoveries st' = Recoveries st;
}.
Lemma confined_refl tid uid st : confined tid uid st st.
Proof. split; try done. by intros id x Hx _. Qed.
Lemma confined_signed_out now tid uid reason keep st st1 st' : confined tid uid st st1 → signed_out now tid uid reason keep st1 st' → confined tid uid st st'.
Proof.
  intros [C1 C2 C3 C4 C5] Hs. destruct (signed_out_sessions _ _ _ _ _ _ _ Hs) as [_ Ho]. destruct Hs as [R ->]. split; [done| |done..].
  intros id x Hx Hn. apply Ho; [|done]. by apply C2.
Qed.

Lemma lookup_run a uid w r w' : lookup a uid w = (r, w') → m_st w' = m_st w ∧ m_now w' = m_now w ∧
  match r with Ok u => w' = w ∧ userByID (m_st w) (ATenantID a) uid = Some u | Err _ => True end.
Proof.
  unfold lookup. intros E. unfold bind, attempt, storeM, UserRow in E. destruct w as [st c au now en ids]. cbn in E.
  destruct (userByID st (ATenantID a) uid) as [u|] eqn:Eu; cbn in E; [by injection E as <- <-|].
  destruct (bool_decide (ErrNotFound = ErrNotFound) && ValidTenantID uid); cbn in E; [|by injection E as <- <-].
  unfold UserAnyTenant in E. destruct (find_first _ _) as [o|]; cbn in E; [destruct (bool_decide (UTenantID o = ATenantID a)); cbn in E|]; by injection E as <- <-.
Qed.

Lemma storeM_any {A} (m : M Store A) w r w' : storeM m w = (r, w') → m (m_st w) = (r, m_st w') ∧ m_now w' = m_now w.
Proof. unfold storeM. destruct (m (m_st w)) as [r1 s1]. by intros [= <- <-]. Qed.
Lemma emit_run e w r w' : emit e w = (r, w') → r = Ok tt ∧ m_st w' = m_st w.
Proof. by intros [= <- <-]. Qed.

Lemma update_confined tid uid f st r st' : users_unique st → (∀ u, UTenantID (f u) = UTenantID u ∧ UID (f u) = UID u) →
  update_user tid uid f st = (r, st') → confined tid uid st st' ∧ (r = Ok tt → userByID st' tid uid = f <$> userByID st tid uid).
Proof.
  intros Hu Hf E. pose proof (update_user_run _ _ _ _ _ _ Hu Hf E) as (_ & Hc & Hk & Ht & Hr). destruct r as [[]|e]; [|subst; split; [apply confined_refl|done]].
  destruct Hr as [_ Hr]. split; [|intros _; by rewrite Hr, decide_True].
  unfold update_user in E. destruct (userKey st tid uid) as [[k u]|]; [|done]. injection E as <-. split; try done.
  - intros t x Hn. by rewrite Hr, decide_False.
  - by intros id x Hx _.
Qed.
(** The result of an operation: refused without effect, or allowed and confined. *)
Definition admin_spec (op : AdminOp) (a : Actor) uid w (r : result unit) w' : Prop :=
  let tid := ATenantID a in let st := m_st w in let st' := m_st w' in
  (st' = st ∨ ∃ u, userByID st tid uid = Some u ∧ admissible op a st uid u ∧ confined tid uid st st') ∧
  (r = Ok tt → ∃ u, userByID st tid uid = Some u ∧ outcome op tid st' uid u).
Lemma refused_spec op a uid w e w' : m_st w' = m_st w → admin_spec op a uid w (Err e) w'.
Proof. intros E. split; [by left|done]. Qed.
Lemma signed_out_user now tid uid reason keep st st' t x : signed_out now tid uid reason keep st st' → userByID st' t x = userByID st t x.
Proof. by intros [R ->]. Qed.
Lemma signed_out_factors now tid uid reason keep st st' : signed_out now tid uid reason keep st st' → keys st' = keys st ∧ Codes st' = Codes st.
Proof. by intros [R ->]. Qed.

Lemma Deactivate_spec ctx a uid w r w' : users_unique (m_st w) → Deactivate ctx a uid w = (r, w') → admin_spec ODeactivate a uid w r w'.
Proof.
  intros Hu E. unfold Deactivate in E. apply bind_run in E as [(e & E1 & ->)|(u & w1 & E1 & E)]; apply lookup_run in E1 as (Es & _ & Hl); [by apply refused_spec|].
  destruct Hl as [-> Hl]. clear Es. destruct (bool_decide (UStatus u = "imported")) eqn:Ei; [injection E as <- <-; by apply refused_spec|]. apply bool_decide_eq_false in Ei.
  apply bind_run in E as [(e & E1 & ->)|(last & w1 & E1 & E)]; [by exfalso; unfold isLastOwner in E1; cbn in E1; repeat case_match|].
  assert (Hlast : w1 = w ∧ (last = false → "owner" ∈ effectiveSlugs (m_st w) (ATenantID a) uid → (2 <= count_with_role (m_st w) (ATenantID a) "owner")%nat)).
  { unfold isLastOwner, bind, storeM in E1. cbn in E1. destruct w. destruct (bool_decide ("owner" ∈ _)) eqn:Eo; cbn in E1; injection E1 as <- <-; (split; [done|]).
    - intros Hlt _. apply Z.leb_gt in Hlt. cbn. lia.
    - intros _ Ho. by apply bool_decide_eq_false in Eo. }
  clear E1. destruct Hlast as [-> Hlast]. destruct last.
  { apply bind_run in E as [(e & E2 & ->)|(x & w1 & E2 & E)]; apply emit_run in E2 as [? E2]; [done|]. injection E as <- <-. by apply refused_spec. }
  specialize (Hlast eq_refl). apply bind_run in E.
  assert (Hstep : ∀ r1 w1, (if bool_decide (UStatus u = "deactivated") then ret tt else storeM (UpdateUserStatus (ATenantID a) uid "deactivated")) w = (r1, w1) →
    confined (ATenantID a) uid (m_st w) (m_st w1) ∧ (r1 = Ok tt → userByID (m_st w1) (ATenantID a) uid = Some (with_status "deactivated" u))).
  { intros r1 w1 E1. destruct (bool_decide (UStatus u = "deactivated")) eqn:Ed.
    - injection E1 as <- <-. split; [apply confined_refl|]. intros _. apply bool_decide_eq_true in Ed. rewrite Hl. f_equal. unfold with_status. destruct u. cbn in *. by subst.
    - apply storeM_any in E1 as [E1 _]. apply update_confined in E1 as [C1 C2]; [|done|done]. split; [done|]. intros ->%C2. by rewrite Hl. }
  destruct E as [(e & E1 & ->)|([] & w1 & E1 & E)]; apply Hstep in E1 as [C1 C2]; [split; [right; by exists u|done]|]. specialize (C2 eq_refl).
  pose proof (RevokeUser_signs_out ctx (ATenantID a) uid ReasonDeactivated "" w1) as Hs.
  apply bind_run in E as [(e & E2 & ->)|([] & w2 & E2 & E)]; rewrite E2 in Hs; cbn [snd] in Hs.
  - split; [right; exists u; split_and!; [done..|by eapply confined_signed_out]|done].
  - apply emit_run in E as [-> Ee]. unfold admin_spec. cbv zeta. rewrite Ee. split; [right; exists u; split_and!; [done..|by eapply confined_signed_out]|]. intros _. exists u. split; [done|]. split.
    + by rewrite (signed_out_user _ _ _ _ _ _ _ _ _ Hs).
    + by eapply signed_out_sessions.
Qed.

Lemma Reactivate_spec a uid w r w' : users_unique (m_st w) → Reactivate a uid w = (r, w') → admin_spec OReactivate a uid w r w'.
Proof.
  intros Hu E. unfold Reactivate in E. apply bind_run in E as [(e & E1 & ->)|(u & w1 & E1 & E)]; apply lookup_run in E1 as (Es & _ & Hl); [by apply refused_spec|].
  destruct Hl as [-> Hl]. clear Es. destruct (bool_decide (UStatus u = "imported")); [injection E as <- <-; by apply refused_spec|].
  destruct (bool_decide (UStatus u = "deactivated")) eqn:Ed; cbn [negb] in E.
  2:{ injection E as <- <-. split; [by left|]. intros _. exists u. split; [done|]. cbn. by rewrite Ed. }
  pose proof Ed as Hd%bool_decide_eq_true.
  apply bind_run in E as [(e & E1 & ->)|([] & w1 & E1 & E)]; apply storeM_any in E1 as [E1 _]; apply update_confined in E1 as [C1 C2]; try done.
  - split; [right; by exists u|done].
  - apply emit_run in E as [-> Ee]. unfold admin_spec. cbv zeta. rewrite Ee. split; [right; by exists u|]. intros _. exists u. split; [done|]. cbn. rewrite Ed, C2 by done. by rewrite Hl.
Qed.
Lemma ForceSignout_spec ctx a uid w r w' : ForceSignout ctx a uid w = (r, w') → admin_spec OForceSignout a uid w r w'.
Proof.
  intros E. unfold ForceSignout in E. apply bind_run in E as [(e & E1 & ->)|(u & w1 & E1 & E)]; apply lookup_run in E1 as (Es & _ & Hl); [by apply refused_spec|].
  destruct Hl as [-> Hl]. pose proof (RevokeUser_signs_out ctx (ATenantID a) uid ReasonAdmin "" w) as Hs. rewrite E in Hs. cbn [snd] in Hs. split.
  - right. exists u. split_and!; [done..|]. eapply confined_signed_out; [apply confined_refl|exact Hs].
  - intros _. exists u. split; [done|]. split; [by rewrite (signed_out_user _ _ _ _ _ _ _ _ _ Hs)|by eapply signed_out_sessions].
Qed.
Lemma ResetMFA_confined tid uid st r st' : users_unique st → ResetMFA tid uid st = (r, st') → confined tid uid st st' ∧
  (r = Ok tt → userByID st' tid uid = with_mfa false None <$> userByID st tid uid ∧ keysOf st' tid uid = [] ∧ Codes st' !! map_key tid uid = None).
Proof.
  intros Hu E. destruct (update_user tid uid (with_mfa false None) st) as [r1 st1] eqn:E1. pose proof (update_confined tid uid (with_mfa false None) st r1 st1 Hu (λ u, conj eq_refl eq_refl) E1) as [[C1 C2 C3 C4 C5] C6].
  unfold ResetMFA in E. unfold update_user in E1. destruct (userKey st tid uid) as [[k u]|]; [|injection E as <- <-; split; [apply confined_refl|done]].
  injection E1 as <- <-. injection E as <- <-. split.
  - split; try done. intros k' Hk. cbn. by rewrite !lookup_delete_ne.
  - intros _. split; [by apply C6|]. cbn. unfold keysOf. cbn. by rewrite !lookup_delete_eq.
Qed.
Lemma ResetMFA_spec ctx a uid w r w' : users_unique (m_st w) → ResetMFAOf ctx a uid w = (r, w') → admin_spec OResetMFA a uid w r w'.
Proof.
  intros Hu E. unfold ResetMFAOf in E. apply bind_run in E as [(e & E1 & ->)|(u & w1 & E1 & E)]; apply lookup_run in E1 as (Es & _ & Hl); [by apply refused_spec|].
  destruct Hl as [-> Hl]. clear Es. destruct (bool_decide (UStatus u = "imported")) eqn:Ei; [injection E as <- <-; by apply refused_spec|]. apply bool_decide_eq_false in Ei.
  apply bind_run in E as [(e & E1 & ->)|(roles & w1 & E1 & E)]; apply storeM_any in E1 as [E1 _]; [discriminate E1|]. injection E1 as <- Es1.
  destruct (bool_decide (uid = AUserID a) || _) eqn:Eb.
  { apply bind_run in E as [(e & E2 & ->)|(x & w2 & E2 & E)]; apply emit_run in E2 as [? E2]; [done|]. injection E as <- <-. apply refused_spec. congruence. }
  apply orb_false_iff in Eb as [Ea%bool_decide_eq_false Er%Z.ltb_ge]. cbv zeta in E.
  assert (Had : admissible OResetMFA a (m_st w) uid u) by done.
  apply bind_run in E as [(e & E2 & ->)|(keys & w2 & E2 & E)]; apply storeM_any in E2 as [E2 _]; [discriminate E2|]. injection E2 as <- Es2.
  apply bind_run in E as [(e & E3 & ->)|(codes & w3 & E3 & E)]; apply storeM_any in E3 as [E3 _]; [discriminate E3|]. injection E3 as <- Es3.
  rewrite <- Es2, <- Es1 in Es3.
  apply bind_run in E as [(e & E4 & ->)|([] & w4 & E4 & E)]; apply storeM_any in E4 as [E4 _]; rewrite <- Es3 in E4; apply ResetMFA_confined in E4 as [C1 C2]; try done.
  { split; [right; by exists u|done]. }
  specialize (C2 eq_refl). destruct C2 as (D1 & D2 & D3). rewrite Hl in D1.
  pose proof (RevokeUser_signs_out ctx (ATenantID a) uid ReasonAdmin "" w4) as Hs.
  apply bind_run in E as [(e & E5 & ->)|([] & w5 & E5 & E)]; rewrite E5 in Hs; cbn [snd] in Hs.
  - split; [right; exists u; split_and!; [done..|by eapply confined_signed_out]|done].
  - apply emit_run in E as [-> Ee]. unfold admin_spec. cbv zeta. rewrite Ee. split; [right; exists u; split_and!; [done..|by eapply confined_signed_out]|].
    intros _. exists u. split; [done|]. split; [by rewrite (signed_out_user _ _ _ _ _ _ _ _ _ Hs)|]. pose proof (proj1 (signed_out_sessions _ _ _ _ _ _ _ Hs)) as Hno. destruct (signed_out_factors _ _ _ _ _ _ _ Hs) as [Ek Ec]. unfold keysOf. rewrite Ek, Ec. by split_and!.
Qed.

Lemma DeleteImported_confined tid uid st r st' : users_unique st → DeleteImportedUser tid uid st = (r, st') →
  (st' = st ∨ confined tid uid st st') ∧ (r = Ok tt → userByID st' tid uid = None).
Proof.
  intros Hu E. unfold DeleteImportedUser in E. destruct (userKey st tid uid) as [[k u]|] eqn:Ek; [|injection E as <- <-; split; [by left|done]].
  destruct (negb _); [injection E as <- <-; split; [by left|done]|]. injection E as <- <-. apply userKey_iff in Ek as (Hk & Ht & Hx); [|done].
  assert (Hu' : users_unique (drop_user st k tid uid)).
  { intros k1 k2 u1 u2. cbn. intros [_ H1]%lookup_delete_Some [_ H2]%lookup_delete_Some. by apply Hu. }
  split; [right; split|]; try done.
  - intros t x Hn. apply option_eq. intros u'. rewrite !userByID_iff by done. cbn. split.
    + intros (k' & [_ Hk']%lookup_delete_Some & Hp). eauto.
    + intros (k' & Hk' & <- & <-). exists k'. split; [|done]. apply lookup_delete_Some. split; [|done]. intros <-. apply Hn. assert (u' = u) as -> by congruence. done.
  - intros id x Hx' Hn. cbn. by apply map_lookup_filter_Some.
  - intros k' Hk'. cbn. by rewrite !lookup_delete_ne.
  - intros _. destruct (userByID _ tid uid) as [u'|] eqn:E; [|done]. apply userByID_iff in E as (k' & Hk' & H1 & H2); [|done]. cbn in Hk'. apply lookup_delete_Some in Hk' as [Hne Hk'].
    destruct Hne. apply (Hu k k' u u'); congruence.
Qed.
Lemma RemoveImported_spec a uid w r w' : users_unique (m_st w) → RemoveImported a uid w = (r, w') → admin_spec ORemoveImported a uid w r w'.
Proof.
  intros Hu E. unfold RemoveImported in E. apply bind_run in E as [(e & E1 & ->)|(u & w1 & E1 & E)]; apply lookup_run in E1 as (Es & _ & Hl); [by apply refused_spec|].
  destruct Hl as [-> Hl]. clear Es. destruct (bool_decide (UStatus u = "imported")) eqn:Ei; cbn [negb] in E; [|injection E as <- <-; by apply refused_spec]. apply bool_decide_eq_true in Ei.
  apply bind_run in E as [(e & E1 & ->)|(r1 & w1 & E1 & E)]; unfold attempt in E1.
  { destruct (storeM _ w); discriminate E1. }
  destruct (storeM (DeleteImportedUser (ATenantID a) uid) w) as [r2 w2] eqn:E2. injection E1 as -> ->. apply storeM_any in E2 as [E2 _].
  apply DeleteImported_confined in E2 as [C1 C2]; [|done]. assert (Had : m_st w1 = m_st w ∨ ∃ u, userByID (m_st w) (ATenantID a) uid = Some u ∧ admissible ORemoveImported a (m_st w) uid u ∧ confined (ATenantID a) uid (m_st w) (m_st w1)).
  { destruct C1; [by left|right; by exists u]. }
  destruct r1 as [[]|e]; [|by injection E as <- <-]. apply emit_run in E as [-> Ee]. unfold admin_spec. cbv zeta. rewrite Ee. split; [done|]. intros _. exists u. split; [done|]. by apply C2.
Qed.


(** ** Password change *)
Lemma signed_out_kept now tid uid reason keep st st' : signed_out now tid uid reason keep st st' → Sessions st' !! keep = Sessions st !! keep.
Proof.
  intros [R ->]. unfold RevokeUserRows, modify. cbn [snd Sessions set_Revs set_Sessions]. rewrite map_lookup_imap. destruct (Sessions st !! keep) as [x|]; [|done]. cbn.
  rewrite (bool_decide_eq_false_2 (keep ≠ keep)) by (intros Hne; by apply Hne). by rewrite andb_false_r.
Qed.
Lemma ReadFull_run n w salt w' : ReadFull n w = (Ok salt, w') → m_st w' = m_st w.
Proof. unfold ReadFull, bind, RandomToken. cbn. destruct (m_entropy w); [done|]. by intros [= _ <-]. Qed.
Lemma actorPolicy_ok a w pol w' : actorPolicy a w = (Ok pol, w') → m_st w' = m_st w ∧ ∃ t, Tenants (m_st w) !! ATenantID a = Some t ∧
  ParsePolicy (TPolicy t) (bool_decide (TKind t = "platform")) = (pol, None).
Proof.
  unfold actorPolicy. intros E. apply bind_ok_inv in E as (t & w1 & E1 & E). apply storeM_any in E1 as [E1 _].
  unfold TenantRow in E1. destruct (Tenants (m_st w) !! ATenantID a) as [t'|] eqn:Et; [|done]. injection E1 as <- Es. destruct (ParsePolicy _ _) as [p [e|]] eqn:Ep; [done|].
  injection E as <- <-. split; [done|]. by exists t'.
Qed.

Lemma update_user_sessions tid uid f st r st' : update_user tid uid f st = (r, st') → Sessions st' = Sessions st.
Proof. unfold update_user. destruct (userKey st tid uid) as [[k u]|]; by intros [= _ <-]. Qed.

End AdminSafety.

(** ** Concrete account administration

    Witnesses, and a run in which an account that never accepted its invitation
    becomes active. *)
From S2P Require Import Prelude GoStrings Base64 Utf8 Regex PermRef TenantCtx Models Password Cache Envelope AuditEvents Session MemStore SessionSafety SessionRuns Mfa MfaSafety Outbox Tenants Signin MemAccounts SigninRuns Recovery RecoverySafety.
From S2P Require Import MemRoles Invite MemDirectory Admin.
#[local] Open Scope list_scope.
#[local] Open Scope go_scope.

#[local] Existing Instance toyAEAD.
#[local] Existing Instance fillArgon2.

(** u2, an administrator, signs u1 out for good; u1 has signed in before. *)
Definition admin2 : Actor := mkActor KindUser "u2" "t1" "s2" ["admin"] ["pwd"] "" "" "".
Definition s2 : World := (Deactivate anonymous admin2 "u1" s1).2.
Lemma users_unique_check (m : Store) : NoDup ((λ p : string * User, (UTenantID p.2, UID p.2)) <$> map_to_list (Users m)) → users_unique m.
Proof.
  intros Hn k k' u u' [i Hi]%elem_of_map_to_list%list_elem_of_lookup [j Hj]%elem_of_map_to_list%list_elem_of_lookup Ht Hx.
  assert (i = j) as <-; [|congruence]. eapply (NoDup_lookup _ i j (UTenantID u, UID u) Hn); by rewrite list_lookup_fmap, ?Hi, ?Hj; cbn; rewrite ?Ht, ?Hx.
Qed.
Lemma s1_unique : users_unique (m_st s1).
Proof. apply users_unique_check, (bool_decide_unpack _). vm_compute. exact I. Qed.

(** u1 changes the password from the session just made. *)
Definition actor1 : Actor := mkActor KindUser "u1" "t1" "a" [] ["pwd"] "" "" "".
Definition changed1 : World := (Change anonymous actor1 "correct horse" "another horse" s1).2.

(** u3 is invited and never accepts.  An administrator deactivates the account
    and reactivates it: it is active, without a password and without
    acceptance, and a reset link gives it one. *)
Definition invited3 : User := mkUser "u3" "t1" "u3@x" "Three" "invited" None false None 0 None None "" "" false.
Definition n0 : World := mkManager (set_Users storeS (<["t1/u3@x" := invited3]> (Users storeS))) (Some NewMemory) [] TS ["tok1"; "tok2"; "tok3"; "tok4"; "tok5"; "tok6"; "tok7"; "tok8"] 0.
Definition n1 : World := (Deactivate anonymous admin2 "u3" n0).2.
Definition n2 : World := (Reactivate admin2 "u3" n1).2.
Definition n3 : World := (Request tokHash seqID (λ _, None) id "K" "https://auth" (λ _, "{}") "acme" "u3@x" "ip" n2).2.
Definition n4 : World := (Complete tokHash anonymous "tok1" "another horse" n3).2.
Lemma reactivation_activates_invited :
  (UStatus <$> userByID (m_st n0) "t1" "u3") = Some "invited" ∧
  (UStatus <$> userByID (m_st n2) "t1" "u3") = Some "active" ∧ (UPasswordHash <$> userByID (m_st n2) "t1" "u3") = Some None ∧
  (Complete tokHash anonymous "tok1" "another horse" n3).1 = Ok tt ∧
  is_ok (start_ (mkInput "acme" "u3@x" "another horse" "10.0.0.1" "ua") n4).1 = true.
Proof. split_and!; vm_compute; reflexivity. Qed.

(** The in-memory store counts every account bound to the owner role, the
    database only the active ones: over the in-memory store two owners can be
    deactivated one after the other, and no active owner is left. *)
Definition ownerRow : Role := mkRole "r0" "t1" "owner" "Owner" true OriginBuiltin "" "" "" None.
Definition twoOwners : World :=
  mkManager (set_Bindings (set_RoleRows storeS {["r0" := ownerRow]}) (<[map_key "t1" "u1" := ["r0"]]> {[map_key "t1" "u2" := ["r0"]]}))
    (Some NewMemory) [] TS ["tok1"; "tok2"] 0.
Definition admin9 : Actor := mkActor KindUser "u9" "t1" "s9" ["admin"] ["pwd"] "" "" "".
Example both_owners_deactivated :
  let w1 := Deactivate anonymous admin9 "u1" twoOwners in
  let w2 := Deactivate anonymous admin9 "u2" w1.2 in
  w1.1 = Ok tt ∧ w2.1 = Ok tt ∧
  (UStatus <$> userByID (m_st w2.2) "t1" "u1") = Some "deactivated" ∧ (UStatus <$> userByID (m_st w2.2) "t1" "u2") = Some "deactivated".
Proof. vm_compute. split_and!; reflexivity. Qed.
