(* ===== verification/InviteSafety.v ===== *)
(** * What an invitation gives, and to whom

    The invariant of the invitation tables over any history of the service;
    both for stores that roll a failed transaction back and for stores that
    keep its writes. *)
From S2P Require Import Prelude GoStrings Base64 Utf8 Regex PermRef TenantCtx Models Password Cache Envelope AuditEvents Session MemStore SessionSafety Mfa MfaSafety Outbox Tenants Signin MemAccounts Recovery Fga MemRoles AuthzClient AuthzServices Invite.
#[local] Open Scope list_scope.
#[local] Open Scope go_scope.

Section InviteSafety.
Context {B K : Type} {BB : Backend B} {KVK : KV K} {A2 : Argon2} {AL : Argon2Laws} {AE : AEAD}.
Context (HashToken : string → string) (newID : nat → string).
Context {Hinj : Inj (=) (=) HashToken} {Hids : Inj (=) (=) newID}.
Context (unicode_lower : string → string).
Notation W := (IW B K).
Implicit Types (w : W) (s : Store).
Notation st w := (az_st (iw_az w)).
Notation ids w := (az_ids (iw_az w)).
Notation userKey_ := (user_key unicode_lower).

(** ** The accounts *)
Record UInv (n0 : nat) s : Prop := mkUInv {
  ui_unique : users_unique s;
  ui_key : ∀ k u, Users s !! k = Some u → k = userKey_ (UTenantID u) (UEmail u) ∧ lacks "/" (UTenantID u) = true;
  ui_fresh : ∀ k u n, Users s !! k = Some u → (n0 <= n)%nat → UID u ≠ newID n;
}.
Definition same_ident (u u' : User) : Prop := UTenantID u' = UTenantID u ∧ UEmail u' = UEmail u ∧ UID u' = UID u.
(** Rows change in place. *)
Definition in_place s s' : Prop := ∀ k u', Users s' !! k = Some u' → ∃ u, Users s !! k = Some u ∧ same_ident u u'.

Lemma UInv_in_place n s s' : in_place s s' → UInv n s → UInv n s'.
Proof using Type.
  intros Hp [I1 I2 I3]. split.
  - intros k k' u u' H H' E1 E2. destruct (Hp _ _ H) as (v & Hv & S1 & S2 & S3), (Hp _ _ H') as (v' & Hv' & S1' & S2' & S3').
    eapply (I1 k k' v v'); congruence.
  - intros k u H. destruct (Hp _ _ H) as (v & Hv & S1 & S2 & S3). destruct (I2 k v Hv) as [-> Hl]. by rewrite S1, S2.
  - intros k u m H Hm. destruct (Hp _ _ H) as (v & Hv & S1 & S2 & S3). rewrite S3. by eapply I3.
Qed.
Lemma UInv_later n n' s : (n <= n')%nat → UInv n s → UInv n' s.
Proof using Type. intros Hn [I1 I2 I3]. split; [done|done|]. intros k u m H Hm. apply (I3 k u m H). lia. Qed.
Lemma in_place_update tid uid f s : (∀ u, same_ident u (f u)) → in_place s (update_user tid uid f s).2.
Proof using Type.
  intros Hf k u'. unfold update_user. destruct (userKey s tid uid) as [[k0 u0]|] eqn:E; [|intros H; by exists u'].
  cbn. apply find_first_Some in E as [Hin%elem_of_map_to_list _]. intros [[<- <-]|[_ H]]%lookup_insert_Some; [exists u0|exists u']; done.
Qed.
Lemma in_place_each tid uid f s : (∀ u, same_ident u (f u)) → in_place s (each_user tid uid f s).2.
Proof using Type.
  intros Hf k u'. unfold each_user, modify. cbn. rewrite lookup_fmap. destruct (Users s !! k) as [u|] eqn:E; [|done].
  cbn. intros [= <-]. exists u. split; [done|]. by destruct (_ && _).
Qed.
Lemma UInv_insert n s u : UInv n s → UID u = newID n → lacks "/" (UTenantID u) = true → UInv (S n) (InsertUser unicode_lower u s).2.
Proof using Hids.
  intros HI Hid Hl. unfold InsertUser. destruct (Users s !! _) eqn:E; [by apply (UInv_later n); [lia|]|]. destruct HI as [I1 I2 I3]. split; unfold users_unique; cbn.
  - intros k k' x x' [[<- <-]|[_ H]]%lookup_insert_Some [[<- <-]|[_ H']]%lookup_insert_Some E1 E2; [done| | |by eapply (I1 k k' x x')].
    + exfalso. by apply (I3 k' x' n H'); [lia|congruence].
    + exfalso. by apply (I3 k x n H); [lia|congruence].
  - intros k x [[<- <-]|[_ H]]%lookup_insert_Some; [done|by apply I2].
  - intros k x m [[<- <-]|[_ H]]%lookup_insert_Some Hm; [|apply (I3 k x m H); lia].
    rewrite Hid. intros E1%Hids. lia.
Qed.

(** ** The invitations *)
Record IInv w : Prop := mkIInv {
  ii_users : UInv (ids w) (st w);
  ii_nodup : NoDup (iw_entropy w);
  ii_id : ∀ id i, Invitations (st w) !! id = Some i → IvID i = id ∧ lacks "/" (IvTenantID i) = true;
  ii_drawn : ∀ id i, Invitations (st w) !! id = Some i → ∃ tok, IvTokenHash i = HashToken tok ∧ tok ∉ iw_entropy w;
  ii_unique : ∀ id id' i i', Invitations (st w) !! id = Some i → Invitations (st w) !! id' = Some i' →
    IvTokenHash i = IvTokenHash i' → id = id';
}.
Definition spentI w (tok : string) : Prop :=
  ∀ id i, Invitations (st w) !! id = Some i → IvTokenHash i = HashToken tok → IvAcceptedAt i ≠ None.
Definition keepsI w w' : Prop :=
  IInv w → IInv w' ∧ iw_entropy w' `suffix_of` iw_entropy w ∧ (ids w <= ids w')%nat ∧
  ∀ tok, tok ∉ iw_entropy w → spentI w tok → spentI w' tok.
Definition KeepsI {C} (m : M W C) : Prop := ∀ w, keepsI w (m w).2.

Lemma suffix_not_elem (l l' : list string) x : l' `suffix_of` l → x ∉ l → x ∉ l'.
Proof using Type. intros [k ->] H. by apply not_elem_of_app in H as [_ ?]. Qed.
Lemma suffix_nodup (l l' : list string) : l' `suffix_of` l → NoDup l → NoDup l'.
Proof using Type. intros [k ->] H. by apply NoDup_app in H as (_ & _ & ?). Qed.

Lemma keepsI_refl w : keepsI w w.
Proof using Type. done. Qed.
Lemma keepsI_trans w1 w2 w3 : keepsI w1 w2 → keepsI w2 w3 → keepsI w1 w3.
Proof using Type.
  intros H1 H2 HI. destruct (H1 HI) as (I2 & E1 & N1 & S2). destruct (H2 I2) as (I3 & E2 & N2 & S3).
  split_and!; [done|by etrans|lia|]. intros tok A C. apply S3; [by eapply suffix_not_elem|auto].
Qed.
(** Invitations stay, accounts keep their invariant. *)
Lemma keepsI_quiet w w' : iw_entropy w' `suffix_of` iw_entropy w → (ids w <= ids w')%nat →
  Invitations (st w') = Invitations (st w) → (UInv (ids w) (st w) → UInv (ids w') (st w')) → keepsI w w'.
Proof using Type.
  intros E N Hi Hu [I1 I2 I3 I4 I5]. split_and!; [|done|done|].
  - split; [auto|by eapply suffix_nodup|by rewrite Hi| |by rewrite Hi]. rewrite Hi. intros id i H. destruct (I4 id i H) as (t & Et & Hn).
    exists t. split; [done|by eapply suffix_not_elem].
  - intros tok _ Hs. unfold spentI. by rewrite Hi.
Qed.

(** ** Calls that leave the invitations alone *)
Lemma KeepsI_ret {C} (a : C) : KeepsI (ret a).
Proof using Type. intros w. apply keepsI_refl. Qed.
Lemma KeepsI_throw {C} e : KeepsI (throw e : M W C).
Proof using Type. intros w. apply keepsI_refl. Qed.
Lemma KeepsI_lift {C} (r : result C) : KeepsI (lift r).
Proof using Type. intros w. destruct r; apply keepsI_refl. Qed.
Lemma KeepsI_bind {C D} (m : M W C) (k : C → M W D) : KeepsI m → (∀ a, KeepsI (k a)) → KeepsI (bind m k).
Proof using Type.
  intros Hm Hk w. unfold bind. pose proof (Hm w) as H1. destruct (m w) as [[a|e] w1]; [|done].
  eapply keepsI_trans; [exact H1|apply Hk].
Qed.
Lemma KeepsI_attempt {C} (m : M W C) : KeepsI m → KeepsI (attempt m).
Proof using Type. intros Hm w. specialize (Hm w). unfold attempt. by destruct (m w). Qed.
Lemma KeepsI_if {C} (b : bool) (m m' : M W C) : KeepsI m → KeepsI m' → KeepsI (if b then m else m').
Proof using Type. by destruct b. Qed.
Lemma KeepsI_for_each {C} (l : list C) (f : C → M W unit) : (∀ x, KeepsI (f x)) → KeepsI (for_each l f).
Proof using Type. intros Hf. induction l as [|x l IH]; cbn [for_each]; [apply KeepsI_ret|]. apply KeepsI_bind; [apply Hf|intros; apply IH]. Qed.
Lemma KeepsI_fold_each {C D} (l : list C) (f : D → C → M W D) : (∀ b x, KeepsI (f b x)) → ∀ b, KeepsI (fold_each l b f).
Proof using Type.
  intros Hf. induction l as [|x l IH]; intros b; cbn [fold_each]; [apply KeepsI_ret|]. apply KeepsI_bind; [apply Hf|intros; apply IH].
Qed.
Lemma KeepsI_RandomToken : KeepsI iwRandomToken.
Proof using Type.
  intros w. unfold iwRandomToken. destruct (iw_entropy w) as [|x l] eqn:E; [apply keepsI_refl|].
  apply keepsI_quiet; [|done|done|done]. cbn. rewrite E. by exists [x].
Qed.
Lemma KeepsI_ReadFull n : KeepsI (iwReadFull n : M W string).
Proof using Type. apply KeepsI_bind; [apply KeepsI_RandomToken|intros; apply KeepsI_ret]. Qed.
Lemma KeepsI_NewID : KeepsI (iwNewID newID).
Proof using Type. intros w. apply keepsI_quiet; [done|cbn; lia|done|]. apply UInv_later. cbn. lia. Qed.

(** A call of the authorization state that does not write the store. *)
Definition Calm {C} (m : M (AZ B K) C) : Prop := ∀ a, az_st (m a).2 = az_st a ∧ az_ids (m a).2 = az_ids a.
Lemma KeepsI_azM {C} (m : M (AZ B K) C) : Calm m → KeepsI (azM m).
Proof using Type.
  intros Hm w. unfold azM. destruct (Hm (iw_az w)) as [H1 H2]. destruct (m (iw_az w)) as [r a].
  cbn in *. apply keepsI_quiet; cbn; rewrite ?H1, ?H2; done.
Qed.
Lemma KeepsI_emit e : KeepsI (iwEmit e : M W unit).
Proof using Type. by apply KeepsI_azM. Qed.
Lemma KeepsI_now : KeepsI (iwNow : M W Z).
Proof using Type. by apply KeepsI_azM. Qed.
Lemma Calm_bind {C D} (m : M (AZ B K) C) (k : C → M (AZ B K) D) : Calm m → (∀ x, Calm (k x)) → Calm (bind m k).
Proof using Type.
  intros Hm Hk a. unfold bind. pose proof (Hm a) as [H1 H2]. destruct (m a) as [[x|e] a1]; [|done]. cbn in *.
  destruct (Hk x a1) as [H3 H4]. by rewrite H3, H4.
Qed.
Lemma Calm_for_each {C} (l : list C) (f : C → M (AZ B K) unit) : (∀ x, Calm (f x)) → Calm (for_each l f).
Proof using Type. intros Hf. induction l as [|x l IH]; cbn [for_each]; [done|]. apply Calm_bind; [apply Hf|intros; apply IH]. Qed.
Lemma Calm_Write ctx tid adds removes : Calm (Write ctx tid adds removes).
Proof using Type.
  unfold Write, scoped. apply Calm_bind; [apply Calm_for_each; intros x; by destruct (tenant_tuple_ok x)|]. intros _.
  apply Calm_bind.
  - apply Calm_bind; [intros a; unfold requireM; by destruct (Require ctx tid) as [r [o|]]|]. intros _.
    apply Calm_for_each. intros o. apply Calm_bind; [intros a; by destruct (ObjectTenant o)|]. intros ot. by case_bool_decide.
  - intros _. apply Calm_bind; [intros a; unfold fgaM; by destruct (b_write _ _ _)|]. intros _. apply Calm_bind; [done|]. intros now a.
    unfold ignore, kvM. destruct (az_cache a) as [k|]; [|done]. by destruct (BumpTenantVersion _ _ _).
Qed.

Lemma KeepsI_tx {C} (m : M Store C) :
  (∀ s, Invitations (m s).2 = Invitations s ∧ in_place s (m s).2) → KeepsI (txM m).
Proof using Type.
  intros H w. unfold txM, azM, stM. destruct (H (st w)) as [H1 H2]. destruct (m (st w)) as [r s'].
  apply keepsI_quiet; [done|done|done|]. by apply UInv_in_place.
Qed.
Lemma KeepsI_txU {C} (m : M Store C) :
  (∀ s, Invitations (m s).2 = Invitations s ∧ Users (m s).2 = Users s) → KeepsI (txM m).
Proof using Type. intros H. apply KeepsI_tx. intros s. destruct (H s) as [H1 H2]. split; [done|]. intros k u Hu. exists u. by rewrite <- H2. Qed.
Lemma KeepsI_read {C} (m : M Store C) : (∀ s, (m s).2 = s) → KeepsI (txM m).
Proof using Type. intros H. apply KeepsI_txU. intros s. by rewrite H. Qed.

Lemma KeepsI_Atomic {C} rollback (m : M W C) : KeepsI m → KeepsI (Atomic rollback m).
Proof using Type.
  intros Hm w. specialize (Hm w). unfold Atomic. destruct (m w) as [[a|e] w']; [done|]. destruct rollback; [|done].
  intros HI. destruct (Hm HI) as (_ & E & N & _). revert HI. apply keepsI_quiet; [done|done|done|]. by apply UInv_later.
Qed.
Create HintDb invite.
#[local] Hint Resolve KeepsI_ret KeepsI_throw KeepsI_lift KeepsI_attempt KeepsI_if KeepsI_RandomToken KeepsI_ReadFull
  KeepsI_NewID KeepsI_emit KeepsI_now KeepsI_Atomic KeepsI_for_each KeepsI_fold_each : invite.
#[local] Hint Extern 5 (KeepsI (bind _ _)) => apply KeepsI_bind; [|intros ?] : invite.

Lemma read_UserByEmail tid e s : (UserByEmail unicode_lower tid e s).2 = s.
Proof using Type. unfold UserByEmail. by destruct (Users s !! _). Qed.
Lemma read_TenantRow tid s : (TenantRow tid s).2 = s.
Proof using Type. unfold TenantRow. by destruct (Tenants s !! _). Qed.
Lemma read_GetGroup tid gid s : (GetGroup tid gid s).2 = s.
Proof using Type. unfold GetGroup. by destruct (group_in s tid gid). Qed.
Lemma read_InvitationByHash h s : (InvitationByHash h s).2 = s.
Proof using Type. unfold InvitationByHash. by destruct (find_first _ _). Qed.
Lemma read_InvitationRow tid id s : (InvitationRow tid id s).2 = s.
Proof using Type. unfold InvitationRow. destruct (Invitations s !! id); [|done]. by case_bool_decide. Qed.
Lemma read_UserAny uid s : (UserAnyTenant uid s).2 = s.
Proof using Type. unfold UserAnyTenant. by destruct (find_first _ _). Qed.
Lemma read_UserRow tid uid s : (UserRow tid uid s).2 = s.
Proof using Type. unfold UserRow. by destruct (userByID s tid uid). Qed.
Definition Aside {C} (m : M Store C) : Prop := ∀ s, Invitations (m s).2 = Invitations s ∧ Users (m s).2 = Users s.
Lemma Aside_bind {C D} (m : M Store C) (k : C → M Store D) : Aside m → (∀ x, Aside (k x)) → Aside (bind m k).
Proof using Type.
  intros Hm Hk s. unfold bind. destruct (Hm s) as [H1 H2]. destruct (m s) as [[x|e] s1]; [|done]. cbn in *.
  destruct (Hk x s1) as [H3 H4]. by rewrite H3, H4.
Qed.
Lemma Aside_fold_each {C D} (l : list C) (f : D → C → M Store D) : (∀ b x, Aside (f b x)) → ∀ b, Aside (fold_each l b f).
Proof using Type. intros Hf. induction l as [|x l IH]; intros b; cbn [fold_each]; [done|]. apply Aside_bind; [apply Hf|intros; apply IH]. Qed.
Lemma AddGroupMembers_aside now tid gid l : Aside (AddGroupMembers now tid gid l).
Proof using Type.
  intros s. unfold AddGroupMembers. destruct (group_in s tid gid); [|done]. apply Aside_fold_each. intros n x. apply Aside_bind; [|done].
  intros s'. unfold add_member. destruct (userByID s' tid x); [|done]. by case_bool_decide.
Qed.
#[local] Hint Resolve KeepsI_read read_UserByEmail read_TenantRow read_GetGroup read_InvitationByHash read_InvitationRow read_UserAny read_UserRow : invite.

(** ** The writes *)
Lemma KeepsI_bind_dep {C D} (m : M W C) (k : C → M W D) : KeepsI m →
  (∀ w a w1, IInv w → m w = (Ok a, w1) → keepsI w1 (k a w1).2) → KeepsI (bind m k).
Proof using Type.
  intros Hm Hk w HI. unfold bind. pose proof (Hm w) as H1. destruct (m w) as [[a|e] w1] eqn:E; [|by apply H1].
  exact (keepsI_trans _ _ _ H1 (Hk w a w1 HI E) HI).
Qed.
Lemma KeepsI_token {C} (m : string → M W C) :
  (∀ tok l w, iw_entropy w = tok :: l → keepsI w (m tok (mkIW (iw_az w) l)).2) → KeepsI (bind iwRandomToken m).
Proof using Type.
  intros Hm w. unfold bind, iwRandomToken. destruct (iw_entropy w) as [|tok l] eqn:E; [apply keepsI_refl|]. by apply Hm.
Qed.
(** An invitation written under a token drawn for it. *)
Lemma keepsI_write w tok l id i w' : iw_entropy w = tok :: l → IvTokenHash i = HashToken tok →
  (IInv w → IvID i = id ∧ lacks "/" (IvTenantID i) = true) →
  Invitations (st w') = <[id := i]> (Invitations (st w)) → Users (st w') = Users (st w) →
  iw_entropy w' = l → (ids w <= ids w')%nat → keepsI w w'.
Proof using Hinj.
  intros He Hh Hid Hi Hu Hl Hn HI. destruct (Hid HI) as [Hid1 Hid2]. destruct HI as [I1 I2 I3 I4 I5]. rewrite He in I2.
  apply NoDup_cons in I2 as [N1 N2].
  assert (Hnew : ∀ id x, Invitations (st w) !! id = Some x → IvTokenHash x ≠ HashToken tok).
  { intros id' x Hx E. destruct (I4 id' x Hx) as (t & Et & Hnt). rewrite E in Et. apply Hinj in Et. subst t. apply Hnt. rewrite He. by apply elem_of_cons; left. }
  split_and!; [split; rewrite ?Hi, ?Hl| |done|].
  - eapply (UInv_in_place _ (st w)); [|by eapply UInv_later]. intros k u H. exists u. by rewrite <- Hu.
  - done.
  - intros id' x [[<- <-]|[_ H]]%lookup_insert_Some; [done|by apply I3].
  - intros id' x [[<- <-]|[_ H]]%lookup_insert_Some; [by exists tok|]. destruct (I4 id' x H) as (t & Et & Hnt). exists t.
    split; [done|]. intros Hin. apply Hnt. rewrite He. by apply elem_of_cons; right.
  - intros j j' x x' [[<- <-]|[_ H]]%lookup_insert_Some [[<- <-]|[_ H']]%lookup_insert_Some E; [done| | |by eapply I5].
    + exfalso. apply (Hnew j' x' H'). congruence.
    + exfalso. apply (Hnew j x H). congruence.
  - rewrite He, Hl. by exists [tok].
  - intros t Ht Hs. rewrite He in Ht. apply not_elem_of_cons in Ht as [Hne Ht].
    intros id' x. rewrite Hi. intros [[<- <-]|[_ H]]%lookup_insert_Some; [|by apply Hs with id'].
    rewrite Hh. intros E%Hinj. congruence.
Qed.

Lemma KeepsI_accepted now id : KeepsI (txM (MarkInvitationAccepted now id) : M W unit).
Proof using Type.
  intros w. unfold txM, azM, stM, MarkInvitationAccepted. destruct (Invitations (st w) !! id) as [i|] eqn:E; [|by apply keepsI_quiet].
  intros [I1 I2 I3 I4 I5]. cbn. split_and!; [split; cbn|done|done|].
  - eapply (UInv_in_place _ (st w)); [|done]. intros k u H. by exists u.
  - done.
  - intros id' x [[<- <-]|[_ H]]%lookup_insert_Some; [exact (I3 id i E)|by apply I3].
  - intros id' x [[<- <-]|[_ H]]%lookup_insert_Some; [exact (I4 id i E)|by apply (I4 id')].
  - intros j j' x x' [[<- <-]|[_ H]]%lookup_insert_Some [[<- <-]|[_ H']]%lookup_insert_Some; cbn; intros Hh; [done|by eapply I5..].
  - intros tok Ht Hs. unfold spentI. cbn. intros j x [[<- <-]|[_ H]]%lookup_insert_Some; [done|by eapply Hs].
Qed.

(** ** The operations *)
Context (kek issuer : string) (json_text : json → string).
Context (esc : option (Ctx → Actor → string → list string → list string → M (AZ B K) unit)).
Context (Hesc : ∀ may ctx actor tid rs gs, esc = Some may → Calm (may ctx actor tid rs gs)).
Context (rollback : bool).
Notation queueM := (queue newID kek issuer json_text).
Notation inviteM := (inviteTx HashToken newID kek issuer json_text).
Notation CreateM := (CreateWith HashToken newID unicode_lower kek issuer json_text esc rollback).
Notation ActivateM := (Activate HashToken newID unicode_lower kek issuer json_text esc rollback).
Notation ResendM := (Resend HashToken newID kek issuer json_text rollback).
Notation AcceptM := (Accept HashToken newID unicode_lower rollback).

Lemma KeepsI_queue tid addr tok : KeepsI (queueM tid addr tok).
Proof using Type.
  unfold queue. cbv zeta. apply KeepsI_bind; [auto with invite|]. intros rt. apply KeepsI_bind; [auto with invite|]. intros js.
  do 3 (apply KeepsI_bind; [auto with invite|]; intros ?). apply KeepsI_bind; [auto with invite|]. intros blob.
  apply KeepsI_bind; [auto with invite|]. intros id. apply KeepsI_bind; [auto with invite|]. intros now. by apply KeepsI_txU.
Qed.
Lemma KeepsI_invite actor tid addr rs gs first last : lacks "/" tid = true → KeepsI (inviteM actor tid addr rs gs first last).
Proof using Hinj.
  intros Hl. unfold inviteTx. apply KeepsI_token. intros tok l w He. eapply keepsI_trans.
  - eapply (keepsI_write w tok l (newID (ids w)) (mkInvitation (newID (ids w)) tid addr rs gs first last (HashToken tok)
      (if bool_decide (AUserID actor ≠ "") then Some (AUserID actor) else None) (az_now (iw_az w) + InviteLifetime) None None)
      (mkIW (mkAZ (set_Invitations (st w) _) (az_fga (iw_az w)) (az_cache (iw_az w)) (az_audit (iw_az w)) (az_refusals (iw_az w)) (az_now (iw_az w)) (S (ids w))) l));
      [done|done|done|reflexivity|reflexivity|reflexivity|cbn; lia].
  - unfold bind at 1, iwNewID at 1. unfold bind at 1, iwNow at 1, azM at 1, nowA, gets.
    unfold bind at 1, txM at 1, azM at 1, stM at 1, InsertInvitation, modify. cbn [iw_az iw_entropy az_st az_fga az_cache az_audit az_refusals az_now az_ids].
    match goal with |- keepsI ?w1 (?m ?w2).2 => change w2 with w1; cut (KeepsI m); [intros Hm; apply Hm|] end.
    apply KeepsI_bind; [apply KeepsI_queue|auto with invite].
Qed.
Lemma KeepsI_status tid uid status : KeepsI (txM (UpdateUserStatus tid uid status) : M W unit).
Proof using Type.
  apply KeepsI_tx. intros s'. split; [|by apply in_place_update]. unfold UpdateUserStatus, update_user. by destruct (userKey s' tid uid) as [[]|].
Qed.
Lemma KeepsI_activate actor tid u p : lacks "/" tid = true →
  KeepsI (activate HashToken newID unicode_lower kek issuer json_text actor tid u p).
Proof using Hinj.
  intros Hl. unfold activate. apply KeepsI_bind; [by apply KeepsI_invite|]. intros id. apply KeepsI_bind; [apply KeepsI_status|]. intros _.
  apply KeepsI_bind; auto with invite.
Qed.
Lemma KeepsI_checkGrants ctx actor tid p : KeepsI (checkGrants esc rollback ctx actor tid p).
Proof using Hesc.
  unfold checkGrants. apply KeepsI_if; [auto with invite|]. apply KeepsI_bind.
  - apply KeepsI_Atomic, KeepsI_bind; [by apply KeepsI_attempt, KeepsI_read|]. intros [rs|e]; [|auto with invite].
    apply KeepsI_for_each. intros gid. apply KeepsI_bind; [auto with invite|]. intros []; auto with invite.
  - intros _. destruct esc as [may|] eqn:E; [|auto with invite]. apply KeepsI_bind; [|intros []; auto with invite].
    apply KeepsI_attempt, KeepsI_azM. by apply Hesc.
Qed.
Lemma KeepsI_Create ctx actor tid p : lacks "/" tid = true → KeepsI (CreateM ctx actor tid p).
Proof using Hesc Hinj.
  intros Hl. unfold CreateWith. cbv zeta. do 3 (apply KeepsI_bind; [auto with invite|]; intros ?).
  apply KeepsI_bind; [apply KeepsI_checkGrants|]. intros _. apply KeepsI_Atomic, KeepsI_bind; [auto with invite|].
  assert (Hnew : ∀ x y z, KeepsI (id <- inviteM actor tid x (IpRoleIDs p) (IpGroupIDs p) y z ;;
      iwEmit (inviteEvent InviteCreated tid actor "ok" "" "invite" id []) ;;; ret id)).
  { intros x y z. apply KeepsI_bind; [by apply KeepsI_invite|]. intros id. apply KeepsI_bind; auto with invite. }
  intros [u|e]; [|apply Hnew]. apply KeepsI_if; [by apply KeepsI_activate|]. apply KeepsI_if; [|apply Hnew].
  apply KeepsI_bind; auto with invite.
Qed.
Lemma KeepsI_Activate ctx actor tid uids p : lacks "/" tid = true → KeepsI (ActivateM ctx actor tid uids p).
Proof using Hesc Hinj.
  intros Hl. unfold Activate. apply KeepsI_if; [auto with invite|]. apply KeepsI_if; [auto with invite|].
  apply KeepsI_bind; [apply KeepsI_checkGrants|]. intros _. apply KeepsI_fold_each. intros items uid. apply KeepsI_bind; [|auto with invite].
  unfold activateOne. apply KeepsI_bind.
  - apply KeepsI_attempt, KeepsI_Atomic, KeepsI_bind; [auto with invite|]. intros u. apply KeepsI_if; [auto with invite|by apply KeepsI_activate].
  - intros [id|e]; [auto with invite|]. apply KeepsI_if; [auto with invite|]. apply KeepsI_if; [|auto with invite].
    apply KeepsI_bind; [|auto with invite]. unfold auditForeign. apply KeepsI_if; [auto with invite|].
    apply KeepsI_bind; [auto with invite|]. intros [o|e']; auto with invite.
Qed.

Lemma KeepsI_Resend actor tid id : KeepsI (ResendM actor tid id).
Proof using Hinj.
  unfold Resend. apply KeepsI_Atomic, KeepsI_bind_dep; [auto with invite|]. intros w0 ri w HI E.
  assert (Hw : w = w0 ∧ ∀ inv, ri = Ok inv → Invitations (st w) !! id = Some inv).
  { unfold attempt, txM, azM, stM, InvitationRow in E. destruct (Invitations (st w0) !! id) as [i|] eqn:Ei; [case_bool_decide|];
      injection E as <- <-; (split; [destruct w0 as [[]]; done|]); intros ? [= <-]; done. }
  destruct Hw as [-> Hi]. destruct ri as [inv|e]; [|apply keepsI_refl]. specialize (Hi inv eq_refl).
  destruct (bool_decide _ || bool_decide _); [apply keepsI_refl|]. clear E HI.
  assert (Ht : ∀ tok l, iw_entropy w0 = tok :: l → keepsI w0 ((now <- iwNow ;; txM (RotateInvitation tid id (HashToken tok) (now + InviteLifetime)) ;;;
        queueM tid (IvEmail inv) tok ;;; iwEmit (inviteEvent InviteCreated tid actor "ok" "resend" "invite" id [])) (mkIW (iw_az w0) l)).2).
  { intros tok l He. unfold bind at 1, iwNow at 1, azM at 1, nowA, gets.
    unfold bind at 1, txM at 1, azM at 1, stM at 1, RotateInvitation. cbn [iw_az iw_entropy az_st]. rewrite Hi.
    assert (Hw : keepsI w0 (mkIW (iw_az w0) l)). { apply keepsI_quiet; [cbn; rewrite He; by exists [tok]|done|done|done]. }
    destruct (bool_decide (IvTenantID inv = tid)); [|by destruct w0 as [[]]]. eapply keepsI_trans.
    - eapply (keepsI_write w0 tok l id (with_token (HashToken tok) (az_now (iw_az w0) + InviteLifetime) inv)
        (mkIW (mkAZ (set_Invitations (st w0) _) (az_fga (iw_az w0)) (az_cache (iw_az w0)) (az_audit (iw_az w0)) (az_refusals (iw_az w0)) (az_now (iw_az w0)) (ids w0)) l));
        [done|done| |reflexivity|reflexivity|reflexivity|done]. intros HI. exact (ii_id w0 HI id inv Hi).
    - match goal with |- keepsI ?w1 (?m ?w2).2 => change w2 with w1; cut (KeepsI m); [intros Hm; apply Hm|] end.
      apply KeepsI_bind; [apply KeepsI_queue|auto with invite]. }
  unfold bind at 1, iwRandomToken. destruct (iw_entropy w0) as [|tok l] eqn:He; [apply keepsI_refl|]. by apply Ht.
Qed.

(** ** Acceptance *)
Lemma redeemable_ok hash w itp w1 : redeemable hash w = (Ok itp, w1) → w1 = w ∧
  (∃ id, Invitations (st w) !! id = Some itp.1.1) ∧ IvTokenHash itp.1.1 = hash ∧
  IvAcceptedAt itp.1.1 = None ∧ IvRevokedAt itp.1.1 = None ∧ (az_now (iw_az w) < IvExpiresAt itp.1.1)%Z ∧
  Tenants (st w) !! IvTenantID itp.1.1 = Some itp.1.2 ∧ TStatus itp.1.2 = "active" ∧
  ParsePolicy (TPolicy itp.1.2) (bool_decide (TKind itp.1.2 = "platform")) = (itp.2, None).
Proof using Type.
  unfold redeemable. unfold bind at 1, attempt at 1, txM at 1, azM at 1, stM at 1, InvitationByHash.
  destruct (find_first _ _) as [inv|] eqn:Ef; [|done]. apply find_first_Some in Ef as [Hin Hh]. apply bool_decide_eq_true in Hh.
  apply elem_of_values in Hin as [id Hid]. unfold bind at 1, iwNow, azM at 1, nowA, gets. cbn [iw_az az_now iw_entropy].
  destruct (bool_decide (IvAcceptedAt inv ≠ None)) eqn:E1; [done|]. destruct (bool_decide (IvRevokedAt inv ≠ None)) eqn:E2; [done|].
  destruct (_ <=? _)%Z eqn:E3; [done|]. cbn [orb]. unfold bind at 1, attempt at 1, txM at 1, azM at 1, stM at 1, TenantRow. cbn [iw_az az_st].
  destruct (Tenants _ !! IvTenantID inv) as [t|] eqn:Et; [|done]. destruct (bool_decide (TStatus t ≠ "active")) eqn:E4; [done|].
  destruct (ParsePolicy _ _) as [pol [e|]] eqn:Ep; [done|]. unfold ret. intros [= <- <-]. cbn [fst snd].
  apply bool_decide_eq_false, dec_stable in E1, E2, E4. apply Z.leb_gt in E3.
  split_and!; [by destruct w as [[]]|by exists id|done|done|done|done|done|done|done].
Qed.

Lemma user_key_inj tid tid' e e' : lacks "/" tid = true → lacks "/" tid' = true → userKey_ tid e = userKey_ tid' e' → tid = tid'.
Proof using Type.
  unfold user_key. intros H H' E. pose proof (cut_app "/" tid (ToLower unicode_lower e) H) as C1.
  pose proof (cut_app "/" tid' (ToLower unicode_lower e') H') as C2.
  change (tid +:+ "/" +:+ ToLower unicode_lower e) with (tid +:+ String "/" (ToLower unicode_lower e)) in E.
  change (tid' +:+ "/" +:+ ToLower unicode_lower e') with (tid' +:+ String "/" (ToLower unicode_lower e')) in E.
  rewrite E in C1. congruence.
Qed.

(** Setting the password and the status of the invited row touches that row. *)
Lemma each_user_row n s k u f : UInv n s → Users s !! k = Some u →
  each_user (UTenantID u) (UID u) f s = (Ok tt, set_Users s (<[k := f u]> (Users s))).
Proof using Type.
  intros [Hu _ _] Hk. unfold each_user, modify. f_equal. f_equal. apply map_eq. intros k'. rewrite lookup_fmap.
  destruct (decide (k' = k)) as [->|Hne].
  - rewrite Hk, lookup_insert_eq. cbn. by rewrite !bool_decide_eq_true_2.
  - rewrite lookup_insert_ne by done. destruct (Users s !! k') as [x|] eqn:Ex; [|done]. cbn.
    destruct (bool_decide (UTenantID x = UTenantID u)) eqn:E1; [|done]. destruct (bool_decide (UID x = UID u)) eqn:E2; [|done].
    apply bool_decide_eq_true in E1, E2. exfalso. apply Hne. by eapply (Hu k' k x u).
Qed.
Lemma update_user_row n s k u f : UInv n s → Users s !! k = Some u →
  update_user (UTenantID u) (UID u) f s = (Ok tt, set_Users s (<[k := f u]> (Users s))).
Proof using Type. intros [Hu _ _] Hk. unfold update_user. by rewrite (proj2 (userKey_iff s _ _ k u Hu)). Qed.

(** The account an acceptance leaves: a new one, or the row that was invited. *)
Definition activates s (inv : Invitation) (h : string) (u : User) : Prop :=
  UTenantID u = IvTenantID inv ∧ UStatus u = "active" ∧ UPasswordHash u = Some h ∧
  match Users s !! userKey_ (IvTenantID inv) (IvEmail inv) with
  | None => UEmail u = IvEmail inv
  | Some u0 => UStatus u0 = "invited" ∧ UID u = UID u0
  end.
Lemma acceptUser_ok inv dn h w u w' : UInv (ids w) (st w) → lacks "/" (IvTenantID inv) = true →
  acceptUser newID unicode_lower inv dn h w = (Ok u, w') →
  activates (st w) inv h u ∧ iw_entropy w' = iw_entropy w ∧ az_now (iw_az w') = az_now (iw_az w) ∧
  st w' = set_Users (st w) (<[userKey_ (IvTenantID inv) (IvEmail inv) := u]> (Users (st w))).
Proof using Type.
  intros HU Hl E. unfold acceptUser in E. unfold bind at 1, attempt at 1, txM at 1, azM at 1, stM at 1, UserByEmail in E.
  unfold activates. destruct (Users (st w) !! userKey_ (IvTenantID inv) (IvEmail inv)) as [u0|] eqn:Ek; cbn [fst snd] in E.
  - destruct (bool_decide (UStatus u0 = "invited")) eqn:Es; [|done]. apply bool_decide_eq_true in Es.
    destruct (ui_key _ _ HU _ _ Ek) as [Hkey Hl0].
    assert (Ht : IvTenantID inv = UTenantID u0) by by eapply user_key_inj. clear Hkey.
    set (k := userKey_ (IvTenantID inv) (IvEmail inv)) in *. rewrite Ht in E |- *.
    assert (HU1 : UInv (ids w) (set_Users (st w) (<[k := with_password h u0]> (Users (st w))))).
    { eapply (UInv_in_place _ (st w)); [|done]. intros k' x. cbn. intros [[<- <-]|[_ H]]%lookup_insert_Some; [by exists u0|by exists x]. }
    unfold bind at 1, txM at 1, azM at 1, stM at 1, SetPasswordHash in E. cbn [iw_az az_st] in E.
    rewrite (each_user_row _ _ k u0 (with_password h) HU Ek) in E. unfold bind at 1, txM at 1, azM at 1, stM at 1, UpdateUserStatus in E. cbn [iw_az az_st] in E.
    change (UTenantID u0) with (UTenantID (with_password h u0)) in E at 1. change (UID u0) with (UID (with_password h u0)) in E at 1.
    rewrite (update_user_row _ _ k (with_password h u0) (with_status "active") HU1) in E by (cbn; by rewrite lookup_insert_eq).
    unfold ret in E. injection E as <- <-. split_and!; try done. cbn [iw_az az_st].
    change (set_Users (set_Users ?s ?a) ?b) with (set_Users s b). cbn [Users set_Users]. by rewrite insert_insert_eq.
  - unfold bind at 1, iwNewID in E. cbn [iw_az az_ids] in E.
    unfold bind at 1, txM at 1, azM at 1, stM at 1, InsertUser in E. cbn [iw_az az_st UTenantID UEmail] in E. rewrite Ek in E.
    unfold ret in E. injection E as <- <-. done.
Qed.

Lemma KeepsI_acceptUser inv dn h : lacks "/" (IvTenantID inv) = true → KeepsI (acceptUser newID unicode_lower inv dn h : M W User).
Proof using Hids.
  intros Hl. unfold acceptUser. apply KeepsI_bind; [auto with invite|]. intros [u|e].
  - apply KeepsI_if; [|auto with invite]. apply KeepsI_bind; [|intros _; apply KeepsI_bind; [apply KeepsI_status|auto with invite]].
    apply KeepsI_tx. intros s. split; [done|by apply in_place_each].
  - destruct e; try (auto with invite; fail). cbv zeta. intros w. unfold bind at 1, iwNewID.
    unfold bind at 1, txM, azM, stM. cbn [iw_az iw_entropy az_st].
    match goal with |- context [InsertUser ?f ?u ?s] => pose proof (UInv_insert (ids w) s u) as HU;
      assert (Hi : Invitations (InsertUser f u s).2 = Invitations s) by (unfold InsertUser; by destruct (Users s !! _));
      destruct (InsertUser f u s) as [[[]|e'] s'] end; cbn [fst snd] in *;
      (apply keepsI_quiet; [done|cbn; lia|exact Hi|intros H; apply HU; done]).
Qed.
Lemma KeepsI_redeemable hash : KeepsI (redeemable hash : M W (Invitation * Tenant * Policy)).
Proof using Type.
  unfold redeemable. apply KeepsI_bind; [auto with invite|]. intros ri. apply KeepsI_bind; [auto with invite|]. intros now.
  destruct ri as [inv|e]; [|auto with invite]. apply KeepsI_if; [auto with invite|]. apply KeepsI_bind; [auto with invite|].
  intros [t|e]; [|auto with invite]. apply KeepsI_if; [auto with invite|]. destruct (ParsePolicy _ _) as [p [e|]]; auto with invite.
Qed.
Lemma KeepsI_join inv uid acc gid : KeepsI (join_group inv uid acc gid : M W (list Tuple * list string)).
Proof using Type.
  unfold join_group. apply KeepsI_bind; [auto with invite|]. intros [g|e]; [|auto with invite]. apply KeepsI_bind; [auto with invite|]. intros now.
  apply KeepsI_bind; [apply KeepsI_txU, AddGroupMembers_aside|auto with invite].
Qed.
Lemma KeepsI_Accept ctx tok dn pw : KeepsI (AcceptM ctx tok dn pw).
Proof using Hids.
  unfold Accept. apply KeepsI_if; [auto with invite|]. apply KeepsI_bind.
  - apply KeepsI_Atomic. unfold acceptTx. cbv zeta. apply KeepsI_bind_dep; [apply KeepsI_redeemable|]. intros w itp w1 HI E.
    apply redeemable_ok in E as (-> & (id & Hid) & _). destruct (ii_id w HI id _ Hid) as [_ Hl].
    match goal with |- keepsI w (?m w).2 => cut (KeepsI m); [intros Hm; apply Hm|] end.
    apply KeepsI_bind; [auto with invite|]. intros _. apply KeepsI_bind; [auto with invite|]. intros salt. apply KeepsI_bind; [auto with invite|]. intros h.
    apply KeepsI_bind; [by apply KeepsI_acceptUser|]. intros u. apply KeepsI_bind; [by apply KeepsI_read|]. intros all.
    apply KeepsI_bind; [by apply KeepsI_txU|]. intros _. apply KeepsI_bind; [auto with invite|]. intros now.
    apply KeepsI_bind; [apply KeepsI_accepted|]. intros _.
    apply KeepsI_bind; [apply KeepsI_fold_each; intros b x; apply KeepsI_join|]. intros gs.
    apply KeepsI_bind; [by apply KeepsI_read|]. intros eff. apply KeepsI_bind; auto with invite.
  - intros out. apply KeepsI_bind; [apply KeepsI_azM, Calm_Write|auto with invite].
Qed.

(** Calls that leave accounts, invitations and bindings alone. *)
Definition parts s := (Users s, Invitations s, Bindings s).
Definition Still {C} (m : M W C) : Prop := ∀ w, parts (st (m w).2) = parts (st w).
Lemma Still_bind {C D} (m : M W C) (k : C → M W D) : Still m → (∀ a, Still (k a)) → Still (bind m k).
Proof using Type. intros Hm Hk w. unfold bind. specialize (Hm w). destruct (m w) as [[a|e] w1]; [|done]. cbn in *. by rewrite Hk. Qed.
Lemma Still_join inv uid acc gid : Still (join_group inv uid acc gid).
Proof using Type.
  unfold join_group. apply Still_bind.
  - intros w. unfold attempt, txM, azM, stM. pose proof (read_GetGroup (IvTenantID inv) gid (st w)) as H.
    destruct (GetGroup _ _ _) as [r s]. cbn in *. by rewrite H.
  - intros [g|e]; [|done]. apply Still_bind; [done|]. intros now. apply Still_bind; [|done].
    intros w. unfold txM, azM, stM, AddGroupMembers. destruct (group_in _ _ _); [|done]. cbn [fold_each].
    unfold bind at 1 2, add_member. destruct (userByID _ _ uid); [|done]. by case_bool_decide.
Qed.
Lemma Still_fold {C D} (l : list C) (f : D → C → M W D) : (∀ b x, Still (f b x)) → ∀ b, Still (fold_each l b f).
Proof using Type. intros Hf. induction l as [|x l IH]; intros b; cbn [fold_each]; [done|]. apply Still_bind; [apply Hf|intros; apply IH]. Qed.

(** What a successful acceptance used and did. *)
Definition accepted_as w (tok pw : string) (out : Accepted) w' : Prop :=
  ∃ id inv h all,
    (Invitations (st w) !! id = Some inv ∧ IvTokenHash inv = HashToken tok ∧ IvAcceptedAt inv = None ∧
     IvRevokedAt inv = None ∧ (az_now (iw_az w) < IvExpiresAt inv)%Z) ∧
    (Tenants (st w) !! IvTenantID inv = Some (AcTenant out) ∧ TStatus (AcTenant out) = "active" ∧
     ParsePolicy (TPolicy (AcTenant out)) (bool_decide (TKind (AcTenant out) = "platform")) = (AcPolicy out, None) ∧
     Check (AcPolicy out) pw = Ok tt) ∧
    (activates (st w) inv h (AcUser out) ∧ PasswordVerify pw h = (true, false) ∧
     Users (st w') = <[userKey_ (IvTenantID inv) (IvEmail inv) := AcUser out]> (Users (st w))) ∧
    (Forall2 (λ rid r, role_in (st w) (IvTenantID inv) rid = Some r) (IvRoleIDs inv) all ∧
     Bindings (st w') !! map_key (IvTenantID inv) (UID (AcUser out)) = Some (RoID <$> filter (λ r, retired r = false) all)) ∧
    Invitations (st w') = <[id := with_accepted (az_now (iw_az w)) inv]> (Invitations (st w)).

Lemma Accept_ok ctx tok dn pw w out w' : IInv w → AcceptM ctx tok dn pw w = (Ok out, w') → accepted_as w tok pw out w'.
Proof using AL.
  intros HI E. unfold Accept in E. destruct (negb (token_shape tok)); [done|].
  apply bind_ok_inv in E as ([o tuples] & wA & EA & E). unfold Atomic in EA.
  destruct (acceptTx newID unicode_lower (HashToken tok) dn pw w) as [[r|e] wB] eqn:ET; [|done]. injection EA as -> ->.
  assert (Hst : parts (st w') = parts (st wA) ∧ out = o).
  { apply bind_ok_inv in E as ([] & wC & EC & E). unfold ret in E. injection E as <- <-. split; [|done].
    unfold azM in EC. pose proof (Calm_Write (SystemCtx ctx) (TID (AcTenant o)) tuples [] (iw_az wA)) as [HW _].
    cbn [fst snd] in EC. destruct (Write _ _ _ _ _) as [rw a]. injection EC as _ <-. cbn in *. by rewrite HW. }
  destruct Hst as [Hst ->]. clear E. unfold acceptTx in ET. cbv zeta in ET.
  apply bind_ok_inv in ET as (itp & w1 & E1 & ET). apply redeemable_ok in E1 as (-> & (id & Hid) & H1 & H2 & H3 & H4 & H5 & H6 & H7).
  destruct itp as [[inv t] pol]. cbn [fst snd] in *. destruct (ii_id w HI id inv Hid) as [Hivid Hl].
  apply bind_ok_inv in ET as ([] & w1 & E1 & ET). unfold lift in E1. destruct (Check pol pw) as [[]|] eqn:Hcheck; [|done]. injection E1 as <-.
  apply bind_ok_inv in ET as (salt & w1 & E1 & ET).
  assert (Hw1 : iw_az w1 = iw_az w).
  { unfold iwReadFull, bind, iwRandomToken in E1. destruct (iw_entropy w); [done|]. by injection E1 as _ <-. }
  apply bind_ok_inv in ET as (h & w2 & E2 & ET). unfold lift in E2. injection E2 as Eh <-.
  apply bind_ok_inv in ET as (u & w2 & E2 & ET).
  apply acceptUser_ok in E2 as (Hact & _ & Hnow2 & Hst2); [|rewrite Hw1; apply HI|done]. rewrite Hw1 in Hact, Hst2, Hnow2.
  apply bind_ok_inv in ET as (all & w3 & E3 & ET). unfold txM, azM, stM, RolesByID in E3. injection E3 as Hroles <-.
  rewrite Hst2 in Hroles. apply roles_by_id_Ok in Hroles.
  apply bind_ok_inv in ET as ([] & w4 & E4 & ET). unfold txM, azM, stM, ReplaceBindings, modify in E4. injection E4 as <-.
  apply bind_ok_inv in ET as (now & w4 & E4 & ET). unfold iwNow, azM, nowA, gets in E4. cbn [iw_az az_now] in E4. injection E4 as <- <-.
  apply bind_ok_inv in ET as ([] & w5 & E5 & ET).
  unfold txM at 1, azM at 1, stM at 1, MarkInvitationAccepted in E5. cbn [iw_az az_st iw_entropy] in E5. rewrite Hst2 in E5.
  cbn [Invitations set_Bindings set_Users] in E5. rewrite Hivid, Hid in E5. injection E5 as <-.
  apply bind_ok_inv in ET as (gs & w6 & E6 & ET).
  match type of E6 with fold_each ?l ?b ?f ?x = _ => pose proof (Still_fold l f (Still_join inv (UID u)) b x) as H6' end.
  rewrite E6 in H6'. cbn [snd iw_az az_st] in H6'.
  apply bind_ok_inv in ET as (eff & w7 & E7 & ET). unfold txM, azM, stM, MemStore.Roles in E7. injection E7 as _ <-.
  apply bind_ok_inv in ET as ([] & w8 & E8 & ET). unfold iwEmit, azM, emitE, modify in E8. injection E8 as <-.
  unfold ret in ET. injection ET as <- _ <-. cbn [iw_az az_st AcUser AcTenant AcPolicy] in *.
  rewrite H6' in Hst. unfold parts in Hst. cbn [Users Invitations Bindings set_Invitations set_Bindings set_Users] in Hst.
  injection Hst as Hu Hi Hb. exists id, inv, h, all. cbn [AcUser AcTenant AcPolicy].
  split_and!; try done.
  - destruct (Check_ok pol pw Hcheck) as (Hlen & _ & _). rewrite (Hash_verify (λ _, Some salt) salt pw h eq_refl Eh) by lia. by rewrite bool_decide_eq_true_2.
  - rewrite Hb. by rewrite lookup_insert_eq.
  - rewrite Hi, Hnow2. done.
Qed.

(** ** Histories *)
Inductive inv_step : W → W → Prop :=
  | is_create ctx actor tid p w : ValidTenantID tid = true → inv_step w (CreateM ctx actor tid p w).2
  | is_activate ctx actor tid uids p w : ValidTenantID tid = true → inv_step w (ActivateM ctx actor tid uids p w).2
  | is_resend actor tid id w : inv_step w (ResendM actor tid id w).2
  | is_accept ctx tok dn pw w : inv_step w (AcceptM ctx tok dn pw w).2
  | is_other w w' : (* anything that leaves the invitations alone and keeps accounts well formed *)
      Invitations (st w') = Invitations (st w) → (UInv (ids w) (st w) → UInv (ids w') (st w')) →
      iw_entropy w' `suffix_of` iw_entropy w → (ids w <= ids w')%nat → inv_step w w'.

Lemma keepsI_steps w w' : rtc inv_step w w' → keepsI w w'.
Proof using Hids Hinj Hesc.
  assert (Hsl : ∀ tid, ValidTenantID tid = true → lacks "/" tid = true).
  { intros tid. apply ValidTenantID_lacks. vm_compute. reflexivity. }
  induction 1 as [w|w1 w2 w3 Hs _ IH]; [apply keepsI_refl|]. eapply keepsI_trans; [|exact IH].
  destruct Hs as [ctx actor tid p w Ht|ctx actor tid uids p w Ht|actor tid id w|ctx tok dn pw w|w w' H1 H2 H3 H4].
  - by apply KeepsI_Create, Hsl.
  - by apply KeepsI_Activate, Hsl.
  - apply KeepsI_Resend.
  - apply KeepsI_Accept.
  - by apply keepsI_quiet.
Qed.

(** C22. An invitation makes one account active, once.  In any history that starts
    without invitations, an acceptance succeeds only with the token last sent
    for an invitation that is neither accepted, revoked nor expired, of an
    active tenant, and with a password its policy accepts.  It creates the
    account or activates the invited row, changes no other account (so an
    account in use cannot be taken over), binds exactly the invited roles that
    are not retired; and no history makes the token work again. *)
Theorem invitation_single_use w0 w ctx tok dn pw out w' :
  UInv (ids w0) (st w0) → NoDup (iw_entropy w0) → Invitations (st w0) = ∅ → rtc inv_step w0 w →
  AcceptM ctx tok dn pw w = (Ok out, w') →
  accepted_as w tok pw out w' ∧
  ∀ w2 ctx' dn' pw', rtc inv_step w' w2 → is_err (AcceptM ctx' tok dn' pw' w2).1 = true.
Proof using AL Hids Hinj Hesc.
  intros Hu0 Hn0 He0 Hst E.
  assert (HI : IInv w).
  { apply (keepsI_steps w0 w Hst). split; [done|done|rewrite He0..].
    - by intros id i Hi%lookup_empty_Some.
    - by intros id i Hi%lookup_empty_Some.
    - by intros id id' i i' Hi%lookup_empty_Some. }
  pose proof (Accept_ok ctx tok dn pw w out w' HI E) as Hacc. split; [done|]. intros w2 ctx' dn' pw' Hst2.
  destruct Hacc as (id & inv & h & all & (Hid & Hh & _) & _ & _ & _ & Hi).
  destruct (KeepsI_Accept ctx tok dn pw w HI) as (HI' & _ & _ & _). rewrite E in HI'. cbn [snd] in HI'.
  assert (Hid' : Invitations (st w') !! id = Some (with_accepted (az_now (iw_az w)) inv)) by by rewrite Hi, lookup_insert_eq.
  assert (Ht' : tok ∉ iw_entropy w').
  { destruct (ii_drawn w' HI' id _ Hid') as (t' & Et & Hn). cbn in Et. rewrite Hh in Et. apply Hinj in Et. by subst t'. }
  assert (Hs' : spentI w' tok).
  { intros j x Hx Hhx. assert (j = id) as ->. { eapply (ii_unique w' HI' j id x); [done|done|]. cbn. congruence. }
    rewrite Hid' in Hx. by injection Hx as <-. }
  destruct (keepsI_steps w' w2 Hst2 HI') as (HI2 & _ & _ & Hs2). specialize (Hs2 tok Ht' Hs').
  destruct (AcceptM ctx' tok dn' pw' w2) as [[o|e] w3] eqn:E3; [|done]. exfalso.
  destruct (Accept_ok ctx' tok dn' pw' w2 o w3 HI2 E3) as (j & i & _ & _ & (Hj & Hhj & Hnone & _) & _).
  by apply (Hs2 j i Hj Hhj).
Qed.
End InviteSafety.
