(* ===== verification/AuthzFacts.v ===== *)
(** * What the authorization operations do to the store and the tuples

    Inversion lemmas for the client, the escalation guard and the store calls,
    shared by the theorems on the services. *)
From S2P Require Import Prelude GoStrings Regex PermRef TenantCtx Models Cache AuditEvents Session MemStore.
From S2P Require Import Fga MemRoles AuthzClient AuthzServices.
#[local] Open Scope list_scope.
#[local] Open Scope go_scope.
#[local] Set Default Proof Using "Type".

Section Facts.
Context {B K : Type} `{BackendLaws B} `{KVLaws K}.
Notation W := (AZ B K).
Implicit Types (w : W) (tid uid : string).

Definition tuplesW w : gset Tuple := tuples (az_fga w).

(** Nothing a decision depends on has changed. *)
Record same w w' : Prop := mkSame {
  same_st : az_st w' = az_st w;
  same_ts : tuplesW w' = tuplesW w;
  same_now : az_now w' = az_now w;
  same_ids : az_ids w' = az_ids w;
}.
Lemma same_refl w : same w w.
Proof. done. Qed.
Lemma same_trans w1 w2 w3 : same w1 w2 → same w2 w3 → same w1 w3.
Proof. intros [? ? ? ?] [? ? ? ?]. split; congruence. Qed.

Definition with_st w (s : Store) : W :=
  mkAZ s (az_fga w) (az_cache w) (az_audit w) (az_refusals w) (az_now w) (az_ids w).
Lemma with_st_id w : with_st w (az_st w) = w.
Proof. by destruct w. Qed.

Lemma stM_inv {A} (m : M Store A) w r w' :
  stM m w = (r, w') → ∃ s, m (az_st w) = (r, s) ∧ w' = with_st w s.
Proof. unfold stM. destruct (m (az_st w)) as [r' s]. intros [= <- <-]. eauto. Qed.

(** A store call that only reads. *)
Definition reads {A} (m : M Store A) : Prop := ∀ s, (m s).2 = s.
Lemma stM_read {A} (m : M Store A) w r w' :
  reads m → stM m w = (r, w') → w' = w ∧ (m (az_st w)).1 = r.
Proof.
  intros Hr E. apply stM_inv in E as (s & E & ->). specialize (Hr (az_st w)). rewrite E in *.
  simpl in *. subst. by rewrite with_st_id.
Qed.

Lemma requireM_ok ctx tid w u w' : requireM ctx tid w = (Ok u, w') → w' = w ∧ may_enter ctx tid.
Proof.
  unfold requireM. destruct (Require ctx tid) as [r o] eqn:E. intros [= -> <-]. destruct u.
  split; [|by apply Require_ok_iff; rewrite E]. by destruct (Require_ok_actor _ _ _ E) as (_ & _ & _ & ->).
Qed.

Lemma actorM_ok ctx w a w' : actorM ctx w = (Ok a, w') → w' = w ∧ ctx_actor ctx = Some a.
Proof. unfold actorM, FromContext. destruct (ctx_actor ctx); by intros [= -> ->]. Qed.

Lemma scoped_ok ctx tid objs w u w' :
  scoped ctx tid objs w = (Ok u, w') →
  w' = w ∧ may_enter ctx tid ∧ Forall (λ o, ObjectTenant o = Ok tid) objs.
Proof.
  unfold scoped. intros E. apply bind_ok_inv in E as (? & w1 & E1 & E). apply requireM_ok in E1 as [-> Hm].
  split; [|split; [done|]].
  - revert w E. induction objs as [|o objs IH]; intros w E; cbn [for_each] in E; [by injection E|].
    apply bind_ok_inv in E as (? & w1 & E1 & E). apply bind_ok_inv in E1 as (? & w2 & E1 & E2).
    injection E1 as _ <-. case_bool_decide; [done|]. injection E2 as _ <-. eauto.
  - revert w E. induction objs as [|o objs IH]; intros w E; cbn [for_each] in E; [constructor|].
    apply bind_ok_inv in E as (? & w1 & E1 & E). apply bind_ok_inv in E1 as (ot & w2 & E1 & E2).
    injection E1 as Ho <-. case_bool_decide as Hn; [done|]. injection E2 as _ <-.
    constructor; [|eauto]. destruct (decide (ot = tid)) as [->|]; [done|]. done.
Qed.

Lemma fgaM_inv {A} (m : M B A) w r w' :
  fgaM m w = (r, w') → ∃ b, m (az_fga w) = (r, b) ∧
    w' = mkAZ (az_st w) b (az_cache w) (az_audit w) (az_refusals w) (az_now w) (az_ids w).
Proof. unfold fgaM. destruct (m (az_fga w)) as [r' b]. intros [= <- <-]. eauto. Qed.

Lemma kvM_same {A} d (m : M K A) w : same w (kvM d m w).2.
Proof. unfold kvM. destruct (az_cache w) as [k|]; [|done]. by destruct (m k). Qed.
Lemma ignore_same {A} (m : M W A) w : same w (m w).2 → same w (ignore m w).2.
Proof. unfold ignore. by destruct (m w). Qed.
Lemma emitE_same e w : same w (emitE e w).2.
Proof. done. Qed.

Definition can tid uid (ts : gset Tuple) (p : Ref) : Prop := holdsT ts (granted_tuple tid uid p).

Lemma AllowedMany_ok ctx tid uid ps w l w' :
  AllowedMany ctx tid uid ps w = (Ok l, w') →
  same w w' ∧ may_enter ctx tid ∧ Forall2 (λ p b, b = true ↔ can tid uid (tuplesW w) p) ps l.
Proof.
  unfold AllowedMany. intros E. apply bind_ok_inv in E as (? & w1 & E1 & E).
  apply scoped_ok in E1 as (-> & Hm & _). apply fgaM_inv in E as (b & E & ->).
  apply b_batch_law in E as [Ht Hl]. split; [done|]. split; [done|].
  specialize (Hl l eq_refl). by rewrite Forall2_fmap_l in Hl.
Qed.

(** Granting needs ownership, the system, or holding every permission. *)
Lemma MayGrant_ok ctx a tid perms w u w' :
  MayGrant ctx a tid perms w = (Ok u, w') →
  same w w' ∧ (hasSlug (ARoles a) "owner" = false → AKind a ≠ KindSystem →
               ∀ p, p ∈ perms → can tid (AUserID a) (tuplesW w) p).
Proof.
  unfold MayGrant. destruct (bool_decide (perms = []) || _) eqn:Eb.
  { intros [= _ <-]. split; [done|]. intros Ho _ p Hp. rewrite Ho, orb_false_r in Eb. bool_prop. subst. set_solver. }
  clear Eb. case_bool_decide as Hk; [intros E; unfold ret in E; simplify_eq; by split|]. intros E. apply bind_ok_inv in E as (l & w1 & E1 & E).
  apply AllowedMany_ok in E1 as (Hs & _ & Hl). destruct (forallb id l) eqn:Ef; [|done]. injection E as _ <-.
  split; [done|]. intros _ _ p Hp. clear Hs.
  induction Hl as [|q b ps l Hb Hl IH]; [set_solver|]. cbn in Ef. apply andb_true_iff in Ef as [Hb1 Hl1].
  apply elem_of_cons in Hp as [->|Hp]; [by apply Hb|auto].
Qed.

Lemma Write_ok ctx tid adds removes w u w' :
  Write ctx tid adds removes w = (Ok u, w') →
  az_st w' = az_st w ∧ az_now w' = az_now w ∧ az_ids w' = az_ids w ∧
  tuplesW w' = (tuplesW w ∪ list_to_set adds) ∖ list_to_set removes ∧
  may_enter ctx tid ∧
  (∀ t, t ∈ adds ++ removes → ObjectTenant (TuObject t) = Ok tid ∧ (TuRelation t = "tenant" → TuUser t = TenantObject tid)).
Proof.
  unfold Write. intros E. apply bind_ok_inv in E as (? & w1 & E1 & E).
  assert (Hw1 : w1 = w ∧ ∀ t, t ∈ adds ++ removes → tenant_tuple_ok t = true).
  { clear E. revert E1. generalize (adds ++ removes). intros l. revert w.
    induction l as [|t l IH]; intros w E1; cbn [for_each] in E1; [injection E1 as _ <-; set_solver|].
    apply bind_ok_inv in E1 as (? & w2 & E3 & E2). destruct (tenant_tuple_ok t) eqn:Et; [|done].
    injection E3 as _ <-. destruct (IH _ E2) as [-> Hl]. split; [done|]. set_solver. }
  destruct Hw1 as [-> Htt]. clear E1. apply bind_ok_inv in E as (? & w1 & E1 & E). apply scoped_ok in E1 as (-> & Hm & Ho).
  apply bind_ok_inv in E as (? & w1 & E1 & E). apply fgaM_inv in E1 as (b & E1 & ->). apply b_write_law in E1.
  apply bind_ok_inv in E as (now & w2 & E2 & E). injection E2 as _ <-.
  match type of E with ignore (kvM ?d ?m) ?v = _ =>
    pose proof (ignore_same _ v (kvM_same d m v)) as [S1 S2 S3 S4]; rewrite E in S1, S2, S3, S4 end.
  simpl in *. split_and!; [congruence..| |done|].
  - rewrite S2. exact E1.
  - intros t Ht. assert (Hot : ObjectTenant (TuObject t) = Ok tid).
    { rewrite Forall_fmap in Ho. rewrite Forall_forall in Ho. by apply Ho. }
    split; [done|]. intros Hr. specialize (Htt t Ht). unfold tenant_tuple_ok in Htt. rewrite Hot in Htt.
    bool_prop. rewrite Hr, bool_decide_eq_true_2 in Htt by done. simpl in Htt. bool_prop.
    destruct (decide (TuUser t = TenantObject tid)); [done|]. done.
Qed.

(** A write never touches the tuples of another tenant. *)
Theorem write_confined ctx tid adds removes w w' tid' :
  Write ctx tid adds removes w = (Ok tt, w') → tid' ≠ tid →
  may_enter ctx tid ∧ tenant_part tid' (tuplesW w') = tenant_part tid' (tuplesW w).
Proof.
  intros E Hne. apply Write_ok in E as (_ & _ & _ & Ht & Hm & Ho). split; [done|]. rewrite Ht.
  unfold tenant_part. apply set_eq. intros t. rewrite !elem_of_filter, elem_of_difference, elem_of_union, !elem_of_list_to_set.
  split.
  - intros [Hot [[?|Ha] _]]; [done|]. destruct (Ho t) as [Hot' _]; [set_solver|]. congruence.
  - intros [Hot Hin]. split_and!; [done|by left|]. intros Hr. destruct (Ho t) as [Hot' _]; [set_solver|]. congruence.
Qed.
End Facts.
