(* ===== verification/Mirror.v ===== *)
(** * The relational mirror and the tuple store agree

    The services keep every role binding, group membership, group role and
    grant twice: as rows (the mirror) and as OpenFGA tuples.  [Mirror] says
    that the access tuples are exactly those the rows call for; under it, what
    the model derives is what the rows say ([has_perm], the abstract
    specification of a permission check). *)
From S2P Require Import Prelude GoStrings Regex PermRef TenantCtx Models Cache AuditEvents Session MemStore.
From S2P Require Import Fga MemRoles AuthzClient AuthzServices AuthzFacts.
#[local] Open Scope list_scope.
#[local] Open Scope go_scope.

(** ** Store invariant *)
Record RoleInv (st : Store) : Prop := mkRoleInv {
  ri_key : ∀ id r, RoleRows st !! id = Some r → RoID r = id;
  ri_slug : ∀ id id' r r', RoleRows st !! id = Some r → RoleRows st !! id' = Some r' →
              RoTenantID r = RoTenantID r' → RoSlug r = RoSlug r' → id = id';
  ri_perm : ∀ id p, p ∈ role_perms st id → wf_ref p = true;
  ri_catalogue : ∀ tid p, p ∈ default [] (Permissions st !! tid) → wf_ref (PermissionRefOf p) = true;
}.

(** The tuples that decide access (not tenant links, not tenant membership). *)
Definition access (t : Tuple) : bool :=
  bool_decide (TuRelation t = "assignee") || bool_decide (TuRelation t = "granted") ||
  (bool_decide (TuRelation t = "member") && negb (if cut_prefix "tenant:" (TuObject t) then true else false)).

Inductive mirrored (st : Store) : Tuple → Prop :=
  | mi_binding tid uid id r :
      ValidTenantID tid = true → id ∈ bindings_of st tid uid → role_in st tid id = Some r →
      mirrored st (RoleAssignmentTuple tid (RoSlug r) uid)
  | mi_group_role tid gid g id r :
      ValidTenantID tid = true → group_in st tid gid = Some g → id ∈ groles_of st gid → role_in st tid id = Some r →
      mirrored st (GroupRoleTuple tid gid (RoSlug r))
  | mi_member tid gid g uid :
      ValidTenantID tid = true → group_in st tid gid = Some g → uid ∈ members_of st gid →
      mirrored st (GroupMembershipTuple tid gid uid)
  | mi_grant tid id r p :
      ValidTenantID tid = true → role_in st tid id = Some r → p ∈ role_perms st id →
      mirrored st (GrantTuple tid (RoSlug r) p).

Definition Mirror (st : Store) (ts : gset Tuple) : Prop := ∀ t, access t = true → (t ∈ ts ↔ mirrored st t).

(** ** The specification: what the rows say a user may do *)
Definition holds_role (st : Store) (tid uid id : string) : Prop :=
  id ∈ bindings_of st tid uid ∨
  ∃ gid g, group_in st tid gid = Some g ∧ uid ∈ members_of st gid ∧ id ∈ groles_of st gid.
Definition has_perm (st : Store) (tid uid : string) (p : Ref) : Prop :=
  ∃ id r, role_in st tid id = Some r ∧ p ∈ role_perms st id ∧ holds_role st tid uid id.

Section MirrorFacts.
Implicit Types (st : Store) (ts : gset Tuple) (tid uid gid slug : string).

Lemma role_in_Some st tid id r : role_in st tid id = Some r ↔ RoleRows st !! id = Some r ∧ RoTenantID r = tid.
Proof. unfold role_in. destruct (RoleRows st !! id); [case_bool_decide|]; naive_solver. Qed.

Lemma role_in_slug st tid id id' r r' :
  RoleInv st → role_in st tid id = Some r → role_in st tid id' = Some r' → RoSlug r = RoSlug r' →
  id = id' ∧ r = r'.
Proof.
  intros HI [H1 T1]%role_in_Some [H2 T2]%role_in_Some Hs.
  assert (id = id') as -> by (eapply ri_slug; eauto; congruence). split; [done|congruence].
Qed.

Lemma role_in_id st tid id r : RoleInv st → role_in st tid id = Some r → RoID r = id.
Proof. intros HI [H _]%role_in_Some. by eapply ri_key. Qed.

(** Inversion, one form at a time. *)
Lemma mirrored_cases st t : mirrored st t →
  (∃ tid uid id r, ValidTenantID tid = true ∧ id ∈ bindings_of st tid uid ∧ role_in st tid id = Some r ∧
     t = RoleAssignmentTuple tid (RoSlug r) uid) ∨
  (∃ tid gid g id r, ValidTenantID tid = true ∧ group_in st tid gid = Some g ∧ id ∈ groles_of st gid ∧
     role_in st tid id = Some r ∧ t = GroupRoleTuple tid gid (RoSlug r)) ∨
  (∃ tid gid g uid, ValidTenantID tid = true ∧ group_in st tid gid = Some g ∧ uid ∈ members_of st gid ∧
     t = GroupMembershipTuple tid gid uid) ∨
  (∃ tid id r p, ValidTenantID tid = true ∧ role_in st tid id = Some r ∧ p ∈ role_perms st id ∧
     t = GrantTuple tid (RoSlug r) p).
Proof. destruct 1; [left|right; left|right; right; left|right; right; right]; repeat eexists; eauto. Qed.

Lemma assign_inj tid tid' slug slug' uid uid' : ValidTenantID tid = true → ValidTenantID tid' = true →
  RoleAssignmentTuple tid slug uid = RoleAssignmentTuple tid' slug' uid' → tid = tid' ∧ slug = slug' ∧ uid = uid'.
Proof.
  intros V V' E. pose proof (f_equal TuUser E) as Eu. pose proof (f_equal TuObject E) as Eo.
  apply UserObject_inj in Eu. apply RoleObject_inj in Eo; naive_solver.
Qed.
Lemma group_role_inj tid tid' slug slug' gid gid' : ValidTenantID tid = true → ValidTenantID tid' = true →
  GroupRoleTuple tid gid slug = GroupRoleTuple tid' gid' slug' → tid = tid' ∧ gid = gid' ∧ slug = slug'.
Proof.
  intros V V' E. pose proof (f_equal TuUser E) as Eu. pose proof (f_equal TuObject E) as Eo.
  apply str_app_inj_r, GroupObject_inj in Eu; [|done..]. apply RoleObject_inj in Eo; naive_solver.
Qed.
Lemma member_inj tid tid' gid gid' uid uid' : ValidTenantID tid = true → ValidTenantID tid' = true →
  GroupMembershipTuple tid gid uid = GroupMembershipTuple tid' gid' uid' → tid = tid' ∧ gid = gid' ∧ uid = uid'.
Proof.
  intros V V' E. pose proof (f_equal TuUser E) as Eu. pose proof (f_equal TuObject E) as Eo.
  apply UserObject_inj in Eu. apply GroupObject_inj in Eo; naive_solver.
Qed.
Lemma grant_inj tid tid' slug slug' p p' : ValidTenantID tid = true → ValidTenantID tid' = true →
  wf_ref p = true → wf_ref p' = true →
  GrantTuple tid slug p = GrantTuple tid' slug' p' → tid = tid' ∧ slug = slug' ∧ p = p'.
Proof.
  intros V V' W W' E. pose proof (f_equal TuUser E) as Eu. pose proof (f_equal TuObject E) as Eo.
  apply str_app_inj_r, RoleObject_inj in Eu; [|done..]. apply RefObject_inj in Eo; naive_solver.
Qed.
Lemma assign_group_role tid tid' slug slug' uid gid : RoleAssignmentTuple tid slug uid ≠ GroupRoleTuple tid' gid slug'.
Proof. intros E. apply (f_equal TuUser) in E. discriminate E. Qed.

Lemma mirrored_assign st tid slug uid : ValidTenantID tid = true →
  mirrored st (RoleAssignmentTuple tid slug uid) ↔
  ∃ id r, id ∈ bindings_of st tid uid ∧ role_in st tid id = Some r ∧ RoSlug r = slug.
Proof.
  intros Hv. split; [|intros (id & r & Hb & Hr & <-); by econstructor].
  intros [(t & u & id & r & Hv' & Hb & Hr & E)|[(t & g & G & id & r & ? & ? & ? & ? & E)|[(? & ? & ? & ? & ? & ? & ? & E)|(? & ? & ? & ? & ? & ? & ? & E)]]]%mirrored_cases.
  - apply assign_inj in E as (-> & -> & ->); eauto.
  - by apply assign_group_role in E.
  - by apply (f_equal TuRelation) in E.
  - by apply (f_equal TuRelation) in E.
Qed.

Lemma mirrored_group_role st tid gid slug : ValidTenantID tid = true →
  mirrored st (GroupRoleTuple tid gid slug) ↔
  ∃ g id r, group_in st tid gid = Some g ∧ id ∈ groles_of st gid ∧ role_in st tid id = Some r ∧ RoSlug r = slug.
Proof.
  intros Hv. split; [|intros (g & id & r & ? & ? & ? & <-); by econstructor].
  intros [(t & u & id & r & Hv' & Hb & Hr & E)|[(t & g & G & id & r & ? & ? & ? & ? & E)|[(? & ? & ? & ? & ? & ? & ? & E)|(? & ? & ? & ? & ? & ? & ? & E)]]]%mirrored_cases.
  - by apply symmetry, assign_group_role in E.
  - apply group_role_inj in E as (-> & -> & ->); eauto 10.
  - by apply (f_equal TuRelation) in E.
  - by apply (f_equal TuRelation) in E.
Qed.

Lemma mirrored_member st tid gid uid : ValidTenantID tid = true →
  mirrored st (GroupMembershipTuple tid gid uid) ↔
  ∃ g, group_in st tid gid = Some g ∧ uid ∈ members_of st gid.
Proof.
  intros Hv. split; [|intros (g & ? & ?); by econstructor].
  intros [(t & u & id & r & Hv' & Hb & Hr & E)|[(t & g & G & id & r & ? & ? & ? & ? & E)|[(? & ? & ? & ? & ? & ? & ? & E)|(? & ? & ? & ? & ? & ? & ? & E)]]]%mirrored_cases.
  - by apply (f_equal TuRelation) in E.
  - by apply (f_equal TuRelation) in E.
  - apply member_inj in E as (-> & -> & ->); eauto.
  - by apply (f_equal TuRelation) in E.
Qed.

Lemma mirrored_grant st tid slug p : RoleInv st → ValidTenantID tid = true → wf_ref p = true →
  mirrored st (GrantTuple tid slug p) ↔
  ∃ id r, role_in st tid id = Some r ∧ RoSlug r = slug ∧ p ∈ role_perms st id.
Proof.
  intros HI Hv Hw. split; [|intros (id & r & ? & <- & ?); by econstructor].
  intros [(t & u & id & r & Hv' & Hb & Hr & E)|[(t & g & G & id & r & ? & ? & ? & ? & E)|[(? & ? & ? & ? & ? & ? & ? & E)|(? & ? & ? & ? & ? & ? & ? & E)]]]%mirrored_cases.
  - by apply (f_equal TuRelation) in E.
  - by apply (f_equal TuRelation) in E.
  - by apply (f_equal TuRelation) in E.
  - apply grant_inj in E as (-> & -> & ->); eauto 10 using ri_perm.
Qed.

Lemma access_forms st t : mirrored st t → access t = true.
Proof. by destruct 1. Qed.

Lemma Mirror_iff st ts t : Mirror st ts → access t = true → (t ∈ ts ↔ mirrored st t).
Proof. auto. Qed.

(** ** Derivations of the model under the mirror *)
Lemma group_member_iff st ts tid uid gid :
  Mirror st ts → ValidTenantID tid = true →
  holds ts (UserObject uid) "member" (GroupObject tid gid) ↔
  ∃ g, group_in st tid gid = Some g ∧ uid ∈ members_of st gid.
Proof.
  intros HM Hv. rewrite <- mirrored_member by done. rewrite <- (HM (GroupMembershipTuple tid gid uid)) by done. split.
  - intros Hh. inversion Hh; subst; done.
  - intros Hin. by apply holds_direct.
Qed.

(** Only groups and tenants have members. *)
Lemma member_shape st ts u g : Mirror st ts → holds ts u "member" g →
  (∃ rest, g = "tenant:" +:+ rest) ∨ (∃ tid gid, g = GroupObject tid gid).
Proof.
  intros HM Hh. inversion Hh as [? ? Hd| rest Ha | | |]; subst; [|by left; exists rest].
  destruct (cut_prefix "tenant:" g) as [rest|] eqn:Ec; [left; exists rest; by apply cut_prefix_Some|right].
  apply HM in Hd; [|unfold access; cbn [TuRelation TuObject]; by rewrite Ec].
  apply mirrored_cases in Hd as [(? & ? & ? & ? & ? & ? & ? & E)|[(? & ? & ? & ? & ? & ? & ? & ? & ? & E)|[(t & gid & ? & ? & ? & ? & ? & E)|(? & ? & ? & ? & ? & ? & ? & E)]]];
    try by apply (f_equal TuRelation) in E.
  apply (f_equal TuObject) in E. exists t, gid. exact E.
Qed.

Lemma assignee_iff st ts tid uid slug :
  RoleInv st → Mirror st ts → ValidTenantID tid = true →
  holds ts (UserObject uid) "assignee" (RoleObject tid slug) ↔
  ∃ id r, role_in st tid id = Some r ∧ RoSlug r = slug ∧ holds_role st tid uid id.
Proof.
  intros HI HM Hv. split.
  - intros Hh. inversion Hh as [? ? Hd| | |g o Hk Hg|]; subst.
    + change (mkTuple (UserObject uid) "assignee" (RoleObject tid slug)) with (RoleAssignmentTuple tid slug uid) in Hd.
      apply HM in Hd; [|done]. apply mirrored_assign in Hd as (id & r & ? & ? & ?); [|done].
      exists id, r. split_and!; try done. by left.
    + apply HM in Hk; [|done].
      apply mirrored_cases in Hk as [(t & u & id & r & Hv' & Hb & Hr & E)|[(t & g0 & G & id & r & Hv' & HG & Hi & Hr & E)|[(? & ? & ? & ? & ? & ? & ? & E)|(? & ? & ? & ? & ? & ? & ? & E)]]];
        try by apply (f_equal TuRelation) in E.
      { exfalso. apply (f_equal TuUser) in E.
        destruct (member_shape _ _ _ _ HM Hg) as [[rest ->]|(t' & g' & ->)]; discriminate E. }
      pose proof (f_equal TuUser E) as Eu. pose proof (f_equal TuObject E) as Eo. simpl in Eu, Eo.
      apply str_app_inj_r in Eu as ->. apply RoleObject_inj in Eo as [<- ->]; [|done..].
      apply (group_member_iff st) in Hg as (G' & HG' & Hm); [|done..].
      exists id, r. split_and!; try done. right. exists g0, G. done.
  - intros (id & r & Hr & <- & [Hb|(gid & g & Hg & Hm & Hi)]).
    + apply holds_direct. apply (HM (RoleAssignmentTuple tid (RoSlug r) uid)); [done|]. by econstructor.
    + eapply (holds_assignee _ _ (GroupObject tid gid)).
      * apply (HM (GroupRoleTuple tid gid (RoSlug r))); [done|]. by econstructor.
      * apply (group_member_iff st); eauto.
Qed.

Lemma can_iff st ts tid uid p :
  RoleInv st → Mirror st ts → ValidTenantID tid = true → wf_ref p = true →
  can tid uid ts p ↔ has_perm st tid uid p.
Proof.
  intros HI HM Hv Hw. unfold can, holdsT, granted_tuple. simpl. split.
  - intros Hh. inversion Hh as [? ? Hd| | | |role o Hk Hg]; subst.
    + apply HM in Hd; [|done]. inversion Hd.
    + apply HM in Hk; [|done].
      apply mirrored_cases in Hk as [(? & ? & ? & ? & ? & ? & ? & E)|[(? & ? & ? & ? & ? & ? & ? & ? & ? & E)|[(? & ? & ? & ? & ? & ? & ? & E)|(t & id & r & q & Hv' & Hr & Hq & E)]]];
        try by apply (f_equal TuRelation) in E.
      pose proof (f_equal TuUser E) as Eu. pose proof (f_equal TuObject E) as Eo.
      apply str_app_inj_r in Eu as ->. apply RefObject_inj in Eo as [<- <-]; eauto using ri_perm.
      apply (assignee_iff st) in Hg as (id' & r' & Hr' & Hs & Hh'); [|done..].
      destruct (role_in_slug st tid id' id r' r) as [-> ->]; [done..|]. exists id, r. done.
  - intros (id & r & Hr & Hp & Hh). eapply (holds_granted _ _ (RoleObject tid (RoSlug r))).
    + apply (HM (GrantTuple tid (RoSlug r) p)); [done|]. by econstructor.
    + apply (assignee_iff st); eauto 10.
Qed.

(** A permission check answered by the tuples is the one the rows specify. *)
Theorem mirror_refines st ts tid uid p :
  RoleInv st → Mirror st ts → ValidTenantID tid = true → wf_ref p = true →
  (check check_depth ts (granted_tuple tid uid p) = true ↔ has_perm st tid uid p).
Proof. intros. rewrite check_iff. by apply can_iff. Qed.

Lemma Mirror_update st st' ts (adds removes : list Tuple) :
  Mirror st ts →
  (∀ t, access t = true → (mirrored st' t ↔ (mirrored st t ∨ t ∈ adds) ∧ t ∉ removes)) →
  Mirror st' ((ts ∪ list_to_set adds) ∖ list_to_set removes).
Proof.
  intros HM Hu t Ha. rewrite (Hu t Ha), <- (HM t Ha).
  rewrite elem_of_difference, elem_of_union, !elem_of_list_to_set. done.
Qed.
End MirrorFacts.
