(* ===== verification/AuthzSafety.v ===== *)
(** * Safety of role assignment, roles and groups

    Every successful operation keeps the mirror, none hands out a permission
    its caller lacks, an owner is never removed last and never granted through
    a group. *)
From S2P Require Import Prelude GoStrings Regex PermRef TenantCtx Models Cache AuditEvents Session MemStore.
From S2P Require Import Fga MemRoles AuthzClient AuthzServices AuthzFacts Mirror.
#[local] Open Scope list_scope.
#[local] Open Scope go_scope.
#[local] Set Default Proof Using "Type".

Section Safety.
Context {B K : Type} `{BackendLaws B} `{KVLaws K}.
Notation W := (AZ B K).
Implicit Types (w : W) (st : Store) (tid uid gid slug : string).

(** ** Helpers on role lists *)
Lemma containsRole_iff l id : containsRole l id = true ↔ ∃ r, r ∈ l ∧ RoID r = id.
Proof.
  unfold containsRole. rewrite existsb_exists. setoid_rewrite bool_decide_eq_true.
  setoid_rewrite list_elem_of_In. done.
Qed.
Lemma containsRole_false l id : containsRole l id = false ↔ ∀ r, r ∈ l → RoID r ≠ id.
Proof.
  rewrite <- not_true_iff_false, containsRole_iff. naive_solver.
Qed.
Lemma containsSlug_iff l slug : containsSlug l slug = true ↔ ∃ r, r ∈ l ∧ RoSlug r = slug.
Proof.
  unfold containsSlug. rewrite existsb_exists. setoid_rewrite bool_decide_eq_true.
  setoid_rewrite list_elem_of_In. done.
Qed.
Lemma elem_of_dedupe id l : id ∈ dedupe l ↔ id ∈ l.
Proof. unfold dedupe. rewrite elem_of_dedup_from. set_solver. Qed.

(** Roles of a store, as the lists the services compare. *)
Definition rows_of st tid (l : list Role) : Prop := ∀ r, r ∈ l → role_in st tid (RoID r) = Some r.

Lemma rows_of_by_id st tid ids l : RoleInv st → roles_by_id st tid ids = Ok l →
  rows_of st tid l ∧ RoID <$> l = ids.
Proof.
  intros HI Hl%roles_by_id_Ok. split.
  - intros r Hr. destruct (Forall2_in_r _ _ _ _ Hl Hr) as (id & _ & Hid). by rewrite (role_in_id _ _ _ _ HI Hid).
  - induction Hl as [|id r ids l Hid Hl IH]; [done|]. cbn. by rewrite IH, (role_in_id _ _ _ _ HI Hid).
Qed.

Lemma rows_of_omap st tid ids : RoleInv st → rows_of st tid (omap (role_in st tid) ids).
Proof.
  intros HI r Hr. apply list_elem_of_omap in Hr as (id & _ & Hid). by rewrite (role_in_id _ _ _ _ HI Hid).
Qed.

Lemma rows_of_eq st tid l l' r r' :
  RoleInv st → rows_of st tid l → rows_of st tid l' → r ∈ l → r' ∈ l' → RoSlug r = RoSlug r' → r = r'.
Proof.
  intros HI Hl Hl' Hr Hr' Hs.
  by destruct (role_in_slug st tid _ _ _ _ HI (Hl r Hr) (Hl' r' Hr') Hs).
Qed.

Lemma rows_of_contains st tid l r : rows_of st tid l → role_in st tid (RoID r) = Some r →
  containsRole l (RoID r) = true ↔ r ∈ l.
Proof.
  intros Hl Hr. rewrite containsRole_iff. split; [|eauto]. intros (r' & Hr' & E). specialize (Hl r' Hr').
  rewrite E in Hl. congruence.
Qed.

(** The tuples [AssignRoles] adds or removes. *)
Lemma elem_of_assign_adds tid uid want have t :
  t ∈ assign_adds tid uid want have ↔ ∃ r, r ∈ want ∧ containsRole have (RoID r) = false ∧
    (t = RoleAssignmentTuple tid (RoSlug r) uid ∨ RoSlug r = "owner" ∧ t = MembershipTuple tid uid "owner").
Proof.
  unfold assign_adds. rewrite list_elem_of_In, in_concat. setoid_rewrite <- list_elem_of_In.
  setoid_rewrite list_elem_of_fmap. split.
  - intros (x & (r & -> & Hr) & Ht). destruct (containsRole have (RoID r)) eqn:E; [set_solver|].
    exists r. split_and!; try done. case_bool_decide; set_solver.
  - intros (r & Hr & E & Ht). eexists. split; [by exists r|]. rewrite E.
    destruct Ht as [->|[Hs ->]]; [set_solver|]. rewrite bool_decide_eq_true_2 by done. set_solver.
Qed.

Lemma map_key_inj tid tid' uid uid' : ValidTenantID tid = true → ValidTenantID tid' = true →
  map_key tid uid = map_key tid' uid' → tid = tid' ∧ uid = uid'.
Proof.
  intros V V' E. unfold map_key in E.
  assert (E' : cut "/" (tid +:+ "/" +:+ uid) = cut "/" (tid' +:+ "/" +:+ uid')) by by rewrite E.
  rewrite !cut_tenant in E' by done. by injection E' as -> ->.
Qed.

Lemma bindings_of_set st k l tid uid :
  bindings_of (set_Bindings st (<[k := l]> (Bindings st))) tid uid =
  if decide (map_key tid uid = k) then l else bindings_of st tid uid.
Proof.
  unfold bindings_of. simpl. case_decide as E; [by rewrite E, lookup_insert_eq|].
  by rewrite lookup_insert_ne by congruence.
Qed.

(** ** Read-only steps *)
Lemma reads_intro {A} (f : Store → result A) : reads (λ s, (f s, s)).
Proof. by intros s. Qed.
Lemma reads_RolePermissions tid id : reads (RolePermissions tid id).
Proof. intros s. unfold RolePermissions. by destruct (role_in s tid id). Qed.
Lemma reads_GetGroup tid id : reads (GetGroup tid id).
Proof. intros s. unfold GetGroup. by destruct (group_in s tid id). Qed.
Lemma reads_GroupRoles tid id : reads (GroupRoles tid id).
Proof. intros s. unfold GroupRoles. by destruct (group_in s tid id). Qed.
Lemma reads_RoleByID tid id : reads (RoleByID tid id).
Proof. intros s. unfold RoleByID. by destruct (role_in s tid id). Qed.
Lemma reads_IsGroupMember tid id uid : reads (IsGroupMember tid id uid).
Proof. intros s. unfold IsGroupMember. by destruct (group_in s tid id). Qed.
Lemma reads_CountGroupMembers tid id : reads (CountGroupMembers tid id).
Proof. intros s. unfold CountGroupMembers. by destruct (group_in s tid id). Qed.

Lemma RolePermissions_ok tid id w l w' :
  stM (RolePermissions tid id) w = (Ok l, w') →
  w' = w ∧ l = role_perms (az_st w) id ∧ is_Some (role_in (az_st w) tid id).
Proof.
  intros E. apply stM_read in E as [-> E]; [|apply reads_RolePermissions]. unfold RolePermissions in E.
  destruct (role_in (az_st w) tid id); [|done]. injection E as <-. eauto.
Qed.

Lemma granting_ok tid roles : ∀ acc w perms w',
  granting tid roles acc w = (Ok perms, w') →
  w' = w ∧ (∀ p, p ∈ acc → p ∈ perms) ∧
  ∀ r, r ∈ roles → RoSlug r ≠ "owner" ∧ RoSlug r ≠ "admin" ∧ ∀ p, p ∈ role_perms (az_st w) (RoID r) → p ∈ perms.
Proof.
  induction roles as [|r roles IH]; intros acc w perms w'; cbn [granting].
  - intros [= -> ->]. set_solver.
  - destruct (_ || _) eqn:Eb; [done|]. intros E. apply bind_ok_inv in E as (ps & w1 & E1 & E).
    apply RolePermissions_ok in E1 as (-> & -> & _). destruct (IH _ _ _ _ E) as (-> & Hacc & Hr).
    bool_prop. split_and!; [done|set_solver|]. intros r' [->|Hin]%elem_of_cons; [|by apply Hr].
    split_and!; try done. intros p Hp. apply Hacc. set_solver.
Qed.

Lemma refuseRetired_ok roles : refuseRetired roles = Ok tt → ∀ r, r ∈ roles → RoRetiredAt r = None.
Proof.
  unfold refuseRetired. destruct (existsb _ roles) eqn:E; [done|]. intros _ r Hr.
  destruct (RoRetiredAt r) eqn:Er; [|done]. exfalso. apply not_true_iff_false in E. apply E.
  apply existsb_exists. exists r. rewrite Er. split; [by apply list_elem_of_In|done].
Qed.

(** Who may hand out what: an owner anything, anyone else only what they
    hold (the system is exempt), and never owner or admin. *)
Lemma MayAssign_ok ctx a tid ids w u w' :
  RoleInv (az_st w) → MayAssign ctx a tid ids w = (Ok u, w') →
  same w w' ∧ ∀ r, role_in (az_st w) tid (RoID r) = Some r → RoID r ∈ ids →
    RoRetiredAt r = None ∧
    (hasSlug (ARoles a) "owner" = false →
     RoSlug r ≠ "owner" ∧ RoSlug r ≠ "admin" ∧
     (AKind a ≠ KindSystem → ∀ p, p ∈ role_perms (az_st w) (RoID r) → can tid (AUserID a) (tuplesW w) p)).
Proof.
  intros HI. unfold MayAssign. intros E. apply bind_ok_inv in E as (? & w1 & E1 & E). apply requireM_ok in E1 as [-> _].
  case_bool_decide; [subst; injection E as _ <-; split; [done|set_solver]|].
  apply bind_ok_inv in E as (roles & w1 & E1 & E). apply stM_read in E1 as [-> E1]; [|apply reads_intro]. simpl in E1.
  apply bind_ok_inv in E as ([] & w1 & E2 & E). injection E2 as Hret <-.
  destruct (rows_of_by_id _ _ _ _ HI E1) as [Hrows Hids].
  assert (Hin : ∀ r, role_in (az_st w) tid (RoID r) = Some r → RoID r ∈ ids → r ∈ roles).
  { intros r Hr Hid. apply elem_of_dedupe in Hid. rewrite <- Hids in Hid.
    apply list_elem_of_fmap in Hid as (r' & E' & Hr'). specialize (Hrows _ Hr'). rewrite <- E' in Hrows. congruence. }
  destruct (hasSlug (ARoles a) "owner") eqn:Ho.
  { injection E as _ <-. split; [done|]. intros r Hr Hid. split; [|done].
    eapply refuseRetired_ok; eauto. }
  apply bind_ok_inv in E as (perms & w1 & E3 & E). apply granting_ok in E3 as (-> & _ & Hg).
  apply MayGrant_ok in E as [Hs Hm]. split; [done|]. intros r Hr Hid. specialize (Hin r Hr Hid).
  split; [eapply refuseRetired_ok; eauto|]. intros _. destruct (Hg r Hin) as (? & ? & Hp). split_and!; try done.
  intros Hk p Hpp. apply Hm; auto.
Qed.

Lemma emit_tuples_ok typ a tid uid ts w r w' : emit_tuples typ a tid uid ts w = (r, w') → same w w'.
Proof.
  unfold emit_tuples. revert w. induction ts as [|t ts IH]; intros w; cbn [for_each]; [by intros [= _ <-]|].
  unfold bind. case_bool_decide; cbn; intros E; apply IH in E; [|done].
  eapply same_trans; [|done]. done.
Qed.

(** ** AssignRoles *)
Record assigned ctx tid uid (ids : list string) w w' (a : Actor) (want have : list Role) : Prop := mkAssigned {
  as_actor : ctx_actor ctx = Some a;
  as_want : roles_by_id (az_st w) tid (dedupe ids) = Ok want;
  as_have : have = omap (role_in (az_st w) tid) (bindings_of (az_st w) tid uid);
  as_may : ∀ r, r ∈ want → containsRole have (RoID r) = false →
    RoRetiredAt r = None ∧
    (hasSlug (ARoles a) "owner" = false →
     RoSlug r ≠ "owner" ∧ RoSlug r ≠ "admin" ∧
     (AKind a ≠ KindSystem → ∀ p, p ∈ role_perms (az_st w) (RoID r) → can tid (AUserID a) (tuplesW w) p));
  as_owner : containsSlug have "owner" = true → containsSlug want "owner" = false →
    (2 <= count_with_role (az_st w) tid "owner")%nat;
  as_st : az_st w' = set_Bindings (az_st w) (<[map_key tid uid := RoID <$> want]> (Bindings (az_st w)));
  as_ts : tuplesW w' = (tuplesW w ∪ list_to_set (assign_adds tid uid want have)) ∖
                       list_to_set (assign_adds tid uid have want);
  as_ids : az_ids w' = az_ids w;
}.

Lemma AssignRoles_ok ctx tid uid ids w slugs w' :
  RoleInv (az_st w) → AssignRoles ctx tid uid ids w = (Ok slugs, w') →
  ∃ a want have, assigned ctx tid uid ids w w' a want have ∧ slugs = RoSlug <$> want.
Proof.
  intros HI. unfold AssignRoles. intros E.
  apply bind_ok_inv in E as (a & w1 & E1 & E). apply actorM_ok in E1 as [-> Ha].
  apply bind_ok_inv in E as (? & w1 & E1 & E). apply requireM_ok in E1 as [-> _].
  apply bind_ok_inv in E as (want & w1 & E1 & E). apply stM_read in E1 as [-> E1]; [|apply reads_intro]. simpl in E1.
  apply bind_ok_inv in E as (have & w1 & E2 & E). apply stM_read in E2 as [-> E2]; [|apply reads_intro].
  simpl in E2. injection E2 as Ehave.
  apply bind_ok_inv in E as (may & w1 & E3 & E). unfold attempt in E3.
  destruct (MayAssign _ _ _ _ w) as [may' w1'] eqn:Em. injection E3 as -> ->.
  apply bind_ok_inv in E as (? & w2 & E4 & E).
  destruct may as [u|e]; [|exfalso; destruct (_ || _); done]. injection E4 as _ <-.
  apply MayAssign_ok in Em as [Hs Hmay]; [|done].
  destruct Hs as [S1 S2 S3 S4].
  apply bind_ok_inv in E as (? & w2 & E5 & E).
  assert (Hown : w2 = w1 ∧ (containsSlug have "owner" = true → containsSlug want "owner" = false →
                            (2 <= count_with_role (az_st w) tid "owner")%nat)).
  { destruct (containsSlug have "owner") eqn:O1, (containsSlug want "owner") eqn:O2; cbn [andb negb] in E5;
      try (injection E5 as _ <-; split; [done|done]).
    apply bind_ok_inv in E5 as (n & w3 & E5 & E6). apply stM_read in E5 as [-> E5]; [|apply reads_intro].
    cbn in E5. injection E5 as <-. destruct (_ <=? _)%Z eqn:En; [done|]. injection E6 as _ <-.
    bool_prop. rewrite <- S1. split; [done|]. intros _ _. lia. }
  destruct Hown as [-> Hown]. clear E5.
  apply bind_ok_inv in E as (? & w2 & E5 & E). apply stM_inv in E5 as (s & E5 & ->). injection E5 as _ <-.
  apply bind_ok_inv in E as (? & w2 & E6 & E). apply Write_ok in E6 as (T1 & T2 & T3 & T4 & _ & _).
  apply bind_ok_inv in E as (? & w3 & E7 & E). apply emit_tuples_ok in E7 as [U1 U2 U3 U4].
  apply bind_ok_inv in E as (? & w4 & E8 & E). apply emit_tuples_ok in E8 as [V1 V2 V3 V4].
  injection E as <- <-. exists a, want, have. split; [|done].
  destruct (rows_of_by_id _ _ _ _ HI E1) as [Hrows _]. split; try done.
  - intros r Hr Hc. apply Hmay; [by apply Hrows|]. apply list_elem_of_fmap. exists r. split; [done|].
    apply list_elem_of_filter. done.
  - rewrite V1, U1, T1. cbn. by rewrite S1.
  - rewrite V2, U2, T4. unfold tuplesW at 1. cbn. fold (tuplesW w1). by rewrite S2.
  - rewrite V4, U4, T3. cbn. done.
Qed.

Lemma elem_of_have st tid uid r :
  r ∈ omap (role_in st tid) (bindings_of st tid uid) ↔ ∃ id, id ∈ bindings_of st tid uid ∧ role_in st tid id = Some r.
Proof. apply list_elem_of_omap. Qed.

Lemma not_in_assign_adds st tid uid want have t :
  (∀ slug, t ≠ RoleAssignmentTuple tid slug uid) → access t = true → t ∉ assign_adds tid uid want have.
Proof.
  intros Hne Ha Hin. apply elem_of_assign_adds in Hin as (r & _ & _ & [->|[_ ->]]); [by eapply Hne|].
  vm_compute in Ha. done.
Qed.

Lemma assign_form_dec tid uid t :
  (∃ slug, t = RoleAssignmentTuple tid slug uid) ∨ (∀ slug, t ≠ RoleAssignmentTuple tid slug uid).
Proof.
  set (s0 := default "" (cut_prefix ("role:" +:+ tid +:+ "/") (TuObject t))).
  destruct (decide (t = RoleAssignmentTuple tid s0 uid)) as [E|Hne]; [left; eauto|right].
  intros slug E. apply Hne. rewrite E. f_equal. unfold s0. rewrite E. cbn [TuObject RoleAssignmentTuple].
  unfold RoleObject. replace ("role:" +:+ tid +:+ "/" +:+ slug) with (("role:" +:+ tid +:+ "/") +:+ slug)
    by by rewrite !str_app_assoc. by rewrite cut_prefix_app.
Qed.

Lemma assign_mirror st tid uid want have t :
  RoleInv st → ValidTenantID tid = true → rows_of st tid want →
  have = omap (role_in st tid) (bindings_of st tid uid) → access t = true →
  let st' := set_Bindings st (<[map_key tid uid := RoID <$> want]> (Bindings st)) in
  mirrored st' t ↔ (mirrored st t ∨ t ∈ assign_adds tid uid want have) ∧ t ∉ assign_adds tid uid have want.
Proof.
  intros HI Hv Hw Hh Ha st'.
  assert (Hhv : rows_of st tid have) by (subst have; by apply rows_of_omap).
  assert (Hother : ∀ t', access t' = true → (∀ slug, t' ≠ RoleAssignmentTuple tid slug uid) →
            (mirrored st' t' ↔ mirrored st t')).
  { intros t' Ha' Hne. split; intros Hm;
      apply mirrored_cases in Hm as [(x & u & id & r & Hv' & Hb & Hr & ->)|[(x & g & G & id & r & ? & ? & ? & ? & ->)|[(x & g & G & u & ? & ? & ? & ->)|(x & id & r & p & ? & ? & ? & ->)]]];
      try by econstructor.
    - unfold st' in Hb. rewrite bindings_of_set in Hb. case_decide as Ek; [|by econstructor].
      apply map_key_inj in Ek as [-> ->]; [|done..]. by destruct (Hne (RoSlug r)).
    - apply (mi_binding st' x u id r); [done| |done]. unfold st'. rewrite bindings_of_set. case_decide as Ek; [|done].
      apply map_key_inj in Ek as [-> ->]; [|done..]. by destruct (Hne (RoSlug r)). }
  destruct (assign_form_dec tid uid t) as [[slug ->]|Hne].
  2: { rewrite Hother by done. split; [|intros [[?|Hin] _]; [done|]].
       - intros Hm. split; [by left|by apply not_in_assign_adds].
       - by apply not_in_assign_adds in Hin. }
  assert (HW : mirrored st' (RoleAssignmentTuple tid slug uid) ↔ ∃ r, r ∈ want ∧ RoSlug r = slug).
  { rewrite mirrored_assign by done. unfold st'. rewrite bindings_of_set, decide_True by done.
    setoid_rewrite list_elem_of_fmap. split.
    - intros (id & r & (r' & -> & Hr') & Hr & Hs). exists r'. split; [done|].
      specialize (Hw r' Hr'). change (role_in st tid (RoID r') = Some r) in Hr. congruence.
    - intros (r & Hr & Hs). exists (RoID r), r. split_and!; [eauto|by apply Hw|done]. }
  assert (HH : mirrored st (RoleAssignmentTuple tid slug uid) ↔ ∃ r, r ∈ have ∧ RoSlug r = slug).
  { rewrite mirrored_assign by done. rewrite Hh. setoid_rewrite elem_of_have. naive_solver. }
  assert (HA : ∀ l l', rows_of st tid l → RoleAssignmentTuple tid slug uid ∈ assign_adds tid uid l l' ↔
            ∃ r, r ∈ l ∧ containsRole l' (RoID r) = false ∧ RoSlug r = slug).
  { intros l l' Hl. rewrite elem_of_assign_adds. split.
    - intros (r & Hr & Hc & [E|[_ E]]); [|by apply (f_equal TuRelation) in E].
      apply assign_inj in E as (_ & -> & _); [|done..]. eauto.
    - intros (r & Hr & Hc & <-). eauto. }
  rewrite HW, HH, !HA by done. split.
  - intros (r & Hr & Hs). split.
    + destruct (containsRole have (RoID r)) eqn:Ec; [left|right; eauto].
      exists r. split; [|done]. eapply rows_of_contains; [exact Hhv|by apply Hw|done].
    + intros (r' & Hr' & Hc & Hs'). assert (r' = r) as -> by (apply (rows_of_eq st tid have want); [done..|congruence]).
      rewrite (proj2 (rows_of_contains st tid want r Hw (Hw r Hr))) in Hc; done.
  - intros [[(r & Hr & Hs)|(r & Hr & _ & Hs)] Hn]; [|eauto].
    destruct (containsRole want (RoID r)) eqn:Ec; [|by destruct Hn; eauto].
    exists r. split; [|done]. eapply rows_of_contains; [exact Hw|by apply Hhv|done].
Qed.

Lemma RoleInv_tables st st' :
  RoleRows st' = RoleRows st → RolePerms st' = RolePerms st → Permissions st' = Permissions st →
  RoleInv st → RoleInv st'.
Proof.
  intros E1 E2 E3 [I1 I2 I3 I4]. split; unfold role_perms in *; rewrite ?E1, ?E2, ?E3; done.
Qed.

Context (newID : nat → string) `{!Inj (=) (=) newID}.

(** Identifiers not drawn yet are used nowhere. *)
Record unused st (id : string) : Prop := mkUnused {
  un_role : RoleRows st !! id = None;
  un_perms : RolePerms st !! id = None;
  un_group : groups st !! id = None;
  un_members : members st !! id = None;
  un_groles : groles st !! id = None;
  un_bound : ∀ k ids, Bindings st !! k = Some ids → id ∉ ids;
  un_group_bound : ∀ k ids, groles st !! k = Some ids → id ∉ ids;
}.
Definition Fresh st (n0 : nat) : Prop := ∀ n, (n0 <= n)%nat → unused st (newID n).

Record Good w : Prop := mkGood {
  good_inv : RoleInv (az_st w);
  good_mirror : Mirror (az_st w) (tuplesW w);
  good_fresh : Fresh (az_st w) (az_ids w);
}.

Lemma Good_same w w' : same w w' → Good w → Good w'.
Proof. intros [E1 E2 E3 E4] [G1 G2 G3]. split; by rewrite ?E1, ?E2, ?E4. Qed.

Lemma Fresh_mono st n n' : (n <= n')%nat → Fresh st n → Fresh st n'.
Proof. intros Hn HF m Hm. apply HF. lia. Qed.

Lemma assigned_Good ctx tid uid ids w w' a want have :
  ValidTenantID tid = true → assigned ctx tid uid ids w w' a want have → Good w → Good w'.
Proof.
  intros Hv [Ha Hw Hh _ _ Hst Hts Hids] [HI HM HF].
  destruct (rows_of_by_id _ _ _ _ HI Hw) as [Hrows _]. split.
  - rewrite Hst. eapply RoleInv_tables; [..|exact HI]; done.
  - rewrite Hst, Hts. eapply Mirror_update; [exact HM|]. intros t Hat. by apply assign_mirror.
  - rewrite Hst, Hids. intros n Hn. destruct (HF n Hn) as [F1 F2 F3 F4 F5 F6 F7]. split; try done.
    cbn. intros k l. destruct (decide (k = map_key tid uid)) as [->|Hk].
    + rewrite lookup_insert_eq. intros [= <-] Hin. apply list_elem_of_fmap in Hin as (r & Er & Hr).
      specialize (Hrows r Hr). apply role_in_Some in Hrows as [Hrows _]. rewrite <- Er in Hrows. congruence.
    + rewrite lookup_insert_ne by done. apply F6.
Qed.

(** ** Grants of one role *)
Definition slug_in st tid id : option string := RoSlug <$> role_in st tid id.

Lemma slug_in_Some st tid id slug : slug_in st tid id = Some slug ↔ ∃ r, role_in st tid id = Some r ∧ RoSlug r = slug.
Proof. unfold slug_in. destruct (role_in st tid id); naive_solver. Qed.

(** Same bindings and groups, same slug for every role id. *)
Record same_roles st st' : Prop := mkSameRoles {
  sr_bind : Bindings st' = Bindings st;
  sr_groups : groups st' = groups st;
  sr_members : members st' = members st;
  sr_groles : groles st' = groles st;
  sr_slug : ∀ tid id, slug_in st' tid id = slug_in st tid id;
}.

Lemma same_roles_sym st st' : same_roles st st' → same_roles st' st.
Proof. intros [? ? ? ? Hs]. by split. Qed.

Lemma same_roles_role st st' tid id r :
  same_roles st st' → role_in st tid id = Some r → ∃ r', role_in st' tid id = Some r' ∧ RoSlug r' = RoSlug r.
Proof.
  intros Hs Hr. apply slug_in_Some. rewrite (sr_slug _ _ Hs). apply slug_in_Some. eauto.
Qed.

Lemma same_roles_mirrored st st' t :
  same_roles st st' → mirrored st t →
  mirrored st' t ∨ ∃ tid id r p, ValidTenantID tid = true ∧ role_in st tid id = Some r ∧ p ∈ role_perms st id ∧
                     t = GrantTuple tid (RoSlug r) p.
Proof.
  intros Hs Hm. pose proof Hs as [E1 E2 E3 E4 _].
  apply mirrored_cases in Hm as [(x & u & id & r & Hv' & Hb & Hr & ->)|[(x & g & G & id & r & ? & ? & ? & Hr & ->)|[(x & g & G & u & ? & ? & ? & ->)|(x & id & r & p & ? & ? & ? & ->)]]].
  - left. destruct (same_roles_role _ _ _ _ _ Hs Hr) as (r' & Hr' & <-). econstructor; eauto.
    unfold bindings_of. by rewrite E1.
  - left. destruct (same_roles_role _ _ _ _ _ Hs Hr) as (r' & Hr' & <-).
    eapply mi_group_role; eauto; unfold group_in, groles_of; rewrite ?E2, ?E4; done.
  - left. eapply mi_member; eauto; unfold group_in, members_of; rewrite ?E2, ?E3; done.
  - right. eauto 10.
Qed.

Lemma grants_mirror st st' tid id slug (news olds : list Ref) t :
  RoleInv st → RoleInv st' → ValidTenantID tid = true → same_roles st st' →
  slug_in st tid id = Some slug →
  (∀ id', id' ≠ id → role_perms st' id' = role_perms st id') →
  (∀ p, p ∈ role_perms st' id ↔ (p ∈ role_perms st id ∨ p ∈ news) ∧ p ∉ olds) →
  (∀ p, p ∈ news ++ olds → wf_ref p = true) → access t = true →
  mirrored st' t ↔ (mirrored st t ∨ t ∈ GrantTuple tid slug <$> news) ∧ t ∉ GrantTuple tid slug <$> olds.
Proof. clear Inj0.
  intros HI HI' Hv Hs Hslug Hne Hid Hwf Ha. apply slug_in_Some in Hslug as (r & Hr & <-).
  destruct (same_roles_role _ _ _ _ _ Hs Hr) as (r' & Hr' & Er').
  assert (Hold : ∀ x id0 r0 p, ValidTenantID x = true → wf_ref p = true → role_in st x id0 = Some r0 →
            GrantTuple x (RoSlug r0) p ∈ GrantTuple tid (RoSlug r) <$> olds → x = tid ∧ id0 = id ∧ p ∈ olds).
  { intros x id0 r0 p Hx Hp Hr0 Hin. apply list_elem_of_fmap in Hin as (q & E & Hq).
    apply grant_inj in E as (-> & Es & ->); [|done..|apply Hwf; set_solver].
    destruct (role_in_slug st tid id0 id r0 r) as [-> ->]; done. }
  assert (Hnew : ∀ p, p ∈ news → mirrored st' (GrantTuple tid (RoSlug r) p) ↔ p ∈ role_perms st' id).
  { intros p Hp. rewrite mirrored_grant by (try done; apply Hwf; set_solver). split.
    - intros (id0 & r0 & Hr0 & Es & Hp0). by destruct (role_in_slug st' tid id0 id r0 r') as [-> _]; [done..|congruence|].
    - intros Hp'. exists id, r'. done. }
  split.
  - intros Hm. destruct (same_roles_mirrored st' st t (same_roles_sym _ _ Hs) Hm)
      as [Hm'|(x & id0 & r0 & p & Hx & Hr0 & Hp & ->)].
    + split; [by left|]. intros Hin. apply list_elem_of_fmap in Hin as (q & -> & Hq).
      assert (wf_ref q = true) by (apply Hwf; set_solver).
      apply mirrored_grant in Hm as (id0 & r0 & Hr0 & Es & Hp0); [|done..].
      destruct (role_in_slug st' tid id0 id r0 r') as [-> _]; [done..|congruence|]. apply Hid in Hp0. tauto.
    + destruct (same_roles_role _ _ _ _ _ (same_roles_sym _ _ Hs) Hr0) as (r1 & Hr1 & Es). rewrite <- Es.
      assert (Hwp : wf_ref p = true) by (by eapply ri_perm; eauto).
      destruct (decide (id0 = id)) as [->|Hd].
      * apply role_in_Some in Hr1 as Hx1. apply role_in_Some in Hr as Hx2. assert (x = tid) as -> by naive_solver.
        assert (r1 = r) as -> by congruence. apply Hid in Hp as [Hp Hno]. split.
        -- destruct Hp as [Hp|Hp]; [left; by econstructor|right; apply list_elem_of_fmap; eauto].
        -- intros Hin. destruct (Hold _ _ _ _ Hx Hwp Hr1 Hin) as (_ & _ & ?). done.
      * rewrite Hne in Hp by done. split; [left; by econstructor|]. intros Hin.
        by destruct (Hold _ _ _ _ Hx Hwp Hr1 Hin) as (_ & -> & _).
  - intros [[Hm|Hin] Hno].
    + destruct (same_roles_mirrored st st' t Hs Hm) as [?|(x & id0 & r0 & p & Hx & Hr0 & Hp & ->)]; [done|].
      destruct (same_roles_role _ _ _ _ _ Hs Hr0) as (r1 & Hr1 & Es). rewrite <- Es.
      econstructor; [done..|]. destruct (decide (id0 = id)) as [->|Hd]; [|by rewrite Hne].
      apply Hid. split; [by left|]. intros Hpo. apply Hno. apply role_in_Some in Hr0 as Hx1. apply role_in_Some in Hr as Hx2.
      assert (x = tid) as -> by naive_solver. assert (r0 = r) as -> by congruence. apply list_elem_of_fmap. eauto.
    + apply list_elem_of_fmap in Hin as (p & -> & Hp). apply Hnew; [done|]. apply Hid. split; [by right|].
      intros Hpo. apply Hno. apply list_elem_of_fmap. eauto.
Qed.

Lemma elem_of_sortRefs p l : p ∈ sortRefs l ↔ p ∈ l.
Proof. unfold sortRefs. by rewrite sorting.merge_sort_Permutation. Qed.
Lemma elem_of_dedup p (l : list Ref) : p ∈ dedup_from [] l ↔ p ∈ l.
Proof. clear Inj0. rewrite elem_of_dedup_from. set_solver. Qed.

Lemma role_perms_set st id l id' :
  role_perms (set_RolePerms st (<[id := l]> (RolePerms st))) id' = if decide (id' = id) then l else role_perms st id'.
Proof.
  unfold role_perms. simpl. case_decide as E; [by rewrite E, lookup_insert_eq|]. by rewrite lookup_insert_ne.
Qed.

Lemma RoleInv_set_perms st id l :
  (∀ p, p ∈ l → wf_ref p = true) → RoleInv st → RoleInv (set_RolePerms st (<[id := l]> (RolePerms st))).
Proof.
  intros Hl [I1 I2 I3 I4]. split; try done. intros id' p. rewrite role_perms_set. case_decide; eauto.
Qed.

(** Adding or removing tuples that do not decide access keeps the mirror. *)
Lemma Mirror_noise st ts (adds : gset Tuple) :
  (∀ t, t ∈ adds → access t = false) → Mirror st ts → Mirror st (ts ∪ adds).
Proof.
  intros Hn HM t Ha. rewrite elem_of_union, (HM t Ha). split; [|tauto]. intros [?|Hin]; [done|].
  specialize (Hn t Hin). congruence.
Qed.

(** ** Permission lists from requests *)
Lemma parse_refs_ok known kept refs : ∀ out l,
  parse_refs known kept refs out = Ok l → (∀ p, p ∈ out → p ∈ known) →
  ∀ p, p ∈ l → p ∈ known.
Proof.
  induction refs as [|s refs IH]; intros out l; cbn [parse_refs]; [by intros [= <-]|].
  destruct (ParsePermissionRef s) as [ref|]; [|done]. destruct (_ || _) eqn:Eb; [done|]. bool_prop.
  intros E Hout. eapply IH; [exact E|]. case_bool_decide; [done|]. intros p [?|Hp]%elem_of_app; [auto|].
  apply list_elem_of_singleton in Hp as ->. done.
Qed.

Lemma knownRefs_ok tid w l w' :
  RoleInv (az_st w) → knownRefs tid w = (Ok l, w') → w' = w ∧ ∀ p, p ∈ l → wf_ref p = true.
Proof.
  intros HI. unfold knownRefs. intros E. apply bind_ok_inv in E as (ps & w1 & E1 & E).
  apply stM_read in E1 as [-> E1]; [|apply reads_intro]. injection E1 as <-. injection E as <- <-.
  split; [done|]. intros p Hp. apply list_elem_of_fmap in Hp as (x & -> & Hx).
  rewrite sorting.merge_sort_Permutation in Hx. by eapply ri_catalogue.
Qed.

Lemma parsePerms_ok tid refs kept w perms w' :
  RoleInv (az_st w) → parsePerms tid refs kept w = (Ok perms, w') → w' = w ∧ ∀ p, p ∈ perms → wf_ref p = true.
Proof. clear Inj0.
  intros HI. unfold parsePerms. intros E. apply bind_ok_inv in E as (known & w1 & E1 & E).
  apply knownRefs_ok in E1 as [-> Hk]; [|done]. injection E as E <-. split; [done|].
  intros p Hp. apply Hk. eapply parse_refs_ok; eauto. set_solver.
Qed.

Lemma ReplaceRolePermissions_ok tid id perms w u w' :
  stM (ReplaceRolePermissions tid id perms) w = (Ok u, w') →
  is_Some (role_in (az_st w) tid id) ∧
  w' = with_st w (set_RolePerms (az_st w) (<[id := sortRefs (dedup_from [] perms)]> (RolePerms (az_st w)))).
Proof.
  intros E. apply stM_inv in E as (s & E & ->). unfold ReplaceRolePermissions in E.
  destruct (role_in (az_st w) tid id); [|done]. injection E as _ <-. eauto.
Qed.

(** The last two steps of every change of grants: tuples, then mirror. *)
Lemma write_grants_Good ctx tid id slug (news olds perms : list Ref) extra w w1 w2 u u' :
  Good w → ValidTenantID tid = true → slug_in (az_st w) tid id = Some slug →
  (∀ t, t ∈ extra → access t = false) →
  (∀ p, p ∈ news ++ olds ++ perms → wf_ref p = true) →
  (∀ p, p ∈ perms ↔ (p ∈ role_perms (az_st w) id ∨ p ∈ news) ∧ p ∉ olds) →
  Write ctx tid (extra ++ (GrantTuple tid slug <$> news)) (GrantTuple tid slug <$> olds) w = (Ok u, w1) →
  stM (ReplaceRolePermissions tid id perms) w1 = (Ok u', w2) →
  Good w2 ∧ tuplesW w2 = (tuplesW w ∪ list_to_set (extra ++ (GrantTuple tid slug <$> news))) ∖
                        list_to_set (GrantTuple tid slug <$> olds) ∧
  role_perms (az_st w2) id = sortRefs (dedup_from [] perms) ∧
  (∀ id', id' ≠ id → role_perms (az_st w2) id' = role_perms (az_st w) id') ∧
  same_roles (az_st w) (az_st w2).
Proof. clear Inj0.
  intros [HI HM HF] Hv Hslug Hx Hwf Hp E1 E2.
  apply Write_ok in E1 as (S1 & _ & S3 & S4 & _ & _). apply ReplaceRolePermissions_ok in E2 as [_ ->].
  assert (HI2 : RoleInv (az_st (with_st w1 (set_RolePerms (az_st w1) (<[id := sortRefs (dedup_from [] perms)]> (RolePerms (az_st w1))))))).
  { cbn. rewrite S1. apply RoleInv_set_perms; [|done]. intros p. rewrite elem_of_sortRefs, elem_of_dedup. set_solver. }
  cbn in *. rewrite S1 in *. split_and!; [split|..]; cbn; rewrite ?S1.
  - exact HI2.
  - unfold tuplesW in S4 |- *. cbn. rewrite S4, list_to_set_app_L, assoc_L by apply _.
    eapply Mirror_update; [by apply Mirror_noise; [|exact HM]; set_solver|]. intros t Ha.
    apply (grants_mirror (az_st w) _ tid id slug news olds); try done.
    + intros id' Hne. rewrite role_perms_set. by rewrite decide_False.
    + intros p. rewrite role_perms_set, decide_True, elem_of_sortRefs, elem_of_dedup by done. apply Hp.
    + set_solver.
  - rewrite S3. intros n Hn. destruct (HF n Hn) as [F1 F2 F3 F4 F5 F6 F7]. split; try done. cbn.
    rewrite lookup_insert_ne; [done|]. intros ->. apply slug_in_Some in Hslug as (r & Hr & _).
    apply role_in_Some in Hr as [Hr _]. congruence.
  - exact S4.
  - by rewrite role_perms_set, decide_True.
  - intros id' Hne. by rewrite role_perms_set, decide_False.
  - done.
Qed.

(** ** setGrants: the role grants exactly what is wanted *)
Lemma setGrants_ok ctx tid ro want w r w' :
  Good w → ValidTenantID tid = true → slug_in (az_st w) tid (RoID ro) = Some (RoSlug ro) →
  (∀ p, p ∈ want → wf_ref p = true) →
  setGrants ctx tid ro want w = (Ok r, w') →
  Good w' ∧ az_ids w' = az_ids w ∧ az_st w' = set_RolePerms (az_st w) (RolePerms (az_st w')) ∧
  (∀ p, p ∈ role_perms (az_st w') (RoID ro) ↔ p ∈ want) ∧
  (∀ id, id ≠ RoID ro → role_perms (az_st w') id = role_perms (az_st w) id).
Proof. clear Inj0.
  intros HG Hv Hro Hwf. unfold setGrants. intros E. apply bind_ok_inv in E as (cur & w1 & E1 & E).
  apply RolePermissions_ok in E1 as (-> & -> & _).
  set (cur := role_perms (az_st w) (RoID ro)) in *. set (lst := dedup_from [] want) in *.
  destruct (bool_decide (_ = []) && _) eqn:Eb.
  { bool_prop. injection E as _ <-. split_and!; [done|done|by destruct (az_st w)| |done]. intros p. fold cur.
    apply fmap_nil_inv in H3. apply fmap_nil_inv in H4.
    assert (Hl : ∀ p, p ∈ lst → p ∈ cur).
    { intros q Hq. destruct (decide (q ∈ cur)) as [|Hn]; [done|]. exfalso.
      assert (q ∈ filter (λ p, p ∉ cur) lst) as Hf by by apply list_elem_of_filter. rewrite H3 in Hf. set_solver. }
    assert (Hc : ∀ p, p ∈ cur → p ∈ want).
    { intros q Hq. destruct (decide (q ∈ want)) as [|Hn]; [done|]. exfalso.
      assert (q ∈ filter (λ p, p ∉ want) cur) as Hf by by apply list_elem_of_filter. rewrite H4 in Hf. set_solver. }
    split; [apply Hc|]. intros Hp. apply Hl. unfold lst. by apply elem_of_dedup. }
  clear Eb. apply bind_ok_inv in E as (u1 & w1 & E1 & E). apply bind_ok_inv in E as (u2 & w2 & E2 & E). injection E as _ <-.
  assert (Hcur : ∀ p, p ∈ cur → wf_ref p = true) by (intros p; apply ri_perm, good_inv, HG).
  assert (Hlst : ∀ p, p ∈ lst ↔ p ∈ want) by (intros p; apply elem_of_dedup).
  assert (Hrest : az_ids w2 = az_ids w ∧ az_st w2 = set_RolePerms (az_st w) (RolePerms (az_st w2))).
  { apply Write_ok in E1 as (S1 & _ & S3 & _). apply ReplaceRolePermissions_ok in E2 as [_ ->]. cbn. by rewrite S1, S3. }
  destruct (write_grants_Good (SystemCtx ctx) tid (RoID ro) (RoSlug ro) (filter (λ p, p ∉ cur) lst)
              (filter (λ p, p ∉ want) cur) lst [] w w1 w2 u1 u2 HG Hv) as (HG2 & _ & Hp & Hoth & _); eauto.
  - set_solver.
  - intros p Hp. rewrite !elem_of_app, !list_elem_of_filter, !Hlst in Hp. naive_solver.
  - intros p. rewrite !list_elem_of_filter, Hlst. fold cur. destruct (decide (p ∈ cur)), (decide (p ∈ want)); tauto.
  - split; [done|]. split; [apply Hrest|]. split; [apply Hrest|]. split; [|done]. intros p. by rewrite Hp, elem_of_sortRefs, elem_of_dedup.
Qed.

(** ** Creating and renaming roles *)
Lemma role_in_insert st r tid id :
  role_in (set_RoleRows st (<[RoID r := r]> (RoleRows st))) tid id =
  if decide (id = RoID r) then (if decide (RoTenantID r = tid) then Some r else None) else role_in st tid id.
Proof.
  unfold role_in. simpl. case_decide as E; [rewrite E, lookup_insert_eq; repeat case_decide; case_bool_decide; done|].
  by rewrite lookup_insert_ne.
Qed.

Lemma InsertRole_ok r w u w' :
  stM (InsertRole r) w = (Ok u, w') →
  w' = with_st w (set_RoleRows (az_st w) (<[RoID r := r]> (RoleRows (az_st w)))) ∧
  ∀ id x, RoleRows (az_st w) !! id = Some x → RoTenantID x = RoTenantID r → RoSlug x ≠ RoSlug r.
Proof.
  intros E. apply stM_inv in E as (s & E & ->). unfold InsertRole in E. destruct (existsb _ _) eqn:Ex; [done|].
  injection E as _ <-. split; [done|]. intros id x Hx Ht Hs. apply not_true_iff_false in Ex. apply Ex.
  apply existsb_exists. exists x. split; [|by rewrite Ht, Hs, !bool_decide_eq_true_2].
  apply list_elem_of_In. unfold values. apply list_elem_of_fmap. exists (id, x). split; [done|].
  by apply elem_of_map_to_list.
Qed.

Lemma insert_role_Good r w :
  Good w → RoID r = newID (az_ids w) →
  (∀ id x, RoleRows (az_st w) !! id = Some x → RoTenantID x = RoTenantID r → RoSlug x ≠ RoSlug r) →
  let st' := set_RoleRows (az_st w) (<[RoID r := r]> (RoleRows (az_st w))) in
  RoleInv st' ∧ Mirror st' (tuplesW w) ∧ Fresh st' (S (az_ids w)) ∧ role_perms st' (RoID r) = [] ∧
  (∀ tid u, ¬ holds_role st' tid u (RoID r)).
Proof using Type Inj0.
  intros [HI HM HF] Hid Hnew st'. destruct (HF (az_ids w) (le_n _)) as [F1 F2 F3 F4 F5 F6 F7]. rewrite <- Hid in *.
  destruct HI as [I1 I2 I3 I4].
  assert (Hnone : ∀ tid u, ¬ holds_role st' tid u (RoID r)).
  { intros tid u [Hb|(gid & g & _ & _ & Hg)].
    - unfold bindings_of in Hb. cbn in Hb. destruct (Bindings (az_st w) !! map_key tid u) as [l|] eqn:E;
        [by eapply F6 in E|set_solver].
    - unfold groles_of in Hg. cbn in Hg. destruct (groles (az_st w) !! gid) as [l|] eqn:E;
        [by eapply F7 in E|set_solver]. }
  split_and!.
  - split; unfold st'; cbn.
    + intros id x. destruct (decide (id = RoID r)) as [->|Hne]; [rewrite lookup_insert_eq; by intros [= <-]|].
      rewrite lookup_insert_ne by done. apply I1.
    + intros id id' x x'. destruct (decide (id = RoID r)) as [->|Hne], (decide (id' = RoID r)) as [->|Hne'];
        rewrite ?lookup_insert_eq, ?lookup_insert_ne by done; [done|..].
      * intros [= <-] Hx' Ht Hs. by destruct (Hnew _ _ Hx').
      * intros Hx [= <-] Ht Hs. by destruct (Hnew _ _ Hx).
      * apply I2.
    + apply I3.
    + apply I4.
  - assert (Hother : ∀ tid id x, id ≠ RoID r → role_in st' tid id = Some x ↔ role_in (az_st w) tid id = Some x).
    { intros tid id x Hne. unfold st'. by rewrite role_in_insert, decide_False. }
    intros t Ha. rewrite (HM t Ha). split; intros Hm;
      apply mirrored_cases in Hm as [(x & u & id & x0 & Hv' & Hb & Hr & ->)|[(x & g & G & id & x0 & ? & ? & ? & Hr & ->)|[(x & g & G & u & ? & ? & ? & ->)|(x & id & x0 & p & ? & Hr & ? & ->)]]];
      try (by eapply mi_member);
      (destruct (decide (id = RoID r)) as [->|Hne];
         [|econstructor; [done|..]; try done; by apply Hother]).
    all: try (apply role_in_Some in Hr as [Hr _]; congruence).
    + exfalso. apply (Hnone x u). by left.
    + exfalso. unfold groles_of in *. cbn in *. destruct (groles (az_st w) !! g) as [l|] eqn:E; [by eapply F7 in E|set_solver].
    + exfalso. unfold role_perms in *. cbn in *. rewrite F2 in *. set_solver.
  - intros n Hn. destruct (HF n) as [G1 G2 G3 G4 G5 G6 G7]; [lia|]. split; try done. unfold st'. cbn.
    rewrite lookup_insert_ne; [done|]. rewrite Hid. intros Eq%(inj newID). lia.
  - unfold st', role_perms. cbn. by rewrite F2.
  - exact Hnone.
Qed.

Lemma holds_role_same st st' tid u id : same_roles st st' → holds_role st tid u id ↔ holds_role st' tid u id.
Proof.
  intros [E1 E2 E3 E4 _]. unfold holds_role, bindings_of, group_in, members_of, groles_of. by rewrite E1, E2, E3, E4.
Qed.

Definition no_gain (a : Actor) tid w w' : Prop :=
  ∀ u p, wf_ref p = true → can tid u (tuplesW w') p →
    can tid u (tuplesW w) p ∨ can tid (AUserID a) (tuplesW w) p.

Lemma no_gain_perms a tid w w' :
  Good w → Good w' → ValidTenantID tid = true →
  (∀ u p, has_perm (az_st w') tid u p → has_perm (az_st w) tid u p ∨ can tid (AUserID a) (tuplesW w) p) →
  no_gain a tid w w'.
Proof.
  intros [HI HM _] [HI' HM' _] Hv Hp u p Hw Hc. apply (can_iff (az_st w')) in Hc; [|done..].
  destruct (Hp u p Hc) as [?|?]; [left|by right]. by apply (can_iff (az_st w)).
Qed.

(** What a service call by [a] establishes. *)
Definition safe_call (a : Actor) tid w w' : Prop :=
  Good w' ∧ (hasSlug (ARoles a) "owner" = false → AKind a ≠ KindSystem → no_gain a tid w w').

Lemma safe_call_after w1 a tid w w' : same w1 w' → safe_call a tid w w1 → safe_call a tid w w'.
Proof.
  intros Hs [HG Hn]. split; [by eapply Good_same|]. intros Ho Hk u p Hw. rewrite (same_ts _ _ Hs). by apply Hn.
Qed.

Lemma createRole_safe ctx tid slug name refs cloned w v w' a :
  Good w → ValidTenantID tid = true → ctx_actor ctx = Some a →
  createRole newID ctx tid slug name refs cloned w = (Ok v, w') → safe_call a tid w w'.
Proof using Type Inj0.
  intros HG Hv Ha E. unfold createRole in E.
  apply bind_ok_inv in E as (a' & w1 & E1 & E). apply actorM_ok in E1 as [-> _].
  apply bind_ok_inv in E as (? & w1 & E1 & E). apply requireM_ok in E1 as [-> _].
  destruct (ParseCustomSlug slug); [|done]. destruct (validDisplayName name) as [nm|]; [|done].
  apply bind_ok_inv in E as (perms & w1 & E1 & E). apply parsePerms_ok in E1 as [-> Hwf]; [|by apply good_inv].
  apply bind_ok_inv in E as (? & w1 & E1 & E). apply MayGrant_ok in E1 as [Hs _].
  apply (Good_same _ _ Hs) in HG as HG1. destruct Hs as [S1 S2 _ _].
  apply bind_ok_inv in E as (id & w2 & E2 & E). injection E2 as <- <-.
  set (ro := mkRole _ _ _ _ _ _ _ _ _ _) in *.
  apply bind_ok_inv in E as (ri & w2 & E2 & E). unfold attempt in E2.
  destruct (stM (InsertRole ro) _) as [ri' w2'] eqn:Ei. injection E2 as -> ->.
  apply bind_ok_inv in E as (? & w3 & E3 & E). destruct ri as [u|e]; [|exfalso; by case_bool_decide].
  injection E3 as _ <-. apply InsertRole_ok in Ei as [-> Hnew].
  destruct (insert_role_Good ro w1 HG1 eq_refl Hnew) as (J1 & J2 & J3 & J4 & J5). cbn in Hnew.
  set (w2 := with_st _ _) in *.
  assert (HG2 : Good w2) by (split; [exact J1|exact J2|exact J3]).
  apply bind_ok_inv in E as (u2 & w3 & E3 & E). apply bind_ok_inv in E as (u3 & w4 & E4 & E).
  destruct (write_grants_Good ctx tid (newID (az_ids w1)) slug perms [] perms [RoleTenantTuple tid slug] w2 w3 w4 u2 u3 HG2 Hv)
    as (HG4 & _ & Hp & Hoth & Hsr).
  - apply slug_in_Some. exists ro. split; [|done]. unfold w2. cbn. change (newID (az_ids w1)) with (RoID ro).
    by rewrite role_in_insert, !decide_True.
  - intros t Ht. apply list_elem_of_singleton in Ht as ->. done.
  - set_solver.
  - intros p. change (newID (az_ids w1)) with (RoID ro). unfold w2. cbn [az_st with_st]. rewrite J4. set_solver.
  - exact E3.
  - exact E4.
  - apply bind_ok_inv in E as (? & w5 & E5 & E). injection E5 as _ <-. injection E as _ <-.
    apply (safe_call_after w4); [done|]. split; [done|]. intros _ _. apply no_gain_perms; [done..|].
    intros uu p (id0 & r0 & Hr0 & Hp0 & Hh). left.
    destruct (decide (id0 = RoID ro)) as [->|Hne].
    { exfalso. apply (J5 tid uu). by apply (holds_role_same _ _ _ _ _ Hsr). }
    rewrite Hoth in Hp0 by done.
    destruct (same_roles_role _ _ _ _ _ (same_roles_sym _ _ Hsr) Hr0) as (r1 & Hr1 & _).
    unfold w2 in Hr1. cbn [az_st with_st] in Hr1. rewrite role_in_insert, decide_False in Hr1 by done.
    apply (holds_role_same _ _ _ _ _ Hsr) in Hh. change (holds_role (az_st w1) tid uu id0) in Hh.
    change (p ∈ role_perms (az_st w1) id0) in Hp0. change (role_in (az_st w1) tid id0 = Some r1) in Hr1.
    rewrite S1 in Hh, Hp0, Hr1. by exists id0, r1.
Qed.

Lemma AssignRoles_safe ctx tid uid ids w slugs w' a :
  Good w → ValidTenantID tid = true → ctx_actor ctx = Some a →
  AssignRoles ctx tid uid ids w = (Ok slugs, w') → safe_call a tid w w'.
Proof.
  intros HG Hv Ha E. apply AssignRoles_ok in E as (a' & want & have & HA & _); [|by apply good_inv].
  pose proof (assigned_Good _ _ _ _ _ _ _ _ _ Hv HA HG) as HG'. split; [done|]. intros Ho Hk.
  destruct HA as [Ha' Hw Hh Hmay _ Hst _ _]. assert (a' = a) as -> by congruence.
  apply no_gain_perms; [done..|]. intros u p (id & r & Hr & Hp & Hhr). rewrite Hst in Hr, Hp, Hhr.
  change (role_in (az_st w) tid id = Some r) in Hr. change (p ∈ role_perms (az_st w) id) in Hp.
  destruct Hhr as [Hb|Hg]; [|left; exists id, r; split_and!; [done..|by right]].
  rewrite bindings_of_set in Hb. case_decide as Ek; [|left; exists id, r; split_and!; [done..|by left]].
  apply map_key_inj in Ek as [_ ->]; [|done..].
  destruct (rows_of_by_id _ _ _ _ (good_inv _ HG) Hw) as [Hrows _].
  apply list_elem_of_fmap in Hb as (r' & -> & Hr'). pose proof (Hrows _ Hr') as Hr2.
  assert (r' = r) as -> by congruence.
  destruct (containsRole have (RoID r)) eqn:Ec.
  - left. apply (rows_of_contains (az_st w) tid) in Ec; [|subst have; apply rows_of_omap, HG|done].
    subst have. apply elem_of_have in Ec as (id' & Hb & Hid').
    exists id', r. rewrite (role_in_id _ _ _ _ (good_inv _ HG) Hid') in Hp. split_and!; [done..|by left].
  - right. apply Hmay in Ec as [_ Hm]; [|done]. destruct (Hm Ho) as (_ & _ & Hc). by apply Hc.
Qed.

(** A row that keeps its id, tenant and slug may change otherwise. *)
Lemma edit_row_Good w id r r' :
  Good w → RoleRows (az_st w) !! id = Some r → RoID r' = RoID r → RoTenantID r' = RoTenantID r → RoSlug r' = RoSlug r →
  let st' := set_RoleRows (az_st w) (<[id := r']> (RoleRows (az_st w))) in
  Good (with_st w st') ∧ same_roles (az_st w) st'.
Proof. clear Inj0.
  intros [[I1 I2 I3 I4] HM HF] Er Eid Et Es st'. pose proof (I1 _ _ Er) as Hid.
  assert (Hrow : ∀ x, RoleRows st' !! x = if decide (x = id) then Some r' else RoleRows (az_st w) !! x).
  { intros x. unfold st'. cbn. case_decide as Ex; [by rewrite Ex, lookup_insert_eq|by rewrite lookup_insert_ne]. }
  assert (Hsr : same_roles (az_st w) st').
  { split; try done. intros t x. unfold slug_in, role_in. rewrite Hrow. case_decide as Ex; [|done]. subst x.
    rewrite Er, Et. case_bool_decide; cbn; by rewrite ?Es. }
  split; [split|done]; try done; cbn [az_st with_st].
  - split; try done.
    + intros x y. rewrite Hrow. case_decide; [subst; intros [= <-]; congruence|apply I1].
    + intros x x' y y'. rewrite !Hrow. repeat case_decide; subst; try done.
      * intros [= <-] Hy'. rewrite Et, Es. apply (I2 _ _ _ _ Er Hy').
      * intros Hy [= <-]. rewrite Et, Es. apply (I2 _ _ _ _ Hy Er).
      * apply I2.
  - intros t Ha. unfold tuplesW. cbn. rewrite (HM t Ha). split; intros Hm.
    + destruct (same_roles_mirrored _ _ _ Hsr Hm) as [?|(x & y & z & q & ? & Hz & ? & ->)]; [done|].
      destruct (same_roles_role _ _ _ _ _ Hsr Hz) as (z' & ? & <-). by econstructor.
    + destruct (same_roles_mirrored _ _ _ (same_roles_sym _ _ Hsr) Hm) as [?|(x & y & z & q & ? & Hz & ? & ->)]; [done|].
      destruct (same_roles_role _ _ _ _ _ (same_roles_sym _ _ Hsr) Hz) as (z' & ? & <-). by econstructor.
  - intros n Hn. destruct (HF n Hn) as [F1 F2 F3 F4 F5 F6 F7]. split; try done. rewrite Hrow.
    case_decide; [congruence|done].
Qed.

(** The renaming step of [UpdateRole]. *)
Lemma UpdateRoleName_ok tid id name w u w' :
  Good w → stM (UpdateRoleName tid id name) w = (Ok u, w') →
  Good w' ∧ same_roles (az_st w) (az_st w') ∧ tuplesW w' = tuplesW w ∧
  (∀ x, role_perms (az_st w') x = role_perms (az_st w) x).
Proof. clear Inj0.
  intros HG E. apply stM_inv in E as (s & E & ->). unfold UpdateRoleName in E.
  destruct (role_in (az_st w) tid id) as [r|] eqn:Er; [|done]. apply role_in_Some in Er as [Er Et].
  case_bool_decide; injection E as _ <-; [by rewrite with_st_id|].
  destruct (edit_row_Good w id r (set_RoName r name) HG Er) as [HG' Hsr]; [done..|]. by split_and!.
Qed.

Lemma UpdateRole_safe ctx tid id name refs w v w' a :
  Good w → ValidTenantID tid = true → ctx_actor ctx = Some a →
  UpdateRole ctx tid id name refs w = (Ok v, w') → safe_call a tid w w'.
Proof. clear Inj0.
  intros HG Hv Ha E. unfold UpdateRole in E.
  apply bind_ok_inv in E as (a' & w1 & E1 & E). apply actorM_ok in E1 as [-> Ha']. assert (a' = a) as -> by congruence.
  apply bind_ok_inv in E as (? & w1 & E1 & E). apply requireM_ok in E1 as [-> _].
  apply bind_ok_inv in E as (ro & w1 & E1 & E). apply stM_read in E1 as [-> E1]; [|apply reads_RoleByID].
  unfold RoleByID in E1. destruct (role_in (az_st w) tid id) as [ro'|] eqn:Ero; [|done]. injection E1 as ->.
  apply bind_ok_inv in E as (? & w1 & E1 & E). injection E1 as _ <-.
  apply bind_ok_inv in E as (cur & w1 & E1 & E). apply RolePermissions_ok in E1 as (-> & -> & _).
  apply bind_ok_inv in E as (perms & w1 & E1 & E). apply parsePerms_ok in E1 as [-> Hwf]; [|by apply good_inv].
  set (cur := role_perms (az_st w) id) in *.
  apply bind_ok_inv in E as (? & w1 & E1 & E). apply MayGrant_ok in E1 as [Hs Hm].
  apply (Good_same _ _ Hs) in HG as HG1. destruct Hs as [S1 S2 _ _].
  apply bind_ok_inv in E as (ro2 & w2 & E2 & E).
  assert (Hw2 : Good w2 ∧ same_roles (az_st w1) (az_st w2) ∧ tuplesW w2 = tuplesW w1 ∧
                (∀ x, role_perms (az_st w2) x = role_perms (az_st w1) x)).
  { destruct (_ && _); [|by injection E2 as _ <-]. destruct (validDisplayName name); [|done].
    apply bind_ok_inv in E2 as (? & w3 & E2 & E3). injection E3 as _ <-. by eapply UpdateRoleName_ok. }
  destruct Hw2 as (HG2 & Hsr2 & Ht2 & Hp2). clear E2.
  apply bind_ok_inv in E as (u3 & w3 & E3 & E). apply bind_ok_inv in E as (u4 & w4 & E4 & E).
  apply bind_ok_inv in E as (? & w5 & E5 & E). injection E5 as _ <-. injection E as _ <-.
  assert (Hcur : ∀ p, p ∈ cur → wf_ref p = true) by (intros p; apply ri_perm, good_inv, HG).
  destruct (write_grants_Good ctx tid id (RoSlug ro) (filter (λ p, p ∉ cur) perms)
              (filter (λ p, p ∉ perms) cur) perms [] w2 w3 w4 u3 u4 HG2 Hv) as (HG4 & _ & Hp & Hoth & Hsr); eauto.
  - rewrite (sr_slug _ _ Hsr2), S1. apply slug_in_Some. eauto.
  - set_solver.
  - intros p. rewrite !elem_of_app, !list_elem_of_filter. naive_solver.
  - intros p. rewrite !list_elem_of_filter, Hp2, S1. fold cur. destruct (decide (p ∈ cur)), (decide (p ∈ perms)); tauto.
  - apply (safe_call_after w4); [done|]. split; [done|]. intros Ho Hk. apply no_gain_perms; [done..|].
    intros u p (id0 & r0 & Hr0 & Hp0 & Hh). rewrite <- S1.
    apply (holds_role_same _ _ _ _ _ Hsr), (holds_role_same _ _ _ _ _ Hsr2) in Hh.
    destruct (same_roles_role _ _ _ _ _ (same_roles_sym _ _ Hsr) Hr0) as (r1 & Hr1 & _).
    destruct (same_roles_role _ _ _ _ _ (same_roles_sym _ _ Hsr2) Hr1) as (r2 & Hr2 & _).
    destruct (decide (id0 = id)) as [->|Hne].
    + rewrite Hp, elem_of_sortRefs, elem_of_dedup in Hp0. destruct (decide (p ∈ cur)) as [Hc|Hc].
      * left. exists id, r2. split_and!; [done| |done]. by rewrite S1.
      * right. apply Hm; [done..|]. by apply list_elem_of_filter.
    + left. rewrite Hoth, Hp2 in Hp0 by done. by exists id0, r2.
Qed.
End Safety.
