(* ===== verification/GroupSafety.v ===== *)
(** * Safety of the group operations, and of the services as a whole *)
From stdpp Require Import sorting.
From S2P Require Import Prelude GoStrings Regex PermRef TenantCtx Models Cache AuditEvents Session MemStore.
From S2P Require Import Fga MemRoles AuthzClient AuthzServices AuthzFacts Mirror AuthzSafety.
#[local] Open Scope list_scope.
#[local] Open Scope go_scope.
#[local] Set Default Proof Using "Type".

Section Runs.
Context {B K : Type} `{BackendLaws B} `{KVLaws K}.
Notation W := (AZ B K).
Implicit Types (w : W) (st : Store) (tid uid gid slug : string).

Lemma admin_ok ctx tid typ kind id w a w' :
  admin ctx tid typ kind id w = (Ok a, w') →
  w' = w ∧ ctx_actor ctx = Some a ∧ may_enter ctx tid ∧ (AKind a = KindSystem ∨ IsAdmin a = true).
Proof.
  unfold admin. intros E. apply bind_ok_inv in E as (a' & w1 & E1 & E). apply actorM_ok in E1 as [-> Ha].
  apply bind_ok_inv in E as (? & w1 & E1 & E). apply requireM_ok in E1 as [-> Hm].
  destruct (_ || _) eqn:Eb; [|done]. injection E as <- <-. split_and!; try done.
  apply orb_true_iff in Eb as [Hk|?]; [left; by bool_prop|by right].
Qed.

Lemma group_in_Some st tid gid g : group_in st tid gid = Some g ↔ groups st !! gid = Some g ∧ GrTenantID g = tid.
Proof. unfold group_in. destruct (groups st !! gid); [case_bool_decide|]; naive_solver. Qed.

Lemma GetGroup_ok tid gid w g w' :
  stM (GetGroup tid gid) w = (Ok g, w') → w' = w ∧ group_in (az_st w) tid gid = Some g.
Proof.
  intros E. apply stM_read in E as [-> E]; [|apply reads_GetGroup]. unfold GetGroup in E.
  destruct (group_in (az_st w) tid gid); [|done]. by injection E as ->.
Qed.

Lemma roleGrants_ok tid roles : ∀ w g w',
  roleGrants tid roles w = (Ok g, w') →
  w' = w ∧ (∀ r p, r ∈ roles → p ∈ role_perms (az_st w) (RoID r) → p ∈ g.1) ∧
  (g.2 = false → ∀ r, r ∈ roles → RoSlug r ≠ "owner" ∧ RoSlug r ≠ "admin").
Proof.
  induction roles as [|r roles IH]; intros w g w'; cbn [roleGrants].
  - intros [= <- <-]. set_solver.
  - intros E. apply bind_ok_inv in E as (ps & w1 & E1 & E). apply RolePermissions_ok in E1 as (-> & -> & _).
    apply bind_ok_inv in E as (rest & w1 & E1 & E). apply IH in E1 as (-> & Hp & Hs). injection E as <- <-. cbn.
    split_and!; [done| |].
    + intros r' p [->|Hr]%elem_of_cons Hpp; [set_solver|]. apply elem_of_app. right. eauto.
    + intros Hb r' [->|Hr]%elem_of_cons; bool_prop; [done|by apply Hs].
Qed.

Lemma GroupRoles_ok tid gid w l w' :
  stM (GroupRoles tid gid) w = (Ok l, w') → w' = w ∧ l = omap (role_in (az_st w) tid) (groles_of (az_st w) gid).
Proof.
  intros E. apply stM_read in E as [-> E]; [|apply reads_GroupRoles]. unfold GroupRoles in E.
  destruct (group_in (az_st w) tid gid); [|done]. by injection E as <-.
Qed.

Lemma may_grant_or_refuse_ok ctx a tid typ id perms w u w' :
  may_grant_or_refuse ctx a tid typ id perms w = (Ok u, w') →
  same w w' ∧ (hasSlug (ARoles a) "owner" = false → AKind a ≠ KindSystem →
               ∀ p, p ∈ perms → can tid (AUserID a) (tuplesW w) p).
Proof.
  unfold may_grant_or_refuse. intros E. apply bind_ok_inv in E as (r & w1 & E1 & E). unfold attempt in E1.
  destruct (MayGrant ctx a tid perms w) as [r' w1'] eqn:Em. injection E1 as -> ->.
  destruct r as [[]|e]; [|exfalso; by case_bool_decide]. injection E as _ <-. by apply MayGrant_ok in Em.
Qed.

(** ** Memberships *)
Record member_change st st' gid (ins outs : list string) : Prop := mkMC {
  mc_rows : RoleRows st' = RoleRows st;
  mc_perms : RolePerms st' = RolePerms st;
  mc_cat : Permissions st' = Permissions st;
  mc_bind : Bindings st' = Bindings st;
  mc_groups : groups st' = groups st;
  mc_groles : groles st' = groles st;
  mc_other : ∀ g, g ≠ gid → members st' !! g = members st !! g;
  mc_in : ∀ u, u ∈ members_of st' gid ↔ (u ∈ members_of st gid ∨ u ∈ ins) ∧ u ∉ outs;
}.

Lemma member_mirror st st' tid gid g ins outs t :
  ValidTenantID tid = true → group_in st tid gid = Some g → member_change st st' gid ins outs → access t = true →
  mirrored st' t ↔ (mirrored st t ∨ t ∈ GroupMembershipTuple tid gid <$> ins) ∧
                   t ∉ GroupMembershipTuple tid gid <$> outs.
Proof.
  intros Hv Hg [E1 E2 E3 E4 E5 E6 E7 E8] Ha.
  assert (Hin : ∀ x y u (l : list string), ValidTenantID x = true →
            GroupMembershipTuple x y u ∈ GroupMembershipTuple tid gid <$> l → x = tid ∧ y = gid ∧ u ∈ l).
  { intros x y u l Hx Hin. apply list_elem_of_fmap in Hin as (u' & E & Hu). by apply member_inj in E as (-> & -> & ->). }
  assert (Hrel : ∀ t (l : list string), t ∈ GroupMembershipTuple tid gid <$> l → TuRelation t = "member").
  { intros t' l Hin'. by apply list_elem_of_fmap in Hin' as (? & -> & _). }
  assert (Hgi : ∀ x y, group_in st' x y = group_in st x y) by (intros; unfold group_in; by rewrite E5).
  assert (Hri : ∀ x y, role_in st' x y = role_in st x y) by (intros; unfold role_in; by rewrite E1).
  assert (Hmem : ∀ y u, y ≠ gid → u ∈ members_of st' y ↔ u ∈ members_of st y)
    by (intros y u Hy; unfold members_of; by rewrite E7).
  split.
  - intros Hm; apply mirrored_cases in Hm as [(x & u & id & r & ? & ? & Hr & ->)|[(x & y & G & id & r & ? & HG & ? & Hr & ->)|[(x & y & G & u & Hx & HG & Hu & ->)|(x & id & r & p & ? & Hr & ? & ->)]]];
      try (split; [left|by intros Hrm%Hrel]).
    + rewrite Hri in Hr. eapply mi_binding; eauto. unfold bindings_of in *. by rewrite <- E4.
    + rewrite Hri in Hr. rewrite Hgi in HG. eapply mi_group_role; eauto. unfold groles_of in *. by rewrite <- E6.
    + rewrite Hgi in HG. destruct (decide (y = gid)) as [->|Hy].
      * apply group_in_Some in HG as Hg1. apply group_in_Some in Hg as Hg2. assert (x = tid) as -> by naive_solver.
        apply E8 in Hu as [Hu Hno]. split.
        -- destruct Hu; [left; by eapply mi_member|right; apply list_elem_of_fmap; eauto].
        -- intros Hi. by destruct (Hin _ _ _ _ Hx Hi) as (_ & _ & ?).
      * split; [left; eapply mi_member; eauto; by apply Hmem|]. intros Hi. by destruct (Hin _ _ _ _ Hx Hi) as (_ & -> & _).
    + rewrite Hri in Hr. eapply mi_grant; eauto. unfold role_perms in *. by rewrite <- E2.
  - intros [[Hm|Hi] Hno].
    + apply mirrored_cases in Hm as [(x & u & id & r & ? & ? & Hr & ->)|[(x & y & G & id & r & ? & HG & ? & Hr & ->)|[(x & y & G & u & Hx & HG & Hu & ->)|(x & id & r & p & ? & Hr & ? & ->)]]].
      * eapply mi_binding; eauto; [unfold bindings_of; by rewrite E4|by rewrite Hri].
      * eapply mi_group_role; eauto; [by rewrite Hgi|unfold groles_of; by rewrite E6|by rewrite Hri].
      * eapply mi_member; eauto; [by rewrite Hgi|]. destruct (decide (y = gid)) as [->|Hy]; [|by apply Hmem].
        apply E8. split; [by left|]. intros Ho. apply Hno. apply list_elem_of_fmap.
        apply group_in_Some in HG as Hg1. apply group_in_Some in Hg as Hg2. assert (x = tid) as -> by naive_solver. eauto.
      * eapply mi_grant; eauto; [by rewrite Hri|]. unfold role_perms. by rewrite E2.
    + apply list_elem_of_fmap in Hi as (u & -> & Hu). eapply mi_member; [done|by rewrite Hgi|]. apply E8.
      split; [by right|]. intros Ho. apply Hno. apply list_elem_of_fmap. eauto.
Qed.

Lemma members_of_set st gid l added' g :
  members_of (set_added (set_members st (<[gid := l]> (members st))) added') g =
  if decide (g = gid) then l else members_of st g.
Proof.
  unfold members_of. cbn. case_decide as E; [by rewrite E, lookup_insert_eq|by rewrite lookup_insert_ne].
Qed.

Lemma member_change_refl st gid : member_change st st gid [] [].
Proof. split; try done. set_solver. Qed.
Lemma member_change_trans st1 st2 st3 gid ins ins' :
  member_change st1 st2 gid ins [] → member_change st2 st3 gid ins' [] → member_change st1 st3 gid (ins ++ ins') [].
Proof.
  intros [A1 A2 A3 A4 A5 A6 A7 A8] [C1 C2 C3 C4 C5 C6 C7 C8]. split; try congruence.
  - intros g Hg. by rewrite C7, A7.
  - intros u. rewrite C8, A8. set_solver.
Qed.

(** One round of [AddMembers]. *)
Lemma add_one_ok tid gid a adds uid w adds' w' :
  add_one tid gid a adds uid w = (Ok adds', w') →
  tuplesW w' = tuplesW w ∧ az_ids w' = az_ids w ∧
  ∃ l, member_change (az_st w) (az_st w') gid l [] ∧ adds' = adds ++ (GroupMembershipTuple tid gid <$> l).
Proof.
  unfold add_one. intros E. apply bind_ok_inv in E as (m & w1 & E1 & E).
  apply stM_read in E1 as [-> E1]; [|apply reads_IsGroupMember].
  assert (Hnil : ∃ l, member_change (az_st w) (az_st w) gid l [] ∧ adds = adds ++ (GroupMembershipTuple tid gid <$> l)).
  { exists []. split; [apply member_change_refl|by rewrite app_nil_r]. }
  destruct m; [injection E as <- <-; by split_and!|].
  apply bind_ok_inv in E as (now & w1 & E2 & E). injection E2 as <- <-.
  apply bind_ok_inv in E as (n & w1 & E2 & E). apply stM_inv in E2 as (s & E2 & ->).
  unfold AddGroupMembers in E2. destruct (group_in (az_st w) tid gid) as [g|] eqn:Eg; [|done].
  cbn [fold_each] in E2. unfold bind, ret, add_member in E2.
  destruct (userByID (az_st w) tid uid); [|done].
  destruct (bool_decide (uid ∈ members_of (az_st w) gid)) eqn:Hin.
  - cbn in E2; injection E2 as <- <-. rewrite with_st_id in E. rewrite bool_decide_eq_true_2 in E by done.
    injection E as <- <-. by split_and!.
  - cbn in E2; injection E2 as <- <-. rewrite bool_decide_eq_false_2 in E by done.
    apply bind_ok_inv in E as (? & w1 & E3 & E). injection E3 as _ <-. injection E as <- <-.
    split_and!; try done. exists [uid]. split; [|done]. split; try done; cbn [az_st with_st].
    + intros g' Hg'. cbn. by rewrite lookup_insert_ne.
    + intros uu. rewrite members_of_set, decide_True by done. set_solver.
Qed.

Lemma add_all_ok tid gid a us : ∀ adds w adds' w',
  fold_each us adds (add_one tid gid a) w = (Ok adds', w') →
  tuplesW w' = tuplesW w ∧ az_ids w' = az_ids w ∧
  ∃ l, member_change (az_st w) (az_st w') gid l [] ∧ adds' = adds ++ (GroupMembershipTuple tid gid <$> l).
Proof.
  induction us as [|u us IH]; intros adds w adds' w' E; cbn [fold_each] in E.
  - injection E as <- <-. split_and!; try done. exists []. split; [apply member_change_refl|by rewrite app_nil_r].
  - apply bind_ok_inv in E as (b & w1 & E1 & E). apply add_one_ok in E1 as (T1 & I1 & l & Hl & ->).
    apply IH in E as (T2 & I2 & l' & Hl' & ->). split_and!; [congruence..|]. exists (l ++ l').
    split; [by eapply member_change_trans|]. by rewrite fmap_app, app_assoc.
Qed.

Lemma has_perm_member st st' tid gid ins outs u p :
  member_change st st' gid ins outs → has_perm st' tid u p →
  has_perm st tid u p ∨ ∃ id r, role_in st tid id = Some r ∧ p ∈ role_perms st id ∧ id ∈ groles_of st gid.
Proof.
  intros [E1 E2 E3 E4 E5 E6 E7 E8] (id & r & Hr & Hp & Hh).
  assert (Hr' : role_in st tid id = Some r) by (unfold role_in in *; by rewrite <- E1).
  assert (Hp' : p ∈ role_perms st id) by (unfold role_perms in *; by rewrite <- E2).
  destruct Hh as [Hb|(y & g & Hg & Hm & Hi)].
  - left. exists id, r. split_and!; [done..|]. left. unfold bindings_of in *. by rewrite <- E4.
  - assert (Hi' : id ∈ groles_of st y) by (unfold groles_of in *; by rewrite <- E6).
    destruct (decide (y = gid)) as [->|Hy]; [right; eauto 10|left]. exists id, r. split_and!; [done..|].
    right. exists y, g. split_and!; [|unfold members_of in *; by rewrite <- E7|done].
    unfold group_in in *. by rewrite <- E5.
Qed.

(** ** Group roles *)
Definition group_role_tuples tid gid (l l' : list Role) : list Tuple :=
  (λ r, GroupRoleTuple tid gid (RoSlug r)) <$> filter (λ r, containsRole l' (RoID r) = false) l.

Lemma group_role_form_dec tid gid t :
  (∃ slug, t = GroupRoleTuple tid gid slug) ∨ (∀ slug, t ≠ GroupRoleTuple tid gid slug).
Proof.
  set (s0 := default "" (cut_prefix ("role:" +:+ tid +:+ "/") (TuObject t))).
  destruct (decide (t = GroupRoleTuple tid gid s0)) as [E|Hne]; [left; eauto|right].
  intros slug E. apply Hne. rewrite E. f_equal. unfold s0. rewrite E. cbn [TuObject GroupRoleTuple].
  unfold RoleObject. replace ("role:" +:+ tid +:+ "/" +:+ slug) with (("role:" +:+ tid +:+ "/") +:+ slug)
    by by rewrite !str_app_assoc. by rewrite cut_prefix_app.
Qed.

Lemma groles_of_set st gid l g :
  groles_of (set_groles st (<[gid := l]> (groles st))) g = if decide (g = gid) then l else groles_of st g.
Proof.
  unfold groles_of. cbn. case_decide as E; [by rewrite E, lookup_insert_eq|by rewrite lookup_insert_ne].
Qed.

Lemma elem_of_group_role_tuples tid gid slug l l' : ValidTenantID tid = true →
  GroupRoleTuple tid gid slug ∈ group_role_tuples tid gid l l' ↔
  ∃ r, r ∈ l ∧ containsRole l' (RoID r) = false ∧ RoSlug r = slug.
Proof.
  intros Hv. unfold group_role_tuples. rewrite list_elem_of_fmap. setoid_rewrite list_elem_of_filter. split.
  - intros (r & E & Hc & Hr). apply group_role_inj in E as (_ & _ & ->); eauto.
  - intros (r & Hr & Hc & <-). eauto.
Qed.

Lemma group_roles_mirror st tid gid g want have t :
  RoleInv st → ValidTenantID tid = true → group_in st tid gid = Some g → rows_of st tid want →
  have = omap (role_in st tid) (groles_of st gid) → access t = true →
  let st' := set_groles st (<[gid := RoID <$> want]> (groles st)) in
  mirrored st' t ↔ (mirrored st t ∨ t ∈ group_role_tuples tid gid want have) ∧ t ∉ group_role_tuples tid gid have want.
Proof.
  intros HI Hv Hg Hw Hh Ha st'.
  assert (Hhv : rows_of st tid have) by (subst have; by apply rows_of_omap).
  assert (Hgid : ∀ x G, group_in st x gid = Some G → x = tid).
  { intros x G [HG ?]%group_in_Some. apply group_in_Some in Hg as [Hg ?]. congruence. }
  destruct (group_role_form_dec tid gid t) as [[slug ->]|Hne].
  2: { assert (Hno : ∀ l l', t ∉ group_role_tuples tid gid l l').
       { intros l l' Hin. unfold group_role_tuples in Hin. apply list_elem_of_fmap in Hin as (r & -> & _).
         by destruct (Hne (RoSlug r)). }
       assert (Hiff : mirrored st' t ↔ mirrored st t); [|rewrite Hiff; naive_solver].
       split; intros Hm;
         apply mirrored_cases in Hm as [(x & u & id & r & Hv' & Hb & Hr & ->)|[(x & y & G & id & r & ? & HG & Hi & ? & ->)|[(x & y & G & u & ? & ? & ? & ->)|(x & id & r & p & ? & ? & ? & ->)]]];
         try by econstructor.
       - unfold st' in Hi. rewrite groles_of_set in Hi. case_decide as Ey; [|by eapply mi_group_role].
         subst y. change (group_in st x gid = Some G) in HG. assert (x = tid) as -> by eauto. by destruct (Hne (RoSlug r)).
       - apply (mi_group_role st' x y G id r); [done..| |done]. unfold st'. rewrite groles_of_set. case_decide as Ey; [|done].
         subst y. assert (x = tid) as -> by eauto. by destruct (Hne (RoSlug r)). }
  assert (HW : mirrored st' (GroupRoleTuple tid gid slug) ↔ ∃ r, r ∈ want ∧ RoSlug r = slug).
  { rewrite mirrored_group_role by done. unfold st'. rewrite groles_of_set, decide_True by done.
    setoid_rewrite list_elem_of_fmap. split.
    - intros (G & id & r & _ & (r' & -> & Hr') & Hr & Hs). exists r'. split; [done|].
      specialize (Hw r' Hr'). change (role_in st tid (RoID r') = Some r) in Hr. congruence.
    - intros (r & Hr & Hs). exists g, (RoID r), r. split_and!; [done|eauto|by apply Hw|done]. }
  assert (HH : mirrored st (GroupRoleTuple tid gid slug) ↔ ∃ r, r ∈ have ∧ RoSlug r = slug).
  { rewrite mirrored_group_role by done. rewrite Hh. setoid_rewrite list_elem_of_omap. naive_solver. }
  rewrite HW, HH, !elem_of_group_role_tuples by done. split.
  - intros (r & Hr & Hs). split.
    + destruct (containsRole have (RoID r)) eqn:Ec; [left|right; eauto].
      exists r. split; [|done]. eapply rows_of_contains; [exact Hhv|by apply Hw|done].
    + intros (r' & Hr' & Hc & Hs'). assert (r' = r) as -> by (apply (rows_of_eq st tid have want); [done..|congruence]).
      rewrite (proj2 (rows_of_contains st tid want r Hw (Hw r Hr))) in Hc; done.
  - intros [[(r & Hr & Hs)|(r & Hr & _ & Hs)] Hn]; [|eauto].
    destruct (containsRole want (RoID r)) eqn:Ec; [|by destruct Hn; eauto].
    exists r. split; [|done]. eapply rows_of_contains; [exact Hw|by apply Hhv|done].
Qed.

Lemma emits_same {A} (l : list A) (f : A → Event) w r w' :
  for_each l (λ t, emitE (f t)) w = (r, w') → same w w'.
Proof.
  revert w. induction l as [|t l IH]; intros w; cbn [for_each]; [by intros [= _ <-]|].
  unfold bind. cbn. intros E. apply IH in E. by eapply same_trans; [|exact E].
Qed.

(** Everything a successful [SetRoles] establishes. *)
Record roles_set tid gid w w' (a : Actor) (want have : list Role) : Prop := mkRolesSet {
  rs_group : ∃ g, group_in (az_st w) tid gid = Some g;
  rs_want : rows_of (az_st w) tid want;
  rs_have : have = omap (role_in (az_st w) tid) (groles_of (az_st w) gid);
  rs_owner : ∀ r, r ∈ want → RoSlug r ≠ "owner";
  rs_retired : ∀ r, r ∈ want → containsRole have (RoID r) = false → RoRetiredAt r = None;
  rs_may : hasSlug (ARoles a) "owner" = false → AKind a ≠ KindSystem →
    ∀ r p, r ∈ want → containsRole have (RoID r) = false →
      RoSlug r ≠ "admin" ∧ (p ∈ role_perms (az_st w) (RoID r) → can tid (AUserID a) (tuplesW w) p);
  rs_st : az_st w' = set_groles (az_st w) (<[gid := RoID <$> want]> (groles (az_st w)));
  rs_ts : tuplesW w' = (tuplesW w ∪ list_to_set (group_role_tuples tid gid want have)) ∖
                       list_to_set (group_role_tuples tid gid have want);
  rs_ids : az_ids w' = az_ids w;
}.

Lemma SetRoles_ok ctx tid gid ids w slugs w' a :
  RoleInv (az_st w) → ctx_actor ctx = Some a → SetRoles ctx tid gid ids w = (Ok slugs, w') →
  ∃ want have, roles_set tid gid w w' a want have ∧ slugs = RoSlug <$> want.
Proof.
  intros HI Ha E. unfold SetRoles in E.
  apply bind_ok_inv in E as (a' & w1 & E1 & E). apply admin_ok in E1 as (-> & Ha' & _ & _). assert (a' = a) as -> by congruence.
  apply bind_ok_inv in E as (g & w1 & E1 & E). apply GetGroup_ok in E1 as [-> Hg].
  destruct (_ <? _)%nat; [done|].
  apply bind_ok_inv in E as (want & w1 & E1 & E). apply stM_read in E1 as [-> E1]; [|apply reads_intro]. cbn in E1.
  apply bind_ok_inv in E as (have & w1 & E2 & E). apply GroupRoles_ok in E2 as [-> Eh].
  destruct (containsSlug want "owner") eqn:Eo; [done|].
  apply bind_ok_inv in E as (? & w1 & E2 & E).
  destruct (refuseRetired _) as [[]|] eqn:Er; [|done]. injection E2 as _ <-.
  apply bind_ok_inv in E as (gr & w1 & E2 & E). apply roleGrants_ok in E2 as (-> & Hgr & Hpr).
  destruct (privileged_refused gr.2 a) eqn:Ep; [done|].
  apply bind_ok_inv in E as (? & w1 & E2 & E). apply may_grant_or_refuse_ok in E2 as [Hs Hmay].
  destruct Hs as [S1 S2 _ S4].
  apply bind_ok_inv in E as (? & w2 & E2 & E). apply stM_inv in E2 as (s & E2 & ->).
  unfold ReplaceGroupRoles in E2. rewrite S1, Hg in E2. injection E2 as _ <-.
  apply bind_ok_inv in E as (? & w2 & E2 & E). apply Write_ok in E2 as (T1 & _ & T3 & T4 & _).
  apply bind_ok_inv in E as (? & w3 & E2 & E). apply emits_same in E2 as [U1 U2 _ U4].
  apply bind_ok_inv in E as (? & w4 & E2 & E). apply emits_same in E2 as [V1 V2 _ V4].
  injection E as <- <-. exists want, have. split; [|done].
  destruct (rows_of_by_id _ _ _ _ HI E1) as [Hrows _].
  assert (Hadd : ∀ r, r ∈ want → containsRole have (RoID r) = false →
            r ∈ filter (λ r, containsRole have (RoID r) = false) want) by (intros; by apply list_elem_of_filter).
  split; try done.
  - eauto.
  - intros r Hr Hs. apply not_true_iff_false in Eo. apply Eo. apply containsSlug_iff. eauto.
  - intros r Hr Hc. eapply refuseRetired_ok; eauto.
  - intros Ho Hk r p Hr Hc. split; [|intros Hp; eauto].
    unfold privileged_refused in Ep. unfold IsOwner, HasRole in Ep. unfold hasSlug in Ho. rewrite Ho in Ep.
    rewrite (bool_decide_eq_false_2 (AKind a = KindSystem)) in Ep by done.
    destruct gr as [gp [|]]; [done|]. by destruct (Hpr eq_refl r (Hadd r Hr Hc)).
  - by rewrite V1, U1, T1.
  - rewrite V2, U2, T4. unfold tuplesW at 1. cbn. fold (tuplesW w1). by rewrite S2.
  - rewrite V4, U4, T3. done.
Qed.

(** ** Creating and renaming groups *)
Record groups_change st st' : Prop := mkGC {
  gc_rows : RoleRows st' = RoleRows st;
  gc_perms : RolePerms st' = RolePerms st;
  gc_cat : Permissions st' = Permissions st;
  gc_bind : Bindings st' = Bindings st;
  gc_members : members st' = members st;
  gc_groles : groles st' = groles st;
  gc_keep : ∀ tid gid g, group_in st tid gid = Some g → ∃ g', group_in st' tid gid = Some g';
  gc_new : ∀ tid gid g, group_in st' tid gid = Some g →
    (∃ g', group_in st tid gid = Some g') ∨ (members_of st gid = [] ∧ groles_of st gid = []);
}.

Lemma groups_change_mirrored st st' t : groups_change st st' → mirrored st' t ↔ mirrored st t.
Proof.
  intros [E1 E2 E3 E4 E5 E6 Hk Hn].
  assert (Hri : ∀ x y, role_in st' x y = role_in st x y) by (intros; unfold role_in; by rewrite E1).
  assert (Hb : ∀ x y, bindings_of st' x y = bindings_of st x y) by (intros; unfold bindings_of; by rewrite E4).
  assert (Hm : ∀ y, members_of st' y = members_of st y) by (intros; unfold members_of; by rewrite E5).
  assert (Hg : ∀ y, groles_of st' y = groles_of st y) by (intros; unfold groles_of; by rewrite E6).
  assert (Hp : ∀ y, role_perms st' y = role_perms st y) by (intros; unfold role_perms; by rewrite E2).
  split; intros Hmir;
    apply mirrored_cases in Hmir as [(x & u & id & r & ? & Hi & Hr & ->)|[(x & y & G & id & r & ? & HG & Hi & Hr & ->)|[(x & y & G & u & ? & HG & Hi & ->)|(x & id & r & p & ? & Hr & Hi & ->)]]];
    rewrite ?Hri, ?Hb, ?Hm, ?Hg, ?Hp in *.
  - by eapply mi_binding.
  - destruct (Hn _ _ _ HG) as [[G' HG']|[_ Hnil]]; [by eapply mi_group_role|rewrite Hnil in Hi; set_solver].
  - destruct (Hn _ _ _ HG) as [[G' HG']|[Hnil _]]; [by eapply mi_member|rewrite Hnil in Hi; set_solver].
  - by eapply mi_grant.
  - eapply mi_binding; rewrite ?Hri, ?Hb; eauto.
  - destruct (Hk _ _ _ HG) as [G' HG']. eapply mi_group_role; rewrite ?Hri, ?Hg; eauto.
  - destruct (Hk _ _ _ HG) as [G' HG']. eapply mi_member; rewrite ?Hm; eauto.
  - eapply mi_grant; rewrite ?Hri, ?Hp; eauto.
Qed.

(** ** Owners *)
Definition bindings_ok st : Prop := ∀ tid uid, ValidTenantID tid = true →
  NoDup (bindings_of st tid uid) ∧
  ∀ id r, id ∈ bindings_of st tid uid → RoleRows st !! id = Some r → RoTenantID r = tid.

Definition count_rest st tid uid slug : nat :=
  map_fold (λ k ids n, if cut_prefix (tid +:+ "/") k then (count_slug st slug ids + n)%nat else n) 0%nat
    (delete (map_key tid uid) (Bindings st)).

Lemma cut_prefix_key tid uid : cut_prefix (tid +:+ "/") (map_key tid uid) = Some uid.
Proof.
  unfold map_key. replace (tid +:+ "/" +:+ uid) with ((tid +:+ "/") +:+ uid) by by rewrite str_app_assoc.
  apply cut_prefix_app.
Qed.

Lemma count_split st tid uid slug :
  count_with_role st tid slug = (count_slug st slug (bindings_of st tid uid) + count_rest st tid uid slug)%nat.
Proof.
  unfold count_with_role, count_rest, bindings_of. destruct (Bindings st !! map_key tid uid) as [l|] eqn:E.
  - rewrite (map_fold_delete_L _ _ _ _ _) by (eauto; intros j1 j2 z1 z2 y _ _ _; cbn beta;
      destruct (cut_prefix (tid +:+ "/") j1), (cut_prefix (tid +:+ "/") j2); lia).
    by rewrite cut_prefix_key.
  - cbn. by rewrite delete_id.
Qed.

Lemma count_slug_pos st slug ids : (1 <= count_slug st slug ids)%nat ↔
  ∃ id r, id ∈ ids ∧ RoleRows st !! id = Some r ∧ RoSlug r = slug.
Proof.
  unfold count_slug. split.
  - intros Hl. destruct (filter _ ids) as [|id l] eqn:E; [cbn in Hl; lia|].
    assert (Hin : id ∈ filter (λ id, (RoSlug <$> RoleRows st !! id) = Some slug) ids) by (rewrite E; set_solver).
    apply list_elem_of_filter in Hin as [Hs Hin]. apply fmap_Some in Hs as (r & Hr & ->). eauto.
  - intros (id & r & Hin & Hr & Hs).
    assert (Hf : id ∈ filter (λ id, (RoSlug <$> RoleRows st !! id) = Some slug) ids).
    { apply list_elem_of_filter. split; [|done]. rewrite Hr. cbn. by rewrite Hs. }
    destruct (filter _ ids); [set_solver|cbn; lia].
Qed.

Lemma count_slug_le_one st tid uid slug : RoleInv st → bindings_ok st → ValidTenantID tid = true →
  (count_slug st slug (bindings_of st tid uid) <= 1)%nat.
Proof.
  intros HI Hb Hv. destruct (Hb tid uid Hv) as [Hnd Hten]. unfold count_slug.
  pose proof (NoDup_filter (λ id, (RoSlug <$> RoleRows st !! id) = Some slug) _ Hnd) as Hf.
  assert (Hall : ∀ x, x ∈ filter (λ id, (RoSlug <$> RoleRows st !! id) = Some slug) (bindings_of st tid uid) →
            ∃ r, RoleRows st !! x = Some r ∧ RoTenantID r = tid ∧ RoSlug r = slug).
  { intros x Hx. apply list_elem_of_filter in Hx as [Hs Hin]. apply fmap_Some in Hs as (r & Hr & ->). eauto. }
  destruct (filter _ _) as [|x [|y l]]; cbn; try lia. exfalso.
  destruct (Hall x) as (r & Hr & Tr & Sr); [set_solver|]. destruct (Hall y) as (r' & Hr' & Tr' & Sr'); [set_solver|].
  assert (x = y) as -> by (eapply ri_slug; eauto; congruence). apply NoDup_cons in Hf as [Hf _]. set_solver.
Qed.

(** C37. The last owner stays: assigning roles never takes a tenant from some
    owner to none, and keeps the bindings well formed. *)
Theorem last_owner_kept ctx tid uid ids w slugs w' :
  RoleInv (az_st w) → bindings_ok (az_st w) → ValidTenantID tid = true →
  AssignRoles ctx tid uid ids w = (Ok slugs, w') →
  (1 <= count_with_role (az_st w) tid "owner")%nat →
  (1 <= count_with_role (az_st w') tid "owner")%nat ∧ bindings_ok (az_st w').
Proof using All.
  intros HI Hb Hv E Hc. apply AssignRoles_ok in E as (a & want & have & HA & _); [|done].
  destruct HA as [_ Hw Hh _ Hown Hst _ _]. destruct (rows_of_by_id _ _ _ _ HI Hw) as [Hrows Hids].
  destruct (Hb tid uid Hv) as [Hnd Hten]. rewrite Hst. split.
  - rewrite (count_split _ tid uid). set (st' := set_Bindings _ _).
    assert (Hrest : count_rest st' tid uid "owner" = count_rest (az_st w) tid uid "owner").
    { unfold count_rest, st'. cbn. by rewrite delete_insert_eq. }
    rewrite Hrest. rewrite (count_split _ tid uid) in Hc, Hown.
    assert (Hhave : containsSlug have "owner" = true ↔ (1 <= count_slug (az_st w) "owner" (bindings_of (az_st w) tid uid))%nat).
    { rewrite containsSlug_iff, count_slug_pos, Hh. setoid_rewrite list_elem_of_omap. setoid_rewrite role_in_Some.
      split; [naive_solver|]. intros (id & r & Hin & Hr & Hs). exists r. split; [|done]. exists id. eauto. }
    pose proof (count_slug_le_one _ tid uid "owner" HI Hb Hv).
    destruct (containsSlug want "owner") eqn:Ew.
    + assert (1 <= count_slug st' "owner" (bindings_of st' tid uid))%nat; [|lia].
      apply count_slug_pos. apply containsSlug_iff in Ew as (r & Hr & Hs). exists (RoID r), r.
      pose proof (Hrows r Hr) as [Hrow _]%role_in_Some. split_and!; [|done|done].
      unfold st'. rewrite bindings_of_set, decide_True by done. apply list_elem_of_fmap. eauto.
    + destruct (containsSlug have "owner") eqn:Eh; [specialize (Hown eq_refl eq_refl); lia|].
      assert (¬ (1 <= count_slug (az_st w) "owner" (bindings_of (az_st w) tid uid))%nat) by (rewrite <- Hhave; done). lia.
  - intros x u Hx. rewrite bindings_of_set. case_decide as Ek; [|by apply Hb].
    apply map_key_inj in Ek as [-> ->]; [|done..]. split; [rewrite Hids; apply NoDup_dedup_from|].
    intros id r Hin Hr. apply list_elem_of_fmap in Hin as (r' & -> & Hr'). specialize (Hrows r' Hr').
    apply role_in_Some in Hrows as [Hrow Ht]. cbn in Hr. congruence.
Qed.

(** The roles of a group: none is the owner role, and those it did not have
    before are not retired. *)
Definition group_roles_ok (st st' : Store) tid gid : Prop :=
  ∀ id r, id ∈ groles_of st' gid → role_in st' tid id = Some r →
    RoSlug r ≠ "owner" ∧ (id ∉ groles_of st gid → RoRetiredAt r = None).

(** Ownership is never handed out through a group, and retired module roles
    are never newly granted to one. *)
Theorem group_never_owner ctx tid gid ids w slugs w' a :
  RoleInv (az_st w) → ctx_actor ctx = Some a → SetRoles ctx tid gid ids w = (Ok slugs, w') →
  group_roles_ok (az_st w) (az_st w') tid gid.
Proof using All.
  intros HI Ha E id r Hid Hr.
  apply (SetRoles_ok ctx tid gid ids w slugs w' a HI Ha) in E as (want & have & [_ Hw Hh Ho Hret _ Hst _ _] & _).
  rewrite Hst in Hid, Hr. rewrite groles_of_set, decide_True in Hid by done.
  change (role_in (az_st w) tid id = Some r) in Hr.
  apply list_elem_of_fmap in Hid as (r' & -> & Hr'). pose proof (Hw _ Hr'). assert (r' = r) as -> by congruence.
  split; [by apply Ho|]. intros Hn. apply Hret; [done|]. apply containsRole_false. intros x Hx Ex. apply Hn.
  rewrite Hh in Hx. apply list_elem_of_omap in Hx as (y & Hy & Hry). rewrite <- Ex.
  by rewrite (role_in_id _ _ _ _ HI Hry).
Qed.
End Runs.

(** ** What a deletion leaves *)
Section Removal.
Implicit Types (st : Store) (tid uid gid slug : string).

(** No group holds the role, so deleting it takes every tuple about it away. *)
Definition ungrouped st (id : string) : Prop := ∀ gid, id ∉ groles_of st gid.

Lemma elem_of_assignees st tid id l uid :
  RoleAssignees tid id st = (Ok l, st) → id ∈ bindings_of st tid uid → uid ∈ l.
Proof.
  intros [= <-] Hb. unfold bindings_of in Hb. destruct (Bindings st !! map_key tid uid) as [ids|] eqn:Ek; [|by apply elem_of_nil in Hb].
  apply list_elem_of_In, in_concat. exists ((λ _, uid) <$> filter (λ x, x = id) ids). split; apply list_elem_of_In.
  - apply list_elem_of_fmap. exists (map_key tid uid, ids). split; [by rewrite cut_prefix_key|by apply elem_of_map_to_list].
  - apply list_elem_of_fmap. exists id. split; [done|]. by apply list_elem_of_filter.
Qed.

Definition removed_role st id : Store :=
  set_Bindings (set_RolePerms (set_RoleRows st (delete id (RoleRows st))) (delete id (RolePerms st)))
    (filter (λ x, x ≠ id) <$> Bindings st).

Lemma removed_role_in st id x y : role_in (removed_role st id) x y = if decide (y = id) then None else role_in st x y.
Proof. unfold role_in. cbn. case_decide as E; [by rewrite E, lookup_delete_eq|by rewrite lookup_delete_ne]. Qed.
Lemma removed_role_perms st id y : y ≠ id → role_perms (removed_role st id) y = role_perms st y.
Proof. intros Hy. unfold role_perms. cbn. by rewrite lookup_delete_ne. Qed.
Lemma removed_role_bindings st id tid uid y :
  y ∈ bindings_of (removed_role st id) tid uid ↔ y ≠ id ∧ y ∈ bindings_of st tid uid.
Proof.
  unfold bindings_of. cbn. rewrite lookup_fmap. destruct (Bindings st !! _) as [ids|]; cbn; [by rewrite list_elem_of_filter|].
  rewrite elem_of_nil. naive_solver.
Qed.

Lemma removed_role_mirror st tid id r assignees t :
  RoleInv st → ValidTenantID tid = true → role_in st tid id = Some r → ungrouped st id →
  (∀ uid, id ∈ bindings_of st tid uid → uid ∈ assignees) → access t = true →
  mirrored (removed_role st id) t ↔ (mirrored st t ∨ t ∈ []) ∧
    t ∉ (RoleAssignmentTuple tid (RoSlug r) <$> assignees) ++ (GrantTuple tid (RoSlug r) <$> role_perms st id) ++
        [RoleTenantTuple tid (RoSlug r)].
Proof.
  intros HI Hv Hr Hug Has Ha. rewrite elem_of_nil, !elem_of_app, !list_elem_of_fmap, list_elem_of_singleton.
  assert (Hother : ∀ x y r', role_in st x y = Some r' → y ≠ id → ¬ (x = tid ∧ RoSlug r' = RoSlug r)).
  { intros x y r' Hr' Hy [-> Es]. by destruct (role_in_slug st tid y id r' r) as [? _]. }
  assert (Hsame : ∀ x r', role_in st x id = Some r' → x = tid ∧ r' = r).
  { intros x r' [H1 H2]%role_in_Some. apply role_in_Some in Hr as [H3 H4]. split; congruence. }
  split.
  - intros Hm; apply mirrored_cases in Hm as [(x & u & y & r' & Hx & Hb & Hr' & ->)|[(x & g & G & y & r' & Hx & HG & Hi & Hr' & ->)|[(x & g & G & u & Hx & HG & Hu & ->)|(x & y & r' & p & Hx & Hr' & Hp & ->)]]].
    + rewrite removed_role_in in Hr'. case_decide as Hy; [done|]. apply removed_role_bindings in Hb as [_ Hb].
      split; [left; by econstructor|]. intros [(u' & E & _)|[(p & E & _)|E]]; try by apply (f_equal TuRelation) in E.
      apply assign_inj in E as (-> & Es & _); [|done..]. by eapply Hother.
    + rewrite removed_role_in in Hr'. case_decide as Hy; [done|]. split; [left; by eapply mi_group_role|].
      intros [(u' & E & _)|[(p & E & _)|E]]; try by apply (f_equal TuRelation) in E. by apply symmetry, assign_group_role in E.
    + split; [left; by eapply mi_member|]. intros [(u' & E & _)|[(p & E & _)|E]]; by apply (f_equal TuRelation) in E.
    + rewrite removed_role_in in Hr'. case_decide as Hy; [done|]. rewrite removed_role_perms in Hp by done.
      split; [left; by econstructor|]. intros [(u' & E & _)|[(q & E & Hq)|E]]; try by apply (f_equal TuRelation) in E.
      apply grant_inj in E as (-> & Es & _); eauto using ri_perm. by eapply Hother.
  - intros [[Hm|[]] Hno]. apply mirrored_cases in Hm as [(x & u & y & r' & Hx & Hb & Hr' & ->)|[(x & g & G & y & r' & Hx & HG & Hi & Hr' & ->)|[(x & g & G & u & Hx & HG & Hu & ->)|(x & y & r' & p & Hx & Hr' & Hp & ->)]]].
    + destruct (decide (y = id)) as [->|Hy]; [destruct (Hsame _ _ Hr') as [-> ->]; destruct Hno; left; eauto|].
      eapply mi_binding; [done|by apply removed_role_bindings|by rewrite removed_role_in, decide_False].
    + destruct (decide (y = id)) as [->|Hy]; [by destruct (Hug g)|].
      eapply mi_group_role; [done..|by rewrite removed_role_in, decide_False].
    + by eapply mi_member.
    + destruct (decide (y = id)) as [->|Hy]; [destruct (Hsame _ _ Hr') as [-> ->]; destruct Hno; right; left; eauto|].
      eapply mi_grant; [done|by rewrite removed_role_in, decide_False|by rewrite removed_role_perms].
Qed.

(** The loop of [Delete] over the members: pages follow the time a member was
    added, so the group must fit a page, or its times must ascend strictly. *)
Definition added_times st gid : list Z := GMAddedAt <$> member_rows st gid.
Definition listable st gid : Prop :=
  Forall (λ t, zero_time < t)%Z (added_times st gid) ∧
  ((length (members_of st gid) < GroupBatchMax)%nat ∨ StronglySorted Z.lt (added_times st gid)).

Lemma slices_concat {A} n : (0 < n)%nat → ∀ fuel (l : list A), (length l <= fuel)%nat → concat (slices fuel n l) = l.
Proof.
  intros Hn. induction fuel as [|fuel IH]; intros [|x l] Hl; try done; [cbn in Hl; lia|].
  cbn [slices concat]. rewrite IH; [by rewrite take_drop|]. rewrite length_drop. cbn in *. lia.
Qed.

Definition removed_group st gid : Store :=
  set_groles (set_members (set_groups st (delete gid (groups st))) (delete gid (members st))) (delete gid (groles st)).

Lemma removed_group_in st gid x y : group_in (removed_group st gid) x y = if decide (y = gid) then None else group_in st x y.
Proof. unfold group_in. cbn. case_decide as E; [by rewrite E, lookup_delete_eq|by rewrite lookup_delete_ne]. Qed.

Lemma removed_group_mirror st tid gid g roles uids t :
  ValidTenantID tid = true → group_in st tid gid = Some g → roles = omap (role_in st tid) (groles_of st gid) →
  (∀ uid, uid ∈ members_of st gid → uid ∈ uids) → access t = true →
  mirrored (removed_group st gid) t ↔ (mirrored st t ∨ t ∈ []) ∧
    t ∉ (GroupTenantTuple tid gid :: ((λ r, GroupRoleTuple tid gid (RoSlug r)) <$> roles)) ++
        (GroupMembershipTuple tid gid <$> uids).
Proof.
  intros Hv Hg Hro Hus Ha. rewrite elem_of_nil, elem_of_app, elem_of_cons, !list_elem_of_fmap.
  assert (Hsame : ∀ x G, group_in st x gid = Some G → x = tid).
  { intros x G [H1 H2]%group_in_Some. apply group_in_Some in Hg as [H3 H4]. congruence. }
  split.
  - intros Hm; apply mirrored_cases in Hm as [(x & u & y & r' & Hx & Hb & Hr' & ->)|[(x & y & G & id & r' & Hx & HG & Hi & Hr' & ->)|[(x & y & G & u & Hx & HG & Hu & ->)|(x & y & r' & p & Hx & Hr' & Hp & ->)]]].
    + split; [left; by econstructor|]. intros [[E|(r & E & _)]|(u' & E & _)]; try by apply (f_equal TuRelation) in E.
      by apply assign_group_role in E.
    + rewrite removed_group_in in HG. case_decide as Hy; [done|]. split.
      * left. eapply mi_group_role; eauto. unfold groles_of in *. cbn in Hi. by rewrite lookup_delete_ne in Hi.
      * intros [[E|(r & E & _)]|(u' & E & _)]; try by apply (f_equal TuRelation) in E. by apply group_role_inj in E as (_ & ? & _).
    + rewrite removed_group_in in HG. case_decide as Hy; [done|]. split.
      * left. eapply mi_member; eauto. unfold members_of in *. cbn in Hu. by rewrite lookup_delete_ne in Hu.
      * intros [[E|(r & E & _)]|(u' & E & _)]; try by apply (f_equal TuRelation) in E. by apply member_inj in E as (_ & ? & _).
    + split; [left; by econstructor|]. intros [[E|(r & E & _)]|(u' & E & _)]; by apply (f_equal TuRelation) in E.
  - intros [[Hm|[]] Hno]. apply mirrored_cases in Hm as [(x & u & y & r' & Hx & Hb & Hr' & ->)|[(x & y & G & id & r' & Hx & HG & Hi & Hr' & ->)|[(x & y & G & u & Hx & HG & Hu & ->)|(x & y & r' & p & Hx & Hr' & Hp & ->)]]].
    + by eapply mi_binding.
    + destruct (decide (y = gid)) as [->|Hy].
      * apply Hsame in HG as ->. destruct Hno. left. right. exists r'. split; [done|]. rewrite Hro. apply list_elem_of_omap. eauto.
      * eapply mi_group_role; [done|by rewrite removed_group_in, decide_False| |done]. unfold groles_of. cbn. by rewrite lookup_delete_ne.
    + destruct (decide (y = gid)) as [->|Hy]; [apply Hsame in HG as ->; destruct Hno; right; eauto|].
      eapply mi_member; [done|by rewrite removed_group_in, decide_False|]. unfold members_of. cbn. by rewrite lookup_delete_ne.
    + by eapply mi_grant.
Qed.
End Removal.

Section Groups.
Context {B K : Type} `{BackendLaws B} `{KVLaws K}.
Context (EqualFold : string → string → bool) (newID : nat → string) `{!Inj (=) (=) newID}.
Notation W := (AZ B K).
Notation Good := (Good newID).
Notation safe_call := (safe_call newID).
Implicit Types (w : W) (st : Store) (tid uid gid slug : string).

Lemma member_Good st' tid gid g ins outs w w' :
  ValidTenantID tid = true → group_in (az_st w) tid gid = Some g → Good w →
  member_change (az_st w) st' gid ins outs → az_st w' = st' → az_ids w' = az_ids w →
  tuplesW w' = (tuplesW w ∪ list_to_set (GroupMembershipTuple tid gid <$> ins)) ∖
               list_to_set (GroupMembershipTuple tid gid <$> outs) →
  Good w'.
Proof.
  intros Hv Hg [HI HM HF] Hc Est Eids Ets. pose proof Hc as [E1 E2 E3 E4 E5 E6 E7 E8]. split.
  - rewrite Est. by eapply RoleInv_tables.
  - rewrite Est, Ets. eapply Mirror_update; [done|]. intros t Ha. by eapply member_mirror.
  - rewrite Est, Eids. intros n Hn. destruct (HF n Hn) as [F1 F2 F3 F4 F5 F6 F7]. split; rewrite ?E1, ?E2, ?E4, ?E5, ?E6; try done.
    rewrite E7; [done|]. intros <-. apply group_in_Some in Hg as [Hg _]. congruence.
Qed.

Lemma AddMembers_safe ctx tid gid us w n w' a :
  Good w → ValidTenantID tid = true → ctx_actor ctx = Some a →
  AddMembers ctx tid gid us w = (Ok n, w') → safe_call a tid w w'.
Proof using All.
  intros HG Hv Ha E. unfold AddMembers in E.
  apply bind_ok_inv in E as (a' & w1 & E1 & E). apply admin_ok in E1 as (-> & Ha' & _ & _). assert (a' = a) as -> by congruence.
  apply bind_ok_inv in E as (g & w1 & E1 & E). apply GetGroup_ok in E1 as [-> Hg].
  destruct (_ || _); [done|].
  apply bind_ok_inv in E as (gr & w1 & E1 & E). unfold groupGrants in E1.
  apply bind_ok_inv in E1 as (roles & w2 & E1 & E2). apply GroupRoles_ok in E1 as [-> ->].
  apply roleGrants_ok in E2 as (-> & Hgr & _). destruct (privileged_refused _ _); [done|].
  apply bind_ok_inv in E as (? & w1 & E1 & E). apply may_grant_or_refuse_ok in E1 as [Hs Hmay].
  apply (Good_same _ _ _ Hs) in HG as HG1. destruct Hs as [S1 S2 _ S4].
  apply bind_ok_inv in E as (adds & w2 & E1 & E). apply add_all_ok in E1 as (T1 & I1 & l & Hl & ->). cbn [app] in E.
  apply bind_ok_inv in E as (? & w3 & E2 & E). injection E as _ <-.
  assert (Hw3 : az_st w3 = az_st w2 ∧ az_ids w3 = az_ids w2 ∧
                tuplesW w3 = tuplesW w2 ∪ list_to_set (GroupMembershipTuple tid gid <$> l)).
  { case_bool_decide as Hn; [injection E2 as _ <-; rewrite Hn; set_solver|].
    apply Write_ok in E2 as (? & _ & ? & -> & _). cbn. split_and!; try done. set_solver. }
  destruct Hw3 as (U1 & U2 & U3).
  assert (HG3 : Good w3).
  { eapply (member_Good _ tid gid g l [] w1 w3); [done| |done|exact Hl|done|congruence|].
    - by rewrite S1.
    - rewrite U3, T1. cbn. set_solver. }
  split; [done|]. intros Ho Hk. apply no_gain_perms with (newID := newID); [done..|]. rewrite U1.
  intros u p Hp. destruct (has_perm_member _ _ _ _ _ _ _ _ Hl Hp) as [?|(id & r & Hr & Hpp & Hid)];
    [left; by rewrite <- S1|right]. rewrite S1 in *. apply Hmay; [done..|]. eapply Hgr.
  - apply list_elem_of_omap. eauto.
  - by rewrite (role_in_id _ _ _ _ (good_inv _ _ HG) Hr).
Qed.

Lemma RemoveMember_safe ctx tid gid uid w u w' a :
  Good w → ValidTenantID tid = true → ctx_actor ctx = Some a →
  RemoveMember ctx tid gid uid w = (Ok u, w') → safe_call a tid w w'.
Proof using All.
  intros HG Hv Ha E. unfold RemoveMember in E.
  apply bind_ok_inv in E as (a' & w1 & E1 & E). apply admin_ok in E1 as (-> & Ha' & _ & _).
  apply bind_ok_inv in E as (g & w1 & E1 & E). apply GetGroup_ok in E1 as [-> Hg].
  apply bind_ok_inv in E as (m & w1 & E1 & E). apply stM_read in E1 as [-> E1]; [|apply reads_IsGroupMember].
  destruct m; cbn in E; [|injection E as _ <-; split; [done|intros _ _ x p _ Hc; by left]].
  apply bind_ok_inv in E as (? & w1 & E2 & E). apply stM_inv in E2 as (s & E2 & ->).
  unfold RemoveGroupMember in E2. rewrite Hg in E2. injection E2 as _ <-.
  apply bind_ok_inv in E as (? & w2 & E2 & E). injection E as _ <-. apply (safe_call_after _ w2); [done|].
  apply Write_ok in E2 as (S1 & _ & S3 & S4 & _). cbn in S1, S3.
  assert (Hc : member_change (az_st w) (az_st w2) gid [] [uid]).
  { rewrite S1. split; try done.
    - intros g' Hg'. cbn. by rewrite lookup_insert_ne.
    - intros xx. rewrite members_of_set, decide_True, list_elem_of_filter by done. set_solver. }
  assert (HG2 : Good w2).
  { eapply (member_Good _ tid gid g [] [uid] w w2); [done..|]. rewrite S4. cbn. done. }
  split; [done|]. intros _ _ xx p _ Hcan. left. rewrite S4 in Hcan. eapply holds_mono; [|exact Hcan].
  unfold tuplesW. cbn. set_solver.
Qed.

Lemma SetRoles_safe ctx tid gid ids w slugs w' a :
  Good w → ValidTenantID tid = true → ctx_actor ctx = Some a →
  SetRoles ctx tid gid ids w = (Ok slugs, w') → safe_call a tid w w'.
Proof.
  intros HG Hv Ha E. pose proof HG as [HI HM HF].
  apply (SetRoles_ok ctx tid gid ids w slugs w' a HI Ha) in E as (want & have & [[g Hg] Hw Hh _ _ Hmay Hst Hts Hids] & _).
  assert (HG' : Good w').
  { split.
    - rewrite Hst. by eapply RoleInv_tables; [..|exact HI].
    - rewrite Hst, Hts. eapply Mirror_update; [exact HM|]. intros t Hat. by eapply group_roles_mirror.
    - rewrite Hst, Hids. intros n Hn. destruct (HF n Hn) as [F1 F2 F3 F4 F5 F6 F7]. split; try done; cbn.
      + rewrite lookup_insert_ne; [done|]. intros ->. apply group_in_Some in Hg as [Hg _]. congruence.
      + intros k l. destruct (decide (k = gid)) as [->|Hk]; [|rewrite lookup_insert_ne by done; apply F7].
        rewrite lookup_insert_eq. intros [= <-] Hin. apply list_elem_of_fmap in Hin as (r & Er & Hr).
        specialize (Hw r Hr). apply role_in_Some in Hw as [Hw _]. rewrite <- Er in Hw. congruence. }
  split; [done|]. intros Ho Hk. apply no_gain_perms with (newID := newID); [done..|].
  intros u p (id & r & Hr & Hp & Hh'). rewrite Hst in Hr, Hp, Hh'.
  change (role_in (az_st w) tid id = Some r) in Hr. change (p ∈ role_perms (az_st w) id) in Hp.
  destruct Hh' as [Hb|(y & G & HG2 & Hm & Hi)]; [left; exists id, r; split_and!; [done..|by left]|].
  change (group_in (az_st w) tid y = Some G) in HG2. change (u ∈ members_of (az_st w) y) in Hm.
  assert (Hdone : id ∈ groles_of (az_st w) y → has_perm (az_st w) tid u p).
  { intros Hi'. exists id, r. split_and!; [done..|]. right. eauto. }
  rewrite groles_of_set in Hi. case_decide as Ey; [subst y|by left; apply Hdone].
  apply list_elem_of_fmap in Hi as (r' & -> & Hr'). pose proof (Hw _ Hr') as Hr2. assert (r' = r) as -> by congruence.
  destruct (containsRole have (RoID r)) eqn:Ec.
  - left. apply Hdone. apply (rows_of_contains (az_st w) tid) in Ec; [|subst have; by apply rows_of_omap|done].
    subst have. apply list_elem_of_omap in Ec as (id' & Hb & Hid'). by rewrite (role_in_id _ _ _ _ HI Hid').
  - right. by apply (Hmay Ho Hk r p Hr' Ec).
Qed.

(** Changes of group rows leave every permission as it was. *)
Lemma groups_change_safe a tid w w' :
  Good w → ValidTenantID tid = true → groups_change (az_st w) (az_st w') → Fresh newID (az_st w') (az_ids w') →
  (∃ x : gset Tuple, tuplesW w' = tuplesW w ∪ x ∧ ∀ t, t ∈ x → access t = false) → safe_call a tid w w'.
Proof using All.
  intros HG Hv Hc HF' (x & Hts & Hx). pose proof HG as [HI HM HF].
  assert (HG' : Good w').
  { split; [|rewrite Hts; apply Mirror_noise; [done|]|done].
    - destruct Hc. by eapply RoleInv_tables.
    - intros t Ha. rewrite groups_change_mirrored by done. by apply HM. }
  split; [done|]. intros _ _ u p Hw Hcan. left. pose proof HG' as [HI' HM' _].
  apply (can_iff (az_st w')) in Hcan; [|done..]. apply (can_iff (az_st w)); [done..|].
  destruct Hcan as (id & r & Hr & Hp & Hh). destruct Hc as [E1 E2 E3 E4 E5 E6 Hk Hn].
  exists id, r. unfold role_in, role_perms in *. rewrite E1 in Hr. rewrite E2 in Hp. split_and!; try done.
  destruct Hh as [Hb|(y & G & HGy & Hm & Hi)]; [left; unfold bindings_of in *; by rewrite <- E4|right].
  unfold members_of, groles_of in *. rewrite E5 in Hm. rewrite E6 in Hi.
  destruct (Hn _ _ _ HGy) as [[G' HG2]|[Hnil _]]; [eauto|]. rewrite Hnil in Hm. set_solver.
Qed.

Lemma CreateGroup_safe ctx tid name desc w g w' a :
  Good w → ValidTenantID tid = true →
  CreateGroupOp EqualFold newID ctx tid name desc w = (Ok g, w') → safe_call a tid w w'.
Proof using All.
  intros HG Hv E. unfold CreateGroupOp in E.
  apply bind_ok_inv in E as (a' & w1 & E1 & E). apply admin_ok in E1 as (-> & Ha' & _ & _).
  apply bind_ok_inv in E as (nm & w1 & E1 & E). injection E1 as _ <-.
  destruct (_ || _); [done|]. apply bind_ok_inv in E as (id & w1 & E1 & E). injection E1 as <- <-.
  set (grp := mkGroup _ _ _ _ _) in *.
  apply bind_ok_inv in E as (r & w1 & E1 & E). unfold attempt in E1.
  destruct (stM (CreateGroup EqualFold grp) _) as [r' w1'] eqn:Ec. injection E1 as -> ->.
  apply bind_ok_inv in E as (? & w2 & E2 & E). destruct r as [[]|e]; [|exfalso; by case_bool_decide].
  injection E2 as _ <-. apply stM_inv in Ec as (s & Ec & ->). unfold CreateGroup in Ec.
  destruct (existsb _ _); [done|]. injection Ec as <-.
  apply bind_ok_inv in E as (? & w2 & E2 & E). apply Write_ok in E2 as (T1 & _ & T3 & T4 & _).
  apply bind_ok_inv in E as (? & w3 & E3 & E). injection E3 as _ <-. injection E as _ <-.
  pose proof HG as [HI HM HF]. destruct (HF (az_ids w) (le_n _)) as [F1 F2 F3 F4 F5 F6 F7]. cbn in *.
  apply (safe_call_after _ w2); [done|]. apply groups_change_safe; [done..| | |].
  - rewrite T1. split; try done; unfold group_in; cbn; intros x9 y G.
    + destruct (decide (y = newID (az_ids w))) as [->|Hy]; [by rewrite F3|].
      rewrite lookup_insert_ne by done. eauto.
    + destruct (decide (y = newID (az_ids w))) as [->|Hy].
      * intros _. right. unfold members_of, groles_of. cbn. by rewrite F4, F5.
      * rewrite lookup_insert_ne by done. eauto.
  - rewrite T1, T3. intros n Hn. destruct (HF n) as [G1 G2 G3 G4 G5 G6 G7]; [lia|]. split; try done. cbn.
    rewrite lookup_insert_ne; [done|]. intros Eq%(inj newID). lia.
  - exists {[GroupTenantTuple tid (newID (az_ids w))]}. split; [|by intros t ->%elem_of_singleton].
    rewrite T4. unfold tuplesW. cbn. set_solver.
Qed.

Lemma UpdateGroup_safe ctx tid gid name desc w g w' a :
  Good w → ValidTenantID tid = true →
  UpdateGroupOp EqualFold ctx tid gid name desc w = (Ok g, w') → safe_call a tid w w'.
Proof using All.
  intros HG Hv E. unfold UpdateGroupOp in E.
  apply bind_ok_inv in E as (a' & w1 & E1 & E). apply admin_ok in E1 as (-> & Ha' & _ & _).
  apply bind_ok_inv in E as (nm & w1 & E1 & E). injection E1 as _ <-.
  destruct (_ || _); [done|]. apply bind_ok_inv in E as (r & w1 & E1 & E). unfold attempt in E1.
  destruct (stM (UpdateGroup _ _ _ _ _) _) as [r' w1'] eqn:Ec. injection E1 as -> ->.
  apply bind_ok_inv in E as (? & w2 & E2 & E). destruct r as [[]|e]; [|exfalso; by case_bool_decide].
  injection E2 as _ <-. apply stM_inv in Ec as (s & Ec & ->). unfold UpdateGroup in Ec.
  destruct (group_in (az_st w) tid gid) as [g0|] eqn:Eg; [|done]. destruct (existsb _ _); [done|]. injection Ec as <-.
  apply bind_ok_inv in E as (? & w2 & E2 & E). injection E2 as _ <-. apply GetGroup_ok in E as [-> _].
  apply group_in_Some in Eg as [Eg Et]. pose proof HG as [HI HM HF]. apply groups_change_safe; [done..| | |].
  - split; try done; unfold group_in; cbn; intros x9 y G;
      (destruct (decide (y = gid)) as [->|Hy]; [rewrite lookup_insert_eq, Eg|rewrite lookup_insert_ne by done; eauto]);
      cbn; case_bool_decide; eauto; done.
  - intros n Hn. destruct (HF n Hn) as [F1 F2 F3 F4 F5 F6 F7]. split; try done. cbn.
    rewrite lookup_insert_ne; [done|]. intros ->. congruence.
  - exists ∅. split; [unfold tuplesW; cbn; set_solver|set_solver].
Qed.

(** ** Deletions *)
Lemma holds_fewer a tid w w' : Good w' → tuplesW w' ⊆ tuplesW w → safe_call a tid w w'.
Proof. clear Inj0. intros HG Hts. split; [done|]. intros _ _ u p _ Hcan. left. by eapply holds_mono. Qed.

Lemma RemoveRole_safe ctx tid id w u w' a :
  Good w → ValidTenantID tid = true → ungrouped (az_st w) id →
  RemoveRoleOp ctx tid id w = (Ok u, w') → safe_call a tid w w'.
Proof using All.
  intros HG Hv Hug E. pose proof HG as [HI HM HF]. unfold RemoveRoleOp in E.
  apply bind_ok_inv in E as (a' & w1 & E1 & E). apply actorM_ok in E1 as [-> _].
  apply bind_ok_inv in E as (? & w1 & E1 & E). apply requireM_ok in E1 as [-> _].
  apply bind_ok_inv in E as (ro & w1 & E1 & E). apply stM_read in E1 as [-> E1]; [|apply reads_RoleByID].
  unfold RoleByID in E1. destruct (role_in (az_st w) tid id) as [ro'|] eqn:Ero; [|done]. injection E1 as ->.
  apply bind_ok_inv in E as (? & w1 & E1 & E). injection E1 as _ <-.
  apply bind_ok_inv in E as (us & w1 & E1 & E). apply stM_inv in E1 as (s & E1 & ->).
  assert (s = az_st w) as -> by (by injection E1). rewrite with_st_id in E.
  apply bind_ok_inv in E as (ps & w1 & E2 & E). apply RolePermissions_ok in E2 as (-> & -> & _).
  apply bind_ok_inv in E as (? & w1 & E2 & E). apply stM_inv in E2 as (s & E2 & ->).
  unfold RemoveRole in E2. rewrite Ero in E2. destruct (bool_decide (OriginOf ro ≠ OriginCustom)); [done|]. injection E2 as _ <-.
  apply bind_ok_inv in E as (? & w2 & E2 & E). injection E as _ <-. apply (safe_call_after _ w2); [done|].
  apply Write_ok in E2 as (S1 & _ & S3 & S4 & _). cbn [az_st az_ids with_st] in S1, S3.
  apply holds_fewer; [|rewrite S4; unfold tuplesW; cbn; set_solver]. split.
  - rewrite S1. destruct HI as [I1 I2 I3 I4]. split.
    + cbn. intros y r [_ Hy]%lookup_delete_Some. eauto.
    + cbn. intros y y' r r' [_ Hy]%lookup_delete_Some [_ Hy']%lookup_delete_Some. eauto.
    + intros y p. unfold role_perms. cbn. destruct (decide (y = id)) as [->|Hy]; [by rewrite lookup_delete_eq; intros []%elem_of_nil|].
      rewrite lookup_delete_ne by done. apply I3.
    + done.
  - rewrite S1, S4. apply (Mirror_update (az_st w)); [done|]. intros t Ha.
    apply removed_role_mirror; try done. intros uid. by apply elem_of_assignees.
  - rewrite S1, S3. intros n Hn. destruct (HF n Hn) as [F1 F2 F3 F4 F5 F6 F7]. split; try done; cbn.
    + by apply lookup_delete_None; right.
    + by apply lookup_delete_None; right.
    + intros k l. rewrite lookup_fmap. intros (l' & Hl' & ->)%fmap_Some [_ Hin]%list_elem_of_filter. by eapply F6.
Qed.

(** The pages of a listable group hold every member. *)
Lemma member_pages_rest tid gid : ∀ fuel after pre rest acc w uids w',
  member_rows (az_st w) gid = pre ++ rest → Forall (λ x, (GMAddedAt x <= after)%Z) pre → Forall (λ x, (after < GMAddedAt x)%Z) rest →
  StronglySorted Z.lt (GMAddedAt <$> rest) ∨ (length rest < GroupBatchMax)%nat →
  member_pages fuel tid gid after acc w = (Ok uids, w') →
  w' = w ∧ ∀ u, u ∈ acc ∨ u ∈ GMUserID <$> rest → u ∈ uids.
Proof using All.
  induction fuel as [|fuel IH]; intros after pre rest acc w uids w' Er Hpre Hrest Hs E; cbn [member_pages] in E; [done|].
  apply bind_ok_inv in E as (page & w1 & E1 & E). apply stM_inv in E1 as (s & E1 & ->).
  unfold ListGroupMembers in E1. injection E1 as Ep <-. rewrite with_st_id in E.
  assert (Ef : filter (λ x, (after < GMAddedAt x)%Z) (member_rows (az_st w) gid) = rest).
  { rewrite Er, (filter_drop _ _ (length pre)); rewrite ?take_app_length, ?drop_app_length; [done| |].
    - intros x Hx. rewrite Forall_forall in Hpre. specialize (Hpre x Hx). lia.
    - intros x Hx. rewrite Forall_forall in Hrest. by apply Hrest. }
  rewrite Ef in Ep. cbv zeta in E. destruct (length page <? GroupBatchMax)%nat eqn:El.
  - injection E as <- <-. split; [done|]. apply Nat.ltb_lt in El. rewrite <- Ep, length_take in El.
    rewrite take_ge in Ep by lia. subst page. intros u. by rewrite elem_of_app.
  - apply Nat.ltb_ge in El. rewrite <- Ep, length_take in El. destruct Hs as [Hs|Hs]; [|lia].
    assert (Esp : rest = page ++ drop GroupBatchMax rest) by (by rewrite <- Ep, take_drop).
    destruct (last page) as [m|] eqn:Em; [|apply last_None in Em; rewrite Em in Ep; destruct rest; cbn in *; [unfold GroupBatchMax in El; lia|done]].
    apply last_Some in Em as [page' Em]. set (rest' := drop GroupBatchMax rest) in *.
    assert (Hs' : StronglySorted Z.lt ((GMAddedAt <$> page') ++ GMAddedAt m :: (GMAddedAt <$> rest'))).
    { rewrite Esp, Em, !fmap_app, <- app_assoc in Hs. exact Hs. }
    apply StronglySorted_app in Hs' as (Hlt & _ & Hs'). apply StronglySorted_inv in Hs' as [Hs' Hlt'].
    destruct (IH (GMAddedAt m) (pre ++ page) rest' (acc ++ (GMUserID <$> page)) w uids w') as [-> Hall]; try done.
    + rewrite Er, Esp at 1. by rewrite app_assoc.
    + apply Forall_app. split.
      * eapply Forall_impl; [exact Hpre|]. cbn. intros x Hx. rewrite Forall_forall in Hrest.
        specialize (Hrest m). rewrite Esp, Em in Hrest. specialize (Hrest ltac:(set_solver)). cbn in Hrest. lia.
      * rewrite Em. apply Forall_app. split; [|by constructor; [lia|]].
        apply Forall_forall. intros x Hx. enough (GMAddedAt x < GMAddedAt m)%Z by lia.
        apply Hlt; [by apply list_elem_of_fmap_2|set_solver].
    + rewrite Forall_fmap in Hlt'. exact Hlt'.
    + by left.
    + split; [done|]. intros u Hu. apply Hall. rewrite Esp in Hu. rewrite fmap_app in Hu. set_solver.
Qed.

Lemma member_pages_all tid gid fuel w uids w' : listable (az_st w) gid →
  member_pages fuel tid gid zero_time [] w = (Ok uids, w') → w' = w ∧ ∀ u, u ∈ members_of (az_st w) gid → u ∈ uids.
Proof using All.
  intros [Hz Hl] E. apply (member_pages_rest tid gid fuel zero_time [] (member_rows (az_st w) gid)) in E as [-> Hall]; try done.
  - split; [done|]. intros u Hu. apply Hall. right. unfold member_rows. rewrite <- list_fmap_compose.
    apply list_elem_of_fmap. exists u. by split.
  - unfold added_times in Hz. by rewrite Forall_fmap in Hz.
  - destruct Hl as [Hl|Hl]; [right|by left]. unfold member_rows. by rewrite length_fmap.
Qed.

Lemma Write_chunks ctx tid chunks : ∀ w u w',
  for_each chunks (λ chunk, Write ctx tid [] chunk) w = (Ok u, w') →
  az_st w' = az_st w ∧ az_ids w' = az_ids w ∧ tuplesW w' = tuplesW w ∖ list_to_set (concat chunks).
Proof using All.
  induction chunks as [|c chunks IH]; intros w u w' E; cbn [for_each] in E; [injection E as _ <-; cbn; set_solver|].
  apply bind_ok_inv in E as (? & w1 & E1 & E). apply Write_ok in E1 as (S1 & _ & S3 & S4 & _).
  apply IH in E as (T1 & T3 & T4). split_and!; [congruence..|]. rewrite T4, S4. cbn. set_solver.
Qed.

Lemma DeleteGroup_safe ctx tid gid n w u w' a :
  Good w → ValidTenantID tid = true → listable (az_st w) gid →
  DeleteGroupOp ctx tid gid n w = (Ok u, w') → safe_call a tid w w'.
Proof using All.
  intros HG Hv Hli E. pose proof HG as [HI HM HF]. unfold DeleteGroupOp in E.
  apply bind_ok_inv in E as (a' & w1 & E1 & E). apply admin_ok in E1 as (-> & _ & _ & _).
  apply bind_ok_inv in E as (g & w1 & E1 & E). apply GetGroup_ok in E1 as [-> Hg].
  apply bind_ok_inv in E as (k & w1 & E1 & E). apply stM_read in E1 as [-> _]; [|apply reads_CountGroupMembers].
  case_bool_decide; [done|].
  apply bind_ok_inv in E as (roles & w1 & E1 & E). apply GroupRoles_ok in E1 as [-> Hro].
  apply bind_ok_inv in E as (uids & w1 & E1 & E). apply member_pages_all in E1 as [-> Hall]; [|done]. cbv zeta in E.
  apply bind_ok_inv in E as (? & w1 & E1 & E). apply stM_inv in E1 as (s & E1 & ->).
  unfold DeleteGroup in E1. rewrite Hg in E1. injection E1 as _ <-.
  apply bind_ok_inv in E as (? & w2 & E2 & E). injection E as _ <-. apply (safe_call_after _ w2); [done|].
  apply Write_chunks in E2 as (S1 & S3 & S4). rewrite slices_concat in S4; [|unfold GroupBatchMax; lia|done].
  cbn [az_st az_ids with_st] in S1, S3. apply holds_fewer; [|rewrite S4; unfold tuplesW; cbn; set_solver]. split.
  - rewrite S1. by eapply RoleInv_tables; [..|exact HI].
  - rewrite S1, S4. change (tuplesW (with_st _ _)) with (tuplesW w).
    replace (tuplesW w) with (tuplesW w ∪ list_to_set []) by (cbn; set_solver).
    apply (Mirror_update (az_st w)); [done|]. intros t Ha. by eapply removed_group_mirror.
  - rewrite S1, S3. intros m Hm. destruct (HF m Hm) as [F1 F2 F3 F4 F5 F6 F7]. split; try done; cbn;
      try (by apply lookup_delete_None; right). intros y l [_ Hl]%lookup_delete_Some. by eapply F7.
Qed.

(** ** The services as a whole

    Every successful call of the role, assignment and group services.  A role
    is deleted only when no group holds it ([ungrouped]; the tuple that links
    a group to a role is not removed by [Roles.Remove], see the finding), and
    a group only when its pages list every member ([listable]). *)
Inductive service (ctx : Ctx) tid : W → W → Prop :=
  | sv_assign uid ids slugs w w' : AssignRoles ctx tid uid ids w = (Ok slugs, w') → service ctx tid w w'
  | sv_create_role slug name refs v w w' : CreateRole newID ctx tid slug name refs w = (Ok v, w') → service ctx tid w w'
  | sv_clone_role id slug name v w w' : CloneRole newID ctx tid id slug name w = (Ok v, w') → service ctx tid w w'
  | sv_update_role id name refs v w w' : UpdateRole ctx tid id name refs w = (Ok v, w') → service ctx tid w w'
  | sv_add_members gid us n w w' : AddMembers ctx tid gid us w = (Ok n, w') → service ctx tid w w'
  | sv_remove_member gid uid u w w' : RemoveMember ctx tid gid uid w = (Ok u, w') → service ctx tid w w'
  | sv_set_roles gid ids slugs w w' : SetRoles ctx tid gid ids w = (Ok slugs, w') → service ctx tid w w'
  | sv_create_group name desc g w w' :
      CreateGroupOp EqualFold newID ctx tid name desc w = (Ok g, w') → service ctx tid w w'
  | sv_update_group gid name desc g w w' :
      UpdateGroupOp EqualFold ctx tid gid name desc w = (Ok g, w') → service ctx tid w w'
  | sv_remove_role id u w w' :
      ungrouped (az_st w) id → RemoveRoleOp ctx tid id w = (Ok u, w') → service ctx tid w w'
  | sv_delete_group gid n u w w' :
      listable (az_st w) gid → DeleteGroupOp ctx tid gid n w = (Ok u, w') → service ctx tid w w'.

Lemma service_safe ctx tid w w' a :
  service ctx tid w w' → Good w → ValidTenantID tid = true → ctx_actor ctx = Some a → safe_call a tid w w'.
Proof using All.
  intros Hs HG Hv Ha. destruct Hs as [uid ids slugs w w' E|slug name refs v w w' E|id slug name v w w' E|
    id name refs v w w' E|gid us n w w' E|gid uid u w w' E|gid ids slugs w w' E|name desc g w w' E|gid name desc g w w' E|
    id u w w' Hu E|gid n u w w' Hl E].
  - by eapply AssignRoles_safe.
  - by eapply createRole_safe.
  - unfold CloneRole in E. apply bind_ok_inv in E as (? & w1 & E1 & E). apply requireM_ok in E1 as [-> _].
    apply bind_ok_inv in E as (src & w1 & E1 & E). apply stM_read in E1 as [-> _]; [|apply reads_RoleByID].
    case_bool_decide; [done|]. apply bind_ok_inv in E as (ps & w1 & E1 & E). apply RolePermissions_ok in E1 as (-> & _ & _).
    by eapply createRole_safe.
  - by eapply UpdateRole_safe.
  - by eapply AddMembers_safe.
  - by eapply RemoveMember_safe.
  - by eapply SetRoles_safe.
  - by eapply CreateGroup_safe.
  - by eapply UpdateGroup_safe.
  - by eapply RemoveRole_safe.
  - by eapply DeleteGroup_safe.
Qed.

(** ** Calls stay inside their tenant

    [stays tid m]: a successful run of [m] touches no tuple whose object is
    not of tenant [tid]. *)
Definition confined tid w w' : Prop :=
  ∀ t, ObjectTenant (TuObject t) ≠ Ok tid → t ∈ tuplesW w' ↔ t ∈ tuplesW w.
Definition stays {A} tid (m : M W A) : Prop := ∀ w a w', m w = (Ok a, w') → confined tid w w'.

Lemma same_confined tid w w' : same w w' → confined tid w w'.
Proof using Type. intros [_ E _ _] t _. by rewrite E. Qed.
Lemma stays_ret {A} tid (a : A) : stays tid (ret a).
Proof using Type. by intros w b w' [= _ <-]. Qed.
Lemma stays_throw {A} tid e : stays tid (throw e : M W A).
Proof using Type. done. Qed.
Lemma stays_bind {A C} tid (m : M W A) (k : A → M W C) : stays tid m → (∀ a, stays tid (k a)) → stays tid (bind m k).
Proof using Type.
  intros Hm Hk w c w' (a & w1 & E1 & E2)%bind_ok_inv t Ht. by rewrite (Hk a w1 c w' E2 t Ht), (Hm w a w1 E1 t Ht).
Qed.
Lemma stays_stM {A} tid (m : M Store A) : stays tid (stM m).
Proof using Type. intros w a w' (s & _ & ->)%stM_inv. done. Qed.
Lemma stays_lift {A} tid (r : result A) : stays tid (lift r : M W A).
Proof using Type. by intros w a w' [= _ <-]. Qed.
Lemma stays_requireM tid ctx tid' : stays tid (requireM ctx tid').
Proof using Type. intros w a w' [-> _]%requireM_ok. done. Qed.
Lemma stays_actorM tid ctx : stays tid (actorM ctx).
Proof using Type. intros w a w' [-> _]%actorM_ok. done. Qed.
Lemma stays_freshID tid : stays tid (freshID newID).
Proof using Type. by intros w a w' [= _ <-]. Qed.
Lemma stays_nowA tid : stays tid nowA.
Proof using Type. by intros w a w' [= _ <-]. Qed.
Lemma stays_emitE tid e : stays tid (emitE e).
Proof using Type. intros w a w' E. apply same_confined. pose proof (emitE_same e w) as Hs. by rewrite E in Hs. Qed.
Lemma stays_MayGrant tid ctx a tid' perms : stays tid (MayGrant ctx a tid' perms).
Proof using Type. intros w x w' [Hs _]%MayGrant_ok. by apply same_confined. Qed.
Lemma stays_for_each {A} tid (l : list A) f : (∀ x, stays tid (f x)) → stays tid (for_each l f).
Proof using Type. intros Hf. induction l; [apply stays_ret|by apply stays_bind]. Qed.
Lemma stays_fold_each {A C} tid (l : list A) (f : C → A → M W C) : (∀ c x, stays tid (f c x)) → ∀ c, stays tid (fold_each l c f).
Proof using Type. intros Hf. induction l; intros c; [apply stays_ret|by apply stays_bind]. Qed.
Lemma stays_Write tid ctx adds removes : stays tid (Write ctx tid adds removes).
Proof using Type.
  clear EqualFold. intros w u w' (_ & _ & _ & Hts & _ & Ho)%Write_ok t Ht. rewrite Hts, elem_of_difference, elem_of_union, !elem_of_list_to_set.
  assert (Hno : t ∉ adds ++ removes) by (intros Hin; by destruct (Ho t Hin)). rewrite elem_of_app in Hno. naive_solver.
Qed.
(** What an [attempt] guards is followed only when it succeeded. *)
Lemma stays_attempt {A C} tid (m : M W A) (k : result A → M W C) :
  stays tid m → (∀ a, stays tid (k (Ok a))) → (∀ e w c w', k (Err e) w ≠ (Ok c, w')) → stays tid (bind (attempt m) k).
Proof using Type.
  intros Hm Hk Hn w c w' (r & w1 & E1 & E2)%bind_ok_inv. unfold attempt in E1.
  destruct (m w) as [r' w1'] eqn:Em. injection E1 as -> ->. destruct r as [a|e]; [|by destruct (Hn e w1 c w')].
  intros t Ht. by rewrite (Hk a w1 c w' E2 t Ht), (Hm w a w1 Em t Ht).
Qed.

Ltac stays_step :=
  lazymatch goal with
  | |- stays _ (ret _) => apply stays_ret
  | |- stays _ (throw _) => apply stays_throw
  | |- stays _ (stM _) => apply stays_stM
  | |- stays _ (lift _) => apply stays_lift
  | |- stays _ (requireM _ _) => apply stays_requireM
  | |- stays _ (actorM _) => apply stays_actorM
  | |- stays _ (freshID _) => apply stays_freshID
  | |- stays _ nowA => apply stays_nowA
  | |- stays _ (emitE _) => apply stays_emitE
  | |- stays _ (MayGrant _ _ _ _) => apply stays_MayGrant
  | |- stays _ (Write _ _ _ _) => apply stays_Write
  | |- stays _ (bind (attempt _) _) => apply stays_attempt; [|intros ?|intros ? ? ? ? ?; repeat case_bool_decide; done]
  | |- stays _ (bind _ _) => apply stays_bind; [|intros ?]
  | |- stays _ (for_each _ _) => apply stays_for_each; intros ?
  | |- stays _ (fold_each _ _ _) => apply stays_fold_each; intros ? ?
  | |- stays _ (match _ with _ => _ end) => case_match
  end.
Ltac stays_solve := cbv zeta; repeat stays_step.

Lemma stays_admin tid ctx typ kind id : stays tid (admin ctx tid typ kind id).
Proof using Type. unfold admin, refuseG. stays_solve. Qed.
Lemma stays_roleGrants tid roles : stays tid (roleGrants tid roles).
Proof using Type. induction roles; cbn [roleGrants]; stays_solve. done. Qed.
Lemma stays_granting tid roles : ∀ acc, stays tid (granting tid roles acc).
Proof using Type. induction roles; intros acc; cbn [granting]; stays_solve. done. Qed.
Lemma stays_MayAssign tid ctx a ids : stays tid (MayAssign ctx a tid ids).
Proof using Type. unfold MayAssign. stays_solve; apply stays_granting. Qed.
Lemma stays_may_grant tid ctx a typ id perms : stays tid (may_grant_or_refuse ctx a tid typ id perms).
Proof using Type. unfold may_grant_or_refuse, refuseG. stays_solve. Qed.
Lemma stays_parsePerms tid refs kept : stays tid (parsePerms tid refs kept).
Proof using Type. unfold parsePerms, knownRefs. stays_solve. Qed.
Lemma stays_member_pages tid gid : ∀ fuel after acc, stays tid (member_pages fuel tid gid after acc).
Proof using Type. induction fuel; intros after acc; cbn [member_pages]; stays_solve; done. Qed.
Lemma stays_createRole tid ctx slug name refs c : stays tid (createRole newID ctx tid slug name refs c).
Proof using Type. unfold createRole. stays_solve; apply stays_parsePerms. Qed.

Lemma service_confined ctx tid w w' : service ctx tid w w' → confined tid w w'.
Proof using Type.
  intros Hs. destruct Hs as [? ? ? w w' E|? ? ? ? w w' E|? ? ? ? w w' E|? ? ? ? w w' E|? ? ? w w' E|? ? ? w w' E|
    ? ? ? w w' E|? ? ? w w' E|? ? ? ? w w' E|? ? w w' _ E|? ? ? w w' _ E]; revert E;
    match goal with |- ?m _ = _ → _ => assert (stays tid m) as Hw; [|by apply Hw] end.
  - unfold AssignRoles, emit_tuples. stays_solve; apply stays_MayAssign.
  - apply stays_createRole.
  - unfold CloneRole. stays_solve; apply stays_createRole.
  - unfold UpdateRole. stays_solve; apply stays_parsePerms.
  - unfold AddMembers, groupGrants, add_one, refuseG. stays_solve; first [apply stays_admin|apply stays_roleGrants|apply stays_may_grant].
  - unfold RemoveMember. stays_solve; apply stays_admin.
  - unfold SetRoles, refuseG. stays_solve; first [apply stays_admin|apply stays_roleGrants|apply stays_may_grant].
  - unfold CreateGroupOp. stays_solve; apply stays_admin.
  - unfold UpdateGroupOp. stays_solve; apply stays_admin.
  - unfold RemoveRoleOp. stays_solve.
  - unfold DeleteGroupOp, refuseG. stays_solve; first [apply stays_admin|apply stays_member_pages].
Qed.

(** C5. Rows and tuples stay in step: from a state in which they agree, whatever
    sequence of successful service calls is made (by whoever, in whichever
    tenants), a permission check answers exactly what the role, group and
    grant rows say.  The calls are those of [service]: a role is deleted only
    while no group holds it, since the deletion leaves the tuples of groups
    behind ([deleted_role_grants_return]), and a group only while its members
    fit a page or joined at distinct ascending times, since the pages follow
    those times ([delete_misses_members]). *)
Theorem services_keep_mirror w w' tid uid p :
  Good w → rtc (λ x y, ∃ ctx t a, ValidTenantID t = true ∧ ctx_actor ctx = Some a ∧ service ctx t x y) w w' →
  ValidTenantID tid = true → wf_ref p = true →
  (can tid uid (tuplesW w') p ↔ has_perm (az_st w') tid uid p).
Proof using All.
  intros HG Hr Hv Hw. assert (HG' : Good w').
  { induction Hr as [|x y z (ctx & t & a & Ht & Ha & Hs) _ IH]; [done|]. apply IH. by eapply service_safe. }
  destruct HG' as [HI HM _]. by apply can_iff.
Qed.

(** C6. No self-escalation: in a state in which rows and tuples agree, a call by
    someone who is not an owner (nor the system) gives nobody a permission the
    caller does not already hold.  The calls of [service] keep that state;
    deleting a role that a group holds does not, and then a permission can be
    gained ([deleted_role_escalates]). *)
Theorem service_no_escalation ctx tid w w' a u p :
  Good w → ValidTenantID tid = true → ctx_actor ctx = Some a → service ctx tid w w' →
  hasSlug (ARoles a) "owner" = false → AKind a ≠ KindSystem → wf_ref p = true →
  can tid u (tuplesW w') p → can tid u (tuplesW w) p ∨ can tid (AUserID a) (tuplesW w) p.
Proof using All. intros HG Hv Ha Hs Ho Hk Hw Hc. destruct (service_safe _ _ _ _ _ Hs HG Hv Ha) as [_ Hn]. by apply Hn. Qed.

(** Two tuple sets that agree outside the other tenants. *)
Definition agree tid (ts ts' : gset Tuple) : Prop :=
  ∀ t, (∀ x, ObjectTenant (TuObject t) = Ok x → x = tid) → t ∈ ts' ↔ t ∈ ts.

Lemma agree_in ts0 ts ts' tid t : agree tid ts0 ts → agree tid ts0 ts' →
  (∀ x, ObjectTenant (TuObject t) = Ok x → x = tid) → t ∈ ts → t ∈ ts'.
Proof using Type. intros A A' Ho Ht. apply (A' t Ho). by apply (A t Ho). Qed.

Lemma agree_member ts0 ts ts' tid u g : agree tid ts0 ts → agree tid ts0 ts' →
  (∀ x, ObjectTenant g = Ok x → x = tid) → cut_prefix "tenant:" g = None →
  holds ts u "member" g → holds ts' u "member" g.
Proof using Type.
  intros A A' Ho Hc Hh. inversion Hh as [? ? Hd|rest Ha| | |]; subst; [|by rewrite cut_prefix_app in Hc].
  apply holds_direct. exact (agree_in _ _ _ _ (mkTuple u "member" g) A A' Ho Hd).
Qed.

Lemma user_userset g u : g +:+ "#member" = UserObject u → ∃ y, g = "user" +:+ ":" +:+ y.
Proof using Type.
  unfold UserObject. intros E. do 5 (destruct g as [|? g]; [discriminate E|injection E as -> E]). by exists g.
Qed.

(** The object of a userset that a role of the tenant names is a group of the
    tenant (or no object at all). *)
Lemma userset_of_tenant st ts0 tid slug g : Mirror st ts0 → ValidTenantID tid = true →
  mkTuple (g +:+ "#member") "assignee" (RoleObject tid slug) ∈ ts0 →
  (∀ x, ObjectTenant g = Ok x → x = tid) ∧ cut_prefix "tenant:" g = None.
Proof using Type.
  intros HM Hv Hk. apply HM in Hk; [|done].
  apply mirrored_cases in Hk as [(t & u & id & r & Hv' & Hb & Hr & E)|[(t & g0 & G & id & r & Hv' & HG & Hi & Hr & E)|[(? & ? & ? & ? & ? & ? & ? & E)|(? & ? & ? & ? & ? & ? & ? & E)]]];
    try by apply (f_equal TuRelation) in E.
  - apply (f_equal TuUser) in E. apply user_userset in E as [y ->]. split; [|done].
    intros x. unfold ObjectTenant. rewrite cut_typed by done. by rewrite !bool_decide_eq_false_2.
  - pose proof (f_equal TuUser E) as Eu. pose proof (f_equal TuObject E) as Eo. simpl in Eu, Eo.
    apply str_app_inj_r in Eu as ->. apply RoleObject_inj in Eo as [<- _]; [|done..]. split; [|done].
    intros x. rewrite ObjectTenant_group by done. by intros [=].
Qed.

Lemma agree_assignee st ts0 ts ts' tid uid slug : Mirror st ts0 → ValidTenantID tid = true →
  agree tid ts0 ts → agree tid ts0 ts' →
  holds ts (UserObject uid) "assignee" (RoleObject tid slug) → holds ts' (UserObject uid) "assignee" (RoleObject tid slug).
Proof using Type.
  intros HM Hv A A' Hh.
  assert (Hrole : ∀ x, ObjectTenant (RoleObject tid slug) = Ok x → x = tid) by (intros x; rewrite ObjectTenant_role by done; by intros [=]).
  inversion Hh as [? ? Hd| | |g o Hk Hg|]; subst.
  - apply holds_direct. exact (agree_in _ _ _ _ (mkTuple _ _ _) A A' Hrole Hd).
  - eapply holds_assignee; [exact (agree_in _ _ _ _ (mkTuple _ _ _) A A' Hrole Hk)|].
    destruct (userset_of_tenant st ts0 tid slug g) as [Ho Hc]; [done..|by apply A|]. exact (agree_member ts0 ts ts' tid _ g A A' Ho Hc Hg).
Qed.

Lemma agree_can st ts0 ts ts' tid uid p : RoleInv st → Mirror st ts0 → ValidTenantID tid = true → wf_ref p = true →
  agree tid ts0 ts → agree tid ts0 ts' → can tid uid ts p → can tid uid ts' p.
Proof using Type.
  intros HI HM Hv Hw A A'. unfold can, holdsT, granted_tuple. simpl. intros Hh.
  assert (Hperm : ∀ x, ObjectTenant (PermissionObject tid p) = Ok x → x = tid) by (intros x; rewrite ObjectTenant_permission by done; by intros [=]).
  inversion Hh as [? ? Hd| | | |role o Hk Hg]; subst;
    [apply holds_direct; exact (agree_in _ _ _ _ (mkTuple _ _ _) A A' Hperm Hd)|].
  eapply holds_granted; [exact (agree_in _ _ _ _ (mkTuple _ _ _) A A' Hperm Hk)|]. apply A in Hk; [|done]. apply HM in Hk; [|done].
  apply mirrored_cases in Hk as [(? & ? & ? & ? & ? & ? & ? & E)|[(? & ? & ? & ? & ? & ? & ? & ? & ? & E)|[(? & ? & ? & ? & ? & ? & ? & E)|(t & id & r & q & Hv' & Hr & Hq & E)]]];
    try by apply (f_equal TuRelation) in E.
  pose proof (f_equal TuUser E) as Eu. pose proof (f_equal TuObject E) as Eo.
  apply str_app_inj_r in Eu as ->. apply RefObject_inj in Eo as [<- <-]; eauto using ri_perm. exact (agree_assignee st ts0 ts ts' _ uid _ HM Hv A A' Hg).
Qed.

(** A call of somebody else's: a service call in another tenant, or any other
    successful write to the tuple store under the name of another tenant. *)
Definition foreign_call tid w w' : Prop := ∃ ctx t, t ≠ tid ∧
  (service ctx t w w' ∨ ∃ adds removes, Write ctx t adds removes w = (Ok tt, w')).

Lemma foreign_agree tid w w' : rtc (foreign_call tid) w w' → agree tid (tuplesW w) (tuplesW w').
Proof using Type.
  induction 1 as [x|x y z (ctx & t & Hne & Hc) _ IH]; [done|]. intros q Hq. rewrite (IH q Hq).
  assert (Hcf : confined t x y) by (destruct Hc as [Hs|(adds & removes & E)]; [by eapply service_confined|by eapply stays_Write]).
  apply Hcf. intros Ht. by apply Hne, Hq.
Qed.

(** C36. Tenants are isolated: from a state in which rows and tuples agree,
    whatever successful calls the other tenants make, of the role, assignment
    and group services or of the tuple client itself with tuples of their
    choice, no permission check of this tenant changes its answer. *)
Theorem tenants_isolated w w' tid uid p :
  Good w → rtc (foreign_call tid) w w' → ValidTenantID tid = true → wf_ref p = true →
  (can tid uid (tuplesW w') p ↔ can tid uid (tuplesW w) p) ∧
  check check_depth (tuplesW w') (granted_tuple tid uid p) = check check_depth (tuplesW w) (granted_tuple tid uid p).
Proof using All.
  intros [HI HM _] Hr Hv Hw. pose proof (foreign_agree _ _ _ Hr) as A.
  assert (Hiff : can tid uid (tuplesW w') p ↔ can tid uid (tuplesW w) p).
  { split; by eapply agree_can. }
  split; [done|]. apply eq_true_iff_eq. by rewrite !check_iff.
Qed.
End Groups.
