(* ===== verification/ModuleSafety.v ===== *)
(** * What a module registration may change

    Registrations run as the system: nothing but their own code confines
    them. *)
From S2P Require Import Prelude GoStrings Regex PermRef TenantCtx Models Cache AuditEvents Session MemStore SessionSafety.
From S2P Require Import Fga MemRoles AuthzClient AuthzServices MemModules Modules PermVerify AuthzFacts Mirror AuthzSafety.
#[local] Open Scope list_scope.
#[local] Open Scope go_scope.
#[local] Set Default Proof Using "Type".

Section ModuleSafety.
Context {B K : Type} `{BackendLaws B} `{KVLaws K}.
Context (newID : nat → string) `{!Inj (=) (=) newID}.
Notation W := (AZ B K).
Notation Good := (Good newID).
Implicit Types (w : W) (st : Store) (tid uid gid slug module : string).

(** ** The relation between before and after *)
(** Assignments, members and groups stay; role rows of the tenants [T] may
    change or be added, always with their slug; a role gains only references
    that satisfy [P]. *)
Record stepped (T : string → Prop) (P : Ref → Prop) w w' : Prop := mkStepped {
  sp_good : Good w';
  sp_rest : az_st w' = set_Permissions (set_RolePerms (set_RoleRows (az_st w) (RoleRows (az_st w'))) (RolePerms (az_st w'))) (Permissions (az_st w'));
  sp_rows : ∀ id r, RoleRows (az_st w) !! id = Some r → ∃ r', RoleRows (az_st w') !! id = Some r' ∧
              RoSlug r' = RoSlug r ∧ RoTenantID r' = RoTenantID r ∧
              (T (RoTenantID r) ∨ r' = r ∧ role_perms (az_st w') id = role_perms (az_st w) id);
  sp_new : ∀ id r', RoleRows (az_st w') !! id = Some r' → is_Some (RoleRows (az_st w) !! id) ∨ T (RoTenantID r') ∧ ∀ t u, ¬ holds_role (az_st w) t u id;
  sp_perms : ∀ id p, p ∈ role_perms (az_st w') id → p ∈ role_perms (az_st w) id ∨ P p;
}.

Lemma stepped_same T P w w' : Good w → same w w' → stepped T P w w'.
Proof.
  intros HG Hs. destruct (Hs) as [E _ _ _]. split; rewrite ?E; [by eapply Good_same|by destruct (az_st w)|eauto 10|eauto|auto].
Qed.
Lemma holds_rest st st' t u id :
  st' = set_Permissions (set_RolePerms (set_RoleRows st (RoleRows st')) (RolePerms st')) (Permissions st') →
  holds_role st' t u id ↔ holds_role st t u id.
Proof. intros ->. done. Qed.
Lemma stepped_trans T P w1 w2 w3 : stepped T P w1 w2 → stepped T P w2 w3 → stepped T P w1 w3.
Proof.
  intros [G1 R1 A1 N1 P1] [G2 R2 A2 N2 P2]. split.
  - done.
  - rewrite R2, R1. done.
  - intros id r Hr. destruct (A1 id r Hr) as (r2 & X2 & S2 & T2 & F2). destruct (A2 id r2 X2) as (r3 & X3 & S3 & T3 & F3).
    exists r3. split; [done|]. split; [congruence|]. split; [congruence|]. destruct F2 as [?|[-> Ep]]; [by left|]. destruct F3 as [?|[-> Ep']]; [by left|].
    right. split; [done|congruence].
  - intros id r3 X3. destruct (N2 id r3 X3) as [[r2 X2]|[Ht Hh]].
    + destruct (N1 id r2 X2) as [?|[Ht Hh]]; [by left|]. right. split; [|done]. destruct (A2 id r2 X2) as (r' & E & _ & E' & _). congruence.
    + right. split; [done|]. intros t u. rewrite <- (holds_rest (az_st w1) (az_st w2)) by done. apply Hh.
  - intros id p Hp. destruct (P2 id p Hp) as [Hp'|?]; [|by right]. by apply P1.
Qed.
Lemma stepped_weaken (T T' : string → Prop) (P P' : Ref → Prop) w w' :
  (∀ t, T t → T' t) → (∀ p, P p → P' p) → stepped T P w w' → stepped T' P' w w'.
Proof.
  intros HT HP [G R A N Q]. split; [done|done| | |].
  - intros id r Hr. destruct (A id r Hr) as (r' & ? & ? & ? & F). exists r'. split_and!; [done..|]. destruct F as [?|?]; [left; by apply HT|by right].
  - intros id r' Hr. destruct (N id r' Hr) as [?|[? ?]]; [by left|right]. split; [by apply HT|done].
  - intros id p Hp. destruct (Q id p Hp); [by left|right; by apply HP].
Qed.

(** ** Operations that keep it; [I] is what is known of the state *)
Definition keeps (I : W → Prop) T P {A} (m : M W A) : Prop := ∀ w a w', I w → Good w → m w = (Ok a, w') → stepped T P w w'.
Definition lasting T P (I : W → Prop) : Prop := ∀ w w', I w → stepped T P w w' → I w'.
(** The role is a row of the tenant, with this slug. *)
Definition knows tid (ro : Role) w : Prop := slug_in (az_st w) tid (RoID ro) = Some (RoSlug ro).
Lemma knows_lasting T P tid ro : lasting T P (knows tid ro).
Proof.
  intros w w' Hk [_ _ A _ _]. unfold knows in *. apply slug_in_Some in Hk as (r & [Hr Ht]%role_in_Some & Hs). apply slug_in_Some.
  destruct (A _ _ Hr) as (r' & Hr' & S' & T' & _). exists r'. split; [|congruence]. apply role_in_Some. split; [done|congruence].
Qed.
Lemma knows_all_lasting T P tid l : lasting T P (λ w, Forall (λ ro, knows tid ro w) l).
Proof. intros w w' Hk Hs. eapply Forall_impl; [exact Hk|]. intros ro Hro. exact (knows_lasting T P tid ro w w' Hro Hs). Qed.

Lemma keeps_bind I T P {A C} (m : M W A) (f : A → M W C) :
  lasting T P I → keeps I T P m → (∀ a, keeps I T P (f a)) → keeps I T P (bind m f).
Proof.
  intros HI Hm Hf w c w' Hw HG E. apply bind_ok_inv in E as (a & w1 & E1 & E2).
  pose proof (Hm _ _ _ Hw HG E1) as S1. eapply stepped_trans; [exact S1|]. eapply Hf; [|apply S1|exact E2]. by eapply HI.
Qed.
Lemma keeps_read I T P {A C} (m : M Store A) (f : A → M W C) (R : A → W → Prop) :
  reads m → (∀ w a, I w → Good w → (m (az_st w)).1 = Ok a → R a w) → (∀ a, keeps (λ w, I w ∧ R a w) T P (f a)) → keeps I T P (bind (stM m) f).
Proof.
  intros Hr HR Hf w c w' Hw HG E. apply bind_ok_inv in E as (a & w1 & E1 & E2). apply stM_read in E1 as [-> E1]; [|done].
  eapply Hf; [|exact HG|exact E2]. split; [done|]. by apply HR.
Qed.
Lemma keeps_weaken (I I' : W → Prop) T P {A} (m : M W A) : (∀ w, I' w → I w) → keeps I T P m → keeps I' T P m.
Proof. intros HI Hm w a w' Hw HG E. eapply Hm; eauto. Qed.
Lemma keeps_same I T P {A} (m : M W A) : (∀ w a w', m w = (Ok a, w') → same w w') → keeps I T P m.
Proof. intros Hs w a w' _ HG E. apply stepped_same; eauto. Qed.
Lemma keeps_ret I T P {A} (a : A) : keeps I T P (ret a).
Proof. apply keeps_same. by intros w x w' [= _ <-]. Qed.
Lemma keeps_throw I T P {A} e : keeps I T P (throw (A := A) e).
Proof. by intros w a w' _ _ [=]. Qed.
Lemma keeps_emit I T P e : keeps I T P (emitE e).
Proof. apply keeps_same. intros w x w' [= _ <-]. done. Qed.
Lemma keeps_for_each I T P {A} (l : list A) (f : A → M W unit) :
  lasting T P I → (∀ x, x ∈ l → keeps I T P (f x)) → keeps I T P (for_each l f).
Proof.
  intros HI. induction l as [|x l IH]; intros Hf; [apply keeps_ret|]. cbn [for_each].
  apply keeps_bind; [done|apply Hf; by left|]. intros _. apply IH. intros y Hy. apply Hf. by right.
Qed.
Lemma keeps_fold_each I T P {A C} (l : list A) (f : C → A → M W C) :
  lasting T P I → (∀ c x, x ∈ l → keeps I T P (f c x)) → ∀ c, keeps I T P (fold_each l c f).
Proof.
  intros HI. induction l as [|x l IH]; intros Hf c; [apply keeps_ret|]. cbn [fold_each].
  apply keeps_bind; [done|apply Hf; by left|]. intros d. apply IH. intros e y Hy. apply Hf. by right.
Qed.

Ltac keeps_if := match goal with |- keeps _ _ _ (if ?b then _ else _) => destruct b eqn:? end.

(** ** Single steps *)
Lemma setGrants_steps (T : string → Prop) (P : Ref → Prop) ctx tid ro want w r w' :
  T tid → Good w → ValidTenantID tid = true → knows tid ro w → (∀ p, p ∈ want → wf_ref p = true) →
  (∀ p, p ∈ want → p ∈ role_perms (az_st w) (RoID ro) ∨ P p) → setGrants ctx tid ro want w = (Ok r, w') → stepped T P w w'.
Proof.
  intros HT HG Hv Hk Hwf Hp E. destruct (setGrants_ok newID ctx tid ro want w r w' HG Hv Hk Hwf E) as (HG' & _ & Est & Hset & Hoth).
  assert (ER : RoleRows (az_st w') = RoleRows (az_st w)) by (by rewrite Est). split.
  - done.
  - rewrite Est. by destruct (az_st w).
  - intros id x Hx. exists x. rewrite ER. split_and!; [done..|]. destruct (decide (id = RoID ro)) as [->|Hne]; [left|right; split; [done|by apply Hoth]].
    apply slug_in_Some in Hk as (y & [Hy Hyt]%role_in_Some & _). assert (x = y) as -> by congruence. by rewrite Hyt.
  - intros id x Hx. rewrite ER in Hx. left. eauto.
  - intros id p Hin. destruct (decide (id = RoID ro)) as [->|Hne]; [apply Hp; by apply Hset|left; by rewrite <- (Hoth id Hne)].
Qed.
Lemma addGrants_keeps (I : W → Prop) (T : string → Prop) (P : Ref → Prop) ctx tid ro perms :
  T tid → ValidTenantID tid = true → (∀ w, I w → knows tid ro w) → (∀ p, p ∈ perms → wf_ref p = true ∧ P p) →
  keeps I T P (addGrants ctx tid ro perms).
Proof.
  intros HT Hv Hk Hp w a w' Hw HG E. unfold addGrants in E. apply bind_ok_inv in E as (cur & w1 & E1 & E).
  apply RolePermissions_ok in E1 as (-> & -> & _). apply bind_ok_inv in E as (x & w2 & E2 & E). injection E as _ <-.
  eapply setGrants_steps; [done|done|exact Hv|by apply Hk| | |exact E2]; intros p [Hin|Hin]%elem_of_app.
  - by apply (ri_perm _ (good_inv _ _ HG) (RoID ro)).
  - by apply Hp.
  - by left.
  - right. by apply Hp.
Qed.

Lemma mirrored_perms st X t : mirrored (set_Permissions st X) t ↔ mirrored st t.
Proof. split; destruct 1; by econstructor. Qed.
Lemma elem_of_upsert l p x : x ∈ upsert_perm l p → PermissionRefOf x = PermissionRefOf p ∨ x ∈ l.
Proof.
  induction l as [|y l IH]; cbn [upsert_perm]; [intros ->%list_elem_of_singleton; by left|].
  case_bool_decide as E; intros [->|Hx]%elem_of_cons; [left; by rewrite <- E|right; by right|right; by left|].
  destruct (IH Hx); [by left|right; by right].
Qed.
Lemma upsert_keeps I T P tid p : wf_ref (PermissionRefOf p) = true → keeps I T P (stM (UpsertPermission tid p)).
Proof.
  intros Hp w a w' _ [[I1 I2 I3 I4] HM HF] E. apply stM_inv in E as (s & [= _ <-] & ->).
  split; cbn [az_st with_st]; [split| | | |]; cbn [az_st with_st].
  - split; try done. cbn. intros t x. destruct (decide (t = tid)) as [->|Hne]; [rewrite lookup_insert_eq|rewrite lookup_insert_ne by done; apply I4].
    cbn. intros [->|Hx]%elem_of_upsert; [done|by eapply I4].
  - intros t Ha. rewrite mirrored_perms. by apply HM.
  - intros n Hn. destruct (HF n Hn). by split.
  - by destruct (az_st w).
  - intros id r Hr. eauto 10.
  - intros id r Hr. left. eauto.
  - intros id q Hq. by left.
Qed.
Lemma write_noise_keeps I T P ctx tid adds : (∀ t, t ∈ adds → access t = false) → keeps I T P (Write ctx tid adds []).
Proof.
  intros Hn w a w' _ HG E. apply Write_ok in E as (S1 & _ & S3 & S4 & _). destruct HG as [HI HM HF].
  assert (HG' : Good w').
  { split; rewrite ?S1, ?S3; [done| |done]. rewrite S4. cbn [list_to_set]. rewrite difference_empty_L.
    apply Mirror_noise; [|done]. intros t. rewrite elem_of_list_to_set. apply Hn. }
  split; rewrite ?S1; [done|by destruct (az_st w)|eauto 10|eauto|auto].
Qed.
Lemma require_keeps I T P ctx tid : keeps I T P (requireM ctx tid).
Proof. apply keeps_same. intros w a w' [-> _]%requireM_ok. done. Qed.

(** ** Registry.Register *)
Lemma RegisterPermissions_keeps I T P ctx tid module registrant defs :
  lasting T P I → keeps I T P (RegisterPermissions ctx tid module registrant defs).
Proof.
  intros HI. unfold RegisterPermissions. apply keeps_bind; [done|apply require_keeps|]. intros _.
  destruct (_ && _) eqn:Em; [apply keeps_throw|]. destruct (forallb _ defs) eqn:Ed; [|apply keeps_throw]. cbn [negb].
  apply (keeps_read _ _ _ _ _ (λ _ _, True)); [apply reads_intro|done|]. intros existing. cbv zeta.
  assert (HI' : lasting T P (λ w, I w ∧ True)) by (intros w w' [Hw _] Hs; split; [by eapply HI|done]).
  apply keeps_bind; [done| |intros _; apply keeps_bind; [done| |intros _; apply keeps_bind; [done| |intros _; apply keeps_ret]]].
  - keeps_if; [apply keeps_ret|]. apply write_noise_keeps. intros t (r & -> & _)%list_elem_of_fmap. done.
  - apply keeps_fold_each; [done|]. intros known d Hd. unfold put_permission. cbv zeta. keeps_if; [apply keeps_ret|].
    apply keeps_bind; [done| |intros _; apply keeps_ret]. apply upsert_keeps. rewrite forallb_forall in Ed.
    apply list_elem_of_In, Ed, andb_true_iff in Hd as [[V1 V2]%andb_true_iff _]. unfold wf_ref, PermissionRefOf, IsLegacy. cbn [PModule PResource PAction RModule RResource RAction].
    rewrite V1, V2, !andb_true_r. apply andb_false_iff in Em as [Em|Em]; apply negb_false_iff in Em; by rewrite Em, ?orb_true_r.
  - keeps_if; [apply keeps_ret|apply keeps_emit].
Qed.

(** ** Rows of a tenant *)
Lemma elem_of_ListRoles st tid l r : RoleInv st → (ListRoles tid st).1 = Ok l → r ∈ l ↔ role_in st tid (RoID r) = Some r.
Proof.
  intros HI [= <-]. rewrite sorting.merge_sort_Permutation, list_elem_of_filter, elem_of_values, role_in_Some.
  split; [|intros [? ?]; eauto]. intros [Ht [id Hid]]. split; [|done]. by rewrite (ri_key _ HI _ _ Hid).
Qed.
Lemma NoDup_ListRoles st tid l : RoleInv st → (ListRoles tid st).1 = Ok l → NoDup (RoID <$> l).
Proof.
  intros HI [= <-]. rewrite sorting.merge_sort_Permutation.
  assert (N : NoDup (RoID <$> values (RoleRows st))).
  { unfold values. rewrite <- list_fmap_compose. assert ((RoID ∘ snd) <$> map_to_list (RoleRows st) = (map_to_list (RoleRows st)).*1) as ->.
    { apply list_fmap_ext. intros i [id x] Hx. cbn. apply list_elem_of_lookup_2, elem_of_map_to_list in Hx. by apply (ri_key _ HI). }
    apply NoDup_fst_map_to_list. }
  induction (values (RoleRows st)) as [|x xs IH]; [constructor|]. rewrite fmap_cons, NoDup_cons in N. destruct N as [Hx N].
  rewrite filter_cons. case_decide; [|by apply IH]. rewrite fmap_cons, NoDup_cons. split; [|by apply IH].
  intros (y & E & Hy%list_elem_of_filter)%list_elem_of_fmap. apply Hx. rewrite E. apply list_elem_of_fmap. exists y. by split; [|apply Hy].
Qed.
Lemma known_rows tid l w : Good w → (ListRoles tid (az_st w)).1 = Ok l → Forall (λ ro, knows tid ro w) l.
Proof.
  intros HG E. apply Forall_forall. intros r Hr. apply (elem_of_ListRoles _ _ _ _ (good_inv _ _ HG) E) in Hr. unfold knows.
  apply slug_in_Some. eauto.
Qed.
Lemma wf_catalogue tid l p w : Good w → (ListPermissions tid (az_st w)).1 = Ok l → p ∈ l → wf_ref (PermissionRefOf p) = true.
Proof. intros HG [= <-]. rewrite sorting.merge_sort_Permutation. apply (ri_catalogue _ (good_inv _ _ HG)). Qed.

(** ** The migration of legacy grants *)
Definition scoped_refs (module : string) (l : list Permission) : list Ref := PermissionRefOf <$> filter (λ p, PModule p = module) l.
Lemma elem_of_scoped_form module scoped grants p :
  p ∈ scoped_form module scoped grants ↔ ∃ g, g ∈ grants ∧ IsLegacy g = true ∧ p = WithModule g module ∧ p ∈ scoped.
Proof. unfold scoped_form. rewrite list_elem_of_fmap. setoid_rewrite list_elem_of_filter. naive_solver. Qed.
Lemma scoped_form_own module scoped grants p : (∀ q, q ∈ scoped → wf_ref q = true) → p ∈ scoped_form module scoped grants →
  wf_ref p = true ∧ RModule p = module.
Proof. intros Hs (g & _ & _ & -> & Hp)%elem_of_scoped_form. split; [by apply Hs|done]. Qed.

Lemma migrate_role_keeps (I : W → Prop) (T : string → Prop) (P : Ref → Prop) ctx tid module scoped ro :
  T tid → ValidTenantID tid = true → lasting T P I → (∀ w, I w → knows tid ro w) → (∀ q, q ∈ scoped → wf_ref q = true) →
  (∀ p, RModule p = module → P p) → keeps I T P (migrate_role ctx tid module scoped ro).
Proof.
  intros HT Hv HI Hk Hs HP. unfold migrate_role. apply (keeps_read _ _ _ _ _ (λ _ _, True)); [apply reads_RolePermissions|done|]. intros grants. cbv zeta.
  assert (HI' : lasting T P (λ w, I w ∧ True)) by (intros w w' [Hw _] Hst; split; [by eapply HI|done]).
  keeps_if; [apply keeps_ret|]. apply keeps_bind; [done| |].
  - apply addGrants_keeps; [done|done|intros w [Hw _]; by apply Hk|]. intros p [Hw Hm]%scoped_form_own; [|done]. split; [done|by apply HP].
  - intros n. keeps_if; [apply keeps_ret|apply keeps_emit].
Qed.
Lemma migrate_rows_keeps (T : string → Prop) (P : Ref → Prop) ctx tid module :
  T tid → ValidTenantID tid = true → (∀ p, RModule p = module → P p) → keeps (λ _, True) T P (migrate_rows ctx tid module).
Proof.
  intros HT Hv HP w a w' _ HG E. unfold migrate_rows in E. apply bind_ok_inv in E as (cat & w1 & E1 & E).
  apply stM_read in E1 as [-> E1]; [|apply reads_intro]. apply bind_ok_inv in E as (roles & w1 & E2 & E).
  apply stM_read in E2 as [-> E2]; [|apply reads_intro].
  refine (keeps_for_each (λ w, Forall (λ ro, knows tid ro w) roles) T P roles _ _ _ w a w' _ HG E).
  - apply knows_all_lasting.
  - intros ro Hro. apply migrate_role_keeps; [done|done|apply knows_all_lasting| | |done].
    + intros w0 Hw. rewrite Forall_forall in Hw. by apply Hw.
    + intros q (p & -> & [_ Hp]%list_elem_of_filter)%list_elem_of_fmap. by eapply wf_catalogue.
  - by apply known_rows.
Qed.

(** Only the grants of [ids] differ. *)
Definition only_grants (ids : list string) st st' : Prop :=
  st' = set_RolePerms st (RolePerms st') ∧ ∀ id, id ∉ ids → role_perms st' id = role_perms st id.
Lemma only_grants_refl ids st : only_grants ids st st.
Proof. split; [by destruct st|done]. Qed.
Lemma only_grants_trans ids1 ids2 st1 st2 st3 : only_grants ids1 st1 st2 → only_grants ids2 st2 st3 → only_grants (ids1 ++ ids2) st1 st3.
Proof.
  clear Inj0. intros [E1 N1] [E2 N2]. split; [by rewrite E2, E1|]. intros id Hid. apply not_elem_of_app in Hid as [? ?]. rewrite N2, N1; done.
Qed.
Lemma addGrants_exact ctx tid ro perms w n w' :
  Good w → ValidTenantID tid = true → knows tid ro w → (∀ p, p ∈ perms → wf_ref p = true) → addGrants ctx tid ro perms w = (Ok n, w') →
  Good w' ∧ only_grants [RoID ro] (az_st w) (az_st w') ∧
  ∀ p, p ∈ role_perms (az_st w') (RoID ro) ↔ p ∈ role_perms (az_st w) (RoID ro) ∨ p ∈ perms.
Proof.
  intros HG Hv Hk Hp E. unfold addGrants in E. apply bind_ok_inv in E as (cur & w1 & E1 & E).
  apply RolePermissions_ok in E1 as (-> & -> & _). apply bind_ok_inv in E as (x & w2 & E2 & E). injection E as _ <-.
  apply setGrants_ok with (newID := newID) in E2 as (HG' & _ & Est & Hset & Hoth); [|done|done|done|].
  - split; [done|]. split; [split; [done|]|].
    + intros id Hid. apply Hoth. intros ->. apply Hid. by left.
    + intros p. by rewrite Hset, elem_of_app.
  - intros p [Hin|Hin]%elem_of_app; [by apply (ri_perm _ (good_inv _ _ HG) (RoID ro))|by apply Hp].
Qed.
Definition migrated module scoped (old new : list Ref) : Prop := ∀ p, p ∈ new ↔ p ∈ old ∨ p ∈ scoped_form module scoped old.
Lemma migrate_role_exact ctx tid module scoped ro w u w' :
  Good w → ValidTenantID tid = true → knows tid ro w → (∀ q, q ∈ scoped → wf_ref q = true) →
  migrate_role ctx tid module scoped ro w = (Ok u, w') →
  Good w' ∧ only_grants [RoID ro] (az_st w) (az_st w') ∧
  migrated module scoped (role_perms (az_st w) (RoID ro)) (role_perms (az_st w') (RoID ro)).
Proof.
  clear Inj0. intros HG Hv Hk Hs E. unfold migrate_role in E. apply bind_ok_inv in E as (grants & w1 & E1 & E).
  apply RolePermissions_ok in E1 as (-> & -> & _). cbv zeta in E. set (add := scoped_form _ _ _) in E.
  destruct (bool_decide (add = [])) eqn:Ea.
  { bool_prop. injection E as _ <-. split; [done|]. split; [apply only_grants_refl|]. intros p. fold add. rewrite Ea. set_solver. }
  apply bind_ok_inv in E as (n & w2 & E2 & E). apply addGrants_exact in E2 as (HG2 & Ho & Hx); [|done|done|done|].
  - assert (Hst : az_st w' = az_st w2 ∧ Good w').
    { destruct (bool_decide (tid = "")); [by injection E as _ <-|]. unfold emitE, modify in E. injection E as _ <-. split; [done|]. eapply Good_same; [|exact HG2]; done. }
    destruct Hst as [-> HG']. split; [done|]. split; [done|exact Hx].
  - intros p Hp. by eapply scoped_form_own.
Qed.
Lemma migrate_roles_exact ctx tid module scoped roles : ∀ w u w',
  Good w → ValidTenantID tid = true → Forall (λ ro, knows tid ro w) roles → (∀ q, q ∈ scoped → wf_ref q = true) → NoDup (RoID <$> roles) →
  for_each roles (migrate_role ctx tid module scoped) w = (Ok u, w') →
  only_grants (RoID <$> roles) (az_st w) (az_st w') ∧
  ∀ ro, ro ∈ roles → migrated module scoped (role_perms (az_st w) (RoID ro)) (role_perms (az_st w') (RoID ro)).
Proof.
  clear Inj0. induction roles as [|ro roles IH]; intros w u w' HG Hv Hk Hs Hn E; cbn [for_each] in E.
  { injection E as _ <-. split; [apply only_grants_refl|]. intros ro Hro. by apply elem_of_nil in Hro. }
  apply bind_ok_inv in E as (u1 & w1 & E1 & E2). apply Forall_cons in Hk as [Hk Hks]. rewrite fmap_cons, NoDup_cons in Hn. destruct Hn as [Hnot Hn].
  apply migrate_role_exact in E1 as (HG1 & [O1 O2] & M1); [|done..].
  assert (Hks1 : Forall (λ r, knows tid r w1) roles) by (eapply Forall_impl; [exact Hks|]; intros r Hr; unfold knows in *; by rewrite O1).
  destruct (IH w1 u w' HG1 Hv Hks1 Hs Hn E2) as [[O3 O4] M2]. split.
  - rewrite fmap_cons. change (RoID ro :: (RoID <$> roles)) with ([RoID ro] ++ (RoID <$> roles)).
    eapply only_grants_trans; split; [exact O1|exact O2|exact O3|exact O4].
  - intros r [->|Hr]%elem_of_cons.
    + intros p. rewrite O4 by done. apply M1.
    + assert (Hne : RoID r ∉ [RoID ro]).
      { intros Er%list_elem_of_singleton. apply Hnot. apply list_elem_of_fmap. by exists r. }
      rewrite <- (O2 _ Hne). by apply M2.
Qed.

(** ** Calls over the catalogue *)
Notation MWD := (MW B K).
Lemma azL_ok {A} (m : M W A) (x : MWD) a x' : azL m x = (Ok a, x') → ∃ w', m (mw_az x) = (Ok a, w') ∧ x' = mkMW w' (mw_cat x).
Proof. unfold azL. destruct (m (mw_az x)) as [r w']. intros [= -> <-]. eauto. Qed.
Lemma catM_ok {A} (f : Z → M moduleState A) (x : MWD) a x' :
  catM f x = (Ok a, x') → ∃ c, f (az_now (mw_az x)) (mw_cat x) = (Ok a, c) ∧ x' = mkMW (mw_az x) c.
Proof. unfold catM. destruct (f _ _) as [r c]. intros [= -> <-]. eauto. Qed.

Definition legacy_migrated (c : moduleState) tid module : bool :=
  match ms_tenants c !! map_key tid module with Some t => if TmLegacyMigratedAt t then true else false | None => false end.

Lemma has_perm_grants st st' ids tid uid p :
  only_grants ids st st' → (∀ id, p ∈ role_perms st id → p ∈ role_perms st' id) → has_perm st tid uid p → has_perm st' tid uid p.
Proof.
  clear Inj0. intros [E _] Hp (id & r & Hr & Hin & Hh). exists id, r. split; [|split; [by apply Hp|]].
  - assert (role_in st' tid id = role_in st tid id) as -> by (by rewrite E). exact Hr.
  - rewrite E. exact Hh.
Qed.

(** The migration of legacy grants preserves access: the first registration of
    a module in a tenant gives every role exactly the module-scoped forms of
    the legacy permissions it holds and the module registered, takes nothing
    from any role or user, and is never repeated. *)
Theorem migration_exact ctx tid module (x x' : MWD) :
  Good (mw_az x) → ValidTenantID tid = true → migrate ctx tid module x = (Ok tt, x') →
  let st := az_st (mw_az x) in let st' := az_st (mw_az x') in
  legacy_migrated (mw_cat x') tid module = true ∧
  (legacy_migrated (mw_cat x) tid module = true → mw_az x' = mw_az x) ∧
  (legacy_migrated (mw_cat x) tid module = false →
     (∀ id r, role_in st tid id = Some r → ∀ p, p ∈ role_perms st' id ↔
        p ∈ role_perms st id ∨
        ∃ g row, g ∈ role_perms st id ∧ IsLegacy g = true ∧ p = WithModule g module ∧
                 row ∈ default [] (Permissions st !! tid) ∧ PermissionRefOf row = p) ∧
     (∀ uid p, has_perm st tid uid p → has_perm st' tid uid p)).
Proof.
  clear Inj0. intros HG Hv E st st'. unfold migrate in E. apply bind_ok_inv in E as (u & x1 & E1 & E). apply catM_ok in E1 as (c1 & E1 & ->).
  unfold EnsureTenantModule, modify in E1. injection E1 as _ <-. apply bind_ok_inv in E as (tm & x2 & E2 & E). apply catM_ok in E2 as (c2 & E2 & ->).
  cbn [mw_cat mw_az] in E2, E. unfold TenantModuleRow in E2. set (c := if bool_decide _ then _ else _) in E2.
  destruct (ms_tenants c !! map_key tid module) as [t|] eqn:Et; [|done]. injection E2 as -> <-.
  assert (Hm : legacy_migrated (mw_cat x) tid module = if TmLegacyMigratedAt tm then true else false).
  { unfold legacy_migrated, c in *. destruct (ms_tenants (mw_cat x) !! _) as [t0|] eqn:E0.
    - rewrite bool_decide_eq_true_2 in Et by (by eexists). assert (t0 = tm) as -> by congruence. done.
    - rewrite bool_decide_eq_false_2 in Et by (by intros [? ?]). cbn in Et. rewrite lookup_insert_eq in Et. by injection Et as <-. }
  rewrite Hm. clear Hm. destruct (TmLegacyMigratedAt tm) eqn:El.
  { injection E as <-. cbn [mw_cat mw_az]. split; [|by split]. unfold legacy_migrated. by rewrite Et, El. }
  apply bind_ok_inv in E as ([] & x3 & E3 & E). apply azL_ok in E3 as (w3 & E3 & ->). apply catM_ok in E as (c4 & E4 & ->). cbn [mw_cat mw_az] in *.
  unfold MarkLegacyMigrated in E4. rewrite Et in E4. injection E4 as <-. split; [|split; [done|intros _]].
  { unfold legacy_migrated. cbn. by rewrite lookup_insert_eq. }
  unfold migrate_rows in E3. apply bind_ok_inv in E3 as (cat & w1 & F1 & F). apply stM_read in F1 as [-> F1]; [|apply reads_intro].
  apply bind_ok_inv in F as (roles & w1 & F2 & F). apply stM_read in F2 as [-> F2]; [|apply reads_intro].
  apply migrate_roles_exact in F as [Ho Hx]; [|done|done|by apply known_rows| |by eapply NoDup_ListRoles; [apply HG|]]; cycle 1.
  { intros q (p & -> & [_ Hp]%list_elem_of_filter)%list_elem_of_fmap. by eapply wf_catalogue. }
  assert (HX : ∀ id r, role_in st tid id = Some r → migrated module (scoped_refs module cat) (role_perms st id) (role_perms st' id)).
  { intros id r Hr. pose proof (role_in_id _ _ _ _ (good_inv _ _ HG) Hr) as <-. apply Hx. by apply (elem_of_ListRoles st tid roles r (good_inv _ _ HG) F2). }
  split.
  - intros id r Hr p. rewrite (HX id r Hr p), elem_of_scoped_form. unfold scoped_refs. setoid_rewrite list_elem_of_fmap.
    setoid_rewrite list_elem_of_filter. injection F1 as <-. setoid_rewrite sorting.merge_sort_Permutation. split; (intros [?|Hp]; [by left|right]).
    + destruct Hp as (g & Hg & Hl & -> & row & Er & _ & Hrow). by exists g, row.
    + destruct Hp as (g & row & Hg & Hl & -> & Hrow & Er). exists g. split_and!; [done..|]. exists row. split_and!; [done| |done].
      by apply (f_equal RModule) in Er.
  - intros uid p. eapply has_perm_grants; [exact Ho|]. intros id Hp. destruct (role_in st tid id) as [r|] eqn:Er.
    + apply (HX id r Er p). by left.
    + destruct Ho as [_ Ho]. rewrite Ho; [done|]. intros (r & -> & Hr)%list_elem_of_fmap.
      apply (elem_of_ListRoles st tid roles r (good_inv _ _ HG) F2) in Hr. congruence.
Qed.

(** ** Copies of module roles *)
Lemma insert_steps (T : string → Prop) P r w n u w' :
  Good w → Fresh newID (az_st w) n → az_ids w = S n → RoID r = newID n → T (RoTenantID r) → stM (InsertRole r) w = (Ok u, w') →
  stepped T P w w' ∧ az_st w' = set_RoleRows (az_st w) (<[RoID r := r]> (RoleRows (az_st w))) ∧ RoleRows (az_st w) !! RoID r = None.
Proof using Inj0.
  intros HG HF Hn Hid HT E. apply InsertRole_ok in E as [-> Hnew].
  set (w0 := mkAZ (az_st w) (az_fga w) (az_cache w) (az_audit w) (az_refusals w) (az_now w) n).
  assert (HG0 : Good w0) by (split; [apply HG|apply HG|exact HF]).
  destruct (insert_role_Good newID r w0 HG0 Hid Hnew) as (J1 & J2 & J3 & J4 & J5). pose proof (un_role _ _ (HF n (le_n _))) as Hfresh. rewrite <- Hid in Hfresh.
  split; [|done]. split; cbn [az_st with_st].
  - split; [exact J1|exact J2|]. cbn. rewrite Hn. exact J3.
  - by destruct (az_st w).
  - intros id x Hx. exists x. cbn. rewrite lookup_insert_ne by (intros <-; congruence). split_and!; [done..|by right].
  - intros id x. cbn. intros [[<- <-]|[_ Hx]]%lookup_insert_Some; [right; split; [done|exact J5]|left; by eexists].
  - intros id p Hp. by left.
Qed.

(** Rows of the module slug [s] may have changed, in the tenants [T]. *)
Record sync_step (T : string → Prop) P (s : string) w w' : Prop := mkSync {
  sy_stepped : stepped T P w w';
  sy_rows : ∀ id r, RoModuleSlug r ≠ s → (RoleRows (az_st w') !! id = Some r ↔ RoleRows (az_st w) !! id = Some r);
  sy_grants : ∀ id r, RoModuleSlug r ≠ s → RoleRows (az_st w) !! id = Some r → role_perms (az_st w') id = role_perms (az_st w) id;
  sy_catalogue : Permissions (az_st w') = Permissions (az_st w);
}.
Lemma sync_same T P s w w' : stepped T P w w' → az_st w' = az_st w → sync_step T P s w w'.
Proof. intros Hs E. by split; rewrite ?E. Qed.
Lemma sync_trans T P s w1 w2 w3 : sync_step T P s w1 w2 → sync_step T P s w2 w3 → sync_step T P s w1 w3.
Proof.
  clear Inj0. intros [S1 R1 G1 C1] [S2 R2 G2 C2]. split; [by eapply stepped_trans| | |congruence].
  - intros id r Hr. by rewrite R2, R1.
  - intros id r Hr Hx. rewrite (G2 id r), (G1 id r); [done|done|done|done|by apply R1].
Qed.

Definition copy_kind module (s : string) (r : Role) : Prop := OriginOf r = OriginModule ∧ RoModule r = module ∧ RoModuleSlug r = s.
Definition copy_of module (d : ModuleRoleDef) (r : Role) : Prop :=
  copy_kind module (RdSlug d) r ∧ RoDisplayName r = RdDisplayName d ∧ RoDescription r = RdDescription d ∧
  (RoRetiredAt r = None ↔ RdRetiredAt d = None).

Lemma freshID_ok w id w' : freshID newID w = (Ok id, w') →
  id = newID (az_ids w) ∧ w' = mkAZ (az_st w) (az_fga w) (az_cache w) (az_audit w) (az_refusals w) (az_now w) (S (az_ids w)).
Proof. by intros [= <- <-]. Qed.
Lemma fresh_Good w : Good w → Good (mkAZ (az_st w) (az_fga w) (az_cache w) (az_audit w) (az_refusals w) (az_now w) (S (az_ids w))).
Proof. clear Inj0. intros [HI HM HF]. split; [done|done|]. cbn. eapply Fresh_mono; [|exact HF]. lia. Qed.
Lemma moduleRole_ok tid module slug w r w' : moduleRole tid module slug w = (Ok r, w') → ∃ id, RoleRows (az_st w) !! id = Some r ∧ RoTenantID r = tid ∧ copy_kind module slug r.
Proof.
  clear Inj0. intros E. unfold moduleRole in E. apply bind_ok_inv in E as (roles & w1 & E1 & E). apply stM_read in E1 as [-> E1]; [|apply reads_intro].
  destruct (find_first _ roles) as [x|] eqn:Ef; [|done]. injection E as -> <-. apply find_first_Some in Ef as [Hin Hk]. injection E1 as <-.
  rewrite sorting.merge_sort_Permutation, list_elem_of_filter, elem_of_values in Hin. destruct Hin as [Ht [id Hid]]. bool_prop. by exists id.
Qed.

Lemma create_copy_ok (T : string → Prop) P ctx tid module d w ro w' :
  Good w → T tid → RdRetiredAt d = None →
  (∀ id r, RoleRows (az_st w) !! id = Some r → RoTenantID r = tid → ¬ copy_kind module (RdSlug d) r) →
  create_copy newID ctx tid module d w = (Ok ro, w') →
  sync_step T P (RdSlug d) w w' ∧ role_in (az_st w') tid (RoID ro) = Some ro ∧ copy_of module d ro.
Proof using Inj0.
  intros HG HT Hd Hnone E. unfold create_copy in E. apply bind_ok_inv in E as (slug & w1 & E1 & E). injection E1 as E1 <-.
  apply bind_ok_inv in E as (id & w1 & E2 & E). apply freshID_ok in E2 as [-> ->]. pose proof (fresh_Good w HG) as HG1.
  apply bind_ok_inv in E as (u2 & w2 & E2 & E).
  assert (S2 : stepped T P w w2 ∧ az_st w2 = az_st w ∧ az_ids w2 = S (az_ids w)).
  { pose proof (Write_ok _ _ _ _ _ _ _ E2) as (R1 & _ & R3 & _). split; [|done].
    eapply (stepped_trans T P w); [|refine (write_noise_keeps (λ _, True) T P _ _ _ _ _ _ _ I HG1 E2)].
    - split; cbn; [exact HG1|by destruct (az_st w)|eauto 10|eauto|auto].
    - intros t ->%list_elem_of_singleton. done. }
  destruct S2 as (S2 & R2 & I2). apply bind_ok_inv in E as (x & w3 & E3 & E). unfold attempt in E3.
  set (r0 := mkRole _ _ _ _ _ _ _ _ _ _) in *. destruct (stM (InsertRole r0) w2) as [res w3'] eqn:Ei. injection E3 as <- <-.
  destruct res as [u|e].
  - injection E as <- <-. apply (insert_steps T P _ _ (az_ids w)) in Ei as (S3 & R3 & Hnew); [|apply S2|rewrite R2; apply HG|done|done|done].
    rewrite R2 in R3, Hnew. assert (Hin : role_in (az_st w3') tid (RoID r0) = Some r0) by (rewrite R3; by rewrite role_in_insert, !decide_True).
    split; [|split; [exact Hin|]]; [|by split_and!]. split; [by eapply stepped_trans| | |by rewrite R3].
    + intros i r Hr. rewrite R3. cbn [set_RoleRows RoleRows]. destruct (decide (i = RoID r0)) as [->|Hne]; [|by rewrite lookup_insert_ne].
      rewrite lookup_insert_eq, Hnew. split; [|done]. intros [= <-]. by destruct Hr.
    + intros i r _ _. by rewrite R3.
  - destruct (bool_decide (e = ErrConflict)); [|done]. exfalso. apply stM_inv in Ei as (s & Ei & ->). unfold InsertRole in Ei. destruct (existsb _ _); [|done].
    injection Ei as _ <-. apply moduleRole_ok in E as (id & Hid & Ht & Hk). cbn [az_st with_st] in Hid. rewrite R2 in Hid. by apply (Hnone id ro).
Qed.

Lemma update_copy_ok (T : string → Prop) P tid module d ro w u w' :
  Good w → T tid → role_in (az_st w) tid (RoID ro) = Some ro → copy_kind module (RdSlug d) ro →
  (if differs ro d then stM (UpdateModuleRole tid (RoID ro) (RdDisplayName d) (RdDescription d) (RdRetiredAt d)) else ret tt) w = (Ok u, w') →
  sync_step T P (RdSlug d) w w' ∧ ∃ r', role_in (az_st w') tid (RoID ro) = Some r' ∧ RoSlug r' = RoSlug ro ∧ copy_of module d r'.
Proof.
  clear Inj0. intros HG HT Hro Hk E. destruct (differs ro d) eqn:Ed; cycle 1.
  { injection E as _ <-. split; [by apply sync_same; [apply stepped_same|]|]. exists ro. split; [done|]. split; [done|]. split; [done|].
    unfold differs in Ed. apply orb_false_iff in Ed as [Ed E3]. apply orb_false_iff in Ed as [E1 E2]. apply negb_false_iff in E1, E2, E3.
    bool_prop. apply eqb_prop in E3. split; [done|]. split; [done|]. by destruct (RoRetiredAt ro), (RdRetiredAt d). }
  apply stM_inv in E as (s & E & ->). unfold UpdateModuleRole in E. rewrite Hro in E. destruct Hk as (Ho & Hm & Hs).
  rewrite bool_decide_eq_false_2 in E by (intros Hn; by apply Hn). injection E as _ <-. apply role_in_Some in Hro as [Hrow Ht].
  set (r' := set_RoModuleFields _ _ _ _). destruct (edit_row_Good newID w (RoID ro) ro r' HG Hrow) as [HG' _]; [done..|].
  assert (Hrows : ∀ id, RoleRows (set_RoleRows (az_st w) (<[RoID ro := r']> (RoleRows (az_st w)))) !! id = if decide (id = RoID ro) then Some r' else RoleRows (az_st w) !! id).
  { intros id. cbn. case_decide as Ex; [by rewrite Ex, lookup_insert_eq|by rewrite lookup_insert_ne]. }
  split; [split; [split|..]|]; cbn [az_st with_st].
  - exact HG'.
  - by destruct (az_st w).
  - intros id x Hx. rewrite Hrows. case_decide as Ex; [|exists x; split_and!; [done..|by right]]. subst id. assert (x = ro) as -> by congruence. exists r'. split_and!; try done.
    left. by rewrite Ht.
  - intros id x. rewrite Hrows. case_decide as Ex; [subst; intros _; left; by eexists|intros Hx; left; by eexists].
  - by left.
  - intros id r Hr. rewrite Hrows. case_decide as Ex; [|done]. subst id. split.
    + intros [= <-]. by destruct Hr.
    + rewrite Hrow. intros [= <-]. by destruct Hr.
  - done.
  - done.
  - exists r'. split; [apply role_in_Some; split; [rewrite Hrows; by rewrite decide_True|exact Ht]|]. split; [done|]. by split_and!.
Qed.

Definition own_module module (p : Ref) : Prop := RModule p = module.
Lemma elem_of_wanted module known shorts p : p ∈ wanted module known shorts ↔ p ∈ known ∧ ∃ s, s ∈ shorts ∧ Qualify module s = Ok p.
Proof.
  clear Inj0. unfold wanted. rewrite list_elem_of_omap. split.
  - intros (s & Hs & E). destruct (Qualify module s) as [q|] eqn:Eq; [|done]. case_bool_decide; [|done]. injection E as ->. eauto.
  - intros [Hk (s & Hs & Eq)]. exists s. split; [done|]. by rewrite Eq, bool_decide_eq_true_2.
Qed.
Lemma Qualify_module module s p : Qualify module s = Ok p → RModule p = module.
Proof. unfold Qualify. destruct (ParseLegacy s); [|done]. destruct (negb _); [done|]. by intros [= <-]. Qed.

(** The tenant's copy of a definition: its fields, and exactly its permissions
    that the tenant knows. *)
Definition synced tid module (known : list Ref) (d : ModuleRoleDef) st : Prop :=
  ∃ id r, role_in st tid id = Some r ∧ copy_of module d r ∧
    ∀ p, p ∈ role_perms st id ↔ p ∈ known ∧ ∃ s, s ∈ RdPermissions d ∧ Qualify module s = Ok p.
Lemma synced_kept T P tid module known d s w w' : sync_step T P s w w' → RdSlug d ≠ s → synced tid module known d (az_st w) → synced tid module known d (az_st w').
Proof.
  clear Inj0. intros [_ HR HG _] Hne (id & r & [Hr Ht]%role_in_Some & Hc & Hp). assert (Hs : RoModuleSlug r ≠ s) by (by destruct Hc as [(_ & _ & ->) _]).
  exists id, r. split; [apply role_in_Some; split; [by apply HR|done]|]. split; [done|]. by rewrite (HG id r Hs Hr).
Qed.

(** The copies of the definitions still to come are those listed. *)
Definition listed tid module (roles : list Role) (slugs : list string) w : Prop :=
  ∀ s, s ∈ slugs → ∀ r, copy_kind module s r → (r ∈ roles ↔ role_in (az_st w) tid (RoID r) = Some r).
Lemma listed_kept T P tid module roles slugs s w w' : sync_step T P s w w' → s ∉ slugs → listed tid module roles slugs w → listed tid module roles slugs w'.
Proof.
  clear Inj0. intros [_ HR _ _] Hs HL s' Hs' r Hk. rewrite (HL s' Hs' r Hk), !role_in_Some, HR; [done|]. destruct Hk as (_ & _ & ->). by intros ->.
Qed.
Lemma last_Some {A} (l : list A) x : last l = Some x → x ∈ l.
Proof. clear. intros E. apply last_Some in E as [l' ->]. set_solver. Qed.
Lemma last_None {A} (l : list A) : last l = None → l = [].
Proof. clear. apply last_None. Qed.

Lemma sync_role_ok (T : string → Prop) ctx tid module roles known kept d slugs w kept' w' :
  Good w → ValidTenantID tid = true → T tid → (∀ p, p ∈ known → wf_ref p = true) → listed tid module roles (RdSlug d :: slugs) w →
  sync_role newID ctx tid module roles known kept d w = (Ok kept', w') →
  sync_step T (own_module module) (RdSlug d) w w' ∧
  (RdRetiredAt d = None ∨ module_role module (RdSlug d) roles ≠ None → synced tid module known d (az_st w')).
Proof using Inj0.
  intros HG Hv HT Hwf HL E. unfold sync_role in E. cbv zeta in E. set (found := module_role _ _ _) in E |- *.
  destruct (bool_decide (found = None) && negb (bool_decide (RdRetiredAt d = None))) eqn:Eskip.
  { injection E as _ <-. bool_prop. split; [by apply sync_same; [apply stepped_same|]|]. intros [?|?]; [done|congruence]. }
  apply bind_ok_inv in E as (ro & w1 & E1 & E).
  assert (X : sync_step T (own_module module) (RdSlug d) w w1 ∧ ∃ r', role_in (az_st w1) tid (RoID ro) = Some r' ∧ RoSlug r' = RoSlug ro ∧ copy_of module d r').
  { destruct found as [r0|] eqn:Ef.
    - apply bind_ok_inv in E1 as (u & w2 & E1 & E2). injection E2 as <- <-.
      apply last_Some, list_elem_of_filter in Ef as [Hk Hin]. eapply update_copy_ok; [done|done| |exact Hk|exact E1].
      apply (HL (RdSlug d)); [by left|exact Hk|exact Hin].
    - cbn in Eskip. apply negb_false_iff, bool_decide_eq_true in Eskip. apply create_copy_ok with (T := T) (P := own_module module) in E1 as (S1 & Hin & Hc); [|done|done|done|].
      + split; [done|]. by exists ro.
      + intros id r Hr Ht Hk. unfold found, module_role in Ef. apply last_None in Ef.
        assert (Hin : r ∈ roles) by (apply (HL (RdSlug d)); [by left|exact Hk|]; apply role_in_Some; split; [by rewrite (ri_key _ (good_inv _ _ HG) _ _ Hr)|done]).
        assert (r ∈ @nil Role) as Hnil by (rewrite <- Ef; apply list_elem_of_filter; by split). by apply elem_of_nil in Hnil. }
  destruct X as (S1 & r' & Hr' & Hslug & Hc). apply bind_ok_inv in E as (k & w2 & E2 & E).
  assert (Hw2 : w2 = w1).
  { destruct (bool_decide (RdRetiredAt d = None)); [by injection E2|]. apply bind_ok_inv in E2 as (ids & w3 & E3 & E4). unfold attempt in E3.
    destruct (stM _ w1) as [x w4] eqn:E5. injection E3 as <- <-. apply stM_read in E5 as [-> _]; [|apply reads_intro]. by injection E4. }
  subst w2. apply bind_ok_inv in E as (g & w2 & E3 & E). injection E as _ <-.
  assert (Hk1 : knows tid ro w1) by (unfold knows; apply slug_in_Some; eauto).
  assert (HG1 : Good w1) by apply S1. assert (Hwd : ∀ p, p ∈ wanted module known (RdPermissions d) → wf_ref p = true ∧ own_module module p).
  { intros p (Hp & s & _ & Hq)%elem_of_wanted. split; [by apply Hwf|by eapply Qualify_module]. }
  pose proof (setGrants_ok newID ctx tid ro _ w1 g w2 HG1 Hv Hk1 (λ p Hp, proj1 (Hwd p Hp)) E3) as (HG2 & _ & Est & Hset & Hoth).
  assert (S2 : sync_step T (own_module module) (RdSlug d) w1 w2).
  { split; [eapply setGrants_steps; [done|done|exact Hv|done|by apply Hwd|intros p Hp; right; by apply Hwd|exact E3]| | |by rewrite Est].
    - intros id r _. by rewrite Est.
    - intros id r Hr Hx. apply Hoth. intros ->. apply role_in_Some in Hr' as [Hr' _]. assert (r = r') as -> by congruence. by destruct Hc as [(_ & _ & ?) _]. }
  split; [by eapply sync_trans|]. intros _. exists (RoID ro), r'. split; [by rewrite Est|]. split; [done|]. intros p. by rewrite Hset, elem_of_wanted.
Qed.

Lemma sync_fold (T : string → Prop) ctx tid module roles known : ∀ defs kept w kept' w',
  Good w → ValidTenantID tid = true → T tid → (∀ p, p ∈ known → wf_ref p = true) → NoDup (RdSlug <$> defs) →
  listed tid module roles (RdSlug <$> defs) w → fold_each defs kept (sync_role newID ctx tid module roles known) w = (Ok kept', w') →
  stepped T (own_module module) w w' ∧ Permissions (az_st w') = Permissions (az_st w) ∧
  (∀ d, RdSlug d ∉ RdSlug <$> defs → synced tid module known d (az_st w) → synced tid module known d (az_st w')) ∧
  ∀ d, d ∈ defs → RdRetiredAt d = None ∨ module_role module (RdSlug d) roles ≠ None → synced tid module known d (az_st w').
Proof using Inj0.
  induction defs as [|d defs IH]; intros kept w kept' w' HG Hv HT Hwf Hn HL E; cbn [fold_each] in E.
  { injection E as _ <-. split; [by apply stepped_same|]. split; [done|]. split; [done|]. intros d Hd. by apply elem_of_nil in Hd. }
  apply bind_ok_inv in E as (k & w1 & E1 & E2). rewrite fmap_cons in Hn, HL. apply NoDup_cons in Hn as [Hnot Hn].
  apply sync_role_ok with (T := T) (slugs := RdSlug <$> defs) in E1 as [S1 Hs]; [|done..].
  assert (HL1 : listed tid module roles (RdSlug <$> defs) w1).
  { eapply listed_kept; [exact S1|done|]. intros s Hin. apply HL. by right. }
  destruct (IH k w1 kept' w' (sp_good _ _ _ _ (sy_stepped _ _ _ _ _ S1)) Hv HT Hwf Hn HL1 E2) as (S2 & C2 & K2 & D2). split; [by eapply stepped_trans; [apply S1|]|].
  split; [by rewrite C2, (sy_catalogue _ _ _ _ _ S1)|]. split.
  - intros d' Hd' Hsy. rewrite fmap_cons, not_elem_of_cons in Hd'. apply K2; [by apply Hd'|]. eapply synced_kept; [exact S1|by apply Hd'|done].
  - intros d' [->|Hd']%elem_of_cons Hr; [|by apply D2]. apply K2; [done|]. by apply Hs.
Qed.
Lemma syncRoles_ok (T : string → Prop) ctx tid module defs w kept w' :
  Good w → ValidTenantID tid = true → T tid → NoDup (RdSlug <$> defs) → syncRoles newID ctx tid module defs w = (Ok kept, w') →
  stepped T (own_module module) w w' ∧ Permissions (az_st w') = Permissions (az_st w) ∧
  ∀ d, d ∈ defs → RdRetiredAt d = None ∨ (∃ id r, role_in (az_st w) tid id = Some r ∧ copy_kind module (RdSlug d) r) →
    synced tid module (PermissionRefOf <$> default [] (Permissions (az_st w) !! tid)) d (az_st w').
Proof using Inj0.
  intros HG Hv HT Hn E. unfold syncRoles in E. apply bind_ok_inv in E as (roles & w1 & E1 & E). apply stM_read in E1 as [-> E1]; [|apply reads_intro].
  apply bind_ok_inv in E as (known & w1 & E2 & E). pose proof (good_inv _ _ HG) as HI.
  assert (Hk : w1 = w ∧ (∀ p, p ∈ known → wf_ref p = true) ∧ ∀ p, p ∈ known ↔ p ∈ PermissionRefOf <$> default [] (Permissions (az_st w) !! tid)).
  { pose proof (knownRefs_ok _ _ _ _ HI E2) as [-> ?]. split; [done|]. split; [done|]. unfold knownRefs in E2. apply bind_ok_inv in E2 as (l & w2 & E3 & E4).
    apply stM_read in E3 as [-> E3]; [|apply reads_intro]. injection E3 as <-. injection E4 as <-. intros p. by rewrite sorting.merge_sort_Permutation. }
  destruct Hk as (-> & Hwf & Hk). apply sync_fold with (T := T) in E as (S & C & _ & D); [|done..|].
  - split; [done|]. split; [done|]. intros d Hd Hr. destruct (D d Hd) as (id & r & Hin & Hc & Hp).
    + destruct Hr as [?|(id & r & Hin & Hkind)]; [by left|right]. unfold module_role. intros Hnone%last_None.
      assert (r ∈ @nil Role) as Hnil; [|by apply elem_of_nil in Hnil]. rewrite <- Hnone. apply list_elem_of_filter. split; [exact Hkind|].
      apply (elem_of_ListRoles _ _ _ _ HI E1). by rewrite (role_in_id _ _ _ _ HI Hin).
    + exists id, r. split; [done|]. split; [done|]. intros p. by rewrite Hp, Hk.
  - intros s _ r _. apply (elem_of_ListRoles _ _ _ _ HI E1).
Qed.

(** After a synchronisation every role a module provides exists in the tenant
    with the declared name, description and retirement, and grants exactly the
    declared permissions that the tenant knows; who holds which role is left
    alone. *)
Theorem module_roles_synced ctx tid module defs w kept w' :
  Good w → ValidTenantID tid = true → NoDup (RdSlug <$> defs) → syncRoles newID ctx tid module defs w = (Ok kept, w') →
  (∀ d, d ∈ defs → RdRetiredAt d = None ∨ (∃ id r, role_in (az_st w) tid id = Some r ∧ copy_kind module (RdSlug d) r) →
     ∃ id r, role_in (az_st w') tid id = Some r ∧ copy_of module d r ∧
       ∀ p, p ∈ role_perms (az_st w') id ↔
         p ∈ PermissionRefOf <$> default [] (Permissions (az_st w') !! tid) ∧ ∃ s, s ∈ RdPermissions d ∧ Qualify module s = Ok p) ∧
  (∀ t uid id, holds_role (az_st w') t uid id ↔ holds_role (az_st w) t uid id) ∧ Mirror (az_st w') (tuplesW w').
Proof using Inj0.
  intros HG Hv Hn E. apply syncRoles_ok with (T := λ t, t = tid) in E as (S & C & D); [|done..]. split; [|split].
  - intros d Hd Hr. rewrite C. by apply D.
  - intros t uid id. apply holds_rest, S.
  - apply (good_mirror _ _ (sp_good _ _ _ _ S)).
Qed.

(** ** Built-in grants *)
Lemma Qualify_ok module s p : Qualify module s = Ok p → wf_ref p = true ∧ RModule p = module ∧ Short p = s ∧ wf_ref (mkRef "" (RResource p) (RAction p)) = true.
Proof.
  clear Inj0. unfold Qualify, ParseLegacy. destruct (split ":" s) as [|r [|a [|]]] eqn:Es; try done. destruct (build "" r a) as [x|] eqn:Eb; [|done].
  destruct (ValidModule module) eqn:Em; [|done]. intros [= <-]. apply build_ok_iff in Eb as [-> Hw]. pose proof (join_split ":" s) as Hj. rewrite Es in Hj.
  split_and!; [|done|exact Hj|exact Hw]. unfold wf_ref in *. cbn [WithModule RModule RResource RAction] in *. rewrite Em, orb_true_r.
  by apply andb_true_iff in Hw as [[_ ->]%andb_true_iff ->].
Qed.
Lemma GrantBuiltin_keeps (T : string → Prop) (P : Ref → Prop) ctx tid slug refs :
  T tid → ValidTenantID tid = true → (∀ p, p ∈ refs → wf_ref p = true ∧ P p) → keeps (λ _, True) T P (GrantBuiltin ctx tid slug refs).
Proof.
  clear Inj0. intros HT Hv Hp w a w' _ HG E. unfold GrantBuiltin in E. apply bind_ok_inv in E as (roles & w1 & E1 & E).
  apply stM_read in E1 as [-> E1]; [|apply reads_intro]. destruct (last _) as [role|] eqn:El; [|injection E as _ <-; by apply stepped_same].
  apply last_Some, list_elem_of_filter in El as [_ Hin]. pose proof (known_rows _ _ _ HG E1) as Hk. rewrite Forall_forall in Hk. specialize (Hk _ Hin).
  refine (keeps_bind (knows tid role) T P _ _ (knows_lasting _ _ _ _) _ _ w a w' Hk HG E).
  - by apply addGrants_keeps.
  - intros n. apply keeps_bind; [apply knows_lasting| |intros _; apply keeps_ret]. keeps_if; [apply keeps_emit|apply keeps_ret].
Qed.
Lemma RevokeBuiltin_keeps (T : string → Prop) (P : Ref → Prop) ctx tid module keep :
  T tid → ValidTenantID tid = true → keeps (λ _, True) T P (RevokeBuiltin ctx tid module keep).
Proof.
  clear Inj0. intros HT Hv w a w' _ HG E. unfold RevokeBuiltin in E. apply bind_ok_inv in E as (roles & w1 & E1 & E).
  apply stM_read in E1 as [-> E1]; [|apply reads_intro].
  refine (keeps_fold_each (λ w, Forall (λ ro, knows tid ro w) roles) T P roles _ (knows_all_lasting _ _ _ _) _ _ w a w' (known_rows _ _ _ HG E1) HG E).
  intros total ro Hro. keeps_if; [apply keeps_ret|]. intros w0 z w2 Hw0 HG0 F. apply bind_ok_inv in F as (cur & w1 & F1 & F).
  apply RolePermissions_ok in F1 as (-> & -> & _). cbv zeta in F. destruct (negb _); [injection F as _ <-; by apply stepped_same|].
  apply bind_ok_inv in F as (r & w1 & F1 & F). assert (Hko : knows tid ro w0) by (rewrite Forall_forall in Hw0; by apply Hw0).
  eapply (stepped_trans _ _ _ w1).
  - eapply setGrants_steps; [done|done|exact Hv|exact Hko| | |exact F1]; intros p [_ Hp]%list_elem_of_filter; [|by left].
    by apply (ri_perm _ (good_inv _ _ HG0) (RoID ro)).
  - apply bind_ok_inv in F as (u & w3 & F2 & F). injection F2 as _ <-. injection F as _ <-. apply stepped_same; [|done].
    eapply setGrants_ok in F1 as [HG1 _]; [exact HG1|done|exact Hv|exact Hko|]. intros p [_ Hp]%list_elem_of_filter. by apply (ri_perm _ (good_inv _ _ HG0) (RoID ro)).
Qed.

(** A reference of the module, or the legacy form of one it grants. *)
Definition own_or_twin module (shorts : list string) (p : Ref) : Prop :=
  RModule p = module ∨ IsLegacy p = true ∧ Short p ∈ shorts.
Lemma twin_refs module (legacy : list Ref) shorts l : ∀ acc w refs w1, l ⊆ shorts →
  (∀ p, p ∈ acc → wf_ref p = true ∧ own_or_twin module shorts p) →
  fold_each l acc (λ refs s,
    match Qualify module s with
    | Err _ => throw ErrBadRegistration
    | Ok ref => let l := mkRef "" (RResource ref) (RAction ref) in
                ret (refs ++ ref :: (if bool_decide (l ∈ legacy) then [l] else []))
    end) w = (Ok refs, w1) →
  w1 = w ∧ ∀ p, p ∈ refs → wf_ref p = true ∧ own_or_twin module shorts p.
Proof.
  clear Inj0. induction l as [|s l IH]; intros acc w refs w1 Hl Hacc E2; cbn [fold_each] in E2; [by injection E2 as <- <-|].
  apply bind_ok_inv in E2 as (acc' & w2 & E3 & E4). destruct (Qualify module s) as [ref|] eqn:Eq; [|done]. cbv zeta in E3. injection E3 as <- <-.
  eapply IH; [set_solver| |exact E4]. apply Qualify_ok in Eq as (Q1 & Q2 & Q3 & Q4).
  intros p [Hp|[->|Hp]%elem_of_cons]%elem_of_app; [by apply Hacc|split; [done|by left]|].
  destruct (bool_decide _); [|by apply elem_of_nil in Hp]. apply list_elem_of_singleton in Hp as ->. split; [done|]. right. split; [done|].
  rewrite <- Q3 in Hl. apply Hl. by left.
Qed.
Lemma grantBuiltin_keeps (T : string → Prop) ctx tid module g shorts :
  T tid → ValidTenantID tid = true → BgPermissions g ⊆ shorts → keeps (λ _, True) T (own_or_twin module shorts) (grantBuiltin ctx tid module g).
Proof.
  clear Inj0. intros HT Hv Hsub w a w' _ HG E. unfold grantBuiltin in E. apply bind_ok_inv in E as (cat & w1 & E1 & E).
  apply stM_read in E1 as [-> _]; [|apply reads_intro]. apply bind_ok_inv in E as (refs & w1 & E2 & E).
  apply (twin_refs module _ shorts) in E2 as [-> Hp]; [|done|intros p Hp; by apply elem_of_nil in Hp].
  exact (GrantBuiltin_keeps T _ ctx tid (BgRole g) refs HT Hv Hp w a w' I HG E).
Qed.
Lemma revokeBuiltin_keeps (T : string → Prop) P ctx tid module gs :
  T tid → ValidTenantID tid = true → keeps (λ _, True) T P (revokeBuiltin ctx tid module gs).
Proof. clear Inj0. intros HT Hv. unfold revokeBuiltin. destruct (wanted_builtin module gs); [by apply RevokeBuiltin_keeps|apply keeps_throw]. Qed.

(** ** The catalogue *)
Record CatInv (c : moduleState) : Prop := mkCatInv {
  ci_modules : ∀ k m, ms_modules c !! k = Some m → MdName m = k ∧ ValidModule k = true;
  ci_defs : ∀ k d, ms_defs c !! k = Some d → k = def_key (RdModule d) (RdSlug d);
}.
Lemma defs_nodup module c : CatInv c → module ≠ "" → NoDup (RdSlug <$> ModuleRoleDefs module c).
Proof.
  clear Inj0. intros [_ Hd] Hm. unfold ModuleRoleDefs. rewrite sorting.merge_sort_Permutation. unfold values.
  assert (N : NoDup (map_to_list (ms_defs c)).*1) by apply NoDup_fst_map_to_list.
  assert (Hin : ∀ k d, (k, d) ∈ map_to_list (ms_defs c) → k = def_key (RdModule d) (RdSlug d)) by (intros k d ?%elem_of_map_to_list; by apply Hd).
  induction (map_to_list (ms_defs c)) as [|[k d] l IH]; [constructor|]. rewrite fmap_cons in N. apply NoDup_cons in N as [Hk N]. cbn [fst] in Hk.
  assert (IH' : NoDup (RdSlug <$> filter (λ d, module = "" ∨ RdModule d = module) l.*2)) by (apply IH; [done|]; intros k' d' Hl; apply Hin; by right).
  rewrite fmap_cons, filter_cons. cbn [snd]. destruct (decide (module = "" ∨ RdModule d = module)) as [Hmod|]; [|exact IH']. destruct Hmod as [?|Hmod]; [done|]. rewrite fmap_cons. apply NoDup_cons. split; [|exact IH'].
  intros (d' & Es & [Hd' ([k' d''] & -> & Hl)%list_elem_of_fmap]%list_elem_of_filter)%list_elem_of_fmap. cbn [snd] in *. destruct Hd' as [?|Hd']; [done|].
  apply Hk. apply list_elem_of_fmap. exists (k', d''). split; [|done]. cbn. rewrite (Hin k d) by (by left). rewrite (Hin k' d'') by (by right). congruence.
Qed.
Definition keepsM (T : string → Prop) P {A} (m : M MWD A) : Prop := ∀ x a x', Good (mw_az x) → CatInv (mw_cat x) → m x = (Ok a, x') →
  stepped T P (mw_az x) (mw_az x') ∧ CatInv (mw_cat x').
Lemma keepsM_bind T P {A C} (m : M MWD A) (f : A → M MWD C) : keepsM T P m → (∀ a, keepsM T P (f a)) → keepsM T P (bind m f).
Proof.
  intros Hm Hf x c x' HG HC E. apply bind_ok_inv in E as (a & x1 & E1 & E2). destruct (Hm _ _ _ HG HC E1) as [S1 C1].
  destruct (Hf a x1 c x' (sp_good _ _ _ _ S1) C1 E2) as [S2 C2]. split; [by eapply stepped_trans|done].
Qed.
Lemma keepsM_ret T P {A} (a : A) : keepsM T P (ret a).
Proof. intros x b x' HG HC [= _ <-]. split; [by apply stepped_same|done]. Qed.
Lemma keepsM_throw T P {A} e : keepsM T P (throw (A := A) e).
Proof. by intros x b x' _ _ [=]. Qed.
Lemma keepsM_lift T P {A C} (r : result A) (f : A → M MWD C) : (∀ a, r = Ok a → keepsM T P (f a)) → keepsM T P (bind (lift r) f).
Proof. intros Hf x c x' HG HC E. unfold bind, lift in E. destruct r as [a|]; [|done]. exact (Hf a eq_refl x c x' HG HC E). Qed.
Lemma keepsM_az T P {A} (m : M W A) : keeps (λ _, True) T P m → keepsM T P (azL m).
Proof. intros Hm x a x' HG HC E. apply azL_ok in E as (w' & E & ->). split; [by apply (Hm _ _ _ I HG E)|done]. Qed.
Lemma keepsM_cat T P {A} (f : Z → M moduleState A) :
  (∀ now c a c', CatInv c → f now c = (Ok a, c') → CatInv c') → keepsM T P (catM f).
Proof. intros Hf x a x' HG HC E. apply catM_ok in E as (c & E & ->). split; [by apply stepped_same|by eapply Hf]. Qed.
Lemma keepsM_read T P {A C} (f : moduleState → A) (g : A → M MWD C) : (∀ c, CatInv c → keepsM T P (g (f c))) → keepsM T P (bind (catR f) g).
Proof. intros Hg x a x' HG HC E. unfold bind, catR, gets in E. exact (Hg (mw_cat x) HC x a x' HG HC E). Qed.
Lemma keepsM_for_each T P {A} (l : list A) (f : A → M MWD unit) : (∀ a, a ∈ l → keepsM T P (f a)) → keepsM T P (for_each l f).
Proof.
  induction l as [|a l IH]; intros Hf; [apply keepsM_ret|]. cbn [for_each]. apply keepsM_bind; [apply Hf; by left|]. intros _. apply IH.
  intros b Hb. apply Hf. by right.
Qed.
Lemma keepsM_fold_each T P {A C} (l : list A) (f : C → A → M MWD C) : (∀ c a, a ∈ l → keepsM T P (f c a)) → ∀ c, keepsM T P (fold_each l c f).
Proof.
  induction l as [|a l IH]; intros Hf c; [apply keepsM_ret|]. cbn [fold_each]. apply keepsM_bind; [apply Hf; by left|]. intros d. apply IH.
  intros e b Hb. apply Hf. by right.
Qed.
Lemma keepsM_emit T P e : keepsM T P (emitM e).
Proof. unfold emitM. destruct (bool_decide _); [apply keepsM_ret|]. apply keepsM_az, keeps_emit. Qed.
Lemma keepsM_weaken (T T' : string → Prop) (P P' : Ref → Prop) {A} (m : M MWD A) : (∀ t, T t → T' t) → (∀ p, P p → P' p) → keepsM T P m → keepsM T' P' m.
Proof. intros HT HP Hm x a x' HG HC E. destruct (Hm x a x' HG HC E) as [S C]. split; [by eapply stepped_weaken|done]. Qed.

(** Catalogue writes. *)
Lemma cat_upsert_module now name dn c a c' : ValidModule name = true → CatInv c → UpsertModule now name dn c = (Ok a, c') → CatInv c'.
Proof.
  clear Inj0. intros Hv [C1 C2] [= _ <-]. split; [|exact C2]. cbn. intros k m. destruct (decide (k = name)) as [->|Hne].
  - rewrite lookup_insert_eq. intros [= <-]. split; [|done]. destruct (ms_modules c !! name) as [x|] eqn:Ex; [|done]. by apply (C1 _ _ Ex).
  - rewrite lookup_insert_ne by done. apply C1.
Qed.
Lemma cat_upsert_def now d c a c' : CatInv c → UpsertModuleRoleDef now d c = (Ok a, c') → CatInv c'.
Proof.
  clear Inj0. intros [C1 C2] E. unfold UpsertModuleRoleDef in E. cbv zeta in E. set (put := set_mdefs _ _) in E. assert (HP : CatInv put).
  { split; [exact C1|]. unfold put. cbn. intros k x. destruct (decide (k = def_key (RdModule d) (RdSlug d))) as [->|Hne];
      [rewrite lookup_insert_eq; by intros [= <-]|rewrite lookup_insert_ne by done; apply C2]. }
  destruct (ms_defs c !! _) as [x|]; [destruct (_ && _)|]; injection E as _ <-; [by split|done|done].
Qed.
Lemma cat_retire_def now module slug c a c' : CatInv c → RetireModuleRoleDef now module slug c = (Ok a, c') → CatInv c'.
Proof.
  clear Inj0. intros [C1 C2] E. unfold RetireModuleRoleDef in E. destruct (ms_defs c !! _) as [x|] eqn:Ex; [|done]. injection E as _ <-.
  split; [exact C1|]. cbn. intros k y. destruct (decide (k = def_key module slug)) as [->|Hne]; [|rewrite lookup_insert_ne by done; apply C2].
  rewrite lookup_insert_eq. intros [= <-]. cbn. by apply C2.
Qed.
Lemma cat_retire_module now name c a c' : CatInv c → RetireModuleRow now name c = (Ok a, c') → CatInv c'.
Proof.
  clear Inj0. intros [C1 C2] E. unfold RetireModuleRow in E. destruct (ms_modules c !! name) as [x|] eqn:Ex; [|done]. injection E as _ <-. split; cbn.
  - intros k y. destruct (decide (k = name)) as [->|Hne]; [|rewrite lookup_insert_ne by done; apply C1].
    rewrite lookup_insert_eq. intros [= <-]. cbn. by apply C1.
  - intros k y. rewrite lookup_fmap. destruct (ms_defs c !! k) as [z|] eqn:Ez; [|done]. cbn. intros [= <-]. rewrite (C2 _ _ Ez). by destruct (bool_decide _).
Qed.

(** ** The calls *)
Lemma migrate_keepsM (T : string → Prop) (P : Ref → Prop) ctx tid module :
  T tid → ValidTenantID tid = true → (∀ p, RModule p = module → P p) → keepsM T P (migrate ctx tid module).
Proof.
  clear Inj0. intros HT Hv HP. unfold migrate. apply keepsM_bind; [|intros _; apply keepsM_bind; [|intros tm]].
  - apply keepsM_cat. intros now c a c' [C1 C2] [= _ <-]. destruct (bool_decide _); by split.
  - apply keepsM_cat. intros now c a c' HC E. unfold TenantModuleRow in E. destruct (ms_tenants c !! _); [|done]. by injection E as _ <-.
  - destruct (TmLegacyMigratedAt tm); [apply keepsM_ret|]. apply keepsM_bind; [by apply keepsM_az, migrate_rows_keeps|]. intros _.
    apply keepsM_cat. intros now c a c' [C1 C2] E. unfold MarkLegacyMigrated in E. destruct (ms_tenants c !! _); [|done]. injection E as _ <-. by split.
Qed.
Lemma register_keepsM T P ctx tid module registrant defs : keepsM T P (azL (RegisterPermissions ctx tid module registrant defs)).
Proof. apply keepsM_az, RegisterPermissions_keeps. by intros w w' _ _. Qed.
Lemma sync_keepsM (T : string → Prop) (P : Ref → Prop) ctx tid module defs :
  T tid → ValidTenantID tid = true → (∀ p, RModule p = module → P p) → NoDup (RdSlug <$> defs) → keepsM T P (azL (syncRoles newID ctx tid module defs)).
Proof using Inj0.
  intros HT Hv HP Hn. apply keepsM_az. intros w a w' _ HG E. apply syncRoles_ok with (T := T) in E as [S _]; [|done..].
  eapply stepped_weaken; [| |exact S]; [done|]. intros p Hp. by apply HP.
Qed.
Lemma register_tenant_keepsM (T : string → Prop) ctx reg defs t tid :
  T tid → ValidTenantID tid = true → NoDup (RdSlug <$> defs) →
  keepsM T (own_or_twin (RgModule reg) (concat (BgPermissions <$> RgGrants reg))) (register_tenant newID ctx reg defs t tid).
Proof using Inj0.
  intros HT Hv Hn. unfold register_tenant. set (P := own_or_twin _ _). assert (HP : ∀ p, RModule p = RgModule reg → P p) by (intros p Hp; by left).
  apply keepsM_bind; [apply register_keepsM|]. intros n. apply keepsM_bind; [by apply migrate_keepsM|]. intros _.
  destruct (negb _); [apply keepsM_ret|]. apply keepsM_bind; [by apply sync_keepsM|]. intros counts. apply keepsM_bind.
  { destruct (RgDeclaresGrants reg); [by apply keepsM_az, revokeBuiltin_keeps|apply keepsM_ret]. }
  intros revoked. apply keepsM_bind; [|intros; apply keepsM_ret]. apply keepsM_fold_each. intros m g Hg. apply keepsM_bind; [|intros; apply keepsM_ret].
  apply keepsM_az, grantBuiltin_keeps; [done|done|]. intros p Hp. rewrite list_elem_of_In, in_concat. exists (BgPermissions g).
  rewrite <- !list_elem_of_In. split; [|done]. apply list_elem_of_fmap. eauto.
Qed.
Lemma put_defs_keepsM T P reg defs : keepsM T P (put_defs reg defs).
Proof.
  clear Inj0. unfold put_defs. destruct (negb _); [apply keepsM_ret|]. apply keepsM_bind.
  { apply keepsM_fold_each. intros out d _. apply keepsM_bind; [|intros; apply keepsM_ret]. apply keepsM_cat. intros. by eapply cat_upsert_def. }
  intros up. destruct (negb _); [apply keepsM_ret|]. apply keepsM_read. intros c _. apply keepsM_bind; [|intros; apply keepsM_ret].
  apply keepsM_fold_each. intros out d _. destruct (_ || _); [apply keepsM_ret|]. apply keepsM_bind; [|intros; apply keepsM_ret].
  apply keepsM_cat. intros. by eapply cat_retire_def.
Qed.
Context (PlatformTenant : string) (listTenants : option (result (list string))).
Lemma validate_module reg x : validate reg = Ok x → ValidModule (RgModule reg) = true.
Proof. clear Inj0. unfold validate. by destruct (ValidModule (RgModule reg)). Qed.
Lemma valid_module_nonempty m : ValidModule m = true → m ≠ "".
Proof. clear Inj0. by intros Hm ->. Qed.
Lemma Register_keepsM ctx reg :
  keepsM (λ t, t ∈ RgTenants reg) (own_or_twin (RgModule reg) (concat (BgPermissions <$> RgGrants reg))) (Register newID PlatformTenant ctx reg).
Proof using Inj0.
  unfold Register. apply keepsM_lift. intros [defs errs] Hval. apply validate_module in Hval.
  destruct (negb _ && _); [apply keepsM_throw|]. destruct (forallb ValidTenantID _) eqn:Ev; [|apply keepsM_throw]. cbn [negb]. cbv zeta.
  rewrite forallb_forall in Ev. apply keepsM_bind; [apply keepsM_cat; intros; by eapply cat_upsert_module|]. intros _.
  apply keepsM_bind; [apply keepsM_for_each; intros p _; apply keepsM_cat; by intros now c a c' [C1 C2] [= _ <-]|]. intros _.
  apply keepsM_bind; [apply put_defs_keepsM|]. intros [up ret]. apply keepsM_read. intros c HC.
  apply keepsM_bind; [|intros t; repeat (apply keepsM_bind; [|intros _]); try apply keepsM_ret; first [apply keepsM_emit|apply keepsM_for_each; intros; apply keepsM_emit]].
  apply keepsM_fold_each. intros t tid Ht. apply register_tenant_keepsM; [done|by apply Ev, list_elem_of_In|].
  apply defs_nodup; [done|by apply valid_module_nonempty].
Qed.

Definition catalogued (c : moduleState) (p : Ref) : Prop := is_Some (ms_modules c !! RModule p).
Definition listed_tenant tid : Prop := ∃ l, listTenants = Some (Ok l) ∧ tid ∈ l.
Lemma Instantiate_ok ctx tid x x' : Good (mw_az x) → CatInv (mw_cat x) → ValidTenantID tid = true → InstantiateTenant newID ctx tid x = (Ok tt, x') →
  stepped (λ t, t = tid) (catalogued (mw_cat x)) (mw_az x) (mw_az x') ∧ CatInv (mw_cat x').
Proof using Inj0.
  intros HG HC Hv E. unfold InstantiateTenant in E. cbv zeta in E. unfold bind, catR, gets in E. revert E.
  cut (keepsM (λ t, t = tid) (catalogued (mw_cat x)) (for_each (Modules (mw_cat x)) (instantiate_module newID (SystemCtx ctx) tid))); [intros Hk E; by eapply Hk|].
  apply keepsM_for_each. intros m Hm. assert (Hmod : is_Some (ms_modules (mw_cat x) !! MdName m) ∧ ValidModule (MdName m) = true).
  { unfold Modules in Hm. rewrite sorting.merge_sort_Permutation, elem_of_values in Hm. destruct Hm as [k Hk]. destruct (ci_modules _ HC _ _ Hk) as [-> ?]. by split; [eexists|]. }
  assert (HP : ∀ p, RModule p = MdName m → catalogued (mw_cat x) p) by (intros p E; unfold catalogued; rewrite E; apply Hmod).
  unfold instantiate_module. destruct (negb _); [apply keepsM_ret|]. apply keepsM_read. intros c _. cbv zeta.
  apply keepsM_bind; [apply register_keepsM|]. intros _. apply keepsM_bind; [by apply migrate_keepsM|]. intros _. apply keepsM_read. intros c' HC'.
  apply keepsM_bind; [|intros; apply keepsM_ret]. apply sync_keepsM; [done|done|done|]. apply defs_nodup; [done|apply valid_module_nonempty, Hmod].
Qed.
Lemma Retire_ok ctx name x slugs x' : (∀ tid, listed_tenant tid → ValidTenantID tid = true) → Good (mw_az x) → CatInv (mw_cat x) →
  RetireModule newID PlatformTenant listTenants ctx name x = (Ok slugs, x') →
  stepped listed_tenant (own_module name) (mw_az x) (mw_az x') ∧ CatInv (mw_cat x').
Proof using Inj0.
  intros HT HG HC E. unfold RetireModule in E. cbv zeta in E. unfold bind at 1, catR at 1, gets at 1 in E. set (before := ModuleRoleDefs name (mw_cat x)) in E.
  apply bind_ok_inv in E as (r & x1 & E1 & E). unfold attempt in E1. destruct (catM _ x) as [r' x1'] eqn:E2. injection E1 as <- <-.
  apply bind_ok_inv in E as (u & x2 & E3 & E). destruct r' as [[]|e]; [|discriminate E3]. injection E3 as _ <-.
  apply catM_ok in E2 as (c & E2 & ->). assert (Hname : name ≠ "").
  { unfold RetireModuleRow in E2. destruct (ms_modules (mw_cat x) !! name) eqn:Em; [|done]. by apply valid_module_nonempty, (ci_modules _ HC _ _ Em). }
  apply cat_retire_module in E2; [|done]. revert E. match goal with |- ?m _ = _ → _ => cut (keepsM listed_tenant (own_module name) m) end.
  { intros Hk E. exact (Hk (mkMW (mw_az x) c) slugs x' HG E2 E). }
  apply keepsM_read. intros c' HC'. set (rest := λ tenants, bind (fold_each tenants ∅ _) _).
  assert (HR : ∀ tenants, (∀ t, t ∈ tenants → listed_tenant t) → keepsM listed_tenant (own_module name) (rest tenants)).
  { intros tenants Hin. apply keepsM_bind; [|intros kept; apply keepsM_bind; [apply keepsM_for_each; intros; apply keepsM_emit|intros; apply keepsM_ret]].
    apply keepsM_fold_each. intros kept tid Ht. apply keepsM_bind; [|intros; apply keepsM_ret].
    apply sync_keepsM; [by apply Hin|by apply HT, Hin|done|by apply defs_nodup]. }
  unfold listed_tenant in *. destruct listTenants as [[l|e]|].
  - apply keepsM_lift. intros l' [= <-]. apply HR. eauto.
  - by apply keepsM_lift.
  - intros y a y' HGy HCy Ey. apply (HR [] (λ t Ht, False_ind _ (not_elem_of_nil t Ht)) y a y' HGy HCy Ey).
Qed.

(** A successful call of the module service: the tenants it is for and the
    references it may hand out. *)
Inductive module_call : (string → Prop) → (Ref → Prop) → MWD → MWD → Prop :=
  | mc_register ctx reg res x x' : Register newID PlatformTenant ctx reg x = (Ok res, x') →
      module_call (λ t, t ∈ RgTenants reg) (own_or_twin (RgModule reg) (concat (BgPermissions <$> RgGrants reg))) x x'
  | mc_instantiate ctx tid x x' : ValidTenantID tid = true → InstantiateTenant newID ctx tid x = (Ok tt, x') →
      module_call (λ t, t = tid) (catalogued (mw_cat x)) x x'
  | mc_retire ctx name slugs x x' : (∀ tid, listed_tenant tid → ValidTenantID tid = true) →
      RetireModule newID PlatformTenant listTenants ctx name x = (Ok slugs, x') → module_call listed_tenant (own_module name) x x'.
Lemma module_call_stepped T P x x' : module_call T P x x' → Good (mw_az x) → CatInv (mw_cat x) → stepped T P (mw_az x) (mw_az x') ∧ CatInv (mw_cat x').
Proof using Inj0.
  intros Hc HG HC. destruct Hc as [ctx reg res x x' E|ctx tid x x' Hv E|ctx name slugs x x' HT E].
  - by eapply Register_keepsM.
  - by eapply Instantiate_ok.
  - by eapply Retire_ok.
Qed.
Lemma stepped_gain T P w w' tid uid p : Good w → stepped T P w w' → has_perm (az_st w') tid uid p → has_perm (az_st w) tid uid p ∨ T tid ∧ P p.
Proof.
  clear Inj0. intros HG S (id & r & Hr & Hp & Hh). rewrite (holds_rest (az_st w)) in Hh by apply S. apply role_in_Some in Hr as [Hr Ht].
  destruct (sp_new _ _ _ _ S id r Hr) as [[r0 Hr0]|[_ Hn]]; [|by destruct (Hn tid uid)].
  destruct (sp_rows _ _ _ _ S id r0 Hr0) as (r1 & Hr1 & _ & Ht1 & Hout). assert (r1 = r) as -> by congruence.
  assert (Hold : p ∈ role_perms (az_st w) id → has_perm (az_st w) tid uid p) by (intros Hin; exists id, r0; split; [apply role_in_Some; split; [done|congruence]|done]).
  destruct Hout as [HT|[_ Ep]]; [|left; apply Hold; congruence]. destruct (sp_perms _ _ _ _ S id p Hp) as [Hin|HP]; [by left; apply Hold|].
  right. split; [congruence|done].
Qed.

End ModuleSafety.
