(* ===== verification/AuthzApiSafety.v ===== *)
(** * The authorization API keeps modules apart and takes what the SDK accepts *)
From stdpp Require Import sorting.
From S2P Require Import Prelude GoStrings Regex PermRef TenantCtx Models Cache AuditEvents Session MemStore SessionSafety Mfa MfaSafety Fga MemRoles AuthzClient AuthzServices MemModules Modules AuthzApi.
#[local] Open Scope list_scope.
#[local] Open Scope go_scope.

(** ** Trimming twice *)
Lemma cut_prefix_app_Some e s t r : cut_prefix e s = Some r → cut_prefix e (s +:+ t) = Some (r +:+ t).
Proof. intros ->%cut_prefix_Some. rewrite str_app_assoc. apply cut_prefix_app. Qed.
Lemma strip_one_app encs s t : strip_one encs (s +:+ t) = None → strip_one encs s = None.
Proof.
  induction encs as [|e encs IH]; [done|]. cbn. destruct (cut_prefix e (s +:+ t)) as [x|] eqn:E; [done|]. intros H.
  destruct (cut_prefix e s) as [y|] eqn:E'; [|by apply IH]. apply (cut_prefix_app_Some e s t) in E'. congruence.
Qed.
Lemma strip_one_length encs s r : Forall (λ e, e ≠ "") encs → strip_one encs s = Some r → (String.length r < String.length s)%nat ∧ ∃ p, s = p +:+ r.
Proof.
  induction 1 as [|e encs He _ IH]; [done|]. cbn. destruct (cut_prefix e s) as [x|] eqn:E; [|apply IH]. intros [= <-]. apply cut_prefix_Some in E as ->.
  rewrite str_length_app. split; [destruct e; [done|cbn; lia]|by exists e].
Qed.
Lemma strip_all_spec n encs : Forall (λ e, e ≠ "") encs → ∀ s, (String.length s <= n)%nat → strip_one encs (strip_all n encs s) = None ∧ ∃ p, s = p +:+ strip_all n encs s.
Proof.
  intros He. induction n as [|n IH]; intros s Hn; cbn.
  - destruct s; [|cbn in Hn; lia]. split; [|by exists ""]. destruct (strip_one encs "") as [r|] eqn:E; [|done]. apply strip_one_length in E as [E _]; [cbn in E; lia|done].
  - destruct (strip_one encs s) as [r|] eqn:E; [|split; [done|by exists ""]]. apply strip_one_length in E as [El [p ->]]; [|done]. destruct (IH r ltac:(lia)) as [H1 [q H2]].
    split; [done|]. exists (p +:+ q). by rewrite str_app_assoc, <- H2.
Qed.
Lemma strip_all_none n encs s : strip_one encs s = None → strip_all n encs s = s.
Proof. destruct n; cbn; [done|]. by intros ->. Qed.
Lemma spaces_nonempty : Forall (λ e, e ≠ "") space_encodings ∧ Forall (λ e, e ≠ "") (rev_string <$> space_encodings).
Proof. split; apply Forall_forall; intros e He; repeat (apply elem_of_cons in He as [->|He]; [done|]); by apply elem_of_nil in He. Qed.
Lemma rev_string_length s : String.length (rev_string s) = String.length s.
Proof. induction s as [|c s IH]; [done|]. cbn. rewrite str_length_app, IH. cbn. lia. Qed.
Lemma TrimSpace_idem s : TrimSpace (TrimSpace s) = TrimSpace s.
Proof.
  destruct spaces_nonempty as [E1 E2]. unfold TrimSpace at 2 3. set (l := strip_all (String.length s) space_encodings s).
  destruct (strip_all_spec (String.length s) space_encodings E1 s ltac:(done)) as [Hl _]. fold l in Hl.
  destruct (strip_all_spec (String.length l) (rev_string <$> space_encodings) E2 (rev_string l)) as [Hr [p Hp]]. { rewrite rev_string_length. lia. }
  set (r := strip_all (String.length l) (rev_string <$> space_encodings) (rev_string l)) in *.
  assert (Hs : strip_one space_encodings (rev_string r) = None).
  { apply (strip_one_app _ _ (rev_string p)). rewrite <- rev_string_app, <- Hp, rev_string_invol. done. }
  unfold TrimSpace. rewrite (strip_all_none _ _ _ Hs), rev_string_invol. by rewrite (strip_all_none _ _ _ Hr).
Qed.

(** ** What the SDK accepts, the server accepts *)
Section Accepts.
Context (r : SdkRegistration).
Notation own := (short_of <$> SrPermissions r).
Definition perm_valid (p : PermissionDef) : Prop := ValidResource (PdResource p) = true ∧ ValidAction (PdAction p) = true ∧ printable (PdDescription p) 256 = true.

Lemma check_permissions_ok l : ∀ acc res, sdk_check_permissions l acc = Some res → Forall perm_valid l ∧ ∀ x, x ∈ res ↔ x ∈ acc ∨ x ∈ short_of <$> l.
Proof.
  induction l as [|p l IH]; intros acc res; cbn [sdk_check_permissions].
  { intros [= <-]. split; [constructor|]. intros x. cbn. rewrite elem_of_nil. tauto. }
  destruct (_ || _) eqn:Ev; [done|]. case_bool_decide; [done|]. intros [H1 H2]%IH. apply orb_false_iff in Ev as [[E1%negb_false_iff E2%negb_false_iff]%orb_false_iff E3%negb_false_iff].
  split; [by constructor|]. intros x. rewrite H2, fmap_cons, !elem_of_cons. tauto.
Qed.
Lemma short_not_qualified p : perm_valid p → split ":" (short_of p) = [PdResource p; PdAction p].
Proof.
  intros (H1 & H2 & _). unfold short_of. change (":" +:+ PdAction p) with (String ":" (PdAction p)). rewrite split_app_sep by solve_lacks. f_equal. apply split_lacks. solve_lacks.
Qed.
Lemma role_shorts_ok l : Forall perm_valid (SrPermissions r) → (∀ s, s ∈ l → s ∈ own) → ∀ acc, ∃ out, role_shorts (SrModule r) own l acc = Some out.
Proof.
  intros Hv. induction l as [|s l IH]; intros Hl acc; cbn [role_shorts]; [eauto|]. assert (Hs : s ∈ own) by (apply Hl; by left).
  assert (Parse s = Err ErrMalformed) as ->.
  { apply list_elem_of_fmap in Hs as (p & -> & Hp). rewrite Forall_forall in Hv. unfold Parse. by rewrite (short_not_qualified p (Hv p Hp)). }
  rewrite bool_decide_eq_true_2 by done. cbn [negb]. apply IH. intros x Hx. apply Hl. by right.
Qed.
Definition sent_role (x : ModuleRole) : ModuleRole := mkModuleRole (MrSlug x) (TrimSpace (MrDisplayName x)) (MrDescription x) (sdk_short r <$> MrPermissions x).
Lemma check_roles_ok (own' : list string) l : Forall perm_valid (SrPermissions r) → (∀ x, x ∈ own' ↔ x ∈ own) → ∀ slugs, sdk_check_role_list r own' slugs l = true →
  ∃ defs, check_roles (SrModule r) own slugs (sent_role <$> l) = (defs, []) ∧ (RdSlug <$> defs) = (MrSlug <$> l).
Proof.
  intros Hv Hown. induction l as [|x l IH]; intros slugs; cbn [sdk_check_role_list]; [exists []; done|].
  destruct (re_match sdk_roleSlugRE (MrSlug x)) eqn:Es; cbn [negb]; [|done]. case_bool_decide as Esl; [done|]. destruct (_ || negb (printable (MrDescription x) 256)) eqn:En; [done|].
  destruct ((length (MrPermissions x) =? 0)%nat || _) eqn:El; [done|]. intros [Hp Hrest]%andb_true_iff. destruct (IH _ Hrest) as (defs & Hd & Hs).
  rewrite fmap_cons. cbn [check_roles]. change (MrSlug (sent_role x)) with (MrSlug x). rewrite Hd.
  apply orb_false_iff in El as [El1%Nat.eqb_neq El2]. unfold check_role. cbn [sent_role MrSlug MrDisplayName MrDescription MrPermissions]. rewrite TrimSpace_idem.
  change (ValidRoleDefSlug (MrSlug x)) with (re_match sdk_roleSlugRE (MrSlug x)). rewrite Es, En, (bool_decide_eq_false_2 _ Esl). cbn [negb].
  rewrite bool_decide_eq_false_2 by (intros E; apply El1; apply (f_equal length) in E; by rewrite length_fmap in E).
  rewrite length_fmap. change Modules.MaxRolePermissions with SdkMaxRolePermissions. rewrite El2.
  destruct (role_shorts_ok (sdk_short r <$> MrPermissions x) Hv) with (acc := @nil string) as [out ->].
  { intros s (p & -> & Hin)%list_elem_of_fmap. rewrite forallb_forall in Hp. apply Hown. apply (proj1 (bool_decide_eq_true _)), Hp. by apply list_elem_of_In. }
  eexists. split; [done|]. rewrite !fmap_cons. by rewrite Hs.
Qed.

(** The grants of the request. *)
Lemma sdk_grants_ok (own' : list string) : (∀ x, x ∈ own' ↔ x ∈ own) →
  forallb (λ g, bool_decide (g.1 ∈ sdk_builtinRoles) && forallb (λ p, bool_decide (p ∈ own')) g.2) (map_to_list (SrBuiltinGrants r)) = true →
  ∀ g, g ∈ RqGrants (SdkRequest r) → BgRole g ∈ BuiltinRoleSlugs ∧ ∀ p, p ∈ BgPermissions g → p ∈ own.
Proof.
  intros Hown Hg g Hin. cbn [RqGrants SdkRequest] in Hin. apply list_elem_of_fmap in Hin as (role & -> & Hr). unfold sort_strings in Hr. rewrite merge_sort_Permutation in Hr.
  apply list_elem_of_fmap in Hr as ([k l] & -> & Hkl). rewrite forallb_forall in Hg. specialize (Hg (k, l) (proj1 (list_elem_of_In _ _) Hkl)). cbn [fst snd] in *.
  apply andb_true_iff in Hg as [H1 H2]. apply elem_of_map_to_list in Hkl. cbn [BgRole BgPermissions]. rewrite Hkl. split; [by apply bool_decide_eq_true in H1|].
  intros p Hp. rewrite forallb_forall in H2. apply Hown. apply (proj1 (bool_decide_eq_true _)), H2. by apply list_elem_of_In.
Qed.
Record sdk_fine : Prop := mkFine {
  sf_module : ValidModule (SrModule r) = true;
  sf_name : printable (SrDisplayName r) 120 = true;
  sf_counts : (length (SrPermissions r) <= MaxRegistrationPermissions)%nat ∧ (length (SrRoles r) <= MaxModuleRoles)%nat;
  sf_perms : Forall perm_valid (SrPermissions r);
  sf_roles : ∃ defs, check_roles (SrModule r) own [] (sent_role <$> SrRoles r) = (defs, []) ∧ (RdSlug <$> defs) = (MrSlug <$> SrRoles r);
  sf_grants : ∀ g, g ∈ RqGrants (SdkRequest r) → BgRole g ∈ BuiltinRoleSlugs ∧ ∀ p, p ∈ BgPermissions g → p ∈ own;
  sf_tenants : forallb ValidTenantID (SrTenantIDs r) = true;
}.
Lemma Validate_fine : SdkValidate r = None → sdk_fine.
Proof.
  unfold SdkValidate. destruct (re_match sdk_moduleRE (SrModule r)) eqn:E1; [|done]. destruct (printable _ 120) eqn:E2; [|done]. cbn [negb].
  destruct (_ <? length (SrPermissions r))%nat eqn:E3; [done|]. destruct (sdk_check_permissions _ _) as [own'|] eqn:E4; [|done]. destruct (_ <? length (SrRoles r))%nat eqn:E5; [done|].
  destruct (sdk_check_role_list _ _ _ _) eqn:E6; [|done]. destruct (forallb _ (map_to_list _)) eqn:E7; [|done]. destruct (forallb _ (SrTenantIDs r)) eqn:E8; [|done]. intros _.
  apply check_permissions_ok in E4 as [Hv Hown]. assert (Ho : ∀ x, x ∈ own' ↔ x ∈ own) by (intros x; rewrite Hown, elem_of_nil; tauto).
  apply Nat.ltb_ge in E3, E5. split; try done; [by apply (check_roles_ok own')|by apply (sdk_grants_ok own')].
Qed.
Lemma sent_valid c tenants : sdk_fine → TrimSpace (SrDisplayName r) = SrDisplayName r →
  ∃ defs, validate (registration_of c (SrModule r) tenants (SdkRequest r)) = Ok (defs, []) ∧ (RdSlug <$> defs) = (MrSlug <$> SrRoles r).
Proof.
  intros [H1 H2 [H3 H3'] H4 (defs & H5 & H5') H6 _] Ht. exists defs. split; [|done]. unfold validate. cbn [registration_of SdkRequest RgModule RgDisplayName RgPermissions RgRoles RgGrants RqDisplayName RqPermissions RqRoles RqGrants].
  rewrite H1, H2, Ht, bool_decide_eq_true_2 by done. cbn [negb orb]. rewrite length_fmap, (proj2 (Nat.ltb_ge _ _) H3), (proj2 (Nat.ltb_ge _ _) H3'). cbn [orb].
  assert (forallb (λ p, ValidResource (PdResource p) && ValidAction (PdAction p) && printable (PdDescription p) 256) (SrPermissions r) = true) as ->.
  { apply forallb_forall. intros p Hp%list_elem_of_In. rewrite Forall_forall in H4. destruct (H4 p Hp) as (-> & -> & ->). done. }
  cbn [negb]. match goal with |- context [negb (forallb ?f ?l)] => assert (forallb f l = true) as -> end.
  { apply forallb_forall. intros g Hg%list_elem_of_In. destruct (H6 g Hg) as [G1 G2]. rewrite bool_decide_eq_true_2 by done. apply forallb_forall. intros p Hp%list_elem_of_In. rewrite bool_decide_eq_true_2; auto. }
  cbn [negb]. by rewrite <- H5.
Qed.
End Accepts.

Section ApiFacts.
Context {B K : Type} `{Backend B} `{KV K} (newID : nat → string) (PlatformTenant Gateway : string) (serverTenants : option (result (list string))).
Notation W := (MW B K).
Notation RegisterM := (Modules.Register newID PlatformTenant).
Implicit Types (w : W).
Definition gateway_name : string := if bool_decide (Gateway = "") then "gateway" else Gateway.
Definition answer_of (res : RegisterResult) : RegisterResponse :=
  mkRegisterResponse (uint32 (RrRegistered res)) (RrSkipped res) (RrRoleErrors res) (uint32 (RrRolesUpserted res)) (RrRolesRetired res) (uint32 (RrGrantsRevoked res)).

Lemma peer_id_nonempty id m : ModuleFromSPIFFE id = Ok m → id ≠ "" ∧ m ≠ "".
Proof.
  intros E. split; [by intros ->|]. intros ->. unfold ModuleFromSPIFFE in E. destruct (cut_prefix _ id); [|done]. destruct (cut _ _) as [[td path]|]; [|done].
  case_bool_decide; [done|]. destruct (cut_prefix _ path) as [name|]; [|done]. destruct (ValidModule name) eqn:Ev; [|done]. injection E as ->. by vm_compute in Ev.
Qed.
Lemma check_grants_ok own l : (∀ g, g ∈ l → BgRole g ∈ BuiltinRoleSlugs ∧ ∀ p, p ∈ BgPermissions g → p ∈ own) → check_grants true own l = None.
Proof.
  induction l as [|g l IH]; intros Hl; [done|]. cbn [check_grants]. destruct (Hl g ltac:(by left)) as [H1 H2]. rewrite (bool_decide_eq_true_2 _ H1). cbn [negb orb].
  assert (forallb (λ p, bool_decide (p ∈ own)) (BgPermissions g) = true) as ->.
  { apply forallb_forall. intros p Hp%list_elem_of_In. rewrite bool_decide_eq_true_2; auto. }
  apply IH. intros x Hx. apply Hl. by right.
Qed.

(** C10. A module that registers with the SDK is not refused for the form of its
    registration: when Validate accepts it, and its display name carries no
    outer space, the call reaches the registration of that module, every role
    it declares is taken and none is reported as an error. *)
Theorem sdk_registration_accepted r id ctx w tenants : SdkValidate r = None → TrimSpace (SrDisplayName r) = SrDisplayName r →
  ModuleFromSPIFFE id = Ok (SrModule r) → SrModule r ≠ gateway_name →
  tenants = (if (length (SrTenantIDs r) =? 0)%nat then match serverTenants with Some (Ok l) => l | _ => ["?"] end else SrTenantIDs r) → forallb ValidTenantID tenants = true →
  ∃ reg defs, validate reg = Ok (defs, []) ∧ (RdSlug <$> defs) = (MrSlug <$> SrRoles r) ∧
    RgModule reg = SrModule r ∧ RgPermissions reg = SrPermissions r ∧ RgDelegate reg = "" ∧ RgTenants reg = tenants ∧
    ApiRegister newID PlatformTenant Gateway serverTenants true true (Some id) ctx (SdkRequest r) w =
      (res <- orDecisionError (RegisterM (WithActor ctx (ActorFromService id)) reg) ;; ret (answer_of res)) w.
Proof.
  intros Hv%Validate_fine Ht Hid Hgw Htn Hten. destruct (peer_id_nonempty _ _ Hid) as [Hne Hm]. set (c := mkCaller id (SrModule r) false).
  destruct (sent_valid r c tenants Hv Ht) as (defs & Hd & Hs). destruct Hv as [H1 H2 [H3 H3'] H4 _ H6 H7].
  exists (registration_of c (SrModule r) tenants (SdkRequest r)), defs. split_and!; try done.
  unfold ApiRegister, serviceCtx. rewrite Hid. fold gateway_name. rewrite (bool_decide_eq_false_2 _ Hgw). fold c. cbn [ClID ClModule ClGateway c RqModule RqGrants RqRoles RqPermissions RqTenantIDs RqDeclaresRoles SdkRequest].
  rewrite (bool_decide_eq_false_2 _ Hne), (bool_decide_eq_false_2 _ Hm), (bool_decide_eq_true_2 (SrModule r = SrModule r)), H1 by done. cbn [negb andb].
  rewrite length_fmap, (proj2 (Nat.ltb_ge _ _) H3), (proj2 (Nat.ltb_ge _ _) H3'). cbn [orb]. rewrite check_grants_ok by exact H6.
  assert (Hten' : (if (length (SrTenantIDs r) =? 0)%nat
              then match serverTenants with None => throw (statusErr "InvalidArgument" "tenant_ids required") | Some (Err _) => throw (statusErr "Unavailable" "tenants unavailable") | Some (Ok l) => ret l end
              else ret (SrTenantIDs r)) w = (Ok tenants, w)).
  { subst tenants. destruct (_ =? 0)%nat; [|done]. destruct serverTenants as [[l|]|]; [done|by vm_compute in Hten..]. }
  unfold bind at 1. rewrite Hten'. rewrite Hten. done.
Qed.
End ApiFacts.

(** ** What a caller of the authorization API can reach

    The module a service may ask about or register for is the one its verified
    identity names; only the gateway may name another, and then it can hand
    out nothing but what that module already had in its legacy form. *)
From S2P Require Import Prelude GoStrings Regex PermRef TenantCtx Models Cache AuditEvents Session MemStore SessionSafety.
From S2P Require Import Fga MemRoles AuthzClient AuthzServices MemModules Modules PermVerify AuthzApi AuthzFacts Mirror AuthzSafety ModuleSafety.
#[local] Open Scope list_scope.
#[local] Open Scope go_scope.
#[local] Set Default Proof Using "Type".

Section ApiConfined.
Context {B K : Type} `{BackendLaws B} `{KVLaws K}.
Context (newID : nat → string) `{!Inj (=) (=) newID}.
Context (PlatformTenant Gateway : string) (serverTenants : option (result (list string))) (hasRoles hasModules : bool).
Notation W := (MW B K).
Notation Good := (Good newID).
Notation keepsM := (keepsM newID).
Notation gateway := (gateway_name Gateway).
Implicit Types (w x : W).

Lemma orDecision_ok {A} (m : M W A) x a x' : orDecisionError m x = (Ok a, x') → m x = (Ok a, x').
Proof.
  unfold orDecisionError. intros (r & x1 & E1 & E2)%bind_ok_inv. unfold attempt in E1. destruct (m x) as [r' x2]. injection E1 as <- <-. by destruct r'; [injection E2 as -> <-|].
Qed.
Lemma keepsM_or T P {A} (m : M W A) : keepsM T P m → keepsM T P (orDecisionError m).
Proof. intros Hm x a x' HG HC E%orDecision_ok. by eapply Hm. Qed.

(** The references a registration by the service [m] may give to users. *)
Definition may_give (m : string) (req : RegisterRequest) (p : Ref) : Prop :=
  if bool_decide (m = gateway) then RModule p = RqModule req ∧ RqModule req ≠ "" ∧ RqModule req ≠ "auth"
  else own_or_twin m (concat (BgPermissions <$> RqGrants req)) p.
(** The tenants it is for. *)
Definition meant_for (req : RegisterRequest) (tid : string) : Prop := RqTenantIDs req ≠ [] → tid ∈ RqTenantIDs req.

Lemma tenants_of_request {C} T P req (f : list string → M W C) : (∀ l, (∀ t, t ∈ l → meant_for req t) → keepsM T P (f l)) →
  keepsM T P (tenants <- (if (length (RqTenantIDs req) =? 0)%nat
              then match serverTenants with
                   | None => throw (statusErr "InvalidArgument" "tenant_ids required")
                   | Some (Err _) => throw (statusErr "Unavailable" "tenants unavailable")
                   | Some (Ok l) => ret l
                   end
              else ret (RqTenantIDs req)) ;; f tenants).
Proof.
  intros Hf x a x' HG HC E. unfold bind in E. destruct (_ =? 0)%nat eqn:El.
  - destruct serverTenants as [[l|]|]; [|done..]. apply (Hf l) in E; [done| |done|done]. intros t _ Hne. apply Nat.eqb_eq, length_zero_iff_nil in El. done.
  - apply (Hf _) in E; [done| |done|done]. by intros t Ht _.
Qed.

(** The registration the API makes for the service. *)
Lemma registration_keepsM m c module tenants req ctx :
  (∀ t, t ∈ tenants → meant_for req t) →
  (bool_decide (m = gateway) = true → module = RqModule req ∧ module ≠ "" ∧ module ≠ "auth" ∧ RqGrants req = []) →
  (bool_decide (m = gateway) = false → module = m) →
  keepsM (meant_for req) (may_give m req) (Modules.Register newID PlatformTenant ctx (registration_of c module tenants req)).
Proof using Inj0.
  intros Ht Hgw Hown. eapply keepsM_weaken; [| |apply Register_keepsM; done]; [exact Ht|]. intros p Hp. cbn [RgModule RgGrants registration_of] in Hp.
  unfold may_give. destruct (bool_decide (m = gateway)) eqn:Em; [|by rewrite Hown in Hp].
  destruct (Hgw eq_refl) as (Hm & Hn1 & Hn2 & Hg). rewrite Hg in Hp. destruct Hp as [<-|[_ Hp]]; [|by apply elem_of_nil in Hp]. by rewrite <- Hm.
Qed.

Lemma ApiRegister_keepsM id m ctx req : ModuleFromSPIFFE id = Ok m →
  keepsM (meant_for req) (may_give m req) (ApiRegister newID PlatformTenant Gateway serverTenants hasRoles hasModules (Some id) ctx req).
Proof using Inj0.
  intros Hid. destruct (peer_id_nonempty _ _ Hid) as [Hne Hm]. unfold ApiRegister, serviceCtx. rewrite Hid. fold gateway. cbn [ClID ClModule ClGateway].
  rewrite (bool_decide_eq_false_2 _ Hne), (bool_decide_eq_false_2 _ Hm). set (gw := bool_decide (m = gateway)).
  destruct (negb _ && _); [apply keepsM_throw|]. destruct (negb (bool_decide (RqModule req = "")) && negb (bool_decide (RqModule req = m)) && negb gw) eqn:Eown.
  { apply keepsM_bind; [apply keepsM_emit|intros; apply keepsM_throw]. }
  destruct (gw && (_ || _ || _ || _)) eqn:Egw; [apply keepsM_throw|]. destruct ((_ <? _)%nat || _); [apply keepsM_throw|]. destruct (check_grants _ _ _); [apply keepsM_throw|].
  destruct (gw && bool_decide (RqModule req = "auth")) eqn:Eauth; [apply keepsM_ret|]. refine (tenants_of_request _ _ req _ _). intros l Hl.
  destruct (negb (forallb _ _)); [apply keepsM_throw|]. destruct (gw && bool_decide (RqModule req = "")) eqn:Eleg.
  - apply keepsM_bind; [|intros; apply keepsM_ret]. apply keepsM_fold_each. intros n tid _. apply keepsM_bind; [|intros; apply keepsM_ret]. apply keepsM_or, register_keepsM.
  - destruct (negb hasModules); [apply keepsM_throw|]. apply keepsM_bind; [|intros; apply keepsM_ret]. apply keepsM_or, registration_keepsM; [exact Hl|..]; fold gw; intros Hg; rewrite Hg in *; cbn [andb negb] in *.
    + apply bool_decide_eq_false in Eauth, Eleg. rewrite (bool_decide_eq_false_2 _ Eleg). split_and!; try done.
      apply orb_false_iff in Egw as [[_ Egw]%orb_false_iff _]. apply negb_false_iff, Nat.eqb_eq, length_zero_iff_nil in Egw. exact Egw.
    + case_bool_decide as E0; [done|]. cbn [negb andb] in Eown. rewrite andb_true_r in Eown. apply negb_false_iff, bool_decide_eq_true in Eown. exact Eown.
Qed.

(** C9. A service reaches only its own module.  A registration that is answered
    came from a verified service identity; it leaves rows and tuples in step and
    every role assignment as it was, and a user gains by it only in the tenants
    of the request, and only references of the module the identity names (or
    the legacy form of one it grants to a built-in role).  The gateway may name
    another module, except auth's, and gives nothing but references of that
    module; without a module it gives nothing. *)
Theorem api_registration_confined peer ctx req w out w' :
  ApiRegister newID PlatformTenant Gateway serverTenants hasRoles hasModules peer ctx req w = (Ok out, w') → Good (mw_az w) → CatInv (mw_cat w) →
  ∃ id m, peer = Some id ∧ ModuleFromSPIFFE id = Ok m ∧ Good (mw_az w') ∧ CatInv (mw_cat w') ∧
    (∀ tid uid p, ValidTenantID tid = true → wf_ref p = true → can tid uid (tuplesW (mw_az w')) p →
       can tid uid (tuplesW (mw_az w)) p ∨ meant_for req tid ∧ may_give m req p) ∧
    (∀ tid uid rid, holds_role (az_st (mw_az w')) tid uid rid ↔ holds_role (az_st (mw_az w)) tid uid rid).
Proof using Inj0.
  intros E HG HC. destruct peer as [id|]; [|done]. destruct (ModuleFromSPIFFE id) as [m|] eqn:Hid.
  - exists id, m. destruct (ApiRegister_keepsM id m ctx req Hid w out w' HG HC E) as [S HC']. pose proof (sp_good _ _ _ _ _ S) as HG'.
    split_and!; try done; [|intros; apply holds_rest, S]. intros tid uid p Hv Hw Hcan.
    apply (can_iff (az_st (mw_az w'))) in Hcan; [|apply HG'|apply HG'|done|done]. destruct (stepped_gain newID _ _ _ _ tid uid p HG S Hcan) as [Hold|?]; [left|by right].
    by apply (can_iff (az_st (mw_az w))); [apply HG|apply HG|..].
  - exfalso. unfold ApiRegister, serviceCtx in E. rewrite Hid in E. cbn [ClID ClModule] in E. by destruct (bool_decide (id = "")).
Qed.
(** ** Checks *)
Lemma checkModule_own c q m : checkModule c q = Ok m → if ClGateway c then m = q else m = ClModule c.
Proof.
  unfold checkModule. destruct (ClGateway c); rewrite ?andb_true_r, ?andb_false_r.
  - case_bool_decide; [by intros [= <-]|]. destruct (negb _); [done|]. by intros [= <-].
  - case_bool_decide; [by intros [= <-]|]. destruct (negb _); [done|]. cbn [orb]. case_bool_decide; [|done]. intros [= <-]. done.
Qed.
(** A reference asked for: the resource and action of the request, in the
    caller's module; for the gateway in the module it names. *)
Definition asked (c : caller) (module res act : string) (ref : Ref) : Prop :=
  Short ref = res +:+ ":" +:+ act ∧ RModule ref = (if ClGateway c then module else ClModule c) ∧ ValidResource (RResource ref) = true ∧ ValidAction (RAction ref) = true.
Lemma legacy_asked c q m res act ref : checkModule c q = Ok m → ParsePermissionRef (res +:+ ":" +:+ act) = Ok ref → IsLegacy ref = true → asked c q res act (WithModule ref m).
Proof.
  intros Hm%checkModule_own Hp Hl. unfold ParsePermissionRef in Hp. destruct (ParseAny _) as [r|] eqn:Ep; [|done]. injection Hp as ->.
  rewrite ParseAny_parts in Ep. apply of_parts_ok in Ep as [Hw Hs]. assert (Es : Short ref = res +:+ ":" +:+ act).
  { transitivity (RefString ref); [by unfold RefString; rewrite Hl|]. by rewrite <- RefString_parts, <- Hs, join_split. }
  apply andb_true_iff in Hw as [[_ H1']%andb_true_iff H2']. split_and!; [exact Es| |done|done]. cbn. by destruct (ClGateway c).
Qed.
Lemma ask_refs_asked c l refs : ask_refs c l = Ok refs → Forall2 (λ a ref, asked c (PaModule a) (PaResource a) (PaAction a) ref) l refs.
Proof.
  revert refs. induction l as [|a l IH]; intros refs; cbn [ask_refs]; [intros [= <-]; constructor|].
  destruct (checkModule c (PaModule a)) as [m|] eqn:Em; [|done]. cbn [rbind]. destruct (ParsePermissionRef _) as [ref|] eqn:Ep; [|done].
  destruct (IsLegacy ref) eqn:El; [|done]. cbn [negb]. destruct (ask_refs c l) as [rs|]; [|done]. intros [= <-]. constructor; [by apply legacy_asked|by apply IH].
Qed.

(** A batch of checks is answered by one batch decision, on one well-formed
    reference per question and in its order: the resource and action asked for,
    in the caller's own module whatever module it names (the gateway: in the
    module it names). *)
Theorem api_checks_own_module peer ctx tid uid asks w ds w' :
  ApiBatchCheck Gateway peer ctx tid uid asks w = (Ok ds, w') →
  let '(ctx', c) := serviceCtx Gateway peer ctx in
  ∃ refs, BatchDecide ctx' tid uid refs (mw_az w) = (Ok ds, mw_az w') ∧ mw_cat w' = mw_cat w ∧ ValidTenantID tid = true ∧ uid ≠ "" ∧
    Forall2 (λ a ref, asked c (PaModule a) (PaResource a) (PaAction a) ref) asks refs.
Proof.
  unfold ApiBatchCheck. destruct (serviceCtx Gateway peer ctx) as [ctx' c]. destruct (_ || _) eqn:Eg; [done|].
  intros (refs & x1 & E1 & E2)%bind_ok_inv. unfold lift in E1. destruct (ask_refs c asks) as [rs|] eqn:Er; [|done]. injection E1 as <- <-.
  apply orDecision_ok, azL_ok in E2 as (w1 & E2 & ->). exists rs. apply orb_false_iff in Eg as [[[Ev%negb_false_iff Eu%bool_decide_eq_false]%orb_false_iff _]%orb_false_iff _].
  split_and!; [exact E2|done|done|done|by apply ask_refs_asked].
Qed.
End ApiConfined.
