(* ===== verification/PruneSafety.v ===== *)
(** * The permission catalogue, and what pruning keeps

    The permission catalogue of the role editor (internal/authz/registry.go):
    what an administrator is shown when choosing the permissions of a role.
    Then the theorems on the pruning of legacy permissions. *)
From stdpp Require Import sorting.
From S2P Require Import Prelude GoStrings Regex PermRef TenantCtx Models Cache AuditEvents Session MemStore.
From S2P Require Import Fga MemRoles AuthzClient AuthzServices MemModules Modules AuthzFacts AuthzSafety ModuleSafety.
#[local] Open Scope list_scope.
#[local] Open Scope go_scope.

Definition AuthModule : string := "auth".
Definition AuthDisplayName : string := "Authentication".
Definition LegacyDisplayName : string := "Before modules".
Record CatalogueEntry : Type := mkEntry {
  CeRef : string; CeModule : string; CeModuleDisplayName : string; CeResource : string; CeAction : string;
  CeDescription : string; CeGrantable : bool; CeLegacy : bool }.
Definition set_grantable (e : CatalogueEntry) (b : bool) : CatalogueEntry :=
  mkEntry (CeRef e) (CeModule e) (CeModuleDisplayName e) (CeResource e) (CeAction e) (CeDescription e) b (CeLegacy e).
Definition entry_ref (e : CatalogueEntry) : Ref := mkRef (CeModule e) (CeResource e) (CeAction e).

Definition ModuleDisplayNames (mods : list Module_) : gmap string string * gset string :=
  foldl (λ '(names, retired) m,
    (if negb (bool_decide (MdName m = AuthModule)) || negb (bool_decide (MdDisplayName m = MdName m)) then <[MdName m := MdDisplayName m]> names else names,
     if bool_decide (MdRetiredAt m = None) then retired else {[MdName m]} ∪ retired))
  ({[AuthModule := AuthDisplayName]}, ∅) mods.
Definition DisplayName (names : gmap string string) (m : string) : string :=
  if bool_decide (m = "") then LegacyDisplayName else
  match names !! m with Some n => if bool_decide (n = "") then m else n | None => m end.

Definition str_ltb (a b : string) : bool := String.leb a b && negb (bool_decide (a = b)).
(** The less function of the sort. *)
Definition entry_less (a b : CatalogueEntry) : bool :=
  if negb (Bool.eqb (CeLegacy a) (CeLegacy b)) then negb (CeLegacy a)
  else if negb (bool_decide (CeModuleDisplayName a = CeModuleDisplayName b)) then str_ltb (CeModuleDisplayName a) (CeModuleDisplayName b)
  else if negb (bool_decide (CeModule a = CeModule b)) then str_ltb (CeModule a) (CeModule b)
  else if negb (bool_decide (CeResource a = CeResource b)) then str_ltb (CeResource a) (CeResource b)
  else str_ltb (CeAction a) (CeAction b).
Definition entry_le (a b : CatalogueEntry) : Prop := entry_less b a = false.
#[export] Instance entry_le_dec : RelDecision entry_le.
Proof. intros a b. unfold entry_le. apply _. Defined.

Definition catalogue_rows (mods : list Module_) (rows : list Permission) : list CatalogueEntry :=
  let '(names, retired) := ModuleDisplayNames mods in
  merge_sort entry_le
    ((λ p, mkEntry (RefString (PermissionRefOf p)) (PModule p) (DisplayName names (PModule p)) (PResource p) (PAction p) (PDescription p) false
             (bool_decide (PModule p = ""))) <$> filter (λ p, PModule p ∉ retired) rows).

Section Catalogue.
Context {B K : Type} `{Backend B} `{KV K}.
Notation W := (AZ B K).
Notation MWD := (MW B K).

(** The entries, marked a chunk at a time. *)
Fixpoint mark (fuel : nat) (ctx : Ctx) (tid uid : string) (out : list CatalogueEntry) : M W (list CatalogueEntry) :=
  match fuel with
  | O => ret []
  | S n =>
      if bool_decide (out = []) then ret [] else
      let chunk := take MaxTuplesPerWrite out in
      held <- AllowedMany ctx tid uid (entry_ref <$> chunk) ;;
      rest <- mark n ctx tid uid (drop MaxTuplesPerWrite out) ;;
      ret (zip_with set_grantable chunk held ++ rest)
  end.
Definition Catalogue (ctx : Ctx) (tid : string) (actor : Actor) : M MWD (list CatalogueEntry) :=
  azL (requireM ctx tid) ;;;
  rows <- azL (stM (ListPermissions tid)) ;;
  mods <- catR Modules ;;
  let out := catalogue_rows mods rows in
  if bool_decide (AKind actor = KindSystem) || hasSlug (ARoles actor) "owner"
  then ret ((λ e, set_grantable e true) <$> out)
  else azL (mark (length out) ctx tid (AUserID actor) out).
End Catalogue.

(** ** What the editor shows *)
Lemma elem_of_retired mods m : m ∈ (ModuleDisplayNames mods).2 ↔ ∃ x, x ∈ mods ∧ MdName x = m ∧ MdRetiredAt x ≠ None.
Proof.
  unfold ModuleDisplayNames. generalize ({[AuthModule := AuthDisplayName]} : gmap string string). intros names.
  assert (Hg : ∀ names s, m ∈ (foldl (λ '(names, retired) m,
    (if negb (bool_decide (MdName m = AuthModule)) || negb (bool_decide (MdDisplayName m = MdName m)) then <[MdName m := MdDisplayName m]> names else names,
     if bool_decide (MdRetiredAt m = None) then retired else {[MdName m]} ∪ retired)) ((names, s) : gmap string string * gset string) mods).2 ↔
     m ∈ s ∨ ∃ x, x ∈ mods ∧ MdName x = m ∧ MdRetiredAt x ≠ None); [|rewrite Hg; set_solver].
  clear names. induction mods as [|y mods IH]; intros names s; cbn [foldl]; [set_solver|]. rewrite IH. case_bool_decide; set_solver.
Qed.
Lemma str_ltb_asym a b : str_ltb a b = true → str_ltb b a = false.
Proof.
  unfold str_ltb. intros [Hl Hn]%andb_true_iff. destruct (String.leb b a) eqn:E; [|done]. rewrite (String.leb_antisym _ _ Hl E) in *.
  by rewrite bool_decide_eq_true_2 in Hn.
Qed.
Lemma entry_less_asym a b : entry_less a b = true → entry_less b a = false.
Proof.
  unfold entry_less.
  rewrite (bool_decide_ext (CeModuleDisplayName b = _) (CeModuleDisplayName a = CeModuleDisplayName b)) by (split; congruence).
  rewrite (bool_decide_ext (CeModule b = _) (CeModule a = CeModule b)) by (split; congruence).
  rewrite (bool_decide_ext (CeResource b = _) (CeResource a = CeResource b)) by (split; congruence).
  destruct (CeLegacy a), (CeLegacy b); cbn [Bool.eqb negb]; try done; repeat case_bool_decide; cbn [negb]; apply str_ltb_asym.
Qed.
#[export] Instance entry_le_total : Total entry_le.
Proof. intros a b. unfold entry_le. destruct (entry_less b a) eqn:E; [right; by apply entry_less_asym|by left]. Qed.

(** Rows and entries: the marks are not looked at. *)
Definition unmarked (e : CatalogueEntry) : CatalogueEntry := set_grantable e false.
Lemma Sorted_unmarked l : Sorted entry_le (unmarked <$> l) → Sorted entry_le l.
Proof.
  induction l as [|a l IH]; [done|]. rewrite fmap_cons. inversion 1 as [|? ? Hs Hd]; subst. constructor; [by apply IH|].
  destruct l as [|b l]; [done|]. rewrite fmap_cons in Hd. inversion Hd; subst. by constructor.
Qed.

Section CatalogueFacts.
Context {B K : Type} `{BackendLaws B} `{KVLaws K}.
Notation W := (AZ B K).
Notation MWD := (MW B K).

Lemma mark_ok ctx tid uid : ∀ fuel out (w : W) out' w', (length out <= fuel)%nat → mark fuel ctx tid uid out w = (Ok out', w') →
  same w w' ∧ Forall2 (λ e e', e' = set_grantable e (CeGrantable e') ∧ (CeGrantable e' = true ↔ can tid uid (tuplesW w) (entry_ref e))) out out'.
Proof.
  induction fuel as [|n IH]; intros out w out' w' Hn E; cbn [mark] in E.
  { destruct out; [|cbn in Hn; lia]. injection E as <- <-. by split. }
  case_bool_decide as Ho; [injection E as <- <-; subst; by split|]. apply bind_ok_inv in E as (held & w1 & E1 & E).
  apply AllowedMany_ok in E1 as (Hs & _ & Hh). apply bind_ok_inv in E as (rest & w2 & E2 & E). injection E as <- <-.
  apply IH in E2 as [Hs2 Hr]; [|rewrite length_drop; destruct out; [done|unfold MaxTuplesPerWrite; cbn in *; lia]].
  split; [by eapply same_trans|]. rewrite <- (take_drop MaxTuplesPerWrite out) at 1. destruct (Hs) as [_ Et _ _]. rewrite Et in Hr. apply Forall2_app; [|done].
  rewrite Forall2_fmap_l in Hh. clear -Hh. induction Hh as [|e b l l' Hb Hl IHl]; [constructor|]. by constructor.
Qed.

Lemma elem_of_catalogue_rows mods rows e : e ∈ catalogue_rows mods rows ↔ ∃ row, row ∈ rows ∧ PModule row ∉ (ModuleDisplayNames mods).2 ∧
  e = mkEntry (RefString (PermissionRefOf row)) (PModule row) (DisplayName (ModuleDisplayNames mods).1 (PModule row)) (PResource row) (PAction row) (PDescription row) false
        (bool_decide (PModule row = "")).
Proof.
  unfold catalogue_rows. destruct (ModuleDisplayNames mods) as [names retired]. rewrite merge_sort_Permutation, list_elem_of_fmap. cbn [fst snd].
  setoid_rewrite list_elem_of_filter. naive_solver.
Qed.
Lemma elem_of_sorted_rows (l : list Permission) row : row ∈ merge_sort perm_le l ↔ row ∈ l.
Proof. by rewrite merge_sort_Permutation. Qed.
(** The entries with their marks. *)
Definition marked (P : Ref → Prop) (rows out : list CatalogueEntry) : Prop :=
  Forall2 (λ e e', e' = set_grantable e (CeGrantable e') ∧ (CeGrantable e' = true ↔ P (entry_ref e))) rows out.
Lemma marked_elem P rows out e' : marked P rows out → e' ∈ out → ∃ e, e ∈ rows ∧ entry_ref e' = entry_ref e ∧ CeRef e' = CeRef e ∧ (CeGrantable e' = true ↔ P (entry_ref e')).
Proof.
  intros Hm [i Hi]%list_elem_of_lookup. destruct (Forall2_lookup_r _ _ _ _ _ Hm Hi) as (e & He & Ee & Hg). exists e. rewrite Ee. cbn.
  split; [by eapply list_elem_of_lookup_2|]. split; [done|]. split; [done|]. exact Hg.
Qed.
Lemma marked_back P rows out e : marked P rows out → e ∈ rows → ∃ e', e' ∈ out ∧ entry_ref e' = entry_ref e.
Proof.
  intros Hm [i Hi]%list_elem_of_lookup. destruct (Forall2_lookup_l _ _ _ _ _ Hm Hi) as (e' & He & Ee & _). exists e'. split; [by eapply list_elem_of_lookup_2|]. by rewrite Ee.
Qed.
Lemma marked_sorted P mods rows out : marked P (catalogue_rows mods rows) out → Sorted entry_le out.
Proof.
  intros Hm. apply Sorted_unmarked. assert (unmarked <$> out = unmarked <$> catalogue_rows mods rows) as ->.
  { induction Hm as [|e e' l l' [Ee _] _ IH]; [done|]. rewrite !fmap_cons, IH. f_equal. by rewrite Ee. }
  assert (Hu : unmarked <$> catalogue_rows mods rows = catalogue_rows mods rows).
  { rewrite <- (list_fmap_id (catalogue_rows mods rows)) at 2. apply list_fmap_ext. intros i e He.
    apply list_elem_of_lookup_2, elem_of_catalogue_rows in He as (row & _ & _ & ->). done. }
  rewrite Hu. unfold catalogue_rows. destruct (ModuleDisplayNames mods). apply Sorted_merge_sort. apply _.
Qed.
Lemma Catalogue_ok ctx tid actor (x x' : MWD) out : Catalogue ctx tid actor x = (Ok out, x') →
  same (mw_az x) (mw_az x') ∧ mw_cat x' = mw_cat x ∧
  marked (λ p, AKind actor = KindSystem ∨ hasSlug (ARoles actor) "owner" = true ∨ can tid (AUserID actor) (tuplesW (mw_az x)) p)
    (catalogue_rows (Modules (mw_cat x)) (merge_sort perm_le (default [] (Permissions (az_st (mw_az x)) !! tid)))) out.
Proof.
  intros E. unfold Catalogue in E. apply bind_ok_inv in E as (u & x1 & E1 & E). apply azL_ok in E1 as (w1 & E1 & ->). apply requireM_ok in E1 as [-> _].
  apply bind_ok_inv in E as (rows & x1 & E1 & E). apply azL_ok in E1 as (w1 & E1 & ->). apply stM_read in E1 as [-> E1]; [|apply reads_intro]. injection E1 as <-.
  apply bind_ok_inv in E as (mods & x1 & E1 & E). injection E1 as <- <-. cbn [mw_az mw_cat] in E. cbv zeta in E.
  destruct (bool_decide (AKind actor = KindSystem) || hasSlug (ARoles actor) "owner") eqn:Eo.
  - injection E as <- <-. split; [done|]. split; [done|]. unfold marked. apply Forall2_fmap_r, Forall_Forall2_diag, Forall_forall. intros e _. split; [done|].
    apply orb_true_iff in Eo as [?%bool_decide_eq_true|?]; cbn; tauto.
  - apply orb_false_iff in Eo as [Ek%bool_decide_eq_false Eo]. apply azL_ok in E as (w1 & E & ->). apply mark_ok in E as [Hs Hf]; [|done]. split; [done|]. split; [done|].
    eapply Forall2_impl; [exact Hf|]. intros e e' [Ee Hg]. split; [done|]. rewrite Hg, Eo. naive_solver.
Qed.

(** The role editor shows what the rules allow.  The listing has an entry for
    each permission of the tenant, those of retired modules left out, in the
    order of the sort; an entry is marked as grantable exactly when the actor is
    an owner, the system, or holds the permission; nothing is changed. *)
Theorem catalogue_marks_grantable ctx tid actor (x x' : MWD) out :
  Catalogue ctx tid actor x = (Ok out, x') →
  same (mw_az x) (mw_az x') ∧ mw_cat x' = mw_cat x ∧ Sorted entry_le out ∧
  (∀ row, row ∈ default [] (Permissions (az_st (mw_az x)) !! tid) →
     (∃ e, e ∈ out ∧ entry_ref e = PermissionRefOf row) ∨ ∃ m, m ∈ Modules (mw_cat x) ∧ MdName m = PModule row ∧ MdRetiredAt m ≠ None) ∧
  ∀ e, e ∈ out →
    (∃ row, row ∈ default [] (Permissions (az_st (mw_az x)) !! tid) ∧ entry_ref e = PermissionRefOf row ∧ CeRef e = RefString (PermissionRefOf row) ∧
       ∀ m, m ∈ Modules (mw_cat x) → MdName m = PModule row → MdRetiredAt m = None) ∧
    (CeGrantable e = true ↔ AKind actor = KindSystem ∨ hasSlug (ARoles actor) "owner" = true ∨ can tid (AUserID actor) (tuplesW (mw_az x)) (entry_ref e)).
Proof.
  intros E. apply Catalogue_ok in E as (Hs & Hc & Hm). split; [done|]. split; [done|]. split; [by eapply marked_sorted|]. split.
  - intros row Hrow. destruct (decide (PModule row ∈ (ModuleDisplayNames (Modules (mw_cat x))).2)) as [Hr|Hr]; [right; by apply elem_of_retired|left].
    pose proof (marked_back _ _ _ _ Hm (proj2 (elem_of_catalogue_rows _ _ _) (ex_intro _ row (conj (proj2 (elem_of_sorted_rows _ _) Hrow) (conj Hr eq_refl))))) as (e' & He' & Ee).
    by exists e'.
  - intros e He. destruct (marked_elem _ _ _ _ Hm He) as (e0 & He0 & Er & Et & Hg). split; [|exact Hg].
    apply elem_of_catalogue_rows in He0 as (row & Hrow & Hret & ->). rewrite merge_sort_Permutation in Hrow. exists row. split_and!; [done..|].
    intros m Hin Hn. destruct (MdRetiredAt m) eqn:Em; [|done]. exfalso. apply Hret, elem_of_retired. exists m. by rewrite Em.
Qed.
End CatalogueFacts.

(** ** Pruning the legacy permissions loses no access *)
From S2P Require Import Prelude GoStrings Regex PermRef TenantCtx Models Cache AuditEvents Session MemStore SessionSafety.
From S2P Require Import Fga MemRoles AuthzClient AuthzServices MemModules Modules PermVerify AuthzFacts Mirror AuthzSafety ModuleSafety.
#[local] Open Scope list_scope.
#[local] Open Scope go_scope.
#[local] Set Default Proof Using "Type".

Section PruneSafety.
Context {B K : Type} `{BackendLaws B} `{KVLaws K}.
Context (newID : nat → string) (SampleUsers : Z).
Notation W := (AZ B K).
Notation Good := (Good newID).
Implicit Types (w : W) (st : Store) (tid uid slug : string).

(** ** What is read *)
Definition unmoved {A} (m : M W A) : Prop := ∀ w a w', m w = (Ok a, w') → w' = w.
Lemma unmoved_ret {A} (a : A) : unmoved (ret a).
Proof. by intros w x w' [= _ <-]. Qed.
Lemma unmoved_gets {A} (f : W → A) : unmoved (gets f).
Proof. by intros w x w' [= _ <-]. Qed.
Lemma unmoved_read {A} (m : M Store A) : reads m → unmoved (stM m).
Proof. intros Hr w a w' E. by apply stM_read in E as [-> _]. Qed.
Lemma unmoved_bind {A C} (m : M W A) (f : A → M W C) : unmoved m → (∀ a, unmoved (f a)) → unmoved (bind m f).
Proof. intros Hm Hf w c w' E. apply bind_ok_inv in E as (a & w1 & E1 & E2). apply Hm in E1 as ->. by apply Hf in E2. Qed.
Lemma unmoved_fold {A C} (l : list A) (f : C → A → M W C) : (∀ c a, unmoved (f c a)) → ∀ c, unmoved (fold_each l c f).
Proof. intros Hf. induction l as [|x l IH]; intros c; [apply unmoved_ret|]. apply unmoved_bind; [apply Hf|apply IH]. Qed.
Lemma unmoved_users fuel tid grants : ∀ after users, unmoved (load_users fuel tid grants after users).
Proof.
  induction fuel as [|n IH]; intros after users; cbn [load_users]; [apply unmoved_ret|]. apply unmoved_bind; [by apply unmoved_read|]. intros ids.
  apply unmoved_bind.
  - apply unmoved_fold. intros c uid. unfold load_user. apply unmoved_bind; [by apply unmoved_read|]. intros rows. apply unmoved_ret.
  - intros users'. destruct (last ids); [destruct (_ <? _)%nat; [apply unmoved_ret|apply IH]|apply unmoved_ret].
Qed.

(** The part of a loaded state the roles are checked with. *)
Record loaded tid st (s : tenantState) : Prop := mkLoaded {
  ld_roles : ∀ r, r ∈ vs_roles s ↔ role_in st tid (RoID r) = Some r;
  ld_grants : ∀ r, r ∈ vs_roles s → ∀ p, p ∈ grants_of s (RoID r) ↔ p ∈ role_perms st (RoID r);
  ld_scoped : ∀ short m, m ∈ scopedBy s short ↔ ∃ row, row ∈ default [] (Permissions st !! tid) ∧ PModule row ≠ "" ∧ PModule row = m ∧ Short (PermissionRefOf row) = short;
}.
Lemma load_roles_ok tid l : ∀ g w g' w', NoDup (RoID <$> l) → fold_each l g (load_role tid) w = (Ok g', w') →
  w' = w ∧ (∀ id, id ∉ RoID <$> l → g' !! id = g !! id) ∧ ∀ r, r ∈ l → g' !! RoID r = Some (dedup_from [] (role_perms (az_st w) (RoID r))).
Proof.
  induction l as [|x l IH]; intros g w g' w' Hn E; cbn [fold_each] in E.
  { injection E as <- <-. split; [done|]. split; [done|]. intros r Hr. by apply elem_of_nil in Hr. }
  apply bind_ok_inv in E as (g1 & w1 & E1 & E2). unfold load_role in E1. apply bind_ok_inv in E1 as (ps & w2 & E3 & E4).
  apply RolePermissions_ok in E3 as (-> & -> & _). injection E4 as <- <-. rewrite fmap_cons in Hn. apply NoDup_cons in Hn as [Hx Hn].
  destruct (IH _ _ _ _ Hn E2) as (-> & Ho & Hl). split; [done|]. split.
  - intros id Hid. rewrite fmap_cons, not_elem_of_cons in Hid. rewrite Ho by apply Hid. rewrite lookup_insert_ne; [done|]. intros Eid. by apply (proj1 Hid).
  - intros r [->|Hr]%elem_of_cons; [|by apply Hl]. rewrite Ho by done. by rewrite lookup_insert_eq.
Qed.
Lemma load_ok tid w s w' : RoleInv (az_st w) → load tid w = (Ok s, w') → w' = w ∧ loaded tid (az_st w) s.
Proof.
  intros HI E. unfold load in E. apply bind_ok_inv in E as (perms & w1 & E1 & E). apply stM_read in E1 as [-> E1]; [|apply reads_intro].
  apply bind_ok_inv in E as (roles & w1 & E2 & E). apply stM_read in E2 as [-> E2]; [|apply reads_intro].
  apply bind_ok_inv in E as (grants & w1 & E3 & E). apply load_roles_ok in E3 as (-> & _ & Hg); [|by eapply NoDup_ListRoles].
  apply bind_ok_inv in E as (n & w1 & E4 & E). apply unmoved_gets in E4 as ->. apply bind_ok_inv in E as (users & w1 & E5 & E).
  apply unmoved_users in E5 as ->. injection E as <- <-. split; [done|]. split; cbn.
  - intros r. by apply (elem_of_ListRoles _ _ _ _ HI E2).
  - intros r Hr p. unfold grants_of. cbn. rewrite (Hg r Hr). cbn. apply elem_of_dedup.
  - intros short m. unfold scopedBy, sort_strings. cbn. rewrite sorting.merge_sort_Permutation. injection E1 as <-. unfold scoped_rows. split.
    + intros ([sh m'] & -> & [E (row & [= -> ->] & [Hne Hin]%list_elem_of_filter)%list_elem_of_fmap]%list_elem_of_filter)%list_elem_of_fmap.
      rewrite sorting.merge_sort_Permutation in Hin. by exists row.
    + intros (row & Hin & Hne & <- & <-). apply list_elem_of_fmap. exists (Short (PermissionRefOf row), PModule row). split; [done|].
      apply list_elem_of_filter. split; [done|]. apply list_elem_of_fmap. exists row. split; [done|]. apply list_elem_of_filter.
      by rewrite sorting.merge_sort_Permutation.
Qed.

(** ** What a clean report means *)
Definition steady {A} (m : M W A) : Prop := ∀ w a w', m w = (Ok a, w') → same w w'.
Lemma steady_ret {A} (a : A) : steady (ret a).
Proof. by intros w x w' [= _ <-]. Qed.
Lemma steady_bind {A C} (m : M W A) (f : A → M W C) : steady m → (∀ a, steady (f a)) → steady (bind m f).
Proof. intros Hm Hf w c w' E. apply bind_ok_inv in E as (a & w1 & E1 & E2). eapply same_trans; [by eapply Hm|by eapply Hf]. Qed.
Lemma steady_fold {A C} (l : list A) (f : C → A → M W C) : (∀ c a, steady (f c a)) → ∀ c, steady (fold_each l c f).
Proof. intros Hf. induction l as [|x l IH]; intros c; [apply steady_ret|]. apply steady_bind; [apply Hf|apply IH]. Qed.
Lemma steady_confirm fuel ctx tid uid : ∀ l, steady (confirm fuel ctx tid uid l).
Proof.
  induction fuel as [|n IH]; intros l; cbn [confirm]; [apply steady_ret|]. case_bool_decide; [apply steady_ret|].
  apply steady_bind; [by intros w a w' [? _]%AllowedMany_ok|]. intros held. apply steady_bind; [apply IH|]. intros rest. apply steady_ret.
Qed.
Lemma steady_user ctx tid s acc uid : steady (verify_user SampleUsers ctx tid s acc uid).
Proof.
  destruct acc as [i out]. unfold verify_user. destruct (_ <=? _)%Z; [apply steady_ret|]. apply steady_bind; [apply steady_confirm|]. intros. apply steady_ret.
Qed.
Lemma Verify_tenants ctx tenants : ∀ out w out' w', RoleInv (az_st w) → fold_each tenants out (verify_tenant SampleUsers ctx) w = (Ok out', w') →
  same w w' ∧ (∀ f, f ∈ out → f ∈ out') ∧
  ∀ tid, tid ∈ tenants → ∃ s, loaded tid (az_st w) s ∧ ∀ r f, r ∈ vs_roles s → f ∈ verify_role tid s r → f ∈ out'.
Proof.
  induction tenants as [|tid tenants IH]; intros out w out' w' HI E; cbn [fold_each] in E.
  { injection E as <- <-. split; [done|]. split; [done|]. intros t Ht. by apply elem_of_nil in Ht. }
  apply bind_ok_inv in E as (out1 & w1 & E1 & E2). unfold verify_tenant in E1. apply bind_ok_inv in E1 as (s & w2 & E3 & E4).
  apply load_ok in E3 as [-> Hl]; [|done]. apply bind_ok_inv in E4 as (users & w3 & E5 & E6). injection E6 as <- <-.
  apply steady_fold in E5; [|intros; apply steady_user]. destruct (E5) as [Est _ _ _].
  destruct (IH _ _ _ _ ltac:(by rewrite Est) E2) as (Hs & Hm & Ht). split; [by eapply same_trans|]. split.
  { intros f Hf. apply Hm. apply elem_of_app. by left. }
  intros t [->|Hin]%elem_of_cons; [|rewrite <- Est; by apply Ht]. exists s. split; [done|]. intros r f Hr Hf. apply Hm.
  apply elem_of_app. right. apply elem_of_app. left. apply list_elem_of_In, in_concat. exists (verify_role tid s r).
  split; apply list_elem_of_In; [|done]. apply list_elem_of_fmap. eauto.
Qed.
Lemma Clean_none rep f : Clean rep = true → f ∈ RpFindings rep → FdKind f ≠ FindingLoss ∧ FdKind f ≠ FindingPending.
Proof.
  unfold Clean, count_kind. intros [[H1'%Nat.eqb_eq H2'%Nat.eqb_eq]%andb_true_iff _]%andb_true_iff Hf. apply nil_length_inv in H1', H2'.
  split; intros E; [by eapply (filter_nil_not_elem_of _ _ f H1')|by eapply (filter_nil_not_elem_of _ _ f H2')].
Qed.
(** The catalogue row registers the permission for a module. *)
Definition registers st tid (p : Ref) (row : Permission) : Prop :=
  row ∈ default [] (Permissions st !! tid) ∧ PModule row ≠ "" ∧ Short (PermissionRefOf row) = Short p.
(** Every module that registers a legacy grant of the role has its scoped
    form among the grants of the same role, and there is such a module. *)
Definition replaced tid st (r : Role) (g : Ref) : Prop :=
  (∃ row, registers st tid g row) ∧ ∀ row, registers st tid g row → WithModule g (PModule row) ∈ role_perms st (RoID r).
Lemma verify_role_clean tid st s r g : loaded tid st s → r ∈ vs_roles s → g ∈ role_perms st (RoID r) → IsLegacy g = true →
  (∀ f, f ∈ verify_role tid s r → FdKind f ≠ FindingLoss ∧ FdKind f ≠ FindingPending) → replaced tid st r g.
Proof.
  intros Hl Hr Hg Hleg Hc. pose proof (proj2 (ld_grants _ _ _ Hl r Hr g) Hg) as Hg'.
  assert (Hin : ∀ f, f ∈ (if bool_decide (scopedBy s (Short g) = []) then [mkFinding tid FindingPending (RoSlug r) "" (RefString g)] else []) ++
    ((λ p, mkFinding tid FindingLoss (RoSlug r) "" (RefString p)) <$> losses s (grants_of s (RoID r)) g) → f ∈ verify_role tid s r).
  { intros f Hf. unfold verify_role. cbv zeta. apply elem_of_app. left. apply list_elem_of_In, in_concat. eexists. split; apply list_elem_of_In; [|exact Hf].
    apply list_elem_of_fmap. exists g. split; [by rewrite Hleg|]. unfold sortedRefs. by rewrite sorting.merge_sort_Permutation, elem_of_dedup. }
  split.
  - destruct (scopedBy s (Short g)) as [|m ms] eqn:Es.
    + exfalso. destruct (Hc (mkFinding tid FindingPending (RoSlug r) "" (RefString g))) as [_ Hp]; [apply Hin; by left|]. by apply Hp.
    + destruct (proj1 (ld_scoped _ _ _ Hl (Short g) m)) as (row & ? & ? & _ & ?); [rewrite Es; by left|]. by exists row.
  - intros row (Hrow & Hne & Hsh). apply (ld_grants _ _ _ Hl r Hr). destruct (decide (WithModule g (PModule row) ∈ grants_of s (RoID r))) as [|Hno]; [done|].
    exfalso. destruct (Hc (mkFinding tid FindingLoss (RoSlug r) "" (RefString (WithModule g (PModule row))))) as [Hp _]; [|by apply Hp].
    apply Hin. apply elem_of_app. right. apply list_elem_of_fmap. eexists. split; [done|]. unfold losses. apply list_elem_of_filter. split; [done|].
    apply list_elem_of_fmap. exists (PModule row). split; [done|]. apply (ld_scoped _ _ _ Hl). eauto.
Qed.
Lemma Verify_clean ctx tenants w rep w' tid id r g : RoleInv (az_st w) → Verify SampleUsers ctx tenants w = (Ok rep, w') → Clean rep = true →
  tid ∈ tenants → role_in (az_st w) tid id = Some r → g ∈ role_perms (az_st w) id → IsLegacy g = true → replaced tid (az_st w) r g.
Proof using H0.
  intros HI E Hc Ht Hr Hg Hleg. unfold Verify in E. apply bind_ok_inv in E as (out & w1 & E1 & E2). injection E2 as <- <-.
  apply Verify_tenants in E1 as (_ & _ & Hv); [|done]. destruct (Hv tid Ht) as (s & Hl & Hf).
  pose proof (role_in_id _ _ _ _ HI Hr) as Eid. assert (Hin : r ∈ vs_roles s) by (apply (ld_roles _ _ _ Hl); by rewrite Eid).
  rewrite <- Eid in Hg. apply (verify_role_clean tid _ s r g Hl Hin Hg Hleg). intros f Hff. apply (Clean_none _ _ Hc). by eapply Hf.
Qed.

(** ** What a pruning changes *)
Record pruned (T : list string) st st' : Prop := mkPrunedRel {
  pr_rows : RoleRows st' = RoleRows st;
  pr_bind : Bindings st' = Bindings st;
  pr_groups : groups st' = groups st;
  pr_members : members st' = members st;
  pr_groles : groles st' = groles st;
  pr_perms : ∀ id r p, RoleRows st !! id = Some r → (p ∈ role_perms st' id ↔ p ∈ role_perms st id ∧ (RoTenantID r ∈ T → IsLegacy p = false));
}.
Lemma pruned_trans T T' st1 st2 st3 : pruned T st1 st2 → pruned T' st2 st3 → pruned (T ++ T') st1 st3.
Proof.
  intros [A1 A2 A3 A4 A5 A6] [C1 C2 C3 C4 C5 C6]. split; [congruence..|]. intros id r p Hr. rewrite (C6 id r p) by congruence. rewrite (A6 id r p Hr), elem_of_app. tauto.
Qed.
Lemma pruned_roles T st st' : pruned T st st' → same_roles st st'.
Proof. intros [A1 A2 A3 A4 A5 _]. split; [done..|]. intros tid id. unfold slug_in, role_in. by rewrite A1. Qed.
Lemma pruned_role_in T st st' tid id : pruned T st st' → role_in st' tid id = role_in st tid id.
Proof. intros Hp. unfold role_in. by rewrite (pr_rows _ _ _ Hp). Qed.
Lemma RolePerms_pruned st tid id : RolePerms (DeleteLegacyPermissions tid st).2 !! id =
  match RoleRows st !! id with
  | Some r => if decide (RoTenantID r = tid) then Some (filter (λ g, IsLegacy g = false) (role_perms st id)) else RolePerms st !! id
  | None => RolePerms st !! id
  end.
Proof.
  unfold DeleteLegacyPermissions. cbn [snd RolePerms set_RolePerms set_Permissions]. set (f := λ id r acc, _).
  refine (map_fold_weak_ind (λ acc rows, acc !! id = match rows !! id with
    | Some r => if decide (RoTenantID r = tid) then Some (filter (λ g, IsLegacy g = false) (role_perms st id)) else RolePerms st !! id
    | None => RolePerms st !! id end) f (RolePerms st) _ _ (RoleRows st)).
  - by rewrite lookup_empty.
  - intros i x m acc Hi IH. subst f. cbv beta. destruct (decide (i = id)) as [->|Hne].
    + rewrite lookup_insert_eq. rewrite Hi in IH. case_bool_decide as Et; [by rewrite decide_True, lookup_insert_eq|by rewrite decide_False].
    + rewrite (lookup_insert_ne m) by done. case_bool_decide; [by rewrite lookup_insert_ne|done].
Qed.
Lemma role_perms_pruned st tid id : role_perms (DeleteLegacyPermissions tid st).2 id =
  match RoleRows st !! id with
  | Some r => if decide (RoTenantID r = tid) then filter (λ g, IsLegacy g = false) (role_perms st id) else role_perms st id
  | None => role_perms st id
  end.
Proof. unfold role_perms at 1. rewrite RolePerms_pruned. destruct (RoleRows st !! id); [case_decide|]; done. Qed.
Lemma unused_pruned st tid id : unused st id → unused (DeleteLegacyPermissions tid st).2 id.
Proof. intros [U1 U2 U3 U4 U5 U6 U7]. split; try done. by rewrite RolePerms_pruned, U1. Qed.
Lemma DeleteLegacy_pruned st tid : pruned [tid] st (DeleteLegacyPermissions tid st).2.
Proof.
  split; [done..|]. intros id r p Hr. rewrite role_perms_pruned, Hr. case_decide as Et.
  - rewrite list_elem_of_filter, list_elem_of_singleton. tauto.
  - rewrite list_elem_of_singleton. tauto.
Qed.

Lemma elem_of_legacy_grants tid st s t : loaded tid st s → t ∈ legacy_grants tid s ↔
  ∃ id r g, role_in st tid id = Some r ∧ RoID r = id ∧ g ∈ role_perms st id ∧ IsLegacy g = true ∧ t = GrantTuple tid (RoSlug r) g.
Proof.
  intros Hl. unfold legacy_grants. rewrite list_elem_of_In, in_concat. split.
  - intros (l & (r & -> & Hr)%list_elem_of_In%list_elem_of_fmap & (g & -> & [Hg Hin]%list_elem_of_filter)%list_elem_of_In%list_elem_of_fmap).
    unfold sortedRefs in Hin. rewrite sorting.merge_sort_Permutation, elem_of_dedup, (ld_grants _ _ _ Hl r Hr) in Hin.
    exists (RoID r), r, g. split_and!; try done. by apply (ld_roles _ _ _ Hl).
  - intros (id & r & g & Hr & <- & Hg & Hleg & ->). apply (ld_roles _ _ _ Hl) in Hr. eexists. split; apply list_elem_of_In; [apply list_elem_of_fmap; eauto|].
    apply list_elem_of_fmap. exists g. split; [done|]. apply list_elem_of_filter. split; [done|].
    unfold sortedRefs. by rewrite sorting.merge_sort_Permutation, elem_of_dedup, (ld_grants _ _ _ Hl r Hr).
Qed.
(** The tuples removed are the ones the rows no longer call for. *)
Lemma prune_mirror tid st st' s links t : RoleInv st → ValidTenantID tid = true → loaded tid st s → pruned [tid] st st' →
  (∀ x, x ∈ links → access x = false) → access t = true →
  mirrored st' t ↔ (mirrored st t ∨ t ∈ []) ∧ t ∉ legacy_grants tid s ++ links.
Proof.
  intros HI Hv Hl Hp Hk Ha. pose proof (pruned_roles _ _ _ Hp) as Hs.
  assert (Hno : t ∉ legacy_grants tid s ++ links ↔ t ∉ legacy_grants tid s).
  { rewrite not_elem_of_app. split; [by intros [? _]|]. intros Hn. split; [done|]. intros Hx. specialize (Hk t Hx). congruence. }
  rewrite Hno. clear Hno. rewrite (elem_of_legacy_grants tid st) by done. rewrite elem_of_nil.
  assert (Hgr : ∀ x id r p, ValidTenantID x = true → role_in st x id = Some r → p ∈ role_perms st id →
    (∃ id' r' g, role_in st tid id' = Some r' ∧ RoID r' = id' ∧ g ∈ role_perms st id' ∧ IsLegacy g = true ∧ GrantTuple x (RoSlug r) p = GrantTuple tid (RoSlug r') g) ↔
    RoTenantID r ∈ [tid] ∧ IsLegacy p = true).
  { intros x id r p Hx Hr Hin. split.
    - intros (id' & r' & g & Hr' & _ & Hg & Hleg & E). apply grant_inj in E as (-> & _ & ->); eauto using ri_perm.
      apply role_in_Some in Hr as [_ <-]. split; [by apply list_elem_of_singleton|done].
    - intros [Ht%list_elem_of_singleton Hleg]. pose proof Hr as [_ Ex]%role_in_Some. assert (x = tid) as -> by congruence.
      exists id, r, p. split_and!; try done. by eapply role_in_id. }
  split.
  - intros Hm. destruct (same_roles_mirrored st' st t (same_roles_sym _ _ Hs) Hm) as [Hm'|(x & id & r & p & Hx & Hr & Hin & ->)].
    + split; [by left|]. intros (id' & r' & g & Hr' & _ & Hg & Hleg & ->).
      apply mirrored_cases in Hm as [(? & ? & ? & ? & ? & ? & ? & E)|[(? & ? & ? & ? & ? & ? & ? & ? & ? & E)|[(? & ? & ? & ? & ? & ? & ? & E)|(x & id & r & p & Hx & Hr & Hin & E)]]];
        try by apply (f_equal TuRelation) in E.
      rewrite (pruned_role_in _ _ _ _ _ Hp) in Hr. pose proof Hr as [Hrow _]%role_in_Some. apply (pr_perms _ _ _ Hp id r) in Hin as [Hin Hn]; [|done].
      destruct (proj1 (Hgr x id r p Hx Hr Hin)) as [Ht Hl2]; [exists id', r', g; split_and!; try done; by eapply role_in_id|].
      specialize (Hn Ht). congruence.
    + rewrite (pruned_role_in _ _ _ _ _ Hp) in Hr. pose proof Hr as [Hrow _]%role_in_Some. apply (pr_perms _ _ _ Hp id r) in Hin as [Hin Hn]; [|done].
      split; [left; by econstructor|]. rewrite (Hgr x id r p) by done. intros [Ht Hl2]. specialize (Hn Ht). congruence.
  - intros [[Hm|[]] Hn]. destruct (same_roles_mirrored st st' t Hs Hm) as [?|(x & id & r & p & Hx & Hr & Hin & ->)]; [done|].
    econstructor; [done|by rewrite (pruned_role_in _ _ _ _ _ Hp)|]. pose proof Hr as [Hrow _]%role_in_Some. apply (pr_perms _ _ _ Hp id r); [done|].
    split; [done|]. intros Ht. destruct (IsLegacy p) eqn:El; [|done]. exfalso. apply Hn. by apply (Hgr x id r p).
Qed.

Lemma RoleInv_pruned tid st : RoleInv st → RoleInv (DeleteLegacyPermissions tid st).2.
Proof.
  intros [I1 I2 I3 I4]. split; [done|done| |].
  - intros id p. rewrite role_perms_pruned. destruct (RoleRows st !! id); [case_decide|]; [intros [_ Hp]%list_elem_of_filter| |]; eauto.
  - intros t p. cbn. destruct (decide (t = tid)) as [->|Hne]; [rewrite lookup_insert_eq; cbn; intros [_ Hp]%list_elem_of_filter|rewrite lookup_insert_ne by done]; eauto.
Qed.
Lemma prune_tenant_ok ctx tid res w res' w' : Good w → ValidTenantID tid = true → prune_tenant ctx false res tid w = (Ok res', w') →
  Good w' ∧ pruned [tid] (az_st w) (az_st w').
Proof.
  intros HG Hv E. destruct (HG) as [HI HM HF]. unfold prune_tenant in E. apply bind_ok_inv in E as (s & w1 & E1 & E). apply load_ok in E1 as [-> Hl]; [|done].
  cbv zeta in E. destruct (bool_decide (sortedRefs (vs_legacy s) = []) && bool_decide (legacy_grants tid s = [])) eqn:Eb.
  { injection E as _ <-. split; [done|]. apply andb_true_iff in Eb as [_ Eg%bool_decide_eq_true]. split; [done..|]. intros id r p Hr. split; [|tauto].
    intros Hin. split; [done|]. intros ->%list_elem_of_singleton%symmetry. destruct (IsLegacy p) eqn:El; [|done]. exfalso.
    apply (not_elem_of_nil (GrantTuple (RoTenantID r) (RoSlug r) p)). rewrite <- Eg. apply (elem_of_legacy_grants _ (az_st w)); [done|].
    exists id, r, p. split_and!; try done; [by apply role_in_Some|by eapply ri_key]. }
  clear Eb. apply bind_ok_inv in E as (? & w1 & E1 & E). apply Write_ok in E1 as (Es1 & _ & Ei1 & Et1 & _).
  apply bind_ok_inv in E as (n & w2 & E2 & E). apply stM_inv in E2 as (st2 & E2 & ->). apply bind_ok_inv in E as (? & w3 & E3 & E).
  injection E3 as _ <-. injection E as _ <-. cbn [az_st with_st]. rewrite Es1 in E2.
  assert (st2 = (DeleteLegacyPermissions tid (az_st w)).2) as -> by (by rewrite E2).
  pose proof (DeleteLegacy_pruned (az_st w) tid) as Hp. split; [|done]. split.
  - by apply RoleInv_pruned.
  - change (tuplesW _) with (tuplesW w1). rewrite Et1. apply (Mirror_update (az_st w)); [done|]. intros t Ha.
    eapply prune_mirror; try done. intros y (q & -> & _)%list_elem_of_fmap. done.
  - cbn [az_ids with_st]. change (az_ids _) with (az_ids w1). rewrite Ei1. intros n' Hn. apply unused_pruned. by apply HF.
Qed.

Lemma prune_tenants_ok ctx tenants : ∀ res w res' w', Good w → Forall (λ t, ValidTenantID t = true) tenants →
  fold_each tenants res (prune_tenant ctx false) w = (Ok res', w') → Good w' ∧ pruned tenants (az_st w) (az_st w').
Proof using H H0 H1 H2 newID.
  induction tenants as [|tid tenants IH]; intros res w res' w' HG Hv E; cbn [fold_each] in E.
  { injection E as _ <-. split; [done|]. split; [done..|]. intros id r p Hr. split; [|tauto]. intros Hp. split; [done|]. intros []%elem_of_nil. }
  apply bind_ok_inv in E as (res1 & w1 & E1 & E2). apply Forall_cons in Hv as [Hv1 Hv2].
  apply prune_tenant_ok in E1 as [HG1 Hp1]; [|done..]. destruct (IH _ _ _ _ HG1 Hv2 E2) as [HG2 Hp2]. split; [done|].
  by apply (pruned_trans [tid] tenants _ (az_st w1)).
Qed.
Lemma holds_pruned T st st' tid uid id : pruned T st st' → holds_role st' tid uid id ↔ holds_role st tid uid id.
Proof. intros [_ A2 A3 A4 A5 _]. unfold holds_role, bindings_of, group_in, members_of, groles_of. by rewrite A2, A3, A4, A5. Qed.
Lemma has_perm_pruned T st st' tid uid p : pruned T st st' →
  has_perm st' tid uid p ↔ has_perm st tid uid p ∧ (tid ∈ T → IsLegacy p = false).
Proof.
  intros Hp. unfold has_perm. split.
  - intros (id & r & Hr & Hin & Hh). rewrite (pruned_role_in _ _ _ _ _ Hp) in Hr. pose proof Hr as [Hrow <-]%role_in_Some.
    apply (pr_perms _ _ _ Hp id r) in Hin as [Hin Hn]; [|done]. split; [|done]. exists id, r. by rewrite <- (holds_pruned _ _ _ _ _ _ Hp).
  - intros [(id & r & Hr & Hin & Hh) Hn]. exists id, r. rewrite (pruned_role_in _ _ _ _ _ Hp), (holds_pruned _ _ _ _ _ _ Hp). split; [done|]. split; [|done].
    pose proof Hr as [Hrow <-]%role_in_Some. by apply (pr_perms _ _ _ Hp id r).
Qed.

(** C8. Pruning is refused unless it loses nothing.  When it succeeds the rows and
    the tuples still agree, permissions that name a module are held by exactly
    the users who held them, and nobody in the pruned tenants holds a legacy
    permission any more; who held one holds it in every module that registers
    it, and there is such a module. *)
Theorem prune_keeps_access ctx tenants w res w' :
  Good w → Forall (λ t, ValidTenantID t = true) tenants → PruneLegacy SampleUsers ctx tenants false w = (Ok res, w') →
  Good w' ∧
  (∀ tid uid p, IsLegacy p = false → has_perm (az_st w') tid uid p ↔ has_perm (az_st w) tid uid p) ∧
  ∀ tid uid p, tid ∈ tenants → IsLegacy p = true →
    ¬ has_perm (az_st w') tid uid p ∧
    (has_perm (az_st w) tid uid p →
     (∃ row, registers (az_st w) tid p row) ∧
     ∀ row, registers (az_st w) tid p row → has_perm (az_st w') tid uid (WithModule p (PModule row))).
Proof using H H0 H1 H2 newID.
  intros HG Hv E. unfold PruneLegacy in E. apply bind_ok_inv in E as (rep & w1 & E1 & E). destruct (Clean rep) eqn:Hc; [|done]. cbn [negb] in E.
  assert (Hs : same w w1).
  { unfold Verify in E1. apply bind_ok_inv in E1 as (out & w2 & E2 & E3). injection E3 as _ <-. apply Verify_tenants in E2 as [? _]; [done|apply HG]. }
  apply prune_tenants_ok in E as [HG' Hp]; [|by eapply Good_same|done]. destruct (Hs) as [Est _ _ _]. rewrite Est in Hp. split; [done|]. split.
  - intros tid uid p Hl. rewrite (has_perm_pruned _ _ _ _ _ _ Hp). tauto.
  - intros tid uid p Ht Hl. split; [rewrite (has_perm_pruned _ _ _ _ _ _ Hp); intros [_ Hn]; specialize (Hn Ht); congruence|].
    intros (id & r & Hr & Hin & Hh). destruct (Verify_clean _ _ _ _ _ _ _ _ _ (good_inv _ _ HG) E1 Hc Ht Hr Hin Hl) as [Hex Hall]. split; [done|].
    intros row Hrow. apply (has_perm_pruned _ _ _ _ _ _ Hp). split.
    + exists id, r. split_and!; try done. rewrite <- (role_in_id _ _ _ _ (good_inv _ _ HG) Hr). by apply Hall.
    + intros _. unfold IsLegacy, WithModule. cbn. apply bool_decide_eq_false, Hrow.
Qed.
End PruneSafety.
