(* ===== verification/AuthzRuns.v ===== *)
(** * Concrete histories of the authorization services

    Witnesses for the theorems on the services, and two runs that show
    defects: a granted decision that reads back as a refusal, and a deleted
    role whose group grants come back with its name. *)
From S2P Require Import Prelude GoStrings Regex PermRef TenantCtx Models Cache AuditEvents Session MemStore SessionSafety SessionRuns.
From S2P Require Import Fga MemRoles AuthzClient AuthzServices AuthzFacts Mirror AuthzSafety GroupSafety.
#[local] Open Scope list_scope.
#[local] Open Scope go_scope.

Notation AZW := (AZ Fake Memory).

Definition T1 : string := "00000000-0000-0000-0000-000000000001".
Definition T2 : string := "00000000-0000-0000-0000-000000000002".
Definition userCtx (uid : string) (roles : list string) : Ctx :=
  mkCtx (Some (mkActor KindUser uid T1 "s" roles ["pwd"] "" "" "")) None.
Definition ownerCtx : Ctx := userCtx "u0" ["owner"].
Definition adminCtx : Ctx := userCtx "u9" ["admin"].
Definition exactFold (a b : string) : bool := bool_decide (a = b).

Definition docRead : Permission := mkPermission "docs" "doc" "read" "Read".
Definition docReadRef : Ref := PermissionRefOf docRead.
Definition someUser (id : string) : User := mkUser id T1 (id +:+ "@x") id "active" None false None 0 None None "" "" false.

(** A tenant whose catalogue is [perms], with two users and no roles. *)
Definition tenant_with (perms : list Permission) : Store :=
  mkStore {[T1 := mkTenant T1 "acme" "Acme" "active" "customer" RawEmpty]}
    (list_to_map [("k1", someUser "u1"); ("k9", someUser "u9")]) ∅ [] ∅ ∅ ∅ ∅ {[T1 := perms]} ∅ ∅ ∅ ∅ [] ∅ ∅ ∅ ∅ [] ∅ ∅ ∅ ∅.
Definition world (perms : list Permission) : AZW := mkAZ (tenant_with perms) NewFake (Some NewMemory) [] [] 0 0.
Definition store0 : Store := tenant_with [docRead].
Definition a0 : AZW := world [docRead].

(** The owner creates a role, then assigns it to u1; an administrator creates
    a group; the owner gives it the role; a member joins. *)
Definition mkViewer : M AZW RoleView := CreateRole seqID ownerCtx T1 "viewer" "Viewer" ["docs:doc:read"].
Definition a1 : AZW := (mkViewer a0).2.
Definition giveU1 : M AZW (list string) := AssignRoles ownerCtx T1 "u1" ["a"].
Definition a2 : AZW := (giveU1 a1).2.
Definition mkStaff : M AZW Group := CreateGroupOp exactFold seqID adminCtx T1 "Staff" "".
Definition a3 : AZW := (mkStaff a2).2.
Definition staffRole : M AZW (list string) := SetRoles ownerCtx T1 "aa" ["a"].
Definition a4 : AZW := (staffRole a3).2.
Definition join9 : M AZW Z := AddMembers ownerCtx T1 "aa" ["u9"].
Definition a5 : AZW := (join9 a4).2.


Definition ok_value {S A} (m : M S A) (s : S) (d : A) : A := match (m s).1 with Ok x => x | Err _ => d end.
Lemma run_ok_value {S A} (m : M S A) (s : S) (d : A) : is_ok (m s).1 = true → m s = (Ok (ok_value m s d), (m s).2).
Proof. unfold ok_value. by destruct (m s) as [[x|e] s']. Qed.

Lemma world_Good perms : Forall (λ p, wf_ref (PermissionRefOf p) = true) perms → Good seqID (world perms).
Proof.
  intros Hwf. split.
  - split.
    + done.
    + done.
    + intros id p Hp. unfold role_perms in Hp. cbn in Hp. set_solver.
    + intros tid p. cbn [world az_st tenant_with Permissions]. destruct (decide (tid = T1)) as [->|Hne].
      * rewrite lookup_singleton_eq. cbn. intros Hp. by eapply (proj1 (Forall_forall _ _) Hwf).
      * rewrite lookup_singleton_ne by congruence. cbn. set_solver.
  - intros t _. split; [set_solver|].
    intros [(x & u & id & r & _ & _ & Hr & _)|[(x & g & G & id & r & _ & _ & _ & Hr & _)|[(x & g & G & u & _ & Hg & _)|(x & id & r & p & _ & Hr & _)]]]%mirrored_cases;
      [by apply role_in_Some in Hr as [Hr _]..| |by apply role_in_Some in Hr as [Hr _]].
    by apply group_in_Some in Hg as [Hg _].
  - intros n _. done.
Qed.
Lemma a0_Good : Good seqID a0.
Proof. apply world_Good. repeat constructor. Qed.

Lemma validT1 : ValidTenantID T1 = true.
Proof. vm_compute. reflexivity. Qed.

Definition step (x y : AZW) : Prop := ∃ ctx t a,
  ValidTenantID t = true ∧ ctx_actor ctx = Some a ∧ service exactFold seqID ctx t x y.

Definition roleView0 : RoleView := mkRoleView "" "" "" "" false false [].
Definition group0 : Group := mkGroup "" "" "" "" None.

Lemma a5_reached : rtc step a0 a5.
Proof.
  eapply rtc_l. { exists ownerCtx, T1. eexists. split_and!; [apply validT1|reflexivity|].
    refine (sv_create_role exactFold seqID ownerCtx T1 "viewer" "Viewer" ["docs:doc:read"] _ a0 a1 (run_ok_value mkViewer a0 roleView0 _)).
    vm_compute. reflexivity. }
  eapply rtc_l. { exists ownerCtx, T1. eexists. split_and!; [apply validT1|reflexivity|].
    eapply sv_assign, (run_ok_value giveU1 a1 []). vm_compute. reflexivity. }
  eapply rtc_l. { exists adminCtx, T1. eexists. split_and!; [apply validT1|reflexivity|].
    eapply sv_create_group, (run_ok_value mkStaff a2 group0). vm_compute. reflexivity. }
  eapply rtc_l. { exists ownerCtx, T1. eexists. split_and!; [apply validT1|reflexivity|].
    eapply sv_set_roles, (run_ok_value staffRole a3 []). vm_compute. reflexivity. }
  eapply rtc_l. { exists ownerCtx, T1. eexists. split_and!; [apply validT1|reflexivity|].
    eapply sv_add_members, (run_ok_value join9 a4 0%Z). vm_compute. reflexivity. }
  apply rtc_refl.
Qed.

(** Then the group is deleted, and after it the role. *)
Definition dropStaff : M AZW unit := DeleteGroupOp ownerCtx T1 "aa" 1.
Definition a6 : AZW := (dropStaff a5).2.
Definition dropViewer : M AZW unit := RemoveRoleOp ownerCtx T1 "a".
Definition a7 : AZW := (dropViewer a6).2.
Lemma a7_reached : rtc step a0 a7.
Proof.
  eapply (transitivity (y := a5)); [apply a5_reached|].
  eapply rtc_l. { exists ownerCtx, T1. eexists. split_and!; [apply validT1|reflexivity|].
    eapply (sv_delete_group _ _ _ _ "aa" 1).
    - assert (Et : added_times (az_st a5) "aa" = [0%Z]) by (vm_compute; reflexivity). split; [rewrite Et; repeat constructor|left].
      assert (El : length (members_of (az_st a5) "aa") = 1%nat) by (vm_compute; reflexivity). rewrite El. unfold GroupBatchMax. lia.
    - apply (run_ok_value dropStaff a5 tt). vm_compute. reflexivity. }
  eapply rtc_l. { exists ownerCtx, T1. eexists. split_and!; [apply validT1|reflexivity|].
    eapply (sv_remove_role _ _ _ _ "a").
    - assert (Eg : groles (az_st a6) = ∅) by (vm_compute; reflexivity).
      intros gid. unfold groles_of. change (az_st (dropStaff a5).2) with (az_st a6). rewrite Eg, lookup_empty. apply not_elem_of_nil.
    - apply (run_ok_value dropViewer a6 tt). vm_compute. reflexivity. }
  apply rtc_refl.
Qed.

Lemma services_keep_mirror_witness :
  (can T1 "u9" (tuplesW a5) docReadRef ↔ has_perm (az_st a5) T1 "u9" docReadRef) ∧
  (can T1 "u9" (tuplesW a7) docReadRef ↔ has_perm (az_st a7) T1 "u9" docReadRef).
Proof.
  split.
  - exact (services_keep_mirror exactFold seqID a0 a5 T1 "u9" docReadRef a0_Good a5_reached validT1 eq_refl).
  - exact (services_keep_mirror exactFold seqID a0 a7 T1 "u9" docReadRef a0_Good a7_reached validT1 eq_refl).
Defined.

Lemma Good_steps x y : Good seqID x → rtc step x y → Good seqID y.
Proof.
  intros HG Hr. induction Hr as [|x y z (ctx & t & a & Ht & Ha & Hs) _ IH]; [done|].
  apply IH. by eapply (service_safe exactFold seqID ctx t x y a).
Qed.

Lemma a2_reached : rtc step a0 a2.
Proof.
  eapply rtc_l. { exists ownerCtx, T1. eexists. split_and!; [apply validT1|reflexivity|].
    refine (sv_create_role exactFold seqID ownerCtx T1 "viewer" "Viewer" ["docs:doc:read"] _ a0 a1 (run_ok_value mkViewer a0 roleView0 _)).
    vm_compute. reflexivity. }
  eapply rtc_l. { exists ownerCtx, T1. eexists. split_and!; [apply validT1|reflexivity|].
    eapply sv_assign, (run_ok_value giveU1 a1 []). vm_compute. reflexivity. }
  apply rtc_refl.
Qed.

(** u1, who holds the viewer role and is no owner, passes it on to u9: u9
    gains what u1 already had. *)
Definition viewerCtx : Ctx := userCtx "u1" ["viewer"].
Definition giveU9 : M AZW (list string) := AssignRoles viewerCtx T1 "u9" ["a"].

Lemma can_check tid uid ts p : check check_depth ts (granted_tuple tid uid p) = true → can tid uid ts p.
Proof. apply check_iff. Qed.

Lemma service_no_escalation_witness :
  check check_depth (tuplesW a2) (granted_tuple T1 "u9" docReadRef) = false ∧
  (can T1 "u9" (tuplesW a2) docReadRef ∨ can T1 "u1" (tuplesW a2) docReadRef).
Proof.
  split; [vm_compute; reflexivity|].
  apply (service_no_escalation exactFold seqID viewerCtx T1 a2 (giveU9 a2).2
           (mkActor KindUser "u1" T1 "s" ["viewer"] ["pwd"] "" "" "") "u9" docReadRef).
  - apply (Good_steps a0); [apply a0_Good|apply a2_reached].
  - apply validT1.
  - reflexivity.
  - eapply sv_assign, (run_ok_value giveU9 a2 []). vm_compute. reflexivity.
  - reflexivity.
  - discriminate.
  - vm_compute. reflexivity.
  - apply can_check. vm_compute. reflexivity.
Defined.

Lemma mirror_refines_witness :
  check check_depth (tuplesW a5) (granted_tuple T1 "u9" docReadRef) = true ↔ has_perm (az_st a5) T1 "u9" docReadRef.
Proof.
  assert (HG : Good seqID a5) by (apply (Good_steps a0); [apply a0_Good|apply a5_reached]).
  apply (mirror_refines (az_st a5) (tuplesW a5) T1 "u9" docReadRef).
  - apply HG.
  - apply HG.
  - apply validT1.
  - vm_compute. reflexivity.
Defined.

Lemma group_never_owner_witness :
  groles_of (az_st a4) "aa" = ["a"] ∧ group_roles_ok (az_st a3) (az_st a4) T1 "aa".
Proof.
  split; [vm_compute; reflexivity|].
  eapply (group_never_owner ownerCtx T1 "aa" ["a"] a3 _ a4).
  - assert (HG : Good seqID a3); [|apply HG].
    eapply (service_safe exactFold seqID adminCtx T1 a2 a3).
    + eapply sv_create_group, (run_ok_value mkStaff a2 group0). vm_compute. reflexivity.
    + apply (Good_steps a0); [apply a0_Good|apply a2_reached].
    + apply validT1.
    + reflexivity.
  - reflexivity.
  - apply (run_ok_value staffRole a3 []). vm_compute. reflexivity.
Defined.

(** One more assignment tuple of T1 leaves T2 as it was. *)
Definition grantU7 : M AZW unit := Write ownerCtx T1 [RoleAssignmentTuple T1 "viewer" "u7"] [].
Lemma write_confined_witness :
  may_enter ownerCtx T1 ∧ tenant_part T2 (tuplesW (grantU7 a2).2) = tenant_part T2 (tuplesW a2).
Proof.
  apply (write_confined ownerCtx T1 [RoleAssignmentTuple T1 "viewer" "u7"] [] a2 (grantU7 a2).2 T2).
  - assert (E : is_ok (grantU7 a2).1 = true) by (vm_compute; reflexivity).
    fold grantU7. rewrite (run_ok_value grantU7 a2 tt E) at 1. by destruct (ok_value grantU7 a2 tt).
  - discriminate.
Defined.

(** *** Another tenant at work

    The owner of T2 creates a role of the same name there and then writes
    tuples of her own choice, one that puts every viewer of T1 in her role. *)
Definition ownerT2 : Ctx := mkCtx (Some (mkActor KindUser "u0" T2 "s" ["owner"] ["pwd"] "" "" "")) None.
Definition mkViewerT2 : M AZW RoleView := CreateRole seqID ownerT2 T2 "viewer" "Viewer" [].
Definition ownTuples : list Tuple :=
  [mkTuple (RoleAssigneesObject T1 "viewer") "assignee" (RoleObject T2 "viewer"); GrantTuple T2 "viewer" docReadRef].
Definition meddle : M AZW unit := Write ownerT2 T2 ownTuples [].
Definition f1 : AZW := (mkViewerT2 a2).2.
Definition f2 : AZW := (meddle f1).2.

Lemma f1_run : CreateRole seqID ownerT2 T2 "viewer" "Viewer" [] a2 = (Ok (ok_value mkViewerT2 a2 roleView0), f1).
Proof. fold mkViewerT2. apply (run_ok_value mkViewerT2 a2 roleView0). vm_compute. reflexivity. Qed.

Lemma tenants_isolated_witness :
  check check_depth (tuplesW f2) (granted_tuple T1 "u1" docReadRef) = true ∧
  check check_depth (tuplesW f2) (granted_tuple T1 "u1" docReadRef) =
  check check_depth (tuplesW a2) (granted_tuple T1 "u1" docReadRef).
Proof.
  split; [vm_compute; reflexivity|].
  refine (proj2 (tenants_isolated exactFold seqID a2 f2 T1 "u1" docReadRef _ _ validT1 _)).
  - apply (Good_steps a0); [apply a0_Good|apply a2_reached].
  - eapply rtc_l. { exists ownerT2, T2. split; [discriminate|]. left. exact (sv_create_role exactFold seqID ownerT2 T2 "viewer" "Viewer" [] _ a2 f1 f1_run). }
    eapply rtc_l; [|apply rtc_refl]. exists ownerT2, T2. split; [discriminate|]. right. exists ownTuples, [].
    change (meddle f1 = (Ok tt, f2)). assert (E : is_ok (meddle f1).1 = true) by (vm_compute; reflexivity).
    rewrite (run_ok_value meddle f1 tt E) at 1. by destruct (ok_value meddle f1 tt).
  - vm_compute. reflexivity.
Defined.

(** *** A tenant with two owners *)
Definition ownerRole : Role := mkRole "r0" T1 "owner" "Owner" true OriginBuiltin "" "" "" None.
Definition storeOwners : Store :=
  mkStore (Tenants store0) (Users store0) ∅ [] ∅ {["r0" := ownerRole]}
    (<[map_key T1 "u0" := ["r0"]]> {[map_key T1 "u1" := ["r0"]]}) ∅ (Permissions store0) ∅ ∅ ∅ ∅ [] ∅ ∅ ∅ ∅ [] ∅ ∅ ∅ ∅.
Definition b0 : AZW := mkAZ storeOwners NewFake None [] [] 0 0.
Definition demoteU1 : M AZW (list string) := AssignRoles ownerCtx T1 "u1" [].

Lemma b0_inv : RoleInv storeOwners.
Proof.
  split.
  - intros id r. cbn. intros [<- <-]%lookup_singleton_Some. reflexivity.
  - intros id id' r r'. cbn. intros [<- <-]%lookup_singleton_Some [<- <-]%lookup_singleton_Some. reflexivity.
  - intros id p Hp. unfold role_perms in Hp. cbn in Hp. set_solver.
  - apply a0_Good.
Qed.
Lemma b0_bindings : bindings_ok storeOwners.
Proof.
  intros tid uid Hv.
  assert (Hc : bindings_of storeOwners tid uid = [] ∨ (tid = T1 ∧ bindings_of storeOwners tid uid = ["r0"])).
  { unfold bindings_of. cbn [storeOwners Bindings].
    destruct (decide (map_key T1 "u0" = map_key tid uid)) as [E|Hn].
    { rewrite E, lookup_insert_eq. apply map_key_inj in E as [<- _]; [|apply validT1|done]. by right. }
    rewrite lookup_insert_ne by done. destruct (decide (map_key T1 "u1" = map_key tid uid)) as [E|Hn'].
    { rewrite E, lookup_singleton_eq. apply map_key_inj in E as [<- _]; [|apply validT1|done]. by right. }
    rewrite lookup_singleton_ne by done. by left. }
  destruct Hc as [->|[-> ->]]; (split; [|intros id r Hid]).
  - constructor.
  - set_solver.
  - apply NoDup_singleton.
  - apply list_elem_of_singleton in Hid as ->. cbn. intros [_ <-]%lookup_singleton_Some. reflexivity.
Qed.

Lemma last_owner_kept_witness :
  (1 <= count_with_role (az_st (demoteU1 b0).2) T1 "owner")%nat ∧ bindings_ok (az_st (demoteU1 b0).2).
Proof.
  eapply (last_owner_kept ownerCtx T1 "u1" [] b0 _ (demoteU1 b0).2).
  - apply b0_inv.
  - apply b0_bindings.
  - apply validT1.
  - apply (run_ok_value demoteU1 b0 []). vm_compute. reflexivity.
  - vm_compute. lia.
Defined.

(** ** Two defects *)

(** A decision recorded by [Decide] (its reason, "role:viewer") is read back
    by [Allowed] as a refusal, because [Allowed] compares the cached value with
    "1": right after u1 is granted the permission, [Allowed] answers no, while
    the backend derives it and [Allowed] without the recorded decision answers
    yes. *)
Theorem decision_cache_clash :
  let decided := (Decide ownerCtx T1 "u1" docReadRef a2 : result Decision * AZW) in
  match decided.1 with Ok d => DAllowed d | Err _ => false end = true ∧
  (Allowed ownerCtx T1 "u1" docReadRef decided.2).1 = Ok false ∧
  (Allowed ownerCtx T1 "u1" docReadRef a2).1 = Ok true ∧
  check check_depth (tuplesW decided.2) (granted_tuple T1 "u1" docReadRef) = true.
Proof. vm_compute. split_and!; reflexivity. Qed.

Definition recreate : M AZW RoleView :=
  RemoveRoleOp ownerCtx T1 "a" ;;; CreateRole seqID ownerCtx T1 "viewer" "Viewer" ["docs:doc:read"].

(** Deleting a custom role leaves the group's assignee tuple behind.  When a
    custom role with the same slug is created later, the group holds it at
    once: u9 (a member of the group) is granted its permission, although
    neither u9 nor the group has a role in the store. *)
Theorem deleted_role_grants_return :
  let w := (recreate a5).2 in
  is_ok (recreate a5).1 = true ∧
  (EffectiveRoles T1 "u9" (az_st w)).1 = Ok [] ∧
  (GroupRoles T1 "aa" (az_st w)).1 = Ok [] ∧
  check check_depth (tuplesW w) (granted_tuple T1 "u9" docReadRef) = true.
Proof. vm_compute. split_and!; reflexivity. Qed.

(** That is also how a permission is gained without holding it: after the role
    came back, the administrator u9, who is no owner and lacks the permission,
    puts himself in the (still empty) group, which as far as the store knows
    has no role, and holds it. *)
Definition joinSelf : M AZW Z := AddMembers adminCtx T1 "aa" ["u9"].
Theorem deleted_role_escalates :
  let w := (recreate a4).2 in
  is_ok (recreate a4).1 = true ∧
  check check_depth (tuplesW w) (granted_tuple T1 "u9" docReadRef) = false ∧
  (joinSelf w).1 = Ok 1%Z ∧
  check check_depth (tuplesW (joinSelf w).2) (granted_tuple T1 "u9" docReadRef) = true.
Proof. vm_compute. split_and!; reflexivity. Qed.

(** A group whose members joined at one instant: the pages of [Delete] follow
    the time of joining, so of 101 members the last is not listed, and her
    membership tuple outlives the group. *)
Definition crowd : list string := (λ n, String (ascii_of_nat n) "") <$> seq 0 101.
Definition crowded : Store :=
  set_added (set_members (set_groups store0 {["g" := mkGroup "g" T1 "All" "" None]}) {["g" := crowd]})
    (list_to_map ((λ u, (map_key "g" u, 0%Z)) <$> crowd)).
Definition crowdedW : AZW := mkAZ crowded NewFake (Some NewMemory) [] [] 0 0.
Theorem delete_misses_members :
  members_of (az_st crowdedW) "g" = crowd ∧ length crowd = 101%nat ∧
  (member_pages 102 T1 "g" zero_time [] crowdedW).1 = Ok (take 100 crowd).
Proof. vm_compute. split_and!; reflexivity. Qed.
