(* ===== verification/ModuleRuns.v ===== *)
(** * Concrete histories of the module services

    Witnesses for the theorems on registration and pruning, and a run that
    shows a defect: a built-in grant that is withdrawn leaves its legacy twin
    behind, which makes every later pruning refuse.  At the end, calls of the
    authorization API. *)
From S2P Require Import Prelude GoStrings Regex PermRef TenantCtx Models Cache AuditEvents Session MemStore SessionSafety SessionRuns.
From S2P Require Import Fga MemRoles AuthzClient AuthzServices MemModules Modules PermVerify AuthzFacts Mirror AuthzSafety GroupSafety ModuleSafety PruneSafety AuthzRuns.
#[local] Open Scope list_scope.
#[local] Open Scope go_scope.

Definition oldRead : Permission := mkPermission "" "doc" "read" "Read".
Definition oldReadRef : Ref := PermissionRefOf oldRead.
Definition noModules : moduleState := mkModuleState ∅ ∅ ∅ ∅.

(** A tenant from before modules: u1 holds a reader role, which was granted the
    legacy permission.  The module has registered its permission. *)
Definition m0 : AZW := world [oldRead; docRead].
Definition mkReader : M AZW RoleView := CreateRole seqID ownerCtx T1 "reader" "Reader" [].
Definition m1 : AZW := (mkReader m0).2.
Definition m2 : AZW := (giveU1 m1).2.
Definition reader : Role := default (mkRole "" "" "" "" false "" "" "" "" None) (role_in (az_st m2) T1 "a").
Definition grantOld : M AZW Z := addGrants (SystemCtx ownerCtx) T1 reader [oldReadRef].
Definition m3 : AZW := (grantOld m2).2.
Lemma m2_reached : rtc step m0 m2.
Proof.
  eapply rtc_l. { exists ownerCtx, T1. eexists. split_and!; [apply validT1|reflexivity|].
    eapply sv_create_role, (run_ok_value mkReader m0 roleView0). vm_compute. reflexivity. }
  eapply rtc_l. { exists ownerCtx, T1. eexists. split_and!; [apply validT1|reflexivity|].
    eapply sv_assign, (run_ok_value giveU1 m1 []). vm_compute. reflexivity. }
  apply rtc_refl.
Qed.
Lemma m2_Good : Good seqID m2.
Proof. apply (Good_steps m0); [apply world_Good; repeat constructor|apply m2_reached]. Qed.
Lemma grantOld_keeps : keeps seqID (λ w, w = m2) (λ t, t = T1) (λ p, p = oldReadRef) grantOld.
Proof.
  apply addGrants_keeps; [done|exact validT1| |].
  - intros w ->. vm_compute. reflexivity.
  - intros p ->%list_elem_of_singleton. split; [vm_compute|]; reflexivity.
Qed.
Lemma m3_Good : Good seqID m3.
Proof.
  apply (sp_good seqID _ _ _ _ (grantOld_keeps m2 (ok_value grantOld m2 0%Z) m3 eq_refl m2_Good (run_ok_value grantOld m2 0%Z ltac:(vm_compute; reflexivity)))).
Qed.
Definition x2 : MW Fake Memory := mkMW m3 noModules.

Definition migrateDocs : M (MW Fake Memory) unit := migrate (SystemCtx ownerCtx) T1 "docs".
Lemma migration_exact_witness :
  is_ok (migrateDocs x2).1 = true ∧ role_perms (az_st m3) "a" = [oldReadRef] ∧
  docReadRef ∈ role_perms (az_st (mw_az (migrateDocs x2).2)) "a".
Proof.
  split; [vm_compute; reflexivity|]. split; [vm_compute; reflexivity|].
  destruct (migration_exact seqID (SystemCtx ownerCtx) T1 "docs" x2 (migrateDocs x2).2) as (_ & _ & Hm).
  - apply m3_Good.
  - vm_compute. reflexivity.
  - apply (run_ok migrateDocs x2 tt). vm_compute. reflexivity.
  - destruct Hm as [Hm _]; [vm_compute; reflexivity|]. destruct (role_in (az_st m3) T1 "a") as [r|] eqn:Er; [|vm_compute in Er; discriminate Er].
    apply (Hm "a" r Er). right. exists oldReadRef, docRead. split_and!; try (vm_compute; reflexivity).
    + apply list_elem_of_In. vm_compute. by left.
    + apply list_elem_of_In. vm_compute. right. by left.
Defined.

(** The module registers: its permission, a role, a grant to a built-in role. *)
Definition viewerDef : ModuleRoleDef := mkRoleDef "docs" "viewer" "Viewer" "" ["doc:read"] 0 None.
Definition syncDocs : M AZW (gmap string Z) := syncRoles seqID (SystemCtx ownerCtx) T1 "docs" [viewerDef].
Lemma module_roles_synced_witness :
  is_ok (syncDocs m3).1 = true ∧
  ∃ id r, role_in (az_st (syncDocs m3).2) T1 id = Some r ∧ copy_of "docs" viewerDef r ∧ docReadRef ∈ role_perms (az_st (syncDocs m3).2) id.
Proof.
  split; [vm_compute; reflexivity|].
  destruct (module_roles_synced seqID (SystemCtx ownerCtx) T1 "docs" [viewerDef] m3 (ok_value syncDocs m3 ∅) (syncDocs m3).2) as (Hs & _ & _).
  - apply m3_Good.
  - vm_compute. reflexivity.
  - cbn. apply NoDup_singleton.
  - apply (run_ok_value syncDocs m3 ∅). vm_compute. reflexivity.
  - destruct (Hs viewerDef) as (id & r & Hr & Hc & Hp); [by apply list_elem_of_singleton|by left|].
    exists id, r. split; [exact Hr|]. split; [exact Hc|]. apply Hp. split.
    + apply list_elem_of_In. vm_compute. right. by left.
    + exists "doc:read". split; [by apply list_elem_of_singleton|vm_compute; reflexivity].
Defined.

Definition docsReg (grants : list BuiltinGrant) : Registration :=
  mkRegistration "docs" "Documents" "svc/docs" "" [mkPermDef "doc" "read" "Read"] [mkModuleRole "viewer" "Viewer" "" ["doc:read"]] true grants true [T1].
Definition registerDocs (grants : list BuiltinGrant) : M (MW Fake Memory) RegisterResult := Register seqID "" ownerCtx (docsReg grants).
Definition noResult : RegisterResult := mkRegisterResult 0 [] [] 0 [] 0.
Definition x3 : MW Fake Memory := (registerDocs [] x2).2.
Lemma noModules_ok : CatInv noModules.
Proof. done. Qed.
Lemma x3_run : Register seqID "" ownerCtx (docsReg []) x2 = (Ok (ok_value (registerDocs []) x2 noResult), x3).
Proof. exact (run_ok_value (registerDocs []) x2 noResult ltac:(vm_compute; reflexivity)). Qed.
Lemma x3_call : module_call seqID "" None (λ t, t ∈ [T1]) (own_or_twin "docs" []) x2 x3.
Proof. exact (mc_register seqID "" None ownerCtx (docsReg []) _ x2 x3 x3_run). Qed.
Lemma x3_Good : Good seqID (mw_az x3).
Proof. destruct (module_call_stepped seqID "" None _ _ _ _ x3_call m3_Good noModules_ok) as [S _]. apply S. Qed.

(** u1 keeps its access through the pruning. *)
Definition prune : M AZW PruneResult := PruneLegacy 50 ownerCtx [T1] false.
Lemma prune_keeps_access_witness :
  is_ok (prune (mw_az x3)).1 = true ∧ ok_value prune (mw_az x3) (mkPruned 0 0 0) = mkPruned 1 1 1 ∧
  (has_perm (az_st (mw_az x3)) T1 "u1" oldReadRef → has_perm (az_st (prune (mw_az x3)).2) T1 "u1" docReadRef).
Proof.
  split; [vm_compute; reflexivity|]. split; [vm_compute; reflexivity|].
  destruct (prune_keeps_access seqID 50 ownerCtx [T1] (mw_az x3) (ok_value prune (mw_az x3) (mkPruned 0 0 0)) (prune (mw_az x3)).2) as (_ & _ & Hl).
  - exact x3_Good.
  - apply Forall_singleton. exact validT1.
  - apply (run_ok_value prune). vm_compute. reflexivity.
  - intros Hp. destruct (Hl T1 "u1" oldReadRef) as [_ Hk]; [by apply list_elem_of_singleton|reflexivity|].
    destruct (Hk Hp) as [_ Hall]. apply (Hall docRead). split; [|done]. apply list_elem_of_In. vm_compute. right. by left.
Defined.

(** u1, who holds the reader role, looks at the catalogue after the module has
    registered. *)
Definition u1Actor : Actor := mkActor KindUser "u1" T1 "s" ["reader"] ["pwd"] "" "" "".
Definition listing : M (MW Fake Memory) (list CatalogueEntry) := Catalogue viewerCtx T1 u1Actor.
Lemma catalogue_marks_grantable_witness :
  ok_value listing x3 [] = [mkEntry "docs:doc:read" "docs" "Documents" "doc" "read" "Read" true false;
                            mkEntry "doc:read" "" "Before modules" "doc" "read" "Read" true true] ∧
  can T1 "u1" (tuplesW (mw_az x3)) docReadRef.
Proof.
  assert (Hout : ok_value listing x3 [] = [mkEntry "docs:doc:read" "docs" "Documents" "doc" "read" "Read" true false;
                            mkEntry "doc:read" "" "Before modules" "doc" "read" "Read" true true]) by (vm_compute; reflexivity).
  split; [exact Hout|].
  destruct (catalogue_marks_grantable viewerCtx T1 u1Actor x3 (listing x3).2 (ok_value listing x3 [])) as (_ & _ & _ & _ & He).
  - apply (run_ok_value listing). vm_compute. reflexivity.
  - rewrite Hout in He. destruct (He (mkEntry "docs:doc:read" "docs" "Documents" "doc" "read" "Read" true false)) as [_ Hg]; [by left|].
    destruct (proj1 Hg eq_refl) as [?|[?|Hc]]; [discriminate..|exact Hc].
Defined.

(** ** A withdrawn built-in grant leaves its legacy twin *)
Definition y0 : MW Fake Memory := mkMW (EnsureBuiltin seqID ownerCtx T1 ["auditor"] m0).2 noModules.
Definition y1 : MW Fake Memory := (registerDocs [mkBuiltinGrant "auditor" ["doc:read"]] y0).2.
Definition y2 : MW Fake Memory := (registerDocs [] y1).2.
Definition y3 : MW Fake Memory := (registerDocs [] y2).2.

(** The module grants its permission to a built-in role: the role gets it and,
    for old gateways, the legacy form.  The next registration withdraws the
    grant: only the scoped form is revoked.  From then on pruning is refused,
    and registering again does not help. *)
Lemma withdrawn_grant_blocks_prune :
  role_perms (az_st (mw_az y1)) "a" = [oldReadRef; docReadRef] ∧
  role_perms (az_st (mw_az y2)) "a" = [oldReadRef] ∧
  (prune (mw_az y1)).1 = Ok (mkPruned 1 1 1) ∧
  (prune (mw_az y2)).1 = Err ErrPruneRefused ∧
  (prune (mw_az y3)).1 = Err ErrPruneRefused.
Proof. split_and!; vm_compute; reflexivity. Qed.

(** ** Concrete calls of the authorization API *)
From S2P Require Import Prelude GoStrings Regex PermRef TenantCtx Models Cache AuditEvents Session MemStore SessionSafety SessionRuns.
From S2P Require Import Fga MemRoles AuthzClient AuthzServices MemModules Modules PermVerify AuthzApi AuthzFacts Mirror AuthzSafety ModuleSafety AuthzApiSafety AuthzRuns.
#[local] Open Scope list_scope.
#[local] Open Scope go_scope.

Definition docsID : string := "spiffe://tangra.io/svc/docs".
(** The registration of the docs service as its SDK holds it: one role, whose
    name is not trimmed and whose permission is written in full. *)
Definition docsSdk : SdkRegistration :=
  mkSdkReg "docs" "Documents" [mkPermDef "doc" "read" "Read"] [mkModuleRole "viewer" " Viewer " "" ["docs:doc:read"]] {["auditor" := ["doc:read"]]} true [T1].
Lemma sdk_registration_accepted_witness :
  ∃ reg defs, validate reg = Ok (defs, []) ∧ (RdSlug <$> defs) = ["viewer"] ∧
    is_ok (ApiRegister seqID "" "" None true true (Some docsID) ownerCtx (SdkRequest docsSdk) x2).1 = true ∧
    RgModule reg = "docs" ∧ RgTenants reg = [T1].
Proof.
  destruct (sdk_registration_accepted seqID "" "" None docsSdk docsID ownerCtx x2 [T1]) as (reg & defs & Hv & Hd & Hm & _ & _ & Ht & _).
  - vm_compute. reflexivity.
  - vm_compute. reflexivity.
  - vm_compute. reflexivity.
  - vm_compute. discriminate.
  - reflexivity.
  - vm_compute. reflexivity.
  - exists reg, defs. split; [exact Hv|]. split; [exact Hd|]. split; [vm_compute; reflexivity|]. by split.
Defined.

Definition registerApi : M (MW Fake Memory) RegisterResponse := ApiRegister seqID "" "" None true true (Some docsID) ownerCtx (SdkRequest docsSdk).
Definition noResponse : RegisterResponse := empty_response 0.
(** u1's reader role was granted the legacy permission, which the registration
    migrates: the gain is of the module's own reference. *)
Lemma api_registration_confined_witness :
  is_ok (registerApi x2).1 = true ∧ Good seqID (mw_az (registerApi x2).2) ∧
  (can T1 "u1" (tuplesW (mw_az (registerApi x2).2)) docReadRef → can T1 "u1" (tuplesW (mw_az x2)) docReadRef ∨ T1 ∈ [T1] ∧ RModule docReadRef = "docs").
Proof.
  split; [vm_compute; reflexivity|].
  destruct (api_registration_confined seqID "" "" None true true (Some docsID) ownerCtx (SdkRequest docsSdk) x2 (ok_value registerApi x2 noResponse) (registerApi x2).2)
    as (id & m & Hid & Hm & HG & _ & Hg & _).
  - exact (run_ok_value registerApi x2 noResponse ltac:(vm_compute; reflexivity)).
  - exact m3_Good.
  - exact noModules_ok.
  - split; [exact HG|]. intros Hc. destruct (Hg T1 "u1" docReadRef) as [Hold|[HT _]]; [vm_compute; reflexivity|vm_compute; reflexivity|exact Hc|by left|].
    right. split; [by apply HT|reflexivity].
Defined.

(** The service asks about its own permission and names the module once. *)
Definition askDocs : M (MW Fake Memory) (list Decision) :=
  ApiBatchCheck "" (Some docsID) ownerCtx T1 "u1" [mkAsk "" "doc" "read"; mkAsk "docs" "doc" "read"].
Definition x4 : MW Fake Memory := (registerApi x2).2.
Lemma api_checks_own_module_witness :
  DAllowed <$> ok_value askDocs x4 [] = [true; true] ∧
  ∃ refs, BatchDecide (WithActor ownerCtx (ActorFromService docsID)) T1 "u1" refs (mw_az x4) = (Ok (ok_value askDocs x4 []), mw_az (askDocs x4).2) ∧
    length refs = 2%nat ∧ Forall (λ ref, RModule ref = "docs") refs.
Proof.
  split; [vm_compute; reflexivity|].
  destruct (api_checks_own_module "" (Some docsID) ownerCtx T1 "u1" [mkAsk "" "doc" "read"; mkAsk "docs" "doc" "read"] x4 (ok_value askDocs x4 []) (askDocs x4).2)
    as (refs & E & _ & _ & _ & Hr).
  - exact (run_ok_value askDocs x4 [] ltac:(vm_compute; reflexivity)).
  - exists refs. split; [exact E|]. split; [by apply Forall2_length in Hr|]. apply Forall2_Forall_r with (l := [mkAsk "" "doc" "read"; mkAsk "docs" "doc" "read"]) (P := λ a ref, asked (mkCaller docsID "docs" false) (PaModule a) (PaResource a) (PaAction a) ref).
    + exact Hr.
    + repeat constructor; by intros ref (_ & ? & _).
Defined.

(** A service that names another module is refused, and only the refusal is
    recorded; the gateway is answered about the module it names. *)
Example other_module_refused :
  let ask id := ApiBatchCheck (B := Fake) (K := Memory) "" (Some id) ownerCtx T1 "u1" [mkAsk "docs" "doc" "read"] x4 in
  (ask "spiffe://tangra.io/svc/mail").1 = Err errModuleMismatch ∧ is_ok (ask "spiffe://tangra.io/svc/gateway").1 = true ∧
  (ApiRegister seqID "" "" None true true (Some "spiffe://tangra.io/svc/mail") ownerCtx (SdkRequest docsSdk) x2).1 = Err errModuleMismatch.
Proof. vm_compute. repeat split. Qed.

(** A display name with an outer space passes the SDK's check and is then
    refused by the server. *)
Example spaced_name_refused :
  let r := mkSdkReg "docs" "Documents " [mkPermDef "doc" "read" "Read"] [] ∅ true [T1] in
  SdkValidate r = None ∧ is_ok (SdkRegister (ApiRegister seqID "" "" None true true (Some docsID) ownerCtx) r x2).1 = false ∧
  is_ok (SdkRegister (ApiRegister seqID "" "" None true true (Some docsID) ownerCtx) docsSdk x2).1 = true.
Proof. vm_compute. repeat split. Qed.
