(* ===== verification/InviteRuns.v ===== *)
(** * Concrete invitations: the witness of InviteSafety, and a grant that an
      acceptance leaves behind *)
From S2P Require Import Prelude GoStrings Base64 Utf8 Regex PermRef TenantCtx Models Password Cache Envelope AuditEvents Session MemStore SessionSafety SessionRuns Mfa MfaSafety Outbox Tenants Signin MemAccounts SigninRuns Recovery Fga MemRoles AuthzClient AuthzServices Invite InviteSafety AuthzFacts Mirror AuthzSafety GroupSafety AuthzRuns.
#[local] Open Scope list_scope.
#[local] Open Scope go_scope.

#[local] Existing Instance toyAEAD.
#[local] Existing Instance fillArgon2.
#[local] Existing Instance fillArgon2_laws.
Notation IWM := (IW Fake Memory).

(** u7 was imported from a directory; viewer is a role with a permission. *)
Definition imported7 : User := mkUser "u7" T1 "u7@x" "Seven" "imported" None false None 0 None None "Sev" "En" false.
Definition storeI : Store := set_Users (az_st a1) {[user_key id T1 "u7@x" := imported7]}.
Definition i0 : IWM := mkIW (with_az_st a1 storeI) ["tok1"; "tok2"; "tok3"; "tok4"; "tok5"].
Definition owner0 : Actor := mkActor KindUser "u0" T1 "s" ["owner"] ["pwd"] "" "" "".
Definition noParams : InviteParams := mkInviteParams "" [] [] "" "".

(** The owner activates u7, who accepts. *)
Definition activate7 : M IWM (list ActivateItem) :=
  Activate tokHash seqID id "K" "https://auth" (λ _, "{}") None true ownerCtx owner0 T1 ["u7"] noParams.
#[local] Notation accept7 pw := (Accept (B:=Fake) (K:=Memory) tokHash seqID id true anonymous "tok1" "" pw).
Definition i1 : IWM := (activate7 i0).2.
Definition i2 : IWM := ((accept7 "correct horse") i1).2.
Definition out2 : Accepted := ok_value (accept7 "correct horse") i1 (mkAccepted User0 Tenant0 [] Policy0 false).

Lemma i0_users : UInv seqID id (az_ids (iw_az i0)) (az_st (iw_az i0)).
Proof.
  assert (HU : Users (az_st (iw_az i0)) = {[user_key id T1 "u7@x" := imported7]}) by reflexivity.
  split; unfold users_unique; rewrite HU.
  - intros k k' u u' [<- <-]%lookup_singleton_Some [<- <-]%lookup_singleton_Some. done.
  - intros k u [<- <-]%lookup_singleton_Some. done.
  - intros k u n [<- <-]%lookup_singleton_Some _ E. apply (f_equal (λ s, index_byte "u" s)) in E. revert E.
    cbn. induction n as [|n IH]; [done|]. cbn. by destruct (index_byte "u" (seqID n)).
Qed.

Lemma i2_accepted : (accept7 "correct horse") i1 = (Ok out2, i2).
Proof. unfold out2, i2. apply run_ok_value. vm_compute. reflexivity. Qed.
Lemma i0_entropy : NoDup (iw_entropy i0).
Proof. apply (bool_decide_unpack _). vm_compute. exact I. Qed.
Lemma i1_reached : rtc (inv_step tokHash seqID id "K" "https://auth" (λ _, "{}") None true) i0 i1.
Proof. apply rtc_once. unfold i1, activate7. apply is_activate. vm_compute. reflexivity. Qed.

Lemma invitation_single_use_witness :
  (accept7 "correct horse") i1 = (Ok out2, i2) ∧ is_err ((accept7 "another horse") i2).1 = true.
Proof.
  split; [exact i2_accepted|].
  refine (proj2 (invitation_single_use tokHash seqID id "K" "https://auth" (λ _, "{}") None _ true i0 i1 anonymous "tok1" ""
    "correct horse" out2 i2 i0_users i0_entropy eq_refl i1_reached i2_accepted) i2 anonymous "" "another horse" (rtc_refl _ _)).
  discriminate.
Defined.

(** Between activation and acceptance the owner assigns u7 the role viewer.
    The acceptance replaces the bindings by the invited roles but removes no
    tuple: nothing in the rows gives u7 the permission, and the check does. *)
Definition assigned7 : IWM := (azM (AssignRoles ownerCtx T1 "u7" ["a"]) i1).2.
Definition accepted7 : IWM := ((accept7 "correct horse") assigned7).2.
Theorem accept_keeps_old_grants :
  is_ok ((accept7 "correct horse") assigned7).1 = true ∧
  bindings_of (az_st (iw_az accepted7)) T1 "u7" = [] ∧
  check check_depth (f_tuples (az_fga (iw_az accepted7))) (granted_tuple T1 "u7" docReadRef) = true.
Proof. vm_compute. split_and!; reflexivity. Qed.
