(* ===== verification/TenantService.v ===== *)
(** * Tenants and operator access (internal/tenant/tenant.go, grants.go)

    Operators create, suspend and reactivate tenants, and enter one only
    through a grant that expires; administrators set the policy of theirs. *)
From S2P Require Import Prelude GoStrings Base64 Utf8 Regex PermRef TenantCtx Models Password Cache Envelope AuditEvents Session MemStore SessionSafety Mfa MfaSafety Outbox Tenants Signin MemAccounts Recovery.
From S2P Require Import Fga MemRoles AuthzClient AuthzServices Invite.
#[local] Open Scope list_scope.
#[local] Open Scope go_scope.

Definition ErrNotOperator : err := ErrText "forbidden".
Definition ErrTenantValidation : err := ErrText "validation_failed".
Definition ErrNoGrant : err := ErrNoOperatorGrant.
Definition BuiltinRoles : list string := ["owner"; "admin"; "member"; "auditor"].
Definition MaxGrant : Z := 4 * Dur.hour.
Definition MinGrantReason : nat := 10.

Record OperatorGrantRow : Type := mkGrantRow {
  OgID : string; OgOperatorUserID : string; OgTenantID : string; OgReason : string;
  OgGrantedAt : Z; OgExpiresAt : Z; OgRevokedAt : option Z }.
(** Times of views are kept as they are; their text is not modelled. *)
Record TenantView : Type := mkTenantView { TvID : string; TvSlug : string; TvDisplayName : string; TvStatus : string; TvKind : string }.
Record TenantCreatedRes : Type := mkTenantCreated { TcTenant : TenantView; TcInvitationID : string }.
Record GrantView : Type := mkGrantView { GvID : string; GvTenantID : string; GvReason : string; GvExpiresAt : Z }.

(** Policy.JSON, as the decoded document. *)
Definition PolicyJSON (p : Policy) : RawPolicy :=
  RawFields (mkFields (Some (SessionLifetime p)) (Some (IdleTimeout p)) (Some (AccessTokenLifetime p)) (Some (PasswordMinLength p))
               (Some (MFARequired p)) (Some (LockoutThreshold p)) (Some (LockoutDuration p))).
Definition require_mfa (p : Policy) : Policy :=
  mkPolicy (SessionLifetime p) (IdleTimeout p) (AccessTokenLifetime p) (PasswordMinLength p) true (LockoutThreshold p) (LockoutDuration p).

(** ** The rows (internal/memstore/memstore.go) *)
Definition set_Tenants (m : Store) (x : gmap string Tenant) : Store :=
  mkStore x (Users m) (Sessions m) (Revs m) (RoleMap m) (RoleRows m) (Bindings m) (RolePerms m) (Permissions m) (groups m)
    (members m) (groles m) (added m) (Attempts m) (Clients m) (Codes m) (keys m) (Invitations m) (Outbox m) (Recoveries m) (conns m) (links m) (handles m).
Definition InsertTenant (t : Tenant) : M Store unit := λ m,
  if existsb (λ x, bool_decide (TSlug x = TSlug t)) (values (Tenants m)) then (Err ErrConflict, m)
  else (Ok tt, set_Tenants m (<[TID t := t]> (Tenants m))).
Definition ListTenants : M Store (list Tenant) := λ m, (Ok (values (Tenants m)), m).
Definition update_tenant (id : string) (f : Tenant → Tenant) : M Store unit := λ m,
  match Tenants m !! id with
  | None => (Err ErrNotFound, m)
  | Some t => (Ok tt, set_Tenants m (<[id := f t]> (Tenants m)))
  end.
Definition tenant_status (s : string) (t : Tenant) : Tenant := mkTenant (TID t) (TSlug t) (TDisplayName t) s (TKind t) (TPolicy t).
Definition tenant_policy (p : RawPolicy) (t : Tenant) : Tenant := mkTenant (TID t) (TSlug t) (TDisplayName t) (TStatus t) (TKind t) p.
Definition UpdateTenantStatus (id status : string) : M Store unit := update_tenant id (tenant_status status).
Definition UpdateTenantPolicy (id : string) (p : RawPolicy) : M Store unit := update_tenant id (tenant_policy p).

Definition Grants : Type := gmap string OperatorGrantRow.
Definition InsertOperatorGrant (g : OperatorGrantRow) : M Grants unit := modify (λ m, <[OgID g := g]> m).
Definition ActiveOperatorGrant (now : Z) (operator tid : string) : M Grants OperatorGrantRow := λ m,
  match find_first (λ g, bool_decide (OgOperatorUserID g = operator) && bool_decide (OgTenantID g = tid) && bool_decide (OgRevokedAt g = None) && (now <? OgExpiresAt g)%Z) (values m) with
  | Some g => (Ok g, m)
  | None => (Err ErrNotFound, m)
  end.

(** ** The services *)
Record TW (B K : Type) : Type := mkTW { tw_iw : IW B K; tw_grants : Grants }.
Arguments mkTW {B K}. Arguments tw_iw {B K}. Arguments tw_grants {B K}.

Section TenantService.
Context {B K : Type} {BB : Backend B} {KVK : KV K} {A2 : Argon2} {AE : AEAD}.
Context (HashToken : string → string) (newID : nat → string) (unicode_lower : string → string).
Context (kek issuer : string) (json_text : json → string).
Context (esc : option (Ctx → Actor → string → list string → list string → M (AZ B K) unit)).
Context (rollback : bool).
(** OnCreated, and the texts of a policy and of a time. *)
Context (onCreated : option (Ctx → string → M (IW B K) unit)) (policy_text : Policy → string) (rfc3339 : Z → string).
Notation W := (TW B K).

Definition iwM {A} (m : M (IW B K) A) : M W A := λ w, let '(r, x) := m (tw_iw w) in (r, mkTW x (tw_grants w)).
Definition twSt {A} (m : M Store A) : M W A := iwM (txM m).
Definition twEmit (e : Event) : M W unit := iwM (iwEmit e).
Definition twNow : M W Z := iwM iwNow.
Definition grantsM {A} (f : Z → M Grants A) : M W A := λ w,
  let '(r, g) := f (az_now (iw_az (tw_iw w))) (tw_grants w) in (r, mkTW (tw_iw w) g).
(** The session manager shares the store, the cache and the clock. *)
Definition sessM {A} (m : M (Manager Store K) A) : M W A := λ w,
  let a := iw_az (tw_iw w) in
  let '(r, s) := m (mkManager (az_st a) (az_cache a) (az_audit a) (az_now a) (iw_entropy (tw_iw w)) (az_ids a)) in
  (r, mkTW (mkIW (mkAZ (m_st s) (az_fga a) (m_cache s) (m_audit s) (az_refusals a) (m_now s) (m_ids s)) (m_entropy s)) (tw_grants w)).
Definition bumpVersion (tid : string) : M W unit :=
  now <- twNow ;; iwM (azM (ignore (kvM 0%Z (BumpTenantVersion now tid)))).
Definition operatorEvent (typ tid op outcome reason kind id : string) (d : Details) : Event :=
  mkEvent typ tid "operator" op kind id outcome reason d.

Definition requireOperator (ctx : Ctx) : M W Actor :=
  match FromContext ctx with
  | Some a => if bool_decide (AKind a = KindOperator) then ret a else throw ErrNotOperator
  | None => throw ErrNotOperator
  end.
Definition view_of (t : Tenant) : TenantView := mkTenantView (TID t) (TSlug t) (TDisplayName t) (TStatus t) (TKind t).
Definition ListAll (ctx : Ctx) : M W (list TenantView) :=
  requireOperator ctx ;;;
  tenants <- twSt ListTenants ;;
  ret (view_of <$> tenants).

(** The built-in roles; the id of the owner role. *)
Definition seed_role (tid : string) (ownerRole : string) (slug : string) : M W string :=
  id <- iwM (iwNewID newID) ;;
  name <- (match capitalize slug with Some n => ret n | None => throw (ErrText "slice bounds out of range") end) ;;
  twSt (InsertRole (mkRole id tid slug name true "" "" "" "" None)) ;;;
  ret (if bool_decide (slug = "owner") then id else ownerRole).
Definition CreateTenant (ctx : Ctx) (slug displayName ownerEmail : string) : M W TenantCreatedRes :=
  op <- requireOperator ctx ;;
  match ParseTenantSlug slug with
  | Err _ => throw ErrTenantValidation
  | Ok _ =>
      let displayName := TrimSpace displayName in
      if bool_decide (displayName = "") || (120 <? String.length displayName)%nat || negb (contains "@" ownerEmail) then throw ErrTenantValidation else
      id <- iwM (iwNewID newID) ;;
      let t := mkTenant id slug displayName "active" "customer" (PolicyJSON DefaultPolicy) in
      r <- attempt (twSt (InsertTenant t)) ;;
      (match r with Ok _ => ret tt | Err e => throw (if bool_decide (e = ErrConflict) then ErrTenantValidation else e) end) ;;;
      ownerRole <- fold_each BuiltinRoles "" (seed_role id) ;;
      iwM (azM (Write (SystemCtx ctx) id (RoleTenantTuple id <$> BuiltinRoles) [])) ;;;
      (match onCreated with None => ret tt | Some f => ignore (iwM (f ctx id)) end) ;;;
      inv <- iwM (CreateInvite HashToken newID unicode_lower kek issuer json_text esc rollback (WithOperatorGrant ctx "tenant-creation" id) op id ownerEmail [ownerRole]) ;;
      twEmit (operatorEvent TenantCreated id (AUserID op) "ok" "" "tenant" id [("slug", slug : detail)]) ;;;
      ret (mkTenantCreated (mkTenantView id slug displayName "active" "customer") inv)
  end.

Definition SuspendTenant (ctx : Ctx) (id : string) : M W unit :=
  op <- requireOperator ctx ;;
  t <- twSt (TenantRow id) ;;
  if bool_decide (TKind t = "platform") then throw ErrTenantValidation else
  (if bool_decide (TStatus t = "suspended") then ret tt else twSt (UpdateTenantStatus id "suspended")) ;;;
  sessM (RevokeTenant ctx id ReasonSuspended) ;;;
  bumpVersion id ;;;
  twEmit (operatorEvent TenantSuspended id (AUserID op) "ok" "" "tenant" id []).

Definition ReactivateTenant (ctx : Ctx) (id : string) : M W unit :=
  op <- requireOperator ctx ;;
  t <- twSt (TenantRow id) ;;
  if bool_decide (TStatus t = "active") then ret tt else
  twSt (UpdateTenantStatus id "active") ;;;
  bumpVersion id ;;;
  twEmit (operatorEvent TenantReactivated id (AUserID op) "ok" "" "tenant" id []).

Definition GetPolicy (ctx : Ctx) (tid : string) : M W Policy :=
  iwM (azM (requireM ctx tid)) ;;;
  t <- twSt (TenantRow tid) ;;
  match ParsePolicy (TPolicy t) (bool_decide (TKind t = "platform")) with
  | (p, None) => ret p
  | (_, Some e) => throw e
  end.
Definition UpdatePolicy (ctx : Ctx) (tid : string) (p : Policy) : M W Policy :=
  match FromContext ctx with
  | None => throw ErrNoActor
  | Some a =>
      iwM (azM (requireM ctx tid)) ;;;
      t <- twSt (TenantRow tid) ;;
      let p := if bool_decide (TKind t = "platform") then require_mfa p else p in
      match Validate p with
      | Some _ => throw ErrTenantValidation
      | None =>
          twSt (UpdateTenantPolicy tid (PolicyJSON p)) ;;;
          bumpVersion tid ;;;
          twEmit (mkEvent PolicyUpdated tid (kind_string (AKind a)) (AUserID a) "tenant" tid "ok" "" [("policy", policy_text p : detail)]) ;;;
          ret p
      end
  end.

(** ** Operator grants *)
Definition CreateGrant (ctx : Ctx) (tid reason : string) (duration : Z) : M W GrantView :=
  op <- requireOperator ctx ;;
  let reason := TrimSpace reason in
  if (String.length reason <? MinGrantReason)%nat || (500 <? String.length reason)%nat || (duration <=? 0)%Z || (MaxGrant <? duration)%Z || negb (ValidTenantID tid)
  then throw ErrTenantValidation else
  t <- twSt (TenantRow tid) ;;
  if bool_decide (TKind t = "platform") then throw ErrTenantValidation else
  now <- twNow ;;
  id <- iwM (iwNewID newID) ;;
  let gr := mkGrantRow id (AUserID op) tid reason now (now + duration) None in
  grantsM (λ _, InsertOperatorGrant gr) ;;;
  twEmit (operatorEvent OperatorGrantCreated tid (AUserID op) "ok" "" "operator_grant" id
            [("reason", reason : detail); ("expires_at", rfc3339 (OgExpiresAt gr) : detail)]) ;;;
  ret (mkGrantView id tid reason (OgExpiresAt gr)).

Definition ApplyGrant (ctx : Ctx) (tid : string) : M W Ctx :=
  op <- requireOperator ctx ;;
  if bool_decide (ATenantID op = tid) then ret ctx else
  r <- attempt (grantsM (λ now, ActiveOperatorGrant now (AUserID op) tid)) ;;
  match r with
  | Err _ => twEmit (operatorEvent CrossTenantRefused tid (AUserID op) "refused" "no_operator_grant" "" "" []) ;;; throw ErrNoGrant
  | Ok gr =>
      now <- twNow ;;
      if negb (now <? OgExpiresAt gr)%Z then throw ErrNoGrant else
      twEmit (operatorEvent OperatorGrantUsed tid (AUserID op) "ok" "" "operator_grant" (OgID gr) []) ;;;
      ret (WithOperatorGrant ctx (OgID gr) tid)
  end.
End TenantService.
