(* ===== verification/TenantSafety.v ===== *)
(** * Operators enter tenants only through grants; suspension; policies *)
From S2P Require Import Prelude GoStrings Base64 Utf8 Regex PermRef TenantCtx Models Password Cache Envelope AuditEvents Session MemStore SessionSafety Mfa MfaSafety Outbox Tenants Signin MemAccounts Recovery RecoverySafety.
From S2P Require Import Fga MemRoles AuthzClient AuthzServices Invite AuthzFacts MemDirectory Admin AdminSafety TenantService.
#[local] Open Scope list_scope.
#[local] Open Scope go_scope.
#[local] Set Default Proof Using "Type".

Section TenantSafety.
Context {B K : Type} {BB : Backend B} {KVK : KV K}.
Context (newID : nat → string) (policy_text : Policy → string) (rfc3339 : Z → string).
Notation W := (TW B K).
Implicit Types (w : W) (tid : string).

Definition stW w : Store := az_st (iw_az (tw_iw w)).
Definition nowW w : Z := az_now (iw_az (tw_iw w)).
Lemma requireOperator_ok ctx w op w' : requireOperator ctx w = (Ok op, w') → w' = w ∧ ctx_actor ctx = Some op ∧ AKind op = KindOperator.
Proof.
  unfold requireOperator, FromContext. destruct (ctx_actor ctx) as [a|]; [|done]. case_bool_decide; [|done]. by intros [= <- <-].
Qed.
Lemma twSt_ok {A} (m : M Store A) w (a : A) w' : twSt m w = (Ok a, w') →
  m (stW w) = (Ok a, stW w') ∧ tw_grants w' = tw_grants w ∧ nowW w' = nowW w ∧ iw_entropy (tw_iw w') = iw_entropy (tw_iw w) ∧
  ∀ st, stW w' = st → w' = mkTW (mkIW (with_st (iw_az (tw_iw w)) st) (iw_entropy (tw_iw w))) (tw_grants w).
Proof.
  unfold twSt, iwM, txM, azM, stM, stW. destruct (m (az_st (iw_az (tw_iw w)))) as [r s]. intros [= -> <-]. cbn. split_and!; try done. by intros st <-.
Qed.

(** ** Grants *)
Definition grant_ok (now : Z) (id : string) (g : OperatorGrantRow) : Prop :=
  OgID g = id ∧ (OgGrantedAt g <= now)%Z ∧ (OgGrantedAt g < OgExpiresAt g <= OgGrantedAt g + MaxGrant)%Z ∧
  (MinGrantReason <= String.length (OgReason g))%nat ∧ ValidTenantID (OgTenantID g) = true.
Definition GrantInv w : Prop := ∀ id g, tw_grants w !! id = Some g → grant_ok (nowW w) id g.

(** A step: one of the two calls, or anything else that leaves the grants and
    does not turn the clock back. *)
Inductive tstep : W → W → Prop :=
  | ts_grant ctx tid reason d r w w' : CreateGrant newID rfc3339 ctx tid reason d w = (r, w') → tstep w w'
  | ts_apply ctx tid r w w' : ApplyGrant ctx tid w = (r, w') → tstep w w'
  | ts_other w w' : tw_grants w' = tw_grants w → (nowW w <= nowW w')%Z → tstep w w'.

Lemma twNow_run w : twNow w = (Ok (nowW w), w).
Proof. by destruct w as [[[] ?] ?]. Qed.
Lemma still_twSt {A} (m : M Store A) w r w' : twSt m w = (r, w') → tw_grants w' = tw_grants w ∧ nowW w' = nowW w.
Proof. unfold twSt, iwM, txM, azM, stM. destruct (m _). by intros [= _ <-]. Qed.
Lemma CreateGrant_run ctx tid reason d w r w' : CreateGrant newID rfc3339 ctx tid reason d w = (r, w') →
  nowW w' = nowW w ∧ (tw_grants w' = tw_grants w ∨
   ∃ op g, ctx_actor ctx = Some op ∧ AKind op = KindOperator ∧ tw_grants w' = <[OgID g := g]> (tw_grants w) ∧ grant_ok (nowW w) (OgID g) g ∧
     OgOperatorUserID g = AUserID op ∧ OgTenantID g = tid ∧ ∃ t, Tenants (stW w) !! tid = Some t ∧ TKind t ≠ "platform").
Proof.
  intros E. unfold CreateGrant in E. apply bind_run in E as [(e & E1 & _)|(op & w1 & E1 & E)].
  { unfold requireOperator in E1. destruct (FromContext ctx); [case_bool_decide|]; try discriminate E1; injection E1 as _ <-; auto. }
  apply requireOperator_ok in E1 as (-> & Ha & Hk). cbv zeta in E. destruct (_ || _) eqn:Eb; [injection E as _ <-; auto|].
  apply orb_false_iff in Eb as [[[[E1%Nat.ltb_ge E2]%orb_false_iff E3%Z.leb_gt]%orb_false_iff E4%Z.ltb_ge]%orb_false_iff E5%negb_false_iff].
  apply bind_run in E as [(e & E6 & _)|(t & w1 & E6 & E)]; [apply still_twSt in E6 as [? ?]; auto|]. apply twSt_ok in E6 as (Et & Hg & Hn & _ & _).
  unfold TenantRow in Et. destruct (Tenants (stW w) !! tid) as [t'|] eqn:Ett; [|done]. injection Et as -> Es.
  destruct (bool_decide (TKind t = "platform")) eqn:Ep; [injection E as _ <-; auto|]. apply bool_decide_eq_false in Ep.
  rewrite (bind_ok twNow _ w1 _ w1 (twNow_run w1)) in E. apply bind_run in E as [(e & E7 & _)|(id & w2 & E7 & E)]; [discriminate E7|].
  injection E7 as <- <-. apply bind_run in E as [(e & E8 & _)|([] & w3 & E8 & E)]; [discriminate E8|]. injection E8 as <-. unfold nowW in *. cbn in E. injection E as _ <-. cbn.
  split; [done|]. right. exists op, (mkGrantRow (newID (az_ids (iw_az (tw_iw w1)))) (AUserID op) tid (TrimSpace reason) (az_now (iw_az (tw_iw w1))) (az_now (iw_az (tw_iw w1)) + d) None).
  split_and!; try done; [cbn; by rewrite Hg| |by exists t]. cbn. rewrite Hn. split_and!; cbn; try done; lia.
Qed.
Lemma ApplyGrant_run ctx tid w r w' : ApplyGrant ctx tid w = (r, w') → tw_grants w' = tw_grants w ∧ nowW w' = nowW w ∧
  ∀ ctx', r = Ok ctx' → ∃ op, ctx_actor ctx = Some op ∧ AKind op = KindOperator ∧
    (ATenantID op = tid ∧ ctx' = ctx ∨
     ATenantID op ≠ tid ∧ ∃ g, g ∈ values (tw_grants w) ∧ OgOperatorUserID g = AUserID op ∧ OgTenantID g = tid ∧ OgRevokedAt g = None ∧ (nowW w < OgExpiresAt g)%Z ∧
          ctx' = WithOperatorGrant ctx (OgID g) tid).
Proof.
  intros E. unfold ApplyGrant in E. apply bind_run in E as [(e & E1 & ->)|(op & w1 & E1 & E)].
  { unfold requireOperator in E1. destruct (FromContext ctx); [case_bool_decide|]; try discriminate E1; injection E1 as _ <-; by split_and!. }
  apply requireOperator_ok in E1 as (-> & Ha & Hk). destruct (bool_decide (ATenantID op = tid)) eqn:Et.
  { injection E as <- <-. split_and!; try done. intros ctx' [= <-]. exists op. apply bool_decide_eq_true in Et. auto. }
  apply bool_decide_eq_false in Et. unfold bind, attempt, grantsM, ActiveOperatorGrant in E. destruct (find_first _ _) as [g|] eqn:Ef; cbn in E.
  2:{ injection E as <- <-. by split_and!. }
  apply find_first_Some in Ef as [Hin [[[Ho%bool_decide_eq_true Ht%bool_decide_eq_true]%andb_true_iff Hr%bool_decide_eq_true]%andb_true_iff He]%andb_true_iff].
  rewrite He in E. cbn in E. injection E as <- <-. split_and!; try done. intros ctx' [= <-]. exists op. split_and!; try done. right. split; [done|]. exists g.
  by apply Z.ltb_lt in He.
Qed.
Lemma GrantInv_step w w' : tstep w w' → GrantInv w → GrantInv w'.
Proof.
  intros Hs HI. assert (Hmono : ∀ id g, tw_grants w !! id = Some g → (nowW w <= nowW w')%Z → grant_ok (nowW w') id g).
  { intros id g Hg Hn. destruct (HI id g Hg) as (? & ? & ? & ? & ?). split_and!; try done; lia. }
  destruct Hs as [ctx tid reason d r w w' E|ctx tid r w w' E|w w' Eg Hn]; intros id g Hg.
  - apply CreateGrant_run in E as [En [Eg|(op & g' & _ & _ & Eg & Hok & _)]]; rewrite Eg in Hg; [apply Hmono; [done|lia]|].
    apply lookup_insert_Some in Hg as [[<- <-]|[_ Hg]]; [by rewrite En|apply Hmono; [done|lia]].
  - apply ApplyGrant_run in E as (Eg & En & _). rewrite Eg in Hg. apply Hmono; [done|lia].
  - rewrite Eg in Hg. by apply Hmono.
Qed.
Lemma GrantInv_steps w w' : rtc tstep w w' → GrantInv w → GrantInv w'.
Proof. induction 1 as [|x y z Hs _ IH]; [done|]. intros HI. by apply IH, (GrantInv_step x). Qed.

(** C26. An operator enters a foreign tenant only through a grant of its own for that
    tenant, given at most four hours ago with a reason and not yet expired; the
    context it gets opens that tenant and the operator's own, and no other. *)
Theorem operator_access_bounded w0 w ctx tid ctx' w' :
  tw_grants w0 = ∅ → rtc tstep w0 w → ApplyGrant ctx tid w = (Ok ctx', w') →
  ∃ op, ctx_actor ctx = Some op ∧ AKind op = KindOperator ∧
    (ATenantID op = tid ∧ ctx' = ctx ∨
     ∃ g, tw_grants w !! OgID g = Some g ∧ OgOperatorUserID g = AUserID op ∧ OgTenantID g = tid ∧
       (OgGrantedAt g <= nowW w < OgExpiresAt g)%Z ∧ (OgExpiresAt g <= OgGrantedAt g + 4 * Dur.hour)%Z ∧ (10 <= String.length (OgReason g))%nat ∧
       ∀ t, may_enter ctx' t ↔ t ≠ "" ∧ (t = ATenantID op ∨ t = tid)).
Proof.
  intros H0 Hr E. assert (HI : GrantInv w) by (apply (GrantInv_steps w0 w Hr); intros i x Hx; rewrite H0 in Hx; by apply lookup_empty_Some in Hx). apply ApplyGrant_run in E as (_ & _ & Hc). destruct (Hc ctx' eq_refl) as (op & Ha & Hk & [?|(Hne & g & Hin & Ho & Ht & _ & He & ->)]).
  { exists op. auto. }
  exists op. split; [done|]. split; [done|]. right. apply elem_of_values in Hin as [id Hid].
  destruct (HI id g Hid) as (Hg & Hn & Hx & Hl & _). subst id.
  exists g. unfold MaxGrant, MinGrantReason in *. split_and!; try done; try lia.
  intros t. unfold may_enter, WithOperatorGrant. cbn. rewrite Ha. split.
  - intros (a & [= <-] & Hne' & Hor). split; [done|]. destruct Hor as [Hs|[Hs|[->|(_ & g' & [= <-] & <-)]]]; [congruence|congruence|by left|by right].
  - intros [Hne' [->| ->]]; exists op; split_and!; try done; [auto|right; right; right; eauto].
Qed.

(** ** Suspension and policies *)
Lemma bump_run tid w r w' : bumpVersion tid w = (r, w') → r = Ok tt ∧ stW w' = stW w ∧ tw_grants w' = tw_grants w.
Proof.
  unfold bumpVersion. rewrite (bind_ok twNow _ w _ w (twNow_run w)). unfold iwM, azM, ignore, kvM. destruct w as [[[st f c au rf now ids] en] g]. cbn.
  destruct c as [k|]; cbn; [destruct (BumpTenantVersion _ _ k) as [rr k']|]; cbn; intros [= <- <-]; by split_and!.
Qed.
Lemma twEmit_run e w r w' : twEmit e w = (r, w') → r = Ok tt ∧ stW w' = stW w ∧ tw_grants w' = tw_grants w.
Proof. by intros [= <- <-]. Qed.
Lemma RevokeTenant_rows ctx tid reason (s : Manager Store K) :
  ∃ R, m_st (RevokeTenant ctx tid reason s).2 = set_Revs (RevokeTenantRows (m_now s) tid reason (m_st s)).2 R.
Proof.
  unfold RevokeTenant. rewrite (bind_ok nowM _ s (m_now s) s eq_refl). apply feeds_rows; [done|].
  apply feeds_bind; [apply feeds_publish|intros _; apply feeds_emit].
Qed.
Lemma sessM_run {A} (m : M (Manager Store K) A) w r w' : sessM m w = (r, w') → ∃ s, m_st s = stW w ∧ m_now s = nowW w ∧ (m s).1 = r ∧ stW w' = m_st (m s).2 ∧ tw_grants w' = tw_grants w.
Proof.
  unfold sessM. set (s := mkManager _ _ _ _ _ _). destruct (m s) as [r1 s1] eqn:E. intros [= <- <-]. exists s. by rewrite E.
Qed.
Lemma update_tenant_ok id f st st' : update_tenant id f st = (Ok tt, st') → ∃ t, Tenants st !! id = Some t ∧ st' = set_Tenants st (<[id := f t]> (Tenants st)).
Proof. unfold update_tenant. destruct (Tenants st !! id) as [t|]; [|done]. intros [= <-]. eauto. Qed.
Lemma TenantRow_ok id st t st' : TenantRow id st = (Ok t, st') → st' = st ∧ Tenants st !! id = Some t.
Proof. unfold TenantRow. destruct (Tenants st !! id); [|done]. by intros [= -> ->]. Qed.

(** A suspension takes effect at once.  It is an operator's, never of a
    platform tenant; the tenant is suspended, every session in it is revoked,
    and sessions of other tenants, their rows, accounts and roles stay. *)
Theorem suspension_effective ctx id w w' : SuspendTenant ctx id w = (Ok tt, w') →
  (∃ op, ctx_actor ctx = Some op ∧ AKind op = KindOperator) ∧
  ∃ t, Tenants (stW w) !! id = Some t ∧ TKind t ≠ "platform" ∧
    (∀ x, Tenants (stW w') !! x = if decide (x = id) then Some (tenant_status "suspended" t) else Tenants (stW w) !! x) ∧
    (∀ sid x, Sessions (stW w') !! sid = Some x → STenantID x = id → SRevokedAt x ≠ None) ∧
    (∀ sid x, Sessions (stW w) !! sid = Some x → STenantID x ≠ id → Sessions (stW w') !! sid = Some x) ∧
    Users (stW w') = Users (stW w) ∧ Bindings (stW w') = Bindings (stW w) ∧ RoleRows (stW w') = RoleRows (stW w).
Proof.
  intros E. unfold SuspendTenant in E. apply bind_ok_inv in E as (op & w1 & E1 & E). apply requireOperator_ok in E1 as (-> & Ha & Hk). split; [by exists op|].
  apply bind_ok_inv in E as (t & w1 & E1 & E). apply twSt_ok in E1 as (E1 & _ & Hn & _). apply TenantRow_ok in E1 as [Es1 Ht].
  case_bool_decide as Ep; [done|]. apply bind_ok_inv in E as ([] & w2 & E2 & E).
  assert (Hst : Tenants (stW w2) = <[id := tenant_status "suspended" t]> (Tenants (stW w)) ∧ ∃ T, stW w2 = set_Tenants (stW w) T).
  { case_bool_decide as Esu.
    - injection E2 as <-. rewrite Es1. split; [|exists (Tenants (stW w)); by destruct (stW w)]. rewrite insert_id; [done|]. rewrite Ht. unfold tenant_status. destruct t. cbn in *. by subst.
    - apply twSt_ok in E2 as (E2 & _). rewrite Es1 in E2. apply update_tenant_ok in E2 as (t' & Ht' & ->). assert (t' = t) as -> by congruence. split; [done|by eexists]. }
  destruct Hst as [Hst [T ET]]. apply bind_ok_inv in E as ([] & w3 & E3 & E). apply sessM_run in E3 as (s & Es & _ & _ & Es3 & _).
  destruct (RevokeTenant_rows ctx id ReasonSuspended s) as [R HR]. rewrite HR in Es3. apply bind_ok_inv in E as ([] & w4 & E4 & E). apply bump_run in E4 as (_ & Es4 & _).
  apply twEmit_run in E as (_ & Es5 & _). rewrite Es5, Es4, Es3. unfold RevokeTenantRows, modify. cbn [snd Tenants Users Bindings RoleRows Sessions set_Revs set_Sessions]. rewrite Es.
  assert (Sessions (stW w2) = Sessions (stW w)) as ES by (by rewrite ET). exists t. split_and!; try done.
  - intros x. rewrite Hst. destruct (decide (x = id)) as [->|Hne]; [by rewrite lookup_insert_eq|by rewrite lookup_insert_ne].
  - intros sid x. rewrite lookup_fmap. destruct (Sessions (stW w2) !! sid) as [y|]; [|done]. cbn. intros [= <-]. destruct (bool_decide (STenantID y = id)) eqn:Ed.
    + intros _. unfold revoke_row. destruct (SRevokedAt y) eqn:Er; cbn; by rewrite ?Er.
    + intros Hy. by apply bool_decide_eq_false in Ed.
  - intros sid x Hx Hne. rewrite lookup_fmap, ES, Hx. cbn. by rewrite bool_decide_eq_false_2.
  - by rewrite ET.
  - by rewrite ET.
  - by rewrite ET.
Qed.

Lemma iw_requireM_ok ctx tid w u w' : iwM (azM (requireM ctx tid)) w = (Ok u, w') → w' = w ∧ may_enter ctx tid.
Proof.
  unfold iwM, azM. destruct (requireM ctx tid (iw_az (tw_iw w))) as [r a] eqn:E. intros [= -> <-]. apply requireM_ok in E as [-> Hm]. by destruct w as [[] ?].
Qed.
Lemma may_enter_run ctx tid w : may_enter ctx tid → iwM (azM (requireM ctx tid)) w = (Ok tt, w).
Proof.
  intros Hm. apply Require_ok_iff in Hm. unfold iwM, azM, requireM. destruct (Require ctx tid) as [r o] eqn:E. cbn in Hm. subst r. apply Require_ok_actor in E as (a & _ & _ & ->).
  by destruct w as [[] ?].
Qed.

Lemma ParsePolicy_JSON q b : ParsePolicy (PolicyJSON q) b = let q := if b then require_mfa q else q in (q, Validate q).
Proof. destruct q, b; reflexivity. Qed.

(** What was stored as a policy is what is enforced.  An update needs access to
    the tenant; the policy kept is inside the documented ranges, is the one
    given (a platform tenant always demands a second factor), reads back as it
    is, and no other tenant or row changes. *)
Theorem policy_update_reads_back ctx tid p w q w' : UpdatePolicy policy_text ctx tid p w = (Ok q, w') →
  may_enter ctx tid ∧
  ∃ t, Tenants (stW w) !! tid = Some t ∧ q = (if bool_decide (TKind t = "platform") then require_mfa p else p) ∧ policy_in_range q ∧
    stW w' = set_Tenants (stW w) (<[tid := tenant_policy (PolicyJSON q) t]> (Tenants (stW w))) ∧
    ∀ ctx', may_enter ctx' tid → GetPolicy ctx' tid w' = (Ok q, w').
Proof.
  intros E. unfold UpdatePolicy in E. destruct (FromContext ctx) as [a|]; [|done]. apply bind_ok_inv in E as ([] & w1 & E1 & E). apply iw_requireM_ok in E1 as [-> Hm]. split; [done|].
  apply bind_ok_inv in E as (t & w1 & E1 & E). apply twSt_ok in E1 as (E1 & _). apply TenantRow_ok in E1 as [Es1 Ht]. cbv zeta in E.
  set (q' := if bool_decide (TKind t = "platform") then require_mfa p else p) in *. destruct (Validate q') eqn:Ev; [done|].
  apply bind_ok_inv in E as ([] & w2 & E2 & E). apply twSt_ok in E2 as (E2 & _). rewrite Es1 in E2. apply update_tenant_ok in E2 as (t' & Ht' & Es2). assert (t' = t) as -> by congruence.
  apply bind_ok_inv in E as ([] & w3 & E3 & E). apply bump_run in E3 as (_ & Es3 & _). apply bind_ok_inv in E as ([] & w4 & E4 & E). apply twEmit_run in E4 as (_ & Es4 & _).
  injection E as <- <-. exists t. split_and!; try done; [by apply Validate_spec|congruence|].
  intros ctx' Hm'. unfold GetPolicy. rewrite (bind_ok _ _ _ _ _ (may_enter_run ctx' tid w4 Hm')). assert (Et : Tenants (stW w4) !! tid = Some (tenant_policy (PolicyJSON q') t)) by (rewrite Es4, Es3, Es2; apply lookup_insert_eq).
  assert (Er : twSt (TenantRow tid) w4 = (Ok (tenant_policy (PolicyJSON q') t), w4)).
  { unfold twSt, iwM, txM, azM, stM, TenantRow. unfold stW in Et. rewrite Et. by destruct w4 as [[[] ?] ?]. }
  rewrite (bind_ok _ _ _ _ _ Er). cbn [TPolicy TKind tenant_policy]. rewrite ParsePolicy_JSON.
  assert (Hq : (if bool_decide (TKind t = "platform") then require_mfa q' else q') = q') by (unfold q'; by destruct (bool_decide (TKind t = "platform"))).
  cbv zeta. by rewrite Hq, Ev.
Qed.
End TenantSafety.

(** ** A concrete life of a tenant: witnesses of TenantSafety *)
From S2P Require Import Prelude GoStrings Base64 Utf8 Regex PermRef TenantCtx Models Password Cache Envelope AuditEvents Session MemStore SessionSafety SessionRuns Mfa MfaSafety Outbox Tenants Signin MemAccounts SigninRuns Recovery.
From S2P Require Import Fga MemRoles AuthzClient AuthzServices Invite AuthzFacts AuthzRuns TenantService.
#[local] Open Scope list_scope.
#[local] Open Scope go_scope.

#[local] Existing Instance toyAEAD.
#[local] Existing Instance fillArgon2.
Notation TWM := (TW Fake Memory).

(** Identifiers that have the form of a tenant id. *)
Definition uuid (n : nat) : string := "00000000-0000-0000-0000-" +:+ str_drop 1 (FormatInt (1000000000000 + Z.of_nat n)).
Definition TP : string := uuid 999.
Definition operator : Actor := mkActor KindOperator "op" TP "s" ["operator"] ["pwd"] "" "" "".
Definition opCtx : Ctx := mkCtx (Some operator) None.
Definition storeT : Store :=
  mkStore {[TP := mkTenant TP "platform" "Platform" "active" "platform" RawEmpty]} ∅ ∅ [] ∅ ∅ ∅ ∅ ∅ ∅ ∅ ∅ ∅ [] ∅ ∅ ∅ ∅ [] ∅ ∅ ∅ ∅.
Definition z0 : TWM := mkTW (mkIW (mkAZ storeT NewFake (Some NewMemory) [] [] 0 0) ["tok1"; "tok2"; "tok3"; "tok4"; "tok5"; "tok6"; "tok7"]) ∅.

Definition createAcme : M TWM TenantCreatedRes :=
  CreateTenant tokHash uuid id "K" "https://auth" (λ _, "{}") None true None opCtx "acme" " Acme " "owner@acme.test".
Definition acme : string := uuid 0.
Definition z1 : TWM := (createAcme z0).2.
(** The invited owner accepts. *)
Definition acceptOwner : M (IW Fake Memory) Accepted := Accept tokHash uuid id true anonymous "tok1" "Olive" "correct horse".
Definition z2 : TWM := (iwM acceptOwner z1).2.

(** A created tenant has the built-in roles and the default policy, and its
    first owner is who accepts the invitation. *)
Example tenant_created_run :
  is_ok (createAcme z0).1 = true ∧ sort_strings (RoSlug <$> values (RoleRows (stW z1))) = ["admin"; "auditor"; "member"; "owner"] ∧
  (TPolicy <$> Tenants (stW z1) !! acme) = Some (PolicyJSON DefaultPolicy) ∧
  is_ok (iwM acceptOwner z1).1 = true ∧ (effectiveSlugs (stW z2) acme <$> (UID <$> values (Users (stW z2)))) = [["owner"]].
Proof. split_and!; vm_compute; reflexivity. Qed.

Definition z3 : TWM := (SuspendTenant opCtx acme z2).2.
Lemma suspension_effective_witness :
  SuspendTenant opCtx acme z2 = (Ok tt, z3) ∧ (TStatus <$> Tenants (stW z2) !! acme) = Some "active" ∧
  ∃ t, Tenants (stW z3) !! acme = Some (tenant_status "suspended" t).
Proof.
  assert (E : SuspendTenant opCtx acme z2 = (Ok tt, z3)) by (apply (run_ok (SuspendTenant opCtx acme) z2 tt); vm_compute; reflexivity).
  split; [exact E|]. split; [vm_compute; reflexivity|].
  destruct (suspension_effective opCtx acme z2 z3 E) as (_ & t & _ & _ & Ht & _). exists t. specialize (Ht acme).
  destruct (decide (acme = acme)) as [_|Hne]; [exact Ht|destruct (Hne eq_refl)].
Defined.

Definition shorter : Policy := mkPolicy (4 * Dur.hour) (30 * Dur.minute) (10 * Dur.minute) 14 true 5 (15 * Dur.minute).
Definition grantedCtx : Ctx := WithOperatorGrant opCtx "g" acme.
#[local] Notation setShorter := (UpdatePolicy (B:=Fake) (K:=Memory) (λ _, "{}") grantedCtx acme shorter).
Definition z4 : TWM := (setShorter z2).2.
Lemma policy_update_reads_back_witness :
  setShorter z2 = (Ok shorter, z4) ∧ GetPolicy grantedCtx acme z4 = (Ok shorter, z4).
Proof.
  assert (E : setShorter z2 = (Ok shorter, z4)) by (apply (run_ok setShorter z2 shorter); vm_compute; reflexivity).
  split; [exact E|].
  destruct (policy_update_reads_back (λ _, "{}") grantedCtx acme shorter z2 shorter z4 E) as (Hm & t & _ & _ & _ & _ & Hg).
  apply Hg. exact Hm.
Defined.

#[local] Notation askGrant := (CreateGrant (B:=Fake) (K:=Memory) uuid (λ _, "") opCtx acme "support ticket 1234" Dur.hour).
Definition z5 : TWM := (askGrant z2).2.
Definition inside : Ctx := match (ApplyGrant opCtx acme z5).1 with Ok c => c | Err _ => opCtx end.
Lemma operator_access_bounded_witness :
  ApplyGrant opCtx acme z5 = (Ok inside, (ApplyGrant opCtx acme z5).2) ∧ is_err (ApplyGrant opCtx acme z2).1 = true ∧ may_enter inside acme.
Proof.
  assert (E : ApplyGrant opCtx acme z5 = (Ok inside, (ApplyGrant opCtx acme z5).2)) by (apply (run_ok (ApplyGrant opCtx acme) z5 inside); vm_compute; reflexivity).
  split; [exact E|]. split; [vm_compute; reflexivity|].
  destruct (operator_access_bounded uuid (λ _, "") z2 z5 opCtx acme inside (ApplyGrant opCtx acme z5).2) as (op & Hop & _ & [[Ht _]|(g & _ & _ & _ & _ & _ & _ & Hm)]).
  - vm_compute. reflexivity.
  - apply rtc_once. eapply (ts_grant uuid (λ _, "") opCtx acme "support ticket 1234" Dur.hour (askGrant z2).1). apply surjective_pairing.
  - exact E.
  - exfalso. injection Hop as <-. discriminate Ht.
  - apply Hm. split; [discriminate|by right].
Defined.
